(* ===== verification/_CoqProject ===== *)
-Q . S2P
Prelude.v
TrieNode.v
TrieOps.v
TrieSpec.v
TrieRep.v
TrieRefine.v
TrieDelete.v
TrieHash.v
TrieProof.v
PatriciaMerkleTrie.v
TrieMap.v
TrieExample.v
TrieRun.v
TrieTheorems.v
SystemEI.v
StakingData.v
StakingQueue.v
StakingQueueSpec.v
StakingQueueRemove.v
StakingSC.v
StakingAccess.v
StakingState.v
StakingInvariant.v
StakingHandlers.v
EEI.v
EEITheorems.v
StakingTheorems.v
Shuffler.v
ShufflerSpec.v
ShufflerMoves.v
ShufflerNodes.v
ShufflerTheorems.v
NodesSelection.v
NodesCoordinator.v
NodesTheorems.v
Bitmap.v
ConsensusState.v
HeaderHandler.v
HeaderCheck.v
SigningHandler.v
SubroundCore.v
SubroundBlock.v
SubroundSignature.v
SubroundEndRound.v
SubroundRound.v
ConsensusBitmap.v
ConsensusFinal.v
SubroundKeeps.v
RoundInvariant.v
ConsensusLeader.v
ConsensusExample.v
ConsensusTheorems.v
TrieAllHashes.v
CommonTrie.v
TrackableDataTrie.v
UserAccount.v
AccountsDB.v
TrackableSpec.v
AccountsSim.v
AccountsUndo.v
AccountsCodes.v
AccountsRun.v
AccountsRevert.v
AccountsExample.v
AccountsTheorems.v
FeeHandler.v
TxProcessor.v
Economics.v
TxLedger.v
TxMove.v
TxRelayed.v
TxTheorems.v
ForkDetector.v
ForkChoice.v
ForkRun.v
ForkFinality.v
ForkResolve.v
Bootstrap.v
BootstrapRun.v
ForkTheorems.v
