(* ===== verification/Prelude.v ===== *)
(** * mx-chain-go: a verification library

    A node of the MultiversX chain keeps the state of the accounts in Patricia-Merkle
    tries, agrees on blocks with the other validators of its shard, chooses the validators of
    a round and moves them between the shards at the end of an epoch, and runs the system contracts that say who
    is a validator.  The development models these parts, each from its Go files under
    src/, and proves what each promises to the parts that use it.

    ** Conventions

    A Go byte slice is a list of integers ([bytes]); a slice that may be nil is an option
    ([slice]).  Integers are [Z] with their wrap-around written out ([u32], [u64], ...).
    A method that changes its receiver takes the state and returns it as the call leaves
    it, also when the call fails: [SE S E A] is such a computation on a state [S] with
    errors [E]; [let!], [;;] and [let?] are its sequencing.  A Go panic is an error value
    of its own.  Where Go walks a map in no order, the order is an argument, and the
    theorems hold for every order.  Code that is not in the repository (hashing,
    marshalling, signatures, message transport) is an argument, with what is relied on of
    it as a class of laws or a named hypothesis, and an instance that has them.

    ** The parts

    - The trie (src/trie).  [TrieNode] and [TrieOps] are the nodes and their operations
      (branchNode.go, extensionNode.go, leafNode.go, node.go), [PatriciaMerkleTrie] and
      [TrieAllHashes] the methods of patriciaMerkleTrie.go.  [TrieSpec] is the logical
      trie, [TrieRep] how nodes, partly in memory and partly in the storage, represent
      one; [TrieRefine], [TrieDelete] and [TrieHash] show that each operation keeps that; [TrieMap] and [TrieRun] lift it to key/value maps and to runs
      of calls; [TrieProof] treats Merkle proofs.  The theorems are in [TrieTheorems], on
      the codec of [TrieExample]: a trie is a map, its root hash is a function of the map
      and binds it, a commit can be recreated, proofs are complete, and where the
      verification of proofs is too weak.
    - The accounts (src/state).  [CommonTrie] is the interface common.Trie with its laws,
      which the Patricia-Merkle trie satisfies.  Over it: [TrackableDataTrie] (the data of
      an account), [UserAccount], and [AccountsDB] (accountsDB.go, journalEntries.go,
      dataTriesHolder.go), where the objects shared by pointer are in heaps.
      [TrackableSpec] says what saving the data does to the map of a data trie and that the
      old values undo it; [AccountsSim] relates a database to one whose tries are maps,
      with [AccountsCodes] for the codes; [AccountsUndo], [AccountsRun] and [AccountsRevert] show what each group of journal entries undoes and what a commit
      stores.  [AccountsTheorems]: a snapshot is restored after any calls, codes count
      their accounts, a commit is stored and can be returned to, saved data are read
      whatever the order of the Go map; and two cases in which the code loses data.
    - The consensus (src/consensus/spos, src/process/headerCheck, src/factory/crypto).
      [ConsensusState] is the state of a round, [Bitmap] the bitmaps of signers,
      [HeaderHandler] the interfaces of headers and cryptography, [HeaderCheck] the
      verification of a header, [SigningHandler] the signature shares.  [SubroundCore],
      [SubroundBlock], [SubroundSignature] and [SubroundEndRound] are the jobs, checks and
      message handlers of the subrounds, [SubroundRound] the step relation of a round, in
      which messages, jobs, checks and timeouts come in any order.  [SubroundKeeps]
      and [RoundInvariant] are the invariants of a round;
      [ConsensusBitmap], [ConsensusFinal] and [ConsensusLeader] the lemmas on bitmaps, on the final information and on commits.  [ConsensusTheorems]: a
      node signs one block in a round, two quorums have more than a third of the group in
      common (less when one of them is a quorum of the fallback, at least one member when
      both are), the final information of the leader is accepted and makes a participant
      commit, nothing unverified is committed, the readers of bitmaps agree; and two
      checks that accept too much.  [ConsensusExample] is a network of three nodes.
    - The system contracts (src/vm/systemSmartContracts).  [SystemEI] is the environment
      as the contracts see it, an interface; [EEI] is its implementation (eei.go), with
      the maps of storage updates that contexts share.  [StakingData], [StakingQueue] and
      [StakingSC] are the staking contract (staking.go, stakingWaitingList.go,
      stakingSaveLoad.go).  [StakingQueueSpec] and
      [StakingQueueRemove] refine its linked list to a queue with two priorities,
      [StakingState] is a program logic over the abstract state, and [StakingInvariant],
      [StakingHandlers] and [StakingAccess] go through the handlers.  [StakingTheorems] and
      [EEITheorems]: the queue is one, the queue, the registry and the counter agree after
      every function but init, what stake, unStake and unBond do, who can change anything; values are conserved by transfers,
      and what a failed call leaves behind.
    - The validators (src/sharding/nodesCoordinator).  [Shuffler] is the code of
      hashValidatorShuffler.go, which makes the lists of the next epoch; [ShufflerSpec],
      [ShufflerMoves] and [ShufflerNodes] follow the validators through it, and
      [ShufflerTheorems] shows that no validator is lost or doubled, that shards stay full,
      and that the result is determined by the set of validators and the randomness.
      [NodesSelection] is the weighted selection of a group out of a list
      (selectionBasedProvider.go, expandedListSampling.go), proved to be sampling without
      replacement.  [NodesCoordinator] is the coordinator that uses both
      (indexHashedNodesCoordinator*.go and its registries): the configurations of the
      epochs, the consensus groups and their cache, the start of an epoch, what is saved
      and loaded.  [NodesTheorems]: each shard of a known epoch has its consensus group,
      which depends on nothing but the randomness, the round and the eligible list, after
      any calls - a state is loaded, and validator lists are set, for epochs without
      cached groups and with enough validators;
      from the block of an epoch start to the new lists no validator is lost; a saved
      state can be loaded; and two cases that go wrong.
    - The fork choice and the synchronization (src/process/sync).  [ForkDetector] is the fork
      detector of the shards and of the metachain (baseForkDetector.go,
      shardForkDetector.go, metaForkDetector.go), [Bootstrap] the synchronization of blocks
      (baseSync.go) over the chain handler.  [ForkChoice] shows what the loops of CheckFork
      compute in any order and which header is preferred, [ForkRun] what the operations do
      to the state and that headers stay well formed, [ForkFinality] that the final nonce
      does not go back, [ForkResolve] that a fork is resolved, and [BootstrapRun] that
      going back on the chain ends at the fork.
      [ForkTheorems] states this, with a node of a shard as example, and a case in which a
      late header hides a fork.
    - The transactions (src/process/transaction, src/process/block/postprocess/feeHandler.go).
      [TxProcessor] is the processor of a shard and of the metachain (shardProcess.go,
      baseProcess.go, metaProcess.go), [FeeHandler] the fees of a block.  A processor reads
      and writes the accounts through pointers; [TxLedger] is what it relies on of them, a
      program logic over the saved accounts, the loaded objects and the fees, and the proof
      that the accounts database is such a ledger.  [TxMove] follows a transaction through
      the checks and a transfer, [TxRelayed] through a relayed transaction, and defines the
      specification: the outcomes that ProcessTransaction may have.  [TxTheorems]: it has no
      other one, what a transfer does to the accounts in one shard and in two, a
      transaction without user names that does not go to a contract is executed once, what a relayed transaction does to the money of the
      shard; and examples, over the trie, in which money is made or a transaction is charged
      twice.  [Economics] is the fees (src/process/economics), with the floating point
      product of the price: the gas limit that a balance can pay, the gas that a refund
      stands for, the settings of an epoch; the examples take their fees from it.

    ** How the parts interact

    The accounts use the trie only through [CommonTrie]; the staking contract uses its
    environment only through [SystemEI]; the subrounds use headers, signatures and the
    header verification through [HeaderHandler] and [HeaderCheck], and the signature shares
    through [SigningHandler].  The synchronization calls the fork detector directly, and the
    two kinds of detector fill the interface [ForkDetector.forkDetector]; the block
    processor and the storages around it are [Bootstrap.Surroundings].  The transaction
    processors use the accounts through [TxProcessor.AccountsAdapter] and
    [TxLedger.LedgerLaws], and the contract processor, the guardian checker, the pools and
    the fee arithmetic through [TxProcessor.TxSurroundings] and [TxProcessor.FeeComputer].
    The nodes coordinator calls the shuffler and the selector directly; its storage, its
    cache and the marshallers are [NodesCoordinator.Storer], [NodesCoordinator.Cacher] and
    [NodesCoordinator.CoordinatorEnv], with their laws in [NodesTheorems].
    The theorems of a client are proved against the interface and its laws; [EEI],
    [CommonTrie] and [TxLedger] end with the instance of the implementation and the proof
    of the laws.

    ** Fuel

    rollBack turns once for each block it goes back on; it takes the nonce of the current
    block as fuel, which [BootstrapRun] shows to be enough.  The operations of the trie
    that walk a path take the length of the key as fuel, which [TrieRefine] and
    [TrieDelete] show to be enough.  GetAllHashes walks the whole trie and takes a depth;
    RemoveAccount, its only user, is treated for every depth.  The loops over the waiting
    list of the staking contract take the length of the list, which the code keeps in the
    storage.

    ** What is not modelled

    Goroutines, channels, mutexes, logs, metrics and timers: each operation is one step.
    The storage below the trie is a map that only the commit of the trie writes; pruning,
    snapshots of the storage, and the synchronization of tries are left out, as are the
    trie's iterators.  The smart-contract processors, the block processors, the pools, interceptors and network, the other system
    contracts, genesis and the factories are not modelled: they are many, and what they do
    rests on the parts above.  Generated code (protocol buffers) appears as
    the records of its messages and a marshaller that is an argument. *)

From stdpp Require Import base list gmap sets strings.
From Stdlib Require Import ZArith Lia.

#[global] Open Scope Z_scope.

(** ** Bytes *)

(** A Go byte slice: a list of integers, each of them in [0, 256) when it comes
    from the program. *)
Abbreviation bytes := (list Z).

(** A Go slice that may be [nil] is an [option bytes]. *)
Abbreviation slice := (option (list Z)).

Definition isByte (z : Z) : Prop := 0 <= z < 256.
Definition isBytes (l : bytes) : Prop := Forall isByte l.

(** The bytes of a string constant of the source. *)
Definition str (s : string) : bytes :=
  map (fun c => Z.of_nat (Ascii.nat_of_ascii c)) (String.list_ascii_of_string s).

Definition blen (l : bytes) : Z := Z.of_nat (length l).

(** [len(s)] of a possibly nil slice. *)
Definition slen (s : slice) : Z := match s with Some l => blen l | None => 0 end.

(** Go's [copy(dst, src)]: the first min(len dst, len src) elements of dst are
    overwritten, the length of dst does not change. *)
Definition copyInto (dst src : bytes) : bytes :=
  take (length dst) src ++ drop (length src) dst.

(** ** Machine integers *)

Definition u8 (z : Z) : Z := z mod 2 ^ 8.
Definition u32 (z : Z) : Z := z mod 2 ^ 32.
Definition u64 (z : Z) : Z := z mod 2 ^ 64.
Definition i32 (z : Z) : Z := (z + 2 ^ 31) mod 2 ^ 32 - 2 ^ 31.
Definition i64 (z : Z) : Z := (z + 2 ^ 63) mod 2 ^ 64 - 2 ^ 63.

Definition MaxUint8 : Z := 2 ^ 8 - 1.
Definition MaxUint32 : Z := 2 ^ 32 - 1.
Definition MaxUint64 : Z := 2 ^ 64 - 1.
Definition MinInt32 : Z := - 2 ^ 31.

(** ** Error results *)

Declare Scope go_scope.
Delimit Scope go_scope with go.
#[global] Open Scope go_scope.

Definition rbind {E A B} (m : E + A) (f : A -> E + B) : E + B :=
  match m with inl e => inl e | inr a => f a end.

Notation "'let?' x ':=' m 'in' k" := (rbind m (fun x => k))
  (at level 10, x pattern, m at level 100, k at level 200) : go_scope.

(** ** A state and error monad

    A computation on a state [S] that may stop with an [E]: the state reached
    when it stops is kept, as Go keeps the mutations made before an early
    return. *)
Definition SE (S E A : Type) : Type := S -> S * (E + A).

Section StateError.
Context {S E : Type}.

Definition ret {A} (a : A) : SE S E A := fun s => (s, inr a).
Definition throw {A} (e : E) : SE S E A := fun s => (s, inl e).
Definition bind {A B} (m : SE S E A) (f : A -> SE S E B) : SE S E B :=
  fun s => match m s with
           | (s', inl e) => (s', inl e)
           | (s', inr a) => f a s'
           end.
Definition gets {A} (f : S -> A) : SE S E A := fun s => (s, inr (f s)).
Definition modify (f : S -> S) : SE S E unit := fun s => (f s, inr tt).
Definition liftR {A} (r : E + A) : SE S E A := fun s => (s, r).

(** [x, err := m; if err != nil \{ return h(err) \}] *)
Definition onErr {E' A} (m : SE S E' A) (h : E' -> SE S E A) : SE S E A :=
  fun s => match m s with
           | (s', inl e) => h e s'
           | (s', inr a) => (s', inr a)
           end.

(** [for _, x := range l \{ acc = f(acc, x) \}] with early returns. *)
Fixpoint foldM {A B} (f : B -> A -> SE S E B) (b : B) (l : list A) : SE S E B :=
  match l with
  | [] => ret b
  | x :: l' => bind (f b x) (fun b' => foldM f b' l')
  end.

Lemma bind_ok {A B} (m : SE S E A) (f : A -> SE S E B) s s' a :
  m s = (s', inr a) -> bind m f s = f a s'.
Proof. intros H. unfold bind. by rewrite H. Qed.

Lemma bind_err {A B} (m : SE S E A) (f : A -> SE S E B) s s' e :
  m s = (s', inl e) -> bind m f s = (s', inl e).
Proof. intros H. unfold bind. by rewrite H. Qed.

Lemma onErr_ok {E' A} (m : SE S E' A) (h : E' -> SE S E A) s s' a :
  m s = (s', inr a) -> onErr m h s = (s', inr a).
Proof. intros H. unfold onErr. by rewrite H. Qed.

Lemma onErr_err {E' A} (m : SE S E' A) (h : E' -> SE S E A) s s' e :
  m s = (s', inl e) -> onErr m h s = h e s'.
Proof. intros H. unfold onErr. by rewrite H. Qed.
End StateError.

Notation "'let!' x ':=' m 'in' k" := (bind m (fun x => k))
  (at level 10, x pattern, m at level 100, k at level 200) : go_scope.
Notation "m ;; k" := (bind m (fun _ => k))
  (at level 100, k at level 200, right associativity) : go_scope.

(** ** Generic lemmas *)

Lemma bytes_dec (a b : bytes) : {a = b} + {a <> b}.
Proof. exact (decide (a = b)). Defined.

(** [bytes.Equal] *)
Definition beq (a b : bytes) : bool := bool_decide (a = b).

Lemma beq_true a b : beq a b = true <-> a = b.
Proof. unfold beq. apply bool_decide_eq_true. Qed.

Lemma beq_false a b : beq a b = false <-> a <> b.
Proof. unfold beq. apply bool_decide_eq_false. Qed.

Lemma beq_refl a : beq a a = true.
Proof. by apply beq_true. Qed.

Lemma copyInto_same_length (dst src : bytes) :
  length dst = length src -> copyInto dst src = src.
Proof.
  intros H. unfold copyInto. rewrite H, <- H at 1.
  rewrite take_ge by lia. rewrite drop_ge by lia. apply app_nil_r.
Qed.

Lemma u32_succ n : 0 <= n < MaxUint32 -> u32 (n + 1) = n + 1.
Proof. intros H. apply Z.mod_small. unfold MaxUint32 in H. lia. Qed.

Lemma i64_small n : 0 <= n < 2 ^ 63 -> i64 n = n.
Proof. intros H. unfold i64. rewrite Z.mod_small; lia. Qed.

Lemma blen_0 (l : bytes) : blen l = 0 <-> l = [].
Proof. unfold blen. destruct l; simpl; split; intros; try done; lia. Qed.

Lemma snoc_case {A} (l : list A) : l <> [] -> exists l1 z, l = l1 ++ [z].
Proof. intros H. destruct (exists_last H) as (l1 & z & ->). eauto. Qed.

Lemma snoc_or_nil {A} (l : list A) : l = [] \/ exists l1 z, l = l1 ++ [z].
Proof. destruct l as [|x l]; [by left|right]. by apply snoc_case. Qed.

(** ** Permutations, by counting *)

Section Counting.
Context {A : Type} `{EqDecision A}.

Definition cnt1 (x y : A) : nat := if decide (x = y) then 1%nat else 0%nat.
Definition cnt (x : A) (l : list A) : nat := foldr (fun y n => (cnt1 x y + n)%nat) 0%nat l.

Lemma cnt_nil x : cnt x [] = 0%nat.
Proof. done. Qed.
Lemma cnt_cons x y l : cnt x (y :: l) = (cnt1 x y + cnt x l)%nat.
Proof. done. Qed.
Lemma cnt_app x l k : cnt x (l ++ k) = (cnt x l + cnt x k)%nat.
Proof. induction l as [|y l IH]; simpl; lia. Qed.

Lemma cnt_0 x l : cnt x l = 0%nat <-> x ∉ l.
Proof.
  induction l as [|y l IH]; simpl; [split; [by intros _ ?%elem_of_nil|done]|].
  unfold cnt1. rewrite not_elem_of_cons. destruct (decide (x = y)); split; intros ?.
  - lia.
  - naive_solver.
  - split; [done|]. apply IH. lia.
  - destruct IH as [_ IH]. rewrite IH; [done|naive_solver].
Qed.

Lemma cnt_le_1 l : NoDup l <-> forall x, (cnt x l <= 1)%nat.
Proof.
  induction l as [|y l IH]; simpl; [split; [intros; lia|constructor]|].
  rewrite NoDup_cons, IH. unfold cnt1. split.
  - intros [H1 H2] x. destruct (decide (x = y)) as [->|]; [|apply H2].
    apply cnt_0 in H1. lia.
  - intros Hx. split.
    + apply cnt_0. specialize (Hx y). rewrite decide_True in Hx by done. lia.
    + intros x. specialize (Hx x). lia.
Qed.

Lemma perm_count l k : l ≡ₚ k <-> forall x, cnt x l = cnt x k.
Proof.
  split.
  - intros Hp x. induction Hp; simpl; lia.
  - revert k. induction l as [|y l IH]; intros k Hk.
    + destruct k as [|z k]; [done|]. specialize (Hk z). simpl in Hk. unfold cnt1 in Hk.
      rewrite decide_True in Hk by done. lia.
    + assert (Hin : y ∈ k).
      { destruct (decide (y ∈ k)) as [|Hn]; [done|]. apply cnt_0 in Hn. specialize (Hk y).
        simpl in Hk. unfold cnt1 in Hk. rewrite decide_True in Hk by done. lia. }
      apply list_elem_of_split in Hin as (k1 & k2 & ->). rewrite <- Permutation_middle.
      apply Permutation_skip, IH. intros x. specialize (Hk x). rewrite cnt_app in *. simpl in Hk. lia.
Qed.
End Counting.

(** Close a permutation of concatenations from the permutations in the context. *)
Ltac perm_facts x :=
  repeat match goal with
  | H : ?l ≡ₚ ?k |- _ => pose proof (proj1 (perm_count l k) H x); clear H
  end;
  rewrite ?cnt_app, ?cnt_cons, ?cnt_nil in *.
Ltac perm := let x := fresh "x" in apply perm_count; intros x; perm_facts x; lia.

(** ** The sum of a part of the values of a map *)

Section MapSum.
Context {K V : Type} `{Countable K}.
Implicit Types (part : V -> Z) (m : gmap K V).

Definition mapSum part m : Z := map_fold (fun _ v n => part v + n) 0 m.

Lemma mapSum_empty part : mapSum part ∅ = 0.
Proof. apply map_fold_empty. Qed.

Lemma mapSum_new part m k v : m !! k = None -> mapSum part (<[k := v]> m) = part v + mapSum part m.
Proof. intros Hn. unfold mapSum. rewrite map_fold_insert_L; [done|intros; lia|done]. Qed.

Lemma mapSum_delete part m k v : m !! k = Some v -> mapSum part (base.delete k m) = mapSum part m - part v.
Proof.
  intros E. rewrite <- (insert_delete_id m k v E) at 2. rewrite mapSum_new by apply lookup_delete_eq. lia.
Qed.

Lemma mapSum_insert part m k v :
  mapSum part (<[k := v]> m) = mapSum part m + part v - match m !! k with Some old => part old | None => 0 end.
Proof.
  destruct (m !! k) as [old|] eqn:E; [|rewrite mapSum_new by done; lia].
  rewrite <- insert_delete_eq, mapSum_new by apply lookup_delete_eq. rewrite (mapSum_delete _ _ _ old) by done. lia.
Qed.
End MapSum.

Lemma filter_all {A} (P : A -> Prop) `{forall x, Decision (P x)} l : Forall P l -> filter P l = l.
Proof. induction 1 as [|x l Hx _ IH]; [done|]. by rewrite filter_cons_True, IH by done. Qed.

Lemma filter_none {A} (P : A -> Prop) `{forall x, Decision (P x)} l :
  Forall (fun x => ~ P x) l -> filter P l = [].
Proof. induction 1 as [|x l Hx _ IH]; [done|]. by rewrite filter_cons_False, IH by done. Qed.

Create HintDb go.
#[export] Hint Resolve beq_refl : go.

(** Split the test of an [if] on booleans into its propositional cases. *)
Ltac case_beq :=
  match goal with
  | |- context [beq ?a ?b] =>
      let H := fresh "Heq" in
      destruct (beq a b) eqn:H; [apply beq_true in H | apply beq_false in H]
  end.

(** Bounds of the elements of a concrete list. *)
Ltac forall_bounds :=
  repeat (apply Forall_cons; split; [vm_compute; split; (discriminate || reflexivity)|]); apply Forall_nil_2.
