(* ===== verification/TrieNode.v ===== *)
(** * The nodes of the Patricia-Merkle trie (trie/node.go, branchNode.go,
    extensionNode.go, leafNode.go): data, storage interface, encoding, version
    and hash computation. *)

From stdpp Require Import base list gmap.
From Stdlib Require Import ZArith Lia.
From S2P Require Import Prelude.

(** ** Constants (node.go, patriciaMerkleTrie.go) *)

Definition nrOfChildren : nat := 17.
#[global] Arguments nrOfChildren : simpl never.
Definition hexTerminator : Z := 16.
Definition nibbleMask : Z := 15.
Definition NibbleSize : Z := 4.
Definition NotSpecified : Z := 0.

Definition extensionType : Z := 0.
Definition leafType : Z := 1.
Definition branchType : Z := 2.

(** ** Errors

    The errors of trie/errors.go the operations return, the failures of the
    storage and of the marshaller, a Go run-time panic (an index out of range or
    a nil dereference) and the end of the fuel of a recursive definition.  The
    text that wraps an error is not kept. *)
Inductive trieErr :=
| ErrEmptyBranchNode
| ErrEmptyExtensionNode
| ErrEmptyLeafNode
| ErrNilNode
| ErrInvalidNode
| ErrInvalidEncoding
| ErrInvalidLength
| ErrValueTooShort
| ErrChildPosOutOfRange
| ErrNodeNotFound
| ErrInvalidNodeVersion
| ErrGetNodeFromDB
| ErrMarshal
| ErrUnmarshal
| ErrPut
| ErrInvalidLevelValue
| GoPanic
| OutOfFuel.

#[global] Instance trieErr_eq_dec : EqDecision trieErr.
Proof. solve_decision. Defined.

(** ** Serialized nodes

    CollapsedBn, CollapsedEn and CollapsedLn (node.proto). *)
Inductive cnode :=
| CollapsedBn (EncodedChildren : list bytes) (ChildrenVersion : bytes)
| CollapsedEn (Key EncodedChild : bytes) (ChildVersion : Z)
| CollapsedLn (Key : bytes) (Value : slice) (Version : Z).

(** The marshaller and the hasher come from another module (mx-chain-core-go):
    they are parameters. *)
Class Codec := {
  marshal : cnode -> option bytes;
  unmarshalBn : bytes -> option (list bytes * bytes);
  unmarshalEn : bytes -> option (bytes * bytes * Z);
  unmarshalLn : bytes -> option (bytes * slice * Z);
  compute : bytes -> bytes;
}.

(** What the trie relies on: marshalling succeeds, unmarshalling undoes it, and
    a hash is never the empty string. *)
Class CodecLaws (C : Codec) : Prop := {
  marshal_total : forall c, is_Some (marshal c);
  unmarshal_bn : forall encs vers b,
    marshal (CollapsedBn encs vers) = Some b -> unmarshalBn b = Some (encs, vers);
  unmarshal_en : forall k enc v b,
    marshal (CollapsedEn k enc v) = Some b -> unmarshalEn b = Some (k, enc, v);
  unmarshal_ln : forall k v ver b,
    v <> [] -> marshal (CollapsedLn k (Some v) ver) = Some b ->
    unmarshalLn b = Some (k, Some v, ver);
  compute_nonempty : forall x, compute x <> [];
}.

(** The storage the nodes are read from and saved to (common.TrieStorageInteractor
    and common.BaseStorer): an interface of the trie. *)
Class TrieStorage (St : Type) := {
  sGet : St -> bytes -> option bytes;
  sPut : St -> bytes -> bytes -> option St;
}.

Class TrieStorageLaws (St : Type) `{TrieStorage St} : Prop := {
  sGet_put_eq : forall st k v st', sPut st k v = Some st' -> sGet st' k = Some v;
  sGet_put_ne : forall st k v st' k',
    sPut st k v = Some st' -> k' <> k -> sGet st' k' = sGet st k';
  sPut_total : forall st k v, is_Some (sPut st k v);
}.

(** The in-memory map is a storage. *)
#[global] Instance gmapStorage : TrieStorage (gmap bytes bytes) := {
  sGet st k := st !! k;
  sPut st k v := Some (<[k := v]> st);
}.

#[global] Instance gmapStorageLaws : TrieStorageLaws (gmap bytes bytes).
Proof.
  split; simpl; intros; simplify_eq.
  - apply lookup_insert_eq.
  - by apply lookup_insert_ne.
  - by eexists.
Qed.

(** ** Nodes

    baseNode without the marshaller and the hasher, which are the same for all
    the nodes of a trie. *)
Record baseNode := mkBase { bhash : slice; bdirty : bool }.

Inductive node :=
| leafNode (b : baseNode) (Key : bytes) (Value : slice) (Version : Z)
| extensionNode (b : baseNode) (Key EncodedChild : bytes) (ChildVersion : Z)
    (child : option node)
| branchNode (b : baseNode) (EncodedChildren : list bytes) (ChildrenVersion : bytes)
    (children : list (option node)).

Definition baseOf (n : node) : baseNode :=
  match n with
  | leafNode b _ _ _ => b
  | extensionNode b _ _ _ _ => b
  | branchNode b _ _ _ => b
  end.

Definition setBase (n : node) (b : baseNode) : node :=
  match n with
  | leafNode _ k v ver => leafNode b k v ver
  | extensionNode _ k e ver c => extensionNode b k e ver c
  | branchNode _ es vs cs => branchNode b es vs cs
  end.

Definition getHash (n : node) : slice := bhash (baseOf n).
Definition isDirty (n : node) : bool := bdirty (baseOf n).
Definition setGivenHash (n : node) (h : bytes) : node :=
  setBase n (mkBase (Some h) (bdirty (baseOf n))).
Definition setDirty (n : node) (d : bool) : node :=
  setBase n (mkBase (bhash (baseOf n)) d).

Definition newBase : baseNode := mkBase None true.

(** TrieData of mx-chain-core-go. *)
Record TrieData := mkTrieData { tdKey : bytes; tdValue : bytes; tdVersion : Z }.

Definition newLeafNode (d : TrieData) : node :=
  leafNode newBase (tdKey d) (Some (tdValue d)) (u32 (tdVersion d)).

Definition newBranchNode : node :=
  branchNode newBase (replicate nrOfChildren []) [] (replicate nrOfChildren None).

(** ** Emptiness *)

(** [bn.children[i] != nil || len(bn.EncodedChildren[i]) != 0], the encoded
    children being indexed only when the child is nil. *)
Definition slotPresent (c : option node) (encs : list bytes) : trieErr + bool :=
  match c with
  | Some _ => inr true
  | None => match encs with
            | [] => inl GoPanic
            | e :: _ => inr (negb (blen e =? 0))
            end
  end.

Fixpoint branchNotEmpty (cs : list (option node)) (encs : list bytes) : trieErr + unit :=
  match cs with
  | [] => inl ErrEmptyBranchNode
  | c :: cs' =>
      let? present := slotPresent c encs in
      if present : bool then inr tt else branchNotEmpty cs' (tail encs)
  end.

Definition isEmptyOrNil (n : node) : trieErr + unit :=
  match n with
  | leafNode _ _ v _ => match v with None => inl ErrEmptyLeafNode | Some _ => inr tt end
  | extensionNode _ _ enc _ c =>
      match c with
      | None => if blen enc =? 0 then inl ErrEmptyExtensionNode else inr tt
      | Some _ => inr tt
      end
  | branchNode _ encs _ cs => branchNotEmpty cs encs
  end.

(** ** Versions *)

(** The two loops of branchNode.getVersion: [cur] is the version of the first
    present child, once it has been found. *)
Fixpoint versionScan (cs : list (option node)) (encs : list bytes) (vers : bytes)
    (cur : option Z) : trieErr + Z :=
  match cs with
  | [] => inr (default NotSpecified cur)
  | c :: cs' =>
      let? present := slotPresent c encs in
      if present : bool then
        match vers with
        | [] => inl GoPanic
        | v :: vers' =>
            match cur with
            | None => versionScan cs' (tail encs) vers' (Some v)
            | Some v0 =>
                if v =? v0 then versionScan cs' (tail encs) vers' cur
                else inr NotSpecified
            end
        end
      else versionScan cs' (tail encs) (tail vers) cur
  end.

Definition getVersion (n : node) : trieErr + Z :=
  match n with
  | leafNode _ _ _ ver =>
      if MaxUint8 <? ver then inl ErrInvalidNodeVersion else inr ver
  | extensionNode _ _ _ ver _ =>
      if MaxUint8 <? ver then inl ErrInvalidNodeVersion else inr ver
  | branchNode _ encs vers cs =>
      if blen vers =? 0 then inr NotSpecified else versionScan cs encs vers None
  end.

Definition revertChildrenVersionSliceIfNeeded (vers : bytes) : bytes :=
  if forallb (fun v => v =? NotSpecified) vers then [] else vers.

(** branchNode.setVersionForChild, on the ChildrenVersion slice. *)
Definition setVersionForChild (vers : bytes) (version childPos : Z) : trieErr + bytes :=
  let sliceNotInitialized := blen vers =? 0 in
  if (version =? NotSpecified) && sliceNotInitialized then inr vers
  else
    let vers1 := if sliceNotInitialized then replicate nrOfChildren 0 else vers in
    if blen vers1 <=? childPos then inl GoPanic
    else
      let vers2 := <[Z.to_nat childPos := u8 version]> vers1 in
      if version =? NotSpecified then inr (revertChildrenVersionSliceIfNeeded vers2)
      else inr vers2.

Definition newExtensionNode (key : bytes) (child : option node) : trieErr + node :=
  match child with
  | None => inl ErrNilNode
  | Some c =>
      let? childVersion := getVersion c in
      inr (extensionNode newBase key [] (u32 childVersion) child)
  end.

#[global] Arguments setVersionForChild : simpl never.
#[global] Arguments newExtensionNode : simpl never.

Section Encoding.
Context `{C : Codec}.

(** ** Encoding *)

Definition toCnode (n : node) : cnode :=
  match n with
  | leafNode _ k v ver => CollapsedLn k v ver
  | extensionNode _ k enc ver _ => CollapsedEn k enc ver
  | branchNode _ encs vers _ => CollapsedBn encs vers
  end.

Definition typeByte (n : node) : Z :=
  match n with
  | leafNode _ _ _ _ => leafType
  | extensionNode _ _ _ _ _ => extensionType
  | branchNode _ _ _ _ => branchType
  end.

Definition getEncodedNode (n : node) : trieErr + bytes :=
  let? _ := isEmptyOrNil n in
  match marshal (toCnode n) with
  | None => inl ErrMarshal
  | Some m => inr (m ++ [typeByte n])
  end.

Definition encodeNodeAndGetHash (n : node) : trieErr + bytes :=
  let? enc := getEncodedNode n in inr (compute enc).

(** getEmptyNodeOfType and the unmarshalling into the empty node. *)
Definition unmarshalNode (nodeType : Z) (enc : bytes) : trieErr + node :=
  let b := mkBase None false in
  if nodeType =? extensionType then
    match unmarshalEn enc with
    | None => inl ErrUnmarshal
    | Some (k, e, v) => inr (extensionNode b k e v None)
    end
  else if nodeType =? leafType then
    match unmarshalLn enc with
    | None => inl ErrUnmarshal
    | Some (k, v, ver) => inr (leafNode b k v ver)
    end
  else if nodeType =? branchType then
    match unmarshalBn enc with
    | None => inl ErrUnmarshal
    | Some (encs, vers) => inr (branchNode b encs vers (replicate nrOfChildren None))
    end
  else inl ErrInvalidNode.

Definition decodeNode (encNode : bytes) : trieErr + node :=
  match last encNode with
  | None => inl ErrInvalidEncoding
  | Some nodeType => unmarshalNode nodeType (take (length encNode - 1) encNode)
  end.

Definition getNodeFromDBAndDecode {St} `{TrieStorage St} (hash : bytes) (db : St)
  : trieErr + node :=
  match sGet db hash with
  | None => inl ErrGetNodeFromDB
  | Some encChild => decodeNode encChild
  end.

(** ** Hashing *)

Definition isCollapsed (n : node) : bool :=
  match n with
  | leafNode _ _ _ _ => false
  | extensionNode _ _ enc _ c =>
      match c with None => negb (blen enc =? 0) | Some _ => false end
  | branchNode _ _ _ cs => forallb (fun c => match c with None => true | Some _ => false end) cs
  end.

(** The loop of branchNode.hashNode over EncodedChildren. *)
Fixpoint encodeChildren (encs : list bytes) (cs : list (option node))
  : list bytes * (trieErr + unit) :=
  match encs with
  | [] => ([], inr tt)
  | e :: encs' =>
      match cs with
      | [] => (encs, inl GoPanic)
      | None :: cs' =>
          let (r, x) := encodeChildren encs' cs' in (e :: r, x)
      | Some c :: cs' =>
          match encodeNodeAndGetHash c with
          | inl err => (encs, inl err)
          | inr h => let (r, x) := encodeChildren encs' cs' in (h :: r, x)
          end
      end
  end.

(** hashNode: the encoded children of the in-memory children are recomputed in
    the receiver, then the node is hashed. *)
Definition hashNode (n : node) : node * (trieErr + bytes) :=
  match isEmptyOrNil n with
  | inl e => (n, inl e)
  | inr _ =>
      match n with
      | leafNode _ _ _ _ => (n, encodeNodeAndGetHash n)
      | extensionNode b k enc ver c =>
          match c with
          | None => (n, encodeNodeAndGetHash n)
          | Some c0 =>
              match encodeNodeAndGetHash c0 with
              | inl e => (n, inl e)
              | inr h =>
                  let n' := extensionNode b k h ver c in
                  (n', encodeNodeAndGetHash n')
              end
          end
      | branchNode b encs vers cs =>
          let (encs', r) := encodeChildren encs cs in
          let n' := branchNode b encs' vers cs in
          match r with
          | inl e => (n', inl e)
          | inr _ => (n', encodeNodeAndGetHash n')
          end
      end
  end.

(** [hash, err := ...; if err != nil \{ return err \}; n.hash = hash] *)
Definition storeHash (p : node * (trieErr + bytes)) : node * (trieErr + unit) :=
  match p with
  | (n, inl e) => (n, inl e)
  | (n, inr h) => (setGivenHash n h, inr tt)
  end.

(** The loop of branchNode.hashChildren, for the hashing function of a child. *)
Definition hashEach (f : node -> node * (trieErr + unit))
  : list (option node) -> list (option node) * (trieErr + unit) :=
  fix go cs :=
    match cs with
    | [] => ([], inr tt)
    | None :: cs' => let (r, x) := go cs' in (None :: r, x)
    | Some c :: cs' =>
        match f c with
        | (c', inl e) => (Some c' :: cs', inl e)
        | (c', inr _) => let (r, x) := go cs' in (Some c' :: r, x)
        end
    end.

Fixpoint setHash (n : node) : node * (trieErr + unit) :=
  match isEmptyOrNil n with
  | inl e => (n, inl e)
  | inr _ =>
      match getHash n with
      | Some _ => (n, inr tt)
      | None =>
          match n with
          | leafNode _ _ _ _ => storeHash (hashNode n)
          | extensionNode b k enc ver c =>
              match c with
              | None => storeHash (n, encodeNodeAndGetHash n)
              | Some c0 =>
                  match setHash c0 with
                  | (c', inl e) => (extensionNode b k enc ver (Some c'), inl e)
                  | (c', inr _) => storeHash (hashNode (extensionNode b k enc ver (Some c')))
                  end
              end
          | branchNode b encs vers cs =>
              if isCollapsed n then storeHash (n, encodeNodeAndGetHash n)
              else
                match hashEach setHash cs with
                | (cs', inl e) => (branchNode b encs vers cs', inl e)
                | (cs', inr _) => storeHash (hashNode (branchNode b encs vers cs'))
                end
          end
      end
  end.

(** The goroutines of branchNode.setRootHash, one per in-memory child: they
    work on disjoint subtrees and all of them run, whatever the others return;
    an error sent on the channel is returned after the wait (the first child's
    here, any of them in the program). *)
Definition hashAll (f : node -> node * (trieErr + unit))
  : list (option node) -> list (option node) * (trieErr + unit) :=
  fix go cs :=
    match cs with
    | [] => ([], inr tt)
    | None :: cs' => let (r, x) := go cs' in (None :: r, x)
    | Some c :: cs' =>
        let (c', x) := f c in
        let (r, y) := go cs' in
        (Some c' :: r, match x with inl e => inl e | inr _ => y end)
    end.

Definition setRootHash (n : node) : node * (trieErr + unit) :=
  match n with
  | branchNode b encs vers cs =>
      match isEmptyOrNil n with
      | inl e => (n, inl e)
      | inr _ =>
          match getHash n with
          | Some _ => (n, inr tt)
          | None =>
              if isCollapsed n then storeHash (n, encodeNodeAndGetHash n)
              else
                match hashAll setHash cs with
                | (cs', inl e) => (branchNode b encs vers cs', inl e)
                | (cs', inr _) => storeHash (hashNode (branchNode b encs vers cs'))
                end
          end
      end
  | _ => setHash n
  end.

Definition hasValidHash (n : node) : trieErr + bool :=
  let? _ := isEmptyOrNil n in
  match getHash n with
  | None => inr false
  | Some _ => inr (negb (isDirty n))
  end.

Definition hashIfInvalid (c : node) : node * (trieErr + unit) :=
  match hasValidHash c with
  | inl e => (c, inl e)
  | inr true => (c, inr tt)
  | inr false => setHash c
  end.

(** The loop of getCollapsedBn: the in-memory children are hashed if needed and
    their hashes are written to EncodedChildren, a slice the clone shares with
    the receiver. *)
Fixpoint collapseChildren (encs : list bytes) (cs : list (option node))
  : list bytes * list (option node) * (trieErr + unit) :=
  match cs with
  | [] => (encs, [], inr tt)
  | None :: cs' =>
      let '(es, r, x) := collapseChildren (tail encs) cs' in
      (firstn 1 encs ++ es, None :: r, x)
  | Some c :: cs' =>
      match hashIfInvalid c with
      | (c', inl e) => (encs, Some c' :: cs', inl e)
      | (c', inr _) =>
          match encs with
          | [] => (encs, Some c' :: cs', inl GoPanic)
          | _ :: encs' =>
              let '(es, r, x) := collapseChildren encs' cs' in
              (default [] (getHash c') :: es, Some c' :: r, x)
          end
      end
  end.

(** getCollapsed: the receiver after the call, and the collapsed node. *)
Definition getCollapsed (n : node) : node * (trieErr + node) :=
  match n with
  | leafNode _ _ _ _ => (n, inr n)
  | extensionNode b k enc ver c =>
      match isEmptyOrNil n with
      | inl e => (n, inl e)
      | inr _ =>
          match c with
          | None => (n, inr n)
          | Some c0 =>
              match hashIfInvalid c0 with
              | (c', inl e) => (extensionNode b k enc ver (Some c'), inl e)
              | (c', inr _) =>
                  (extensionNode b k enc ver (Some c'),
                   inr (extensionNode b k (default [] (getHash c')) ver None))
              end
          end
      end
  | branchNode b encs vers cs =>
      match isEmptyOrNil n with
      | inl e => (n, inl e)
      | inr _ =>
          if isCollapsed n then (n, inr n)
          else
            match collapseChildren encs cs with
            | (es, cs', inl e) => (branchNode b es vers cs', inl e)
            | (es, cs', inr _) =>
                (branchNode b es vers cs',
                 inr (branchNode b es vers (replicate (length cs) None)))
            end
      end
  end.

Definition collapseAndEncodeNode (n : node) : node * (trieErr + bytes) :=
  match getCollapsed n with
  | (n', inl e) => (n', inl e)
  | (n', inr c) => (n', getEncodedNode c)
  end.

Definition computeAndSetNodeHash (n : node) : node * (trieErr + bytes) :=
  if slen (getHash n) =? 0 then
    match setHash n with
    | (n', inl e) => (n', inl e)
    | (n', inr _) => (n', inr (default [] (getHash n')))
    end
  else (n, inr (default [] (getHash n))).

Definition encodeNodeAndCommitToDB {St} `{TrieStorage St} (n : node) (db : St)
  : node * St * (trieErr + Z) :=
  match computeAndSetNodeHash n with
  | (n1, inl e) => (n1, db, inl e)
  | (n1, inr key) =>
      match collapseAndEncodeNode n1 with
      | (n2, inl e) => (n2, db, inl e)
      | (n2, inr val) =>
          match sPut db key val with
          | None => (n2, db, inl ErrPut)
          | Some db' => (n2, db', inr (blen val))
          end
      end
  end.
End Encoding.
