(* ===== verification/TrieOps.v ===== *)
(** * The operations of the Patricia-Merkle trie: reading, inserting and deleting
    at a node (trie/branchNode.go, extensionNode.go, leafNode.go) and the methods
    of the trie (trie/patriciaMerkleTrie.go, keyBuilder/keyBuilder.go).

    A Go method mutates its receiver and may also return another node.  The
    definitions return both: first the receiver as the call leaves it, then the
    result.  The recursion of the program follows the nodes of the storage, so
    the definitions take fuel; [TrieRefine] shows that [trieFuel] is enough. *)

From stdpp Require Import base list gmap.
From Stdlib Require Import ZArith Lia.
From S2P Require Import Prelude TrieNode.

(** ** Keys (node.go, keyBuilder.go) *)

(** keyBytesToHex: the loop fills the nibbles from the end of the slice towards
    its start, so each byte of the key is prepended, low nibble first. *)
Definition keyBytesToHex (key : bytes) : bytes :=
  fold_left (fun acc b => Z.land b nibbleMask :: Z.shiftr b NibbleSize :: acc) key []
    ++ [hexTerminator].

(** The pairs of nibbles of hexToTrieKeyBytes, the first pair giving the last
    byte of the key. *)
Fixpoint hexPairs (hex : bytes) : bytes :=
  match hex with
  | lo :: hi :: rest => hexPairs rest ++ [u8 (Z.lor (u8 (Z.shiftl hi NibbleSize)) lo)]
  | _ => []
  end.

Definition hexToTrieKeyBytes (hex : bytes) : trieErr + bytes :=
  match hex with
  | [] => inl GoPanic
  | _ =>
      let hex' := take (length hex - 1) hex in
      if negb (blen hex' mod 2 =? 0) then inl ErrInvalidLength
      else inr (hexPairs hex')
  end.

Fixpoint prefixLen (a b : bytes) : nat :=
  match a, b with
  | x :: a', y :: b' => if x =? y then S (prefixLen a' b') else 0%nat
  | _, _ => 0%nat
  end.

Definition childPosOutOfRange (pos : Z) : bool := Z.of_nat nrOfChildren <=? pos.

(** ** Collapsed children (node.go) *)

Definition childAt (n : node) (pos : Z) : option node :=
  match n with
  | leafNode _ _ _ _ => None
  | extensionNode _ _ _ _ c => c
  | branchNode _ _ _ cs => mjoin (cs !! Z.to_nat pos)
  end.

Definition setChildAt (n : node) (pos : Z) (c : option node) : node :=
  match n with
  | leafNode _ _ _ _ => n
  | extensionNode b k enc ver _ => extensionNode b k enc ver c
  | branchNode b encs vers cs => branchNode b encs vers (<[Z.to_nat pos := c]> cs)
  end.

Definition isPosCollapsed (n : node) (pos : Z) : trieErr + bool :=
  match n with
  | leafNode _ _ _ _ => inr false
  | extensionNode _ _ _ _ _ => inr (isCollapsed n)
  | branchNode _ encs _ cs =>
      match mjoin (cs !! Z.to_nat pos) with
      | Some _ => inr false
      | None =>
          match encs !! Z.to_nat pos with
          | None => inl GoPanic
          | Some e => inr (negb (blen e =? 0))
          end
      end
  end.

Section Operations.
Context `{C : Codec} {St : Type} `{TS : TrieStorage St}.

Definition resolveCollapsed (n : node) (pos : Z) (db : St) : trieErr + node :=
  match n with
  | leafNode _ _ _ _ => inr n
  | extensionNode _ _ enc _ _ =>
      let? _ := isEmptyOrNil n in
      let? child := getNodeFromDBAndDecode enc db in
      inr (setChildAt n pos (Some (setGivenHash child enc)))
  | branchNode _ encs _ _ =>
      let? _ := isEmptyOrNil n in
      if childPosOutOfRange pos then inl ErrChildPosOutOfRange
      else
        let enc := default [] (encs !! Z.to_nat pos) in
        if blen enc =? 0 then inr n
        else
          let? child := getNodeFromDBAndDecode enc db in
          inr (setChildAt n pos (Some (setGivenHash child enc)))
  end.

Definition resolveIfCollapsed (n : node) (pos : Z) (db : St) : trieErr + node :=
  let? _ := isEmptyOrNil n in
  let? collapsed := isPosCollapsed n pos in
  if collapsed : bool then resolveCollapsed n pos db else inr n.

(** ** tryGet *)

Fixpoint tryGet (fuel : nat) (n : node) (key : bytes) (currentDepth : Z) (db : St)
  : node * (Z * (trieErr + slice)) :=
  match fuel with
  | O => (n, (currentDepth, inl OutOfFuel))
  | S fuel =>
      match isEmptyOrNil n with
      | inl e => (n, (currentDepth, inl e))
      | inr _ =>
          match n with
          | leafNode _ k v _ =>
              if beq key k then (n, (currentDepth, inr v))
              else (n, (currentDepth, inr None))
          | extensionNode _ k _ _ _ =>
              if blen key <? blen k then (n, (currentDepth, inr None))
              else if negb (beq k (take (length k) key)) then (n, (currentDepth, inr None))
              else
                match resolveIfCollapsed n 0 db with
                | inl e => (n, (currentDepth, inl e))
                | inr n1 =>
                    match childAt n1 0 with
                    | None => (n1, (currentDepth, inl GoPanic))
                    | Some c =>
                        let (c', r) :=
                          tryGet fuel c (drop (length k) key) (u32 (currentDepth + 1)) db in
                        (setChildAt n1 0 (Some c'), r)
                    end
                end
          | branchNode _ _ _ _ =>
              match key with
              | [] => (n, (currentDepth, inr None))
              | childPos :: key' =>
                  if childPosOutOfRange childPos then
                    (n, (currentDepth, inl ErrChildPosOutOfRange))
                  else
                    match resolveIfCollapsed n childPos db with
                    | inl e => (n, (currentDepth, inl e))
                    | inr n1 =>
                        match childAt n1 childPos with
                        | None => (n1, (currentDepth, inr None))
                        | Some c =>
                            let (c', r) :=
                              tryGet fuel c key' (u32 (currentDepth + 1)) db in
                            (setChildAt n1 childPos (Some c'), r)
                        end
                    end
              end
          end
      end
  end.

(** ** insert

    The result is the node to put in place of the receiver, if any (a nil node
    means that the value was already there), with the hashes made obsolete. *)

Definition insertRes : Type := trieErr + (option node * list slice).

Definition obsolete (n : node) : list slice := if isDirty n then [] else [getHash n].

(** modifyNodeAfterInsert *)
Definition modifyNodeAfterInsert (n : node) (hashes : list slice) (childPos : Z)
    (newNode : node) : trieErr + (node * list slice) :=
  let? childVersion := getVersion newNode in
  match n with
  | branchNode b encs vers cs =>
      let? vers' := setVersionForChild vers childVersion childPos in
      inr (branchNode (mkBase None true) encs vers'
             (<[Z.to_nat childPos := Some newNode]> cs),
           hashes ++ obsolete n)
  | _ => inl ErrInvalidNode
  end.

Definition leafInsertInNewBn (n : node) (key : bytes) (value : slice)
    (d : TrieData) (keyMatchLen : nat) : trieErr + node :=
  match key !! keyMatchLen, tdKey d !! keyMatchLen with
  | Some oldChildPos, Some newChildPos =>
      if childPosOutOfRange oldChildPos || childPosOutOfRange newChildPos then
        inl ErrChildPosOutOfRange
      else
        let? oldLnVersion := getVersion n in
        let oldLn := newLeafNode
          (mkTrieData (drop (S keyMatchLen) key) (default [] value) oldLnVersion) in
        let? vers1 := setVersionForChild [] oldLnVersion oldChildPos in
        let newLn := newLeafNode
          (mkTrieData (drop (S keyMatchLen) (tdKey d)) (tdValue d) (tdVersion d)) in
        let? vers2 := setVersionForChild vers1 (tdVersion d) newChildPos in
        inr (branchNode newBase (replicate nrOfChildren []) vers2
               (<[Z.to_nat newChildPos := Some newLn]>
                  (<[Z.to_nat oldChildPos := Some oldLn]> (replicate nrOfChildren None))))
  | _, _ => inl GoPanic
  end.

Definition leafInsert (n : node) (key : bytes) (value : slice) (d : TrieData)
  : node * insertRes :=
  if beq (tdKey d) key then
    if beq (default [] value) (tdValue d) then (n, inr (None, []))
    else
      let n' := leafNode (mkBase None true) key (Some (tdValue d)) (u32 (tdVersion d)) in
      (n', inr (Some n', obsolete n))
  else
    let keyMatchLen := prefixLen (tdKey d) key in
    (n,
     let? bn := leafInsertInNewBn n key value d keyMatchLen in
     if (keyMatchLen =? 0)%nat then inr (Some bn, obsolete n)
     else
       let? newEn := newExtensionNode (take keyMatchLen key) (Some bn) in
       inr (Some newEn, obsolete n)).

(** insertOldChildInBn and insertNewChildInBn, on a new branch node. *)
Definition extInsertInNewBn (n : node) (key : bytes) (child : option node)
    (d : TrieData) (keyMatchLen : nat) : insertRes :=
  match key !! keyMatchLen, tdKey d !! keyMatchLen with
  | Some oldChildPos, Some newChildPos =>
      if childPosOutOfRange oldChildPos || childPosOutOfRange newChildPos then
        inl ErrChildPosOutOfRange
      else
        match child with
        | None => inl GoPanic
        | Some c =>
            let keyReminder := drop (S keyMatchLen) key in
            let? childVersion := getVersion c in
            let? vers1 := setVersionForChild [] childVersion oldChildPos in
            let? oldChild :=
              (if blen keyReminder <? 1 then inr c
               else newExtensionNode keyReminder child) in
            let newLeaf := newLeafNode
              (mkTrieData (drop (S keyMatchLen) (tdKey d)) (tdValue d) (tdVersion d)) in
            let? vers2 := setVersionForChild vers1 (tdVersion d) newChildPos in
            let bn := branchNode newBase (replicate nrOfChildren []) vers2
              (<[Z.to_nat newChildPos := Some newLeaf]>
                 (<[Z.to_nat oldChildPos := Some oldChild]> (replicate nrOfChildren None))) in
            if (keyMatchLen =? 0)%nat then inr (Some bn, obsolete n)
            else
              let? newEn := newExtensionNode (take keyMatchLen key) (Some bn) in
              inr (Some newEn, obsolete n)
        end
  | _, _ => inl GoPanic
  end.

Fixpoint insert (fuel : nat) (n : node) (d : TrieData) (db : St) : node * insertRes :=
  match fuel with
  | O => (n, inl OutOfFuel)
  | S fuel =>
      match isEmptyOrNil n with
      | inl e => (n, inl e)
      | inr _ =>
          match n with
          | leafNode _ k v _ => leafInsert n k v d
          | extensionNode _ k _ _ _ =>
              match resolveIfCollapsed n 0 db with
              | inl e => (n, inl e)
              | inr n1 =>
                  let keyMatchLen := prefixLen (tdKey d) k in
                  if (keyMatchLen =? length k)%nat then
                    match childAt n1 0 with
                    | None => (n1, inl GoPanic)
                    | Some c =>
                        match insert fuel c
                          (mkTrieData (drop keyMatchLen (tdKey d)) (tdValue d) (tdVersion d)) db with
                        | (c', inl e) => (setChildAt n1 0 (Some c'), inl e)
                        | (c', inr (None, _)) => (setChildAt n1 0 (Some c'), inr (None, []))
                        | (c', inr (Some newNode, oldHashes)) =>
                            (setChildAt n1 0 (Some c'),
                             let? newEn := newExtensionNode k (Some newNode) in
                             inr (Some newEn, oldHashes ++ obsolete n))
                        end
                    end
                  else (n1, extInsertInNewBn n1 k (childAt n1 0) d keyMatchLen)
              end
          | branchNode _ _ _ _ =>
              match tdKey d with
              | [] => (n, inl ErrValueTooShort)
              | childPos :: key' =>
                  if childPosOutOfRange childPos then (n, inl ErrChildPosOutOfRange)
                  else
                    let d' := mkTrieData key' (tdValue d) (tdVersion d) in
                    match resolveIfCollapsed n childPos db with
                    | inl e => (n, inl e)
                    | inr n1 =>
                        match childAt n1 childPos with
                        | None =>
                            match modifyNodeAfterInsert n1 [] childPos (newLeafNode d') with
                            | inl e => (n1, inl e)
                            | inr (n2, hs) => (n2, inr (Some n2, hs))
                            end
                        | Some c =>
                            match insert fuel c d' db with
                            | (c', inl e) => (setChildAt n1 childPos (Some c'), inl e)
                            | (c', inr (None, _)) =>
                                (setChildAt n1 childPos (Some c'), inr (None, []))
                            | (c', inr (Some newNode, hs)) =>
                                match modifyNodeAfterInsert n1 hs childPos newNode with
                                | inl e => (setChildAt n1 childPos (Some c'), inl e)
                                | inr (n2, hs') => (n2, inr (Some n2, hs'))
                                end
                            end
                        end
                    end
              end
          end
      end
  end.

(** ** delete

    The result: whether a node was deleted, the node to put in place of the
    receiver, and the hashes made obsolete. *)

Definition deleteRes : Type := trieErr + (bool * option node * list slice).

(** getChildPosition: the number of children and the last position of one. *)
Fixpoint childPositions (cs : list (option node)) (encs : list bytes) (i nr pos : Z)
  : trieErr + (Z * Z) :=
  match cs with
  | [] => inr (nr, pos)
  | c :: cs' =>
      let? present := slotPresent c encs in
      if present : bool then childPositions cs' (tail encs) (i + 1) (nr + 1) i
      else childPositions cs' (tail encs) (i + 1) nr pos
  end.

Definition getChildPosition (n : node) : trieErr + (Z * Z) :=
  match n with
  | branchNode _ encs _ cs => childPositions cs encs 0 0 0
  | _ => inl ErrInvalidNode
  end.

(** reduceNode: the node, and whether the receiver's hash becomes obsolete. *)
Definition reduceNode (n : node) (pos : Z) : trieErr + (node * bool) :=
  match n with
  | leafNode _ k v _ =>
      let? oldLnVersion := getVersion n in
      inr (leafNode newBase (u8 pos :: k) v (u32 oldLnVersion), true)
  | extensionNode _ k _ _ c =>
      let? newEn := newExtensionNode (u8 pos :: k) c in inr (newEn, true)
  | branchNode _ _ _ _ =>
      let? newEn := newExtensionNode [u8 pos] (Some n) in inr (newEn, false)
  end.

(** setNewChild *)
Definition setNewChild (n : node) (childPos : Z) (newNode : option node)
  : node * (trieErr + unit) :=
  match n with
  | branchNode b encs vers cs =>
      let b' := mkBase None (bdirty b) in
      let cs' := <[Z.to_nat childPos := newNode]> cs in
      match newNode with
      | None =>
          match setVersionForChild vers NotSpecified childPos with
          | inl e => (branchNode b' encs vers cs', inl e)
          | inr vers' =>
              (branchNode b' (<[Z.to_nat childPos := []]> encs) vers' cs', inr tt)
          end
      | Some c =>
          match (let? childVersion := getVersion c in
                 setVersionForChild vers childVersion childPos) with
          | inl e => (branchNode b' encs vers cs', inl e)
          | inr vers' => (branchNode b' encs vers' cs', inr tt)
          end
      end
  | _ => (n, inl ErrInvalidNode)
  end.

(** The part of branchNode.delete that follows the deletion in the child:
    a branch left with one child is replaced by the reduction of that child. *)
Definition branchAfterDelete (n : node) (oldHashes : list slice) (db : St)
  : node * deleteRes :=
  match getChildPosition n with
  | inl e => (n, inl e)
  | inr (numChildren, pos) =>
      if numChildren =? 1 then
        match resolveIfCollapsed n pos db with
        | inl e => (n, inl e)
        | inr n1 =>
            match childAt n1 pos with
            | None => (n1, inl GoPanic)
            | Some c =>
                match resolveIfCollapsed c pos db with
                | inl e => (n1, inl e)
                | inr c1 =>
                    let n2 := setChildAt n1 pos (Some c1) in
                    match reduceNode c1 pos with
                    | inl e => (n2, inl e)
                    | inr (newNode, newChildHash) =>
                        (n2, inr (true, Some newNode,
                           if newChildHash && negb (isDirty c1)
                           then oldHashes ++ [getHash c1] else oldHashes))
                    end
                end
            end
        end
      else
        let n' := setDirty n true in (n', inr (true, Some n', oldHashes))
  end.

(** The switch of extensionNode.delete on the type of the new child. *)
Definition extAfterDelete (k : bytes) (newNode : option node) (oldHashes : list slice)
  : deleteRes :=
  match newNode with
  | None => inr (true, None, oldHashes)
  | Some (leafNode _ k' v ver) =>
      inr (true, Some (leafNode newBase (k ++ k') v (u32 (u8 ver))), oldHashes)
  | Some (extensionNode _ k' _ _ c) =>
      let? n := newExtensionNode (k ++ k') c in inr (true, Some n, oldHashes)
  | Some (branchNode _ _ _ _ as bn) =>
      let? n := newExtensionNode k (Some bn) in inr (true, Some n, oldHashes)
  end.

Fixpoint delete (fuel : nat) (n : node) (key : bytes) (db : St) : node * deleteRes :=
  match fuel with
  | O => (n, inl OutOfFuel)
  | S fuel =>
      match n with
      | leafNode _ k _ _ =>
          if beq key k then (n, inr (true, None, obsolete n))
          else (n, inr (false, Some n, []))
      | extensionNode _ k _ _ _ =>
          match isEmptyOrNil n with
          | inl e => (n, inl e)
          | inr _ =>
              if blen key =? 0 then (n, inl ErrValueTooShort)
              else if (prefixLen key k <? length k)%nat then (n, inr (false, Some n, []))
              else
                match resolveIfCollapsed n 0 db with
                | inl e => (n, inl e)
                | inr n1 =>
                    match childAt n1 0 with
                    | None => (n1, inl GoPanic)
                    | Some c =>
                        match delete fuel c (drop (length k) key) db with
                        | (c', inl e) => (setChildAt n1 0 (Some c'), inl e)
                        | (c', inr (false, _, _)) =>
                            let n2 := setChildAt n1 0 (Some c') in
                            (n2, inr (false, Some n2, []))
                        | (c', inr (true, newNode, oldHashes)) =>
                            (setChildAt n1 0 (Some c'),
                             extAfterDelete k newNode (oldHashes ++ obsolete n))
                        end
                    end
                end
          end
      | branchNode _ _ _ _ =>
          match isEmptyOrNil n with
          | inl e => (n, inl e)
          | inr _ =>
              match key with
              | [] => (n, inl ErrValueTooShort)
              | childPos :: key' =>
                  if childPosOutOfRange childPos then (n, inl ErrChildPosOutOfRange)
                  else
                    match resolveIfCollapsed n childPos db with
                    | inl e => (n, inl e)
                    | inr n1 =>
                        match childAt n1 childPos with
                        | None => (n1, inr (false, Some n1, []))
                        | Some c =>
                            match delete fuel c key' db with
                            | (c', inl e) => (setChildAt n1 childPos (Some c'), inl e)
                            | (c', inr (false, _, _)) =>
                                let n2 := setChildAt n1 childPos (Some c') in
                                (n2, inr (false, Some n2, []))
                            | (c', inr (true, newNode, oldHashes)) =>
                                let n2 := setChildAt n1 childPos (Some c') in
                                match setNewChild n2 childPos newNode with
                                | (n3, inl e) => (n3, inl e)
                                | (n3, inr _) =>
                                    branchAfterDelete n3 (oldHashes ++ obsolete n) db
                                end
                            end
                        end
                    end
              end
          end
      end
  end.

(** ** commitDirty

    [level] is a byte. *)

(** The loop of branchNode.commitDirty over the children, for the commit of a
    child. *)
Definition commitEach (f : node -> St -> node * St * (trieErr + unit))
  : list (option node) -> St -> list (option node) * St * (trieErr + unit) :=
  fix go cs db :=
    match cs with
    | [] => ([], db, inr tt)
    | None :: cs' => let '(r, db', x) := go cs' db in (None :: r, db', x)
    | Some c :: cs' =>
        match f c db with
        | (c', db', inl e) => (Some c' :: cs', db', inl e)
        | (c', db', inr _) => let '(r, db'', x) := go cs' db' in (Some c' :: r, db'', x)
        end
    end.

(** Marking the node clean, saving it, and collapsing it at the last level kept
    in memory. *)
Definition commitNode (n : node) (level maxLevel : Z) (db : St)
  : node * St * (trieErr + unit) :=
  match encodeNodeAndCommitToDB (setDirty n false) db with
  | (n1, db', inl e) => (n1, db', inl e)
  | (n1, db', inr _) =>
      if level =? maxLevel then
        match getCollapsed n1 with
        | (n2, inl e) => (n2, db', inl e)
        | (_, inr collapsed) => (collapsed, db', inr tt)
        end
      else (n1, db', inr tt)
  end.

Fixpoint commitDirty (n : node) (level maxLevel : Z) (db : St) {struct n}
  : node * St * (trieErr + unit) :=
  match isEmptyOrNil n with
  | inl e => (n, db, inl e)
  | inr _ =>
      if negb (isDirty n) then (n, db, inr tt)
      else
        match n with
        | leafNode _ _ _ _ =>
            match encodeNodeAndCommitToDB (setDirty n false) db with
            | (n1, db', inl e) => (n1, db', inl e)
            | (n1, db', inr _) => (n1, db', inr tt)
            end
        | extensionNode b k enc ver c =>
            match c with
            | None => commitNode n (u8 (level + 1)) maxLevel db
            | Some c0 =>
                match commitDirty c0 (u8 (level + 1)) maxLevel db with
                | (c', db', inl e) => (extensionNode b k enc ver (Some c'), db', inl e)
                | (c', db', inr _) =>
                    commitNode (extensionNode b k enc ver (Some c')) (u8 (level + 1)) maxLevel db'
                end
            end
        | branchNode b encs vers cs =>
            match commitEach (fun c => commitDirty c (u8 (level + 1)) maxLevel) cs db with
            | (cs', db', inl e) => (branchNode b encs vers cs', db', inl e)
            | (cs', db', inr _) =>
                commitNode (branchNode b encs vers cs') (u8 (level + 1)) maxLevel db'
            end
        end
  end.

(** ** Merkle proofs *)

Definition getValue (n : node) : slice :=
  match n with leafNode _ _ v _ => v | _ => Some [] end.

(** getNext: the receiver after the call, the next node (none after a leaf that
    has the key) and the rest of the key. *)
Definition getNext (n : node) (key : bytes) (db : St)
  : node * (trieErr + (option node * bytes)) :=
  match isEmptyOrNil n with
  | inl e => (n, inl e)
  | inr _ =>
      match n with
      | leafNode _ k _ _ =>
          if beq key k then (n, inr (None, [])) else (n, inl ErrNodeNotFound)
      | extensionNode _ k _ _ _ =>
          if blen key <? blen k then (n, inl ErrNodeNotFound)
          else if negb (beq k (take (length k) key)) then (n, inl ErrNodeNotFound)
          else
            match resolveIfCollapsed n 0 db with
            | inl e => (n, inl e)
            | inr n1 => (n1, inr (childAt n1 0, drop (length k) key))
            end
      | branchNode _ _ _ _ =>
          match key with
          | [] => (n, inl ErrValueTooShort)
          | childPos :: key' =>
              if childPosOutOfRange childPos then (n, inl ErrChildPosOutOfRange)
              else
                match resolveIfCollapsed n childPos db with
                | inl e => (n, inl e)
                | inr n1 =>
                    match childAt n1 childPos with
                    | None => (n1, inl ErrNodeNotFound)
                    | Some c => (n1, inr (Some c, key'))
                    end
                end
          end
      end
  end.

(** The loop of GetProof.  The nodes it walks are those of the trie, so the
    children it resolves stay in memory: the receiver after the call is
    returned. *)
Fixpoint proofLoop (fuel : nat) (n : node) (key : bytes) (db : St)
  : node * (trieErr + (list bytes * slice)) :=
  match fuel with
  | O => (n, inl OutOfFuel)
  | S fuel =>
      match getEncodedNode n with
      | inl e => (n, inl e)
      | inr encodedNode =>
          let value := getValue n in
          match getNext n key db with
          | (n1, inl e) => (n1, inl e)
          | (n1, inr (None, _)) => (n1, inr ([encodedNode], value))
          | (n1, inr (Some c, key')) =>
              let (c', r) := proofLoop fuel c key' db in
              (setChildAt n1 (match key with [] => 0 | p :: _ => p end) (Some c'),
               let? (proof, v) := r in inr (encodedNode :: proof, v))
          end
      end
  end.

(** getNextHashAndKey: whether the key is proved, the wanted hash and the rest
    of the key.  The indexing of EncodedChildren and the slicing of the key are
    not guarded. *)
Definition getNextHashAndKey (n : node) (key : bytes)
  : trieErr + (bool * slice * bytes) :=
  match n with
  | leafNode _ k _ _ => if beq key k then inr (true, None, []) else inr (false, None, [])
  | extensionNode _ k enc _ _ =>
      if blen key =? 0 then inr (false, None, [])
      else if blen key <? blen k then inl GoPanic
      else inr (false, Some enc, drop (length k) key)
  | branchNode _ encs _ _ =>
      match key with
      | [] => inr (false, None, [])
      | p :: key' =>
          match encs !! Z.to_nat p with
          | None => inl GoPanic
          | Some e => inr (false, Some e, key')
          end
      end
  end.

Fixpoint verifyLoop (wantHash : slice) (key : bytes) (proof : list slice)
  : trieErr + bool :=
  match proof with
  | [] => inr false
  | None :: _ => inr false
  | Some encodedNode :: proof' =>
      if negb (beq (default [] wantHash) (compute encodedNode)) then inr false
      else
        let? n := decodeNode encodedNode in
        let? (proofVerified, wantHash', key') := getNextHashAndKey n key in
        if proofVerified : bool then inr true else verifyLoop wantHash' key' proof'
  end.

Definition verifyProof (rootHash key : bytes) (proof : list slice) : trieErr + bool :=
  verifyLoop (Some rootHash) (keyBytesToHex key) proof.

Definition VerifyProof (rootHash key : bytes) (proof : list slice) : trieErr + bool :=
  let? ok := verifyProof rootHash (compute key) proof in
  if ok : bool then inr true else verifyProof rootHash key proof.
End Operations.
