(* ===== verification/TrieSpec.v ===== *)
(** * The logical trie: what a Patricia-Merkle trie stands for.

    A [trie] is a fully loaded trie without caches.  [tget] reads it, [wf] is the
    canonical shape the operations maintain, [hashL] is its Merkle hash, and
    [wf_canonical] says that a canonical trie is determined by the key/value map
    it stands for. *)

From stdpp Require Import base list gmap.
From Stdlib Require Import ZArith Lia.
From S2P Require Import Prelude TrieNode TrieOps.

Inductive trie :=
| TLeaf (k v : bytes) (ver : Z)
| TExt (k : bytes) (c : trie)
| TBranch (cs : list (option trie)).

(** Induction over tries, through the children of a branch. *)
Definition optP {A} (P : A -> Prop) (o : option A) : Prop :=
  match o with Some a => P a | None => True end.

Section TrieInd.
Variable P : trie -> Prop.
Hypothesis Hleaf : forall k v ver, P (TLeaf k v ver).
Hypothesis Hext : forall k c, P c -> P (TExt k c).
Hypothesis Hbranch : forall cs, Forall (optP P) cs -> P (TBranch cs).

Fixpoint trie_ind' (t : trie) : P t :=
  match t with
  | TLeaf k v ver => Hleaf k v ver
  | TExt k c => Hext k c (trie_ind' c)
  | TBranch cs =>
      Hbranch cs
        ((fix go cs : Forall (optP P) cs :=
            match cs with
            | [] => Forall_nil_2 _
            | o :: cs' =>
                Forall_cons_2 _ o cs'
                  (match o return optP P o with Some c => trie_ind' c | None => I end)
                  (go cs')
            end) cs)
  end.
End TrieInd.

(** ** Hex keys

    [khex e k]: the nibbles left of a key at some depth; [e] tells that the
    terminator has been consumed. *)
Fixpoint khex (e : bool) (k : bytes) : Prop :=
  match k with
  | [] => e = true
  | n :: k' => e = false /\ 0 <= n <= hexTerminator /\ khex (n =? hexTerminator) k'
  end.

(** The key of an extension: nibbles, without the terminator. *)
Definition nibbles (k : bytes) : Prop := Forall (fun n => 0 <= n < hexTerminator) k.

Lemma khex_true k : khex true k <-> k = [].
Proof. destruct k; simpl; split; intros; try done. by destruct H. Qed.

Lemma khex_app k1 k2 : nibbles k1 -> khex false (k1 ++ k2) <-> khex false k2.
Proof.
  induction 1 as [|n k1 Hn _ IH]; simpl; [done|].
  rewrite <- IH. replace (n =? hexTerminator) with false by (symmetry; apply Z.eqb_neq; lia).
  unfold hexTerminator in *. split; [by intros (_ & _ & ?)|intros; repeat split; auto; lia].
Qed.

(** No key is a proper prefix of another. *)
Lemma khex_prefix e k1 k2 : khex e k1 -> khex e (k1 ++ k2) -> k2 = [].
Proof.
  revert e. induction k1 as [|n k1 IH]; simpl; intros e H1 H2.
  - subst. by apply khex_true.
  - destruct H1 as (_ & _ & H1), H2 as (_ & _ & H2). eauto.
Qed.

(** ** Reading *)

Fixpoint tget (t : trie) (key : bytes) : option (bytes * Z) :=
  match t with
  | TLeaf k v ver => if beq key k then Some (v, ver) else None
  | TExt k c => if beq k (take (length k) key) then tget c (drop (length k) key) else None
  | TBranch cs =>
      match key with
      | [] => None
      | p :: key' =>
          nth (Z.to_nat p)
            (map (fun o => match o with Some c => tget c key' | None => None end) cs) None
      end
  end.

Lemma tget_branch cs p key :
  tget (TBranch cs) (p :: key) =
  match cs !! Z.to_nat p with Some (Some c) => tget c key | _ => None end.
Proof.
  simpl. revert cs. induction (Z.to_nat p) as [|i IH]; intros [|o cs]; simpl; try done.
Qed.

Lemma tget_ext_app k c key : tget (TExt k c) (k ++ key) = tget c key.
Proof.
  simpl. rewrite take_app_length, drop_app_length. by rewrite beq_refl.
Qed.

Lemma tget_ext_inv k c key x :
  tget (TExt k c) key = Some x -> exists key', key = k ++ key' /\ tget c key' = Some x.
Proof.
  simpl. destruct (beq _ _) eqn:E; [|done]. apply beq_true in E.
  intros H. exists (drop (length k) key). split; [|done].
  rewrite E at 1. symmetry. apply take_drop.
Qed.

(** ** Canonical shape *)

Definition isBranch (t : trie) : Prop := match t with TBranch _ => True | _ => False end.

(** The number of children of a branch. *)
Definition numSome {A} (cs : list (option A)) : nat :=
  length (filter (fun o => is_Some o) cs).

Definition wfChildren (f : bool -> trie -> Prop) : Z -> list (option trie) -> Prop :=
  fix go i cs :=
    match cs with
    | [] => True
    | o :: cs' => optP (f (i =? hexTerminator)) o /\ go (i + 1) cs'
    end.

Lemma wfChildren_lookup f cs j :
  wfChildren f j cs <->
  forall i c, cs !! i = Some (Some c) -> f (j + Z.of_nat i =? hexTerminator) c.
Proof.
  revert j. induction cs as [|o cs IH]; intros j; simpl; [by split|].
  rewrite IH. split.
  - intros [Ho Hcs] [|i] c Hi; simpl in Hi.
    + simplify_eq. by rewrite Z.add_0_r.
    + specialize (Hcs i c Hi). by replace (j + Z.of_nat (S i)) with (j + 1 + Z.of_nat i) by lia.
  - intros H. split.
    + destruct o as [c|]; [|done]. specialize (H 0%nat c eq_refl). by rewrite Z.add_0_r in H.
    + intros i c Hi. specialize (H (S i) c Hi).
      by replace (j + 1 + Z.of_nat i) with (j + Z.of_nat (S i)) by lia.
Qed.

Fixpoint wf (e : bool) (t : trie) : Prop :=
  match t with
  | TLeaf k v ver => khex e k /\ v <> [] /\ 0 <= ver <= MaxUint8
  | TExt k c => e = false /\ k <> [] /\ nibbles k /\ isBranch c /\ wf false c
  | TBranch cs =>
      e = false /\ length cs = nrOfChildren /\ (2 <= numSome cs)%nat /\
      wfChildren wf 0 cs
  end.

Lemma wf_branch e cs :
  wf e (TBranch cs) <->
  e = false /\ length cs = nrOfChildren /\ (2 <= numSome cs)%nat /\
  forall i c, cs !! i = Some (Some c) -> wf (Z.of_nat i =? hexTerminator) c.
Proof.
  change (wf e (TBranch cs)) with
    (e = false /\ length cs = nrOfChildren /\ (2 <= numSome cs)%nat /\ wfChildren wf 0 cs).
  by rewrite wfChildren_lookup.
Qed.

Lemma wf_child e cs p c :
  wf e (TBranch cs) -> 0 <= p -> cs !! Z.to_nat p = Some (Some c) -> wf (p =? hexTerminator) c.
Proof.
  rewrite wf_branch. intros (_ & _ & _ & H) Hp Hc. specialize (H _ _ Hc).
  by rewrite Z2Nat.id in H.
Qed.

(** ** Children counts *)

Definition countOpt {A} (o : option A) : nat := match o with Some _ => 1 | None => 0 end.

Lemma numSome_cons {A} (o : option A) cs : numSome (o :: cs) = (countOpt o + numSome cs)%nat.
Proof.
  unfold numSome. rewrite filter_cons. by destruct o.
Qed.

Lemma numSome_insert {A} (cs : list (option A)) i o o' :
  cs !! i = Some o ->
  (numSome (<[i := o']> cs) + countOpt o = numSome cs + countOpt o')%nat.
Proof.
  revert i. induction cs as [|x cs IH]; intros [|i] H; simpl in *; try done.
  - simplify_eq. rewrite !numSome_cons. lia.
  - specialize (IH _ H). rewrite !numSome_cons. lia.
Qed.

Lemma numSome_replicate {A} n : numSome (replicate n (@None A)) = 0%nat.
Proof. induction n; simpl; [done|]. by rewrite numSome_cons. Qed.

(** A branch has two distinct positions with a child. *)
Lemma numSome_two {A} (cs : list (option A)) :
  (2 <= numSome cs)%nat ->
  exists i j a b, i <> j /\ cs !! i = Some (Some a) /\ cs !! j = Some (Some b).
Proof.
  assert (H1 : forall cs : list (option A), (1 <= numSome cs)%nat ->
    exists i a, cs !! i = Some (Some a)).
  { clear cs. induction cs as [|[a|] cs IH]; rewrite ?numSome_cons; simpl; intros H.
    - inversion H.
    - by exists 0%nat, a.
    - destruct IH as (i & a & ?); [lia|]. by exists (S i), a. }
  induction cs as [|[a|] cs IH]; rewrite ?numSome_cons; simpl; intros H.
  - inversion H.
  - destruct (H1 cs) as (j & b & ?); [lia|]. exists 0%nat, (S j), a, b. auto.
  - destruct IH as (i & j & a & b & ? & ? & ?); [lia|].
    exists (S i), (S j), a, b. auto with lia.
Qed.

Lemma numSome_one {A} (cs : list (option A)) i a :
  numSome cs = 1%nat -> cs !! i = Some (Some a) ->
  forall j, j <> i -> forall o, cs !! j = Some o -> o = None.
Proof.
  intros Hn Hi j Hj [b|] Ho; [|done]. exfalso.
  pose proof (numSome_insert cs i _ None Hi) as H1. simpl in H1.
  assert (Hj' : <[i:=None]> cs !! j = Some (Some b)) by by rewrite list_lookup_insert_ne.
  pose proof (numSome_insert _ j _ None Hj') as H2. simpl in H2. lia.
Qed.

(** ** Existence of keys *)

Lemma wf_has_key e t : wf e t -> exists key x, khex e key /\ tget t key = Some x.
Proof.
  revert e. induction t as [k v ver|k c IH|cs IH] using trie_ind'; intros e Hwf.
  - destruct Hwf as (Hk & _). exists k, (v, ver). simpl. by rewrite beq_refl.
  - destruct Hwf as (-> & _ & Hk & _ & Hc). destruct (IH _ Hc) as (key & x & H1 & H2).
    exists (k ++ key), x. rewrite tget_ext_app. split; [by apply khex_app|done].
  - pose proof Hwf as Hwf'. rewrite wf_branch in Hwf.
    destruct Hwf as (-> & Hlen & Hn & Hcs).
    destruct (numSome_two _ Hn) as (i & _ & a & _ & _ & Hi & _).
    pose proof (lookup_lt_Some _ _ _ Hi) as Hlt. rewrite Hlen in Hlt.
    rewrite Forall_forall in IH.
    assert (Hin : Some a ∈ cs) by (eapply list_elem_of_lookup_2; eauto).
    destruct (IH _ Hin _ (Hcs _ _ Hi)) as (key & x & H1 & H2).
    exists (Z.of_nat i :: key), x. rewrite tget_branch, Nat2Z.id, Hi. split; [|done].
    simpl. unfold nrOfChildren, hexTerminator in *. repeat split; auto; lia.
Qed.

(** A branch has keys with different first nibbles. *)
Lemma wf_branch_two_keys cs :
  wf false (TBranch cs) ->
  exists p q k1 k2 x1 x2, p <> q /\
    khex false (p :: k1) /\ khex false (q :: k2) /\
    tget (TBranch cs) (p :: k1) = Some x1 /\ tget (TBranch cs) (q :: k2) = Some x2.
Proof.
  rewrite wf_branch. intros (_ & Hlen & Hn & Hcs).
  destruct (numSome_two _ Hn) as (i & j & a & b & Hij & Hi & Hj).
  pose proof (lookup_lt_Some _ _ _ Hi) as Hlt1. pose proof (lookup_lt_Some _ _ _ Hj) as Hlt2.
  rewrite Hlen in *.
  destruct (wf_has_key _ _ (Hcs _ _ Hi)) as (k1 & x1 & H1 & H1').
  destruct (wf_has_key _ _ (Hcs _ _ Hj)) as (k2 & x2 & H2 & H2').
  exists (Z.of_nat i), (Z.of_nat j), k1, k2, x1, x2.
  rewrite !tget_branch, !Nat2Z.id, Hi, Hj. simpl.
  unfold nrOfChildren, hexTerminator in *. repeat split; auto; lia.
Qed.

(** ** Canonicity *)

Definition sameMap (e : bool) (t1 t2 : trie) : Prop :=
  forall key, khex e key -> tget t1 key = tget t2 key.

Lemma sameMap_sym e t1 t2 : sameMap e t1 t2 -> sameMap e t2 t1.
Proof. intros H key Hk. symmetry. auto. Qed.

(** A leaf has one key; a branch, and hence an extension, has two. *)
Lemma wf_two_keys e t :
  wf e t -> (forall k v ver, t <> TLeaf k v ver) ->
  exists k1 k2 x1 x2, k1 <> k2 /\ khex e k1 /\ khex e k2 /\
    tget t k1 = Some x1 /\ tget t k2 = Some x2.
Proof.
  assert (Hb : forall cs, wf false (TBranch cs) ->
    exists k1 k2 x1 x2, k1 <> k2 /\ khex false k1 /\ khex false k2 /\
      tget (TBranch cs) k1 = Some x1 /\ tget (TBranch cs) k2 = Some x2).
  { intros cs H. destruct (wf_branch_two_keys _ H) as (p & q & k1 & k2 & x1 & x2 & ? & ? & ? & ? & ?).
    exists (p :: k1), (q :: k2), x1, x2. split; [congruence|]. auto. }
  destruct t as [k v ver|k c|cs]; intros Hwf Hne.
  - by destruct (Hne k v ver).
  - destruct Hwf as (-> & _ & Hk & Hbr & Hc). destruct c as [| |cs]; try done.
    destruct (Hb cs Hc) as (k1 & k2 & x1 & x2 & ? & ? & ? & ? & ?).
    exists (k ++ k1), (k ++ k2), x1, x2. rewrite !tget_ext_app, !khex_app by done.
    split; [|auto]. intros ?%app_inv_head. done.
  - pose proof Hwf as Hwf'. rewrite wf_branch in Hwf. destruct Hwf as (-> & _). eauto.
Qed.

Lemma sameMap_leaf e k v ver t :
  wf e (TLeaf k v ver) -> wf e t -> sameMap e (TLeaf k v ver) t -> TLeaf k v ver = t.
Proof.
  intros Hl Ht Hsame.
  assert (Hk : forall key x, khex e key -> tget t key = Some x -> key = k /\ x = (v, ver)).
  { intros key x Hkey Hx. rewrite <- Hsame in Hx by done. simpl in Hx.
    destruct (beq key k) eqn:E; [|done]. apply beq_true in E. by simplify_eq. }
  destruct t as [k' v' ver'|k' c'|cs'].
  - destruct Ht as (Hk' & _). destruct (Hk k' (v', ver') Hk') as [-> [= -> ->]]; [|done].
    simpl. by rewrite beq_refl.
  - destruct (wf_two_keys _ _ Ht) as (k1 & k2 & x1 & x2 & Hne & H1 & H2 & H3 & H4); [done|].
    destruct (Hk _ _ H1 H3), (Hk _ _ H2 H4). congruence.
  - destruct (wf_two_keys _ _ Ht) as (k1 & k2 & x1 & x2 & Hne & H1 & H2 & H3 & H4); [done|].
    destruct (Hk _ _ H1 H3), (Hk _ _ H2 H4). congruence.
Qed.

(** The keys of an extension share its first nibble, those of a branch do not. *)
Lemma sameMap_ext_branch k c cs :
  wf false (TExt k c) -> wf false (TBranch cs) -> sameMap false (TExt k c) (TBranch cs) -> False.
Proof.
  intros (_ & Hne & _) Hb Hsame.
  destruct (wf_branch_two_keys _ Hb) as (p & q & k1 & k2 & x1 & x2 & Hpq & H1 & H2 & H3 & H4).
  rewrite <- Hsame in H3, H4 by done.
  destruct (tget_ext_inv _ _ _ _ H3) as (r1 & E1 & _).
  destruct (tget_ext_inv _ _ _ _ H4) as (r2 & E2 & _).
  destruct k as [|n k]; [done|]. simpl in *. congruence.
Qed.

(** Two extensions with the same keys have the same key part: it is the longest
    common prefix of their keys. *)
Lemma sameMap_ext_prefix k1 c1 k2 c2 :
  wf false (TExt k1 c1) -> wf false (TExt k2 c2) ->
  sameMap false (TExt k1 c1) (TExt k2 c2) -> exists r, k2 = k1 ++ r.
Proof.
  intros (_ & _ & Hk1 & Hb1 & Hc1) (_ & _ & Hk2 & Hb2 & Hc2) Hsame.
  destruct c2 as [| |cs2]; try done.
  destruct (wf_branch_two_keys _ Hc2) as (p & q & s1 & s2 & x1 & x2 & Hpq & H1 & H2 & H3 & H4).
  assert (P1 : exists r1, k2 ++ p :: s1 = k1 ++ r1).
  { rewrite <- (tget_ext_app k2) in H3. rewrite <- Hsame in H3 by (by apply khex_app).
    destruct (tget_ext_inv _ _ _ _ H3) as (r & ? & _). eauto. }
  assert (P2 : exists r2, k2 ++ q :: s2 = k1 ++ r2).
  { rewrite <- (tget_ext_app k2) in H4. rewrite <- Hsame in H4 by (by apply khex_app).
    destruct (tget_ext_inv _ _ _ _ H4) as (r & ? & _). eauto. }
  clear -Hpq P1 P2. revert k2 P1 P2.
  induction k1 as [|n k1 IH]; intros k2 [r1 E1] [r2 E2]; [by exists k2|].
  destruct k2 as [|n' k2]; simpl in *; simplify_eq.
  destruct (IH k2) as [r ->]; eauto.
Qed.

Theorem wf_canonical e t1 t2 : wf e t1 -> wf e t2 -> sameMap e t1 t2 -> t1 = t2.
Proof.
  revert e t2. induction t1 as [k v ver|k c IH|cs IH] using trie_ind'; intros e t2 H1 H2 Hsame.
  - by eapply sameMap_leaf.
  - pose proof H1 as (-> & _).
    destruct t2 as [k' v' ver'|k' c'|cs'].
    + symmetry. eapply sameMap_leaf; eauto using sameMap_sym.
    + assert (k = k') as <-.
      { destruct (sameMap_ext_prefix _ _ _ _ H1 H2 Hsame) as [r1 E1].
        destruct (sameMap_ext_prefix _ _ _ _ H2 H1 (sameMap_sym _ _ _ Hsame)) as [r2 E2].
        rewrite E1 in E2. rewrite <- app_assoc in E2.
        assert (r1 ++ r2 = []) as [-> ->]%app_eq_nil.
        { apply (app_inv_head k). by rewrite app_nil_r. }
        by rewrite app_nil_r in E1. }
      f_equal. destruct H1 as (_ & _ & Hk & _ & Hc1), H2 as (_ & _ & _ & _ & Hc2).
      eapply IH; eauto. intros key Hkey.
      rewrite <- (tget_ext_app k c), <- (tget_ext_app k c'). apply Hsame. by apply khex_app.
    + exfalso. eapply sameMap_ext_branch; eauto.
  - pose proof H1 as (-> & _).
    destruct t2 as [k' v' ver'|k' c'|cs'].
    + symmetry. eapply sameMap_leaf; eauto using sameMap_sym.
    + exfalso. eapply sameMap_ext_branch; eauto using sameMap_sym.
    + f_equal. rewrite wf_branch in H1, H2.
      destruct H1 as (_ & Hl1 & _ & Hw1), H2 as (_ & Hl2 & _ & Hw2).
      rewrite Forall_forall in IH.
      assert (Hch : forall i key, (i < nrOfChildren)%nat ->
        khex (Z.of_nat i =? hexTerminator) key ->
        (match cs !! i with Some (Some c) => tget c key | _ => None end) =
        (match cs' !! i with Some (Some c) => tget c key | _ => None end)).
      { intros i key Hi Hkey. specialize (Hsame (Z.of_nat i :: key)).
        rewrite !tget_branch, !Nat2Z.id in Hsame. apply Hsame. simpl.
        unfold nrOfChildren, hexTerminator in *. repeat split; auto; lia. }
      apply list_eq. intros i.
      destruct (decide (i < nrOfChildren)%nat) as [Hi|Hi]; [|by rewrite !lookup_ge_None_2 by lia].
      specialize (fun key => Hch i key Hi).
      destruct (lookup_lt_is_Some_2 cs i ltac:(lia)) as [o Ho].
      destruct (lookup_lt_is_Some_2 cs' i ltac:(lia)) as [o' Ho'].
      rewrite Ho, Ho' in *. f_equal.
      destruct o as [c|], o' as [c'|]; [| | |done].
      * f_equal. assert (Hin : Some c ∈ cs) by (eapply list_elem_of_lookup_2; eauto).
        eapply (IH _ Hin); [by apply Hw1|by apply Hw2|]. intros key Hkey. by apply Hch.
      * exfalso. destruct (wf_has_key _ _ (Hw1 _ _ Ho)) as (key & x & Hkey & Hx).
        specialize (Hch key Hkey). congruence.
      * exfalso. destruct (wf_has_key _ _ (Hw2 _ _ Ho')) as (key & x & Hkey & Hx).
        specialize (Hch key Hkey). congruence.
Qed.
