(* ===== verification/TrieRep.v ===== *)
(** * How in-memory nodes represent a logical trie.

    [hashL] is the Merkle hash of a logical trie, [stored] says that a storage
    holds the encodings of all its nodes, and [rep st n t] that the node [n], over
    the storage [st], stands for [t]: its caches are right, and the children that
    are not in memory are in the storage. *)

From stdpp Require Import base list gmap.
From Stdlib Require Import ZArith Lia.
From S2P Require Import Prelude TrieNode TrieOps TrieSpec.

(** ** Versions *)

Fixpoint scanVer (ovs : list (option Z)) (cur : option Z) : Z :=
  match ovs with
  | [] => default NotSpecified cur
  | None :: r => scanVer r cur
  | Some v :: r =>
      match cur with
      | None => scanVer r (Some v)
      | Some v0 => if v =? v0 then scanVer r cur else NotSpecified
      end
  end.

Fixpoint tver (t : trie) : Z :=
  match t with
  | TLeaf _ _ ver => ver
  | TExt _ c => tver c
  | TBranch cs =>
      scanVer (map (fun o => match o with Some c => Some (tver c) | None => None end) cs) None
  end.

Definition overs (cs : list (option trie)) : list Z :=
  map (fun o => match o with Some c => tver c | None => NotSpecified end) cs.

(** The ChildrenVersion slice of a branch: empty when no version is specified. *)
Definition tvers (cs : list (option trie)) : bytes :=
  revertChildrenVersionSliceIfNeeded (overs cs).

Definition hashed (b : baseNode) : bool := match bhash b with Some _ => true | None => false end.

Section Rep.
Context `{C : Codec} {St : Type} `{TS : TrieStorage St}.

(** ** Encodings and hashes of logical tries *)

Definition encC (c : cnode) (ty : Z) : bytes := default [] (marshal c) ++ [ty].

Fixpoint hashL (t : trie) : bytes :=
  match t with
  | TLeaf k v ver => compute (encC (CollapsedLn k (Some v) ver) leafType)
  | TExt k c => compute (encC (CollapsedEn k (hashL c) (tver c)) extensionType)
  | TBranch cs =>
      compute (encC (CollapsedBn
        (map (fun o => match o with Some c => hashL c | None => [] end) cs) (tvers cs))
        branchType)
  end.

Definition childHash (o : option trie) : bytes :=
  match o with Some c => hashL c | None => [] end.

Definition encL (t : trie) : bytes :=
  match t with
  | TLeaf k v ver => encC (CollapsedLn k (Some v) ver) leafType
  | TExt k c => encC (CollapsedEn k (hashL c) (tver c)) extensionType
  | TBranch cs => encC (CollapsedBn (map childHash cs) (tvers cs)) branchType
  end.

Lemma hashL_encL t : hashL t = compute (encL t).
Proof. by destruct t. Qed.

Inductive stored (st : St) : trie -> Prop :=
| stored_leaf k v ver :
    sGet st (hashL (TLeaf k v ver)) = Some (encL (TLeaf k v ver)) ->
    stored st (TLeaf k v ver)
| stored_ext k c :
    sGet st (hashL (TExt k c)) = Some (encL (TExt k c)) ->
    stored st c -> stored st (TExt k c)
| stored_branch cs :
    sGet st (hashL (TBranch cs)) = Some (encL (TBranch cs)) ->
    (forall i c, cs !! i = Some (Some c) -> stored st c) -> stored st (TBranch cs).

Lemma stored_get st t : stored st t -> sGet st (hashL t) = Some (encL t).
Proof. by destruct 1. Qed.

(** ** The representation relation *)

Definition hashOk (st : St) (b : baseNode) (t : trie) : Prop :=
  (bhash b = None \/ bhash b = Some (hashL t)) /\
  (bdirty b = false -> bhash b = Some (hashL t) /\ stored st t).

Inductive rep (st : St) : node -> trie -> Prop :=
| rep_leaf b k v ver :
    hashOk st b (TLeaf k v ver) ->
    rep st (leafNode b k (Some v) ver) (TLeaf k v ver)
| rep_ext b k enc c t :
    hashOk st b (TExt k t) -> slot st (hashed b) enc c (Some t) ->
    rep st (extensionNode b k enc (tver t) c) (TExt k t)
| rep_branch b encs cs ts :
    hashOk st b (TBranch ts) -> slots st (hashed b) encs cs ts ->
    rep st (branchNode b encs (tvers ts) cs) (TBranch ts)
with slot (st : St) : bool -> bytes -> option node -> option trie -> Prop :=
| slot_none hs : slot st hs [] None None
| slot_mem hs enc n t :
    rep st n t -> (hs = true -> enc = hashL t /\ hashed (baseOf n) = true) ->
    slot st hs enc (Some n) (Some t)
| slot_db hs t : stored st t -> slot st hs (hashL t) None (Some t)
with slots (st : St) : bool -> list bytes -> list (option node) -> list (option trie) -> Prop :=
| slots_nil hs : slots st hs [] [] []
| slots_cons hs e es c cs t ts :
    slot st hs e c t -> slots st hs es cs ts -> slots st hs (e :: es) (c :: cs) (t :: ts).

Lemma slots_length st hs encs cs ts :
  slots st hs encs cs ts -> length encs = length ts /\ length cs = length ts.
Proof. induction 1; simpl; lia. Qed.

Lemma slots_lookup st hs encs cs ts i t :
  slots st hs encs cs ts -> ts !! i = Some t ->
  exists e c, encs !! i = Some e /\ cs !! i = Some c /\ slot st hs e c t.
Proof.
  intros H. revert i. induction H as [|hs e es c cs t' ts Hs H IH]; intros [|i] Ht; simpl in *;
    try done.
  - simplify_eq. eauto.
  - eauto.
Qed.

Lemma slots_insert st hs encs cs ts i e c t :
  slots st hs encs cs ts -> slot st hs e c t -> (i < length ts)%nat ->
  slots st hs (<[i := e]> encs) (<[i := c]> cs) (<[i := t]> ts).
Proof.
  intros H. revert i. induction H as [|hs e' es c' cs t' ts Hs H IH]; intros [|i] Hs' Hi;
    simpl in *; try lia; constructor; auto with lia.
Qed.

Lemma slots_insert_child st hs encs cs ts i e c t :
  slots st hs encs cs ts -> ts !! i = Some t -> encs !! i = Some e -> slot st hs e c t ->
  slots st hs encs (<[i := c]> cs) ts.
Proof.
  intros H Ht He Hs. rewrite <- (list_insert_id encs i e He), <- (list_insert_id ts i t Ht).
  eapply slots_insert; eauto. eapply lookup_lt_Some; eauto.
Qed.

Lemma slot_unhashed st hs e c t : slot st hs e c t -> slot st false e c t.
Proof. destruct 1; constructor; auto; discriminate. Qed.

Lemma slots_unhashed st hs encs cs ts : slots st hs encs cs ts -> slots st false encs cs ts.
Proof. induction 1; constructor; eauto using slot_unhashed. Qed.

Lemma slots_empty st hs n : slots st hs (replicate n []) (replicate n None) (replicate n None).
Proof. induction n; simpl; constructor; auto. constructor. Qed.

Lemma hashOk_new st t : hashOk st newBase t.
Proof. split; [by left|done]. Qed.
Hint Resolve hashOk_new : core.

Context `{CL : !CodecLaws C}.

Lemma hashL_nonempty t : hashL t <> [].
Proof. rewrite hashL_encL. apply compute_nonempty. Qed.

Lemma hashL_blen t : (blen (hashL t) =? 0) = false.
Proof. apply Z.eqb_neq. rewrite blen_0. apply hashL_nonempty. Qed.

Lemma slot_present st hs e c t es :
  slot st hs e c t -> slotPresent c (e :: es) = inr (match t with Some _ => true | None => false end).
Proof. destruct 1; simpl; try done. by rewrite hashL_blen. Qed.

Lemma branchNotEmpty_slots st hs encs cs ts :
  slots st hs encs cs ts -> (1 <= numSome ts)%nat -> branchNotEmpty cs encs = inr tt.
Proof.
  induction 1 as [|hs e es c cs t ts Hs H IH]; intros Hn; [inversion Hn|].
  simpl. rewrite (slot_present _ _ _ _ _ es Hs). simpl. destruct t; [done|].
  apply IH. by rewrite numSome_cons in Hn.
Qed.

Lemma rep_notEmpty st e n t : rep st n t -> wf e t -> isEmptyOrNil n = inr tt.
Proof.
  destruct 1 as [b k v ver Hb|b k enc c t Hb Hs|b encs cs ts Hb Hs]; intros Hwf; simpl; try done.
  - inversion Hs; subst; [done|]. by rewrite hashL_blen.
  - rewrite wf_branch in Hwf. eapply branchNotEmpty_slots; [done|]. lia.
Qed.

(** ** Versions *)

Lemma versionScan_slots st hs encs cs ts cur :
  slots st hs encs cs ts ->
  versionScan cs encs (overs ts) cur =
  inr (scanVer (map (fun o => match o with Some c => Some (tver c) | None => None end) ts) cur).
Proof.
  intros H. revert cur. induction H as [|hs e es c cs t ts Hs H IH]; intros cur; [done|].
  simpl. rewrite (slot_present _ _ _ _ _ es Hs). simpl.
  destruct t as [t|]; simpl; [|apply IH].
  destruct cur as [v0|]; [|apply IH]. destruct (tver t =? v0); [apply IH|done].
Qed.

Lemma scanVer_zeros ts cur :
  default 0 cur = 0 -> forallb (fun v => v =? NotSpecified) (overs ts) = true ->
  scanVer (map (fun o => match o with Some c => Some (tver c) | None => None end) ts) cur = 0.
Proof.
  revert cur. induction ts as [|[t|] ts IH]; intros cur Hcur; simpl; [done| |].
  - intros [H1 H2]%andb_true_iff. apply Z.eqb_eq in H1. rewrite H1. unfold NotSpecified.
    destruct cur as [v0|]; simpl in *; [subst v0; simpl|]; by apply IH.
  - intros H. by apply IH.
Qed.

Lemma tvers_length ts : tvers ts = [] \/ (tvers ts = overs ts /\ length (tvers ts) = length ts).
Proof.
  unfold tvers, revertChildrenVersionSliceIfNeeded.
  destruct (forallb _ _); [by left|]. right. split; [done|]. unfold overs. by rewrite length_map.
Qed.

Lemma tver_bounds e t : wf e t -> 0 <= tver t <= MaxUint8.
Proof.
  assert (Hscan : forall ovs cur,
    (forall v, Some v ∈ cur :: ovs -> 0 <= v <= MaxUint8) -> 0 <= scanVer ovs cur <= MaxUint8).
  { induction ovs as [|[v|] ovs IH]; intros cur H; simpl.
    - destruct cur as [v|]; simpl; [apply H; left|unfold NotSpecified, MaxUint8; lia].
    - destruct cur as [v0|]; [|apply IH; intros w Hw; apply H].
      + destruct (v =? v0); [|unfold NotSpecified, MaxUint8; lia]. apply IH. intros w Hw. apply H.
        apply elem_of_cons in Hw as [->|Hw]; [left|by right; right].
      + by right.
    - apply IH. intros w Hw. apply H.
      apply elem_of_cons in Hw as [->|Hw]; [left|by right; right]. }
  revert e. induction t as [k v ver|k c IH|cs IH] using trie_ind'; intros e Hwf.
  - by destruct Hwf as (_ & _ & H).
  - destruct Hwf as (_ & _ & _ & _ & Hc). eauto.
  - rewrite wf_branch in Hwf. destruct Hwf as (_ & _ & _ & Hcs). simpl. apply Hscan.
    intros v Hv. apply elem_of_cons in Hv as [|Hv]; [done|].
    apply list_elem_of_fmap in Hv as (o & Ho & Hin). destruct o as [c|]; [|done]. simplify_eq.
    rewrite Forall_forall in IH. apply list_elem_of_lookup in Hin as Hin'.
    destruct Hin' as (i & Hi). eapply (IH _ Hin). eauto.
Qed.

Lemma rep_getVersion st e n t : rep st n t -> wf e t -> getVersion n = inr (tver t).
Proof.
  intros Hrep Hwf. pose proof (tver_bounds _ _ Hwf) as Hb.
  destruct Hrep as [b k v ver _|b k enc c t _ _|b encs cs ts _ Hs]; cbn [getVersion].
  - simpl in Hb. by rewrite (proj2 (Z.ltb_ge _ _)) by lia.
  - simpl in Hb. by rewrite (proj2 (Z.ltb_ge _ _)) by lia.
  - unfold tvers, revertChildrenVersionSliceIfNeeded.
    destruct (forallb _ _) eqn:Hz.
    + simpl. f_equal. symmetry. by apply scanVer_zeros.
    + destruct (overs ts) as [|v vs] eqn:E; [done|]. rewrite <- E.
      replace (blen (overs ts) =? 0) with false
        by (symmetry; apply Z.eqb_neq; rewrite E; unfold blen; simpl; lia).
      by erewrite versionScan_slots.
Qed.

Lemma overs_insert ts i t :
  overs (<[i := Some t]> ts) = <[i := tver t]> (overs ts).
Proof. unfold overs. by rewrite list_fmap_insert. Qed.

Lemma overs_insert_None ts i :
  overs (<[i := None]> ts) = <[i := NotSpecified]> (overs ts).
Proof. unfold overs. by rewrite list_fmap_insert. Qed.

Lemma forallb_zero_replicate (l : list Z) :
  forallb (fun v => v =? NotSpecified) l = true -> l = replicate (length l) 0.
Proof.
  induction l as [|x l IH]; [done|]. simpl. intros [H1 H2]%andb_true_iff.
  apply Z.eqb_eq in H1. rewrite H1. f_equal. auto.
Qed.

Lemma setVersionForChild_spec vs v p :
  length vs = nrOfChildren -> 0 <= p < Z.of_nat nrOfChildren -> 0 <= v <= MaxUint8 ->
  setVersionForChild (revertChildrenVersionSliceIfNeeded vs) v p =
  inr (revertChildrenVersionSliceIfNeeded (<[Z.to_nat p := v]> vs)).
Proof.
  intros Hlen Hp Hv. unfold setVersionForChild.
  assert (Hu : u8 v = v) by (apply Z.mod_small; unfold MaxUint8 in Hv; lia).
  set (vs1 := if blen (revertChildrenVersionSliceIfNeeded vs) =? 0 then replicate nrOfChildren 0
              else revertChildrenVersionSliceIfNeeded vs).
  assert (Hvs1 : vs1 = vs).
  { subst vs1. unfold revertChildrenVersionSliceIfNeeded.
    destruct (forallb _ _) eqn:Hz.
    - rewrite (forallb_zero_replicate _ Hz), Hlen. reflexivity.
    - destruct (blen vs =? 0) eqn:E; [|done]. apply Z.eqb_eq, blen_0 in E. by subst. }
  rewrite Hvs1, Hu. unfold blen at 2. rewrite Hlen.
  rewrite (proj2 (Z.leb_gt _ _)) by lia.
  destruct (v =? NotSpecified) eqn:E0; simpl.
  - destruct (blen _ =? 0) eqn:Eb; [|done]. apply Z.eqb_eq, blen_0 in Eb.
    unfold revertChildrenVersionSliceIfNeeded in *. apply Z.eqb_eq in E0. subst v.
    destruct (forallb _ vs) eqn:Hz; [|by subst].
    pose proof (forallb_zero_replicate _ Hz) as Hr. rewrite list_insert_id; [by rewrite Hz|].
    rewrite Hr. apply lookup_replicate_2. rewrite Hlen. lia.
  - unfold revertChildrenVersionSliceIfNeeded. destruct (forallb _ (<[_:=_]> _)) eqn:Hz; [|done].
    exfalso. rewrite forallb_forall in Hz.
    assert (Hin : In v (<[Z.to_nat p:=v]> vs)).
    { apply list_elem_of_In, list_elem_of_lookup. exists (Z.to_nat p).
      apply list_lookup_insert_eq. lia. }
    specialize (Hz _ Hin). simpl in Hz. congruence.
Qed.
End Rep.
#[export] Hint Resolve hashOk_new : core.
