(* ===== verification/TrieRefine.v ===== *)
(** * The node operations refine the logical trie.

    On a node that represents a canonical logical trie over a storage, reading,
    inserting and deleting succeed, with fuel that only depends on the key, and
    give a node that represents the trie one expects. *)

From stdpp Require Import base list gmap.
From Stdlib Require Import ZArith Lia.
From S2P Require Import Prelude TrieNode TrieOps TrieSpec TrieRep.

(** ** Keys and prefixes *)

Lemma prefixLen_app p k1 k2 : prefixLen (p ++ k1) (p ++ k2) = (length p + prefixLen k1 k2)%nat.
Proof. induction p as [|x p IH]; simpl; [done|]. by rewrite Z.eqb_refl, IH. Qed.

(** Two distinct keys split at their first difference. *)
Lemma khex_split e k1 k2 :
  khex e k1 -> khex e k2 -> k1 <> k2 ->
  exists p a b r1 r2, k1 = p ++ a :: r1 /\ k2 = p ++ b :: r2 /\ a <> b /\ nibbles p /\
    e = false /\ 0 <= a <= hexTerminator /\ 0 <= b <= hexTerminator /\
    khex (a =? hexTerminator) r1 /\ khex (b =? hexTerminator) r2.
Proof.
  revert e k2. induction k1 as [|x k1 IH]; intros e k2 H1 H2 Hne.
  - simpl in H1. subst. apply khex_true in H2. by subst.
  - destruct H1 as (-> & Hx & H1). destruct k2 as [|y k2]; [done|].
    destruct H2 as (_ & Hy & H2). destruct (decide (x = y)) as [<-|Hxy].
    + destruct (IH _ k2 H1 H2) as (p & a & b & r1 & r2 & -> & -> & Hab & Hp & He & Ha & Hb & Hr1 & Hr2);
        [congruence|].
      exists (x :: p), a, b, r1, r2. apply Z.eqb_neq in He. repeat split; auto; try lia.
      constructor; auto. lia.
    + exists [], x, y, k1, k2. repeat split; auto; try lia. constructor.
Qed.

Lemma khex_split_prefixLen p a b r1 r2 :
  a <> b -> prefixLen (p ++ a :: r1) (p ++ b :: r2) = length p.
Proof.
  intros Hab. rewrite prefixLen_app. simpl. apply Z.eqb_neq in Hab. rewrite Hab. lia.
Qed.

Lemma prefixLen_full k key : prefixLen key k = length k -> exists r, key = k ++ r.
Proof.
  revert key. induction k as [|x k IH]; intros key H; [by exists key|].
  destruct key as [|y key]; simpl in H; [lia|]. destruct (Z.eqb_spec y x) as [->|]; [|lia].
  destruct (IH key) as [r ->]; [lia|]. by exists r.
Qed.

Lemma prefixLen_le a b : (prefixLen a b <= length b)%nat.
Proof.
  revert b. induction a as [|x a IH]; intros [|y b]; simpl; try lia.
  destruct (x =? y); simpl; [specialize (IH b)|]; lia.
Qed.

(** A key that does not go through an extension splits its key part. *)
Lemma khex_split_ext k key :
  nibbles k -> khex false key -> (forall r, key <> k ++ r) ->
  exists p a b r1 r2, key = p ++ a :: r1 /\ k = p ++ b :: r2 /\ a <> b /\ nibbles p /\
    0 <= a <= hexTerminator /\ 0 <= b < hexTerminator /\
    khex (a =? hexTerminator) r1 /\ nibbles r2.
Proof.
  revert key. induction k as [|x k IH]; intros key Hk Hkey Hne; [by destruct (Hne key)|].
  inversion Hk as [|? ? Hx Hk']; subst. destruct key as [|y key]; [done|].
  destruct Hkey as (_ & Hy & Hkey). destruct (decide (y = x)) as [->|Hxy].
  - replace (x =? hexTerminator) with false in Hkey by (symmetry; apply Z.eqb_neq; lia).
    destruct (IH key Hk' Hkey) as (p & a & b & r1 & r2 & -> & -> & ? & ? & ? & ? & ? & ?).
    { intros r ->. by destruct (Hne r). }
    exists (x :: p), a, b, r1, r2. repeat split; auto; try lia. by constructor.
  - exists [], y, x, key, k. repeat split; auto; try lia. constructor.
Qed.

(** ** Wrapping a branch in an extension *)

Definition wrapT (p : bytes) (t : trie) : trie := match p with [] => t | _ => TExt p t end.

Lemma tget_wrapT_app p t key : tget (wrapT p t) (p ++ key) = tget t key.
Proof. destruct p as [|x p]; [done|]. apply (tget_ext_app (x :: p)). Qed.

Lemma tget_wrapT_inv p t key x :
  tget (wrapT p t) key = Some x -> exists key', key = p ++ key' /\ tget t key' = Some x.
Proof. destruct p; [by exists key|]. apply tget_ext_inv. Qed.

Lemma wf_wrapT p t : nibbles p -> isBranch t -> wf false t -> wf false (wrapT p t).
Proof. intros Hp Hb Hwf. destruct p; [done|]. by repeat split. Qed.

(** The branch with two children. *)
Definition twoT (a b : Z) (ta tb : trie) : trie :=
  TBranch (<[Z.to_nat a := Some ta]> (<[Z.to_nat b := Some tb]> (replicate nrOfChildren None))).

Lemma twoT_children a b (ta tb : trie) q :
  0 <= a <= hexTerminator -> 0 <= b <= hexTerminator -> a <> b -> 0 <= q <= hexTerminator ->
  <[Z.to_nat a := Some ta]> (<[Z.to_nat b := Some tb]> (replicate nrOfChildren None)) !! Z.to_nat q =
  Some (if decide (q = a) then Some ta else if decide (q = b) then Some tb else None).
Proof.
  intros Ha Hb Hab Hq. unfold hexTerminator in *.
  assert (Hlen : forall i : Z, 0 <= i <= 16 -> (Z.to_nat i < nrOfChildren)%nat)
    by (unfold nrOfChildren; lia).
  repeat case_decide; subst.
  - apply list_lookup_insert_eq. rewrite length_insert, length_replicate. auto.
  - rewrite list_lookup_insert_ne by lia. apply list_lookup_insert_eq. rewrite length_replicate. auto.
  - rewrite !list_lookup_insert_ne by lia. apply lookup_replicate_2. auto.
Qed.

Lemma tget_twoT a b ta tb q key :
  0 <= a <= hexTerminator -> 0 <= b <= hexTerminator -> a <> b -> 0 <= q <= hexTerminator ->
  tget (twoT a b ta tb) (q :: key) =
  if decide (q = a) then tget ta key else if decide (q = b) then tget tb key else None.
Proof.
  intros. unfold twoT. rewrite tget_branch, twoT_children by done. by repeat case_decide.
Qed.

Lemma wf_twoT a b ta tb :
  0 <= a <= hexTerminator -> 0 <= b <= hexTerminator -> a <> b ->
  wf (a =? hexTerminator) ta -> wf (b =? hexTerminator) tb -> wf false (twoT a b ta tb).
Proof.
  intros Ha Hb Hab Hwa Hwb. unfold twoT. rewrite wf_branch.
  assert (Hlen : length (<[Z.to_nat a:=Some ta]> (<[Z.to_nat b:=Some tb]>
    (replicate nrOfChildren None))) = nrOfChildren) by by rewrite !length_insert, length_replicate.
  split; [done|]. split; [done|]. split.
  - assert (Hb' : replicate nrOfChildren (@None trie) !! Z.to_nat b = Some None).
    { apply lookup_replicate_2. unfold nrOfChildren, hexTerminator in *. lia. }
    pose proof (numSome_insert _ _ _ (Some tb) Hb') as H1.
    assert (Ha' : <[Z.to_nat b:=Some tb]> (replicate nrOfChildren (@None trie)) !! Z.to_nat a = Some None).
    { rewrite list_lookup_insert_ne by lia.
      apply lookup_replicate_2. unfold nrOfChildren, hexTerminator in *. lia. }
    pose proof (numSome_insert _ _ _ (Some ta) Ha') as H2.
    rewrite numSome_replicate in H1. simpl in *. lia.
  - intros i c Hi. pose proof (lookup_lt_Some _ _ _ Hi) as Hlt. rewrite Hlen in Hlt.
    assert (E : i = Z.to_nat (Z.of_nat i)) by lia. rewrite E in Hi.
    rewrite twoT_children in Hi by (try done; unfold nrOfChildren, hexTerminator in *; lia).
    repeat case_decide; simplify_eq; subst; done.
Qed.

(** Branching out: the old trie [t] only has keys under [p ++ [b]], where it is
    [o]; a leaf is added under [p ++ [a]]. *)
Lemma split_get t o p a b r1 v ver k' :
  0 <= a <= hexTerminator -> 0 <= b <= hexTerminator -> a <> b -> nibbles p ->
  (forall x, tget t (p ++ b :: x) = tget o x) ->
  (forall k x, tget t k = Some x -> exists r, k = p ++ b :: r) ->
  khex false k' ->
  tget (wrapT p (twoT a b (TLeaf r1 v ver) o)) k' =
  if decide (k' = p ++ a :: r1) then Some (v, ver) else tget t k'.
Proof.
  intros Ha Hb Hab Hp Hin Hout Hk'.
  assert (Hkey : (exists r, k' = p ++ r) \/ forall r, k' <> p ++ r).
  { destruct (decide (p = take (length p) k')) as [E|E].
    - left. exists (drop (length p) k'). by rewrite E, take_drop at 1.
    - right. intros r ->. by rewrite take_app_length in E. }
  destruct Hkey as [[r ->]|Hno].
  - rewrite tget_wrapT_app. rewrite khex_app in Hk' by done.
    destruct r as [|q r]; [done|]. destruct Hk' as (_ & Hq & Hr).
    rewrite tget_twoT by done. destruct (decide (q = a)) as [->|Hqa].
    + simpl. destruct (beq r r1) eqn:E; [apply beq_true in E|apply beq_false in E].
      * subst. by rewrite decide_True.
      * rewrite decide_False by (intros ?%app_inv_head; congruence).
        destruct (tget t (p ++ a :: r)) eqn:Et; [|done].
        destruct (Hout _ _ Et) as [r' ?%app_inv_head]. congruence.
    + destruct (decide (p ++ q :: r = p ++ a :: r1)) as [E|_];
        [apply app_inv_head in E; congruence|].
      destruct (decide (q = b)) as [->|Hqb]; [by rewrite Hin|].
      destruct (tget t (p ++ q :: r)) eqn:Et; [|done].
      destruct (Hout _ _ Et) as [r' ?%app_inv_head]. congruence.
  - rewrite decide_False by apply Hno.
    destruct (tget t k') as [x|] eqn:Et; [by destruct (Hout _ _ Et) as [r ->]; destruct (Hno (b :: r))|].
    destruct (tget (wrapT p _) k') as [y|] eqn:E; [|done].
    apply tget_wrapT_inv in E as (r & -> & _). by destruct (Hno r).
Qed.

#[local] Arguments replicate : simpl never.

Lemma wf_leaf e k v ver : khex e k -> v <> [] -> 0 <= ver <= MaxUint8 -> wf e (TLeaf k v ver).
Proof. done. Qed.

Lemma baseOf_setChildAt n p c b : baseOf n = b -> baseOf (setChildAt n p c) = b.
Proof. by destruct n. Qed.

Section Refine.
Context `{C : Codec} {St : Type} `{TS : TrieStorage St} `{CL : !CodecLaws C}.
Implicit Types (st : St).

(** ** Loading a node from the storage *)

Lemma slots_collapsed st hs ts :
  (forall i c, ts !! i = Some (Some c) -> stored st c) ->
  slots st hs (map childHash ts) (replicate (length ts) None) ts.
Proof.
  induction ts as [|t ts IH]; intros H; simpl; constructor.
  - destruct t as [t|]; simpl; constructor. by apply (H 0%nat).
  - apply IH. intros i c Hi. by apply (H (S i)).
Qed.

Lemma decode_enc c ty :
  decodeNode (encC c ty) = unmarshalNode ty (default [] (marshal c)).
Proof.
  unfold decodeNode, encC. rewrite last_snoc, length_app. simpl.
  rewrite Nat.add_sub. by rewrite take_app_length.
Qed.

Lemma decode_stored st e t :
  stored st t -> wf e t ->
  exists n, getNodeFromDBAndDecode (hashL t) st = inr n /\
    rep st (setGivenHash n (hashL t)) t.
Proof.
  intros Hst Hwf. unfold getNodeFromDBAndDecode. rewrite (stored_get _ _ Hst).
  assert (Hok : hashOk st (mkBase (Some (hashL t)) false) t) by (split; [by right|done]).
  destruct t as [k v ver|k c|cs]; cbn [encL]; rewrite decode_enc.
  - destruct (marshal_total (CollapsedLn k (Some v) ver)) as [m Hm]. rewrite Hm. simpl.
    unfold unmarshalNode; simpl. erewrite unmarshal_ln by (try done; apply Hwf).
    eexists; split; [done|]. by constructor.
  - destruct (marshal_total (CollapsedEn k (hashL c) (tver c))) as [m Hm]. rewrite Hm. simpl.
    unfold unmarshalNode; simpl. erewrite unmarshal_en by done.
    eexists; split; [done|]. constructor; [done|]. inversion Hst; subst. by constructor.
  - destruct (marshal_total (CollapsedBn (map childHash cs) (tvers cs))) as [m Hm].
    rewrite Hm. simpl. unfold unmarshalNode; simpl. erewrite unmarshal_bn by done.
    eexists; split; [done|]. constructor; [done|]. inversion Hst; subst.
    rewrite wf_branch in Hwf. destruct Hwf as (_ & Hlen & _).
    pose proof (slots_collapsed st true cs ltac:(done)) as Hsl. rewrite Hlen in Hsl. exact Hsl.
Qed.

(** ** Resolving a child *)

Definition tchild (t : trie) (p : Z) : option trie :=
  match t with
  | TLeaf _ _ _ => None
  | TExt _ c => Some c
  | TBranch cs => mjoin (cs !! Z.to_nat p)
  end.

Lemma resolve_branch st hs b encs vers cs ts p :
  slots st hs encs cs ts ->
  (forall i c, ts !! i = Some (Some c) -> exists e, wf e c) ->
  (1 <= numSome ts)%nat -> length ts = nrOfChildren -> 0 <= p <= hexTerminator ->
  match mjoin (ts !! Z.to_nat p) with
  | None =>
      resolveIfCollapsed (branchNode b encs vers cs) p st = inr (branchNode b encs vers cs) /\
      mjoin (cs !! Z.to_nat p) = None
  | Some t =>
      exists c, resolveIfCollapsed (branchNode b encs vers cs) p st =
          inr (branchNode b encs vers (<[Z.to_nat p := Some c]> cs)) /\
        rep st c t /\
        (hs = true -> encs !! Z.to_nat p = Some (hashL t) /\ hashed (baseOf c) = true)
  end.
Proof.
  intros Hs Hwf Hn Hlen Hp. pose proof (branchNotEmpty_slots _ _ _ _ _ Hs Hn) as Hne.
  assert (Hlt : (Z.to_nat p < length ts)%nat)
    by (rewrite Hlen; unfold nrOfChildren, hexTerminator in *; lia).
  destruct (lookup_lt_is_Some_2 _ _ Hlt) as [o Ho]. rewrite Ho. simpl.
  destruct (slots_lookup _ _ _ _ _ _ _ Hs Ho) as (e & c & He & Hc & Hslot).
  unfold resolveIfCollapsed. cbn [isEmptyOrNil]. rewrite Hne. cbn [rbind isPosCollapsed].
  rewrite Hc, He. destruct Hslot as [hs|hs e n t Hr Hh|hs t Hst]; simpl.
  - done.
  - exists n. rewrite list_insert_id by done. split; [done|]. split; [done|].
    intros ->. by destruct (Hh eq_refl) as [-> ?].
  - rewrite hashL_blen. simpl. rewrite Hne. simpl.
    replace (childPosOutOfRange p) with false
      by (symmetry; unfold childPosOutOfRange, hexTerminator, nrOfChildren in *; apply Z.leb_gt; lia).
    rewrite He. simpl. rewrite hashL_blen.
    destruct (Hwf _ _ Ho) as [e' Hwf'].
    destruct (decode_stored _ _ _ Hst Hwf') as (n & Hn' & Hrep). rewrite Hn'. simpl.
    eexists. split; [done|]. split; [done|]. by destruct n.
Qed.

Lemma wf_children_ex e ts i c : wf e (TBranch ts) -> ts !! i = Some (Some c) -> exists e, wf e c.
Proof. rewrite wf_branch. intros (_ & _ & _ & H) Hi. eauto. Qed.

Lemma resolve_any st e n t p :
  rep st n t -> wf e t -> 0 <= p <= hexTerminator ->
  exists n1, resolveIfCollapsed n p st = inr n1 /\ rep st n1 t /\ baseOf n1 = baseOf n /\
    match tchild t p with
    | None => childAt n1 p = None
    | Some t1 => exists c, childAt n1 p = Some c /\ rep st c t1 /\
        forall c', rep st c' t1 -> baseOf c' = baseOf c -> rep st (setChildAt n1 p (Some c')) t
    end.
Proof.
  intros Hrep Hwf Hp. pose proof (rep_notEmpty _ _ _ _ Hrep Hwf) as Hne.
  destruct Hrep as [b k v ver Hb|b k enc c t Hb Hs|b encs cs ts Hb Hs].
  - exists (leafNode b k (Some v) ver). repeat split; simpl; try done. by constructor.
  - assert (Hc : exists c0, resolveIfCollapsed (extensionNode b k enc (tver t) c) p st =
        inr (extensionNode b k enc (tver t) (Some c0)) /\ rep st c0 t /\
        (hashed b = true -> enc = hashL t /\ hashed (baseOf c0) = true)).
    { unfold resolveIfCollapsed. rewrite Hne. simpl.
      inversion Hs as [|? ? n t' Hn Hh|? ? Hst]; subst; simpl.
      - eauto.
      - rewrite !hashL_blen. simpl. rewrite ?hashL_blen. simpl.
        destruct Hwf as (_ & _ & _ & _ & Hwf).
        destruct (decode_stored _ _ _ Hst Hwf) as (n & Hn' & Hrep). rewrite Hn'. simpl.
        eexists. split; [done|]. split; [done|]. by destruct n. }
    destruct Hc as (c0 & Hres & Hr & Hh). rewrite Hres. eexists. split; [done|].
    simpl. split; [|split; [done|]].
    + constructor; [done|]. by constructor.
    + exists c0. split; [done|]. split; [done|]. intros c' Hc' Hbc. constructor; [done|]. constructor; [done|]. by rewrite Hbc.
  - pose proof (resolve_branch st _ b encs (tvers ts) cs ts p Hs) as Hres.
    pose proof Hwf as Hwf'. rewrite wf_branch in Hwf. destruct Hwf as (_ & Hlen & Hn & Hch).
    specialize (Hres (fun i c => wf_children_ex _ _ i c Hwf') ltac:(lia) Hlen Hp). simpl.
    assert (Hlt : (Z.to_nat p < length ts)%nat)
      by (rewrite Hlen; unfold nrOfChildren, hexTerminator in *; lia).
    destruct (lookup_lt_is_Some_2 _ _ Hlt) as [o Ho]. rewrite Ho in *. simpl in *.
    destruct (slots_lookup _ _ _ _ _ _ _ Hs Ho) as (e0 & c & He & Hc & Hslot).
    destruct o as [t|].
    + destruct Hres as (c0 & -> & Hr & Hh). eexists. split; [done|].
      assert (Hset : forall c', rep st c' t -> baseOf c' = baseOf c0 ->
        slots st (hashed b) encs (<[Z.to_nat p:=Some c']> cs) ts).
      { intros c' Hc' Hbc. eapply slots_insert_child; eauto. constructor; [done|].
        intros Hhs. destruct (Hh Hhs). rewrite Hbc. split; [congruence|done]. }
      split; [|split; [done|]].
      * constructor; [done|]. auto.
      * exists c0. simpl.
        destruct (slots_length _ _ _ _ _ Hs) as [_ Hl].
        rewrite list_lookup_insert_eq by lia. split; [done|]. split; [done|].
        intros c' Hc' Hbc. rewrite list_insert_insert_eq. constructor; [done|]. auto.
    + destruct Hres as [-> Hnone]. eexists. split; [done|].
      split; [by constructor|]. split; [done|]. simpl. done.
Qed.

(** ** Reading *)

Lemma drop_prefix_length (k key : bytes) :
  k <> [] -> k = take (length k) key -> (length (drop (length k) key) < length key)%nat.
Proof.
  intros Hne E. rewrite length_drop. destruct k as [|x k]; [done|].
  destruct key as [|y key]; [done|]. simpl. lia.
Qed.

Lemma tryGet_spec st fuel n t e key depth :
  rep st n t -> wf e t -> khex e key -> (length key < fuel)%nat ->
  exists n' d, tryGet fuel n key depth st = (n', (d, inr (fst <$> tget t key))) /\
    rep st n' t /\ baseOf n' = baseOf n.
Proof.
  revert n t e key depth. induction fuel as [|fuel IH]; intros n t e key depth Hrep Hwf Hkey Hf; [lia|].
  cbn [tryGet]. rewrite (rep_notEmpty _ _ _ _ Hrep Hwf).
  destruct t as [k v ver|k c|ts]; pose proof Hrep as Hrep'.
  - inversion Hrep; subst. simpl. destruct (beq key k) eqn:E; simpl; eauto.
  - destruct Hwf as (-> & Hne & Hk & Hbr & Hwfc).
    destruct (resolve_any st false n (TExt k c) 0 Hrep' ltac:(by repeat split) ltac:(unfold hexTerminator; lia))
      as (n1 & Hres & Hrep1 & Hbase & c0 & Hch & Hrepc & Hset).
    inversion Hrep; subst.
    destruct (blen key <? blen k) eqn:Elen.
    { apply Z.ltb_lt in Elen. unfold blen in Elen. simpl.
      destruct (beq k (take (length k) key)) eqn:E; [|eauto].
      apply beq_true in E. apply (f_equal length) in E. rewrite length_take in E. lia. }
    simpl. destruct (beq k (take (length k) key)) eqn:E; simpl; [|eauto].
    apply beq_true in E. rewrite Hres, Hch.
    assert (Hkey' : khex false (drop (length k) key)).
    { rewrite <- (take_drop (length k) key), <- E in Hkey. by rewrite khex_app in Hkey. }
    destruct (IH c0 c false (drop (length k) key) (u32 (depth + 1)) Hrepc Hwfc Hkey')
      as (c' & d & Hget & Hrepc' & Hbc); [pose proof (drop_prefix_length _ _ Hne E); lia|].
    rewrite Hget. eexists _, d. split; [done|]. split; [by apply Hset|].
    destruct n1; simpl in *; congruence.
  - destruct key as [|p key]; [simpl in Hkey; subst; by destruct Hwf|].
    destruct Hkey as (-> & Hp & Hkey).
    destruct (resolve_any st false n (TBranch ts) p Hrep' Hwf Hp)
      as (n1 & Hres & Hrep1 & Hbase & Hch).
    inversion Hrep; subst.
    replace (childPosOutOfRange p) with false
      by (symmetry; unfold childPosOutOfRange, hexTerminator, nrOfChildren in *; apply Z.leb_gt; lia).
    rewrite Hres, tget_branch. simpl in Hch.
    destruct (ts !! Z.to_nat p) as [[c|]|] eqn:Ep; simpl in Hch.
    + destruct Hch as (c0 & -> & Hrepc & Hset).
      assert (Hwfc : wf (p =? hexTerminator) c) by (eapply wf_child; eauto; lia).
      destruct (IH c0 c _ key (u32 (depth + 1)) Hrepc Hwfc Hkey) as (c' & d & Hget & Hrepc' & Hbc);
        [simpl in Hf; lia|].
      rewrite Hget. eexists _, d. split; [done|]. split; [by apply Hset|].
      destruct n1; simpl in *; congruence.
    + rewrite Hch. eauto.
    + rewrite Hch. eauto.
Qed.

(** ** Building nodes *)

Lemma tvers_empty : tvers (replicate nrOfChildren None) = [].
Proof. reflexivity. Qed.

Lemma overs_length ts : length (overs ts) = length ts.
Proof. unfold overs. by rewrite length_map. Qed.

Lemma setVersion_insert ts t p :
  length ts = nrOfChildren -> 0 <= p <= hexTerminator -> 0 <= tver t <= MaxUint8 ->
  setVersionForChild (tvers ts) (tver t) p = inr (tvers (<[Z.to_nat p := Some t]> ts)).
Proof.
  intros Hlen Hp Hv. unfold tvers. rewrite overs_insert.
  apply setVersionForChild_spec; [by rewrite overs_length| |done].
  unfold nrOfChildren, hexTerminator in *. lia.
Qed.

Lemma setVersion_delete ts p :
  length ts = nrOfChildren -> 0 <= p <= hexTerminator ->
  setVersionForChild (tvers ts) NotSpecified p = inr (tvers (<[Z.to_nat p := None]> ts)).
Proof.
  intros Hlen Hp. unfold tvers. rewrite overs_insert_None.
  apply setVersionForChild_spec; [by rewrite overs_length| |].
  - unfold nrOfChildren, hexTerminator in *. lia.
  - unfold NotSpecified, MaxUint8. lia.
Qed.

Lemma u32_small v : 0 <= v <= MaxUint8 -> u32 v = v.
Proof. intros H. apply Z.mod_small. unfold MaxUint8 in H. lia. Qed.

Lemma u8_small v : 0 <= v <= MaxUint8 -> u8 v = v.
Proof. intros H. apply Z.mod_small. unfold MaxUint8 in H. lia. Qed.

Lemma rep_newLeaf st k v ver :
  0 <= ver <= MaxUint8 -> rep st (newLeafNode (mkTrieData k v ver)) (TLeaf k v ver).
Proof. intros H. unfold newLeafNode. simpl. rewrite u32_small by done. by constructor. Qed.

(** newExtensionNode on a represented child. *)
Lemma rep_newExtension st e k c t :
  rep st c t -> wf e t ->
  exists b, newExtensionNode k (Some c) = inr (extensionNode b k [] (tver t) (Some c)) /\
    rep st (extensionNode b k [] (tver t) (Some c)) (TExt k t).
Proof.
  intros Hrep Hwf. unfold newExtensionNode. rewrite (rep_getVersion _ _ _ _ Hrep Hwf). simpl.
  rewrite u32_small by (eapply tver_bounds; eauto). eexists. split; [done|].
  constructor; [done|]. by constructor.
Qed.

(** The two-child branch of insertInNewBn. *)
Lemma rep_twoT st a b ca cb ta tb :
  0 <= a <= hexTerminator -> 0 <= b <= hexTerminator -> a <> b ->
  rep st ca ta -> rep st cb tb ->
  rep st (branchNode newBase (replicate nrOfChildren [])
           (tvers (<[Z.to_nat a := Some ta]> (<[Z.to_nat b := Some tb]> (replicate nrOfChildren None))))
           (<[Z.to_nat a := Some ca]> (<[Z.to_nat b := Some cb]> (replicate nrOfChildren None))))
    (twoT a b ta tb).
Proof.
  intros Ha Hb Hab Hca Hcb. constructor; [done|].
  assert (Hl : forall i : Z, 0 <= i <= hexTerminator -> (Z.to_nat i < nrOfChildren)%nat)
    by (unfold nrOfChildren, hexTerminator; lia).
  assert (He : forall i : Z, 0 <= i <= hexTerminator ->
    <[Z.to_nat i := []]> (replicate nrOfChildren (@nil Z)) = replicate nrOfChildren []).
  { intros i Hi. apply list_insert_id, lookup_replicate_2. auto. }
  rewrite <- (He a Ha), <- (He b Hb) at 1.
  apply slots_insert; [apply slots_insert; [apply slots_empty| |]|..].
  - by constructor.
  - rewrite length_replicate. auto.
  - by constructor.
  - rewrite length_insert, length_replicate. auto.
Qed.

(** The node of a branch under a key part. *)
Lemma rep_wrap st p bn ta :
  rep st bn ta -> wf false ta -> isBranch ta -> nibbles p ->
  exists n, (if (length p =? 0)%nat then inr (Some bn)
             else let? en := newExtensionNode p (Some bn) in inr (Some en) : trieErr + option node)
            = inr (Some n) /\ rep st n (wrapT p ta).
Proof.
  intros Hrep Hwf Hb Hp. destruct p as [|x p]; [by exists bn|].
  destruct (rep_newExtension st false (x :: p) bn ta Hrep Hwf) as (b & Hnew & Hr).
  simpl. rewrite Hnew. eexists. split; [done|]. done.
Qed.

Lemma position_in_range p : 0 <= p <= hexTerminator -> childPosOutOfRange p = false.
Proof.
  intros Hp. unfold childPosOutOfRange, hexTerminator, nrOfChildren in *. apply Z.leb_gt. lia.
Qed.

(** ** Inserting *)

(** The expected trie. *)
Definition isInsert (e : bool) (t : trie) (key v : bytes) (ver : Z) (t' : trie) : Prop :=
  wf e t' /\ (isBranch t -> isBranch t') /\
  forall k', khex e k' -> tget t' k' = if decide (k' = key) then Some (v, ver) else tget t k'.

Lemma lookup_middle {A} (p : list A) x r : (p ++ x :: r) !! length p = Some x.
Proof. rewrite lookup_app_r by lia. by rewrite Nat.sub_diag. Qed.

Lemma drop_S_middle {A} (p : list A) x r : drop (S (length p)) (p ++ x :: r) = r.
Proof.
  replace (S (length p)) with (length (p ++ [x])) by (rewrite length_app; simpl; lia).
  replace (p ++ x :: r) with ((p ++ [x]) ++ r) by by rewrite <- app_assoc.
  apply drop_app_length.
Qed.

(** Common to leafInsertInNewBn and extInsertInNewBn: the versions of the two
    children of the new branch. *)
Lemma two_versions ta tb a b ea eb :
  0 <= a <= hexTerminator -> 0 <= b <= hexTerminator -> wf ea ta -> wf eb tb ->
  exists v1, setVersionForChild [] (tver tb) b = inr v1 /\
    setVersionForChild v1 (tver ta) a = inr (tvers
      (<[Z.to_nat a := Some ta]> (<[Z.to_nat b := Some tb]> (replicate nrOfChildren None)))).
Proof.
  intros Ha Hb Hwa Hwb. rewrite <- tvers_empty.
  rewrite setVersion_insert; [|by rewrite length_replicate|done|eapply tver_bounds; eauto].
  eexists. split; [done|].
  rewrite setVersion_insert; [done| |done|eapply tver_bounds; eauto].
  by rewrite length_insert, length_replicate.
Qed.

Lemma leafInsert_spec st e b k v ver key v' ver' :
  rep st (leafNode b k (Some v) ver) (TLeaf k v ver) -> wf e (TLeaf k v ver) ->
  khex e key -> v' <> [] -> 0 <= ver' <= MaxUint8 ->
  exists n' r, leafInsert (leafNode b k (Some v) ver) k (Some v) (mkTrieData key v' ver') =
    (n', inr r) /\
    ((key = k /\ v = v' /\ r = (None, []) /\ n' = leafNode b k (Some v) ver) \/
     (~ (key = k /\ v = v') /\ exists n'' t' hs, r = (Some n'', hs) /\ rep st n'' t' /\
        isInsert e (TLeaf k v ver) key v' ver' t')).
Proof.
  intros Hrep Hwf Hkey Hv' Hver'. unfold leafInsert. simpl.
  destruct (beq key k) eqn:E; [apply beq_true in E; subst key|apply beq_false in E].
  - destruct (beq v v') eqn:Ev; [apply beq_true in Ev; subst|apply beq_false in Ev].
    + eexists _, _. split; [done|]. by left.
    + eexists _, _. split; [done|]. right. split; [by intros [_ ?]|].
      rewrite u32_small by done. eexists _, (TLeaf k v' ver'), _. split; [done|]. split.
      * constructor. split; [by left|done].
      * destruct Hwf as (Hk & _). split; [done|]. split; [done|]. intros k' _. simpl.
        destruct (beq k' k) eqn:Ek; [apply beq_true in Ek|apply beq_false in Ek].
        -- by rewrite decide_True.
        -- by rewrite decide_False.
  - destruct Hwf as (Hk & Hv & Hver).
    destruct (khex_split e key k Hkey Hk E)
      as (p & a & bb & r1 & r2 & -> & -> & Hab & Hp & -> & Ha & Hb & Hr1 & Hr2).
    rewrite khex_split_prefixLen by done. unfold leafInsertInNewBn. simpl.
    rewrite !lookup_middle, !position_in_range by done. simpl.
    rewrite !drop_S_middle, take_app_length.
    assert (Hwa : wf (a =? hexTerminator) (TLeaf r1 v' ver')) by by apply wf_leaf.
    assert (Hwb : wf (bb =? hexTerminator) (TLeaf r2 v ver)) by by apply wf_leaf.
    destruct (two_versions _ _ a bb _ _ Ha Hb Hwa Hwb) as (v1 & Hv1 & Hv2). simpl in Hv1, Hv2.
    rewrite (proj2 (Z.ltb_ge _ _)) by lia. simpl. rewrite Hv1. simpl. rewrite Hv2. simpl.
    pose proof (rep_twoT st a bb _ _ _ _ Ha Hb Hab (rep_newLeaf st r1 v' ver' Hver')
      (rep_newLeaf st r2 v ver Hver)) as Hbn.
    destruct (rep_wrap st p _ _ Hbn (wf_twoT _ _ _ _ Ha Hb Hab Hwa Hwb) I Hp) as (n & Hn & Hrepn).
    eexists _, (Some n, _). split.
    { f_equal. destruct (length p =? 0)%nat; [by simplify_eq|].
      destruct (newExtensionNode p _) as [?|en]; simpl in *; simplify_eq. done. }
    right. split; [by intros [? _]|]. exists n. eexists _, _. split; [done|]. split; [done|].
    split; [by apply wf_wrapT; [|done|by apply wf_twoT]|]. split; [done|].
    intros k' Hk'. apply split_get; auto.
    + intros x. simpl. destruct (beq x r2) eqn:Ex; [apply beq_true in Ex|apply beq_false in Ex].
      * subst. by rewrite beq_refl.
      * destruct (beq (p ++ bb :: x) (p ++ bb :: r2)) eqn:Ey; [|done].
        apply beq_true, app_inv_head in Ey. congruence.
    + intros k0 x. simpl. destruct (beq k0 _) eqn:Ex; [|done]. apply beq_true in Ex. eauto.
Qed.

(** Branching out of an extension. *)
Lemma extInsert_spec st n k c t key v' ver' :
  rep st c t -> wf false (TExt k t) ->
  khex false key -> (forall r, key <> k ++ r) -> v' <> [] -> 0 <= ver' <= MaxUint8 ->
  exists n'' t' hs,
    extInsertInNewBn n k (Some c) (mkTrieData key v' ver') (prefixLen key k) = inr (Some n'', hs) /\
    rep st n'' t' /\ isInsert false (TExt k t) key v' ver' t'.
Proof.
  intros Hrep (_ & Hne & Hk & Hbr & Hwf) Hkey Hno Hv' Hver'.
  destruct (khex_split_ext k key Hk Hkey Hno)
    as (p & a & bb & r1 & r2 & -> & -> & Hab & Hp & Ha & Hb & Hr1 & Hr2).
  rewrite khex_split_prefixLen by done. unfold extInsertInNewBn. simpl.
  assert (Hb' : 0 <= bb <= hexTerminator) by lia.
  rewrite !lookup_middle, !position_in_range by done. simpl.
  rewrite !drop_S_middle, take_app_length.
  rewrite (rep_getVersion _ _ _ _ Hrep Hwf). simpl.
  (* the node and the trie that keep the old child *)
  assert (Hold : exists o, (if blen r2 <? 1 then inr c else newExtensionNode r2 (Some c)) = inr o /\
    rep st o (wrapT r2 t)).
  { destruct r2 as [|x r2]; [by exists c|].
    replace (blen (x :: r2) <? 1) with false
      by (symmetry; apply Z.ltb_ge; unfold blen; simpl; lia).
    destruct (rep_newExtension st false (x :: r2) c t Hrep Hwf) as (b & Hnew & Hr). eauto. }
  destruct Hold as (o & Ho & Hrepo). rewrite Ho. simpl.
  assert (Hwa : wf (a =? hexTerminator) (TLeaf r1 v' ver')) by by apply wf_leaf.
  assert (Hwb : wf (bb =? hexTerminator) (wrapT r2 t)).
  { replace (bb =? hexTerminator) with false by (symmetry; apply Z.eqb_neq; lia).
    by apply wf_wrapT. }
  assert (Hver : tver (wrapT r2 t) = tver t) by by destruct r2.
  destruct (two_versions _ _ a bb _ _ Ha Hb' Hwa Hwb) as (v1 & Hv1 & Hv2). simpl in Hv2.
  rewrite Hver in Hv1. rewrite Hv1. simpl. rewrite Hv2. simpl.
  pose proof (rep_twoT st a bb _ _ _ _ Ha Hb' Hab (rep_newLeaf st r1 v' ver' Hver') Hrepo) as Hbn.
  destruct (rep_wrap st p _ _ Hbn (wf_twoT _ _ _ _ Ha Hb' Hab Hwa Hwb) I Hp) as (nn & Hn & Hrepn).
  exists nn. eexists _, _. split.
  { destruct (length p =? 0)%nat; [by simplify_eq|].
    destruct (newExtensionNode p _) as [?|en]; simpl in *; simplify_eq. done. }
  split; [done|]. split; [by apply wf_wrapT; [|done|by apply wf_twoT]|]. split; [done|].
  intros k' Hk'. apply split_get; auto.
  - intros x. replace (p ++ bb :: x) with ((p ++ [bb]) ++ x) by by rewrite <- app_assoc.
    replace (p ++ bb :: r2) with ((p ++ [bb]) ++ r2) by by rewrite <- app_assoc.
    destruct r2 as [|y r2].
    + rewrite app_nil_r. apply tget_ext_app.
    + simpl. rewrite length_app, take_app, drop_app.
      rewrite take_ge by lia. rewrite drop_ge by lia.
      replace (length (p ++ [bb]) + length (y :: r2) - length (p ++ [bb]))%nat
        with (length (y :: r2)) by lia. simpl.
      destruct (beq (y :: r2) (take (S (length r2)) x)) eqn:Ey.
      * apply beq_true in Ey. rewrite <- Ey. by rewrite beq_refl.
      * destruct (beq ((p ++ [bb]) ++ y :: r2) _) eqn:Ez; [|done].
        apply beq_true, app_inv_head in Ez. apply beq_false in Ey. congruence.
  - intros k0 x Hx. apply tget_ext_inv in Hx as (r & -> & _).
    exists (r2 ++ r). by rewrite <- app_assoc.
Qed.

(** Replacing a child of a branch by a canonical one. *)
Lemma wf_branch_insert e ts p t o :
  wf e (TBranch ts) -> 0 <= p <= hexTerminator ->
  ts !! Z.to_nat p = Some o -> wf (p =? hexTerminator) t ->
  wf e (TBranch (<[Z.to_nat p := Some t]> ts)).
Proof.
  rewrite !wf_branch. intros (-> & Hlen & Hn & Hcs) Hp Ho Hwf.
  split; [done|]. split; [by rewrite length_insert|]. split.
  - pose proof (numSome_insert _ _ _ (Some t) Ho) as H. simpl in H. destruct o; simpl in H; lia.
  - intros i c Hi. destruct (decide (i = Z.to_nat p)) as [->|Hne].
    + rewrite list_lookup_insert_eq in Hi by (eapply lookup_lt_Some; eauto). simplify_eq.
      by rewrite Z2Nat.id by lia.
    + rewrite list_lookup_insert_ne in Hi by done. eauto.
Qed.

Lemma isInsert_branch e ts p o key v ver t' :
  wf e (TBranch ts) -> 0 <= p <= hexTerminator -> ts !! Z.to_nat p = Some o ->
  wf (p =? hexTerminator) t' ->
  (forall k', khex (p =? hexTerminator) k' ->
     tget t' k' = if decide (k' = key) then Some (v, ver)
                  else match o with Some t => tget t k' | None => None end) ->
  isInsert e (TBranch ts) (p :: key) v ver (TBranch (<[Z.to_nat p := Some t']> ts)).
Proof.
  intros Hwf Hp Ho Hwf' Hget. pose proof Hwf as Hwf0. rewrite wf_branch in Hwf0.
  destruct Hwf0 as (-> & Hlen & _). split; [by eapply wf_branch_insert|]. split; [done|].
  intros [|q k'] Hk'; [done|]. destruct Hk' as (_ & Hq & Hk'). rewrite !tget_branch.
  destruct (decide (q = p)) as [->|Hqp].
  - rewrite list_lookup_insert_eq by (eapply lookup_lt_Some; eauto).
    rewrite Hget, Ho by done.
    destruct (decide (k' = key)) as [->|]; [by rewrite decide_True|].
    rewrite decide_False by congruence. by destruct o.
  - rewrite list_lookup_insert_ne by lia. by rewrite decide_False by congruence.
Qed.

(** modifyNodeAfterInsert on a represented branch. *)
Lemma modify_spec st b encs cs ts p hs newNode t' o :
  slots st (hashed b) encs cs ts -> length ts = nrOfChildren -> 0 <= p <= hexTerminator ->
  ts !! Z.to_nat p = Some o -> rep st newNode t' -> wf (p =? hexTerminator) t' ->
  exists n2 hs', modifyNodeAfterInsert (branchNode b encs (tvers ts) cs) hs p newNode = inr (n2, hs') /\
    rep st n2 (TBranch (<[Z.to_nat p := Some t']> ts)).
Proof.
  intros Hs Hlen Hp Ho Hrep Hwf. unfold modifyNodeAfterInsert.
  rewrite (rep_getVersion _ _ _ _ Hrep Hwf). simpl.
  rewrite setVersion_insert by (done || by eapply tver_bounds). simpl.
  eexists _, _. split; [done|]. constructor; [by apply hashOk_new|].
  destruct (slots_lookup _ _ _ _ _ _ _ Hs Ho) as (e & c & He & _ & _).
  rewrite <- (list_insert_id encs (Z.to_nat p) e He).
  apply slots_insert; [by eapply slots_unhashed| |eapply lookup_lt_Some; eauto].
  by constructor.
Qed.

Lemma insert_spec st fuel n t e key v ver :
  rep st n t -> wf e t -> khex e key -> v <> [] -> 0 <= ver <= MaxUint8 ->
  (length key < fuel)%nat ->
  exists n' r, insert fuel n (mkTrieData key v ver) st = (n', inr r) /\
    ((fst <$> tget t key = Some v /\ r = (None, []) /\ rep st n' t /\ baseOf n' = baseOf n) \/
     (fst <$> tget t key <> Some v /\ exists n'' t' hs, r = (Some n'', hs) /\ rep st n'' t' /\
        isInsert e t key v ver t')).
Proof.
  revert n t e key.
  induction fuel as [|fuel IH]; intros n t e key Hrep Hwf Hkey Hv Hver Hf; [lia|].
  cbn [insert]. rewrite (rep_notEmpty _ _ _ _ Hrep Hwf). pose proof Hrep as Hrep'.
  destruct t as [k v0 ver0|k c|ts].
  - inversion Hrep; subst.
    destruct (leafInsert_spec st e b k v0 ver0 key v ver Hrep' Hwf Hkey Hv Hver)
      as (n' & r & -> & Hr).
    exists n', r. split; [done|]. simpl.
    destruct Hr as [(-> & -> & -> & ->)|(Hne & n'' & t' & hs & -> & Hrep'' & Hins)].
    + left. by rewrite beq_refl.
    + right. split; [|eauto 10]. destruct (beq key k) eqn:E; [apply beq_true in E|done].
      simpl. intros [= ->]. auto.
  - destruct (resolve_any st e n (TExt k c) 0 Hrep' Hwf ltac:(unfold hexTerminator; lia))
      as (n1 & Hres & Hrep1 & Hbase & c0 & Hch & Hrepc & Hset).
    pose proof Hwf as (-> & Hne & Hk & Hbr & Hwfc).
    inversion Hrep; subst. rewrite Hres. cbn [tdKey tdValue tdVersion].
    destruct (Nat.eqb_spec (prefixLen key k) (length k)) as [E|E].
    + destruct (prefixLen_full _ _ E) as [r ->]. rewrite khex_app in Hkey by done.
      rewrite E, drop_app_length, Hch.
      destruct (IH c0 c false r Hrepc Hwfc Hkey Hv Hver) as (c' & rr & Hi & Hr).
      { rewrite length_app in Hf. destruct k; [done|]. simpl in Hf. lia. }
      rewrite Hi, tget_ext_app.
      destruct Hr as [(Hg & -> & Hrc & Hbc)|(Hg & n'' & t' & hs & -> & Hrep'' & Hw' & Hb' & Hget)].
      * eexists _, _. split; [done|]. left. auto 6 using baseOf_setChildAt.
      * destruct (rep_newExtension st false k n'' t' Hrep'' Hw') as (b' & Hnew & Hrn).
        simpl. rewrite Hnew. simpl. eexists _, _. split; [done|]. right. split; [done|].
        eexists _, _, _. split; [done|]. split; [done|].
        split; [by repeat split; auto|]. split; [done|].
        intros k' Hk'. destruct (tget (TExt k t') k') as [x|] eqn:Ex.
        -- apply tget_ext_inv in Ex as (r' & -> & Hx). rewrite khex_app in Hk' by done.
           rewrite tget_ext_app, <- Hx, Hget by done.
           destruct (decide (r' = r)) as [->|]; [by rewrite decide_True|].
           rewrite decide_False; [done|]. intros ?%app_inv_head. done.
        -- destruct (decide (k' = k ++ r)) as [->|Hkr].
           { rewrite tget_ext_app, Hget, decide_True in Ex by done. done. }
           destruct (tget (TExt k c) k') as [y|] eqn:Ey; [|done].
           apply tget_ext_inv in Ey as (r' & -> & Hy). rewrite khex_app in Hk' by done.
           rewrite tget_ext_app, Hget, decide_False in Ex by (done || congruence). congruence.
    + rewrite Hch.
      assert (Hno : forall r, key <> k ++ r).
      { intros r ->. apply E. rewrite <- (app_nil_r k) at 2. rewrite prefixLen_app.
        by destruct r; simpl; lia. }
      destruct (extInsert_spec st n1 k c0 c key v ver Hrepc Hwf Hkey Hno Hv Hver)
        as (n'' & t' & hs & -> & Hr & Hins).
      eexists _, _. split; [done|]. right. split; [|eauto 10].
      destruct (tget (TExt k c) key) as [x|] eqn:Ex; [|done].
      apply tget_ext_inv in Ex as (r & -> & _). by destruct (Hno r).
  - destruct key as [|p key]; [simpl in Hkey; subst; by destruct Hwf|].
    pose proof Hwf as Hwf0. rewrite wf_branch in Hwf0. destruct Hwf0 as (-> & Hlen & Hn & Hcs).
    destruct Hkey as (_ & Hp & Hkey).
    destruct (resolve_any st false n (TBranch ts) p Hrep' Hwf Hp)
      as (n1 & Hres & Hrep1 & Hbase & Hch).
    inversion Hrep; subst. cbn [tdKey tdValue tdVersion].
    rewrite position_in_range, Hres, tget_branch by done. simpl in Hch.
    assert (Hlt : (Z.to_nat p < length ts)%nat)
      by (rewrite Hlen; unfold nrOfChildren, hexTerminator in *; lia).
    destruct (lookup_lt_is_Some_2 _ _ Hlt) as [o Ho]. rewrite Ho in *.
    destruct o as [c|]; simpl in Hch.
    + destruct Hch as (c0 & -> & Hrepc & Hset).
      assert (Hwfc : wf (p =? hexTerminator) c) by (eapply wf_child; eauto; lia).
      destruct (IH c0 c _ key Hrepc Hwfc Hkey Hv Hver) as (c' & rr & Hi & Hr);
        [simpl in Hf; lia|]. rewrite Hi.
      destruct Hr as [(Hg & -> & Hrc & Hbc)|(Hg & n'' & t' & hs & -> & Hrep'' & Hw' & Hb' & Hget)].
      * eexists _, _. split; [done|]. left. auto 6 using baseOf_setChildAt.
      * inversion Hrep1 as [| |b1 encs1 cs1 ? Hb1 Hs1]; subst.
        destruct (modify_spec st b1 encs1 cs1 ts p hs n'' t' _ Hs1 Hlen Hp Ho Hrep'' Hw')
          as (n2 & hs' & -> & Hrep2).
        eexists _, _. split; [done|]. right. split; [done|].
        eexists _, _, _. split; [done|]. split; [done|]. by eapply isInsert_branch.
    + rewrite Hch. inversion Hrep1 as [| |b1 encs1 cs1 ? Hb1 Hs1]; subst.
      assert (Hw' : wf (p =? hexTerminator) (TLeaf key v ver)) by by apply wf_leaf.
      destruct (modify_spec st b1 encs1 cs1 ts p [] _ _ _ Hs1 Hlen Hp Ho
        (rep_newLeaf st key v ver Hver) Hw') as (n2 & hs' & Hm & Hrep2).
      rewrite Hm. eexists _, _. split; [done|]. right. split; [done|].
      eexists _, _, _. split; [done|]. split; [done|]. eapply isInsert_branch; eauto.
      intros k' _. simpl. destruct (beq k' key) eqn:E; [apply beq_true in E|apply beq_false in E].
      * by rewrite decide_True.
      * by rewrite decide_False.
Qed.
End Refine.
