(* ===== verification/TrieDelete.v ===== *)
(** * Deleting from a represented trie: branches left with one child are reduced,
    extensions are merged, and the result is canonical again. *)

From stdpp Require Import base list gmap.
From Stdlib Require Import ZArith Lia.
From S2P Require Import Prelude TrieNode TrieOps TrieSpec TrieRep TrieRefine.

#[local] Arguments replicate : simpl never.

(** ** The logical side *)

(** The expected trie after a deletion. *)
Definition isDelete (e : bool) (t : trie) (key : bytes) (t' : trie) : Prop :=
  wf e t' /\ forall k', khex e k' -> tget t' k' = if decide (k' = key) then None else tget t k'.

(** reduceNode: a child takes the place of its parent branch. *)
Definition reduceT (p : Z) (t : trie) : trie :=
  match t with
  | TLeaf k v ver => TLeaf (p :: k) v ver
  | TExt k c => TExt (p :: k) c
  | TBranch _ => TExt [p] t
  end.

Lemma nibble_of_wf p t : wf (p =? hexTerminator) t -> (forall k v ver, t <> TLeaf k v ver) ->
  0 <= p <= hexTerminator -> 0 <= p < hexTerminator.
Proof.
  intros Hwf Hne Hp. destruct (Z.eqb_spec p hexTerminator) as [->|]; [|lia].
  destruct t as [k v ver|k c|cs]; [by destruct (Hne k v ver)| |]; by destruct Hwf.
Qed.

Lemma wf_reduceT p t :
  0 <= p <= hexTerminator -> wf (p =? hexTerminator) t -> wf false (reduceT p t).
Proof.
  intros Hp Hwf. destruct t as [k v ver|k c|cs].
  - destruct Hwf as (Hk & Hv & Hver). by apply wf_leaf.
  - assert (0 <= p < hexTerminator) by (eapply nibble_of_wf; eauto).
    destruct Hwf as (_ & Hne & Hk & Hb & Hc).
    split; [done|]. split; [done|]. split; [by constructor|]. by split.
  - assert (0 <= p < hexTerminator) by (eapply nibble_of_wf; eauto).
    replace (p =? hexTerminator) with false in Hwf by (symmetry; apply Z.eqb_neq; lia).
    split; [done|]. split; [done|]. split; [by apply Forall_singleton|]. by split.
Qed.

Lemma tget_reduceT p t q key :
  tget (reduceT p t) (q :: key) = if decide (q = p) then tget t key else None.
Proof.
  destruct t as [k v ver|k c|cs]; simpl.
  - case_decide as H; [subst|].
    + destruct (beq key k) eqn:E; [apply beq_true in E; subst; by rewrite beq_refl|].
      apply beq_false in E. destruct (beq (p :: key) (p :: k)) eqn:E'; [|done].
      apply beq_true in E'. congruence.
    + destruct (beq _ _) eqn:E; [apply beq_true in E; congruence|done].
  - case_decide as H; [subst|].
    + destruct (beq k _) eqn:E; [apply beq_true in E; rewrite <- E; by rewrite beq_refl|].
      apply beq_false in E. destruct (beq (p :: k) _) eqn:E'; [|done].
      apply beq_true in E'. congruence.
    + destruct (beq _ _) eqn:E; [apply beq_true in E; congruence|done].
  - case_decide as H; [subst; by rewrite beq_refl|].
    destruct (beq _ _) eqn:E; [apply beq_true in E; congruence|done].
Qed.

(** Merging an extension with the trie its child became. *)
Definition mergeT (k : bytes) (t : trie) : trie :=
  match t with
  | TLeaf k' v ver => TLeaf (k ++ k') v ver
  | TExt k' c => TExt (k ++ k') c
  | TBranch _ => TExt k t
  end.

Lemma wf_mergeT k t : k <> [] -> nibbles k -> wf false t -> wf false (mergeT k t).
Proof.
  intros Hne Hk Hwf. destruct t as [k' v ver|k' c|cs].
  - destruct Hwf as (Hk' & Hv & Hver). apply wf_leaf; auto. by apply khex_app.
  - destruct Hwf as (_ & Hne' & Hk' & Hb & Hc).
    split; [done|]. split; [by destruct k|]. split; [by apply Forall_app|]. by split.
  - split; [done|]. split; [done|]. split; [done|]. by split.
Qed.

Lemma tget_mergeT k t key : tget (mergeT k t) (k ++ key) = tget t key.
Proof.
  destruct t as [k' v ver|k' c|cs].
  - simpl. destruct (beq key k') eqn:E; [apply beq_true in E; subst; by rewrite beq_refl|].
    apply beq_false in E. destruct (beq (k ++ key) _) eqn:E'; [|done].
    apply beq_true, app_inv_head in E'. congruence.
  - simpl. rewrite length_app, take_app, drop_app.
    rewrite take_ge by lia. rewrite drop_ge by lia.
    replace (length k + length k' - length k)%nat with (length k') by lia.
    destruct (beq k' _) eqn:E.
    + apply beq_true in E. rewrite <- E. by rewrite beq_refl.
    + destruct (beq (k ++ k') _) eqn:E'; [|done].
      apply beq_true, app_inv_head in E'. apply beq_false in E. congruence.
  - apply tget_ext_app.
Qed.

Lemma tget_mergeT_inv k t key x :
  tget (mergeT k t) key = Some x -> exists key', key = k ++ key'.
Proof.
  destruct t as [k' v ver|k' c|cs]; simpl.
  - destruct (beq _ _) eqn:E; [|done]. apply beq_true in E. eauto.
  - intros H. apply (tget_ext_inv (k ++ k') c) in H as (r & -> & _).
    exists (k' ++ r). by rewrite <- app_assoc.
  - intros H. apply (tget_ext_inv k (TBranch cs)) in H as (r & -> & _). eauto.
Qed.

Lemma isDelete_ext k c key t' :
  wf false (TExt k c) -> khex false key -> isDelete false c key t' ->
  isDelete false (TExt k c) (k ++ key) (mergeT k t').
Proof.
  intros (_ & Hne & Hk & _ & Hc) Hkey [Hw Hget]. split; [by apply wf_mergeT|].
  intros k' Hk'. destruct (tget (mergeT k t') k') as [x|] eqn:Ex.
  - destruct (tget_mergeT_inv _ _ _ _ Ex) as [r ->]. rewrite khex_app in Hk' by done.
    rewrite tget_mergeT in Ex. rewrite Hget in Ex by done. case_decide as Hr; [done|].
    rewrite decide_False by (intros ?%app_inv_head; done). by rewrite tget_ext_app.
  - case_decide as Hr; [done|]. destruct (tget (TExt k c) k') as [y|] eqn:Ey; [|done].
    apply tget_ext_inv in Ey as (r & -> & Hy). rewrite khex_app in Hk' by done.
    rewrite tget_mergeT, Hget, decide_False in Ex by (done || congruence). congruence.
Qed.

(** Deleting in a child of a branch that keeps at least two children. *)
Lemma isDelete_branch ts p c key o :
  wf false (TBranch ts) -> 0 <= p <= hexTerminator -> ts !! Z.to_nat p = Some (Some c) ->
  (forall k', khex (p =? hexTerminator) k' ->
     match o with Some t' => tget t' k' | None => None end =
     if decide (k' = key) then None else tget c k') ->
  forall q k', 0 <= q <= hexTerminator -> khex (q =? hexTerminator) k' ->
    tget (TBranch (<[Z.to_nat p := o]> ts)) (q :: k') =
    if decide (q :: k' = p :: key) then None else tget (TBranch ts) (q :: k').
Proof.
  intros Hwf Hp Hc Hget q k' Hq Hk'. rewrite !tget_branch.
  destruct (decide (q = p)) as [->|Hqp].
  - rewrite list_lookup_insert_eq by (eapply lookup_lt_Some; eauto).
    replace (match o with Some c0 => tget c0 k' | None => None end)
      with (if decide (k' = key) then None else tget c k') by (by rewrite <- Hget).
    rewrite Hc. destruct (decide (k' = key)) as [->|]; [by rewrite decide_True|].
    by rewrite decide_False by congruence.
  - rewrite list_lookup_insert_ne by lia. by rewrite decide_False by congruence.
Qed.

Lemma delete_branch_wf ts p c o :
  wf false (TBranch ts) -> 0 <= p <= hexTerminator -> ts !! Z.to_nat p = Some (Some c) ->
  (forall t, o = Some t -> wf (p =? hexTerminator) t) ->
  (1 <= numSome (<[Z.to_nat p := o]> ts))%nat /\
  forall i t, <[Z.to_nat p := o]> ts !! i = Some (Some t) -> wf (Z.of_nat i =? hexTerminator) t.
Proof.
  rewrite wf_branch. intros (_ & Hlen & Hn & Hcs) Hp Hc Ho. split.
  - pose proof (numSome_insert _ _ _ o Hc) as H. simpl in H. lia.
  - intros i t Hi. destruct (decide (i = Z.to_nat p)) as [->|Hne].
    + rewrite list_lookup_insert_eq in Hi by (eapply lookup_lt_Some; eauto). simplify_eq.
      rewrite Z2Nat.id by lia. auto.
    + rewrite list_lookup_insert_ne in Hi by done. eauto.
Qed.

Section Delete.
Context `{C : Codec} {St : Type} `{TS : TrieStorage St} `{CL : !CodecLaws C}.
Implicit Types (st : St).

(** A node whose extension, if it is one, has its child in memory. *)
Definition inMem (n : node) : Prop :=
  match n with extensionNode _ _ _ _ None => False | _ => True end.

Lemma rep_isExt_inMem st n k c :
  rep st n (TExt k c) -> inMem n ->
  exists b enc n', n = extensionNode b k enc (tver c) (Some n') /\ rep st n' c.
Proof.
  intros Hrep Hin. inversion Hrep as [|b k' enc c' t Hb Hs|]; subst.
  inversion Hs; subst; [|done]. eauto.
Qed.

(** ** getChildPosition *)

Lemma childPositions_spec st hs encs cs ts i nr pos :
  slots st hs encs cs ts ->
  exists pos', childPositions cs encs i nr pos = inr (nr + Z.of_nat (numSome ts), pos') /\
    ((numSome ts = 0%nat /\ pos' = pos) \/
     (exists j c, ts !! j = Some (Some c) /\ pos' = i + Z.of_nat j)).
Proof.
  intros H. revert i nr pos. induction H as [|hs e es c cs t ts Hs H IH]; intros i nr pos.
  - exists pos. simpl. rewrite Z.add_0_r. split; [done|]. by left.
  - simpl. rewrite (slot_present _ _ _ _ _ es Hs). simpl. rewrite numSome_cons.
    destruct t as [t|]; simpl.
    + destruct (IH (i + 1) (nr + 1) i) as (pos' & -> & Hpos). exists pos'. split; [f_equal; f_equal; lia|].
      right. destruct Hpos as [[_ ->]|(j & c' & Hj & ->)].
      * exists 0%nat, t. split; [done|lia].
      * exists (S j), c'. split; [done|lia].
    + destruct (IH (i + 1) nr pos) as (pos' & -> & Hpos). exists pos'. split; [done|].
      destruct Hpos as [?|(j & c' & Hj & ->)]; [by left|]. right. exists (S j), c'. split; [done|lia].
Qed.

(** ** reduceNode and the merge of an extension *)

Lemma reduceNode_spec st e n t p :
  rep st n t -> wf e t -> inMem n -> 0 <= p <= hexTerminator ->
  exists n' b, reduceNode n p = inr (n', b) /\ rep st n' (reduceT p t) /\ inMem n'.
Proof.
  intros Hrep Hwf Hin Hp.
  assert (Hu : u8 p = p) by (apply u8_small; unfold MaxUint8, hexTerminator in *; lia).
  destruct t as [k v ver|k c|cs].
  - pose proof (rep_getVersion _ _ _ _ Hrep Hwf) as Hver. inversion Hrep; subst.
    unfold reduceNode. rewrite Hver. simpl. rewrite Hu.
    rewrite u32_small by apply Hwf. eexists _, _. split; [done|]. split; [|done].
    constructor. apply hashOk_new.
  - destruct (rep_isExt_inMem _ _ _ _ Hrep Hin) as (b & enc & n' & -> & Hn').
    unfold reduceNode. rewrite Hu. destruct Hwf as (_ & _ & _ & _ & Hc).
    destruct (rep_newExtension st false (p :: k) n' c Hn' Hc) as (b' & -> & Hr). simpl. eauto.
  - destruct (rep_newExtension st e [p] n (TBranch cs) Hrep Hwf) as (b' & Hnew & Hr).
    inversion Hrep; subst. unfold reduceNode. rewrite Hu, Hnew. simpl. eauto.
Qed.

Lemma extAfterDelete_spec st k n t hs :
  rep st n t -> wf false t -> inMem n ->
  exists n' hs', extAfterDelete k (Some n) hs = inr (true, Some n', hs') /\
    rep st n' (mergeT k t) /\ inMem n'.
Proof.
  intros Hrep Hwf Hin. destruct t as [k' v ver|k' c|cs].
  - inversion Hrep; subst. simpl. destruct Hwf as (_ & _ & Hver).
    rewrite u8_small, u32_small by done. eexists _, _. split; [done|]. split; [|done].
    constructor. apply hashOk_new.
  - destruct (rep_isExt_inMem _ _ _ _ Hrep Hin) as (b & enc & n' & -> & Hn').
    destruct Hwf as (_ & _ & _ & _ & Hc). simpl.
    destruct (rep_newExtension st false (k ++ k') n' c Hn' Hc) as (b' & -> & Hr). simpl. eauto.
  - destruct (rep_newExtension st false k n (TBranch cs) Hrep Hwf) as (b' & Hnew & Hr).
    inversion Hrep; subst. simpl. rewrite Hnew. simpl. eauto.
Qed.

(** ** The end of branchNode.delete *)

Lemma resolve_inMem st e n t p n1 :
  rep st n t -> wf e t -> 0 <= p <= hexTerminator ->
  resolveIfCollapsed n p st = inr n1 -> inMem n1.
Proof.
  intros Hrep Hwf Hp Hres.
  destruct (resolve_any st e n t p Hrep Hwf Hp) as (n2 & Hres2 & Hrep2 & _ & Hch).
  rewrite Hres in Hres2. simplify_eq.
  destruct n2 as [| b k enc ver [c|]|]; simpl; try done.
  inversion Hrep2; subst. simpl in Hch. by destruct Hch as (c & ? & _).
Qed.

Lemma branchAfterDelete_spec st b encs cs ts hs :
  slots st false encs cs ts -> length ts = nrOfChildren -> (1 <= numSome ts)%nat ->
  (forall i c, ts !! i = Some (Some c) -> wf (Z.of_nat i =? hexTerminator) c) ->
  bhash b = None ->
  exists n' nn hs', branchAfterDelete (branchNode b encs (tvers ts) cs) hs st =
      (n', inr (true, Some nn, hs')) /\ inMem nn /\
    exists t', rep st nn t' /\ wf false t' /\
      forall q k', 0 <= q <= hexTerminator -> khex (q =? hexTerminator) k' ->
        tget t' (q :: k') = tget (TBranch ts) (q :: k').
Proof.
  intros Hs Hlen Hn Hwf Hb. unfold branchAfterDelete. cbn [getChildPosition].
  destruct (childPositions_spec st false encs cs ts 0 0 0 Hs) as (pos & -> & Hpos).
  destruct (Z.eqb_spec (0 + Z.of_nat (numSome ts)) 1) as [E|E].
  - destruct Hpos as [[? _]|(j & c & Hj & ->)]; [lia|].
    pose proof (lookup_lt_Some _ _ _ Hj) as Hlt. rewrite Hlen in Hlt.
    assert (Hjr : 0 <= 0 + Z.of_nat j <= hexTerminator)
      by (unfold nrOfChildren, hexTerminator in *; lia).
    assert (Hjn : Z.to_nat (0 + Z.of_nat j) = j) by lia.
    assert (Hwfc : wf (0 + Z.of_nat j =? hexTerminator) c) by (rewrite Z.add_0_l; auto).
    pose proof (resolve_branch st false b encs (tvers ts) cs ts (0 + Z.of_nat j) Hs
      ltac:(eauto) Hn Hlen Hjr) as Hres.
    rewrite Hjn, Hj in Hres. simpl in Hres. destruct Hres as (c0 & -> & Hrepc & _).
    destruct (slots_length _ _ _ _ _ Hs) as [_ Hlc].
    cbn [childAt setChildAt]. rewrite Hjn, list_lookup_insert_eq by lia. cbn [mjoin option_join].
    destruct (resolve_any st _ c0 c (0 + Z.of_nat j) Hrepc Hwfc Hjr)
      as (c1 & Hres1 & Hrepc1 & _ & _).
    rewrite Z.add_0_l in *. rewrite Hres1.
    destruct (reduceNode_spec st _ c1 c (Z.of_nat j) Hrepc1 Hwfc
      (resolve_inMem _ _ _ _ _ _ Hrepc Hwfc Hjr Hres1) Hjr) as (n' & bb & -> & Hrn & Hin).
    eexists _, _, _. split; [done|]. split; [done|].
    exists (reduceT (Z.of_nat j) c). split; [done|]. split; [by apply wf_reduceT|].
    intros q k' Hq Hk'. rewrite tget_reduceT, tget_branch.
    destruct (decide (q = Z.of_nat j)) as [->|Hqj]; [by rewrite Nat2Z.id, Hj|].
    destruct (ts !! Z.to_nat q) as [o|] eqn:Eq; [|done].
    assert (o = None) as ->; [|done]. eapply (numSome_one ts j c); [lia|done| |done]. lia.
  - eexists _, _, _. split; [done|]. split; [done|].
    exists (TBranch ts). split; [|split; [|done]].
    + constructor.
      * split; [by left|done].
      * unfold hashed. simpl. by rewrite Hb.
    + rewrite wf_branch. repeat split; auto. lia.
Qed.

Lemma setNewChild_spec st b encs cs ts p c' o t :
  slots st (hashed b) encs cs ts -> length ts = nrOfChildren -> 0 <= p <= hexTerminator ->
  match o, t with
  | Some n, Some t => rep st n t /\ wf (p =? hexTerminator) t
  | None, None => True
  | _, _ => False
  end ->
  exists encs', setNewChild (branchNode b encs (tvers ts) (<[Z.to_nat p := c']> cs)) p o =
    (branchNode (mkBase None (bdirty b)) encs' (tvers (<[Z.to_nat p := t]> ts))
       (<[Z.to_nat p := o]> cs), inr tt) /\
    slots st false encs' (<[Z.to_nat p := o]> cs) (<[Z.to_nat p := t]> ts).
Proof.
  intros Hs Hlen Hp Hot.
  assert (Hlt : (Z.to_nat p < length ts)%nat)
    by (rewrite Hlen; unfold nrOfChildren, hexTerminator in *; lia).
  apply slots_unhashed in Hs. unfold setNewChild. rewrite list_insert_insert_eq.
  destruct o as [n|], t as [t|]; try done.
  - destruct Hot as [Hrep Hwf]. rewrite (rep_getVersion _ _ _ _ Hrep Hwf). simpl.
    rewrite setVersion_insert by (done || by eapply tver_bounds).
    eexists. split; [done|].
    destruct (lookup_lt_is_Some_2 _ _ Hlt) as [o Ho].
    destruct (slots_lookup _ _ _ _ _ _ _ Hs Ho) as (e & c & He & _ & _).
    rewrite <- (list_insert_id encs (Z.to_nat p) e He).
    apply slots_insert; auto. by constructor.
  - rewrite setVersion_delete by done. eexists. split; [done|].
    apply slots_insert; auto. constructor.
Qed.

(** ** delete *)

Lemma delete_spec st fuel n t e key :
  rep st n t -> wf e t -> khex e key -> (length key < fuel)%nat ->
  exists n' r, delete fuel n key st = (n', inr r) /\
    ((tget t key = None /\ r = (false, Some n', []) /\ rep st n' t /\ baseOf n' = baseOf n) \/
     (exists o hs, r = (true, o, hs) /\ is_Some (tget t key) /\
        match o with
        | None => exists v ver, t = TLeaf key v ver
        | Some nn => inMem nn /\ exists t', rep st nn t' /\ isDelete e t key t'
        end)).
Proof.
  revert n t e key.
  induction fuel as [|fuel IH]; intros n t e key Hrep Hwf Hkey Hf; [lia|].
  cbn [delete]. pose proof Hrep as Hrep'.
  destruct t as [k v0 ver0|k c|ts].
  - inversion Hrep; subst. simpl.
    destruct (beq key k) eqn:E; [apply beq_true in E; subst|].
    + eexists _, _. split; [done|]. right. eexists _, _. split; [done|].
      split; [by eexists|]. eauto.
    + eexists _, _. split; [done|]. left. auto 6 using baseOf_setChildAt.
  - destruct (resolve_any st e n (TExt k c) 0 Hrep' Hwf ltac:(unfold hexTerminator; lia))
      as (n1 & Hres & Hrep1 & Hbase & c0 & Hch & Hrepc & Hset).
    pose proof (rep_notEmpty _ _ _ _ Hrep Hwf) as Hne0.
    pose proof Hwf as (-> & Hne & Hk & Hbr & Hwfc).
    inversion Hrep; subst. rewrite Hne0.
    destruct (blen key =? 0) eqn:E0.
    { apply Z.eqb_eq, blen_0 in E0. by subst. }
    destruct (Nat.ltb_spec (prefixLen key k) (length k)) as [E|E].
    + eexists _, _. split; [done|]. left. split; [|auto].
      destruct (tget (TExt k c) key) as [x|] eqn:Ex; [|done].
      apply tget_ext_inv in Ex as (r & -> & _).
      rewrite <- (app_nil_r k) in E at 2. rewrite prefixLen_app in E. lia.
    + destruct (prefixLen_full k key) as [r ->]; [pose proof (prefixLen_le key k); lia|].
      rewrite khex_app in Hkey by done. rewrite Hres, Hch, drop_app_length.
      destruct (IH c0 c false r Hrepc Hwfc Hkey) as (c' & rr & Hd & Hr).
      { rewrite length_app in Hf. destruct k; [done|]. simpl in Hf. lia. }
      rewrite Hd, tget_ext_app.
      destruct Hr as [(Hg & -> & Hrc & Hbc)|(o & hs & -> & Hsome & Ho)].
      * eexists _, _. split; [done|]. left. auto 6 using baseOf_setChildAt.
      * destruct o as [nn|].
        -- destruct Ho as (Hin & t' & Hrt & Hdel).
           destruct (extAfterDelete_spec st k nn t' (hs ++ obsolete (extensionNode b k enc (tver c) c1))
             Hrt (proj1 Hdel) Hin) as (n' & hs' & -> & Hrn & Hin').
           eexists _, _. split; [done|]. right. eexists _, _. split; [done|]. split; [done|].
           split; [done|]. exists (mergeT k t'). split; [done|]. by apply isDelete_ext.
        -- destruct Ho as (v & ver & ->). done.
  - destruct key as [|p key]; [simpl in Hkey; subst; by destruct Hwf|].
    pose proof Hwf as Hwf0. rewrite wf_branch in Hwf0. destruct Hwf0 as (-> & Hlen & Hn & Hcs).
    destruct Hkey as (_ & Hp & Hkey).
    destruct (resolve_any st false n (TBranch ts) p Hrep' Hwf Hp)
      as (n1 & Hres & Hrep1 & Hbase & Hch).
    pose proof (rep_notEmpty _ _ _ _ Hrep Hwf) as Hne0.
    inversion Hrep; subst. rewrite Hne0, position_in_range, Hres, tget_branch by done.
    simpl in Hch.
    assert (Hlt : (Z.to_nat p < length ts)%nat)
      by (rewrite Hlen; unfold nrOfChildren, hexTerminator in *; lia).
    destruct (lookup_lt_is_Some_2 _ _ Hlt) as [o Ho]. rewrite Ho in *.
    destruct o as [c|]; simpl in Hch;
      [|rewrite Hch; eexists _, _; split; [done|]; left; auto].
    destruct Hch as (c0 & Hc0 & Hrepc & Hset). rewrite Hc0.
    assert (Hwfc : wf (p =? hexTerminator) c) by (eapply wf_child; eauto; lia).
    destruct (IH c0 c _ key Hrepc Hwfc Hkey) as (c' & rr & Hd & Hr);
      [simpl in Hf; lia|]. rewrite Hd.
    destruct Hr as [(Hg & -> & Hrc & Hbc)|(o & hs & -> & Hsome & Hoo)].
    { eexists _, _. split; [done|]. left. auto 6 using baseOf_setChildAt. }
    inversion Hrep1 as [| |b1 encs1 cs1 ? Hb1 Hs1]; subst. simpl setChildAt.
    assert (Hot : exists ot,
      match o, ot with
      | Some nn, Some t' => rep st nn t' /\ wf (p =? hexTerminator) t'
      | None, None => True
      | _, _ => False
      end /\
      forall k', khex (p =? hexTerminator) k' ->
        match ot with Some t' => tget t' k' | None => None end =
        if decide (k' = key) then None else tget c k').
    { destruct o as [nn|].
      - destruct Hoo as (_ & t' & Hr & Hw & Hg). by exists (Some t').
      - destruct Hoo as (v & ver & ->). exists None. split; [done|]. intros k' _. simpl.
        case_decide; [done|]. by rewrite (proj2 (beq_false k' key)). }
    destruct Hot as (ot & Hot & Hget).
    destruct (setNewChild_spec st b1 encs1 cs1 ts p (Some c') o ot Hs1 Hlen Hp Hot)
      as (encs' & -> & Hsl).
    destruct (delete_branch_wf ts p c ot Hwf Hp Ho) as (Hn' & Hcs').
    { intros t' ->. by destruct o as [nn|]; [destruct Hot|]. }
    match goal with |- context [branchAfterDelete _ ?H _] =>
      destruct (branchAfterDelete_spec st (mkBase None (bdirty b1)) encs' _ _ H Hsl)
        as (n' & nn & hs' & -> & Hin & t' & Hr & Hw & Hg)
    end; auto.
    { by rewrite length_insert. }
    eexists _, _. split; [done|]. right. eexists _, _. split; [done|]. split; [done|].
    split; [done|]. exists t'. split; [done|]. split; [done|].
    intros [|q k'] Hk'; [done|]. destruct Hk' as (_ & Hq & Hk').
    rewrite Hg by done. by eapply isDelete_branch.
Qed.
End Delete.
