(* ===== verification/TrieHash.v ===== *)
(** * Hashing and committing a represented trie.

    setHash gives every node the Merkle hash of the logical trie it stands for,
    and commitDirty saves the encodings of all its dirty nodes, so that the
    storage holds the whole trie. *)

From stdpp Require Import base list gmap.
From Stdlib Require Import ZArith Lia.
From S2P Require Import Prelude TrieNode TrieOps TrieSpec TrieRep TrieRefine.

#[local] Arguments replicate : simpl never.

Definition someWf (ts : list (option trie)) : Prop :=
  forall i c, ts !! i = Some (Some c) -> exists e, wf e c.

Lemma someWf_cons o ts : someWf (o :: ts) -> optP (fun c => exists e, wf e c) o /\ someWf ts.
Proof.
  intros H. split.
  - destruct o as [c|]; [|done]. by apply (H 0%nat).
  - intros i c Hi. by apply (H (S i)).
Qed.

Lemma wf_someWf e ts : wf e (TBranch ts) -> someWf ts.
Proof. rewrite wf_branch. intros (_ & _ & _ & H) i c Hi. eauto. Qed.

Section Hash.
Context `{C : Codec} {St : Type} `{TS : TrieStorage St} `{CL : !CodecLaws C}.
Implicit Types (st : St).

(** ** Encoded nodes *)

Definition childHashed (o : option node) : Prop :=
  match o with Some n => hashed (baseOf n) = true | None => True end.

(** The node's own copy of its children's hashes is right. *)
Definition encoded (n : node) (t : trie) : Prop :=
  match n, t with
  | leafNode _ k v ver, TLeaf k' v' ver' => k = k' /\ v = Some v' /\ ver = ver'
  | extensionNode _ k enc ver _, TExt k' c => k = k' /\ enc = hashL c /\ ver = tver c
  | branchNode _ encs vers _, TBranch ts => encs = map childHash ts /\ vers = tvers ts
  | _, _ => False
  end.

Lemma encoded_getEncodedNode n t :
  isEmptyOrNil n = inr tt -> encoded n t -> getEncodedNode n = inr (encL t).
Proof.
  intros He Henc. unfold getEncodedNode. rewrite He. simpl.
  destruct (marshal_total (toCnode n)) as [m Hm]. rewrite Hm.
  destruct n, t; simpl in Henc; try done.
  - destruct Henc as (-> & -> & ->). simpl in *. unfold encC. by rewrite Hm.
  - destruct Henc as (-> & -> & ->). simpl in *. unfold encC. by rewrite Hm.
  - destruct Henc as (-> & ->). simpl in *. unfold encC. by rewrite Hm.
Qed.

Lemma encoded_hash n t :
  isEmptyOrNil n = inr tt -> encoded n t -> encodeNodeAndGetHash n = inr (hashL t).
Proof.
  intros He Henc. unfold encodeNodeAndGetHash.
  erewrite encoded_getEncodedNode by done. simpl. by rewrite hashL_encL.
Qed.

Lemma slots_true_encs st hs encs cs ts :
  slots st hs encs cs ts -> hs = true -> encs = map childHash ts.
Proof.
  induction 1 as [|hs e es c cs t ts Hs H IH]; intros Hhs; simpl; [done|].
  rewrite IH by done. f_equal. destruct Hs as [|? ? ? ? ? Hh|]; simpl; auto.
  by destruct (Hh Hhs).
Qed.

Lemma rep_encoded st n t : rep st n t -> hashed (baseOf n) = true -> encoded n t.
Proof.
  intros H Hh. destruct H as [b k v ver Hb|b k enc c t Hb Hs|b encs cs ts Hb Hs]; simpl in *.
  - done.
  - rewrite Hh in Hs. split; [done|]. split; [|done].
    inversion Hs as [|? ? ? ? ? Hh'|]; subst; auto. by destruct (Hh' eq_refl).
  - split; [|done]. by eapply slots_true_encs.
Qed.

Lemma rep_hashed_getEncodedNode st e n t :
  rep st n t -> wf e t -> hashed (baseOf n) = true -> getEncodedNode n = inr (encL t).
Proof.
  intros. apply encoded_getEncodedNode; [by eapply rep_notEmpty|by eapply rep_encoded].
Qed.

Lemma rep_hashed_hash st e n t :
  rep st n t -> wf e t -> hashed (baseOf n) = true -> encodeNodeAndGetHash n = inr (hashL t).
Proof. intros. apply encoded_hash; [by eapply rep_notEmpty|by eapply rep_encoded]. Qed.

Lemma rep_hashOk st n t : rep st n t -> hashOk st (baseOf n) t.
Proof. by destruct 1. Qed.

Lemma rep_getHash st n t :
  rep st n t -> hashed (baseOf n) = true -> getHash n = Some (hashL t).
Proof.
  intros H%rep_hashOk Hh. unfold hashed, getHash in *. destruct H as [[H|H] _].
  - by rewrite H in Hh.
  - done.
Qed.

Lemma getHash_hashed n h : getHash n = Some h -> hashed (baseOf n) = true.
Proof. unfold getHash, hashed. intros ->. done. Qed.

(** A child may be replaced by a hashed one. *)
Lemma slot_rehash st st' hs e n n' t :
  slot st hs e (Some n) (Some t) -> rep st' n' t -> getHash n' = Some (hashL t) ->
  slot st' hs e (Some n') (Some t).
Proof.
  intros Hs Hr Hg. inversion Hs as [|? ? ? ? _ Hh|]; subst. constructor; [done|].
  intros Hhs. destruct (Hh Hhs). eauto using getHash_hashed.
Qed.

Lemma slot_hashed st n t :
  rep st n t -> getHash n = Some (hashL t) -> slot st true (hashL t) (Some n) (Some t).
Proof. intros Hr Hg. constructor; [done|]. eauto using getHash_hashed. Qed.

(** Storing the hash of a node whose copy of its children's hashes is right. *)
Definition slotsTrue (st : St) (n : node) (t : trie) : Prop :=
  match n, t with
  | extensionNode _ _ enc _ c, TExt _ t => slot st true enc c (Some t)
  | branchNode _ encs _ cs, TBranch ts => slots st true encs cs ts
  | _, _ => True
  end.

Lemma slotsTrue_rep st n t :
  encoded n t -> slotsTrue st n t -> hashOk st (baseOf n) t -> bhash (baseOf n) = None ->
  rep st (setGivenHash n (hashL t)) t.
Proof.
  intros Henc Hs [_ Hd] Hn.
  assert (Hok : hashOk st (mkBase (Some (hashL t)) (bdirty (baseOf n))) t).
  { split; [by right|]. simpl. intros Hdf. by split; [|apply Hd]. }
  destruct n, t; simpl in *; try done.
  - destruct Henc as (-> & -> & ->). by constructor.
  - destruct Henc as (-> & _ & ->). by constructor.
  - destruct Henc as (_ & ->). by constructor.
Qed.

(** ** hashNode *)

Lemma encodeChildren_spec st hs encs cs ts :
  slots st hs encs cs ts -> someWf ts -> Forall childHashed cs ->
  encodeChildren encs cs = (map childHash ts, inr tt) /\
  slots st true (map childHash ts) cs ts.
Proof.
  induction 1 as [|hs e es c cs t ts Hs H IH]; intros Hwf Hch; [split; [done|constructor]|].
  apply someWf_cons in Hwf as [Hw Hwf]. inversion Hch as [|? ? Hc Hch']; subst.
  destruct (IH Hwf Hch') as [IHe IHs]. simpl. rewrite IHe.
  inversion Hs as [|? ? n t' Hr Hh|? ? Hst]; subst; simpl in *.
  - split; [done|]. constructor; [constructor|done].
  - destruct Hw as [e' Hw]. rewrite (rep_hashed_hash st e' n t' Hr Hw Hc). split; [done|].
    constructor; [by constructor|done].
  - split; [done|]. constructor; [by constructor|done].
Qed.

Lemma hashNode_branch st b encs cs ts :
  slots st (hashed b) encs cs ts -> wf false (TBranch ts) -> Forall childHashed cs ->
  hashOk st b (TBranch ts) -> bhash b = None ->
  exists n', storeHash (hashNode (branchNode b encs (tvers ts) cs)) = (n', inr tt) /\
    rep st n' (TBranch ts) /\ getHash n' = Some (hashL (TBranch ts)) /\
    bdirty (baseOf n') = bdirty b.
Proof.
  intros Hs Hwf Hch Hok Hb. destruct (encodeChildren_spec _ _ _ _ _ Hs (wf_someWf _ _ Hwf) Hch) as [He Hs'].
  pose proof Hwf as Hwf'. rewrite wf_branch in Hwf'. destruct Hwf' as (_ & _ & Hn & _).
  unfold hashNode. cbn [isEmptyOrNil].
  rewrite (branchNotEmpty_slots _ _ _ _ _ Hs) by lia. rewrite He.
  rewrite (encoded_hash _ (TBranch ts)); [|exact (branchNotEmpty_slots _ _ _ _ _ Hs' ltac:(lia))|done].
  eexists. split; [done|]. split; [|done]. by apply slotsTrue_rep.
Qed.

(** ** setHash *)

Definition hashes (f : node -> node * (trieErr + unit)) (st : St) (n : node) (t : trie) : Prop :=
  exists n', f n = (n', inr tt) /\ rep st n' t /\ getHash n' = Some (hashL t) /\
    bdirty (baseOf n') = bdirty (baseOf n).

Lemma hashEach_spec st hs encs cs ts :
  Forall (optP (fun t => forall e n, rep st n t -> wf e t -> hashes setHash st n t)) ts ->
  slots st hs encs cs ts -> someWf ts ->
  exists cs', hashEach setHash cs = (cs', inr tt) /\ hashAll setHash cs = (cs', inr tt) /\
    slots st hs encs cs' ts /\ Forall childHashed cs'.
Proof.
  intros IH Hs. revert IH. induction Hs as [|hs e es c cs t ts Hs H IHs]; intros IH Hwf.
  - exists []. split; [done|]. split; [done|]. split; constructor.
  - apply someWf_cons in Hwf as [Hw Hwf]. inversion IH as [|? ? IHt IH']; subst.
    destruct (IHs IH' Hwf) as (cs' & He & Ha & Hs' & Hch).
    inversion Hs as [|? ? n t' Hr Hh|? ? Hst]; subst; simpl in *.
    + exists (None :: cs'). rewrite He, Ha. repeat split; constructor; auto.
    + destruct Hw as [e' Hw]. destruct (IHt _ _ Hr Hw) as (n' & -> & Hr' & Hg & _).
      exists (Some n' :: cs'). rewrite He, Ha. split; [done|]. split; [done|]. split.
      * constructor; [by eapply slot_rehash|done].
      * constructor; [|done]. by eapply getHash_hashed.
    + exists (None :: cs'). rewrite He, Ha. repeat split; constructor; auto. by constructor.
Qed.

Lemma slots_allNone st hs encs cs ts :
  slots st hs encs cs ts ->
  forallb (fun c : option node => match c with None => true | Some _ => false end) cs = true ->
  encs = map childHash ts /\ slots st true encs cs ts.
Proof.
  induction 1 as [|hs e es c cs t ts Hs H IH]; simpl; intros Hf; [split; [done|constructor]|].
  apply andb_true_iff in Hf as [Hc Hf]. destruct (IH Hf) as [-> Hs'].
  inversion Hs; subst; try done; simpl; split; auto; constructor; auto; by constructor.
Qed.

Lemma hashed_cases (b : baseNode) : hashed b = true \/ bhash b = None.
Proof. unfold hashed. destruct (bhash b); auto. Qed.

Lemma setHash_hashed st e n t :
  rep st n t -> wf e t -> hashed (baseOf n) = true -> setHash n = (n, inr tt).
Proof.
  intros Hr Hw Hh. pose proof (rep_getHash _ _ _ Hr Hh) as Hg.
  destruct n; cbn [setHash]; rewrite (rep_notEmpty _ _ _ _ Hr Hw), Hg; done.
Qed.

Lemma storeHash_encoded st n t :
  isEmptyOrNil n = inr tt -> encoded n t -> slotsTrue st n t -> hashOk st (baseOf n) t ->
  bhash (baseOf n) = None ->
  exists n', storeHash (n, encodeNodeAndGetHash n) = (n', inr tt) /\ rep st n' t /\
    getHash n' = Some (hashL t) /\ bdirty (baseOf n') = bdirty (baseOf n).
Proof.
  intros He Henc Hs Hok Hb. rewrite (encoded_hash _ _ He Henc).
  eexists. split; [done|]. split; [by apply slotsTrue_rep|]. by destruct n.
Qed.

Ltac store_encoded st t :=
  match goal with |- context [storeHash (?n, _)] =>
    apply (storeHash_encoded st n t); try done
  end.

Lemma setHash_branch st e b encs cs ts :
  rep st (branchNode b encs (tvers ts) cs) (TBranch ts) -> wf e (TBranch ts) ->
  hashOk st b (TBranch ts) -> slots st (hashed b) encs cs ts -> bhash b = None ->
  (exists cs', hashEach setHash cs = (cs', inr tt) /\ hashAll setHash cs = (cs', inr tt) /\
    slots st (hashed b) encs cs' ts /\ Forall childHashed cs') ->
  hashes setHash st (branchNode b encs (tvers ts) cs) (TBranch ts) /\
  hashes setRootHash st (branchNode b encs (tvers ts) cs) (TBranch ts).
Proof.
  intros Hr Hw Hok Hs Hb (cs' & He & Ha & Hs' & Hch).
  pose proof (rep_notEmpty _ _ _ _ Hr Hw) as Hne.
  assert (Hw' : wf false (TBranch ts)) by (by destruct Hw as (-> & Hw); split).
  unfold hashes. cbn [setHash setRootHash]. rewrite Hne. unfold getHash. cbn [baseOf].
  rewrite Hb. cbn [isCollapsed].
  destruct (forallb _ cs) eqn:Hf.
  - destruct (slots_allNone _ _ _ _ _ Hs Hf) as [-> Hs1].
    destruct (storeHash_encoded st (branchNode b (map childHash ts) (tvers ts) cs) (TBranch ts))
      as (n' & H1 & H2 & H3 & H4); try done.
    split; exists n'; auto.
  - rewrite He, Ha.
    destruct (hashNode_branch _ _ _ _ _ Hs' Hw' Hch Hok Hb) as (n' & H1 & H2 & H3 & H4).
    split; exists n'; auto.
Qed.

Lemma setHash_spec st e n t : rep st n t -> wf e t -> hashes setHash st n t.
Proof.
  revert e n. induction t as [k v ver|k c IH|ts IH] using trie_ind'; intros e n Hr Hw;
    (destruct (hashed_cases (baseOf n)) as [Hh|Hh];
      [exists n; rewrite (setHash_hashed _ _ _ _ Hr Hw Hh); eauto using rep_getHash|]);
    pose proof (rep_notEmpty _ _ _ _ Hr Hw) as Hne.
  - inversion Hr; subst. simpl in Hh. unfold hashes. cbn [setHash]. rewrite Hne.
    unfold getHash at 1. cbn [baseOf]. rewrite Hh. unfold hashNode. rewrite Hne.
    by apply (storeHash_encoded st (leafNode b k (Some v) ver) (TLeaf k v ver)).
  - pose proof Hw as (_ & _ & _ & _ & Hwc). inversion Hr as [|b k' enc c' t Hb Hs|]; subst.
    simpl in Hh. unfold hashes. cbn [setHash]. rewrite Hne.
    unfold getHash at 1. cbn [baseOf]. rewrite Hh.
    inversion Hs as [|? ? n t' Hn Hs'|? ? Hst]; subst.
    + destruct (IH _ _ Hn Hwc) as (n' & -> & Hn' & Hg & _).
      pose proof (getHash_hashed _ _ Hg) as Hhn.
      unfold hashNode. cbn [isEmptyOrNil].
      rewrite (rep_hashed_hash st _ n' c Hn' Hwc Hhn).
      store_encoded st (TExt k c). by constructor.
    + store_encoded st (TExt k c). by constructor.
  - pose proof Hr as Hr'. inversion Hr as [| |b encs cs ? Hb Hs]; subst.
    apply (setHash_branch st e b encs cs ts Hr' Hw Hb Hs Hh).
    apply (hashEach_spec st (hashed b) encs cs ts); [|done|by eapply wf_someWf].
    eapply Forall_impl; [exact IH|]. intros [t|]; [|done]. intros H. eauto.
Qed.

Lemma hashEach_any st hs encs cs ts :
  slots st hs encs cs ts -> someWf ts ->
  exists cs', hashEach setHash cs = (cs', inr tt) /\ hashAll setHash cs = (cs', inr tt) /\
    slots st hs encs cs' ts /\ Forall childHashed cs'.
Proof.
  intros Hs Hw. eapply hashEach_spec; eauto. apply Forall_forall.
  intros [t|] _; [|done]. simpl. intros. by eapply setHash_spec.
Qed.

Lemma setRootHash_spec st e n t : rep st n t -> wf e t -> hashes setRootHash st n t.
Proof.
  intros Hr Hw. destruct t as [k v ver|k c|ts].
  - inversion Hr; subst. by eapply setHash_spec.
  - inversion Hr; subst. by eapply setHash_spec.
  - pose proof Hr as Hr'. inversion Hr as [| |b encs cs ? Hb Hs]; subst.
    destruct (hashed_cases b) as [Hh|Hh].
    + exists (branchNode b encs (tvers ts) cs). split; [|split; [done|]].
      * unfold setRootHash. rewrite (rep_notEmpty _ _ _ _ Hr' Hw).
        by rewrite (rep_getHash _ _ _ Hr' Hh).
      * split; [by apply (rep_getHash _ _ _ Hr')|done].
    + apply (setHash_branch st e b encs cs ts Hr' Hw Hb Hs Hh).
      apply (hashEach_any st (hashed b) encs cs ts Hs). by eapply wf_someWf.
Qed.
End Hash.

(** ** The commit *)

#[local] Arguments replicate : simpl never.

(** ** Subtries *)

Inductive sub (s : trie) : trie -> Prop :=
| sub_refl : sub s s
| sub_ext k c : sub s c -> sub s (TExt k c)
| sub_branch ts i c : ts !! i = Some (Some c) -> sub s c -> sub s (TBranch ts).

Lemma sub_trans s t u : sub s t -> sub t u -> sub s u.
Proof. intros H. induction 1; [done|by constructor|by econstructor]. Qed.

Section Commit.
Context `{C : Codec} {St : Type} `{TS : TrieStorage St}.
Context `{CL : !CodecLaws C} `{SL : !TrieStorageLaws St}.
Implicit Types (st : St).

(** ** Storages that grow *)

Definition extends st st' : Prop := forall k v, sGet st k = Some v -> sGet st' k = Some v.

(** What is added is the encoding of a node of [T], under its hash. *)
Definition grows (T : trie) st st' : Prop :=
  extends st st' /\
  forall k v, sGet st' k = Some v ->
    sGet st k = Some v \/ exists s, sub s T /\ k = hashL s /\ v = encL s.

(** The hash function has no collision among the nodes of [T] and what the
    storage holds under their hashes. *)
Definition NoCollision (T : trie) st : Prop :=
  (forall s v, sub s T -> sGet st (hashL s) = Some v -> v = encL s) /\
  (forall s1 s2, sub s1 T -> sub s2 T -> hashL s1 = hashL s2 -> encL s1 = encL s2).

Lemma grows_refl T st : grows T st st.
Proof. unfold grows, extends. auto. Qed.

Lemma grows_trans T st1 st2 st3 : grows T st1 st2 -> grows T st2 st3 -> grows T st1 st3.
Proof.
  intros [E1 G1] [E2 G2]. split; [by intros k v H; apply E2, E1|].
  intros k v H. destruct (G2 _ _ H) as [H'|?]; auto.
Qed.

Lemma grows_NoCollision T st st' : grows T st st' -> NoCollision T st -> NoCollision T st'.
Proof.
  intros [_ G] [N1 N2]. split; [|done]. intros s v Hs H.
  destruct (G _ _ H) as [H'|(s' & Hs' & E & ->)]; [by eapply N1|]. symmetry. auto.
Qed.

Lemma put_grows T st t st' :
  NoCollision T st -> sub t T -> sPut st (hashL t) (encL t) = Some st' -> grows T st st'.
Proof.
  intros [N1 _] Hs Hp. split.
  - intros k v H. destruct (decide (k = hashL t)) as [->|Hk].
    + rewrite (N1 _ _ Hs H). by eapply sGet_put_eq.
    + by rewrite (sGet_put_ne _ _ _ _ _ Hp Hk).
  - intros k v H. destruct (decide (k = hashL t)) as [->|Hk].
    + rewrite (sGet_put_eq _ _ _ _ Hp) in H. simplify_eq. eauto.
    + rewrite (sGet_put_ne _ _ _ _ _ Hp Hk) in H. auto.
Qed.

Lemma stored_mono st st' t : extends st st' -> stored st t -> stored st' t.
Proof.
  intros E. induction 1 as [k v ver H|k c H Hc IH|cs H Hc IH]; constructor; eauto.
Qed.

Lemma hashOk_mono st st' b t : extends st st' -> hashOk st b t -> hashOk st' b t.
Proof.
  intros E [H1 H2]. split; [done|]. intros Hd. destruct (H2 Hd). eauto using stored_mono.
Qed.

Lemma slots_mono st st' hs encs cs ts :
  extends st st' ->
  Forall (optP (fun t => forall n, rep st n t -> rep st' n t)) ts ->
  slots st hs encs cs ts -> slots st' hs encs cs ts.
Proof.
  intros E IH H. revert IH. induction H as [|hs e es c cs t ts Hs H IHs]; intros IH; [constructor|].
  inversion IH as [|? ? IHt IH']; subst. constructor; [|auto].
  inversion Hs; subst; simpl in *; constructor; eauto using stored_mono.
Qed.

Lemma rep_mono st st' n t : extends st st' -> rep st n t -> rep st' n t.
Proof.
  intros E. revert n. induction t as [k v ver|k c IH|ts IH] using trie_ind'; intros n Hr.
  - inversion Hr; subst. constructor. by eapply hashOk_mono.
  - inversion Hr as [|b k' enc c' t Hb Hs|]; subst.
    constructor; [by eapply hashOk_mono|].
    inversion Hs; subst; constructor; eauto using stored_mono.
  - inversion Hr as [| |b encs cs ? Hb Hs]; subst.
    constructor; [by eapply hashOk_mono|by eapply slots_mono].
Qed.

Lemma slots_mono' st st' hs encs cs ts :
  extends st st' -> slots st hs encs cs ts -> slots st' hs encs cs ts.
Proof.
  intros E H. eapply slots_mono; eauto. apply Forall_forall. intros [t|] _; [|done].
  intros n. by apply rep_mono.
Qed.

(** ** The dirty flag does not matter to hashing *)

Lemma getEncodedNode_setDirty n d : getEncodedNode (setDirty n d) = getEncodedNode n.
Proof. by destruct n. Qed.

Lemma storeHash_setDirty n d r :
  storeHash (setDirty n d, r) = (setDirty (fst (storeHash (n, r))) d, snd (storeHash (n, r))).
Proof. destruct r; [done|]. by destruct n. Qed.

Lemma hashNode_setDirty n d :
  hashNode (setDirty n d) = (setDirty (fst (hashNode n)) d, snd (hashNode n)).
Proof.
  destruct n as [b k v ver|b k enc ver c|b encs vers cs]; unfold hashNode; simpl.
  - by destruct v.
  - destruct c as [c|]; simpl; [by destruct (encodeNodeAndGetHash c)|].
    by destruct (blen enc =? 0).
  - destruct (branchNotEmpty cs encs); [done|]. destruct (encodeChildren encs cs) as [es [e|]]; done.
Qed.

Lemma setHash_setDirty n d :
  setHash (setDirty n d) = (setDirty (fst (setHash n)) d, snd (setHash n)).
Proof.
  assert (Hst : forall n, storeHash (hashNode (setDirty n d)) =
    (setDirty (fst (storeHash (hashNode n))) d, snd (storeHash (hashNode n)))).
  { intros m. rewrite hashNode_setDirty. destruct (hashNode m) as [m' r]. simpl.
    apply storeHash_setDirty. }
  destruct n as [[h d0] k v ver|[h d0] k enc ver c|[h d0] encs vers cs];
    cbn [setHash setDirty setBase baseOf isEmptyOrNil bhash bdirty] in *.
  - destruct v; [|done]. unfold getHash. simpl. destruct h; [done|].
    exact (Hst (leafNode (mkBase None d0) k (Some l) ver)).
  - unfold getHash.
    destruct c as [c|]; simpl.
    + destruct h; [done|]. destruct (setHash c) as [c' [e|]]; [done|].
      exact (Hst (extensionNode (mkBase None d0) k enc ver (Some c'))).
    + destruct (blen enc =? 0) eqn:El; [done|]. destruct h; [done|].
      exact (storeHash_setDirty (extensionNode (mkBase None d0) k enc ver None) d
        (encodeNodeAndGetHash (extensionNode (mkBase None d0) k enc ver None))).
  - unfold getHash. simpl.
    destruct (branchNotEmpty cs encs); [done|]. destruct h; [done|].
    destruct (forallb _ cs).
    + exact (storeHash_setDirty (branchNode (mkBase None d0) encs vers cs) d
        (encodeNodeAndGetHash (branchNode (mkBase None d0) encs vers cs))).
    + destruct (hashEach setHash cs) as [cs' [e|]]; [done|].
      exact (Hst (branchNode (mkBase None d0) encs vers cs')).
Qed.

Lemma getCollapsed_setDirty n d :
  getCollapsed (setDirty n d) =
    (setDirty (fst (getCollapsed n)) d,
     match snd (getCollapsed n) with inl e => inl e | inr c => inr (setDirty c d) end).
Proof.
  destruct n as [b k v ver|b k enc ver c|b encs vers cs]; unfold getCollapsed; simpl.
  - done.
  - destruct c as [c|]; simpl; [by destruct (hashIfInvalid c) as [c' [e|]]|].
    by destruct (blen enc =? 0).
  - destruct (branchNotEmpty cs encs); [done|]. destruct (forallb _ cs); [done|].
    by destruct (collapseChildren encs cs) as [[es cs'] [e|]].
Qed.

Lemma encodeCommit_setDirty n d st :
  encodeNodeAndCommitToDB (setDirty n d) st =
    let '(n', st', r) := encodeNodeAndCommitToDB n st in (setDirty n' d, st', r).
Proof.
  unfold encodeNodeAndCommitToDB, computeAndSetNodeHash, collapseAndEncodeNode.
  assert (Hg : forall n, getHash (setDirty n d) = getHash n) by by intros [].
  rewrite Hg. destruct (slen (getHash n) =? 0).
  - rewrite setHash_setDirty. destruct (setHash n) as [n1 [e|]]; simpl; [done|].
    rewrite getCollapsed_setDirty, Hg. destruct (getCollapsed n1) as [n2 [e|c]]; simpl; [done|].
    rewrite getEncodedNode_setDirty. destruct (getEncodedNode c); [done|]. by destruct (sPut _ _ _).
  - rewrite getCollapsed_setDirty. destruct (getCollapsed n) as [n2 [e|c]]; simpl; [done|].
    rewrite getEncodedNode_setDirty. destruct (getEncodedNode c); [done|]. by destruct (sPut _ _ _).
Qed.
(** ** getCollapsed *)

Lemma hashIfInvalid_spec st e n t : rep st n t -> wf e t -> hashes hashIfInvalid st n t.
Proof.
  intros Hr Hw. unfold hashes, hashIfInvalid, hasValidHash.
  rewrite (rep_notEmpty _ _ _ _ Hr Hw). simpl.
  destruct (hashed_cases (baseOf n)) as [Hh|Hh].
  - rewrite (rep_getHash _ _ _ Hr Hh). destruct (negb (isDirty n)).
    + exists n. eauto using rep_getHash.
    + rewrite (setHash_hashed _ _ _ _ Hr Hw Hh). exists n. eauto using rep_getHash.
  - unfold getHash at 1. rewrite Hh. by eapply setHash_spec.
Qed.

Lemma collapseChildren_spec st encs cs ts :
  slots st true encs cs ts -> someWf ts ->
  exists cs', collapseChildren encs cs = (map childHash ts, cs', inr tt) /\
    slots st true (map childHash ts) cs' ts.
Proof.
  intros H. remember true as hs. revert Heqhs.
  induction H as [|hs e es c cs t ts Hs H IH]; intros -> Hw.
  - exists []. split; [done|constructor].
  - apply someWf_cons in Hw as [Hw Hws]. destruct (IH eq_refl Hws) as (cs' & Hc & Hs').
    inversion Hs as [|? ? n t' Hr Hh|? ? Hst]; subst; simpl in *.
    + exists (None :: cs'). rewrite Hc. split; [done|]. constructor; [constructor|done].
    + destruct Hw as [e' Hw]. destruct (hashIfInvalid_spec _ _ _ _ Hr Hw) as (n' & -> & Hr' & Hg & _).
      exists (Some n' :: cs'). rewrite Hc, Hg. split; [done|].
      constructor; [by apply slot_hashed|done].
    + exists (None :: cs'). rewrite Hc. split; [done|]. constructor; [by constructor|done].
Qed.

Definition childrenStored st (t : trie) : Prop :=
  match t with
  | TLeaf _ _ _ => True
  | TExt _ c => stored st c
  | TBranch ts => forall i c, ts !! i = Some (Some c) -> stored st c
  end.

(** The collapsed node [c] of [n]: its encoding is that of the trie, and it
    represents the trie once the children are stored. *)
Definition collapsedOf st (c : node) (t : trie) (b : baseNode) : Prop :=
  isEmptyOrNil c = inr tt /\ encoded c t /\ baseOf c = b /\
  forall st' b', childrenStored st' t -> hashOk st' b' t -> hashed b' = true ->
    extends st st' -> rep st' (setBase c b') t.

Lemma rep_setBase st n t b' :
  rep st n t -> hashOk st b' t -> hashed (baseOf n) = true -> hashed b' = true ->
  rep st (setBase n b') t.
Proof.
  intros Hr Hok H1 H2. destruct Hr; simpl in *; rewrite ?H1 in *;
    constructor; rewrite ?H2; done.
Qed.

Lemma collapsedOf_rep st e n t :
  rep st n t -> wf e t -> hashed (baseOf n) = true -> collapsedOf st n t (baseOf n).
Proof.
  intros Hr Hw Hh. split; [by eapply rep_notEmpty|]. split; [by eapply rep_encoded|].
  split; [done|]. intros. apply rep_setBase; try done. by eapply rep_mono.
Qed.

Lemma getCollapsed_spec st e n t :
  rep st n t -> wf e t -> hashed (baseOf n) = true ->
  exists n' c, getCollapsed n = (n', inr c) /\ rep st n' t /\ baseOf n' = baseOf n /\
    collapsedOf st c t (baseOf n).
Proof.
  intros Hr Hw Hh. pose proof (collapsedOf_rep _ _ _ _ Hr Hw Hh) as Hcol.
  pose proof (rep_notEmpty _ _ _ _ Hr Hw) as Hne. unfold getCollapsed.
  destruct t as [k v ver|k c|ts].
  - inversion Hr; subst. eauto 10.
  - inversion Hr as [|b k' enc c' t Hb Hs|]; subst. rewrite Hne. simpl in Hh. rewrite Hh in Hs.
    inversion Hs as [|? ? n t' Hn Hs'|? ? Hst]; subst; [|by eauto 10].
    pose proof Hw as (_ & _ & _ & _ & Hwc).
    destruct (hashIfInvalid_spec _ _ _ _ Hn Hwc) as (n' & -> & Hn' & Hg & _).
    eexists _, _. split; [done|]. rewrite Hg. split; [|split; [done|]].
    + constructor; [done|]. rewrite Hh. by eapply slot_rehash.
    + split; [simpl; by rewrite hashL_blen|]. split; [done|]. split; [done|].
      intros st' b' Hst Hok Hb' _. simpl in *. constructor; [done|]. rewrite Hb'. by constructor.
  - inversion Hr as [| |b encs cs ? Hb Hs]; subst. rewrite Hne.
    destruct (isCollapsed _); [by eauto 10|]. simpl in Hh. rewrite Hh in Hs.
    destruct (collapseChildren_spec _ _ _ _ Hs (wf_someWf _ _ Hw)) as (cs' & -> & Hs').
    eexists _, _. split; [done|]. split; [constructor; [done|by rewrite Hh]|]. split; [done|].
    destruct (slots_length _ _ _ _ _ Hs) as [_ ->].
    assert (Hc : forall st', childrenStored st' (TBranch ts) ->
      slots st' true (map childHash ts) (replicate (length ts) None) ts)
      by (intros; by apply slots_collapsed).
    split; [|split; [done|split; [done|]]].
    + (* non-emptiness only looks at the children's hashes *)
      simpl. pose proof Hw as Hw'. rewrite wf_branch in Hw'. destruct Hw' as (_ & _ & Hn & _).
      clear -Hn CL. assert (Hn1 : (1 <= numSome ts)%nat) by lia. clear Hn.
      induction ts as [|[t|] ts IH]; [inversion Hn1| |].
      * simpl. by rewrite hashL_blen.
      * simpl. apply IH. by rewrite numSome_cons in Hn1.
    + intros st' b' Hst Hok Hb' _. simpl. constructor; [done|]. rewrite Hb'. auto.
Qed.

(** ** Saving a node *)

Lemma encodeCommit_spec st e n t :
  rep st n t -> wf e t ->
  exists n' st' k, encodeNodeAndCommitToDB n st = (n', st', inr k) /\
    rep st n' t /\ getHash n' = Some (hashL t) /\ sPut st (hashL t) (encL t) = Some st'.
Proof.
  intros Hr Hw. destruct (sPut_total st (hashL t) (encL t)) as [st' Hput].
  unfold encodeNodeAndCommitToDB.
  assert (H1 : exists n1, computeAndSetNodeHash n = (n1, inr (hashL t)) /\ rep st n1 t /\
    hashed (baseOf n1) = true).
  { unfold computeAndSetNodeHash. destruct (hashed_cases (baseOf n)) as [Hh|Hh].
    - rewrite (rep_getHash _ _ _ Hr Hh). simpl. rewrite hashL_blen. eauto.
    - unfold getHash at 1. rewrite Hh. simpl.
      destruct (setHash_spec _ _ _ _ Hr Hw) as (n' & -> & Hr' & Hg & _). rewrite Hg.
      exists n'. split; [done|]. split; [done|]. unfold hashed, getHash in *. by rewrite Hg. }
  destruct H1 as (n1 & -> & Hr1 & Hh1). unfold collapseAndEncodeNode.
  destruct (getCollapsed_spec _ _ _ _ Hr1 Hw Hh1) as (n2 & c & -> & Hr2 & Hb & Hne & Henc & _).
  rewrite (encoded_getEncodedNode _ _ Hne Henc), Hput.
  eexists _, _, _. split; [done|]. split; [done|]. split; [|done].
  apply (rep_getHash _ _ _ Hr2). by rewrite Hb.
Qed.

(** Marking clean a node that has been saved. *)
Lemma rep_setClean st n t :
  rep st n t -> getHash n = Some (hashL t) -> stored st t -> rep st (setDirty n false) t.
Proof.
  intros Hr Hg Hst. apply rep_setBase; [done| | |].
  - split; [by right|]. by intros _.
  - unfold hashed, getHash in *. by rewrite Hg.
  - unfold hashed, getHash in *. simpl. by rewrite Hg.
Qed.

Lemma stored_children st t :
  childrenStored st t -> sGet st (hashL t) = Some (encL t) -> stored st t.
Proof. destruct t; simpl; intros; by constructor. Qed.

Lemma childrenStored_mono st st' t :
  extends st st' -> childrenStored st t -> childrenStored st' t.
Proof. intros E. destruct t; simpl; eauto using stored_mono. Qed.

(** What a commit of [n] over [st] gives. *)
Definition committed (T : trie) st (r : node * St * (trieErr + unit)) (t : trie) : Prop :=
  exists n' st', r = (n', st', inr tt) /\ rep st' n' t /\ isDirty n' = false /\ grows T st st'.

Lemma saved_spec T st e n t :
  rep st n t -> wf e t -> sub t T -> NoCollision T st -> childrenStored st t ->
  exists n' st' k, encodeNodeAndCommitToDB (setDirty n false) st = (setDirty n' false, st', inr k) /\
    rep st' (setDirty n' false) t /\ grows T st st' /\ stored st' t /\
    hashed (baseOf (setDirty n' false)) = true.
Proof.
  intros Hr Hw Hsub Hnc Hch.
  destruct (encodeCommit_spec _ _ _ _ Hr Hw) as (n' & st' & k & Hc & Hr' & Hg & Hput).
  rewrite encodeCommit_setDirty, Hc. exists n', st', k. split; [done|].
  pose proof (put_grows _ _ _ _ Hnc Hsub Hput) as Hgr.
  assert (Hst : stored st' t).
  { apply stored_children; [eapply childrenStored_mono; [apply Hgr|done]|].
    by eapply sGet_put_eq. }
  split; [|split; [done|split; [done|]]].
  - apply rep_setClean; [|done|done]. eapply rep_mono; [apply Hgr|done].
  - unfold hashed, getHash in *. destruct n'; simpl in *; by rewrite Hg.
Qed.

Lemma commitNode_spec T st e n t level maxLevel :
  rep st n t -> wf e t -> sub t T -> NoCollision T st -> childrenStored st t ->
  committed T st (commitNode n level maxLevel st) t.
Proof.
  intros Hr Hw Hsub Hnc Hch.
  destruct (saved_spec _ _ _ _ _ Hr Hw Hsub Hnc Hch) as (n' & st' & k & Hc & Hr' & Hg & Hst & Hh).
  unfold commitNode. rewrite Hc. destruct (level =? maxLevel).
  - destruct (getCollapsed_spec _ _ _ _ Hr' Hw Hh) as (n2 & c & -> & Hr2 & Hb & Hne & Henc & Hbc & Hrc).
    exists c, st'. split; [done|]. split; [|split; [|done]].
    + replace c with (setBase c (baseOf c)) by (by destruct c). rewrite Hbc.
      apply Hrc; auto; [|by apply rep_hashOk|by intros ? ? ?].
      eapply childrenStored_mono; [apply Hg|done].
    + unfold isDirty. rewrite Hbc. by destruct n'.
  - eexists _, _. split; [done|]. split; [done|]. split; [by destruct n'|done].
Qed.

Lemma commitEach_spec T f st0 hs encs cs ts :
  Forall (optP (fun t => forall e n st, rep st n t -> wf e t -> sub t T ->
    NoCollision T st -> committed T st (f n st) t)) ts ->
  slots st0 hs encs cs ts -> someWf ts ->
  Forall (optP (fun t => sub t T)) ts -> forall st, grows T st0 st -> NoCollision T st ->
  exists cs' st', commitEach f cs st = (cs', st', inr tt) /\ slots st' hs encs cs' ts /\
    grows T st st' /\ forall i c, ts !! i = Some (Some c) -> stored st' c.
Proof.
  intros IH Hs. revert IH. induction Hs as [|hs e es c cs t ts Hs H IHs]; intros IH Hw Hsub st Hg Hnc.
  - exists [], st. split; [done|]. split; [constructor|]. split; [apply grows_refl|done].
  - apply someWf_cons in Hw as [Hw Hws]. inversion IH as [|? ? IHt IH']; subst.
    inversion Hsub as [|? ? Hst Hsub']; subst. specialize (IHs IH' Hws Hsub').
    assert (Hcase : exists c' st1, slot st1 hs e c' t /\ grows T st st1 /\
      (forall t', t = Some t' -> stored st1 t') /\
      commitEach f (c :: cs) st =
        let '(r, db', x) := commitEach f cs st1 in (c' :: r, db', x)).
    { inversion Hs as [|? ? n t' Hr Hh|? ? Hdb]; subst; simpl in *.
      - exists None, st. split; [constructor|]. split; [apply grows_refl|]. done.
      - destruct Hw as [e' Hw].
        destruct (IHt e' n st) as (n' & st1 & -> & Hr' & Hd & Hg1); auto.
        { eapply rep_mono; [apply Hg|done]. }
        destruct (proj2 (rep_hashOk _ _ _ Hr') Hd) as [Hh' Hst'].
        exists (Some n'), st1. split; [by eapply slot_rehash|]. split; [done|]. split; [|done].
        by intros ? [= <-].
      - exists None, st. split; [constructor; eapply stored_mono; [apply Hg|done]|].
        split; [apply grows_refl|]. split; [|done].
        intros ? [= <-]. eapply stored_mono; [apply Hg|done]. }
    destruct Hcase as (c' & st1 & Hs1 & Hg1 & Hst1 & ->).
    destruct (IHs st1) as (cs' & st2 & -> & Hs2 & Hg2 & Hst2);
      [by eapply grows_trans|by eapply grows_NoCollision|].
    exists (c' :: cs'), st2. split; [done|]. split; [|split; [by eapply grows_trans|]].
    + constructor; [|done]. inversion Hs1; subst; constructor; auto.
      * eapply rep_mono; [apply Hg2|done].
      * eapply stored_mono; [apply Hg2|done].
    + intros [|i] c0 Hi; simpl in Hi; [|by eauto]. simplify_eq.
      eapply stored_mono; [apply Hg2|auto].
Qed.

Lemma commitDirty_spec T e t n st level maxLevel :
  rep st n t -> wf e t -> sub t T -> NoCollision T st ->
  committed T st (commitDirty n level maxLevel st) t.
Proof.
  revert e n st level. induction t as [k v ver|k c IH|ts IH] using trie_ind';
    intros e n st level Hr Hw Hsub Hnc; pose proof (rep_notEmpty _ _ _ _ Hr Hw) as Hne;
    (destruct (isDirty n) eqn:Hd;
      [|exists n, st; destruct n; cbn [commitDirty]; rewrite Hne, Hd; simpl;
        (split; [done|split; [done|split; [done|apply grows_refl]]])]).
  - pose proof Hr as Hr0. inversion Hr; subst. cbn [commitDirty]. rewrite Hne, Hd.
    change (negb true) with false. cbv iota.
    destruct (saved_spec _ _ _ _ _ Hr0 Hw Hsub Hnc I) as (n' & st' & k' & -> & Hr' & Hg & _).
    eexists _, _. split; [done|]. split; [done|]. split; [by destruct n'|done].
  - pose proof Hr as Hr0. inversion Hr as [|b k' enc c' t Hb Hs|]; subst.
    cbn [commitDirty]. rewrite Hne, Hd. change (negb true) with false. cbv iota.
    pose proof Hw as (_ & _ & _ & _ & Hwc).
    inversion Hs as [|? ? n t' Hn Hs'|? ? Hst]; subst; [|by eapply commitNode_spec].
    assert (Hsubc : sub c T) by (eapply sub_trans; [|done]; constructor; constructor).
    destruct (IH false n st (u8 (level + 1)) Hn Hwc Hsubc Hnc) as (n' & st1 & -> & Hr1 & Hd1 & Hg1).
    destruct (proj2 (rep_hashOk _ _ _ Hr1) Hd1) as [Hhc Hstc].
    destruct (commitNode_spec T st1 e (extensionNode b k enc (tver c) (Some n')) (TExt k c)
      (u8 (level + 1)) maxLevel) as (n2 & st2 & -> & Hr2 & Hd2 & Hg2); auto.
    { constructor; [eapply hashOk_mono; [apply Hg1|done]|]. by eapply slot_rehash. }
    { by eapply grows_NoCollision. }
    eexists _, _. split; [done|]. split; [done|]. split; [done|]. by eapply grows_trans.
  - pose proof Hr as Hr0. inversion Hr as [| |b encs cs ? Hb Hs]; subst.
    cbn [commitDirty]. rewrite Hne, Hd. change (negb true) with false. cbv iota.
    destruct (commitEach_spec T (fun c => commitDirty c (u8 (level + 1)) maxLevel) st _ _ _ _
      ltac:(eapply Forall_impl; [exact IH|]; intros [t|]; [|done]; simpl; intros H e0 n0 st0; apply H)
      Hs (wf_someWf _ _ Hw)) with (st := st)
      as (cs' & st1 & -> & Hs1 & Hg1 & Hst1); auto using grows_refl.
    { apply Forall_forall. intros [t|] Hin; [|done]. simpl.
      apply list_elem_of_lookup in Hin as [i Hi]. eapply sub_trans; [|done].
      econstructor; [done|constructor]. }
    destruct (commitNode_spec T st1 e (branchNode b encs (tvers ts) cs') (TBranch ts)
      (u8 (level + 1)) maxLevel) as (n2 & st2 & -> & Hr2 & Hd2 & Hg2); auto.
    { constructor; [eapply hashOk_mono; [apply Hg1|done]|done]. }
    { by eapply grows_NoCollision. }
    eexists _, _. split; [done|]. split; [done|]. split; [done|]. by eapply grows_trans.
Qed.
End Commit.
