(* ===== verification/TrieProof.v ===== *)
(** * Merkle proofs, and what a root hash commits to. *)

From stdpp Require Import base list gmap.
From Stdlib Require Import ZArith Lia.
From S2P Require Import Prelude TrieNode TrieOps TrieSpec TrieRep TrieRefine TrieHash.

#[local] Arguments replicate : simpl never.

Section Proofs.
Context `{C : Codec} {St : Type} `{TS : TrieStorage St} `{CL : !CodecLaws C}.
Implicit Types (st : St).

(** The encodings of the nodes on the path of a key. *)
Fixpoint tpath (t : trie) (key : bytes) : list bytes :=
  encL t ::
  match t with
  | TLeaf _ _ _ => []
  | TExt k c => tpath c (drop (length k) key)
  | TBranch cs =>
      match key with
      | [] => []
      | p :: key' =>
          nth (Z.to_nat p)
            (map (fun o => match o with Some c => tpath c key' | None => [] end) cs) []
      end
  end.

Lemma tpath_branch cs p key :
  tpath (TBranch cs) (p :: key) =
  encL (TBranch cs) :: match cs !! Z.to_nat p with Some (Some c) => tpath c key | _ => [] end.
Proof.
  cbn [tpath]. f_equal. revert cs. induction (Z.to_nat p) as [|i IH]; intros [|o cs]; simpl; done.
Qed.

(** ** GetProof *)

(** getNext on a represented node. *)
Lemma getNext_spec st e n t key :
  rep st n t -> wf e t -> khex e key ->
  match t with
  | TLeaf k _ _ =>
      getNext n key st = (n, if beq key k then inr (None, []) else inl ErrNodeNotFound)
  | TExt k c =>
      if beq k (take (length k) key) then
        exists n1 c0, getNext n key st = (n1, inr (Some c0, drop (length k) key)) /\
          rep st c0 c /\ baseOf n1 = baseOf n /\
          (forall c', rep st c' c -> baseOf c' = baseOf c0 -> forall p, rep st (setChildAt n1 p (Some c')) t) /\
          (hashed (baseOf n) = true -> hashed (baseOf c0) = true)
      else getNext n key st = (n, inl ErrNodeNotFound)
  | TBranch cs =>
      exists p key', key = p :: key' /\
      match cs !! Z.to_nat p with
      | Some (Some c) =>
          exists n1 c0, getNext n key st = (n1, inr (Some c0, key')) /\
            rep st c0 c /\ baseOf n1 = baseOf n /\
            (forall c', rep st c' c -> baseOf c' = baseOf c0 -> rep st (setChildAt n1 p (Some c')) t) /\
            (hashed (baseOf n) = true -> hashed (baseOf c0) = true)
      | _ => exists n1, getNext n key st = (n1, inl ErrNodeNotFound) /\ rep st n1 t /\ baseOf n1 = baseOf n
      end
  end.
Proof.
  intros Hrep Hwf Hkey. pose proof (rep_notEmpty _ _ _ _ Hrep Hwf) as Hne. unfold getNext. rewrite Hne.
  assert (Hchild : forall p n1 c c0, rep st n1 t -> baseOf n1 = baseOf n -> tchild t p = Some c ->
    childAt n1 p = Some c0 -> 0 <= p -> hashed (baseOf n) = true -> hashed (baseOf c0) = true).
  { intros p n1 c c0 Hr1 Hb Htc Hca Hp Hh. rewrite <- Hb in Hh.
    destruct Hr1 as [b k v ver Hb'|b k enc c' t' Hb' Hs|b encs cs ts Hb' Hs]; simpl in *; try done.
    - subst. rewrite Hh in Hs. inversion Hs as [|? ? ? ? _ Hx|]; subst. by apply Hx.
    - rewrite Hh in Hs. destruct (ts !! Z.to_nat p) as [o|] eqn:Eo; [|done].
      destruct (slots_lookup _ _ _ _ _ _ _ Hs Eo) as (e0 & c1 & _ & Hc1 & Hslot).
      rewrite Hc1 in Hca. simpl in *. subst. inversion Hslot as [|? ? ? ? _ Hx|]; subst. by apply Hx. }
  destruct t as [k v ver|k c|ts].
  - inversion Hrep; subst. by destruct (beq key k).
  - destruct (resolve_any st e n (TExt k c) 0 Hrep Hwf ltac:(unfold hexTerminator; lia))
      as (n1 & Hres & Hrep1 & Hbase & c0 & Hch & Hrepc & Hset).
    inversion Hrep; subst. destruct (beq k (take (length k) key)) eqn:E.
    + assert (Hlen : (length k <= length key)%nat).
      { apply beq_true in E. rewrite E at 1. rewrite length_take. lia. }
      rewrite (proj2 (Z.ltb_ge (blen key) (blen k))) by (unfold blen; lia).
      simpl. rewrite Hres. exists n1, c0. rewrite Hch. split; [done|]. split; [done|]. split; [done|].
      split; [|by eapply Hchild; eauto; lia].
      intros c' Hc' Hbc p. specialize (Hset c' Hc' Hbc). by inversion Hrep1; subst.
    + by destruct (blen key <? blen k).
  - destruct key as [|p key]; [simpl in Hkey; subst; by destruct Hwf|].
    exists p, key. split; [done|]. destruct Hkey as (-> & Hp & Hkey).
    destruct (resolve_any st false n (TBranch ts) p Hrep Hwf Hp)
      as (n1 & Hres & Hrep1 & Hbase & Hch).
    inversion Hrep; subst. rewrite position_in_range, Hres by done. simpl in Hch.
    destruct (ts !! Z.to_nat p) as [[c|]|] eqn:Ep; simpl in Hch.
    + destruct Hch as (c0 & Hca & Hrepc & Hset). exists n1, c0. rewrite Hca.
      split; [done|]. split; [done|]. split; [done|]. split; [done|].
      eapply (Hchild p n1 c c0); auto; [|lia]. simpl. by rewrite Ep.
    + rewrite Hch. eauto.
    + rewrite Hch. eauto.
Qed.

(** The walk collects the encodings of the path, or fails. *)
Lemma proofLoop_spec st fuel n t e key :
  rep st n t -> wf e t -> khex e key -> hashed (baseOf n) = true -> (length key < fuel)%nat ->
  exists n', proofLoop fuel n key st =
      (n', match tget t key with
           | Some (v, _) => inr (tpath t key, Some v)
           | None => inl ErrNodeNotFound
           end) /\ rep st n' t /\ baseOf n' = baseOf n.
Proof.
  revert n t e key. induction fuel as [|fuel IH]; intros n t e key Hrep Hwf Hkey Hh Hf; [lia|].
  cbn [proofLoop]. rewrite (rep_hashed_getEncodedNode _ _ _ _ Hrep Hwf Hh).
  pose proof (getNext_spec st e n t key Hrep Hwf Hkey) as Hnext.
  destruct t as [k v ver|k c|ts].
  - rewrite Hnext. inversion Hrep; subst. cbn [tget].
    destruct (beq key k); eexists; eauto.
  - cbn [tget]. destruct (beq k (take (length k) key)) eqn:E.
    + destruct Hnext as (n1 & c0 & -> & Hrepc & Hbase & Hset & Hhc).
      pose proof Hwf as (-> & Hne & Hk & Hbr & Hwfc). apply beq_true in E.
      assert (Hkey' : khex false (drop (length k) key)).
      { rewrite <- (take_drop (length k) key), <- E in Hkey. by rewrite khex_app in Hkey. }
      destruct (IH c0 c false _ Hrepc Hwfc Hkey' (Hhc Hh)) as (c' & -> & Hrepc' & Hbc);
        [pose proof (drop_prefix_length _ _ Hne E); lia|].
      eexists. split; [|split; [by apply Hset|by apply baseOf_setChildAt]].
      f_equal. cbn [tpath]. by destruct (tget c _) as [[v ver]|].
    + rewrite Hnext. eauto.
  - destruct Hnext as (p & key' & -> & Hnext). rewrite tget_branch, tpath_branch.
    destruct Hkey as (-> & Hp & Hkey). destruct (ts !! Z.to_nat p) as [[c|]|] eqn:Ep.
    + destruct Hnext as (n1 & c0 & -> & Hrepc & Hbase & Hset & Hhc).
      assert (Hwfc : wf (p =? hexTerminator) c) by (eapply wf_child; eauto; lia).
      destruct (IH c0 c _ key' Hrepc Hwfc Hkey (Hhc Hh)) as (c' & -> & Hrepc' & Hbc);
        [simpl in Hf; lia|].
      eexists. split; [|split; [by apply Hset|by apply baseOf_setChildAt]].
      f_equal. by destruct (tget c _) as [[v ver]|].
    + destruct Hnext as (n1 & -> & ? & ?). eauto.
    + destruct Hnext as (n1 & -> & ? & ?). eauto.
Qed.

(** ** VerifyProof *)

(** The node a stored encoding decodes to. *)
Definition nodeOf (t : trie) : node :=
  let b := mkBase None false in
  match t with
  | TLeaf k v ver => leafNode b k (Some v) ver
  | TExt k c => extensionNode b k (hashL c) (tver c) None
  | TBranch cs => branchNode b (map childHash cs) (tvers cs) (replicate nrOfChildren None)
  end.

Lemma decode_encL e t : wf e t -> decodeNode (encL t) = inr (nodeOf t).
Proof.
  intros Hwf. destruct t as [k v ver|k c|cs]; cbn [encL]; rewrite decode_enc.
  - destruct (marshal_total (CollapsedLn k (Some v) ver)) as [m Hm]. rewrite Hm. simpl.
    unfold unmarshalNode; simpl. erewrite unmarshal_ln by (try done; apply Hwf). done.
  - destruct (marshal_total (CollapsedEn k (hashL c) (tver c))) as [m Hm]. rewrite Hm. simpl.
    unfold unmarshalNode; simpl. by erewrite unmarshal_en.
  - destruct (marshal_total (CollapsedBn (map childHash cs) (tvers cs))) as [m Hm].
    rewrite Hm. simpl. unfold unmarshalNode; simpl. by erewrite unmarshal_bn.
Qed.

(** A genuine path is accepted. *)
Lemma verifyLoop_complete e t key x :
  wf e t -> khex e key -> tget t key = Some x ->
  verifyLoop (Some (hashL t)) key (map Some (tpath t key)) = inr true.
Proof.
  revert e key. induction t as [k v ver|k c IH|ts IH] using trie_ind'; intros e key Hwf Hkey Hget.
  - simpl. rewrite beq_refl. simpl.
    change (encC (CollapsedLn k (Some v) ver) leafType) with (encL (TLeaf k v ver)).
    rewrite (decode_encL _ _ Hwf). simpl. simpl in Hget. by destruct (beq key k).
  - apply tget_ext_inv in Hget as (r & -> & Hget).
    pose proof Hwf as (-> & Hne & Hk & Hbr & Hwfc).
    cbn [tpath map verifyLoop]. rewrite hashL_encL. simpl default. rewrite beq_refl. simpl negb. cbv iota.
    rewrite (decode_encL _ _ Hwf). cbn [rbind nodeOf getNextHashAndKey].
    rewrite (proj2 (Z.eqb_neq (blen (k ++ r)) 0)) by (rewrite blen_0; by destruct k).
    rewrite (proj2 (Z.ltb_ge (blen (k ++ r)) (blen k))) by (unfold blen; rewrite length_app; lia).
    cbn [rbind]. rewrite drop_app_length. eapply IH; eauto. by rewrite khex_app in Hkey.
  - destruct key as [|p key]; [done|]. destruct Hkey as (-> & Hp & Hkey).
    rewrite tget_branch in Hget. rewrite tpath_branch.
    destruct (ts !! Z.to_nat p) as [[c|]|] eqn:Ep; try done.
    cbn [map verifyLoop]. rewrite hashL_encL. simpl default. rewrite beq_refl. simpl negb. cbv iota.
    rewrite (decode_encL _ _ Hwf). cbn [rbind nodeOf getNextHashAndKey].
    rewrite list_lookup_fmap, Ep. cbn [fmap option_fmap option_map rbind childHash].
    rewrite Forall_forall in IH. eapply (IH (Some c)); eauto.
    + by eapply list_elem_of_lookup_2.
    + eapply wf_child; eauto. lia.
Qed.

(** On a genuine path, a key at least as long as the one proved is handled
    without an error (it is accepted or rejected). *)
Lemma verifyLoop_head h key2 t key :
  h = hashL t \/
  verifyLoop (Some h) key2 (map Some (tpath t key)) = inr false.
Proof.
  destruct (decide (h = hashL t)) as [|Hne]; [by left|right].
  destruct t; simpl; (destruct (beq h _) eqn:E; [by apply beq_true in E|done]).
Qed.

Lemma verifyLoop_noError e t key key2 x :
  wf e t -> khex e key -> tget t key = Some x ->
  Forall (fun n => 0 <= n <= hexTerminator) key2 -> (length key <= length key2)%nat ->
  exists ok, verifyLoop (Some (hashL t)) key2 (map Some (tpath t key)) = inr ok.
Proof.
  revert e key key2. induction t as [k v ver|k c IH|ts IH] using trie_ind';
    intros e key key2 Hwf Hkey Hget Hk2 Hl2.
  - simpl. rewrite beq_refl. simpl.
    change (encC (CollapsedLn k (Some v) ver) leafType) with (encL (TLeaf k v ver)).
    rewrite (decode_encL _ _ Hwf). simpl. destruct (beq key2 k); eauto.
  - apply tget_ext_inv in Hget as (r & -> & Hget).
    pose proof Hwf as (-> & Hne & Hk & Hbr & Hwfc). rewrite length_app in Hl2.
    cbn [tpath map verifyLoop]. rewrite hashL_encL. simpl default. rewrite beq_refl. simpl negb. cbv iota.
    rewrite (decode_encL _ _ Hwf). cbn [rbind nodeOf getNextHashAndKey].
    rewrite (proj2 (Z.eqb_neq (blen key2) 0)) by (rewrite blen_0; destruct key2, k; simpl in *; [done|lia|done|done]).
    rewrite (proj2 (Z.ltb_ge (blen key2) (blen k))) by (unfold blen; lia).
    cbn [rbind]. rewrite drop_app_length. eapply IH; eauto.
    + by rewrite khex_app in Hkey.
    + by apply Forall_drop.
    + rewrite length_drop. lia.
  - destruct key as [|p key]; [done|]. destruct Hkey as (-> & Hp & Hkey).
    rewrite tget_branch in Hget. rewrite tpath_branch.
    destruct (ts !! Z.to_nat p) as [[c|]|] eqn:Ep; try done.
    destruct key2 as [|q key2]; [simpl in Hl2; lia|]. inversion Hk2 as [|? ? Hq Hk2']; subst.
    cbn [map verifyLoop]. rewrite hashL_encL. simpl default. rewrite beq_refl. simpl negb. cbv iota.
    rewrite (decode_encL _ _ Hwf). cbn [rbind nodeOf getNextHashAndKey].
    pose proof Hwf as Hwf'. rewrite wf_branch in Hwf'. destruct Hwf' as (_ & Hlen & _).
    assert (Hlt : (Z.to_nat q < length ts)%nat)
      by (rewrite Hlen; unfold nrOfChildren, hexTerminator in *; lia).
    destruct (lookup_lt_is_Some_2 _ _ Hlt) as [o Ho].
    rewrite list_lookup_fmap, Ho. cbn [fmap option_fmap option_map rbind].
    destruct (verifyLoop_head (childHash o) key2 c key) as [->| ->]; [|by eexists].
    rewrite Forall_forall in IH. eapply (IH (Some c)); eauto.
    + by eapply list_elem_of_lookup_2.
    + eapply wf_child; eauto. lia.
    + simpl in Hl2. lia.
Qed.

(** Reading a trie the way the verifier follows a key: the key part of an
    extension is skipped without being compared. *)
Fixpoint tgetLoose (t : trie) (key : bytes) : option (bytes * Z) :=
  match t with
  | TLeaf k v ver => if beq key k then Some (v, ver) else None
  | TExt k c => tgetLoose c (drop (length k) key)
  | TBranch cs =>
      match key with
      | [] => None
      | p :: key' =>
          nth (Z.to_nat p)
            (map (fun o => match o with Some c => tgetLoose c key' | None => None end) cs) None
      end
  end.

Lemma tgetLoose_branch cs p key :
  tgetLoose (TBranch cs) (p :: key) =
  match cs !! Z.to_nat p with Some (Some c) => tgetLoose c key | _ => None end.
Proof.
  cbn [tgetLoose]. revert cs. induction (Z.to_nat p) as [|i IH]; intros [|o cs]; simpl; try done.
Qed.

(** No element of a proof collides with a node of the trie. *)
Definition proofNoCollision (t : trie) (proof : list slice) : Prop :=
  forall enc s, In (Some enc) proof -> sub s t -> compute enc = hashL s -> enc = encL s.

Lemma verifyLoop_nil key proof : verifyLoop (Some []) key proof <> inr true /\
  verifyLoop None key proof <> inr true.
Proof.
  destruct proof as [|[enc|] proof]; [done| |done]. simpl.
  destruct (beq [] (compute enc)) eqn:E; [|done].
  apply beq_true in E. symmetry in E. by apply compute_nonempty in E.
Qed.

(** One step of the verifier, on an element that can only be the node's encoding. *)
Lemma verifyLoop_step e t key p proof :
  wf e t -> proofNoCollision t (p :: proof) ->
  verifyLoop (Some (hashL t)) key (p :: proof) = inr true ->
  (let? (proofVerified, wantHash', key') := getNextHashAndKey (nodeOf t) key in
   if proofVerified : bool then inr true else verifyLoop wantHash' key' proof) = inr true.
Proof.
  intros Hwf Hnc H. destruct p as [enc|]; [|done]. cbn [verifyLoop] in H.
  change (default [] (Some (hashL t))) with (hashL t) in H.
  destruct (beq (hashL t) (compute enc)) eqn:E; [|done]. apply beq_true in E.
  assert (enc = encL t) as -> by (eapply (Hnc enc); [by left|apply sub_refl|by symmetry]).
  cbv iota beta delta [negb] in H. by rewrite (decode_encL _ _ Hwf) in H.
Qed.

Lemma proofNoCollision_sub t c p proof :
  sub c t -> proofNoCollision t (p :: proof) -> proofNoCollision c proof.
Proof. intros Hs Hnc enc s Hin Hsub. eapply Hnc; [by right|by eapply sub_trans]. Qed.

Lemma verifyLoop_sound e t key proof :
  wf e t -> proofNoCollision t proof ->
  verifyLoop (Some (hashL t)) key proof = inr true -> exists x, tgetLoose t key = Some x.
Proof.
  revert e key proof. induction t as [k v ver|k c IH|ts IH] using trie_ind';
    intros e key proof Hwf Hnc H; (destruct proof as [|p0 proof]; [done|]);
    pose proof (verifyLoop_step _ _ _ _ _ Hwf Hnc H) as H1; clear H; rename H1 into H;
    pose proof (fun c Hc => proofNoCollision_sub _ c _ _ Hc Hnc) as Hnc';
    cbn [nodeOf getNextHashAndKey] in H.
  - destruct (beq key k) eqn:Ek; simpl in H.
    + exists (v, ver). simpl. by rewrite Ek.
    + by destruct (verifyLoop_nil [] proof).
  - destruct (blen key =? 0) eqn:E0; simpl in H; [by destruct (verifyLoop_nil [] proof)|].
    destruct (blen key <? blen k) eqn:E1; simpl in H; [done|].
    simpl. eapply IH; [apply Hwf| |done]. apply Hnc'. constructor. constructor.
  - destruct key as [|p key]; simpl in H; [by destruct (verifyLoop_nil [] proof)|].
    rewrite tgetLoose_branch. rewrite list_lookup_fmap in H.
    destruct (ts !! Z.to_nat p) as [[c|]|] eqn:Ep; simpl in H; [| |done].
    + rewrite Forall_forall in IH. pose proof Hwf as Hwf'. rewrite wf_branch in Hwf'.
      destruct Hwf' as (_ & _ & _ & Hcs). eapply (IH (Some c)); [|by eauto| |done].
      * by eapply list_elem_of_lookup_2.
      * apply Hnc'. econstructor; [done|constructor].
    + by destruct (verifyLoop_nil key proof).
Qed.

(** ** The hash binds the content *)

Lemma encC_inj c1 ty1 c2 ty2 :
  encC c1 ty1 = encC c2 ty2 -> marshal c1 = marshal c2 /\ ty1 = ty2.
Proof.
  unfold encC. intros H. apply app_inj_2 in H as [H1 H2]; [|done].
  destruct (marshal_total c1) as [m1 E1], (marshal_total c2) as [m2 E2].
  rewrite E1, E2 in *. simpl in *. by simplify_eq.
Qed.

(** Two canonical tries with the same hash are the same, unless two of their
    nodes collide. *)
Lemma hashL_binding e1 e2 t1 t2 :
  wf e1 t1 -> wf e2 t2 ->
  (forall s1 s2, sub s1 t1 -> sub s2 t2 -> hashL s1 = hashL s2 -> encL s1 = encL s2) ->
  hashL t1 = hashL t2 -> t1 = t2.
Proof.
  revert e1 e2 t2. induction t1 as [k v ver|k c IH|ts IH] using trie_ind';
    intros e1 e2 t2 Hw1 Hw2 Hnc Hh;
    pose proof (Hnc _ _ (sub_refl _) (sub_refl _) Hh) as Henc;
    destruct t2 as [k2 v2 ver2|k2 c2|ts2]; cbn [encL] in Henc;
    apply encC_inj in Henc as [Hm Hty]; try done.
  - destruct (marshal_total (CollapsedLn k (Some v) ver)) as [m E]. pose proof E as E2.
    rewrite Hm in E2. apply unmarshal_ln in E, E2; [|apply Hw2|apply Hw1]. congruence.
  - destruct (marshal_total (CollapsedEn k (hashL c) (tver c))) as [m E]. pose proof E as E2.
    rewrite Hm in E2. apply unmarshal_en in E, E2. rewrite E in E2. simplify_eq.
    f_equal. eapply (IH false false); [apply Hw1|apply Hw2| |done].
    intros s1 s2 ? ?. apply Hnc; by constructor.
  - destruct (marshal_total (CollapsedBn (map childHash ts) (tvers ts))) as [m E]. pose proof E as E2.
    rewrite Hm in E2. apply unmarshal_bn in E, E2. rewrite E in E2.
    injection E2 as E2 _. f_equal. apply list_eq. intros i.
    assert (Hi : map childHash ts !! i = map childHash ts2 !! i) by by rewrite E2.
    rewrite !list_lookup_fmap in Hi. rewrite Forall_forall in IH.
    rewrite wf_branch in Hw1, Hw2. destruct Hw1 as (_ & _ & _ & Hc1), Hw2 as (_ & _ & _ & Hc2).
    destruct (ts !! i) as [[c1|]|] eqn:Eo1, (ts2 !! i) as [[c2|]|] eqn:Eo2; simpl in Hi; simplify_eq;
      try done.
    + do 2 f_equal. eapply (IH (Some c1)); eauto.
      * by eapply list_elem_of_lookup_2.
      * intros s1 s2 Hs1 Hs2. apply Hnc; by econstructor.
    + by apply hashL_nonempty in Hi.
    + symmetry in Hi. by apply hashL_nonempty in Hi.
Qed.
End Proofs.
