(* ===== verification/PatriciaMerkleTrie.v ===== *)
(** * The trie: trie/patriciaMerkleTrie.go, over the nodes of [TrieNode] and
    [TrieOps].

    A method takes the trie and returns it as the call leaves it, with the
    result.  The mutex that every method takes makes the calls sequential.  The
    storage manager is a component of the trie: [Recreate] shares it. *)

From stdpp Require Import base list gmap.
From Stdlib Require Import ZArith Lia.
From S2P Require Import Prelude TrieNode TrieOps.

Definition rootDepthLevel : Z := 0.

(** common/trie.go *)
Definition EmptyTrieHash : bytes := replicate 32 0.

Definition IsEmptyTrie (root : bytes) : bool := (blen root =? 0) || beq root EmptyTrieHash.

Record patriciaMerkleTrie (St : Type) := mkTrie {
  root : option node;
  trieStorage : St;
  oldHashes : list slice;
  oldRoot : slice;
  maxTrieLevelInMemory : Z;
}.
Arguments mkTrie {St}.
Arguments root {St}.
Arguments trieStorage {St}.
Arguments oldHashes {St}.
Arguments oldRoot {St}.
Arguments maxTrieLevelInMemory {St}.

(** Fuel for the walk along a hex key: each step consumes a nibble. *)
Definition trieFuel (hexKey : bytes) : nat := S (length hexKey).

Section Trie.
Context `{C : Codec} {St : Type} `{TS : TrieStorage St}.
Notation PMT := (patriciaMerkleTrie St).

Definition withRoot (tr : PMT) (r : option node) : PMT :=
  mkTrie r (trieStorage tr) (oldHashes tr) (oldRoot tr) (maxTrieLevelInMemory tr).

Definition NewTrie (storage : St) (maxLevel : Z) : trieErr + PMT :=
  if maxLevel =? 0 then inl ErrInvalidLevelValue
  else inr (mkTrie None storage [] (Some []) maxLevel).

Definition Get (tr : PMT) (key : bytes) : PMT * (trieErr + (slice * Z)) :=
  match root tr with
  | None => (tr, inr (None, 0))
  | Some n =>
      let hexKey := keyBytesToHex key in
      match tryGet (trieFuel hexKey) n hexKey rootDepthLevel (trieStorage tr) with
      | (n', (_, inl e)) => (withRoot tr (Some n'), inl e)
      | (n', (depth, inr val)) => (withRoot tr (Some n'), inr (val, depth))
      end
  end.

(** [if !tr.root.isDirty() \{ tr.oldRoot = tr.root.getHash() \}] *)
Definition saveOldRoot (tr : PMT) (n : node) : PMT :=
  if isDirty n then tr
  else mkTrie (root tr) (trieStorage tr) (oldHashes tr) (getHash n) (maxTrieLevelInMemory tr).

Definition addOldHashes (tr : PMT) (hs : list slice) : PMT :=
  mkTrie (root tr) (trieStorage tr) (oldHashes tr ++ hs) (oldRoot tr) (maxTrieLevelInMemory tr).

Definition deleteHex (tr : PMT) (hexKey : bytes) : PMT * (trieErr + unit) :=
  match root tr with
  | None => (tr, inr tt)
  | Some n =>
      let tr1 := saveOldRoot tr n in
      match TrieOps.delete (trieFuel hexKey) n hexKey (trieStorage tr) with
      | (n', inl e) => (withRoot tr1 (Some n'), inl e)
      | (_, inr (_, newRoot, hs)) => (addOldHashes (withRoot tr1 newRoot) hs, inr tt)
      end
  end.

Definition update (tr : PMT) (key value : bytes) (version : Z) : PMT * (trieErr + unit) :=
  let hexKey := keyBytesToHex key in
  if negb (blen value =? 0) then
    let newData := mkTrieData hexKey value version in
    match root tr with
    | None => (withRoot tr (Some (newLeafNode newData)), inr tt)
    | Some n =>
        let tr1 := saveOldRoot tr n in
        match insert (trieFuel hexKey) n newData (trieStorage tr) with
        | (n', inl e) => (withRoot tr1 (Some n'), inl e)
        | (n', inr (None, _)) => (withRoot tr1 (Some n'), inr tt)
        | (_, inr (Some newRoot, hs)) => (addOldHashes (withRoot tr1 (Some newRoot)) hs, inr tt)
        end
    end
  else deleteHex tr hexKey.

Definition Update (tr : PMT) (key value : bytes) : PMT * (trieErr + unit) :=
  update tr key value NotSpecified.

Definition UpdateWithVersion (tr : PMT) (key value : bytes) (version : Z)
  : PMT * (trieErr + unit) :=
  update tr key value version.

Definition Delete (tr : PMT) (key : bytes) : PMT * (trieErr + unit) :=
  deleteHex tr (keyBytesToHex key).

Definition getRootHash (tr : PMT) : PMT * (trieErr + slice) :=
  match root tr with
  | None => (tr, inr (Some EmptyTrieHash))
  | Some n =>
      match getHash n with
      | Some h => (tr, inr (Some h))
      | None =>
          match setRootHash n with
          | (n', inl e) => (withRoot tr (Some n'), inl e)
          | (n', inr _) => (withRoot tr (Some n'), inr (getHash n'))
          end
      end
  end.

Definition RootHash (tr : PMT) : PMT * (trieErr + slice) := getRootHash tr.

Definition Commit (tr : PMT) : PMT * (trieErr + unit) :=
  match root tr with
  | None => (tr, inr tt)
  | Some n =>
      if negb (isDirty n) then (tr, inr tt)
      else
        match setRootHash n with
        | (n1, inl e) => (withRoot tr (Some n1), inl e)
        | (n1, inr _) =>
            match commitDirty n1 0 (maxTrieLevelInMemory tr) (trieStorage tr) with
            | (n2, db, r) => (mkTrie (Some n2) db [] (Some []) (maxTrieLevelInMemory tr), r)
            end
        end
  end.

Definition recreateFromDb (tr : PMT) (rootHash : bytes) (tsm : St) : trieErr + PMT :=
  let? newTr := NewTrie tsm (maxTrieLevelInMemory tr) in
  let? newRoot := getNodeFromDBAndDecode rootHash tsm in
  inr (withRoot newTr (Some (setGivenHash newRoot rootHash))).

Definition recreate (tr : PMT) (rootHash : bytes) (tsm : St) : trieErr + PMT :=
  if IsEmptyTrie rootHash then NewTrie (trieStorage tr) (maxTrieLevelInMemory tr)
  else recreateFromDb tr rootHash tsm.

Definition GetProof (tr : PMT) (key : bytes) : PMT * (trieErr + (list bytes * slice)) :=
  match root tr with
  | None => (tr, inl ErrNilNode)
  | Some n =>
      let hexKey := keyBytesToHex key in
      match setRootHash n with
      | (n1, inl e) => (withRoot tr (Some n1), inl e)
      | (n1, inr _) =>
          let (n2, r) := proofLoop (trieFuel hexKey) n1 hexKey (trieStorage tr) in
          (withRoot tr (Some n2), r)
      end
  end.

Definition GetObsoleteHashes (tr : PMT) : list slice := oldHashes tr.
Definition GetOldRoot (tr : PMT) : slice := oldRoot tr.
Definition GetSerializedNode (tr : PMT) (hash : bytes) : option bytes := sGet (trieStorage tr) hash.
End Trie.
