(* ===== verification/TrieMap.v ===== *)
(** * The trie as a key/value map.

    [trieRep tr m]: the trie [tr] stands for the map [m] from keys to values with
    their versions.  The methods of the trie refine the operations of the map,
    and the root hash is a function of the map. *)

From stdpp Require Import base list gmap.
From Stdlib Require Import ZArith Lia.
From S2P Require Import Prelude TrieNode TrieOps TrieSpec TrieRep TrieRefine TrieDelete TrieHash.
From S2P Require Import TrieHash PatriciaMerkleTrie.

(** ** Hex keys of byte keys *)

Definition nibblesOf (b : Z) : bytes := [Z.land b nibbleMask; Z.shiftr b NibbleSize].

Lemma keyBytesToHex_eq key : keyBytesToHex key = flat_map nibblesOf (rev key) ++ [hexTerminator].
Proof.
  unfold keyBytesToHex. f_equal. rewrite <- (app_nil_r (flat_map _ _)). generalize (@nil Z).
  induction key as [|b key IH]; intros acc; simpl; [done|].
  rewrite IH, flat_map_app. simpl. by rewrite <- app_assoc.
Qed.

(** A byte is put together from its nibbles, which are below 16. *)
Lemma byte_nibbles b : isByte b ->
  u8 (Z.lor (u8 (Z.shiftl (Z.shiftr b NibbleSize) NibbleSize)) (Z.land b nibbleMask)) = b /\
  0 <= Z.land b nibbleMask < hexTerminator /\ 0 <= Z.shiftr b NibbleSize < hexTerminator.
Proof.
  intros Hb.
  pose (ok := fun n => let b := Z.of_nat n in
    ((u8 (Z.lor (u8 (Z.shiftl (Z.shiftr b NibbleSize) NibbleSize)) (Z.land b nibbleMask)) =? b)
     && ((0 <=? Z.land b nibbleMask) && (Z.land b nibbleMask <? hexTerminator))
     && ((0 <=? Z.shiftr b NibbleSize) && (Z.shiftr b NibbleSize <? hexTerminator)))).
  assert (Hall : forallb ok (List.seq 0 256) = true) by reflexivity.
  rewrite forallb_forall in Hall. unfold isByte in Hb. specialize (Hall (Z.to_nat b)).
  unfold ok in Hall. rewrite Z2Nat.id in Hall by lia.
  rewrite !andb_true_iff, Z.eqb_eq, !Z.leb_le, !Z.ltb_lt in Hall.
  destruct Hall as [[H1 [H2 H3]] [H4 H5]]; [apply in_seq; lia|]. auto.
Qed.

Lemma nibbles_flat l : isBytes l -> nibbles (flat_map nibblesOf l).
Proof.
  induction 1 as [|b l Hb _ IH]; [constructor|].
  destruct (byte_nibbles b Hb) as (_ & ? & ?). constructor; [done|]. by constructor.
Qed.

Lemma isBytes_rev l : isBytes l -> isBytes (rev l).
Proof. intros H. apply Forall_rev in H. by rewrite rev_alt, <- rev_alt. Qed.

Lemma khex_keyBytesToHex key : isBytes key -> khex false (keyBytesToHex key).
Proof.
  intros H. rewrite keyBytesToHex_eq, khex_app by (by apply nibbles_flat, isBytes_rev).
  simpl. unfold hexTerminator. repeat split; lia.
Qed.

Lemma hexPairs_flat l : isBytes l -> hexPairs (flat_map nibblesOf l) = rev l.
Proof.
  induction 1 as [|b l Hb _ IH]; [done|].
  change (flat_map nibblesOf (b :: l)) with
    (Z.land b nibbleMask :: Z.shiftr b NibbleSize :: flat_map nibblesOf l).
  simpl. rewrite IH. f_equal. f_equal. apply byte_nibbles, Hb.
Qed.

Lemma length_flat l : length (flat_map nibblesOf l) = (2 * length l)%nat.
Proof. induction l as [|b l IH]; simpl in *; lia. Qed.

Lemma hex_roundtrip key : isBytes key -> hexToTrieKeyBytes (keyBytesToHex key) = inr key.
Proof.
  intros H. rewrite keyBytesToHex_eq. unfold hexToTrieKeyBytes.
  destruct (flat_map nibblesOf (rev key) ++ [hexTerminator]) as [|x l] eqn:E; [by destruct (flat_map _ _)|].
  rewrite <- E. rewrite length_app. simpl. rewrite Nat.add_sub, take_app_length.
  unfold blen. rewrite length_flat, Nat2Z.inj_mul, Z.mul_comm, Z.mod_mul by lia. simpl.
  by rewrite hexPairs_flat, rev_involutive by (by apply isBytes_rev).
Qed.

Lemma keyBytesToHex_inj k1 k2 :
  isBytes k1 -> isBytes k2 -> keyBytesToHex k1 = keyBytesToHex k2 -> k1 = k2.
Proof.
  intros H1 H2 E. apply hex_roundtrip in H1, H2. congruence.
Qed.

(** ** Maps *)

Notation kvmap := (gmap bytes (bytes * Z)).

Record mapOf (t : trie) (m : kvmap) : Prop := {
  mapOf_get : forall key, isBytes key -> tget t (keyBytesToHex key) = m !! key;
  mapOf_key : forall hk x, khex false hk -> tget t hk = Some x ->
    exists key, isBytes key /\ hk = keyBytesToHex key;
}.

Definition keysOk (m : kvmap) : Prop := map_Forall (fun key _ => isBytes key) m.

Lemma mapOf_sameMap t1 t2 m1 m2 : mapOf t1 m1 -> mapOf t2 m2 -> m1 = m2 -> sameMap false t1 t2.
Proof.
  intros H1 H2 <- hk Hhk. destruct (tget t1 hk) as [x|] eqn:E1.
  - destruct (mapOf_key _ _ H1 _ _ Hhk E1) as (key & Hk & ->).
    by rewrite (mapOf_get _ _ H2), <- (mapOf_get _ _ H1), E1.
  - destruct (tget t2 hk) as [x|] eqn:E2; [|done].
    destruct (mapOf_key _ _ H2 _ _ Hhk E2) as (key & Hk & ->).
    rewrite (mapOf_get _ _ H1) in E1 by done. rewrite (mapOf_get _ _ H2) in E2 by done. congruence.
Qed.

Lemma mapOf_functional t m1 m2 : keysOk m1 -> keysOk m2 -> mapOf t m1 -> mapOf t m2 -> m1 = m2.
Proof.
  intros K1 K2 H1 H2. apply map_eq. intros key.
  destruct (m1 !! key) as [x|] eqn:E1.
  - pose proof (K1 _ _ E1) as Hk. simpl in Hk.
    by rewrite <- (mapOf_get _ _ H2), (mapOf_get _ _ H1).
  - destruct (m2 !! key) as [x|] eqn:E2; [|done]. exfalso.
    pose proof (K2 _ _ E2) as Hk. simpl in Hk.
    rewrite <- (mapOf_get _ _ H1) in E1 by done. rewrite <- (mapOf_get _ _ H2) in E2 by done. congruence.
Qed.

Lemma mapOf_leaf key v ver :
  isBytes key -> mapOf (TLeaf (keyBytesToHex key) v ver) {[key := (v, ver)]}.
Proof.
  intros Hk. split.
  - intros key' Hk'. simpl. destruct (beq _ _) eqn:E; [apply beq_true in E|apply beq_false in E].
    + apply keyBytesToHex_inj in E; [|done..]. subst. by rewrite lookup_singleton_eq.
    + rewrite lookup_singleton_ne; [done|]. by intros ->.
  - intros hk x _. simpl. destruct (beq _ _) eqn:E; [apply beq_true in E|done]. eauto.
Qed.

Lemma mapOf_insert t t' m key v ver :
  isBytes key -> mapOf t m -> isInsert false t (keyBytesToHex key) v ver t' ->
  mapOf t' (<[key := (v, ver)]> m).
Proof.
  intros Hk Hm (_ & _ & Hget). split.
  - intros key' Hk'. rewrite Hget by (by apply khex_keyBytesToHex).
    case_decide as E.
    + apply keyBytesToHex_inj in E; [|done..]. subst. by rewrite lookup_insert_eq.
    + rewrite lookup_insert_ne by (by intros ->). by apply mapOf_get.
  - intros hk x Hhk Hx. rewrite Hget in Hx by done. case_decide; [eauto|]. by eapply mapOf_key.
Qed.

Lemma mapOf_delete t t' m key :
  isBytes key -> mapOf t m -> isDelete false t (keyBytesToHex key) t' ->
  mapOf t' (base.delete key m).
Proof.
  intros Hk Hm (_ & Hget). split.
  - intros key' Hk'. rewrite Hget by (by apply khex_keyBytesToHex).
    case_decide as E.
    + apply keyBytesToHex_inj in E; [|done..]. subst. by rewrite lookup_delete_eq.
    + rewrite lookup_delete_ne by (by intros ->). by apply mapOf_get.
  - intros hk x Hhk Hx. rewrite Hget in Hx by done. case_decide; [done|]. by eapply mapOf_key.
Qed.

Lemma keysOk_insert m key x : keysOk m -> isBytes key -> keysOk (<[key := x]> m).
Proof. intros. by apply map_Forall_insert_2. Qed.

Lemma keysOk_delete m key : keysOk m -> keysOk (base.delete key m).
Proof. intros. by apply map_Forall_delete. Qed.

(** ** Specification of the methods on maps *)

Definition mapUpdate (m : kvmap) (key value : bytes) (ver : Z) : kvmap :=
  if decide (value = []) then base.delete key m
  else if decide (fst <$> m !! key = Some value) then m
  else <[key := (value, ver)]> m.

Section TrieMap.
Context `{C : Codec} {St : Type} `{TS : TrieStorage St}.
Context `{CL : !CodecLaws C} `{SL : !TrieStorageLaws St}.
Notation PMT := (patriciaMerkleTrie St).

Definition trieRep (tr : PMT) (m : kvmap) : Prop :=
  keysOk m /\ maxTrieLevelInMemory tr <> 0 /\
  match root tr with
  | None => m = ∅
  | Some n => exists t, rep (trieStorage tr) n t /\ wf false t /\ mapOf t m
  end.

(** The root hash a map has. *)
Definition rootHashOf (m : kvmap) (h : bytes) : Prop :=
  (m = ∅ /\ h = EmptyTrieHash) \/ exists t, wf false t /\ mapOf t m /\ h = hashL t.

Lemma mapOf_empty t : wf false t -> ~ mapOf t ∅.
Proof.
  intros Hw Hm. destruct (wf_has_key _ _ Hw) as (hk & x & Hhk & Hx).
  destruct (mapOf_key _ _ Hm _ _ Hhk Hx) as (key & Hk & ->).
  rewrite (mapOf_get _ _ Hm) in Hx by done. by rewrite lookup_empty in Hx.
Qed.

Lemma rootHashOf_functional m h1 h2 : rootHashOf m h1 -> rootHashOf m h2 -> h1 = h2.
Proof.
  intros [[-> ->]|(t1 & W1 & M1 & ->)] [[E ->]|(t2 & W2 & M2 & ->)]; subst; try done.
  - by destruct (mapOf_empty _ W2).
  - by destruct (mapOf_empty _ W1).
  - f_equal. eapply wf_canonical; eauto. by eapply mapOf_sameMap.
Qed.

Lemma NewTrie_rep st lvl tr : NewTrie st lvl = inr tr -> trieRep tr ∅ /\ trieStorage tr = st.
Proof.
  unfold NewTrie. destruct (lvl =? 0) eqn:E; intros H; simplify_eq. apply Z.eqb_neq in E.
  split; [|done]. split; [apply map_Forall_empty|]. by split.
Qed.

Lemma Get_rep tr m key :
  trieRep tr m -> isBytes key ->
  exists tr' d, Get tr key = (tr', inr (fst <$> m !! key, d)) /\
    trieRep tr' m /\ trieStorage tr' = trieStorage tr.
Proof.
  intros (Hko & Hlv & Hr) Hk. unfold Get. destruct (root tr) as [n|] eqn:Er.
  - destruct Hr as (t & Hr & Hw & Hm).
    destruct (tryGet_spec (trieStorage tr) (trieFuel (keyBytesToHex key)) n t false
      (keyBytesToHex key) rootDepthLevel Hr Hw (khex_keyBytesToHex _ Hk)) as (n' & d & -> & Hr' & _);
      [unfold trieFuel; lia|].
    rewrite (mapOf_get _ _ Hm _ Hk). eexists _, d. split; [done|]. split; [|done].
    split; [done|]. split; [done|]. simpl. eauto.
  - subst. eexists _, 0. split; [by rewrite lookup_empty|]. split; [|done].
    split; [done|]. split; [done|]. by rewrite Er.
Qed.

Lemma saveOldRoot_fields (tr : PMT) n :
  trieStorage (saveOldRoot tr n) = trieStorage tr /\
  maxTrieLevelInMemory (saveOldRoot tr n) = maxTrieLevelInMemory tr.
Proof. unfold saveOldRoot. by destruct (isDirty n). Qed.

Lemma deleteHex_rep tr m key :
  trieRep tr m -> isBytes key ->
  exists tr', deleteHex tr (keyBytesToHex key) = (tr', inr tt) /\
    trieRep tr' (base.delete key m) /\ trieStorage tr' = trieStorage tr.
Proof.
  intros (Hko & Hlv & Hr) Hk. unfold deleteHex. destruct (root tr) as [n|] eqn:Er.
  - destruct Hr as (t & Hr & Hw & Hm). destruct (saveOldRoot_fields tr n) as [Hst Hl].
    destruct (delete_spec (trieStorage tr) (trieFuel (keyBytesToHex key)) n t false
      (keyBytesToHex key) Hr Hw (khex_keyBytesToHex _ Hk)) as (n' & r & -> & Hcase);
      [unfold trieFuel; lia|].
    destruct Hcase as [(Hg & -> & Hr' & _)|(o & hs & -> & _ & Ho)].
    + eexists. split; [done|]. split; [|done]. split; [by apply keysOk_delete|]. split; [by simpl; rewrite Hl|].
      simpl. rewrite Hst. exists t. split; [done|]. split; [done|].
      rewrite delete_id; [done|]. by rewrite <- (mapOf_get _ _ Hm).
    + eexists. split; [done|]. split; [|done]. split; [by apply keysOk_delete|]. split; [by simpl; rewrite Hl|].
      simpl. rewrite Hst. destruct o as [nn|].
      * destruct Ho as (_ & t' & Hr' & Hdel). exists t'. split; [done|].
        split; [apply Hdel|]. by eapply mapOf_delete.
      * destruct Ho as (v & ver & ->).
        rewrite (mapOf_functional _ _ _ Hko (keysOk_insert ∅ _ (v, ver) (map_Forall_empty _) Hk)
          Hm (mapOf_leaf _ _ _ Hk)). by rewrite delete_insert_id.
  - subst. eexists. split; [done|]. split; [|done]. rewrite delete_empty.
    split; [done|]. split; [done|]. by rewrite Er.
Qed.

Lemma update_rep tr m key value ver :
  trieRep tr m -> isBytes key -> 0 <= ver <= MaxUint8 ->
  exists tr', update tr key value ver = (tr', inr tt) /\
    trieRep tr' (mapUpdate m key value ver) /\ trieStorage tr' = trieStorage tr.
Proof.
  intros Hrep Hk Hver. unfold update, mapUpdate.
  destruct (decide (value = [])) as [->|Hv]; [by apply deleteHex_rep|].
  rewrite (proj2 (Z.eqb_neq (blen value) 0)) by (by rewrite blen_0).
  change (negb false) with true. cbv iota.
  destruct Hrep as (Hko & Hlv & Hr). destruct (root tr) as [n|] eqn:Er.
  - destruct Hr as (t & Hr & Hw & Hm). destruct (saveOldRoot_fields tr n) as [Hst Hl].
    destruct (insert_spec (trieStorage tr) (trieFuel (keyBytesToHex key)) n t false
      (keyBytesToHex key) value ver Hr Hw (khex_keyBytesToHex _ Hk) Hv Hver) as (n' & r & -> & Hcase);
      [unfold trieFuel; lia|].
    rewrite (mapOf_get _ _ Hm _ Hk) in Hcase.
    destruct Hcase as [(Hg & -> & Hr' & _)|(Hg & n'' & t' & hs & -> & Hr' & Hins)].
    + rewrite decide_True by done. eexists. split; [done|]. split; [|done].
      split; [done|]. split; [by simpl; rewrite Hl|]. simpl. rewrite Hst. eauto.
    + rewrite decide_False by done. eexists. split; [done|]. split; [|done].
      split; [by apply keysOk_insert|]. split; [by simpl; rewrite Hl|]. simpl. rewrite Hst.
      exists t'. split; [done|]. split; [apply Hins|]. by eapply mapOf_insert.
  - subst. rewrite lookup_empty, decide_False by done. eexists. split; [done|]. split; [|done].
    split; [by apply keysOk_insert|]. split; [done|]. simpl.
    exists (TLeaf (keyBytesToHex key) value ver). split; [by apply rep_newLeaf|].
    split; [by apply wf_leaf; [apply khex_keyBytesToHex|..]|].
    rewrite insert_empty. by apply mapOf_leaf.
Qed.

Lemma getRootHash_rep tr m :
  trieRep tr m ->
  exists tr' h, getRootHash tr = (tr', inr (Some h)) /\ rootHashOf m h /\
    trieRep tr' m /\ trieStorage tr' = trieStorage tr.
Proof.
  intros (Hko & Hlv & Hr). unfold getRootHash. destruct (root tr) as [n|] eqn:Er.
  - destruct Hr as (t & Hr & Hw & Hm).
    destruct (hashed_cases (baseOf n)) as [Hh|Hh].
    + rewrite (rep_getHash _ _ _ Hr Hh). eexists _, _. split; [done|].
      split; [right; eauto|]. split; [|done]. split; [done|]. split; [done|]. rewrite Er. eauto.
    + unfold getHash at 1. rewrite Hh.
      destruct (setRootHash_spec _ _ _ _ Hr Hw) as (n' & -> & Hr' & Hg & _). rewrite Hg.
      eexists _, _. split; [done|]. split; [right; eauto|]. split; [|done].
      split; [done|]. split; [done|]. simpl. eauto.
  - subst. eexists _, _. split; [done|]. split; [by left|]. split; [|done].
    split; [done|]. split; [done|]. by rewrite Er.
Qed.

(** ** Commit and recreate *)

(** No collision between the nodes of the trie of [m] and the storage. *)
Definition mapNoCollision (m : kvmap) (st : St) : Prop :=
  forall t, wf false t -> mapOf t m -> NoCollision t st.

(** The storage has all the nodes of the trie of [m]. *)
Definition mapStored (m : kvmap) (st : St) : Prop :=
  forall t, wf false t -> mapOf t m -> stored st t.

Lemma mapStored_intro t m st : wf false t -> mapOf t m -> stored st t -> mapStored m st.
Proof.
  intros Hw Hm Hs t' Hw' Hm'. assert (t' = t) as ->; [|done].
  eapply wf_canonical; eauto. by eapply mapOf_sameMap.
Qed.

Lemma Commit_rep tr m :
  trieRep tr m -> mapNoCollision m (trieStorage tr) ->
  exists tr', Commit tr = (tr', inr tt) /\ trieRep tr' m /\ mapStored m (trieStorage tr') /\
    match root tr' with None => True | Some n => isDirty n = false end /\
    (trieStorage tr' = trieStorage tr \/
     exists t, wf false t /\ mapOf t m /\ grows t (trieStorage tr) (trieStorage tr')).
Proof.
  intros (Hko & Hlv & Hr) Hnc. unfold Commit. destruct (root tr) as [n|] eqn:Er.
  - destruct Hr as (t & Hr & Hw & Hm). destruct (isDirty n) eqn:Hd; simpl.
    + destruct (setRootHash_spec _ _ _ _ Hr Hw) as (n1 & -> & Hr1 & Hg & _).
      destruct (commitDirty_spec t false t n1 (trieStorage tr) 0 (maxTrieLevelInMemory tr) Hr1 Hw
        ltac:(constructor) (Hnc _ Hw Hm)) as (n2 & st' & -> & Hr2 & Hd2 & Hgr).
      eexists. split; [done|]. split; [|split; [|split; [done|right; eauto]]].
      * split; [done|]. split; [done|]. simpl. eauto.
      * eapply mapStored_intro; eauto. by apply (proj2 (rep_hashOk _ _ _ Hr2)).
    + eexists. split; [done|]. split; [|split; [|split; [by rewrite Er|by left]]].
      * split; [done|]. split; [done|]. rewrite Er. eauto.
      * eapply mapStored_intro; eauto. by apply (proj2 (rep_hashOk _ _ _ Hr)).
  - subst. eexists. split; [done|]. split; [|split; [|split; [by rewrite Er|by left]]].
    + split; [done|]. split; [done|]. by rewrite Er.
    + intros t Hw Hm. by destruct (mapOf_empty _ Hw).
Qed.

Lemma recreate_rep tr m h st :
  maxTrieLevelInMemory tr <> 0 -> keysOk m -> mapStored m st -> rootHashOf m h ->
  (m <> ∅ -> h <> EmptyTrieHash) -> (m = ∅ -> st = trieStorage tr) ->
  exists tr', recreate tr h st = inr tr' /\ trieRep tr' m /\ trieStorage tr' = st.
Proof.
  intros Hlv Hko Hst Hh Hne Hemp. unfold recreate, recreateFromDb, NewTrie.
  rewrite (proj2 (Z.eqb_neq _ 0)) by done. destruct Hh as [[-> ->]|(t & Hw & Hm & ->)].
  - change (IsEmptyTrie EmptyTrieHash) with true. cbv iota. rewrite <- Hemp by done.
    eexists. split; [done|]. split; [|done]. split; [done|]. by split.
  - assert (Hm0 : m <> ∅) by (intros ->; by eapply mapOf_empty).
    assert (IsEmptyTrie (hashL t) = false) as ->.
    { unfold IsEmptyTrie. rewrite hashL_blen. apply beq_false. auto. }
    destruct (decode_stored _ _ _ (Hst _ Hw Hm) Hw) as (n & Hn & Hr). simpl. rewrite Hn. simpl.
    eexists. split; [done|]. split; [|done]. split; [done|]. split; [done|]. simpl. eauto.
Qed.
End TrieMap.
