(* ===== verification/TrieExample.v ===== *)
(** * A concrete marshaller, hasher and trie, on which the theorems about the trie
    are evaluated.

    The marshaller writes the lengths of the byte strings before them; the hash
    is injective, never empty and never the hash of the empty trie. *)

From stdpp Require Import base list gmap.
From Stdlib Require Import ZArith Lia.
From S2P Require Import Prelude TrieNode TrieOps PatriciaMerkleTrie.

Module TrieEx.

Definition putBs (b : bytes) : bytes := blen b :: b.
Definition putBss (l : list bytes) : bytes := blen (map blen l) :: flat_map putBs l.

Definition getBs (l : bytes) : option (bytes * bytes) :=
  match l with
  | [] => None
  | n :: r => if n <=? blen r then Some (take (Z.to_nat n) r, drop (Z.to_nat n) r) else None
  end.

Fixpoint getMany (n : nat) (l : bytes) : option (list bytes * bytes) :=
  match n with
  | O => Some ([], l)
  | S n' =>
      '(b, r) ← getBs l;
      '(bs, r') ← getMany n' r;
      Some (b :: bs, r')
  end.

Definition getBss (l : bytes) : option (list bytes * bytes) :=
  match l with
  | [] => None
  | n :: r => getMany (Z.to_nat n) r
  end.

Definition exMarshal (c : cnode) : option bytes :=
  Some (match c with
        | CollapsedBn encs vers => putBss encs ++ putBs vers
        | CollapsedEn k enc v => putBs k ++ putBs enc ++ [v]
        | CollapsedLn k v ver => putBs k ++ putBs (default [] v) ++ [ver]
        end).

Definition exCodec : Codec := {|
  marshal := exMarshal;
  unmarshalBn b :=
    '(encs, r) ← getBss b;
    '(vers, r') ← getBs r;
    match r' with [] => Some (encs, vers) | _ => None end;
  unmarshalEn b :=
    '(k, r) ← getBs b;
    '(enc, r') ← getBs r;
    match r' with [v] => Some (k, enc, v) | _ => None end;
  unmarshalLn b :=
    '(k, r) ← getBs b;
    '(v, r') ← getBs r;
    match r' with
    | [ver] => Some (k, match v with [] => None | _ => Some v end, ver)
    | _ => None
    end;
  compute x := 1 :: x;
|}.

Lemma getBs_put b r : getBs (putBs b ++ r) = Some (b, r).
Proof.
  simpl. rewrite (proj2 (Z.leb_le _ _)) by (unfold blen; rewrite length_app; lia).
  unfold blen. rewrite Nat2Z.id. by rewrite take_app_length, drop_app_length.
Qed.

Lemma getMany_put l r : getMany (length l) (flat_map putBs l ++ r) = Some (l, r).
Proof.
  induction l as [|b l IH]; [done|]. cbn [length getMany flat_map].
  rewrite <- app_assoc, getBs_put. simpl. by rewrite IH.
Qed.

Lemma getBss_put l r : getBss (putBss l ++ r) = Some (l, r).
Proof.
  unfold getBss, putBss. simpl. unfold blen. rewrite Nat2Z.id, length_map. apply getMany_put.
Qed.

Lemma exCodecLaws : CodecLaws exCodec.
Proof.
  split.
  - by eexists.
  - intros encs vers b H. assert (b = putBss encs ++ putBs vers) as -> by (by injection H). cbn [unmarshalBn exCodec]. rewrite getBss_put. cbn [mbind option_bind].
    rewrite <- (app_nil_r (putBs vers)), getBs_put. done.
  - intros k enc v b H. assert (b = putBs k ++ putBs enc ++ [v]) as -> by (by injection H). cbn [unmarshalEn exCodec].
    rewrite getBs_put. cbn [mbind option_bind]. by rewrite getBs_put.
  - intros k v ver b Hv H. assert (b = putBs k ++ putBs v ++ [ver]) as -> by (by injection H). cbn [unmarshalLn exCodec default].
    rewrite getBs_put. cbn [mbind option_bind]. rewrite getBs_put. simpl. by destruct v.
  - done.
Qed.

(** ** A trie with three keys

    Two of the keys share the nibbles of their last byte, and one of these ends
    where the other goes on. *)
Definition exStorage : gmap bytes bytes := ∅.

Definition emptyTrie : patriciaMerkleTrie (gmap bytes bytes) := mkTrie None exStorage [] (Some []) 5.

Definition kDog : bytes := [100; 111; 103].
Definition kFog : bytes := [102; 111; 103].
Definition kCat : bytes := [99; 97; 116].
End TrieEx.
