(* ===== verification/TrieRun.v ===== *)
(** * Runs of the trie: any sequence of calls behaves as on a map. *)

From stdpp Require Import base list gmap.
From Stdlib Require Import ZArith Lia.
From S2P Require Import Prelude TrieNode TrieOps TrieSpec TrieRep TrieRefine TrieDelete TrieHash.
From S2P Require Import TrieHash TrieProof PatriciaMerkleTrie TrieMap.

(** The hash function has no collisions and does not give the hash of the empty
    trie: the idealization under which a Merkle trie is an authenticated map. *)
Class CollisionFree (C : Codec) : Prop := {
  compute_inj : forall x y, compute x = compute y -> x = y;
  compute_notEmptyTrie : forall x, compute x <> EmptyTrieHash;
}.

Inductive trieOp :=
| OpGet (key : bytes)
| OpUpdate (key value : bytes) (version : Z)
| OpDelete (key : bytes)
| OpRootHash
| OpCommit
| OpReload.

Inductive trieOut :=
| OutDone
| OutValue (v : slice)
| OutHash (h : slice).

Definition okOp (op : trieOp) : Prop :=
  match op with
  | OpGet key | OpDelete key => isBytes key
  | OpUpdate key _ ver => isBytes key /\ 0 <= ver <= MaxUint8
  | _ => True
  end.

(** What the operation does to the map. *)
Definition mapStep (m : kvmap) (op : trieOp) : kvmap :=
  match op with
  | OpUpdate key value ver => mapUpdate m key value ver
  | OpDelete key => base.delete key m
  | _ => m
  end.

Section Run.
Context `{C : Codec} {St : Type} `{TS : TrieStorage St}.
Context `{CL : !CodecLaws C} `{SL : !TrieStorageLaws St} `{CF : !CollisionFree C}.
Notation PMT := (patriciaMerkleTrie St).

(** OpReload saves the trie, and goes on with the one recreated from its root
    hash, as a node does when it restarts. *)
Definition stepTrie (tr : PMT) (op : trieOp) : PMT * (trieErr + trieOut) :=
  match op with
  | OpGet key =>
      let (tr', r) := Get tr key in (tr', let? (v, _) := r in inr (OutValue v))
  | OpUpdate key value ver =>
      let (tr', r) := UpdateWithVersion tr key value ver in (tr', let? _ := r in inr OutDone)
  | OpDelete key => let (tr', r) := Delete tr key in (tr', let? _ := r in inr OutDone)
  | OpRootHash => let (tr', r) := RootHash tr in (tr', let? h := r in inr (OutHash h))
  | OpCommit => let (tr', r) := Commit tr in (tr', let? _ := r in inr OutDone)
  | OpReload =>
      match Commit tr with
      | (tr1, inl e) => (tr1, inl e)
      | (tr1, inr _) =>
          match RootHash tr1 with
          | (tr2, inl e) => (tr2, inl e)
          | (tr2, inr h) =>
              match recreate tr2 (default [] h) (trieStorage tr2) with
              | inl e => (tr2, inl e)
              | inr tr3 => (tr3, inr OutDone)
              end
          end
      end
  end.

Fixpoint runTrie (tr : PMT) (ops : list trieOp) : PMT * (trieErr + list trieOut) :=
  match ops with
  | [] => (tr, inr [])
  | op :: ops' =>
      match stepTrie tr op with
      | (tr', inl e) => (tr', inl e)
      | (tr', inr o) =>
          let (tr'', r) := runTrie tr' ops' in (tr'', let? os := r in inr (o :: os))
      end
  end.

(** The output an operation has on a map. *)
Definition outOk (m : kvmap) (op : trieOp) (out : trieOut) : Prop :=
  match op with
  | OpGet key => out = OutValue (fst <$> m !! key)
  | OpRootHash => exists h, out = OutHash (Some h) /\ rootHashOf m h
  | _ => out = OutDone
  end.

Fixpoint outsOk (m : kvmap) (ops : list trieOp) (outs : list trieOut) : Prop :=
  match ops, outs with
  | [], [] => True
  | op :: ops', out :: outs' => outOk m op out /\ outsOk (mapStep m op) ops' outs'
  | _, _ => False
  end.

(** The storage maps hashes to what they are the hash of. *)
Definition hashKeyed (st : St) : Prop := forall k v, sGet st k = Some v -> k = compute v.

Definition trieInv (tr : PMT) (m : kvmap) : Prop := trieRep tr m /\ hashKeyed (trieStorage tr).

Lemma hashKeyed_NoCollision st m : hashKeyed st -> mapNoCollision m st.
Proof.
  intros H t _ _. split.
  - intros s v _ Hg. apply H in Hg. rewrite hashL_encL in Hg. symmetry. by apply compute_inj.
  - intros s1 s2 _ _ E. rewrite !hashL_encL in E. by apply compute_inj.
Qed.

Lemma grows_hashKeyed T st st' : grows T st st' -> hashKeyed st -> hashKeyed st'.
Proof.
  intros [_ G] H k v Hk. destruct (G _ _ Hk) as [?|(s & _ & -> & ->)]; [auto|apply hashL_encL].
Qed.

Lemma rootHashOf_notEmpty m h : rootHashOf m h -> m <> ∅ -> h <> EmptyTrieHash.
Proof.
  intros [[-> _]|(t & _ & _ & ->)] Hne; [done|]. rewrite hashL_encL. apply compute_notEmptyTrie.
Qed.

Lemma Commit_inv tr m :
  trieInv tr m -> exists tr', Commit tr = (tr', inr tt) /\ trieInv tr' m /\ mapStored m (trieStorage tr').
Proof.
  intros [Hr Hk]. destruct (Commit_rep tr m Hr (hashKeyed_NoCollision _ _ Hk))
    as (tr' & Hc & Hr' & Hst & _ & Hg).
  exists tr'. split; [done|]. split; [|done]. split; [done|].
  destruct Hg as [->|(t & _ & _ & Hg)]; [done|]. by eapply grows_hashKeyed.
Qed.

Lemma stepTrie_inv tr m op :
  trieInv tr m -> okOp op ->
  exists tr' out, stepTrie tr op = (tr', inr out) /\ trieInv tr' (mapStep m op) /\ outOk m op out.
Proof.
  intros [Hr Hk] Hop. destruct op as [key|key value ver|key| | |]; simpl in *.
  - destruct (Get_rep tr m key Hr Hop) as (tr' & d & -> & Hr' & Hs).
    eexists _, _. split; [done|]. split; [|done]. split; [done|]. by rewrite Hs.
  - destruct (update_rep tr m key value ver Hr) as (tr' & Hu & Hr' & Hs); [apply Hop..|].
    unfold UpdateWithVersion. rewrite Hu.
    eexists _, _. split; [done|]. split; [|done]. split; [done|]. by rewrite Hs.
  - unfold Delete. destruct (deleteHex_rep tr m key Hr Hop) as (tr' & -> & Hr' & Hs).
    eexists _, _. split; [done|]. split; [|done]. split; [done|]. by rewrite Hs.
  - unfold RootHash. destruct (getRootHash_rep tr m Hr) as (tr' & h & -> & Hh & Hr' & Hs).
    eexists _, _. split; [done|]. split; [|eauto]. split; [done|]. by rewrite Hs.
  - destruct (Commit_inv tr m) as (tr' & -> & Hi & _); [done|]. eauto.
  - destruct (Commit_inv tr m) as (tr1 & -> & [Hr1 Hk1] & Hst); [done|]. unfold RootHash.
    destruct (getRootHash_rep tr1 m Hr1) as (tr2 & h & -> & Hh & (Hko & Hlv & _) & Hs). simpl.
    destruct (recreate_rep tr2 m h (trieStorage tr2)) as (tr3 & -> & Hr3 & Hs3); auto.
    + by rewrite Hs.
    + by eapply rootHashOf_notEmpty.
    + eexists _, _. split; [done|]. split; [|done]. split; [done|]. by rewrite Hs3, Hs.
Qed.

Lemma runTrie_inv tr m ops :
  trieInv tr m -> Forall okOp ops ->
  exists tr' outs, runTrie tr ops = (tr', inr outs) /\
    trieInv tr' (fold_left mapStep ops m) /\ outsOk m ops outs.
Proof.
  intros Hi Hops. revert tr m Hi. induction Hops as [|op ops Hop _ IH]; intros tr m Hi.
  - exists tr, []. done.
  - destruct (stepTrie_inv tr m op Hi Hop) as (tr1 & out & Hs & Hi1 & Ho).
    destruct (IH _ _ Hi1) as (tr2 & outs & Hr & Hi2 & Hos).
    simpl. rewrite Hs, Hr. simpl. eexists _, _. split; [done|]. split; [done|]. by split.
Qed.
End Run.
