(* ===== verification/TrieTheorems.v ===== *)
(** * The theorems about the Patricia-Merkle trie, with their instances on the
    concrete codec of [TrieExample]. *)

From stdpp Require Import base list gmap.
From Stdlib Require Import ZArith Lia.
From S2P Require Import Prelude TrieNode TrieOps TrieSpec TrieRep TrieRefine TrieDelete TrieHash.
From S2P Require Import TrieHash TrieProof PatriciaMerkleTrie TrieMap TrieRun TrieExample.

(** ** Helper facts *)

(** A key the verifier accepts has the length of a key of the trie. *)
Lemma tgetLoose_key e t key x :
  wf e t -> tgetLoose t key = Some x ->
  exists key', khex e key' /\ tget t key' = Some x /\ length key' = length key.
Proof.
  revert e key. induction t as [k v ver|k c IH|ts IH] using trie_ind'; intros e key Hwf Hx.
  - simpl in Hx. destruct (beq key k) eqn:E; [|done]. apply beq_true in E. subst.
    exists k. split; [apply Hwf|]. split; [|done]. simpl. by rewrite beq_refl.
  - destruct Hwf as (-> & Hne & Hk & Hbr & Hc). simpl in Hx.
    destruct (IH _ _ Hc Hx) as (key' & H1 & H2 & H3). exists (k ++ key').
    split; [by apply khex_app|]. split; [by rewrite tget_ext_app|].
    rewrite length_app, H3, length_drop.
    destruct (decide (length k <= length key)%nat) as [|Hlt]; [lia|].
    rewrite drop_ge in Hx by lia. by destruct c.
  - destruct key as [|p key]; [done|]. rewrite tgetLoose_branch in Hx.
    destruct (ts !! Z.to_nat p) as [[c|]|] eqn:Ep; try done.
    pose proof Hwf as Hwf'. rewrite wf_branch in Hwf'. destruct Hwf' as (-> & Hlen & _ & Hcs).
    rewrite Forall_forall in IH.
    destruct (IH (Some c) (list_elem_of_lookup_2 _ _ _ Ep) _ key (Hcs _ _ Ep) Hx)
      as (key' & H1 & H2 & H3).
    exists (Z.of_nat (Z.to_nat p) :: key'). split; [|split].
    + pose proof (lookup_lt_Some _ _ _ Ep) as Hlt. rewrite Hlen in Hlt.
      split; [done|]. split; [unfold nrOfChildren, hexTerminator in *; lia|done].
    + by rewrite tget_branch, Nat2Z.id, Ep.
    + simpl. by rewrite H3.
Qed.

Lemma length_keyBytesToHex key : length (keyBytesToHex key) = (2 * length key + 1)%nat.
Proof. rewrite keyBytesToHex_eq, length_app, length_flat, length_rev. simpl. lia. Qed.

Lemma hexRange key : isBytes key -> Forall (fun n => 0 <= n <= hexTerminator) (keyBytesToHex key).
Proof.
  intros H. rewrite keyBytesToHex_eq. apply Forall_app. split.
  - eapply Forall_impl; [by apply nibbles_flat, isBytes_rev|]. simpl. intros. lia.
  - apply Forall_singleton. unfold hexTerminator. lia.
Qed.

Section Theorems.
Context `{C : Codec} {St : Type} `{TS : TrieStorage St}.
Context `{CL : !CodecLaws C} `{SL : !TrieStorageLaws St}.
Notation PMT := (patriciaMerkleTrie St).

(** C1: A new trie over a storage keyed by hashes, on which any sequence of
    Get, UpdateWithVersion, Delete, RootHash, Commit and reloads from the
    storage is run, never fails, and answers as a key/value map does: a Get
    gives the value last written, a RootHash the hash of the map. *)
Theorem trie_refines_map `{CF : !CollisionFree C} (st : St) (lvl : Z) (tr : PMT) (ops : list trieOp) :
  NewTrie st lvl = inr tr -> hashKeyed st -> Forall okOp ops ->
  exists tr' outs, runTrie tr ops = (tr', inr outs) /\ outsOk ∅ ops outs /\
    trieInv tr' (fold_left mapStep ops ∅).
Proof.
  intros [Hr Hs]%NewTrie_rep Hk Hops.
  destruct (runTrie_inv tr ∅ ops) as (tr' & outs & H1 & H2 & H3); [|done|by eauto].
  split; [done|]. by rewrite Hs.
Qed.

(** C20: The root hash only depends on the map: two tries that stand for the same
    key/value map, whatever the operations that built them and the nodes they
    have in memory, have the same root hash. *)
Theorem RootHash_canonical (tr1 tr2 : PMT) (m : kvmap) :
  trieRep tr1 m -> trieRep tr2 m ->
  exists tr1' tr2' h, RootHash tr1 = (tr1', inr (Some h)) /\ RootHash tr2 = (tr2', inr (Some h)).
Proof.
  intros H1 H2. unfold RootHash.
  destruct (getRootHash_rep _ _ H1) as (tr1' & h1 & -> & R1 & _).
  destruct (getRootHash_rep _ _ H2) as (tr2' & h2 & -> & R2 & _).
  rewrite (rootHashOf_functional _ _ _ R1 R2). eauto.
Qed.

(** C21: The root hash binds the map: two nonempty tries with the same root hash
    stand for the same map, unless two of their nodes collide. *)
Theorem RootHash_binding (tr1 tr2 tr1' tr2' : PMT) (m1 m2 : kvmap) (h : slice) :
  trieRep tr1 m1 -> trieRep tr2 m2 -> m1 <> ∅ -> m2 <> ∅ ->
  (forall t1 t2 s1 s2, wf false t1 -> mapOf t1 m1 -> wf false t2 -> mapOf t2 m2 ->
     sub s1 t1 -> sub s2 t2 -> hashL s1 = hashL s2 -> encL s1 = encL s2) ->
  RootHash tr1 = (tr1', inr h) -> RootHash tr2 = (tr2', inr h) -> m1 = m2.
Proof.
  intros H1 H2 N1 N2 Hnc. unfold RootHash.
  destruct (getRootHash_rep _ _ H1) as (? & h1 & -> & R1 & _).
  destruct (getRootHash_rep _ _ H2) as (? & h2 & -> & R2 & _). intros E1 E2. simplify_eq.
  destruct R1 as [[-> _]|(t1 & W1 & M1 & ->)]; [done|].
  destruct R2 as [[-> _]|(t2 & W2 & M2 & E)]; [done|].
  assert (t1 = t2) as -> by (eapply hashL_binding; eauto).
  eapply mapOf_functional; eauto; [apply H1|apply H2].
Qed.

(** C22: Commit saves the whole trie: it succeeds, the trie stands for the same
    map and is clean, nothing stored before is lost, and the trie recreated from
    the root hash over the new storage stands for the same map. *)
Theorem Commit_recreate (tr : PMT) (m : kvmap) :
  trieRep tr m -> m <> ∅ -> mapNoCollision m (trieStorage tr) ->
  exists tr' tr'' h, Commit tr = (tr', inr tt) /\ trieRep tr' m /\
    extends (trieStorage tr) (trieStorage tr') /\
    RootHash tr' = (tr'', inr (Some h)) /\
    (h <> EmptyTrieHash ->
       exists trNew, recreate tr'' h (trieStorage tr') = inr trNew /\ trieRep trNew m).
Proof.
  intros Hr Hne Hnc.
  destruct (Commit_rep _ _ Hr Hnc) as (tr' & Hc & Hr' & Hst & _ & Hg).
  unfold RootHash. destruct (getRootHash_rep _ _ Hr') as (tr'' & h & Hh & Ho & Hr'' & Hs).
  exists tr', tr'', h. split; [done|]. split; [done|]. split.
  { destruct Hg as [->|(t & _ & _ & Hg)]; [by intros k v|apply Hg]. }
  split; [done|]. intros Hh0.
  destruct (recreate_rep tr'' m h (trieStorage tr')) as (trNew & Hrec & Hrn & _); eauto.
  - apply Hr''.
  - apply Hr.
Qed.

(** C23: The proof GetProof gives for a key of the trie has the value of the key
    and is accepted by VerifyProof against the root hash, when the hash of a
    key is at least as long as the key (keys are 32-byte hashes or addresses). *)
Theorem GetProof_complete (tr : PMT) (m : kvmap) (key v : bytes) (ver : Z) :
  trieRep tr m -> isBytes key -> m !! key = Some (v, ver) ->
  isBytes (compute key) -> (length key <= length (compute key))%nat ->
  exists tr' tr'' h proof, GetProof tr key = (tr', inr (proof, Some v)) /\
    RootHash tr' = (tr'', inr (Some h)) /\ trieRep tr' m /\
    VerifyProof h key (map Some proof) = inr true.
Proof.
  intros (Hko & Hlv & Hr) Hk Hm Hb Hl. unfold GetProof, RootHash.
  destruct (root tr) as [n|] eqn:Er; [|by subst].
  destruct Hr as (t & Hr & Hw & Hmo).
  destruct (setRootHash_spec _ _ _ _ Hr Hw) as (n1 & -> & Hr1 & Hg & _).
  pose proof (khex_keyBytesToHex _ Hk) as Hhk.
  destruct (proofLoop_spec (trieStorage tr) (trieFuel (keyBytesToHex key)) n1 t false
    (keyBytesToHex key) Hr1 Hw Hhk (getHash_hashed _ _ Hg)) as (n2 & -> & Hr2 & Hb2);
    [unfold trieFuel; lia|].
  assert (Hget : tget t (keyBytesToHex key) = Some (v, ver))
    by (by rewrite (mapOf_get _ _ Hmo)).
  rewrite Hget.
  assert (Hg2 : getHash n2 = Some (hashL t)).
  { apply (rep_getHash _ _ _ Hr2). rewrite Hb2. by eapply getHash_hashed. }
  eexists _, _, _, _. split; [done|]. split; [unfold getRootHash; simpl; by rewrite Hg2|].
  split; [split; [done|split; [done|]]; simpl; eauto|].
  unfold VerifyProof, verifyProof.
  destruct (verifyLoop_noError false t (keyBytesToHex key) (keyBytesToHex (compute key)) _ Hw Hhk Hget
    (hexRange _ Hb)) as [ok ->]; [rewrite !length_keyBytesToHex; lia|].
  simpl. destruct ok; [done|]. by eapply verifyLoop_complete.
Qed.

(** GetProof of a key that is not in the trie fails with ErrNodeNotFound,
    and with ErrNilNode on the empty trie; the trie stands for the same map. *)
Theorem GetProof_absent (tr : PMT) (m : kvmap) (key : bytes) :
  trieRep tr m -> isBytes key -> m !! key = None ->
  exists tr', GetProof tr key = (tr', inl (if decide (m = ∅) then ErrNilNode else ErrNodeNotFound)) /\
    trieRep tr' m.
Proof.
  intros Hrep Hk Hm. pose proof Hrep as (Hko & Hlv & Hr). unfold GetProof.
  destruct (root tr) as [n|] eqn:Er; [|subst; by eexists].
  destruct Hr as (t & Hr & Hw & Hmo).
  destruct (setRootHash_spec _ _ _ _ Hr Hw) as (n1 & -> & Hr1 & Hg & _).
  destruct (proofLoop_spec (trieStorage tr) (trieFuel (keyBytesToHex key)) n1 t false
    (keyBytesToHex key) Hr1 Hw (khex_keyBytesToHex _ Hk) (getHash_hashed _ _ Hg))
    as (n2 & -> & Hr2 & _); [unfold trieFuel; lia|].
  rewrite (mapOf_get _ _ Hmo _ Hk), Hm.
  rewrite decide_False by (intros ->; by eapply mapOf_empty).
  eexists. split; [done|]. split; [done|]. split; [done|]. simpl. eauto.
Qed.

(** What an accepted proof shows. If no element of the proof collides with a
    node of the trie, the key follows the branches and the leaf of the trie
    (the key parts of the extensions are not compared), so the trie has a key
    of the same length. *)
Theorem verifyProof_sound (t : trie) (m : kvmap) (key : bytes) (proof : list slice) :
  wf false t -> mapOf t m -> proofNoCollision t proof ->
  verifyProof (hashL t) key proof = inr true ->
  (exists x, tgetLoose t (keyBytesToHex key) = Some x) /\
  exists key' x, m !! key' = Some x /\ length key' = length key.
Proof.
  intros Hw Hm Hnc Hv. destruct (verifyLoop_sound _ _ _ _ Hw Hnc Hv) as [x Hx].
  split; [by exists x|]. destruct (tgetLoose_key _ _ _ _ Hw Hx) as (hk & H1 & H2 & H3).
  destruct (mapOf_key _ _ Hm _ _ H1 H2) as (key' & Hk & ->).
  exists key', x. rewrite <- (mapOf_get _ _ Hm _ Hk). split; [done|].
  rewrite !length_keyBytesToHex in H3. lia.
Qed.
End Theorems.

(** A hex key built by keyBytesToHex is a nibble sequence with the terminator
    at its end only, and hexToTrieKeyBytes gives the key back. *)
Theorem keyBytesToHex_roundtrip (key : bytes) :
  isBytes key ->
  hexToTrieKeyBytes (keyBytesToHex key) = inr key /\ khex false (keyBytesToHex key).
Proof. intros H. split; [by apply hex_roundtrip|by apply khex_keyBytesToHex]. Qed.

(** ** A key that is not in the trie, with an accepted proof *)

Section WrongKey.
Import TrieEx.
#[local] Existing Instance exCodec.

Definition wrongKeyTrie : patriciaMerkleTrie (gmap bytes bytes) :=
  fst (runTrie emptyTrie [OpUpdate kDog [1; 2] 0; OpUpdate kFog [3] 1]).
Definition kDoh : bytes := [100; 111; 104].

(** extensionNode.getNextHashAndKey does not compare the key part of the
    extension with the key: VerifyProof accepts, against the root hash of a trie,
    the proof of the key "dog" as a proof of the key "doh", which is not in the
    trie (its Get gives no value). *)
Theorem VerifyProof_wrong_key :
  exists tr1 tr2 h proof v,
    GetProof wrongKeyTrie kDog = (tr1, inr (proof, Some v)) /\
    RootHash tr1 = (tr2, inr (Some h)) /\
    VerifyProof h kDoh (map Some proof) = inr true /\
    snd (Get wrongKeyTrie kDoh) = inr (None, 0) /\ kDoh <> kDog.
Proof.
  pose (tr1 := fst (GetProof wrongKeyTrie kDog)). pose (tr2 := fst (RootHash tr1)).
  exists tr1, tr2, (match snd (RootHash tr1) with inr (Some h) => h | _ => [] end),
    (match snd (GetProof wrongKeyTrie kDog) with inr (p, _) => p | _ => [] end), [1; 2].
  subst tr1 tr2. split; [by vm_compute|]. split; [by vm_compute|].
  split; [by vm_compute|]. split; [by vm_compute|]. done.
Qed.
End WrongKey.

(** ** Instances *)

Module TrieInstances.
Import TrieEx.

#[local] Existing Instance exCodec.
#[local] Existing Instance exCodecLaws.

#[local] Instance exCollisionFree : CollisionFree exCodec.
Proof. split; [intros x y E; by injection E|done]. Qed.

Definition exOps : list trieOp :=
  [OpUpdate kDog [1; 2] 0; OpUpdate kFog [3] 1; OpUpdate kCat [4] 0; OpGet kDog; OpRootHash;
   OpReload; OpDelete kFog; OpGet kFog; OpUpdate kFog [5] 0; OpCommit; OpRootHash].

Lemma exKeys : isBytes kDog /\ isBytes kFog /\ isBytes kCat.
Proof. split; [|split]; forall_bounds. Qed.

Lemma exOps_ok : Forall okOp exOps.
Proof.
  destruct exKeys as (H1 & H2 & H3).
  repeat constructor; try done; unfold isByte, MaxUint8; lia.
Qed.

Lemma exStorage_keyed : hashKeyed exStorage.
Proof. intros k v H. unfold exStorage in H. simpl in H. by rewrite lookup_empty in H. Qed.

(** The trie after the first three updates, and the map it stands for. *)
Definition exTrie : patriciaMerkleTrie (gmap bytes bytes) := fst (runTrie emptyTrie (take 3 exOps)).
Definition exMap : kvmap := fold_left mapStep (take 3 exOps) ∅.

(** The same keys written in another order, with a key more that is deleted. *)
Definition exTrie2 : patriciaMerkleTrie (gmap bytes bytes) :=
  fst (runTrie emptyTrie [OpUpdate kCat [4] 0; OpUpdate kFog [3] 1; OpUpdate kDoh [7] 0;
         OpCommit; OpUpdate kDog [1; 2] 0; OpDelete kDoh]).

Lemma run_rep ops :
  Forall okOp ops -> trieRep (fst (runTrie emptyTrie ops)) (fold_left mapStep ops ∅).
Proof.
  intros H. destruct (NewTrie_rep (C:=exCodec) exStorage 5 emptyTrie eq_refl) as [Hr _].
  destruct (runTrie_inv emptyTrie ∅ ops (conj Hr exStorage_keyed) H) as (tr & outs & -> & [Hi _] & _).
  exact Hi.
Qed.

Lemma exTrie_rep : trieRep exTrie exMap.
Proof. apply run_rep, Forall_take, exOps_ok. Qed.

Lemma exTrie2_rep : trieRep exTrie2 exMap.
Proof.
  replace exMap with (fold_left mapStep [OpUpdate kCat [4] 0; OpUpdate kFog [3] 1; OpUpdate kDoh [7] 0;
         OpCommit; OpUpdate kDog [1; 2] 0; OpDelete kDoh] ∅) by reflexivity.
  apply run_rep. repeat constructor; unfold isByte, MaxUint8; try lia; done.
Qed.

Lemma exMap_nonempty : exMap <> ∅.
Proof. intros E. apply (f_equal (fun m => m !! kDog)) in E. by vm_compute in E. Qed.

Lemma exNoCollision : mapNoCollision exMap exStorage.
Proof. apply hashKeyed_NoCollision, exStorage_keyed. Qed.

Lemma trie_refines_map_witness :
  exists tr outs, runTrie emptyTrie exOps = (tr, inr outs) /\ outsOk ∅ exOps outs /\
    outs !! 3%nat = Some (OutValue (Some [1; 2])).
Proof.
  destruct (trie_refines_map exStorage 5 emptyTrie exOps eq_refl exStorage_keyed exOps_ok)
    as (tr & outs & H1 & H2 & _).
  exists tr, outs. split; [exact H1|]. split; [exact H2|].
  assert (E : snd (runTrie emptyTrie exOps) = inr outs) by (rewrite H1; reflexivity).
  vm_compute in E. injection E as <-. reflexivity.
Defined.

Lemma RootHash_canonical_witness :
  exists h, snd (RootHash exTrie) = inr (Some h) /\ snd (RootHash exTrie2) = inr (Some h).
Proof.
  destruct (RootHash_canonical exTrie exTrie2 exMap exTrie_rep exTrie2_rep)
    as (tr1 & tr2 & h & H1 & H2).
  exists h. rewrite H1, H2. split; reflexivity.
Defined.

Definition exMap2 : kvmap :=
  fold_left mapStep [OpUpdate kCat [4] 0; OpUpdate kFog [3] 1; OpUpdate kDoh [7] 0;
         OpCommit; OpUpdate kDog [1; 2] 0; OpDelete kDoh] ∅.

Lemma RootHash_binding_witness :
  snd (RootHash exTrie) = snd (RootHash exTrie2) /\ exMap = exMap2.
Proof.
  destruct (getRootHash_rep _ _ exTrie_rep) as (a & h & H1 & R1 & _).
  destruct (getRootHash_rep _ _ exTrie2_rep) as (b & h' & H2 & R2 & _).
  rewrite <- (rootHashOf_functional _ _ _ R1 R2) in H2.
  split; [unfold RootHash; rewrite H1, H2; reflexivity|].
  apply (RootHash_binding exTrie exTrie2 a b exMap exMap2 (Some h)
    exTrie_rep exTrie2_rep exMap_nonempty exMap_nonempty); [|exact H1|exact H2].
  intros t1 t2 s1 s2 _ _ _ _ _ _ E. rewrite !hashL_encL in E. injection E as E. exact E.
Defined.

Lemma Commit_recreate_witness :
  exists tr' trNew h, Commit exTrie = (tr', inr tt) /\
    recreate tr' h (trieStorage tr') = inr trNew /\ trieRep trNew exMap.
Proof.
  destruct (Commit_recreate exTrie exMap exTrie_rep exMap_nonempty exNoCollision)
    as (tr' & tr'' & h & H1 & H2 & _ & H3 & H4).
  destruct H4 as (trNew & H5 & H6).
  { intros E. unfold RootHash in H3. destruct (getRootHash_rep _ _ H2) as (x & h' & E1 & R & _).
    rewrite E1 in H3. injection H3 as _ ->.
    exact (rootHashOf_notEmpty _ _ R exMap_nonempty E). }
  exists tr', trNew, h. split; [exact H1|]. split; [|exact H6].
  assert (E : recreate tr'' h (trieStorage tr') = recreate tr' h (trieStorage tr')); [|by rewrite <- E].
  unfold RootHash, getRootHash in H3. destruct (root tr') as [n|]; [|by injection H3 as <- _].
  destruct (getHash n); [by injection H3 as <- _|].
  destruct (setRootHash n) as [n' [e|u]]; [discriminate|]. by injection H3 as <- _.
Defined.

Lemma exDog : exMap !! kDog = Some ([1; 2], 0).
Proof. by vm_compute. Qed.

Lemma GetProof_complete_witness :
  exists tr' h proof, GetProof exTrie kDog = (tr', inr (proof, Some [1; 2])) /\
    VerifyProof h kDog (map Some proof) = inr true.
Proof.
  destruct (GetProof_complete exTrie exMap kDog [1; 2] 0 exTrie_rep (proj1 exKeys) exDog)
    as (tr' & tr'' & h & proof & H1 & _ & _ & H2).
  - simpl. forall_bounds.
  - simpl. lia.
  - exists tr', h, proof. split; [exact H1|exact H2].
Defined.

Lemma kDoh_bytes : isBytes kDoh.
Proof. forall_bounds. Qed.

Lemma GetProof_absent_witness :
  snd (GetProof exTrie kDoh) = inl ErrNodeNotFound.
Proof.
  destruct (GetProof_absent exTrie exMap kDoh exTrie_rep kDoh_bytes) as (tr' & H1 & _);
    [by vm_compute|].
  rewrite H1. rewrite decide_False by exact exMap_nonempty. reflexivity.
Defined.

Lemma keyBytesToHex_roundtrip_witness :
  keyBytesToHex kDog = [7; 6; 15; 6; 4; 6; 16] /\ hexToTrieKeyBytes (keyBytesToHex kDog) = inr kDog.
Proof.
  split; [reflexivity|]. apply (keyBytesToHex_roundtrip kDog). exact (proj1 exKeys).
Defined.

(** The logical trie of [kDog] and [kFog]. *)
Definition exT : trie :=
  TExt [7; 6; 15; 6] (twoT 4 6 (TLeaf [6; 16] [1; 2] 0) (TLeaf [6; 16] [3] 1)).

Definition exProof : list slice := map Some (tpath exT (keyBytesToHex kDog)).

Lemma exT_wf : wf false exT.
Proof.
  split; [done|]. split; [done|]. split.
  { unfold hexTerminator. forall_bounds. }
  split; [done|]. apply wf_twoT; unfold hexTerminator, MaxUint8; try lia; simpl;
    unfold hexTerminator, MaxUint8; repeat split; try lia; done.
Qed.

Lemma exT_map : mapOf exT {[kDog := ([1; 2], 0); kFog := ([3], 1)]}.
Proof.
  assert (H0 : wf false (TLeaf (keyBytesToHex kFog) [3] 1)).
  { apply wf_leaf; [by apply khex_keyBytesToHex; apply exKeys|done|unfold MaxUint8; lia]. }
  apply (mapOf_insert (TLeaf (keyBytesToHex kFog) [3] 1) exT {[kFog := ([3], 1)]} kDog [1; 2] 0);
    [apply exKeys|apply mapOf_leaf; apply exKeys|].
  split; [apply exT_wf|]. split; [done|]. intros k' Hk'.
  apply (split_get (TLeaf (keyBytesToHex kFog) [3] 1) (TLeaf [6; 16] [3] 1) [7; 6; 15; 6] 4 6 [6; 16] [1; 2] 0);
    unfold hexTerminator; try lia; [forall_bounds| | |exact Hk'].
  - intros x. change (keyBytesToHex kFog) with ([7; 6; 15; 6; 6] ++ [6; 16]). simpl.
    destruct (decide (x = [6; 16])) as [->|Hx]; [done|].
    rewrite (proj2 (beq_false x _)) by done.
    rewrite (proj2 (beq_false (7 :: 6 :: 15 :: 6 :: 6 :: x) _)) by congruence. done.
  - intros k x. simpl. destruct (beq k _) eqn:E; [|done]. apply beq_true in E. subst. eauto.
Qed.

Lemma verifyProof_sound_witness :
  verifyProof (hashL exT) kDog exProof = inr true /\
  exists key' x, ({[kDog := ([1; 2], 0); kFog := ([3], 1)]} : kvmap) !! key' = Some x /\
    length key' = 3%nat.
Proof.
  assert (H : verifyProof (hashL exT) kDog exProof = inr true) by (by vm_compute).
  split; [exact H|].
  apply (verifyProof_sound exT _ kDog exProof exT_wf exT_map); [|exact H].
  intros enc s _ _ E. rewrite hashL_encL in E. injection E as E. exact E.
Defined.
End TrieInstances.
