(* ===== verification/SystemEI.v ===== *)
(** * The environment interface of the system smart contracts (vm/interface.go):
    what the contracts read from the environment and do to it, and what they rely
    on.  [EEI] is the implementation of vm/systemSmartContracts/eei.go.

    Also here: the return codes and call inputs, and the text and big-integer
    functions of Go's standard library the contracts use. *)

From stdpp Require Import base list gmap strings pretty.
From Stdlib Require Import ZArith Lia.
From S2P Require Import Prelude.

(** ** Return codes and call inputs (mx-chain-vm-common-go) *)

Inductive ReturnCode := Ok | UserError | OutOfGas | ExecutionFailed | OtherCode (c : Z).

#[global] Instance ReturnCode_eq_dec : EqDecision ReturnCode.
Proof. solve_decision. Defined.

(** How a handler stops: by returning a code, or by a run-time panic. *)
Inductive stop := Return (rc : ReturnCode) | Panic.

Record ContractCallInput := mkInput {
  CallerAddr : bytes;
  Arguments : list bytes;
  CallValue : Z;
  RecipientAddr : bytes;
  Function_ : bytes;
  numESDTTransfers : nat;
}.

(** ** Text *)

Definition hexDigit (n : Z) : Z := if n <? 10 then 48 + n else 87 + n.

(** hex.EncodeToString *)
Definition hexEncode (b : bytes) : bytes :=
  flat_map (fun x => [hexDigit (Z.shiftr x 4); hexDigit (Z.land x 15)]) b.

(** strconv.Itoa, and the %d verb of fmt.Sprintf. *)
Definition itoa (n : Z) : bytes := str (pretty n).

(** ** Big integers *)

(** SetBytes: big-endian. *)
Definition bigOfBytes (b : bytes) : Z := fold_left (fun acc x => acc * 256 + x) b 0.

Fixpoint bigBytesAux (fuel : nat) (n : Z) (acc : bytes) : bytes :=
  match fuel with
  | O => acc
  | S fuel => if n <=? 0 then acc else bigBytesAux fuel (n / 256) (n mod 256 :: acc)
  end.

(** Bytes: the absolute value, big-endian, without leading zeros. *)
Definition bigBytes (n : Z) : bytes :=
  bigBytesAux (Z.to_nat (Z.log2 (Z.abs n)) + 1) (Z.abs n) [].

(** ** The interface

    What does not change while a contract runs: the block being processed and the
    accounts of the validators. *)
Record Hook := mkHook {
  CurrentNonce : Z;
  CurrentRound : Z;
  CurrentEpoch : Z;
  CanUnJail : bytes -> bool;
  IsBadRating : bytes -> bool;
  IsValidator : bytes -> bool;
  GetShardOfAddress : bytes -> Z;
}.

Class SystemEI (E : Type) := {
  eiHook : E -> Hook;
  eiGetStorage : E -> bytes -> slice;
  eiGetStorageFromAddress : E -> bytes -> bytes -> slice;
  eiSetStorage : E -> bytes -> slice -> E;
  eiFinish : E -> bytes -> E;
  eiAddReturnMessage : E -> bytes -> E;
  eiUseGas : E -> Z -> option E;
  eiExecuteOnDestContext : E -> bytes -> bytes -> Z -> bytes -> E * (bytes + ReturnCode);
}.

(** The content of a slot: a nil slice and an empty one are the same to a
    contract that tests the length of what it reads. *)
Definition slot {E} `{SystemEI E} (e : E) (k : bytes) : bytes := default [] (eiGetStorage e k).

Class SystemEILaws (E : Type) `{SystemEI E} : Prop := {
  slot_set_eq : forall e k v, slot (eiSetStorage e k v) k = default [] v;
  slot_set_ne : forall e k v k', k' <> k -> slot (eiSetStorage e k v) k' = slot e k';
  slot_finish : forall e v k, slot (eiFinish e v) k = slot e k;
  slot_message : forall e m k, slot (eiAddReturnMessage e m) k = slot e k;
  slot_gas : forall e g e' k, eiUseGas e g = Some e' -> slot e' k = slot e k;
  hook_set : forall e k v, eiHook (eiSetStorage e k v) = eiHook e;
  hook_finish : forall e v, eiHook (eiFinish e v) = eiHook e;
  hook_message : forall e m, eiHook (eiAddReturnMessage e m) = eiHook e;
  hook_gas : forall e g e', eiUseGas e g = Some e' -> eiHook e' = eiHook e;
}.

(** ** The operations as computations of the state and error monad *)

Section Monad.
Context {E : Type} `{EI : SystemEI E}.

Definition GetStorage {R} (k : bytes) : SE E R slice := gets (fun e => eiGetStorage e k).
Definition SetStorage {R} (k : bytes) (v : slice) : SE E R unit :=
  modify (fun e => eiSetStorage e k v).
Definition Finish {R} (v : bytes) : SE E R unit := modify (fun e => eiFinish e v).
Definition AddReturnMessage {R} (m : bytes) : SE E R unit :=
  modify (fun e => eiAddReturnMessage e m).
Definition hook {R} {A} (f : Hook -> A) : SE E R A := gets (fun e => f (eiHook e)).

(** [s.eei.AddReturnMessage(m); return vmcommon.UserError] *)
Definition fail {A} (m : bytes) : SE E stop A := AddReturnMessage m ;; throw (Return UserError).

(** [return rc] *)
Definition return_ {A} (rc : ReturnCode) : SE E stop A := throw (Return rc).

(** [if b \{ m \}] *)
Definition when_ {R} (b : bool) (m : SE E R unit) : SE E R unit := if b then m else ret tt.

(** The code a handler ends with, [None] for a panic. *)
Definition runHandler (m : SE E stop unit) (e : E) : E * option ReturnCode :=
  match m e with
  | (e', inr _) => (e', Some Ok)
  | (e', inl (Return rc)) => (e', Some rc)
  | (e', inl Panic) => (e', None)
  end.
End Monad.
