(* ===== verification/StakingData.v ===== *)
(** * The data of the staking contract (staking.proto) and how it is saved
    (vm/systemSmartContracts/stakingSaveLoad.go, staking.go). *)

From stdpp Require Import base list gmap strings.
From Stdlib Require Import ZArith Lia.
From S2P Require Import Prelude SystemEI.

(** ** Records (staking.proto, validator.proto) *)

Record StakedDataV2_0 := mkStaked {
  RegisterNonce : Z;
  StakedNonce : Z;
  Staked : bool;
  UnStakedNonce : Z;
  UnStakedEpoch : Z;
  RewardAddress : bytes;
  StakeValue : Z;
  JailedRound : Z;
  JailedNonce : Z;
  UnJailedNonce : Z;
  Jailed : bool;
  Waiting : bool;
  NumJailed : Z;
  SlashValue : option Z;
  OwnerAddress : bytes;
}.

Record StakedDataV1_1 := mkStakedV1_1 {
  v1RegisterNonce : Z; v1StakedNonce : Z; v1Staked : bool; v1UnStakedNonce : Z;
  v1UnStakedEpoch : Z; v1RewardAddress : bytes; v1StakeValue : Z; v1JailedRound : Z;
  v1JailedNonce : Z; v1UnJailedNonce : Z; v1Jailed : bool; v1Waiting : bool;
  v1NumJailed : Z; v1SlashValue : option Z;
}.

Record StakedDataV1_0 := mkStakedV1_0 {
  v0RegisterNonce : Z; v0StakedNonce : Z; v0Staked : bool; v0UnStakedNonce : Z;
  v0UnStakedEpoch : Z; v0RewardAddress : bytes; v0StakeValue : Z; v0JailedRound : Z;
  v0JailedNonce : Z; v0UnJailedNonce : Z; v0Jailed : bool; v0Waiting : bool;
}.

Record StakingNodesConfig := mkConfig {
  MinNumNodes : Z;
  MaxNumNodes : Z;
  StakedNodes : Z;
  JailedNodes : Z;
}.

Record ElementInList := mkElement {
  BLSPublicKey : bytes;
  PreviousKey : bytes;
  NextKey : bytes;
}.

Record WaitingList := mkWaitingList {
  FirstKey : bytes;
  LastKey : bytes;
  Length_ : Z;
  LastJailedKey : bytes;
}.

(** The fields of ValidatorDataV2 that the staking contract reads. *)
Record ValidatorDataV2 := mkValidatorData {
  TotalStakeValue : Z;
  BlsPubKeys : list bytes;
}.

(** ** Parameters

    The marshaller comes from another module; a failure carries the text of its
    error. *)
Class StakingCodec := {
  mStaked : StakedDataV2_0 -> bytes + bytes;
  mStakedV1_1 : StakedDataV1_1 -> bytes + bytes;
  mStakedV1_0 : StakedDataV1_0 -> bytes + bytes;
  uStaked : bytes -> bytes + StakedDataV2_0;
  mConfig : StakingNodesConfig -> bytes + bytes;
  uConfig : bytes -> bytes + StakingNodesConfig;
  mElement : ElementInList -> bytes + bytes;
  uElement : bytes -> bytes + ElementInList;
  mWaitingList : WaitingList -> bytes + bytes;
  uWaitingList : bytes -> bytes + WaitingList;
  uValidatorData : bytes -> bytes + ValidatorDataV2;
}.

(** Marshalling succeeds and is undone by unmarshalling, and records with a
    field set are not marshalled to the empty string. *)
Class StakingCodecLaws (C : StakingCodec) : Prop := {
  mStaked_ok : forall d, exists b, mStaked d = inr b /\ b <> [] /\ uStaked b = inr d;
  mConfig_ok : forall c, exists b, mConfig c = inr b /\ (b = [] \/ uConfig b = inr c) /\
    (MaxNumNodes c <> 0 -> b <> []);
  mElement_ok : forall x, BLSPublicKey x <> [] ->
    exists b, mElement x = inr b /\ b <> [] /\ uElement b = inr x;
  mWaitingList_ok : forall w, Length_ w <> 0 ->
    exists b, mWaitingList w = inr b /\ b <> [] /\ uWaitingList b = inr w;
}.

(** Constants and functions of mx-chain-core-go. *)
Class CoreLib := {
  SCDeployInitFunctionName : bytes;
  IsSmartContractAddress : bytes -> bool;
  MetachainShardId : Z;
}.

(** The flags of the enable-epochs handler, at the current epoch. *)
Record EpochFlags := mkFlags {
  StakeFlag : bool;
  StakingV2Flag : bool;
  CorrectFirstQueuedFlag : bool;
  CorrectLastUnJailedFlag : bool;
  CorrectJailedNotUnStakedEmptyQueueFlag : bool;
  ValidatorToDelegationFlag : bool;
  StakingV4Step1Flag : bool;
  StakingV4StartedFlag : bool;
}.

(** The fields of stakingSC the contract reads, with the two gas costs. *)
Record stakingSC := mkStakingSC {
  unBondPeriod : Z;
  stakeAccessAddr : bytes;
  jailAccessAddr : bytes;
  endOfEpochAccessAddr : bytes;
  gasCostGet : Z;
  gasCostFixWaitingListSize : Z;
  minNumNodes : Z;
  maxNumNodes : Z;
  stakeValue : Z;
  walletAddressLen : Z;
  minNodePrice : Z;
}.

(** ** Constants *)

Definition ownerKey : bytes := str "owner".
Definition nodesConfigKey : bytes := str "nodesConfig".
Definition waitingListHeadKey : bytes := str "waitingList".
Definition waitingElementPrefix : bytes := str "w_".
Definition waiting : Z := 3.
Definition DefaultUnstakedEpoch : Z := MaxUint32.
Definition TransactionValueMustBeZero : bytes := str "transaction value must be zero".

(** ** Errors (vm/errors.go) *)

Inductive stErr :=
| ErrElementNotFound
| ErrInvalidWaitingList
| ErrWaitingListDisabled
| ErrBLSPublicKeyAlreadyJailed
| ErrMarshalizer (text : bytes)
| ErrPanic.

(** err.Error() *)
Definition errText (e : stErr) : bytes :=
  match e with
  | ErrElementNotFound => str "element was not found"
  | ErrInvalidWaitingList => str "invalid waiting list"
  | ErrWaitingListDisabled => str "waiting list is disabled since staking v4 activation"
  | ErrBLSPublicKeyAlreadyJailed => str "bls public key already jailed"
  | ErrMarshalizer t => t
  | ErrPanic => []
  end.

(** ** Functional updates of StakedDataV2_0 *)

Definition withReward (d : StakedDataV2_0) (a : bytes) : StakedDataV2_0 :=
  mkStaked (RegisterNonce d) (StakedNonce d) (Staked d) (UnStakedNonce d) (UnStakedEpoch d) a
    (StakeValue d) (JailedRound d) (JailedNonce d) (UnJailedNonce d) (Jailed d) (Waiting d)
    (NumJailed d) (SlashValue d) (OwnerAddress d).

Definition withOwner (d : StakedDataV2_0) (a : bytes) : StakedDataV2_0 :=
  mkStaked (RegisterNonce d) (StakedNonce d) (Staked d) (UnStakedNonce d) (UnStakedEpoch d)
    (RewardAddress d) (StakeValue d) (JailedRound d) (JailedNonce d) (UnJailedNonce d) (Jailed d)
    (Waiting d) (NumJailed d) (SlashValue d) a.

Definition withStakeValue (d : StakedDataV2_0) (v : Z) : StakedDataV2_0 :=
  mkStaked (RegisterNonce d) (StakedNonce d) (Staked d) (UnStakedNonce d) (UnStakedEpoch d)
    (RewardAddress d) v (JailedRound d) (JailedNonce d) (UnJailedNonce d) (Jailed d)
    (Waiting d) (NumJailed d) (SlashValue d) (OwnerAddress d).

Definition withRegisterNonce (d : StakedDataV2_0) (n : Z) : StakedDataV2_0 :=
  mkStaked n (StakedNonce d) (Staked d) (UnStakedNonce d) (UnStakedEpoch d)
    (RewardAddress d) (StakeValue d) (JailedRound d) (JailedNonce d) (UnJailedNonce d) (Jailed d)
    (Waiting d) (NumJailed d) (SlashValue d) (OwnerAddress d).

Definition withWaiting (d : StakedDataV2_0) (w : bool) : StakedDataV2_0 :=
  mkStaked (RegisterNonce d) (StakedNonce d) (Staked d) (UnStakedNonce d) (UnStakedEpoch d)
    (RewardAddress d) (StakeValue d) (JailedRound d) (JailedNonce d) (UnJailedNonce d) (Jailed d)
    w (NumJailed d) (SlashValue d) (OwnerAddress d).

(** JailedRound = math.MaxUint64, UnJailedNonce = nonce. *)
Definition withUnJailed (d : StakedDataV2_0) (nonce : Z) (jailed : bool) : StakedDataV2_0 :=
  mkStaked (RegisterNonce d) (StakedNonce d) (Staked d) (UnStakedNonce d) (UnStakedEpoch d)
    (RewardAddress d) (StakeValue d) MaxUint64 (JailedNonce d) nonce jailed
    (Waiting d) (NumJailed d) (SlashValue d) (OwnerAddress d).

(** JailedRound, JailedNonce, Jailed = true, NumJailed++. *)
Definition withJailed (d : StakedDataV2_0) (round nonce : Z) : StakedDataV2_0 :=
  mkStaked (RegisterNonce d) (StakedNonce d) (Staked d) (UnStakedNonce d) (UnStakedEpoch d)
    (RewardAddress d) (StakeValue d) round nonce (UnJailedNonce d) true
    (Waiting d) (u32 (NumJailed d + 1)) (SlashValue d) (OwnerAddress d).

(** Staked = false, UnStakedEpoch, UnStakedNonce, Waiting = false. *)
Definition withUnStaked (d : StakedDataV2_0) (epoch nonce : Z) : StakedDataV2_0 :=
  mkStaked (RegisterNonce d) (StakedNonce d) false nonce epoch
    (RewardAddress d) (StakeValue d) (JailedRound d) (JailedNonce d) (UnJailedNonce d) (Jailed d)
    false (NumJailed d) (SlashValue d) (OwnerAddress d).

(** Staked = false, UnStakedEpoch, UnStakedNonce, StakedNonce = math.MaxUint64. *)
Definition withRemovedFromStaked (d : StakedDataV2_0) (epoch nonce : Z) : StakedDataV2_0 :=
  mkStaked (RegisterNonce d) MaxUint64 false nonce epoch
    (RewardAddress d) (StakeValue d) (JailedRound d) (JailedNonce d) (UnJailedNonce d) (Jailed d)
    (Waiting d) (NumJailed d) (SlashValue d) (OwnerAddress d).

(** activeStakingFor; moveFirstFromWaitingToStaked sets the same fields. *)
Definition withActiveStaking (d : StakedDataV2_0) (nonce : Z) : StakedDataV2_0 :=
  mkStaked nonce nonce true 0 DefaultUnstakedEpoch
    (RewardAddress d) (StakeValue d) (JailedRound d) (JailedNonce d) (UnJailedNonce d) (Jailed d)
    false (NumJailed d) (SlashValue d) (OwnerAddress d).

Definition withSlashValue (d : StakedDataV2_0) (v : option Z) : StakedDataV2_0 :=
  mkStaked (RegisterNonce d) (StakedNonce d) (Staked d) (UnStakedNonce d) (UnStakedEpoch d)
    (RewardAddress d) (StakeValue d) (JailedRound d) (JailedNonce d) (UnJailedNonce d) (Jailed d)
    (Waiting d) (NumJailed d) v (OwnerAddress d).

(** The registration data of a key that is not stored. *)
Definition emptyStaked : StakedDataV2_0 :=
  mkStaked 0 MaxUint64 false 0 DefaultUnstakedEpoch [] 0 MaxUint64 0 0 false false 0 (Some 0) [].

Definition withStakedNodes (c : StakingNodesConfig) (n : Z) : StakingNodesConfig :=
  mkConfig (MinNumNodes c) (MaxNumNodes c) n (JailedNodes c).

(** ** Saving and loading *)

Section SaveLoad.
Context {E : Type} `{EI : SystemEI E} `{SC : StakingCodec}.
Variables (s : stakingSC) (flags : EpochFlags).

Definition liftMarshal {A} (r : bytes + A) : SE E stErr A :=
  match r with inl t => throw (ErrMarshalizer t) | inr a => ret a end.

Definition baseConfig : StakingNodesConfig :=
  mkConfig (i64 (minNumNodes s)) (i64 (maxNumNodes s)) 0 0.

Definition getConfig {R} : SE E R StakingNodesConfig :=
  let! configData := GetStorage nodesConfigKey in
  if slen configData =? 0 then ret baseConfig
  else
    match uConfig (default [] configData) with
    | inl _ => ret baseConfig
    | inr c => ret c
    end.

Definition setConfig {R} (c : StakingNodesConfig) : SE E R unit :=
  match mConfig c with
  | inl _ => ret tt
  | inr configData => SetStorage nodesConfigKey (Some configData)
  end.

Definition getOrCreateRegisteredData (key : bytes) : SE E stErr StakedDataV2_0 :=
  let! data := GetStorage key in
  let! registrationData :=
    (if 0 <? slen data then liftMarshal (uStaked (default [] data)) else ret emptyStaked) in
  ret (match SlashValue registrationData with
       | None => withSlashValue registrationData (Some 0)
       | Some _ => registrationData
       end).

Definition saveAsStakingDataV1P0 (key : bytes) (d : StakedDataV2_0) : SE E stErr unit :=
  let! data := liftMarshal (mStakedV1_0 (mkStakedV1_0 (RegisterNonce d) (StakedNonce d) (Staked d)
    (UnStakedNonce d) (UnStakedEpoch d) (RewardAddress d) (StakeValue d) (JailedRound d)
    (JailedNonce d) (UnJailedNonce d) (Jailed d) (Waiting d))) in
  SetStorage key (Some data).

Definition saveAsStakingDataV1P1 (key : bytes) (d : StakedDataV2_0) : SE E stErr unit :=
  let! data := liftMarshal (mStakedV1_1 (mkStakedV1_1 (RegisterNonce d) (StakedNonce d) (Staked d)
    (UnStakedNonce d) (UnStakedEpoch d) (RewardAddress d) (StakeValue d) (JailedRound d)
    (JailedNonce d) (UnJailedNonce d) (Jailed d) (Waiting d) (NumJailed d) (SlashValue d))) in
  SetStorage key (Some data).

Definition saveStakingData (key : bytes) (d : StakedDataV2_0) : SE E stErr unit :=
  if negb (StakeFlag flags) then saveAsStakingDataV1P0 key d
  else if negb (StakingV2Flag flags) then saveAsStakingDataV1P1 key d
  else
    let! data := liftMarshal (mStaked d) in
    SetStorage key (Some data).

(** ** The counters of the configuration (staking.go) *)

Definition addToStakedNodes {R} (value : Z) : SE E R unit :=
  let! c := getConfig in
  setConfig (withStakedNodes c (i64 (StakedNodes c + value))).

Definition removeFromStakedNodes {R} : SE E R unit :=
  let! c := getConfig in
  setConfig (if 0 <? StakedNodes c then withStakedNodes c (StakedNodes c - 1) else c).

Definition removeFromJailedNodes {R} : SE E R unit :=
  let! c := getConfig in
  setConfig (if 0 <? JailedNodes c
             then mkConfig (MinNumNodes c) (MaxNumNodes c) (StakedNodes c) (JailedNodes c - 1)
             else c).

Definition numSpareNodes {R} : SE E R Z :=
  let! c := getConfig in
  ret (i64 (i64 (StakedNodes c - JailedNodes c) - MinNumNodes c)).

Definition canStake {R} : SE E R bool :=
  if StakingV4StartedFlag flags then ret true
  else let! c := getConfig in ret (StakedNodes c <? MaxNumNodes c).

Definition canStakeIfOneRemoved {R} : SE E R bool :=
  let! c := getConfig in ret (StakedNodes c <=? MaxNumNodes c).

Definition canUnStake {R} : SE E R bool :=
  let! n := numSpareNodes in ret (0 <? n).

Definition canUnBond {R} : SE E R bool :=
  let! n := numSpareNodes in ret (0 <=? n).

Definition activeStakingFor {R} (d : StakedDataV2_0) : SE E R StakedDataV2_0 :=
  let! nonce := hook CurrentNonce in
  ret (withActiveStaking d nonce).

(** Staked = false, UnStakedEpoch, UnStakedNonce and Waiting = false at the
    current block. *)
Definition markUnStaked {R} (d : StakedDataV2_0) : SE E R StakedDataV2_0 :=
  let! epoch := hook CurrentEpoch in
  let! nonce := hook CurrentNonce in
  ret (withUnStaked d epoch nonce).
End SaveLoad.
