(* ===== verification/StakingQueue.v ===== *)
(** * The waiting list of the staking contract: a doubly linked list in the
    storage of the contract (vm/systemSmartContracts/stakingWaitingList.go), its
    operations on elements and on the head. *)

From stdpp Require Import base list gmap strings.
From Stdlib Require Import ZArith Lia.
From S2P Require Import Prelude SystemEI StakingData.

Definition createWaitingListKey (blsKey : bytes) : bytes := waitingElementPrefix ++ blsKey.

Definition emptyHead : WaitingList := mkWaitingList [] [] 0 [].

Record waitingListReturnData := mkReturnData {
  blsKeys : list bytes;
  stakedDataList : list StakedDataV2_0;
  lastKey : bytes;
  afterLastJailed : bool;
}.

Definition emptyReturnData : waitingListReturnData := mkReturnData [] [] [] false.

(** Updates of the records. *)
Definition withPrev (x : ElementInList) (k : bytes) : ElementInList :=
  mkElement (BLSPublicKey x) k (NextKey x).
Definition withNext (x : ElementInList) (k : bytes) : ElementInList :=
  mkElement (BLSPublicKey x) (PreviousKey x) k.
Definition withFirstKey (w : WaitingList) (k : bytes) : WaitingList :=
  mkWaitingList k (LastKey w) (Length_ w) (LastJailedKey w).
Definition withLastKey (w : WaitingList) (k : bytes) : WaitingList :=
  mkWaitingList (FirstKey w) k (Length_ w) (LastJailedKey w).
Definition withLength (w : WaitingList) (n : Z) : WaitingList :=
  mkWaitingList (FirstKey w) (LastKey w) n (LastJailedKey w).
Definition withLastJailedKey (w : WaitingList) (k : bytes) : WaitingList :=
  mkWaitingList (FirstKey w) (LastKey w) (Length_ w) k.

Section Queue.
Context {E : Type} `{EI : SystemEI E} `{SC : StakingCodec}.
Variables (s : stakingSC) (flags : EpochFlags).
Notation M := (SE E stErr).

Definition getWaitingListElement (key : bytes) : M ElementInList :=
  let! marshaledData := GetStorage key in
  if slen marshaledData =? 0 then throw ErrElementNotFound
  else liftMarshal (uElement (default [] marshaledData)).

Definition saveWaitingListElement (key : bytes) (element : ElementInList) : M unit :=
  let! marshaledData := liftMarshal (mElement element) in
  SetStorage key (Some marshaledData).

Definition getWaitingListHead : M WaitingList :=
  let! marshaledData := GetStorage waitingListHeadKey in
  if slen marshaledData =? 0 then ret emptyHead
  else liftMarshal (uWaitingList (default [] marshaledData)).

Definition saveWaitingListHead (waitingList : WaitingList) : M unit :=
  let! marshaledData := liftMarshal (mWaitingList waitingList) in
  SetStorage waitingListHeadKey (Some marshaledData).

Definition saveElementAndList (key : bytes) (element : ElementInList) (waitingList : WaitingList)
  : M unit :=
  saveWaitingListElement key element ;;
  saveWaitingListHead waitingList.

Definition startWaitingList (waitingList : WaitingList) (addJailed : bool) (blsKey : bytes)
  : M unit :=
  let inWaitingListKey := createWaitingListKey blsKey in
  let waitingList := withLastKey (withFirstKey waitingList inWaitingListKey) inWaitingListKey in
  let waitingList :=
    if addJailed then withLastJailedKey waitingList inWaitingListKey else waitingList in
  let elementInWaiting := mkElement blsKey (LastKey waitingList) [] in
  saveElementAndList inWaitingListKey elementInWaiting waitingList.

Definition addToEndOfTheList (waitingList : WaitingList) (blsKey : bytes) : M unit :=
  let inWaitingListKey := createWaitingListKey blsKey in
  let oldLastKey := LastKey waitingList in
  let! lastElement := getWaitingListElement (LastKey waitingList) in
  let lastElement := withNext lastElement inWaitingListKey in
  let elementInWaiting := mkElement blsKey oldLastKey [] in
  saveWaitingListElement oldLastKey lastElement ;;
  saveElementAndList inWaitingListKey elementInWaiting (withLastKey waitingList inWaitingListKey).

Definition insertAfterLastJailed (waitingList : WaitingList) (blsKey : bytes) : M unit :=
  let inWaitingListKey := createWaitingListKey blsKey in
  if blen (LastJailedKey waitingList) =? 0 then
    let previousFirstKey := FirstKey waitingList in
    let waitingList := withLastJailedKey (withFirstKey waitingList inWaitingListKey) inWaitingListKey in
    let elementInWaiting := mkElement blsKey inWaitingListKey previousFirstKey in
    when_ (CorrectFirstQueuedFlag flags && (0 <? blen previousFirstKey))
      (let! previousFirstElement := getWaitingListElement previousFirstKey in
       saveWaitingListElement previousFirstKey (withPrev previousFirstElement inWaitingListKey)) ;;
    saveElementAndList inWaitingListKey elementInWaiting waitingList
  else
    let! lastJailedElement := getWaitingListElement (LastJailedKey waitingList) in
    if beq (LastKey waitingList) (LastJailedKey waitingList) then
      addToEndOfTheList (withLastJailedKey waitingList inWaitingListKey) blsKey
    else
      let! firstNonJailedElement := getWaitingListElement (NextKey lastJailedElement) in
      let buffer := replicate (length inWaitingListKey) 0 in
      let elementInWaiting := mkElement blsKey
        (copyInto buffer (LastJailedKey waitingList)) (copyInto buffer (NextKey lastJailedElement)) in
      let lastJailedElement := withNext lastJailedElement inWaitingListKey in
      let firstNonJailedElement := withPrev firstNonJailedElement inWaitingListKey in
      let waitingList := withLastJailedKey waitingList inWaitingListKey in
      saveWaitingListElement (PreviousKey elementInWaiting) lastJailedElement ;;
      saveWaitingListElement (NextKey elementInWaiting) firstNonJailedElement ;;
      saveWaitingListElement inWaitingListKey elementInWaiting ;;
      saveWaitingListHead waitingList.

Definition addToWaitingList (blsKey : bytes) (addJailed : bool) : M unit :=
  let! marshaledData := GetStorage (createWaitingListKey blsKey) in
  if negb (slen marshaledData =? 0) then ret tt
  else
    let! waitingList := getWaitingListHead in
    let waitingList := withLength waitingList (u32 (Length_ waitingList + 1)) in
    if Length_ waitingList =? 1 then startWaitingList waitingList addJailed blsKey
    else if addJailed then insertAfterLastJailed waitingList blsKey
    else addToEndOfTheList waitingList blsKey.

(** The loop of searchPreviousFromHead: at most one iteration for each element
    of the list. *)
Fixpoint searchLoop (fuel : nat) (waitingList : WaitingList) (inWaitingListKey nextKey : bytes)
    (index : Z) : M ElementInList :=
  match fuel with
  | O => throw ErrElementNotFound
  | S fuel =>
      if negb (blen nextKey =? 0) && (index <=? Length_ waitingList) then
        let! element := getWaitingListElement nextKey in
        if beq inWaitingListKey (NextKey element) then ret element
        else if blen (NextKey element) =? 0 then throw ErrElementNotFound
        else searchLoop fuel waitingList inWaitingListKey (NextKey element) (u32 (index + 1))
      else throw ErrElementNotFound
  end.

(** The previous element, and the element to remove with its PreviousKey. *)
Definition searchPreviousFromHead (waitingList : WaitingList) (inWaitingListKey : bytes)
    (elementToRemove : ElementInList) : M (ElementInList * ElementInList) :=
  let! previousElement :=
    searchLoop (Z.to_nat (Length_ waitingList) + 1) waitingList inWaitingListKey (FirstKey waitingList) 1 in
  ret (previousElement,
       withPrev elementToRemove (createWaitingListKey (BLSPublicKey previousElement))).

(** [previousElement, _ := s.getWaitingListElement(...)] *)
Definition tryElement (key : bytes) : M (option ElementInList) :=
  fun e => match getWaitingListElement key e with
           | (e', inr x) => (e', inr (Some x))
           | (e', inl _) => (e', inr None)
           end.

(** The search of the element in front of the one to remove. *)
Definition previousOf (waitingList : WaitingList) (inWaitingListKey : bytes)
    (elementToRemove : ElementInList) : M (ElementInList * ElementInList) :=
  let! previousElement := tryElement (PreviousKey elementToRemove) in
  match previousElement with
  | Some p => ret (p, elementToRemove)
  | None =>
      if CorrectFirstQueuedFlag flags then
        searchPreviousFromHead waitingList inWaitingListKey elementToRemove
      else
        let! p := getWaitingListElement (PreviousKey elementToRemove) in
        ret (p, elementToRemove)
  end.

(** The removal of an element that is not the first one. *)
Definition unlinkElement (waitingList : WaitingList)
    (previousElement elementToRemove : ElementInList) : M unit :=
  if blen (NextKey elementToRemove) =? 0 then
    saveElementAndList (PreviousKey elementToRemove) (withNext previousElement [])
      (withLastKey waitingList (PreviousKey elementToRemove))
  else
    let! nextElement := getWaitingListElement (NextKey elementToRemove) in
    saveWaitingListElement (NextKey elementToRemove)
      (withPrev nextElement (PreviousKey elementToRemove)) ;;
    saveElementAndList (PreviousKey elementToRemove)
      (withNext previousElement (NextKey elementToRemove)) waitingList.

(** The removal of the first element. *)
Definition removeFirst (waitingList : WaitingList) (inWaitingListKey : bytes)
    (elementToRemove : ElementInList) : M unit :=
  let waitingList :=
    if beq inWaitingListKey (LastJailedKey waitingList) then withLastJailedKey waitingList []
    else waitingList in
  let! nextElement := getWaitingListElement (NextKey elementToRemove) in
  saveElementAndList (NextKey elementToRemove)
    (withPrev nextElement (NextKey elementToRemove))
    (withFirstKey waitingList (NextKey elementToRemove)).

Definition removeFromWaitingList (blsKey : bytes) : M unit :=
  let inWaitingListKey := createWaitingListKey blsKey in
  let! marshaledData := GetStorage inWaitingListKey in
  if slen marshaledData =? 0 then ret tt
  else
    SetStorage inWaitingListKey None ;;
    let! elementToRemove := liftMarshal (uElement (default [] marshaledData)) in
    let! waitingList := getWaitingListHead in
    if Length_ waitingList =? 0 then throw ErrInvalidWaitingList
    else
      let waitingList := withLength waitingList (Length_ waitingList - 1) in
      if Length_ waitingList =? 0 then SetStorage waitingListHeadKey None
      else
        let isFirstElementBeforeFix :=
          negb (CorrectFirstQueuedFlag flags) && beq (PreviousKey elementToRemove) inWaitingListKey in
        let isFirstElementAfterFix :=
          CorrectFirstQueuedFlag flags && beq (FirstKey waitingList) inWaitingListKey in
        if isFirstElementBeforeFix || isFirstElementAfterFix then
          removeFirst waitingList inWaitingListKey elementToRemove
        else
          let waitingList :=
            if negb (CorrectLastUnJailedFlag flags) || beq inWaitingListKey (LastJailedKey waitingList)
            then withLastJailedKey waitingList (PreviousKey elementToRemove) else waitingList in
          let! (previousElement, elementToRemove) :=
            previousOf waitingList inWaitingListKey elementToRemove in
          unlinkElement waitingList previousElement elementToRemove.

(** ** Reading the list *)

(** The loop of getFirstElementsFromWaitingList; [nextKey] is a buffer of fixed
    length that the keys are copied into. *)
Fixpoint firstElementsLoop (fuel : nat) (head : WaitingList) (numNodes : Z) (nextKey : bytes)
    (index : Z) (acc : waitingListReturnData) : M waitingListReturnData :=
  match fuel with
  | O => ret (mkReturnData (blsKeys acc) (stakedDataList acc) nextKey (afterLastJailed acc))
  | S fuel =>
      if negb (blen nextKey =? 0) && (index <=? Length_ head) && (index <=? numNodes) then
        let! element := getWaitingListElement nextKey in
        let after := afterLastJailed acc || beq nextKey (LastJailedKey head) in
        let! stakedData := getOrCreateRegisteredData (BLSPublicKey element) in
        let acc := mkReturnData (blsKeys acc ++ [BLSPublicKey element])
          (stakedDataList acc ++ [stakedData]) nextKey after in
        if blen (NextKey element) =? 0 then ret acc
        else firstElementsLoop fuel head numNodes (copyInto nextKey (NextKey element))
               (u32 (index + 1)) acc
      else ret (mkReturnData (blsKeys acc) (stakedDataList acc) nextKey (afterLastJailed acc))
  end.

Definition getFirstElementsFromWaitingList (numNodes : Z) : M waitingListReturnData :=
  let! waitingListHead := getWaitingListHead in
  if Length_ waitingListHead =? 0 then ret emptyReturnData
  else
    firstElementsLoop (Z.to_nat (Length_ waitingListHead) + 1) waitingListHead numNodes
      (FirstKey waitingListHead) 1 emptyReturnData.

(** ** Moving the first element to the staked nodes *)

Definition moveFirstFromWaitingToStaked : M bool :=
  let! waitingList := getWaitingListHead in
  if Length_ waitingList =? 0 then ret false
  else
    let! elementInList := getWaitingListElement (FirstKey waitingList) in
    removeFromWaitingList (BLSPublicKey elementInList) ;;
    let! nodeData := getOrCreateRegisteredData (BLSPublicKey elementInList) in
    if (blen (RewardAddress nodeData) =? 0) || Staked nodeData then throw ErrInvalidWaitingList
    else
      let! nonce := hook CurrentNonce in
      addToStakedNodes s 1 ;;
      saveStakingData flags (BLSPublicKey elementInList) (withActiveStaking nodeData nonce) ;;
      ret true.

Definition moveFirstFromWaitingToStakedIfNeeded (blsKey : bytes) : M bool :=
  let! found := tryElement (createWaitingListKey blsKey) in
  match found with
  | Some _ => removeFromWaitingList blsKey ;; ret false
  | None => moveFirstFromWaitingToStaked
  end.

(** ** Staking through the queue *)

Definition processStakeV1 (blsKey : bytes) (d : StakedDataV2_0) (addFirst : bool)
  : M StakedDataV2_0 :=
  if Staked d then ret d
  else
    let! nonce := hook CurrentNonce in
    let d := withRegisterNonce d nonce in
    let! can := canStake s flags in
    if negb can then
      AddReturnMessage (str "staking is full key put into waiting list " ++ hexEncode blsKey) ;;
      onErr (addToWaitingList blsKey addFirst)
        (fun e => AddReturnMessage (str "error while adding to waiting") ;; throw e) ;;
      Finish [waiting] ;;
      ret (withWaiting d true)
    else
      onErr (removeFromWaitingList blsKey)
        (fun e => AddReturnMessage (str "error while removing from waiting") ;; throw e) ;;
      addToStakedNodes s 1 ;;
      activeStakingFor d.

Definition processStakeV2 (d : StakedDataV2_0) : M StakedDataV2_0 :=
  if Staked d then ret d
  else
    let! nonce := hook CurrentNonce in
    let d := withRegisterNonce d nonce in
    addToStakedNodes s 1 ;;
    activeStakingFor d.

Definition processStake (blsKey : bytes) (d : StakedDataV2_0) (addFirst : bool)
  : M StakedDataV2_0 :=
  if StakingV4StartedFlag flags then processStakeV2 d else processStakeV1 blsKey d addFirst.
End Queue.
