(* ===== verification/StakingQueueSpec.v ===== *)
(** * What the waiting list stands for: a queue with two priorities.

    [queueRep e J N]: the storage of [e] holds the doubly linked list of the keys
    [J ++ N], where [J] are the keys put in front because they were jailed.  The
    operations of [StakingQueue] refine operations on these two lists, as the second part
    shows. *)

From stdpp Require Import base list gmap strings.
From Stdlib Require Import ZArith Lia.
From S2P Require Import Prelude SystemEI StakingData StakingQueue.

Notation wk := createWaitingListKey.

Lemma wk_inj k1 k2 : wk k1 = wk k2 -> k1 = k2.
Proof. apply app_inv_head. Qed.

Lemma wk_nonempty k : wk k <> [].
Proof. done. Qed.

Lemma wk_ne_head k : wk k <> waitingListHeadKey.
Proof. done. Qed.

Lemma wk_blen k : (blen (wk k) =? 0) = false.
Proof. apply Z.eqb_neq. by rewrite blen_0. Qed.

(** The abstract queue. *)
Definition qAdd (k : bytes) (jailed : bool) (q : list bytes * list bytes) : list bytes * list bytes :=
  if decide (k ∈ fst q ++ snd q) then q
  else if jailed then (fst q ++ [k], snd q) else (fst q, snd q ++ [k]).

Definition qRemove (k : bytes) (q : list bytes * list bytes) : list bytes * list bytes :=
  (filter (fun x => x <> k) (fst q), filter (fun x => x <> k) (snd q)).

Section QueueSpec.
Context {E : Type} `{EI : SystemEI E} `{EL : !SystemEILaws E}.
Context `{SC : StakingCodec} `{CL : !StakingCodecLaws SC}.
Variables (s : stakingSC) (flags : EpochFlags) (keyLen : nat).
Implicit Types (e : E).

(** BLS keys have a fixed length. *)
Definition okKey (k : bytes) : Prop := k <> [] /\ length k = keyLen.

(** A storage key that is not one of the waiting list. *)
Definition otherKey (key : bytes) : Prop :=
  key <> waitingListHeadKey /\ forall k, okKey k -> key <> wk k.

Definition frame e e' : Prop :=
  (forall key, otherKey key -> slot e' key = slot e key) /\ eiHook e' = eiHook e.

(** ** Elements *)

Definition elemAt e (key : bytes) (x : ElementInList) : Prop :=
  slot e key <> [] /\ uElement (slot e key) = inr x.

Definition headIs e (w : WaitingList) : Prop :=
  slot e waitingListHeadKey <> [] /\ uWaitingList (slot e waitingListHeadKey) = inr w.

(** [e'] is [e] after a write at [key]. *)
Definition wrote (key : bytes) e e' : Prop :=
  (forall k, k <> key -> slot e' k = slot e k) /\ eiHook e' = eiHook e.

Lemma slen_default (v : slice) : (slen v =? 0) = bool_decide (default [] v = []).
Proof.
  by destruct v as [[|x l]|].
Qed.

Lemma slen_slot e k : (slen (eiGetStorage e k) =? 0) = bool_decide (slot e k = []).
Proof. apply slen_default. Qed.

Lemma get_elem e key x : elemAt e key x -> getWaitingListElement key e = (e, inr x).
Proof.
  intros [H1 H2]. unfold getWaitingListElement, GetStorage, gets, bind. rewrite slen_slot.
  rewrite bool_decide_eq_false_2 by done. change (default [] (eiGetStorage e key)) with (slot e key).
  by rewrite H2.
Qed.

Lemma get_elem_none e key : slot e key = [] -> getWaitingListElement key e = (e, inl ErrElementNotFound).
Proof.
  intros H. unfold getWaitingListElement, GetStorage, gets, bind. rewrite slen_slot.
  by rewrite bool_decide_eq_true_2.
Qed.

Lemma get_head e w : headIs e w -> getWaitingListHead e = (e, inr w).
Proof.
  intros [H1 H2]. unfold getWaitingListHead, GetStorage, gets, bind. rewrite slen_slot.
  rewrite bool_decide_eq_false_2 by done.
  change (default [] (eiGetStorage e waitingListHeadKey)) with (slot e waitingListHeadKey).
  by rewrite H2.
Qed.

Lemma get_head_none e : slot e waitingListHeadKey = [] -> getWaitingListHead e = (e, inr emptyHead).
Proof.
  intros H. unfold getWaitingListHead, GetStorage, gets, bind. rewrite slen_slot.
  by rewrite bool_decide_eq_true_2.
Qed.

Lemma wrote_set e key v : wrote key e (eiSetStorage e key v).
Proof. split; [|apply hook_set]. intros k Hk. by apply slot_set_ne. Qed.

Lemma save_elem e key x :
  BLSPublicKey x <> [] ->
  exists e', saveWaitingListElement key x e = (e', inr tt) /\ elemAt e' key x /\ wrote key e e'.
Proof.
  intros H. destruct (mElement_ok x H) as (b & Hm & Hne & Hu).
  unfold saveWaitingListElement, bind, liftMarshal. rewrite Hm. simpl.
  eexists. split; [done|]. split; [|apply wrote_set].
  unfold elemAt. rewrite slot_set_eq. done.
Qed.

Lemma save_head e w :
  Length_ w <> 0 ->
  exists e', saveWaitingListHead w e = (e', inr tt) /\ headIs e' w /\ wrote waitingListHeadKey e e'.
Proof.
  intros H. destruct (mWaitingList_ok w H) as (b & Hm & Hne & Hu).
  unfold saveWaitingListHead, bind, liftMarshal. rewrite Hm. simpl.
  eexists. split; [done|]. split; [|apply wrote_set].
  unfold headIs. rewrite slot_set_eq. done.
Qed.

Lemma save_both e key x w :
  BLSPublicKey x <> [] -> Length_ w <> 0 -> key <> waitingListHeadKey ->
  exists e', saveElementAndList key x w e = (e', inr tt) /\ elemAt e' key x /\ headIs e' w /\
    (forall k, k <> key -> k <> waitingListHeadKey -> slot e' k = slot e k) /\ eiHook e' = eiHook e.
Proof.
  intros H1 H2 H3. destruct (save_elem e key x H1) as (e1 & E1 & El & W1 & H1').
  destruct (save_head e1 w H2) as (e2 & E2 & Hh & W2 & H2').
  exists e2. unfold saveElementAndList, bind. rewrite E1, E2. split; [done|].
  split; [unfold elemAt in *; by rewrite W2|]. split; [done|].
  split; [|congruence]. intros k Hk1 Hk2. by rewrite W2, W1.
Qed.

Lemma elemAt_eq e e' key x : slot e' key = slot e key -> elemAt e key x -> elemAt e' key x.
Proof. unfold elemAt. by intros ->. Qed.

(** ** Segments of the list *)

Definition hdKey (l : list bytes) (next : bytes) : bytes :=
  match l with [] => next | k :: _ => wk k end.
Definition lastKeyOf (prev : bytes) (l : list bytes) : bytes :=
  match last l with Some k => wk k | None => prev end.

Fixpoint seg e (prev : bytes) (l : list bytes) (next : bytes) : Prop :=
  match l with
  | [] => True
  | k :: l' => elemAt e (wk k) (mkElement k prev (hdKey l' next)) /\ seg e (wk k) l' next
  end.

Lemma seg_frame e e' prev l next :
  (forall k, k ∈ l -> slot e' (wk k) = slot e (wk k)) -> seg e prev l next -> seg e' prev l next.
Proof.
  revert prev. induction l as [|k l IH]; intros prev Hf; simpl; [done|]. intros [H1 H2]. split.
  - eapply elemAt_eq; [|done]. apply Hf. left.
  - apply IH; [|done]. intros k' Hk'. apply Hf. by right.
Qed.

Lemma lastKeyOf_cons prev k l : lastKeyOf prev (k :: l) = lastKeyOf (wk k) l.
Proof. unfold lastKeyOf. rewrite last_cons. by destruct (last l). Qed.

Lemma lastKeyOf_snoc prev l k : lastKeyOf prev (l ++ [k]) = wk k.
Proof. unfold lastKeyOf. by rewrite last_snoc. Qed.

Lemma seg_app e prev l1 l2 next :
  seg e prev (l1 ++ l2) next <->
  seg e prev l1 (hdKey l2 next) /\ seg e (lastKeyOf prev l1) l2 next.
Proof.
  revert prev. induction l1 as [|k l1 IH]; intros prev; simpl; [unfold lastKeyOf; simpl; tauto|].
  rewrite IH, lastKeyOf_cons. replace (hdKey (l1 ++ l2) next) with (hdKey l1 (hdKey l2 next))
    by by destruct l1. tauto.
Qed.

(** ** The representation *)

Definition jailedKey (J : list bytes) : bytes := lastKeyOf [] J.

Definition headOf (J N : list bytes) : WaitingList :=
  mkWaitingList (hdKey (J ++ N) []) (lastKeyOf [] (J ++ N)) (Z.of_nat (length (J ++ N))) (jailedKey J).

Record queueRep e (J N : list bytes) : Prop := {
  q_ok : Forall okKey (J ++ N);
  q_nodup : NoDup (J ++ N);
  q_len : Z.of_nat (length (J ++ N)) < MaxUint32;
  q_out : forall k, okKey k -> k ∉ J ++ N -> slot e (wk k) = [];
  q_head : match J ++ N with [] => slot e waitingListHeadKey = [] | _ => headIs e (headOf J N) end;
  q_seg : seg e (hdKey (J ++ N) []) (J ++ N) [];
}.

Lemma queueRep_frame e e' J N :
  (forall k, okKey k -> slot e' (wk k) = slot e (wk k)) ->
  slot e' waitingListHeadKey = slot e waitingListHeadKey ->
  queueRep e J N -> queueRep e' J N.
Proof.
  intros Hf Hh [H1 H2 H3 H4 H5 H6]. split; auto.
  - intros k Hk Hin. rewrite Hf; auto.
  - destruct (J ++ N); [congruence|]. unfold headIs in *. by rewrite Hh.
  - eapply seg_frame; [|done]. intros k Hk. apply Hf. rewrite Forall_forall in H1. auto.
Qed.

Lemma q_in e J N k : queueRep e J N -> k ∈ J ++ N -> slot e (wk k) <> [].
Proof.
  intros Hq Hin. pose proof (q_seg _ _ _ Hq) as Hs.
  apply list_elem_of_split in Hin as (l1 & l2 & E0). rewrite E0 in Hs.
  apply seg_app in Hs as [_ Hs]. by destruct Hs as [[H _] _].
Qed.

Lemma q_inv_head e J N :
  queueRep e J N -> getWaitingListHead e = (e, inr (match J ++ N with [] => emptyHead | _ => headOf J N end)).
Proof.
  intros Hq. pose proof (q_head _ _ _ Hq) as Hh.
  destruct (J ++ N); [by apply get_head_none|by apply get_head].
Qed.
End QueueSpec.

(** ** The linked list is a queue *)

Section Refine.
Context {E : Type} `{EI : SystemEI E} `{EL : !SystemEILaws E}.
Context `{SC : StakingCodec} `{CL : !StakingCodecLaws SC}.
Variables (s : stakingSC) (flags : EpochFlags) (keyLen : nat).
Hypothesis HkeyLen : keyLen <> 11%nat.
Implicit Types (e : E).
Notation okKey := (okKey keyLen).
Notation frame := (frame keyLen).
Notation queueRep := (queueRep keyLen).

(** Only the keys of the waiting list change. *)
Lemma frame_intro e e' (ks : list bytes) :
  Forall okKey ks ->
  (forall key, key <> waitingListHeadKey -> (forall k, k ∈ ks -> key <> wk k) -> slot e' key = slot e key) ->
  eiHook e' = eiHook e -> frame e e'.
Proof.
  intros Hok Hs Hh. split; [|done]. intros key [H1 H2]. apply Hs; [done|].
  intros k Hk. rewrite Forall_forall in Hok. auto.
Qed.

Lemma okKey_other k : okKey k -> otherKey keyLen k.
Proof.
  intros [Hne Hl]. split.
  - intros ->. by rewrite <- Hl in HkeyLen.
  - intros k' [_ Hl'] ->. unfold wk in Hl. rewrite length_app in Hl. simpl in Hl. lia.
Qed.

Lemma queueRep_intro e e' J N J' N' :
  queueRep e J N -> Forall okKey (J' ++ N') -> NoDup (J' ++ N') ->
  Z.of_nat (length (J' ++ N')) < MaxUint32 ->
  (forall k, okKey k -> k ∉ J' ++ N' -> slot e' (wk k) = []) ->
  J' ++ N' <> [] -> headIs e' (headOf J' N') -> seg e' (hdKey (J' ++ N') []) (J' ++ N') [] ->
  queueRep e' J' N'.
Proof. intros _ H1 H2 H3 H4 H5 H6 H7. split; auto. by destruct (J' ++ N'). Qed.

Lemma lastKeyOf_eq p p' l : l <> [] -> lastKeyOf p l = lastKeyOf p' l.
Proof. unfold lastKeyOf. destruct (last l) eqn:El; [done|]. by apply last_None in El. Qed.

(** ** Adding at the end *)

Lemma add_end e first l1 z k w :
  seg e first (l1 ++ [z]) [] -> NoDup ((l1 ++ [z]) ++ [k]) -> k <> [] -> z <> [] ->
  LastKey w = wk z -> Length_ w <> 0 ->
  exists e', addToEndOfTheList w k e = (e', inr tt) /\ headIs e' (withLastKey w (wk k)) /\
    seg e' first ((l1 ++ [z]) ++ [k]) [] /\ eiHook e' = eiHook e /\
    forall key, key <> waitingListHeadKey -> (forall x, x ∈ [z; k] -> key <> wk x) ->
      slot e' key = slot e key.
Proof.
  intros Hs Hnd Hk Hz Hw Hlen. apply seg_app in Hs as [Hs1 [Hz1 _]].
  apply NoDup_app in Hnd as (Hnd & Hk1 & _). apply NoDup_app in Hnd as (Hnd & Hz2 & _).
  assert (Hkz : wk k <> wk z) by (intros ->%wk_inj; apply (Hk1 z); [apply elem_of_app; right|]; left).
  unfold addToEndOfTheList. rewrite Hw. erewrite bind_ok by (by apply get_elem).
  destruct (save_elem e (wk z) (withNext (mkElement z (lastKeyOf first l1) (hdKey [] [])) (wk k)) Hz)
    as (e1 & E1 & El1 & W1 & H1). rewrite (bind_ok _ _ _ _ _ E1).
  destruct (save_both e1 (wk k) (mkElement k (wk z) []) (withLastKey w (wk k)) Hk Hlen (wk_ne_head k))
    as (e2 & E2 & El2 & Hh2 & W2 & H2).
  exists e2. split; [done|]. split; [done|]. split; [|split; [congruence|]].
  - apply seg_app. split.
    + apply seg_app. split.
      * eapply seg_frame; [|exact Hs1]. intros x Hx.
        rewrite W2, W1; [done| | |apply wk_ne_head].
        -- intros ->%wk_inj. apply (Hz2 z Hx). left.
        -- intros ->%wk_inj. apply (Hk1 k); [apply elem_of_app; by left|left].
      * split; [|done]. eapply elemAt_eq; [|exact El1]. apply W2; [by apply not_eq_sym|apply wk_ne_head].
    + split; [|done]. rewrite lastKeyOf_snoc. exact El2.
  - intros key Hh Hx. rewrite W2, W1; [done| | |done]; apply Hx; [left|right; left].
Qed.

(** ** Adding in front *)

Lemma add_front e a l k w :
  CorrectFirstQueuedFlag flags = true ->
  seg e (wk a) (a :: l) [] -> NoDup (k :: a :: l) -> k <> [] -> a <> [] ->
  FirstKey w = wk a -> LastJailedKey w = [] -> Length_ w <> 0 ->
  exists e', insertAfterLastJailed flags w k e = (e', inr tt) /\
    headIs e' (withLastJailedKey (withFirstKey w (wk k)) (wk k)) /\
    seg e' (wk k) (k :: a :: l) [] /\ eiHook e' = eiHook e /\
    forall key, key <> waitingListHeadKey -> (forall x, x ∈ [a; k] -> key <> wk x) ->
      slot e' key = slot e key.
Proof.
  intros Hfl [Ha Hs] Hnd Hk Hane Hw Hj Hlen. rewrite !NoDup_cons in Hnd.
  destruct Hnd as (Hk1 & Ha1 & Hnd).
  assert (Hka : wk k <> wk a) by (intros ->%wk_inj; apply Hk1; left).
  unfold insertAfterLastJailed. rewrite Hj, Hw. change (blen [] =? 0) with true. cbv iota.
  rewrite Hfl. replace (0 <? blen (wk a)) with true
    by (symmetry; apply Z.ltb_lt; unfold blen, wk; rewrite length_app; simpl; lia).
  simpl andb. cbn [when_].
  destruct (save_elem e (wk a) (withPrev (mkElement a (wk a) (hdKey l [])) (wk k)) Hane)
    as (e1 & E1 & El1 & W1 & H1).
  erewrite bind_ok by (erewrite bind_ok by (by apply get_elem); exact E1).
  destruct (save_both e1 (wk k) (mkElement k (wk k) (wk a))
    (withLastJailedKey (withFirstKey w (wk k)) (wk k)) Hk Hlen (wk_ne_head k))
    as (e2 & E2 & El2 & Hh2 & W2 & H2).
  exists e2. split; [done|]. split; [done|]. split; [|split; [congruence|]].
  - split; [exact El2|]. split.
    + eapply elemAt_eq; [|exact El1]. apply W2; [by apply not_eq_sym|apply wk_ne_head].
    + eapply seg_frame; [|exact Hs]. intros x Hx. rewrite W2, W1; [done| | |apply wk_ne_head].
      * intros ->%wk_inj. done.
      * intros ->%wk_inj. apply Hk1. by right.
  - intros key Hh Hx. rewrite W2, W1; [done| | |done]; apply Hx; [left|right; left].
Qed.

(** ** Adding between the jailed keys and the others *)

Lemma add_middle e first l1 j b l2 k w :
  seg e first (l1 ++ j :: b :: l2) [] -> NoDup (k :: l1 ++ j :: b :: l2) ->
  Forall okKey (k :: l1 ++ j :: b :: l2) ->
  LastJailedKey w = wk j -> LastKey w <> wk j -> Length_ w <> 0 ->
  exists e', insertAfterLastJailed flags w k e = (e', inr tt) /\
    headIs e' (withLastJailedKey w (wk k)) /\
    seg e' first (l1 ++ j :: k :: b :: l2) [] /\ eiHook e' = eiHook e /\
    forall key, key <> waitingListHeadKey -> (forall x, x ∈ [j; b; k] -> key <> wk x) ->
      slot e' key = slot e key.
Proof.
  intros Hs Hnd Hok Hj Hl Hlen. apply seg_app in Hs as [Hs1 (Hj1 & Hb1 & Hs2)].
  assert (Hokj : okKey j /\ okKey b /\ okKey k).
  { rewrite Forall_forall in Hok. repeat split; apply Hok;
      repeat (first [left|right; apply elem_of_app; right|right]). }
  destruct Hokj as ([Hjne Hjl] & [Hbne Hbl] & [Hkne Hkl]).
  rewrite NoDup_cons, NoDup_app, !NoDup_cons in Hnd.
  destruct Hnd as (Hk1 & Hnd1 & Hd & Hj2 & Hb2 & Hnd2).
  assert (Hne : wk k <> wk j /\ wk k <> wk b /\ wk j <> wk b).
  { repeat split; intros ->%wk_inj.
    - apply Hk1, elem_of_app. right. left.
    - apply Hk1, elem_of_app. right. right. left.
    - apply Hj2. left. }
  destruct Hne as (Nkj & Nkb & Njb).
  unfold insertAfterLastJailed. rewrite Hj, wk_blen.
  erewrite bind_ok by (by apply get_elem).
  rewrite (proj2 (beq_false (LastKey w) (wk j))) by done.
  erewrite bind_ok by (by apply get_elem). cbn [BLSPublicKey PreviousKey NextKey hdKey].
  assert (Hcopy : forall x, length x = keyLen ->
    copyInto (replicate (length (wk k)) 0) (wk x) = wk x).
  { intros x Hx. apply copyInto_same_length. rewrite length_replicate.
    unfold wk. rewrite !length_app. lia. }
  rewrite !Hcopy by done.
  destruct (save_elem e (wk j) (withNext (mkElement j (lastKeyOf first l1) (wk b)) (wk k)) Hjne)
    as (e1 & E1 & El1 & W1 & H1). erewrite bind_ok by exact E1.
  destruct (save_elem e1 (wk b) (withPrev (mkElement b (wk j) (hdKey l2 [])) (wk k)) Hbne)
    as (e2 & E2 & El2 & W2 & H2). erewrite bind_ok by exact E2.
  destruct (save_elem e2 (wk k) (mkElement k (wk j) (wk b)) Hkne) as (e3 & E3 & El3 & W3 & H3).
  erewrite bind_ok by exact E3.
  destruct (save_head e3 (withLastJailedKey w (wk k)) Hlen) as (e4 & E4 & Hh4 & W4 & H4).
  exists e4. split; [exact E4|]. split; [exact Hh4|].
  assert (W : forall key, key <> waitingListHeadKey -> (forall x, x ∈ [j; b; k] -> key <> wk x) ->
    slot e4 key = slot e key).
  { intros key Hh Hx. rewrite W4, W3, W2, W1; [done|..|done]; apply Hx;
      [left|right; left|right; right; left]. }
  assert (Wl : forall x, x ∈ l1 \/ x ∈ l2 -> slot e4 (wk x) = slot e (wk x)).
  { intros x Hx. apply W; [apply wk_ne_head|]. intros y Hy ->%wk_inj.
    rewrite !elem_of_cons, elem_of_nil in Hy.
    destruct Hy as [->|[->|[->|[]]]], Hx as [Hx|Hx].
    - apply (Hd j Hx). left.
    - apply Hj2. by right.
    - apply (Hd b Hx). right. left.
    - done.
    - apply Hk1, elem_of_app. by left.
    - apply Hk1, elem_of_app. right. right. by right. }
  split; [|split; [congruence|exact W]].
  apply seg_app. split; [|split; [|split; [|split]]].
  - eapply seg_frame; [|exact Hs1]. auto.
  - eapply elemAt_eq; [|exact El1]. rewrite W4, W3, W2; [done|done|by apply not_eq_sym|apply wk_ne_head].
  - eapply elemAt_eq; [|exact El3]. apply W4, wk_ne_head.
  - eapply elemAt_eq; [|exact El2]. rewrite W4, W3; [done|by apply not_eq_sym|apply wk_ne_head].
  - eapply seg_frame; [|exact Hs2]. auto.
Qed.

(** ** addToWaitingList *)

Lemma is_in_list e J N k :
  queueRep e J N -> okKey k ->
  (slen (eiGetStorage e (wk k)) =? 0) = bool_decide (k ∉ J ++ N).
Proof.
  intros Hq Hk. rewrite slen_slot. apply bool_decide_ext. split.
  - intros H Hin. by eapply q_in.
  - intros Hin. by eapply q_out.
Qed.

Definition added e e' J N k (jailed : bool) : Prop :=
  queueRep e' (fst (qAdd k jailed (J, N))) (snd (qAdd k jailed (J, N))) /\ frame e e'.

Lemma NoDup_snoc {A} (l : list A) k : NoDup l -> k ∉ l -> NoDup (l ++ [k]).
Proof.
  intros H1 H2. apply NoDup_app. split; [done|]. split; [|apply NoDup_singleton].
  intros x Hx [= ->]%list_elem_of_singleton. done.
Qed.

Lemma out_after e e' J N (l' : list bytes) k (ks : list bytes) :
  queueRep e J N -> k ∈ l' -> (forall x, x ∈ J ++ N -> x ∈ l') ->
  (forall x, x ∈ ks -> x ∈ l') ->
  (forall key, key <> waitingListHeadKey -> (forall x, x ∈ ks -> key <> wk x) -> slot e' key = slot e key) ->
  forall x, okKey x -> x ∉ l' -> slot e' (wk x) = [].
Proof.
  intros Hq Hk Hsub Hks W x Hx Hin. rewrite W; [|apply wk_ne_head|].
  - eapply q_out; eauto.
  - intros y Hy ->%wk_inj. auto.
Qed.
Lemma start_spec e J N k (jailed : bool) :
  queueRep e J N -> okKey k -> J ++ N = [] ->
  exists e', startWaitingList (withLength emptyHead 1) jailed k e = (e', inr tt) /\
    added e e' J N k jailed.
Proof.
  intros Hq Hk E0. apply app_eq_nil in E0 as E1. destruct E1 as [-> ->].
  unfold startWaitingList.
  set (w := if jailed then _ else _).
  assert (Hw : w = headOf (if jailed then [k] else []) (if jailed then [] else [k]))
    by (subst w; by destruct jailed).
  assert (Hlast : LastKey w = wk k) by (subst w; by destruct jailed). rewrite Hlast.
  destruct (save_both e (wk k) (mkElement k (wk k) []) w (proj1 Hk)) as (e1 & E1 & El & Hh & W & H1).
  { rewrite Hw. by destruct jailed. }
  { apply wk_ne_head. }
  exists e1. split; [exact E1|].
  assert (Hqa : qAdd k jailed ([], []) = (if jailed then [k] else [], if jailed then [] else [k])).
  { unfold qAdd. simpl. by destruct jailed. }
  unfold added. rewrite Hqa. simpl fst. simpl snd.
  assert (Hl : (if jailed then [k] else []) ++ (if jailed then [] else [k]) = [k]) by by destruct jailed.
  split.
  - eapply queueRep_intro; [exact Hq|..]; rewrite ?Hl.
    + by apply Forall_singleton.
    + apply NoDup_singleton.
    + done.
    + apply (out_after e e1 [] [] [k] k [k] Hq); auto; [left|by intros x ?%elem_of_nil|].
      intros key Hn Hx. apply W; [|done]. apply Hx. left.
    + done.
    + rewrite <- Hw. exact Hh.
    + by split.
  - apply (frame_intro e e1 [k]); [by apply Forall_singleton| |done].
    intros key Hn Hx. apply W; [|done]. apply Hx. left.
Qed.

(** The insertion of a key that is not in the list, when the list is not empty. *)
Lemma added_intro e e' J N J' N' (l' : list bytes) k (ks : list bytes) w :
  queueRep e J N -> okKey k -> k ∉ J ++ N ->
  J' ++ N' = l' -> l' ≡ₚ k :: J ++ N ->
  Z.of_nat (length (J ++ N)) + 1 < MaxUint32 ->
  (forall x, x ∈ ks -> x ∈ l') ->
  (forall key, key <> waitingListHeadKey -> (forall x, x ∈ ks -> key <> wk x) -> slot e' key = slot e key) ->
  eiHook e' = eiHook e -> headIs e' w -> w = headOf J' N' -> seg e' (hdKey l' []) l' [] ->
  queueRep e' J' N' /\ frame e e'.
Proof.
  intros Hq Hk Hin El Hp Hlen Hks W Hh Hhd -> Hs.
  assert (Hok : Forall okKey l').
  { rewrite Hp. constructor; [done|]. apply Hq. }
  assert (Hmem : forall x, x ∈ l' <-> x = k \/ x ∈ J ++ N)
    by (intros x; by rewrite Hp, elem_of_cons).
  split.
  - eapply queueRep_intro; [exact Hq|..]; rewrite ?El.
    + done.
    + rewrite Hp. constructor; [done|]. apply Hq.
    + rewrite Hp. simpl. lia.
    + eapply (out_after e e' J N l' k ks Hq); eauto; [by apply Hmem; left|].
      intros x Hx. apply Hmem. by right.
    + intros ->. by apply Permutation_nil_cons in Hp.
    + exact Hhd.
    + exact Hs.
  - apply (frame_intro e e' ks); [|done|done].
    rewrite Forall_forall in *. auto.
Qed.

Lemma jailedKey_nonempty J j : jailedKey (J ++ [j]) = wk j.
Proof. apply lastKeyOf_snoc. Qed.

Lemma addEnd_spec e J N k w (jailed : bool) :
  queueRep e J N -> okKey k -> k ∉ J ++ N -> J ++ N <> [] ->
  Z.of_nat (length (J ++ N)) + 1 < MaxUint32 -> (jailed = true -> N = []) ->
  w = withLength (headOf J N) (Z.of_nat (length (J ++ N)) + 1) ->
  exists e', addToEndOfTheList (if jailed then withLastJailedKey w (wk k) else w) k e = (e', inr tt) /\
    queueRep e' (if jailed then J ++ [k] else J) (if jailed then N else N ++ [k]) /\ frame e e'.
Proof.
  intros Hq Hk Hin Hne Hlen Hj Hw. destruct (snoc_case _ Hne) as (l1 & z & El).
  pose proof (q_seg _ _ _ _ Hq) as Hs. rewrite El in Hs.
  assert (Hz : okKey z).
  { pose proof (q_ok _ _ _ _ Hq) as Hok. rewrite El in Hok. rewrite Forall_forall in Hok. apply Hok.
    apply elem_of_app. right. left. }
  set (w1 := if jailed then withLastJailedKey w (wk k) else w).
  destruct (add_end e (hdKey (l1 ++ [z]) []) l1 z k w1) as (e' & E1 & Hh & Hs' & Hhk & W).
  - exact Hs.
  - rewrite <- El. by apply NoDup_snoc; [apply Hq|].
  - apply Hk.
  - apply Hz.
  - subst w1. rewrite Hw. destruct jailed; simpl; by rewrite El, lastKeyOf_snoc.
  - subst w1. rewrite Hw. destruct jailed; simpl; lia.
  - exists e'. split; [exact E1|].
    eapply (added_intro e e' J N _ _ ((J ++ N) ++ [k]) k [z; k] (withLastKey w1 (wk k))); auto.
    + destruct jailed; [rewrite (Hj eq_refl), !app_nil_r; done|by rewrite app_assoc].
    + by rewrite Permutation_app_comm.
    + intros x. rewrite !elem_of_cons, elem_of_nil, El, !elem_of_app, !list_elem_of_singleton. tauto.
    + assert (Hd : hdKey ((J ++ N) ++ [k]) [] = hdKey (J ++ N) []) by (rewrite El; by destruct l1).
      unfold headOf, withLastKey. destruct jailed.
      * rewrite (Hj eq_refl) in *. rewrite !app_nil_r in *. rewrite Hd. subst w1. rewrite Hw. simpl.
        unfold jailedKey. rewrite length_app, lastKeyOf_snoc. simpl. f_equal; [by rewrite app_nil_r|lia].
      * rewrite app_assoc, Hd. subst w1. rewrite Hw. simpl.
        rewrite length_app, lastKeyOf_snoc. simpl. f_equal. rewrite !length_app. simpl. lia.
    + assert (Hd : hdKey ((J ++ N) ++ [k]) [] = hdKey (l1 ++ [z]) []) by (rewrite El; by destruct l1).
      rewrite Hd, El. exact Hs'.
Qed.

Lemma addJailed_spec e J N k w :
  CorrectFirstQueuedFlag flags = true ->
  queueRep e J N -> okKey k -> k ∉ J ++ N -> J ++ N <> [] ->
  Z.of_nat (length (J ++ N)) + 1 < MaxUint32 ->
  w = withLength (headOf J N) (Z.of_nat (length (J ++ N)) + 1) ->
  exists e', insertAfterLastJailed flags w k e = (e', inr tt) /\
    queueRep e' (J ++ [k]) N /\ frame e e'.
Proof.
  intros Hfl Hq Hk Hin Hne Hlen Hw.
  pose proof (q_seg _ _ _ _ Hq) as Hs. pose proof (q_ok _ _ _ _ Hq) as Hok.
  pose proof (q_nodup _ _ _ _ Hq) as Hnd.
  destruct (decide (J = [])) as [->|HJ].
  - destruct N as [|a N]; [done|]. simpl app in *.
    destruct (add_front e a N k w Hfl) as (e' & E1 & Hh & Hs' & Hhk & W); auto.
    + by constructor.
    + apply Hk.
    + inversion Hok as [|? ? [Ha _]]; subst. done.
    + by rewrite Hw.
    + by rewrite Hw.
    + rewrite Hw. simpl. lia.
    + exists e'. split; [exact E1|].
      eapply (added_intro e e' [] (a :: N) [k] (a :: N) (k :: a :: N) k [a; k]); eauto.
      * intros x. rewrite !elem_of_cons, elem_of_nil. tauto.
      * rewrite Hw. unfold headOf, withLastJailedKey, withFirstKey, withLength. cbn. f_equal. lia.
  - destruct (snoc_case _ HJ) as (J1 & j & ->).
    assert (Hjk : LastJailedKey w = wk j) by (rewrite Hw; apply jailedKey_nonempty).
    destruct N as [|b N].
    + (* the last jailed key is the last of the list *)
      destruct (addEnd_spec e (J1 ++ [j]) [] k w true) as (e' & E1 & Hr & Hf); auto.
      exists e'. split; [|split; [exact Hr|exact Hf]].
      unfold insertAfterLastJailed. rewrite Hjk, wk_blen.
      rewrite app_nil_r in Hs. apply seg_app in Hs as [_ [Hj1 _]].
      erewrite bind_ok by (by apply get_elem).
      assert (LastKey w = wk j) as ->.
      { rewrite Hw. cbn. by rewrite app_nil_r, lastKeyOf_snoc. }
      rewrite beq_refl. exact E1.
    + rewrite <- app_assoc in Hs, Hok, Hnd, Hin. simpl app in Hs, Hok, Hnd, Hin.
      destruct (add_middle e (hdKey (J1 ++ j :: b :: N) []) J1 j b N k w)
        as (e' & E1 & Hh & Hs' & Hhk & W); auto.
      * by constructor.
      * rewrite Hw. cbn. rewrite <- app_assoc. simpl app.
        replace (J1 ++ j :: b :: N) with ((J1 ++ [j]) ++ b :: N) by by rewrite <- app_assoc.
        intros Heq. unfold lastKeyOf in Heq. rewrite last_app_cons in Heq.
        destruct (last (b :: N)) as [z|] eqn:Ez; [|by apply last_None in Ez].
        apply wk_inj in Heq. subst z. apply NoDup_app in Hnd as (_ & _ & Hnd).
        rewrite NoDup_cons in Hnd. destruct Hnd as [Hnd _]. apply Hnd.
        apply last_Some in Ez as [l' ->]. apply elem_of_app. right. left.
      * rewrite Hw. simpl. lia.
      * exists e'. split; [exact E1|].
        eapply (added_intro e e' (J1 ++ [j]) (b :: N) _ _ (J1 ++ j :: k :: b :: N) k [j; b; k]); eauto.
        -- by rewrite <- app_assoc.
        -- by rewrite <- !app_assoc.
        -- rewrite <- !app_assoc. simpl. rewrite <- !Permutation_middle.
           rewrite (Permutation_swap k j). done.
        -- intros x. rewrite !elem_of_cons, elem_of_nil, elem_of_app, !elem_of_cons. tauto.
        -- rewrite Hw. unfold headOf, withLastJailedKey, withLength. rewrite !jailedKey_nonempty.
           cbn [FirstKey LastKey Length_]. rewrite <- !app_assoc. simpl app. f_equal.
           ++ by destruct J1.
           ++ replace (J1 ++ j :: b :: N) with ((J1 ++ [j]) ++ b :: N) by by rewrite <- app_assoc.
              replace (J1 ++ j :: k :: b :: N) with ((J1 ++ [j; k]) ++ b :: N) by by rewrite <- app_assoc.
              unfold lastKeyOf. by rewrite !last_app_cons.
           ++ rewrite !length_app. simpl. lia.
        -- assert (Hd : hdKey (J1 ++ j :: k :: b :: N) [] = hdKey (J1 ++ j :: b :: N) [])
             by by destruct J1.
           rewrite Hd. exact Hs'.
Qed.

Lemma addToWaitingList_spec e J N k (jailed : bool) :
  CorrectFirstQueuedFlag flags = true ->
  queueRep e J N -> okKey k -> Z.of_nat (length (J ++ N)) + 1 < MaxUint32 ->
  exists e', addToWaitingList flags k jailed e = (e', inr tt) /\ added e e' J N k jailed.
Proof.
  intros Hfl Hq Hk Hlen. unfold addToWaitingList.
  erewrite bind_ok by reflexivity. rewrite (is_in_list _ _ _ _ Hq Hk).
  destruct (decide (k ∈ J ++ N)) as [Hin|Hin].
  - rewrite bool_decide_eq_false_2 by (intros ?; done). exists e. split; [done|].
    unfold added, qAdd. simpl. rewrite decide_True by done. split; [done|]. by split.
  - rewrite bool_decide_eq_true_2 by done. change (negb true) with false. cbv iota.
rewrite (bind_ok _ _ _ _ _ (q_inv_head _ _ _ _ Hq)).
    destruct (J ++ N) as [|a l] eqn:El.
    + apply start_spec; auto.
    + rewrite <- El in *. assert (Hne : J ++ N <> []) by by rewrite El.
      assert (Hu : u32 (Length_ (headOf J N) + 1) = Z.of_nat (length (J ++ N)) + 1).
      { simpl. apply u32_succ. lia. }
      rewrite Hu. cbn [Length_ withLength].
      rewrite (proj2 (Z.eqb_neq _ 1)) by (rewrite El; simpl; lia).
      unfold added, qAdd. simpl fst. simpl snd. rewrite decide_False by done.
      destruct jailed; simpl fst; simpl snd.
      * by apply addJailed_spec.
      * destruct (addEnd_spec e J N k _ false Hq Hk Hin Hne Hlen ltac:(done) eq_refl)
          as (e' & E1 & Hr & Hf). exists e'. auto.
Qed.
End Refine.
