(* ===== verification/StakingQueueRemove.v ===== *)
(** * Removing from the waiting list refines removing from the queue; the list is
    read back in order. *)

From stdpp Require Import base list gmap strings.
From Stdlib Require Import ZArith Lia.
From S2P Require Import Prelude SystemEI StakingData StakingQueue StakingQueueSpec.
From S2P Require Import StakingQueueSpec.

(** ** Lists without duplicates *)

Lemma filter_ne_notin {A} `{EqDecision A} (k : A) (l : list A) : k ∉ l -> filter (fun x => x <> k) l = l.
Proof.
  induction l as [|x l IH]; [done|]. rewrite not_elem_of_cons. intros [H1 H2].
  rewrite filter_cons, decide_True by congruence. by rewrite IH.
Qed.

Lemma filter_ne_middle {A} `{EqDecision A} (k : A) (l1 l2 : list A) :
  NoDup (l1 ++ k :: l2) -> filter (fun x => x <> k) (l1 ++ k :: l2) = l1 ++ l2.
Proof.
  rewrite NoDup_app, NoDup_cons. intros (_ & H1 & H2 & _).
  rewrite filter_app, filter_cons, decide_False by (intros ?; done).
  assert (Hk : k ∉ l1) by (intros Hin; apply (H1 k Hin); left).
  by rewrite (filter_ne_notin k l1), (filter_ne_notin k l2).
Qed.

Section Remove.
Context {E : Type} `{EI : SystemEI E} `{EL : !SystemEILaws E}.
Context `{SC : StakingCodec} `{CL : !StakingCodecLaws SC}.
Variables (s : stakingSC) (flags : EpochFlags) (keyLen : nat).
Hypothesis HkeyLen : keyLen <> 11%nat.
Hypothesis Hfirst : CorrectFirstQueuedFlag flags = true.
Hypothesis Hlast : CorrectLastUnJailedFlag flags = true.
Implicit Types (e : E).
Notation okKey := (okKey keyLen).
Notation frame := (frame keyLen).
Notation queueRep := (queueRep keyLen).

(** What is left after the removal of [k] from [l1 ++ k :: l2], for a head [w]. *)
Record removed e0 e' (l1 : list bytes) (k : bytes) (l2 : list bytes) (w : WaitingList) : Prop := {
  rm_slot : slot e' (wk k) = [];
  rm_head : headIs e' w;
  rm_seg : seg e' (hdKey (l1 ++ l2) []) (l1 ++ l2) [];
  rm_hook : eiHook e' = eiHook e0;
  rm_frame : forall key, key <> waitingListHeadKey ->
    (forall x, x ∈ l1 ++ k :: l2 -> key <> wk x) -> slot e' key = slot e0 key;
}.

Ltac in_list := rewrite ?elem_of_app, ?elem_of_cons, ?list_elem_of_singleton; tauto.

Lemma removeFirst_spec e0 k b l2 w :
  slot e0 (wk k) = [] -> Forall okKey (k :: b :: l2) -> NoDup (k :: b :: l2) ->
  seg e0 (wk k) (b :: l2) [] -> Length_ w <> 0 ->
  exists e', removeFirst w (wk k) (mkElement k (wk k) (wk b)) e0 = (e', inr tt) /\
    removed e0 e' [] k (b :: l2)
      (withFirstKey (if beq (wk k) (LastJailedKey w) then withLastJailedKey w [] else w) (wk b)).
Proof.
  intros Hk Hok Hnd (Hb & Hs) Hlen. unfold removeFirst. cbn [NextKey].
  erewrite bind_ok by (by apply get_elem).
  set (w' := if beq (wk k) (LastJailedKey w) then withLastJailedKey w [] else w).
  assert (Hw' : Length_ (withFirstKey w' (wk b)) <> 0)
    by (subst w'; by destruct (beq (wk k) (LastJailedKey w))).
  inversion Hok as [|? ? Hokk Hok1]; subst. inversion Hok1 as [|? ? Hokb _]; subst.
  rewrite !NoDup_cons in Hnd. destruct Hnd as (Hk1 & Hb1 & _).
  destruct (save_both e0 (wk b) (withPrev (mkElement b (wk k) (hdKey l2 [])) (wk b))
    (withFirstKey w' (wk b)) (proj1 Hokb) Hw' (wk_ne_head b)) as (e1 & E1 & El & Hh & W & H1).
  exists e1. split; [exact E1|]. split; auto.
  - rewrite W; [done| |apply wk_ne_head]. intros ->%wk_inj. apply Hk1. left.
  - split; [exact El|]. eapply seg_frame; [|exact Hs]. intros x Hx. apply W; [|apply wk_ne_head].
    intros ->%wk_inj. done.
  - intros key Hne Hx. apply W; [|done]. apply Hx. in_list.
Qed.

Lemma unlink_last e0 p l1 a k w :
  slot e0 (wk k) = [] -> Forall okKey ((l1 ++ [a]) ++ [k]) -> NoDup ((l1 ++ [a]) ++ [k]) ->
  p = hdKey (l1 ++ [a]) [] -> seg e0 p (l1 ++ [a]) (wk k) -> Length_ w <> 0 ->
  exists e', unlinkElement w (mkElement a (lastKeyOf p l1) (wk k)) (mkElement k (wk a) []) e0 = (e', inr tt) /\
    removed e0 e' (l1 ++ [a]) k [] (withLastKey w (wk a)).
Proof.
  intros Hk Hok Hnd Hp Hs Hlen. unfold unlinkElement. cbn [NextKey PreviousKey].
  change (blen [] =? 0) with true. cbv iota.
  apply seg_app in Hs as [Hs [Ha _]].
  rewrite NoDup_app in Hnd. destruct Hnd as (Hnd & Hk1 & _).
  rewrite NoDup_app in Hnd. destruct Hnd as (_ & Ha1 & _).
  assert (Hoka : okKey a) by (rewrite Forall_forall in Hok; apply Hok; in_list).
  assert (Hka : wk k <> wk a).
  { intros ->%wk_inj. apply (Hk1 a); in_list. }
  destruct (save_both e0 (wk a) (withNext (mkElement a (lastKeyOf p l1) (wk k)) [])
    (withLastKey w (wk a)) (proj1 Hoka) Hlen (wk_ne_head a)) as (e1 & E1 & El & Hh & W & H1).
  exists e1. split; [exact E1|]. split; auto.
  - rewrite W; [done|done|apply wk_ne_head].
  - rewrite !app_nil_r. rewrite <- Hp. apply seg_app. split; [|split; [exact El|done]].
    eapply seg_frame; [|exact Hs]. intros x Hx. apply W; [|apply wk_ne_head].
    intros ->%wk_inj. apply (Ha1 a Hx). left.
  - intros key Hne Hx. apply W; [|done]. apply Hx. in_list.
Qed.

Lemma unlink_middle e0 p l1 a k b l2 w :
  slot e0 (wk k) = [] -> Forall okKey ((l1 ++ [a]) ++ k :: b :: l2) ->
  NoDup ((l1 ++ [a]) ++ k :: b :: l2) ->
  p = hdKey (l1 ++ [a]) [] -> seg e0 p (l1 ++ [a]) (wk k) -> seg e0 (wk k) (b :: l2) [] ->
  Length_ w <> 0 ->
  exists e', unlinkElement w (mkElement a (lastKeyOf p l1) (wk k)) (mkElement k (wk a) (wk b)) e0 = (e', inr tt) /\
    removed e0 e' (l1 ++ [a]) k (b :: l2) w.
Proof.
  intros Hk Hok Hnd Hp Hs [Hb Hs2] Hlen. unfold unlinkElement. cbn [NextKey PreviousKey].
  rewrite wk_blen. apply seg_app in Hs as [Hs [Ha _]].
  rewrite NoDup_app, !NoDup_cons in Hnd. destruct Hnd as (Hnd & Hd & Hk2 & Hb2 & _).
  rewrite NoDup_app in Hnd. destruct Hnd as (_ & Ha1 & _).
  assert (Hoka : okKey a) by (rewrite Forall_forall in Hok; apply Hok; in_list).
  assert (Hokb : okKey b) by (rewrite Forall_forall in Hok; apply Hok; in_list).
  assert (Hka : wk k <> wk a) by (intros ->%wk_inj; apply (Hd a); in_list).
  assert (Hkb : wk k <> wk b) by (intros ->%wk_inj; apply Hk2; in_list).
  assert (Hab : wk a <> wk b) by (intros ->%wk_inj; apply (Hd b); in_list).
  erewrite bind_ok by (by apply get_elem).
  destruct (save_elem e0 (wk b) (withPrev (mkElement b (wk k) (hdKey l2 [])) (wk a)) (proj1 Hokb))
    as (e1 & E1 & El1 & W1 & H1). erewrite bind_ok by exact E1.
  destruct (save_both e1 (wk a) (withNext (mkElement a (lastKeyOf p l1) (wk k)) (wk b))
    w (proj1 Hoka) Hlen (wk_ne_head a)) as (e2 & E2 & El2 & Hh & W2 & H2).
  exists e2. split; [exact E2|]. split; auto.
  - rewrite W2, W1; [done|done|done|apply wk_ne_head].
  - rewrite <- app_assoc. simpl app.
    replace (hdKey (l1 ++ a :: b :: l2) []) with p by (subst; by destruct l1).
    apply seg_app. split; [|split; [|split]].
    + eapply seg_frame; [|exact Hs]. intros x Hx. rewrite W2, W1; [done| | |apply wk_ne_head].
      * intros ->%wk_inj. apply (Hd b); in_list.
      * intros ->%wk_inj. apply (Ha1 a Hx). left.
    + exact El2.
    + eapply elemAt_eq; [|exact El1]. apply W2; [by apply not_eq_sym|apply wk_ne_head].
    + eapply seg_frame; [|exact Hs2]. intros x Hx. rewrite W2, W1; [done| | |apply wk_ne_head].
      * intros ->%wk_inj. done.
      * intros ->%wk_inj. apply (Hd a); in_list.
  - congruence.
  - intros key Hne Hx. rewrite W2, W1; [done| | |done]; apply Hx; in_list.
Qed.

(** ** removeFromWaitingList, for the position of the key *)

Definition headAfter (w : WaitingList) (l1 : list bytes) (k : bytes) (l2 : list bytes) : WaitingList :=
  mkWaitingList (hdKey (l1 ++ l2) []) (lastKeyOf [] (l1 ++ l2)) (Length_ w - 1)
    (if beq (wk k) (LastJailedKey w) then lastKeyOf [] l1 else LastJailedKey w).

Lemma lastKeyOf_app p l1 b l2 : lastKeyOf p (l1 ++ b :: l2) = lastKeyOf [] (b :: l2).
Proof.
  unfold lastKeyOf. rewrite last_app_cons. destruct (last (b :: l2)) eqn:El; [done|].
  by apply last_None in El.
Qed.

Lemma remove_list e l1 k l2 w :
  Forall okKey (l1 ++ k :: l2) -> NoDup (l1 ++ k :: l2) ->
  seg e (hdKey (l1 ++ k :: l2) []) (l1 ++ k :: l2) [] -> headIs e w ->
  FirstKey w = hdKey (l1 ++ k :: l2) [] -> LastKey w = lastKeyOf [] (l1 ++ k :: l2) ->
  Length_ w = Z.of_nat (length (l1 ++ k :: l2)) -> l1 ++ l2 <> [] ->
  exists e', removeFromWaitingList flags k e = (e', inr tt) /\
    removed e e' l1 k l2 (headAfter w l1 k l2).
Proof.
  intros Hok Hnd Hs Hh Hwf Hwl Hwlen Hne.
  pose proof Hs as Hs0. apply seg_app in Hs0 as [Hs1 [Hk Hs2]].
  set (e0 := eiSetStorage e (wk k) None).
  destruct (wrote_set e (wk k) None) as [W0 H0]. fold e0 in W0, H0.
  assert (Hk0 : slot e0 (wk k) = []) by apply slot_set_eq.
  rewrite NoDup_app, NoDup_cons in Hnd. destruct Hnd as (Hnd1 & Hd & Hk2 & Hnd2).
  assert (Hs1' : seg e0 (hdKey (l1 ++ k :: l2) []) l1 (wk k)).
  { eapply seg_frame; [|exact Hs1]. intros x Hx. apply W0. intros ->%wk_inj. apply (Hd k Hx). left. }
  assert (Hs2' : seg e0 (wk k) l2 []).
  { eapply seg_frame; [|exact Hs2]. intros x Hx. apply W0. by intros ->%wk_inj. }
  assert (Hh0 : headIs e0 w).
  { unfold headIs in *. rewrite W0; [done|]. by apply not_eq_sym, wk_ne_head. }
  assert (Hconv : forall e' w', removed e0 e' l1 k l2 w' -> removed e e' l1 k l2 w').
  { intros e' w' []. split; auto; [congruence|]. intros key H1 H2. rewrite rm_frame0 by done.
    apply W0. apply H2. in_list. }
  unfold removeFromWaitingList. erewrite bind_ok by reflexivity.
  rewrite slen_slot. rewrite bool_decide_eq_false_2 by apply Hk.
  erewrite bind_ok by reflexivity. fold e0.
  change (default [] (eiGetStorage e (wk k))) with (slot e (wk k)). rewrite (proj2 Hk).
  erewrite bind_ok by reflexivity. rewrite (bind_ok _ _ _ _ _ (get_head _ _ Hh0)).
  assert (Hlen : 2 <= Length_ w).
  { rewrite Hwlen. rewrite length_app. simpl. destruct l1, l2; simpl in *; try done; lia. }
  rewrite (proj2 (Z.eqb_neq (Length_ w) 0)) by lia. cbn [Length_ withLength].
  rewrite (proj2 (Z.eqb_neq (Length_ w - 1) 0)) by lia.
  rewrite Hfirst, Hlast. cbn [FirstKey withLength]. rewrite Hwf.
  change (negb true) with false. rewrite andb_false_l, orb_false_l, andb_true_l.
  destruct (snoc_or_nil l1) as [->|(l1' & a & ->)].
  - destruct l2 as [|b l2]; [done|]. simpl hdKey. rewrite beq_refl.
    destruct (removeFirst_spec e0 k b l2 (withLength w (Length_ w - 1))) as (e' & E1 & Hr); auto.
    { by rewrite !NoDup_cons in *. }
    { simpl. lia. }
    exists e'. split; [exact E1|]. apply Hconv. unfold headAfter.
    replace (mkWaitingList _ _ _ _) with
      (withFirstKey (if beq (wk k) (LastJailedKey (withLength w (Length_ w - 1)))
         then withLastJailedKey (withLength w (Length_ w - 1)) [] else withLength w (Length_ w - 1)) (wk b));
      [exact Hr|].
    cbn [LastJailedKey withLength]. change ([] ++ b :: l2) with (b :: l2).
    change ([] ++ k :: b :: l2) with ([k] ++ b :: l2) in Hwl. rewrite lastKeyOf_app in Hwl.
    destruct (beq (wk k) (LastJailedKey w)); unfold withFirstKey, withLastJailedKey, withLength; simpl;
      by rewrite Hwl.
  - assert (Hf : beq (hdKey ((l1' ++ [a]) ++ k :: l2) []) (wk k) = false).
    { apply beq_false. intros Heq.
      assert (Hin : exists z, z ∈ l1' ++ [a] /\ hdKey ((l1' ++ [a]) ++ k :: l2) [] = wk z).
      { destruct l1' as [|z l1']; [exists a|exists z]; (split; [in_list|done]). }
      destruct Hin as (z & Hin & Hz). rewrite Hz in Heq. apply wk_inj in Heq. subst z.
      apply (Hd k Hin). left. }
    rewrite Hf. rewrite lastKeyOf_snoc. cbn [LastJailedKey withLength PreviousKey].
    change (negb true) with false. rewrite orb_false_l.
    set (w1 := if beq (wk k) (LastJailedKey w) then _ else _).
    assert (Hw1 : Length_ w1 = Length_ w - 1 /\ FirstKey w1 = FirstKey w /\ LastKey w1 = LastKey w /\
      LastJailedKey w1 = if beq (wk k) (LastJailedKey w) then wk a else LastJailedKey w)
      by (subst w1; by destruct (beq (wk k) (LastJailedKey w))).
    destruct Hw1 as (Hw1 & Hw2 & Hw3 & Hw4).
    assert (Hprev : previousOf flags w1 (wk k) (mkElement k (wk a) (hdKey l2 [])) e0 =
      (e0, inr (mkElement a (lastKeyOf (hdKey ((l1' ++ [a]) ++ k :: l2) []) l1') (wk k),
                mkElement k (wk a) (hdKey l2 [])))).
    { apply seg_app in Hs1' as [_ [Ha _]]. unfold previousOf, tryElement, bind. cbn [PreviousKey].
      by rewrite (get_elem _ _ _ Ha). }
    rewrite (bind_ok _ _ _ _ _ Hprev).
    assert (Hp : hdKey ((l1' ++ [a]) ++ k :: l2) [] = hdKey (l1' ++ [a]) []) by by destruct l1'.
    destruct l2 as [|b l2].
    + destruct (unlink_last e0 (hdKey ((l1' ++ [a]) ++ [k]) []) l1' a k w1) as (e' & E1 & Hr); auto.
      { by rewrite NoDup_app, NoDup_cons. }
      { lia. }
      exists e'. split; [exact E1|]. apply Hconv. unfold headAfter.
      rewrite app_nil_r, lastKeyOf_snoc, <- Hp, <- Hwf, <- Hw1, <- Hw2, <- Hw4. exact Hr.
    + destruct (unlink_middle e0 (hdKey ((l1' ++ [a]) ++ k :: b :: l2) []) l1' a k b l2 w1)
        as (e' & E1 & Hr); auto.
      { by rewrite NoDup_app, NoDup_cons. }
      { lia. }
      exists e'. split; [exact E1|]. apply Hconv.
      replace (headAfter w (l1' ++ [a]) k (b :: l2)) with w1; [exact Hr|].
      unfold headAfter. rewrite lastKeyOf_snoc, <- Hw1, <- Hw4.
      assert (Hfk : hdKey ((l1' ++ [a]) ++ b :: l2) [] = FirstKey w1)
        by (rewrite Hw2, Hwf; by destruct l1').
      assert (Hlk : lastKeyOf [] ((l1' ++ [a]) ++ b :: l2) = LastKey w1).
      { rewrite Hw3, Hwl. rewrite lastKeyOf_app.
        change (k :: b :: l2) with ([k] ++ b :: l2). by rewrite app_assoc, lastKeyOf_app. }
      rewrite Hfk, Hlk. by destruct w1.
Qed.
(** The last element of the list. *)
Lemma remove_single e k w :
  okKey k -> seg e (wk k) [k] [] -> headIs e w -> Length_ w = 1 ->
  exists e', removeFromWaitingList flags k e = (e', inr tt) /\
    slot e' (wk k) = [] /\ slot e' waitingListHeadKey = [] /\ eiHook e' = eiHook e /\
    forall key, key <> waitingListHeadKey -> key <> wk k -> slot e' key = slot e key.
Proof.
  intros Hok [Hk _] Hh Hlen.
  assert (Hh0 : headIs (eiSetStorage e (wk k) None) w).
  { unfold headIs in *. rewrite slot_set_ne; [done|]. by apply not_eq_sym, wk_ne_head. }
  exists (eiSetStorage (eiSetStorage e (wk k) None) waitingListHeadKey None). split.
  - unfold removeFromWaitingList. erewrite bind_ok by reflexivity.
    rewrite slen_slot. rewrite bool_decide_eq_false_2 by apply Hk.
    erewrite bind_ok by reflexivity.
    change (default [] (eiGetStorage e (wk k))) with (slot e (wk k)). rewrite (proj2 Hk).
    erewrite bind_ok by reflexivity. rewrite (bind_ok _ _ _ _ _ (get_head _ _ Hh0)).
    cbn [Length_ withLength]. by rewrite Hlen.
  - rewrite slot_set_ne by apply wk_ne_head. rewrite !slot_set_eq, !hook_set.
    split; [done|]. split; [done|]. split; [done|].
    intros key H1 H2. by rewrite !slot_set_ne.
Qed.

(** The position of a key in the two lists. *)
Lemma queue_split J N k :
  NoDup (J ++ N) -> k ∈ J ++ N ->
  exists l1 l2, J ++ N = l1 ++ k :: l2 /\
    fst (qRemove k (J, N)) ++ snd (qRemove k (J, N)) = l1 ++ l2 /\
    jailedKey (fst (qRemove k (J, N))) = if beq (wk k) (jailedKey J) then lastKeyOf [] l1 else jailedKey J.
Proof.
  intros Hnd Hin. unfold qRemove. simpl fst. simpl snd.
  assert (Hfil : forall l1 l2, J ++ N = l1 ++ k :: l2 ->
    filter (fun x => x <> k) J ++ filter (fun x => x <> k) N = l1 ++ l2).
  { intros l1 l2 El. rewrite <- filter_app, El. apply filter_ne_middle. by rewrite <- El. }
  destruct (decide (k ∈ J)) as [HJ|HJ].
  - apply list_elem_of_split in HJ as (J1 & J2 & ->).
    exists J1, (J2 ++ N). rewrite <- app_assoc in *. simpl app in *. split; [done|].
    split; [by apply Hfil|].
    rewrite filter_ne_middle by (rewrite NoDup_app in *; rewrite !NoDup_cons in *;
      destruct Hnd as (? & Hd & ? & Hnd2); rewrite NoDup_app in Hnd2;
      split; [done|]; split; [|split; [|apply Hnd2]]; [|by rewrite elem_of_app in *; auto];
      intros x Hx; specialize (Hd x Hx); rewrite elem_of_cons, elem_of_app in *; tauto).
    unfold jailedKey. destruct (snoc_or_nil J2) as [->|(J2' & z & ->)].
    + by rewrite lastKeyOf_snoc, beq_refl, app_nil_r.
    + replace (J1 ++ k :: J2' ++ [z]) with ((J1 ++ k :: J2') ++ [z]) by by rewrite <- app_assoc.
      rewrite app_assoc, !lastKeyOf_snoc. rewrite (proj2 (beq_false _ _)); [done|].
      intros ->%wk_inj. rewrite NoDup_app, NoDup_cons in Hnd. destruct Hnd as (_ & _ & Hk & _).
      apply Hk. rewrite !elem_of_app, list_elem_of_singleton. tauto.
  - apply elem_of_app in Hin as [?|HN]; [done|].
    apply list_elem_of_split in HN as (N1 & N2 & EN).
    assert (El : J ++ N = (J ++ N1) ++ k :: N2) by (by rewrite EN, app_assoc).
    exists (J ++ N1), N2. split; [done|]. split; [by apply Hfil|].
    rewrite filter_ne_notin by done. unfold jailedKey.
    rewrite (proj2 (beq_false _ _)); [done|]. unfold lastKeyOf.
    destruct (last J) as [j|] eqn:Ej; [|done]. intros ->%wk_inj.
    apply HJ. by apply last_Some_elem_of in Ej.
Qed.

Lemma removeFromWaitingList_spec e J N k :
  queueRep e J N -> okKey k ->
  exists e', removeFromWaitingList flags k e = (e', inr tt) /\
    queueRep e' (fst (qRemove k (J, N))) (snd (qRemove k (J, N))) /\ frame e e'.
Proof.
  intros Hq Hk. destruct (decide (k ∈ J ++ N)) as [Hin|Hin].
  - pose proof (q_nodup _ _ _ _ Hq) as Hnd. pose proof (q_ok _ _ _ _ Hq) as Hok.
    pose proof (q_head _ _ _ _ Hq) as Hh. pose proof (q_seg _ _ _ _ Hq) as Hs.
    pose proof (q_len _ _ _ _ Hq) as Hlen.
    destruct (queue_split J N k Hnd Hin) as (l1 & l2 & El & Ef & Ej).
    set (J' := fst (qRemove k (J, N))) in *. set (N' := snd (qRemove k (J, N))) in *.
    assert (Hh' : headIs e (headOf J N)) by (by rewrite El in Hh; destruct l1).
    assert (Hlen1 : length (J ++ N) = S (length (l1 ++ l2)))
      by (rewrite El, !length_app; simpl; lia).
    assert (Hmem : forall x, x ∈ J ++ N <-> x = k \/ x ∈ l1 ++ l2)
      by (intros x; rewrite El, !elem_of_app, elem_of_cons; tauto).
    rewrite El in Hnd, Hok, Hs.
    assert (Hnd' : NoDup (l1 ++ l2) /\ k ∉ l1 ++ l2).
    { pose proof Hnd as Hnd'. rewrite <- Permutation_middle, NoDup_cons in Hnd'. tauto. }
    assert (Hok' : Forall okKey (l1 ++ l2)).
    { rewrite <- Permutation_middle in Hok. by inversion Hok. }
    destruct (decide (l1 ++ l2 = [])) as [E0|Hne].
    + apply app_eq_nil in E0 as E0'. destruct E0' as [-> ->]. simpl app in *.
      destruct (remove_single e k (headOf J N) Hk Hs Hh') as (e' & E1 & S1 & S2 & Hhk & W);
        [simpl; by rewrite El|].
      exists e'. split; [done|]. split.
      * split; rewrite ?Ef; [constructor|constructor|done| |done|done].
        intros x Hx _. destruct (decide (x = k)) as [->|Hxk]; [done|].
        rewrite W; [|apply wk_ne_head|by intros ->%wk_inj].
        apply (q_out _ _ _ _ Hq x Hx). rewrite El. intros ->%list_elem_of_singleton. done.
      * apply (frame_intro keyLen e e' [k]); [by apply Forall_singleton| |done].
        intros key H1 H2. apply W; [done|]. apply H2. left.
    + destruct (remove_list e l1 k l2 (headOf J N)) as (e' & E1 & [R1 R2 R3 R4 R5]); auto.
      { simpl. by rewrite El. }
      { simpl. by rewrite El. }
      { simpl. by rewrite El. }
      exists e'. split; [done|]. split.
      * apply (queueRep_intro keyLen e e' J N J' N' Hq); rewrite ?Ef; try done; try apply Hnd'.
        -- lia.
        -- intros x Hx Hnx. destruct (decide (x = k)) as [->|Hxk]; [done|].
           rewrite R5; [|apply wk_ne_head|].
           ++ apply (q_out _ _ _ _ Hq x Hx). rewrite Hmem. tauto.
           ++ intros y Hy ->%wk_inj. rewrite <- El, Hmem in Hy. tauto.
        -- replace (headOf J' N') with (headAfter (headOf J N) l1 k l2); [done|].
           unfold headAfter, headOf. rewrite Ef, Ej. cbn [Length_ LastJailedKey]. f_equal. lia.
      * apply (frame_intro keyLen e e' (l1 ++ k :: l2)); auto.
  - exists e. split; [|split; [|done]].
    + unfold removeFromWaitingList. erewrite bind_ok by reflexivity.
      rewrite (is_in_list keyLen _ _ _ _ Hq Hk). by rewrite bool_decide_eq_true_2.
    + rewrite not_elem_of_app in Hin. destruct Hin. unfold qRemove. simpl.
      by rewrite !filter_ne_notin.
Qed.

(** ** Reading the list *)

(** The registration data of a key. *)
Definition regData e (k : bytes) (d : StakedDataV2_0) : Prop :=
  getOrCreateRegisteredData k e = (e, inr d).

Lemma firstElementsLoop_spec e first l1 l ds fuel head numNodes idx acc :
  seg e (lastKeyOf first l1) l [] -> Forall okKey l -> l <> [] ->
  Forall2 (regData e) l ds -> Z.of_nat (length (l1 ++ l)) <= Length_ head ->
  Length_ head < MaxUint32 -> Length_ head <= numNodes ->
  idx = Z.of_nat (length l1) + 1 -> (length l < fuel)%nat ->
  firstElementsLoop fuel head numNodes (hdKey l []) idx acc e =
    (e, inr (mkReturnData (blsKeys acc ++ l) (stakedDataList acc ++ ds) (lastKeyOf [] l)
      (afterLastJailed acc || existsb (fun k => beq (wk k) (LastJailedKey head)) l))).
Proof.
  revert l1 ds idx acc fuel. induction l as [|k l IH]; intros l1 ds idx acc fuel Hs Hok Hne Hds Hlen Hmax Hnum Hidx Hf;
    [done|].
  destruct fuel as [|fuel]; [simpl in Hf; lia|]. destruct Hs as [Hk Hs].
  inversion Hok as [|? ? Hokk Hok']; subst. inversion Hds as [|? d ? ds' Hd Hds']; subst.
  assert (Hl : Z.of_nat (length (l1 ++ k :: l)) = Z.of_nat (length l1) + 1 + Z.of_nat (length l))
    by (rewrite length_app; simpl; lia).
  cbn [firstElementsLoop hdKey]. rewrite wk_blen. change (negb false) with true.
  rewrite (proj2 (Z.leb_le _ (Length_ head))) by lia.
  rewrite (proj2 (Z.leb_le _ numNodes)) by lia. cbn [andb].
  rewrite (bind_ok _ _ _ _ _ (get_elem _ _ _ Hk)). cbn [BLSPublicKey NextKey].
  rewrite (bind_ok _ _ _ _ _ Hd).
  destruct l as [|k2 l].
  - inversion Hds'; subst. simpl. unfold lastKeyOf. simpl. by rewrite orb_false_r.
  - cbn [hdKey]. rewrite wk_blen.
    inversion Hok' as [|? ? Hok2 _]; subst.
    rewrite copyInto_same_length.
    2:{ unfold wk. rewrite !length_app. by rewrite (proj2 Hokk), (proj2 Hok2). }
    change (wk k2) with (hdKey (k2 :: l) []).
    rewrite (IH (l1 ++ [k]) ds' _ _ fuel); auto.
    + cbn [blsKeys stakedDataList afterLastJailed]. rewrite <- !app_assoc.
      rewrite (lastKeyOf_cons [] k). rewrite (lastKeyOf_eq (wk k) [] (k2 :: l)) by done.
      cbn [existsb]. by rewrite <- !orb_assoc.
    + by rewrite lastKeyOf_snoc.
    + rewrite <- app_assoc. simpl app. lia.
    + rewrite length_app. simpl. rewrite u32_succ; lia.
    + simpl in Hf |- *. lia.
Qed.

Lemma getFirstElements_spec e J N ds :
  queueRep e J N -> Forall2 (regData e) (J ++ N) ds ->
  exists lk al, getFirstElementsFromWaitingList MaxUint32 e =
    (e, inr (mkReturnData (J ++ N) ds lk al)) /\ (al = true <-> J <> []).
Proof.
  intros Hq Hds. unfold getFirstElementsFromWaitingList.
  rewrite (bind_ok _ _ _ _ _ (q_inv_head _ _ _ _ Hq)).
  pose proof (q_len _ _ _ _ Hq) as Hlen.
  destruct (J ++ N) as [|a l] eqn:El.
  - apply app_eq_nil in El as [-> ->]. inversion Hds; subst. simpl. exists [], false.
    split; [done|]. split; [done|by intros H].
  - assert (Hl : Length_ (headOf J N) = Z.of_nat (length (a :: l))) by (simpl; by rewrite El).
    rewrite (proj2 (Z.eqb_neq (Length_ (headOf J N)) 0)) by (rewrite Hl; simpl; lia).
    pose proof (q_seg _ _ _ _ Hq) as Hs. pose proof (q_ok _ _ _ _ Hq) as Hok.
    rewrite El in Hs, Hok.
    assert (Hfk : FirstKey (headOf J N) = hdKey (a :: l) []) by (simpl; by rewrite El).
    rewrite Hfk. rewrite (firstElementsLoop_spec e (wk a) [] (a :: l) ds); auto; try lia.
    + eexists _, _. split; [done|]. simpl afterLastJailed. rewrite orb_false_l.
      rewrite existsb_exists. split.
      * intros (k & _ & Hb) HJ. subst J. apply beq_true in Hb. discriminate Hb.
      * intros HJ. destruct (snoc_case _ HJ) as (J1 & j & ->). exists j. split.
        -- rewrite <- El. apply list_elem_of_In. rewrite !elem_of_app, list_elem_of_singleton. tauto.
        -- simpl LastJailedKey. rewrite jailedKey_nonempty. apply beq_refl.
    + simpl app. lia.
Qed.
End Remove.
