(* ===== verification/StakingSC.v ===== *)
(** * The functions of the staking contract (vm/systemSmartContracts/staking.go and
    the handlers of stakingWaitingList.go) and their dispatch. *)

From stdpp Require Import base list gmap strings.
From Stdlib Require Import ZArith Lia.
From S2P Require Import Prelude SystemEI StakingData StakingQueue.

Section StakingSC.
Context {E : Type} `{EI : SystemEI E} `{SC : StakingCodec} `{CO : CoreLib}.
Variables (s : stakingSC) (flags : EpochFlags).
Notation H := (SE E stop).
Implicit Types (args : ContractCallInput).

(** ** Common pieces of the handlers *)

(** [if err != nil \{ AddReturnMessage(prefix + err.Error()); return UserError \}];
    a panic goes through. *)
Definition orFail {A} (prefix : bytes) (m : SE E stErr A) : H A :=
  onErr m (fun e => match e with
                    | ErrPanic => throw Panic
                    | _ => fail (prefix ++ errText e)
                    end).

(** [if err != nil \{ return UserError \}] *)
Definition orUserError {A} (m : SE E stErr A) : H A :=
  onErr m (fun e => match e with ErrPanic => throw Panic | _ => return_ UserError end).

(** [if !b \{ AddReturnMessage(m); return UserError \}] *)
Definition require (b : bool) (m : bytes) : H unit := if b then ret tt else fail m.

Definition requireCaller args (addr : bytes) (m : string) : H unit :=
  require (beq (CallerAddr args) addr) (str m ++ CallerAddr args).

Definition nargs args : Z := Z.of_nat (length (Arguments args)).
Definition arg args (i : nat) : bytes := default [] (Arguments args !! i).

Definition errRegistered : bytes := str "cannot get or create registered data: error ".
Definition errRegistered' : bytes := str "cannot get or created registered data: error ".
Definition errSave : bytes := str "cannot save staking data: error ".

(** ** Handlers of staking.go *)

Definition changeValidatorKey args : H unit :=
  requireCaller args (stakeAccessAddr s)
    "changeValidatorKey function not allowed to be called by address " ;;
  fail (str "function is deprecated").

Definition changeRewardAddress args : H unit :=
  requireCaller args (stakeAccessAddr s) "stake function not allowed to be called by address " ;;
  require (negb (nargs args <? 2))
    (str "invalid number of arguments: expected min 2, got " ++ itoa (nargs args)) ;;
  let newRewardAddress := arg args 0 in
  require (blen newRewardAddress =? walletAddressLen s) (str "invalid reward address") ;;
  foldM (fun _ blsKey =>
    let! stakedData := orFail errRegistered (getOrCreateRegisteredData blsKey) in
    if blen (RewardAddress stakedData) =? 0 then ret tt
    else orFail errSave (saveStakingData flags blsKey (withReward stakedData newRewardAddress)))
    tt (drop 1 (Arguments args)).

Definition unJailV1 args : H unit :=
  requireCaller args (stakeAccessAddr s) "unJail function not allowed to be called by address " ;;
  foldM (fun _ argument =>
    let! stakedData := orFail errRegistered' (getOrCreateRegisteredData argument) in
    require (negb (blen (RewardAddress stakedData) =? 0))
      (str "cannot unJail a key that is not registered") ;;
    when_ (UnJailedNonce stakedData <=? JailedNonce stakedData) (removeFromJailedNodes s) ;;
    let! nonce := hook CurrentNonce in
    orFail errSave (saveStakingData flags argument (withUnJailed stakedData nonce (Jailed stakedData))))
    tt (Arguments args).

Definition unJail args : H unit :=
  if negb (StakeFlag flags) then unJailV1 args
  else
    requireCaller args (stakeAccessAddr s) "unJail function not allowed to be called by address " ;;
    require (nargs args =? 1) (str "wrong number of arguments, wanted 1") ;;
    let! stakedData := orFail errRegistered' (getOrCreateRegisteredData (arg args 0)) in
    require (negb (blen (RewardAddress stakedData) =? 0))
      (str "cannot unJail a key that is not registered") ;;
    let! canUnJail := hook CanUnJail in
    require (Jailed stakedData || canUnJail (arg args 0))
      (str "cannot unJail a node which is not jailed") ;;
    let! nonce := hook CurrentNonce in
    let stakedData := withUnJailed stakedData nonce false in
    let! stakedData :=
      orUserError (processStake s flags (arg args 0) stakedData (NumJailed stakedData =? 1)) in
    orFail errSave (saveStakingData flags (arg args 0) stakedData).

Definition jail args : H unit :=
  when_ (negb (beq (CallerAddr args) (jailAccessAddr s))) (return_ UserError) ;;
  foldM (fun _ argument =>
    let! stakedData := orFail errRegistered (getOrCreateRegisteredData argument) in
    require (negb (blen (RewardAddress stakedData) =? 0))
      (str "cannot jail a key that is not registered") ;;
    let! round := hook CurrentRound in
    let! nonce := hook CurrentNonce in
    orFail errSave (saveStakingData flags argument (withJailed stakedData round nonce)))
    tt (Arguments args).

Definition get args : H unit :=
  when_ (StakingV2Flag flags) (fail (str "function deprecated")) ;;
  require (negb (nargs args <? 1)) (str "invalid number of arguments: expected min 1, got 0") ;;
  let! value := GetStorage (arg args 0) in
  Finish (default [] value).

Definition init args : H unit :=
  let! ownerAddress := GetStorage ownerKey in
  require (match ownerAddress with None => true | Some _ => false end)
    (str "smart contract was already initialized") ;;
  SetStorage ownerKey (Some (CallerAddr args)) ;;
  SetStorage (CallerAddr args) (Some (bigBytes 0)) ;;
  setConfig (baseConfig s) ;;
  let! epoch := hook CurrentEpoch in
  SetStorage (str "epoch_" ++ itoa epoch) (Some (bigBytes (stakeValue s))).

Definition isNodeJailedOrWithBadRating (d : StakedDataV2_0) (blsKey : bytes) : H bool :=
  let! canUnJail := hook CanUnJail in
  let! isBadRating := hook IsBadRating in
  ret (Jailed d || canUnJail blsKey || isBadRating blsKey).

Definition stake args (onlyRegister : bool) : H unit :=
  requireCaller args (stakeAccessAddr s) "stake function not allowed to be called by address " ;;
  require (negb (nargs args <? 3))
    (str "not enough arguments, needed BLS key, reward address and owner address") ;;
  let! registrationData := orFail errRegistered (getOrCreateRegisteredData (arg args 0)) in
  let! bad := isNodeJailedOrWithBadRating registrationData (arg args 0) in
  require (negb bad) (str "cannot stake node which is jailed or with bad rating") ;;
  let registrationData :=
    withStakeValue (withOwner (withReward registrationData (arg args 1)) (arg args 2))
      (stakeValue s) in
  let! registrationData :=
    (if negb onlyRegister then
       orUserError (processStake s flags (arg args 0) registrationData false)
     else ret registrationData) in
  orFail (str "cannot save staking registered data: error ")
    (saveStakingData flags (arg args 0) registrationData).

Definition unStakeAtEndOfEpoch args : H unit :=
  when_ (negb (beq (CallerAddr args) (endOfEpochAccessAddr s))) (return_ UserError) ;;
  require (nargs args =? 1) (str "not enough arguments, needed the BLS key") ;;
  let! registrationData := orFail errRegistered (getOrCreateRegisteredData (arg args 0)) in
  require (negb (blen (RewardAddress registrationData) =? 0))
    (str "cannot unStake a key that is not registered") ;;
  when_ (Jailed registrationData && negb (Staked registrationData))
    (AddReturnMessage (str "already unStaked at switchJailedToWaiting") ;; return_ Ok) ;;
  when_ (negb (Staked registrationData) && negb (Waiting registrationData)) (return_ Ok) ;;
  when_ (Staked registrationData) (removeFromStakedNodes s) ;;
  when_ (Waiting registrationData) (orFail [] (removeFromWaitingList flags (arg args 0))) ;;
  let! registrationData := markUnStaked registrationData in
  orFail errSave (saveStakingData flags (arg args 0) registrationData).

Definition checkUnStakeArgs args : H StakedDataV2_0 :=
  requireCaller args (stakeAccessAddr s) "unStake function not allowed to be called by address " ;;
  require (negb (nargs args <? 2)) (str "not enough arguments, needed BLS key and reward address") ;;
  let! registrationData := orFail errRegistered' (getOrCreateRegisteredData (arg args 0)) in
  require (negb (blen (RewardAddress registrationData) =? 0))
    (str "cannot unStake a key that is not registered") ;;
  require (beq (arg args 1) (RewardAddress registrationData))
    (str "unStake possible only from staker caller") ;;
  let! bad := isNodeJailedOrWithBadRating registrationData (arg args 0) in
  require (negb bad) (str "cannot unStake node which is jailed or with bad rating") ;;
  require (Staked registrationData || Waiting registrationData)
    (str "cannot unStake node which was already unStaked") ;;
  ret registrationData.

Definition doUnStake (key : bytes) (registrationData : StakedDataV2_0) : H unit :=
  let! registrationData := markUnStaked registrationData in
  orFail errSave (saveStakingData flags key registrationData).

Definition tryUnStake (key : bytes) (registrationData : StakedDataV2_0) : H unit :=
  let! can := canUnStake s in
  require can (str "unStake is not possible as too many left") ;;
  removeFromStakedNodes s ;;
  doUnStake key registrationData.

Definition unStakeV2 args : H unit :=
  let! registrationData := checkUnStakeArgs args in
  if negb (Staked registrationData) then
    AddReturnMessage (errText ErrWaitingListDisabled) ;; return_ ExecutionFailed
  else tryUnStake (arg args 0) registrationData.

Definition unStakeV1 args : H unit :=
  let! registrationData := checkUnStakeArgs args in
  if negb (Staked registrationData) then
    orFail [] (removeFromWaitingList flags (arg args 0)) ;;
    orFail errSave (saveStakingData flags (arg args 0) (withWaiting registrationData false))
  else
    let! one := canStakeIfOneRemoved s in
    let addOneFromQueue := negb (CorrectLastUnJailedFlag flags) || one in
    when_ addOneFromQueue
      (let! _ := orFail [] (moveFirstFromWaitingToStaked s flags) in ret tt) ;;
    tryUnStake (arg args 0) registrationData.

Definition unStake args : H unit :=
  if StakingV4StartedFlag flags then unStakeV2 args else unStakeV1 args.

Definition unBond args : H unit :=
  requireCaller args (stakeAccessAddr s) "unBond function not allowed to be called by address " ;;
  require (negb (nargs args <? 1)) (str "not enough arguments, needed BLS key") ;;
  let! registrationData := orFail errRegistered (getOrCreateRegisteredData (arg args 0)) in
  let encodedBlsKey := hexEncode (arg args 0) in
  require (negb (blen (RewardAddress registrationData) =? 0))
    (str "cannot unBond key " ++ encodedBlsKey ++ str " that is not registered") ;;
  require (negb (Staked registrationData))
    (str "unBond is not possible for key " ++ encodedBlsKey ++ str " which is staked") ;;
  let! bad := isNodeJailedOrWithBadRating registrationData (arg args 0) in
  require (negb bad)
    (str "cannot unBond node which is jailed or with bad rating " ++ encodedBlsKey) ;;
  require (negb (Waiting registrationData))
    (str "unBond in not possible for key " ++ encodedBlsKey ++ str " which is in waiting list") ;;
  let! currentNonce := hook CurrentNonce in
  require (negb ((0 <? UnStakedNonce registrationData) &&
                 (u64 (currentNonce - UnStakedNonce registrationData) <? unBondPeriod s)))
    (str "unBond is not possible for key " ++ encodedBlsKey ++
     str " because unBond period did not pass") ;;
  let! can := canUnBond s in
  require can
    (str "unBond is currently unavailable: number of total validators in the network is at minimum") ;;
  let! isValidator := hook IsValidator in
  require (negb (isValidator (arg args 0)))
    (str "unBond is not possible: the node with key " ++ encodedBlsKey ++ str " is still a validator") ;;
  SetStorage (arg args 0) None.

Definition slash args : H unit := fail (str "slash function called by not the owners address").

Definition isStaked args : H unit :=
  require (negb (nargs args <? 1)) (str "invalid number of arguments: expected min 1, got 0") ;;
  require (CallValue args =? 0) TransactionValueMustBeZero ;;
  let! registrationData := orFail errRegistered (getOrCreateRegisteredData (arg args 0)) in
  require (negb (blen (RewardAddress registrationData) =? 0)) (str "key is not registered") ;;
  require (Staked registrationData) (str "account not staked").

Definition removeAndSetUnstaked (d : StakedDataV2_0) : H StakedDataV2_0 :=
  removeFromStakedNodes s ;;
  let! epoch := hook CurrentEpoch in
  let! nonce := hook CurrentNonce in
  ret (withRemovedFromStaked d epoch nonce).

Definition tryRemoveJailedNodeFromStaked (d : StakedDataV2_0) : H StakedDataV2_0 :=
  if negb (CorrectJailedNotUnStakedEmptyQueueFlag flags) then removeAndSetUnstaked d
  else
    let! can := canUnStake s in
    if can : bool then removeAndSetUnstaked d
    else
      AddReturnMessage (str "did not switch as not enough validators remaining") ;;
      ret d.

Definition updateConfigMinNodes args : H unit :=
  requireCaller args (endOfEpochAccessAddr s)
    "updateConfigMinNodes function not allowed to be called by address " ;;
  let! stakeConfig := getConfig s in
  require (nargs args =? 1) (str "number of arguments must be 1") ;;
  let newMinNodes := i64 (bigOfBytes (arg args 0)) in
  require (0 <? newMinNodes) (str "new minimum number of nodes zero or negative") ;;
  require (newMinNodes <=? i64 (maxNumNodes s))
    (str "new minimum number of nodes greater than maximum number of nodes") ;;
  setConfig (mkConfig newMinNodes (MaxNumNodes stakeConfig) (StakedNodes stakeConfig)
    (JailedNodes stakeConfig)).

Definition updateConfigMaxNodes args : H unit :=
  require (StakingV2Flag flags) (str "invalid method to call") ;;
  requireCaller args (endOfEpochAccessAddr s)
    "updateConfigMaxNodes function not allowed to be called by address " ;;
  let! stakeConfig := getConfig s in
  require (nargs args =? 1) (str "number of arguments must be 1") ;;
  let newMaxNodes := i64 (bigOfBytes (arg args 0)) in
  require (0 <? newMaxNodes) (str "new max number of nodes zero or negative") ;;
  require (i64 (minNumNodes s) <=? newMaxNodes)
    (str "new max number of nodes less than min number of nodes") ;;
  Finish (bigBytes (MaxNumNodes stakeConfig)) ;;
  setConfig (mkConfig (MinNumNodes stakeConfig) newMaxNodes (StakedNodes stakeConfig)
    (JailedNodes stakeConfig)).

(** [err := UseGas(g); if err != nil \{ ...; return OutOfGas \}] *)
Definition useGas (g : Z) : H unit :=
  fun e => match eiUseGas e g with
           | Some e' => (e', inr tt)
           | None => (eiAddReturnMessage e (str "insufficient gas"), inl (Return OutOfGas))
           end.

Definition getStakedDataIfExists args : H StakedDataV2_0 :=
  useGas (gasCostGet s) ;;
  require (nargs args =? 1) (str "number of arguments must be equal to 1") ;;
  let! stakedData := orFail [] (getOrCreateRegisteredData (arg args 0)) in
  require (negb (blen (RewardAddress stakedData) =? 0))
    (str "blsKey not registered in staking sc") ;;
  ret stakedData.

Definition getRewardAddress args : H unit :=
  require (CallValue args =? 0) TransactionValueMustBeZero ;;
  let! stakedData := getStakedDataIfExists args in
  Finish (hexEncode (RewardAddress stakedData)).

Definition getBLSKeyStatus args : H unit :=
  require (CallValue args =? 0) TransactionValueMustBeZero ;;
  let! stakedData := getStakedDataIfExists args in
  let! canUnJail := hook CanUnJail in
  Finish (if Jailed stakedData || canUnJail (arg args 0) then str "jailed"
          else if Waiting stakedData then str "queued"
          else if Staked stakedData then str "staked"
          else str "unStaked").

Definition getTotalNumberOfRegisteredNodes args : H unit :=
  require (StakingV2Flag flags) (str "invalid method to call") ;;
  require (CallValue args =? 0) TransactionValueMustBeZero ;;
  let! waitingListHead := orFail [] getWaitingListHead in
  let! stakeConfig := getConfig s in
  Finish (bigBytes (i64 (i64 (StakedNodes stakeConfig + JailedNodes stakeConfig)
                         + Length_ waitingListHead))).

Definition getRemainingUnbondPeriod args : H unit :=
  require (CallValue args =? 0) TransactionValueMustBeZero ;;
  let! stakedData := getStakedDataIfExists args in
  require (negb (UnStakedNonce stakedData =? 0)) (str "not in unbond period") ;;
  let! currentNonce := hook CurrentNonce in
  let passedNonce := u64 (currentNonce - UnStakedNonce stakedData) in
  if unBondPeriod s <=? passedNonce then
    Finish (if StakingV2Flag flags then bigBytes 0 else str "0")
  else
    let remaining := unBondPeriod s - passedNonce in
    Finish (if StakingV2Flag flags then bigBytes remaining else itoa (i64 remaining)).

(** The pairs of arguments, with the index of the first of each. *)
Fixpoint pairs (i : Z) (l : list bytes) : list (Z * (bytes * bytes)) :=
  match l with
  | a :: b :: l' => (i, (a, b)) :: pairs (i + 2) l'
  | _ => []
  end.

Definition stoppedAt {A} (i : Z) (key : bytes) (e : stErr) : H A :=
  match e with
  | ErrPanic => throw Panic
  | _ =>
      AddReturnMessage (errText e) ;;
      fail (str "process stopped at index " ++ itoa i ++ str ", bls key " ++ hexEncode key)
  end.

Definition setOwnersOnAddresses args : H unit :=
  require (StakingV2Flag flags) (str "invalid method to call") ;;
  requireCaller args (endOfEpochAccessAddr s)
    "setOwnersOnAddresses function not allowed to be called by address " ;;
  require (nargs args mod 2 =? 0)
    (str "invalid number of arguments: expected an even number of arguments") ;;
  foldM (fun _ '(i, (blsKey, owner)) =>
    let! stakedData := onErr (getOrCreateRegisteredData blsKey) (stoppedAt i blsKey) in
    if blen (RewardAddress stakedData) =? 0 then ret tt
    else onErr (saveStakingData flags blsKey (withOwner stakedData owner)) (stoppedAt i blsKey))
    tt (pairs 0 (Arguments args)).

Definition getOwner args : H unit :=
  require (StakingV2Flag flags) (str "invalid method to call") ;;
  require (beq (CallerAddr args) (stakeAccessAddr s)) (str "this is only a view function") ;;
  require (negb (nargs args <? 1))
    (str "invalid number of arguments: expected min 1, got " ++ itoa (nargs args)) ;;
  let! stakedData := orFail [] (getOrCreateRegisteredData (arg args 0)) in
  require (negb (blen (OwnerAddress stakedData) =? 0)) (str "owner address is nil") ;;
  Finish (OwnerAddress stakedData).

Definition changeOwnerAndRewardAddress args : H unit :=
  when_ (negb (ValidatorToDelegationFlag flags)) (return_ UserError) ;;
  require (beq (CallerAddr args) (stakeAccessAddr s))
    (str "change owner and reward address can be called by validator SC only") ;;
  require (CallValue args =? 0) (str "callValue must be 0") ;;
  require (negb (nargs args <? 2)) (str "number of arguments is 2 at minimum") ;;
  let newOwnerAddress := arg args 0 in
  require (IsSmartContractAddress newOwnerAddress)
    (str "new address must be a smart contract address") ;;
  foldM (fun _ blsKey =>
    let! registrationData := orFail [] (getOrCreateRegisteredData blsKey) in
    require (negb (blen (RewardAddress registrationData) =? 0))
      (str "cannot change owner and reward address for a key which is not registered") ;;
    let! canUnJail := hook CanUnJail in
    require (negb (Jailed registrationData || canUnJail blsKey))
      (str "can not migrate nodes while jailed nodes exists") ;;
    orFail [] (saveStakingData flags blsKey
      (withReward (withOwner registrationData newOwnerAddress) newOwnerAddress)))
    tt (drop 1 (Arguments args)).

(** ** checkValidatorFunds

    The map from owners to the number of nodes to unstake; the program keeps
    pointers to these numbers, which are shared with the map. *)

Definition countStaked (keys : list bytes) : SE E stErr Z :=
  foldM (fun n blsKey =>
    let! stakedData := getOrCreateRegisteredData blsKey in
    ret (if Staked stakedData || Waiting stakedData || Jailed stakedData then n + 1 else n))
    0 keys.

Definition checkValidatorFunds (mapCheckedOwners : gmap bytes Z) (owner : bytes) (nodePrice : Z)
  : SE E stErr (gmap bytes Z * Z) :=
  match mapCheckedOwners !! owner with
  | Some n => ret (mapCheckedOwners, n)
  | None =>
      let found n := ret (<[owner := n]> mapCheckedOwners, n) in
      let! marshaledData := gets (fun e => eiGetStorageFromAddress e (stakeAccessAddr s) owner) in
      if slen marshaledData =? 0 then found MaxUint32
      else
        let! validatorData := liftMarshal (uValidatorData (default [] marshaledData)) in
        let numRegisteredKeys := Z.of_nat (length (BlsPubKeys validatorData)) in
        if nodePrice =? 0 then throw ErrPanic
        else
          let numQualified := i64 (TotalStakeValue validatorData / nodePrice) in
          if numRegisteredKeys <=? numQualified then found 0
          else
            let! numRegisteredNodesWithMinStake := countStaked (BlsPubKeys validatorData) in
            found (if numQualified <? numRegisteredNodesWithMinStake
                   then u32 (numRegisteredNodesWithMinStake - numQualified) else 0)
  end.

(** ** Handlers of stakingWaitingList.go *)

(** The waiting list is disabled after the first step of staking V4. *)
Definition disabledAfterV4Step1 : H unit :=
  require (negb (StakingV4StartedFlag flags && negb (StakingV4Step1Flag flags)))
    (errText ErrWaitingListDisabled).

Definition endOfEpochOnly args : H unit :=
  require (beq (CallerAddr args) (endOfEpochAccessAddr s))
    (str "stake nodes from waiting list can be called by endOfEpochAccess address only").

Definition switchJailedWithWaiting args : H unit :=
  disabledAfterV4Step1 ;;
  requireCaller args (endOfEpochAccessAddr s)
    "switchJailedWithWaiting function not allowed to be called by address " ;;
  when_ (negb (nargs args =? 1)) (return_ UserError) ;;
  let blsKey := arg args 0 in
  let! registrationData := orFail [] (getOrCreateRegisteredData blsKey) in
  require (negb (blen (RewardAddress registrationData) =? 0))
    (str "no need to jail as not a validator") ;;
  require (Staked registrationData) (str "no need to jail as not a validator") ;;
  require (negb (Jailed registrationData)) (errText ErrBLSPublicKeyAlreadyJailed) ;;
  let! switched := orFail [] (moveFirstFromWaitingToStakedIfNeeded s flags blsKey) in
  let! nonce := hook CurrentNonce in
  let registrationData := withJailed registrationData (JailedRound registrationData) nonce in
  let! registrationData :=
    (if negb switched && negb (CorrectJailedNotUnStakedEmptyQueueFlag flags) then
       AddReturnMessage (str "did not switch as nobody in waiting, but jailed") ;;
       ret registrationData
     else tryRemoveJailedNodeFromStaked registrationData) in
  orFail errSave (saveStakingData flags blsKey registrationData).

(** The loop of getWaitingListIndex. *)
Fixpoint indexLoop (fuel : nat) (head : WaitingList) (waitingElementKey nextKey : bytes) (index : Z)
  : H unit :=
  match fuel with
  | O => fail (str "element in waiting list not found")
  | S fuel =>
      if negb (blen nextKey =? 0) && (index <=? Length_ head) then
        if beq nextKey waitingElementKey then Finish (itoa index)
        else
          let! prevElement := orFail [] (getWaitingListElement nextKey) in
          if blen (NextKey prevElement) =? 0 then fail (str "element in waiting list not found")
          else indexLoop fuel head waitingElementKey (copyInto nextKey (NextKey prevElement))
                 (u32 (index + 1))
      else fail (str "element in waiting list not found")
  end.

Definition getWaitingListIndex args : H unit :=
  require (negb (StakingV4StartedFlag flags)) (errText ErrWaitingListDisabled) ;;
  require (beq (CallerAddr args) (stakeAccessAddr s)) (str "this is only a view function") ;;
  require (nargs args =? 1) (str "number of arguments must be equal to 1") ;;
  let waitingElementKey := createWaitingListKey (arg args 0) in
  let! _ := orFail [] (getWaitingListElement waitingElementKey) in
  let! waitingListHead := orFail [] getWaitingListHead in
  if beq waitingElementKey (FirstKey waitingListHead) then Finish (itoa 1)
  else if beq waitingElementKey (LastKey waitingListHead) then Finish (itoa (Length_ waitingListHead))
  else
    let! prevElement := orFail [] (getWaitingListElement (FirstKey waitingListHead)) in
    indexLoop (Z.to_nat (Length_ waitingListHead)) waitingListHead waitingElementKey
      (copyInto (replicate (length waitingElementKey) 0) (NextKey prevElement)) 2.

Definition getWaitingListSize args : H unit :=
  require (negb (StakingV4StartedFlag flags)) (errText ErrWaitingListDisabled) ;;
  require (CallValue args =? 0) TransactionValueMustBeZero ;;
  useGas (gasCostGet s) ;;
  let! waitingListHead := orFail [] getWaitingListHead in
  Finish (itoa (Length_ waitingListHead)).

Definition getWaitingListRegisterNonceAndRewardAddress args : H unit :=
  require (beq (CallerAddr args) (stakeAccessAddr s)) (str "this is only a view function") ;;
  require (nargs args =? 0) (str "number of arguments must be equal to 0") ;;
  let! waitingListData := orFail [] (getFirstElementsFromWaitingList MaxUint32) in
  require (negb (length (stakedDataList waitingListData) =? 0)%nat)
    (str "no one in waitingList") ;;
  foldM (fun _ '(blsKey, stakedData) =>
    Finish blsKey ;;
    Finish (RewardAddress stakedData) ;;
    Finish (bigBytes (i64 (RegisterNonce stakedData))))
    tt (combine (blsKeys waitingListData) (stakedDataList waitingListData)).

Definition resetLastUnJailedFromQueue args : H unit :=
  when_ (negb (CorrectLastUnJailedFlag flags)) (return_ UserError) ;;
  disabledAfterV4Step1 ;;
  endOfEpochOnly args ;;
  require (nargs args =? 0) (str "number of arguments must be equal to 0") ;;
  let! waitingList := orFail [] getWaitingListHead in
  when_ (blen (LastJailedKey waitingList) =? 0) (return_ Ok) ;;
  orFail [] (saveWaitingListHead (withLastJailedKey waitingList [])).

(** cleanAdditionalQueueNotEnoughFunds: the owners in the order they are first
    met, with the keys removed for each of them.  The list is walked from its
    end. *)
Definition cleanAdditionalQueueNotEnoughFunds (waitingListData : waitingListReturnData)
  : SE E stErr (list bytes * gmap bytes (list bytes)) :=
  let! (owners, unstaked, _) := foldM (fun '(owners, unstaked, checked) '(blsKey, stakedData) =>
    let owner := OwnerAddress stakedData in
    let! (checked, numNodesToUnstake) := checkValidatorFunds checked owner (stakeValue s) in
    if numNodesToUnstake =? 0 then ret (owners, unstaked, checked)
    else
      let checked := <[owner := numNodesToUnstake - 1]> checked in
      removeFromWaitingList flags blsKey ;;
      let! registrationData := getOrCreateRegisteredData blsKey in
      let! registrationData := markUnStaked registrationData in
      saveStakingData flags blsKey registrationData ;;
      ret (match unstaked !! owner with Some _ => owners | None => owners ++ [owner] end,
           <[owner := default [] (unstaked !! owner) ++ [blsKey]]> unstaked,
           checked))
    ([], ∅, ∅) (rev (combine (blsKeys waitingListData) (stakedDataList waitingListData))) in
  ret (owners, unstaked).

(** The loop of stakeNodesFromQueue, which stops when enough nodes are staked. *)
Fixpoint stakeNodesLoop (l : list (bytes * StakedDataV2_0)) (numNodesToStake nodePriceToUse : Z)
    (checked : gmap bytes Z) (stakedNodes : Z) : H Z :=
  match l with
  | [] => ret stakedNodes
  | (blsKey, stakedData) :: l' =>
      if numNodesToStake <=? stakedNodes then ret stakedNodes
      else
        let! (checked, numNodesToUnstake) :=
          orFail [] (checkValidatorFunds checked (OwnerAddress stakedData) nodePriceToUse) in
        if 0 <? numNodesToUnstake then
          stakeNodesLoop l' numNodesToStake nodePriceToUse checked stakedNodes
        else
          let! stakedData := activeStakingFor stakedData in
          orFail [] (saveStakingData flags blsKey stakedData) ;;
          orFail [] (removeFromWaitingList flags blsKey) ;;
          Finish blsKey ;;
          Finish (RewardAddress stakedData) ;;
          stakeNodesLoop l' numNodesToStake nodePriceToUse checked (stakedNodes + 1)
  end.

Definition stakeNodesFromQueue args : H unit :=
  require (StakingV2Flag flags) (str "invalid method to call") ;;
  disabledAfterV4Step1 ;;
  endOfEpochOnly args ;;
  require (nargs args =? 1) (str "number of arguments must be equal to 1") ;;
  let numNodesToStake := u64 (bigOfBytes (arg args 0)) in
  let! waitingListData := orFail [] (getFirstElementsFromWaitingList MaxUint32) in
  when_ (length (blsKeys waitingListData) =? 0)%nat
    (AddReturnMessage (str "no nodes in queue") ;; return_ Ok) ;;
  let nodePriceToUse :=
    if CorrectLastUnJailedFlag flags then stakeValue s else minNodePrice s in
  let! stakedNodes :=
    stakeNodesLoop (combine (blsKeys waitingListData) (stakedDataList waitingListData))
      numNodesToStake nodePriceToUse ∅ 0 in
  addToStakedNodes s (i64 stakedNodes).

Definition executeOnStakeAtEndOfEpoch (destinationAddress : bytes) (listOfKeys : list bytes)
    (senderAddress : bytes) : H ReturnCode :=
  let unStakeCall := str "unStakeAtEndOfEpoch" ++
    flat_map (fun key => str "@" ++ hexEncode key) listOfKeys in
  fun e => match eiExecuteOnDestContext e destinationAddress senderAddress 0 unStakeCall with
           | (e', inl text) => (eiAddReturnMessage e' text, inr UserError)
           | (e', inr rc) => (e', inr rc)
           end.

(** The nodes unstaked by unStakeAllNodesFromQueue, by owner. *)
Definition unStakeQueued (l : list (bytes * StakedDataV2_0))
  : H (list bytes * gmap bytes (list bytes)) :=
  foldM (fun '(owners, keysOf) '(blsKey, registrationData) =>
    doUnStake blsKey registrationData ;;
    SetStorage (createWaitingListKey blsKey) None ;;
    let owner := OwnerAddress registrationData in
    ret (match keysOf !! owner with Some _ => owners | None => owners ++ [owner] end,
         <[owner := default [] (keysOf !! owner) ++ [blsKey]]> keysOf))
    ([], ∅) l.

Definition unStakeAllNodesFromQueue args : H unit :=
  require (StakingV4Step1Flag flags) (str "invalid method to call") ;;
  endOfEpochOnly args ;;
  require (nargs args =? 0) (str "number of arguments must be equal to 0") ;;
  let! waitingListData := orFail [] (getFirstElementsFromWaitingList MaxUint32) in
  when_ (length (blsKeys waitingListData) =? 0)%nat (return_ Ok) ;;
  let! (orderedListOwners, mapOwnerKeys) :=
    unStakeQueued (combine (blsKeys waitingListData) (stakedDataList waitingListData)) in
  SetStorage waitingListHeadKey None ;;
  foldM (fun _ owner =>
    let! shardOf := hook GetShardOfAddress in
    if negb (shardOf owner =? MetachainShardId) then ret tt
    else
      let! returnCode := executeOnStakeAtEndOfEpoch owner
        (default [] (mapOwnerKeys !! owner)) (RecipientAddr args) in
      if decide (returnCode = Ok) then ret tt else return_ returnCode)
    tt orderedListOwners.

Definition cleanAdditionalQueue args : H unit :=
  require (CorrectLastUnJailedFlag flags) (str "invalid method to call") ;;
  disabledAfterV4Step1 ;;
  endOfEpochOnly args ;;
  require (nargs args =? 0) (str "number of arguments must be 0") ;;
  let! waitingListData := orFail [] (getFirstElementsFromWaitingList MaxUint32) in
  when_ (length (blsKeys waitingListData) =? 0)%nat
    (AddReturnMessage (str "no nodes in queue") ;; return_ Ok) ;;
  let! (listOfOwners, mapOwnersAndBLSKeys) :=
    orFail [] (cleanAdditionalQueueNotEnoughFunds waitingListData) in
  foldM (fun _ owner =>
    Finish owner ;;
    foldM (fun _ blsKey => Finish blsKey) tt (default [] (mapOwnersAndBLSKeys !! owner)))
    tt listOfOwners.

(** The loop of fixWaitingListQueueSize: the number of elements found, the key
    of the last one and whether the last jailed key was met. *)
Fixpoint fixSizeLoop (fuel : nat) (head : WaitingList) (nextKey : bytes) (index : Z) (found : bool)
  : H (Z * bytes * bool) :=
  match fuel with
  | O => ret (index, nextKey, found)
  | S fuel =>
      if negb (blen nextKey =? 0) && (index <=? Length_ head) then
        let! element := orFail [] (getWaitingListElement nextKey) in
        let found := found || beq (LastJailedKey head) nextKey in
        let! _ := orFail [] (getOrCreateRegisteredData (BLSPublicKey element)) in
        if blen (NextKey element) =? 0 then ret (index, nextKey, found)
        else fixSizeLoop fuel head (copyInto nextKey (NextKey element)) (u32 (index + 1)) found
      else ret (index, nextKey, found)
  end.

Definition fixWaitingListQueueSize args : H unit :=
  require (CorrectFirstQueuedFlag flags) (str "invalid method to call") ;;
  require (negb (StakingV4StartedFlag flags)) (errText ErrWaitingListDisabled) ;;
  require (CallValue args =? 0) TransactionValueMustBeZero ;;
  useGas (gasCostFixWaitingListSize s) ;;
  let! waitingListHead := orFail [] getWaitingListHead in
  when_ (Length_ waitingListHead <=? 1) (return_ Ok) ;;
  let! (index, nextKey, foundLastJailedKey) :=
    fixSizeLoop (Z.to_nat (Length_ waitingListHead) + 1) waitingListHead (FirstKey waitingListHead) 1
      (blen (LastJailedKey waitingListHead) =? 0) in
  let waitingListHead := withLastKey (withLength waitingListHead index) nextKey in
  orFail [] (saveWaitingListHead
    (if negb foundLastJailedKey then withLastJailedKey waitingListHead [] else waitingListHead)).

Definition addMissingNodeToQueue args : H unit :=
  require (CorrectFirstQueuedFlag flags) (str "invalid method to call") ;;
  require (negb (StakingV4StartedFlag flags)) (errText ErrWaitingListDisabled) ;;
  require (CallValue args =? 0) TransactionValueMustBeZero ;;
  useGas (gasCostFixWaitingListSize s) ;;
  require (nargs args =? 1) (str "invalid number of arguments") ;;
  let blsKey := arg args 0 in
  let! _ := orFail [] (getWaitingListElement (createWaitingListKey blsKey)) in
  let! waitingListData := orFail [] (getFirstElementsFromWaitingList MaxUint32) in
  require (negb (existsb (beq blsKey) (blsKeys waitingListData)))
    (str "key is in queue, not missing") ;;
  let! waitingList := orFail [] getWaitingListHead in
  let waitingList := withLength waitingList (u32 (Length_ waitingList + 1)) in
  if Length_ waitingList =? 1 then orFail [] (startWaitingList waitingList false blsKey)
  else orFail [] (addToEndOfTheList waitingList blsKey).

(** ** Dispatch *)

Definition functions : list (bytes * (ContractCallInput -> H unit)) :=
  [ (SCDeployInitFunctionName, init);
    (str "stake", fun args => stake args false);
    (str "register", fun args => stake args true);
    (str "unStake", unStake);
    (str "unBond", unBond);
    (str "get", get);
    (str "isStaked", isStaked);
    (str "slash", slash);
    (str "jail", jail);
    (str "unJail", unJail);
    (str "changeRewardAddress", changeRewardAddress);
    (str "changeValidatorKeys", changeValidatorKey);
    (str "switchJailedWithWaiting", switchJailedWithWaiting);
    (str "getQueueIndex", getWaitingListIndex);
    (str "getQueueSize", getWaitingListSize);
    (str "getRewardAddress", getRewardAddress);
    (str "getBLSKeyStatus", getBLSKeyStatus);
    (str "getRemainingUnBondPeriod", getRemainingUnbondPeriod);
    (str "getQueueRegisterNonceAndRewardAddress", getWaitingListRegisterNonceAndRewardAddress);
    (str "updateConfigMinNodes", updateConfigMinNodes);
    (str "setOwnersOnAddresses", setOwnersOnAddresses);
    (str "getOwner", getOwner);
    (str "updateConfigMaxNodes", updateConfigMaxNodes);
    (str "stakeNodesFromQueue", stakeNodesFromQueue);
    (str "unStakeAtEndOfEpoch", unStakeAtEndOfEpoch);
    (str "getTotalNumberOfRegisteredNodes", getTotalNumberOfRegisteredNodes);
    (str "resetLastUnJailedFromQueue", resetLastUnJailedFromQueue);
    (str "cleanAdditionalQueue", cleanAdditionalQueue);
    (str "changeOwnerAndRewardAddress", changeOwnerAndRewardAddress);
    (str "fixWaitingListQueueSize", fixWaitingListQueueSize);
    (str "addMissingNodeToQueue", addMissingNodeToQueue);
    (str "unStakeAllNodesFromQueue", unStakeAllNodesFromQueue) ].

Fixpoint dispatch (name : bytes) (l : list (bytes * (ContractCallInput -> H unit)))
  : option (ContractCallInput -> H unit) :=
  match l with
  | [] => None
  | (n, f) :: l' => if beq n name then Some f else dispatch name l'
  end.

Definition Execute args (e : E) : E * option ReturnCode :=
  runHandler
    (require (numESDTTransfers args =? 0)%nat (str "cannot transfer ESDT to system SCs") ;;
     match dispatch (Function_ args) functions with
     | None => return_ UserError
     | Some f => f args
     end) e.
End StakingSC.
