(* ===== verification/StakingAccess.v ===== *)
(** * Who can change what: calls of the staking contract that only read. *)

From stdpp Require Import base list gmap strings.
From Stdlib Require Import ZArith Lia.
From S2P Require Import Prelude SystemEI StakingData StakingQueue StakingSC.

Section Access.
Context {E : Type} `{EI : SystemEI E} `{EL : !SystemEILaws E}.
Context `{SC : StakingCodec} `{CO : CoreLib}.
Variables (s : stakingSC) (flags : EpochFlags).

(** Every storage slot is as it was, and so is the block. *)
Definition untouched (e e' : E) : Prop := (forall k, slot e' k = slot e k) /\ eiHook e' = eiHook e.

Lemma untouched_trans e1 e2 e3 : untouched e1 e2 -> untouched e2 e3 -> untouched e1 e3.
Proof. intros [S1 H1] [S2 H2]. split; [intros k; by rewrite S2|congruence]. Qed.

Lemma untouched_message e m : untouched e (eiAddReturnMessage e m).
Proof. split; [intros k; apply slot_message|apply hook_message]. Qed.

(** The computation only reads. *)
Definition reads {R A} (m : SE E R A) : Prop := forall e, untouched e (fst (m e)).

Section Rules.
Context {R A B : Type}.

Lemma reads_ret (x : A) : reads (ret x : SE E R A).
Proof. done. Qed.
Lemma reads_throw (r : R) : reads (throw r : SE E R A).
Proof. done. Qed.
Lemma reads_gets (f : E -> A) : reads (gets f : SE E R A).
Proof. done. Qed.

Lemma reads_bind (m : SE E R A) (f : A -> SE E R B) :
  reads m -> (forall x, reads (f x)) -> reads (bind m f).
Proof.
  intros Hm Hf e. specialize (Hm e). unfold bind.
  destruct (m e) as [e' [r|x]]; simpl in *; [done|]. by eapply untouched_trans, Hf.
Qed.

Lemma reads_onErr {R'} (m : SE E R' A) (h : R' -> SE E R A) :
  reads m -> (forall r, reads (h r)) -> reads (onErr m h).
Proof.
  intros Hm Hf e. specialize (Hm e). unfold onErr.
  destruct (m e) as [e' [r|x]]; simpl in *; [|done]. by eapply untouched_trans, Hf.
Qed.

Lemma reads_if (b : bool) (m1 m2 : SE E R A) : reads m1 -> reads m2 -> reads (if b then m1 else m2).
Proof. by destruct b. Qed.

Lemma reads_when (b : bool) (m : SE E R unit) : reads m -> reads (when_ b m).
Proof. by destruct b. Qed.

Lemma reads_message m : reads (AddReturnMessage m : SE E R unit).
Proof. intros e. apply untouched_message. Qed.
Lemma reads_finish v : reads (Finish v : SE E R unit).
Proof. intros e. split; [intros k; apply slot_finish|apply hook_finish]. Qed.
End Rules.

Lemma reads_foldM {R A B} (f : B -> A -> SE E R B) b l : (forall b x, reads (f b x)) -> reads (foldM f b l).
Proof.
  intros Hf. revert b. induction l as [|x l IH]; intros b; simpl; [done|]. by apply reads_bind.
Qed.

Lemma reads_fail {A} m : reads (fail m : SE E stop A).
Proof. unfold fail. apply reads_bind; [apply reads_message|]. intros _. apply reads_throw. Qed.

Lemma reads_require b m : reads (require b m : SE E stop unit).
Proof. destruct b; [done|apply reads_fail]. Qed.

(** What follows a guard that fails does not run. *)
Lemma reads_guard {A} (b : bool) m (f : unit -> SE E stop A) :
  b = false -> reads (bind (require b m) f).
Proof.
  intros -> e. unfold bind, require, fail, bind. simpl. apply untouched_message.
Qed.

Lemma reads_guard_when {A} (b : bool) rc (f : unit -> SE E stop A) :
  b = true -> reads (bind (when_ b (return_ rc)) f).
Proof. by intros -> e. Qed.

(** Nor does what follows a computation that stops. *)
Lemma reads_bind_stops {A B} (m : SE E stop A) (f : A -> SE E stop B) :
  (forall e, exists r, snd (m e) = inl r /\ untouched e (fst (m e))) ->
  reads (bind m f).
Proof.
  intros Hm e. destruct (Hm e) as (r & Er & Hs). unfold bind.
  destruct (m e) as [e' [r'|x]]; simpl in *; [apply Hs|done].
Qed.

Lemma reads_orFail {A} p (m : SE E stErr A) : reads m -> reads (orFail p m).
Proof. intros Hm. apply reads_onErr; [done|]. intros []; apply reads_fail || apply reads_throw. Qed.

Lemma reads_useGas g : reads (useGas g : SE E stop unit).
Proof.
  intros e. unfold useGas. destruct (eiUseGas e g) as [e'|] eqn:Eg; simpl; [|apply untouched_message].
  split; [intros k; by eapply slot_gas|by eapply hook_gas].
Qed.

Lemma reads_getData k : reads (getOrCreateRegisteredData k : SE E stErr _).
Proof.
  unfold getOrCreateRegisteredData. apply reads_bind; [apply reads_gets|]. intros v.
  apply reads_bind; [|intros; apply reads_ret].
  apply reads_if; [|apply reads_ret]. unfold liftMarshal. by destruct (uStaked _).
Qed.

Lemma reads_getConfig {R} : reads (getConfig s : SE E R _).
Proof.
  unfold getConfig. apply reads_bind; [apply reads_gets|]. intros v.
  destruct (_ =? _); [done|]. by destruct (uConfig _).
Qed.

Lemma reads_head : reads (getWaitingListHead : SE E stErr _).
Proof.
  unfold getWaitingListHead. apply reads_bind; [apply reads_gets|]. intros v.
  destruct (_ =? _); [done|]. unfold liftMarshal. by destruct (uWaitingList _).
Qed.

(** Follow the structure of a handler. *)
Ltac reads_step :=
  lazymatch goal with
  | |- reads ?m =>
      lazymatch m with
      | bind (require _ _) _ =>
          first [apply reads_guard; assumption | apply reads_bind; [apply reads_require|intros ?]]
      | bind (requireCaller _ _ _) _ =>
          first [apply reads_guard; assumption | apply reads_bind; [apply reads_require|intros ?]]
      | bind (when_ _ (return_ _)) _ =>
          first [apply reads_guard_when; assumption
                | apply reads_bind; [apply reads_when, reads_throw|intros ?]]
      | bind _ _ => apply reads_bind; [|intros ?]
      | require _ _ => apply reads_require
      | when_ _ _ => apply reads_when
      | fail _ => apply reads_fail
      | ret _ => apply reads_ret
      | return_ _ => apply reads_throw
      | throw _ => apply reads_throw
      | GetStorage _ => apply reads_gets
      | hook _ => apply reads_gets
      | AddReturnMessage _ => apply reads_message
      | Finish _ => apply reads_finish
      | orFail _ _ => apply reads_orFail
      | useGas _ => apply reads_useGas
      | getOrCreateRegisteredData _ => apply reads_getData
      | getConfig _ => apply reads_getConfig
      | getWaitingListHead => apply reads_head
      | if _ then _ else _ => apply reads_if
      | foldM _ _ _ => apply reads_foldM; intros ? ?
      end
  end.
Ltac reads_steps := repeat reads_step.

Lemma reads_getStakedDataIfExists args : reads (getStakedDataIfExists s args : SE E stop _).
Proof. unfold getStakedDataIfExists. reads_steps. Qed.

Lemma reads_getElement k : reads (getWaitingListElement k : SE E stErr _).
Proof.
  unfold getWaitingListElement. reads_steps. unfold liftMarshal. by destruct (uElement _).
Qed.

Lemma reads_indexLoop fuel head k next i : reads (indexLoop fuel head k next i : SE E stop unit).
Proof.
  revert next i. induction fuel as [|fuel IH]; intros next i; simpl; [apply reads_fail|].
  apply reads_if; [|apply reads_fail]. apply reads_if; [apply reads_finish|].
  apply reads_bind; [apply reads_orFail, reads_getElement|]. intros x.
  apply reads_if; [apply reads_fail|apply IH].
Qed.

Lemma reads_firstElements n : reads (getFirstElementsFromWaitingList n : SE E stErr _).
Proof.
  assert (Hl : forall fuel head next i acc, reads (firstElementsLoop fuel head n next i acc : SE E stErr _)).
  { induction fuel as [|fuel IH]; intros head next i acc; simpl; [apply reads_ret|].
    apply reads_if; [|apply reads_ret]. apply reads_bind; [apply reads_getElement|]. intros x.
    apply reads_bind; [apply reads_getData|]. intros d. apply reads_if; [apply reads_ret|apply IH]. }
  unfold getFirstElementsFromWaitingList. apply reads_bind; [apply reads_head|]. intros w.
  apply reads_if; [apply reads_ret|apply Hl].
Qed.

(** The functions that are views, and the two that always fail. *)
Definition views : list bytes :=
  map str ["get"; "isStaked"; "slash"; "changeValidatorKeys"; "getQueueIndex"; "getQueueSize";
    "getRewardAddress"; "getBLSKeyStatus"; "getRemainingUnBondPeriod";
    "getQueueRegisterNonceAndRewardAddress"; "getOwner"; "getTotalNumberOfRegisteredNodes"]%string.

Lemma reads_view name f args :
  (name, f) ∈ functions s flags -> name <> SCDeployInitFunctionName -> name ∈ views -> reads (f args).
Proof.
  intros Hin Hinit Hv. unfold functions in Hin.
  repeat (apply elem_of_cons in Hin; destruct Hin as [[= -> ->]|Hin]); [..|by apply elem_of_nil in Hin];
    try (exfalso; revert Hv; apply (bool_decide_unpack _); by vm_compute); try contradiction.
  - unfold get. reads_steps.
  - unfold isStaked. reads_steps.
  - unfold slash. reads_steps.
  - unfold changeValidatorKey. reads_steps.
  - unfold getWaitingListIndex. reads_steps; try apply reads_getElement; apply reads_indexLoop.
  - unfold getWaitingListSize. reads_steps.
  - unfold getRewardAddress. reads_steps; try apply reads_getStakedDataIfExists; reads_steps.
  - unfold getBLSKeyStatus. reads_steps; apply reads_getStakedDataIfExists.
  - unfold getRemainingUnbondPeriod. reads_steps; apply reads_getStakedDataIfExists.
  - unfold getWaitingListRegisterNonceAndRewardAddress. reads_steps; [apply reads_firstElements|].
    match goal with |- reads (let '(_, _) := ?p in _) => destruct p end. reads_steps.
  - unfold getOwner. reads_steps.
  - unfold getTotalNumberOfRegisteredNodes. reads_steps.
Qed.

(** A function whose caller must be one of three addresses, or that only reads. *)
Section Outsider.
Variable args : ContractCallInput.
Hypothesis Hstake : beq (CallerAddr args) (stakeAccessAddr s) = false.
Hypothesis Hjail : beq (CallerAddr args) (jailAccessAddr s) = false.
Hypothesis Hend : beq (CallerAddr args) (endOfEpochAccessAddr s) = false.

Lemma Hjail' : negb (beq (CallerAddr args) (jailAccessAddr s)) = true.
Proof. by rewrite Hjail. Qed.
Lemma Hend' : negb (beq (CallerAddr args) (endOfEpochAccessAddr s)) = true.
Proof. by rewrite Hend. Qed.

Notation outsider f := (reads (f : SE E stop unit)).

Ltac handler := pose proof Hjail'; pose proof Hend';
  unfold disabledAfterV4Step1, endOfEpochOnly; reads_steps.

Lemma outsider_checkUnStakeArgs {A} (f : StakedDataV2_0 -> SE E stop A) :
  reads (bind (checkUnStakeArgs s args) f).
Proof.
  apply reads_bind_stops. intros e. unfold checkUnStakeArgs, requireCaller. rewrite Hstake.
  eexists. split; [reflexivity|]. apply untouched_message.
Qed.

Lemma outsider_unStake : outsider (unStake s flags args).
Proof. unfold unStake. apply reads_if; apply outsider_checkUnStakeArgs. Qed.

Lemma outsider_unJail : outsider (unJail s flags args).
Proof. unfold unJail, unJailV1. apply reads_if; handler. Qed.

Lemma outsider_getWaitingListIndex : outsider (getWaitingListIndex s flags args).
Proof. unfold getWaitingListIndex. handler. Qed.

Lemma outsider_view : outsider (getRewardAddress s args) /\ outsider (getBLSKeyStatus s args) /\
  outsider (getRemainingUnbondPeriod s flags args) /\ outsider (isStaked args) /\
  outsider (get flags args) /\ outsider (getTotalNumberOfRegisteredNodes s flags args) /\
  outsider (getWaitingListSize s flags args).
Proof.
  unfold getRewardAddress, getBLSKeyStatus, getRemainingUnbondPeriod, isStaked, get,
    getTotalNumberOfRegisteredNodes, getWaitingListSize, getStakedDataIfExists.
  split_and!; handler.
Qed.

Lemma outsider_functions name f :
  (name, f) ∈ functions s flags ->
  name <> SCDeployInitFunctionName -> name <> str "fixWaitingListQueueSize" ->
  name <> str "addMissingNodeToQueue" -> outsider (f args).
Proof.
  destruct outsider_view as (V1 & V2 & V3 & V4 & V5 & V6 & V7).
  unfold functions. intros Hin Hinit Hfix Hadd.
  repeat (apply elem_of_cons in Hin; destruct Hin as [[= -> ->]|Hin]); [..|by apply elem_of_nil in Hin];
    try assumption; try contradiction;
    try apply outsider_unStake; try apply outsider_unJail; try apply outsider_getWaitingListIndex.
  - unfold stake. handler.
  - unfold stake. handler.
  - unfold unBond. handler.
  - unfold slash. handler.
  - unfold jail. handler.
  - unfold changeRewardAddress. handler.
  - unfold changeValidatorKey. handler.
  - unfold switchJailedWithWaiting. handler.
  - unfold getWaitingListRegisterNonceAndRewardAddress. handler.
  - unfold updateConfigMinNodes. handler.
  - unfold setOwnersOnAddresses. handler.
  - unfold getOwner. handler.
  - unfold updateConfigMaxNodes. handler.
  - unfold stakeNodesFromQueue. handler.
  - unfold unStakeAtEndOfEpoch. handler.
  - unfold resetLastUnJailedFromQueue. handler.
  - unfold cleanAdditionalQueue. handler.
  - unfold changeOwnerAndRewardAddress. handler.
  - unfold unStakeAllNodesFromQueue. handler.
Qed.
End Outsider.

Lemma dispatch_in name f l : dispatch (E := E) name l = Some f -> (name, f) ∈ l.
Proof.
  induction l as [|[n g] l IH]; simpl; [done|]. destruct (beq n name) eqn:Eb.
  - intros [= ->]. apply beq_true in Eb as ->. left.
  - intros Hd. right. by apply IH.
Qed.

Lemma runHandler_reads (m : SE E stop unit) e k :
  reads m -> slot (fst (runHandler m e)) k = slot e k.
Proof.
  intros Hm. destruct (Hm e) as [Hs _]. rewrite <- (Hs k). unfold runHandler. by destruct (m e) as [e' [[|]|]].
Qed.
End Access.
