(* ===== verification/StakingState.v ===== *)
(** * The state of the staking contract as a queue, a registry and a configuration,
    and a program logic over it.

    [rep e a]: the storage of [e] holds the abstract state [a].  [wp m K a] says what
    a computation of the contract does from any environment that represents [a];
    [twp m K a] says in addition that it does not stop. *)

From stdpp Require Import base list gmap strings.
From Stdlib Require Import ZArith Lia.
From S2P Require Import Prelude SystemEI StakingData StakingQueue StakingQueueSpec.
From S2P Require Import StakingQueueSpec StakingQueueRemove StakingSC.

Record aState := mkAState {
  aQ : list bytes * list bytes;
  aData : bytes -> StakedDataV2_0;
  aCfg : StakingNodesConfig;
}.

Definition queued (a : aState) : list bytes := fst (aQ a) ++ snd (aQ a).

Definition aSave (a : aState) (k : bytes) (d : StakedDataV2_0) : aState :=
  mkAState (aQ a) (fun k' => if decide (k' = k) then d else aData a k') (aCfg a).
Definition aSetQ (a : aState) (q : list bytes * list bytes) : aState := mkAState q (aData a) (aCfg a).
Definition aSetCfg (a : aState) (c : StakingNodesConfig) : aState := mkAState (aQ a) (aData a) c.

(** Codes that commit the changes. *)
Class Stops (R : Type) := isOk : R -> bool.
#[global] Instance stops_stErr : Stops stErr := fun _ => false.
#[global] Instance stops_stop : Stops stop :=
  fun r => match r with Return rc => bool_decide (rc = Ok) | Panic => false end.

Section State.
Context {E : Type} `{EI : SystemEI E} `{EL : !SystemEILaws E}.
Context `{SC : StakingCodec} `{CL : !StakingCodecLaws SC}.
Variables (s : stakingSC) (flags : EpochFlags) (keyLen : nat) (hk : Hook).
Hypothesis HkeyLen : keyLen <> 11%nat.
Hypothesis Hstake : StakeFlag flags = true.
Hypothesis HstakingV2 : StakingV2Flag flags = true.
Hypothesis Hfirst : CorrectFirstQueuedFlag flags = true.
Hypothesis Hlast : CorrectLastUnJailedFlag flags = true.
Implicit Types (e : E) (a : aState).
Notation okKey := (okKey keyLen).
Notation frame := (frame keyLen).

Record rep e a : Prop := {
  r_queue : queueRep keyLen e (fst (aQ a)) (snd (aQ a));
  r_data : forall k, okKey k -> regData e k (aData a k);
  r_cfg : getConfig s (R := stErr) e = (e, inr (aCfg a));
  r_max : MaxNumNodes (aCfg a) <> 0;
  r_hook : eiHook e = hk;
}.

(** ** The logic *)

Definition wp {R A} `{Stops R} (m : SE E R A) (K : A -> aState -> Prop) (F : aState -> Prop) a : Prop :=
  forall e, rep e a ->
    match m e with
    | (e', inr x) => exists a', rep e' a' /\ K x a'
    | (e', inl r) => isOk r = true -> exists a', rep e' a' /\ F a'
    end.

Definition twp {R A} (m : SE E R A) (K : A -> aState -> Prop) a : Prop :=
  forall e, rep e a -> exists e' x a', m e = (e', inr x) /\ rep e' a' /\ K x a'.

Section Rules.
Context {R : Type} `{HR : Stops R} {A B : Type}.
Implicit Types (K : A -> aState -> Prop) (F : aState -> Prop).

Lemma twp_wp (m : SE E R A) K F a : twp m K a -> wp m K F a.
Proof.
  intros H e Hr. destruct (H e Hr) as (e' & x & a' & Em & Hr' & HK). rewrite Em. by exists a'.
Qed.

Lemma wp_ret (x : A) K F a : K x a -> wp (ret x : SE E R A) K F a.
Proof. intros H e Hr. by exists a. Qed.

Lemma wp_bind (m : SE E R A) (f : A -> SE E R B) (K : B -> aState -> Prop) F a :
  wp m (fun x a' => wp (f x) K F a') F a -> wp (bind m f) K F a.
Proof.
  intros H e Hr. specialize (H e Hr). unfold bind.
  destruct (m e) as [e' [r|x]]; [exact H|]. destruct H as (a' & Hr' & H). by apply H.
Qed.

Lemma wp_mono (m : SE E R A) K K' F a :
  (forall x a', K x a' -> K' x a') -> wp m K F a -> wp m K' F a.
Proof.
  intros HK H e Hr. specialize (H e Hr). destruct (m e) as [e' [r|x]]; [exact H|].
  destruct H as (a' & Hr' & H). exists a'. auto.
Qed.

Lemma wp_throw (r : R) K F a : (isOk r = true -> F a) -> wp (throw r : SE E R A) K F a.
Proof. intros H e Hr Hok. exists a. auto. Qed.

Lemma twp_ret (x : A) K a : K x a -> twp (ret x : SE E R A) K a.
Proof. intros H e Hr. by exists e, x, a. Qed.

Lemma twp_bind (m : SE E R A) (f : A -> SE E R B) (K : B -> aState -> Prop) a :
  twp m (fun x a' => twp (f x) K a') a -> twp (bind m f) K a.
Proof.
  intros H e Hr. destruct (H e Hr) as (e1 & x & a1 & E1 & Hr1 & H1).
  destruct (H1 e1 Hr1) as (e2 & y & a2 & E2 & Hr2 & H2).
  exists e2, y, a2. split; [|done]. unfold bind. by rewrite E1.
Qed.

Lemma twp_onErr {R'} (m : SE E R' A) (h : R' -> SE E R A) K a :
  twp m K a -> twp (onErr m h) K a.
Proof.
  intros H e Hr. destruct (H e Hr) as (e1 & x & a1 & E1 & H1).
  exists e1, x, a1. split; [|done]. unfold onErr. by rewrite E1.
Qed.

Lemma wp_onErr {R'} `{Stops R'} (m : SE E R' A) (h : R' -> SE E R A) K F a :
  wp m K F a -> (forall r e, match h r e with (_, inl r') => isOk r' = false | _ => False end) ->
  wp (onErr m h) K F a.
Proof.
  intros Hm Hh e Hr. specialize (Hm e Hr). unfold onErr.
  destruct (m e) as [e' [r|x]]; [|exact Hm]. specialize (Hh r e').
  destruct (h r e') as [e2 [r'|y]]; [|done]. by rewrite Hh.
Qed.
End Rules.

(** ** The environment under the representation *)

Definition readData (v : bytes) : stErr + StakedDataV2_0 :=
  let norm d := match SlashValue d with None => withSlashValue d (Some 0) | Some _ => d end in
  if bool_decide (v = []) then inr (norm emptyStaked)
  else match uStaked v with inl t => inl (ErrMarshalizer t) | inr d => inr (norm d) end.

Definition readConfig (v : bytes) : StakingNodesConfig :=
  if bool_decide (v = []) then baseConfig s
  else match uConfig v with inl _ => baseConfig s | inr c => c end.

Lemma getData_eq e k : getOrCreateRegisteredData k e = (e, readData (slot e k)).
Proof.
  unfold getOrCreateRegisteredData, GetStorage, gets, bind, readData, slot.
  assert (Hlen : (0 <? slen (eiGetStorage e k)) = negb (bool_decide (default [] (eiGetStorage e k) = []))).
  { by destruct (eiGetStorage e k) as [[|x l]|]. }
  rewrite Hlen. destruct (bool_decide _); [done|]. simpl.
  by destruct (uStaked _).
Qed.

Lemma getConfig_eq {R} e : getConfig s (R := R) e = (e, inr (readConfig (slot e nodesConfigKey))).
Proof.
  unfold getConfig, GetStorage, gets, bind, readConfig. rewrite slen_slot.
  destruct (bool_decide _); [done|]. change (default [] (eiGetStorage e nodesConfigKey))
    with (slot e nodesConfigKey). by destruct (uConfig _).
Qed.

Lemma regData_iff e k d : regData e k d <-> readData (slot e k) = inr d.
Proof. unfold regData. rewrite getData_eq. split; [by intros [= H]|by intros ->]. Qed.

Lemma readConfig_iff e c : getConfig s (R := stErr) e = (e, inr c) <-> readConfig (slot e nodesConfigKey) = c.
Proof. rewrite getConfig_eq. split; [by intros [= H]|by intros ->]. Qed.

Lemma nodesConfigKey_wk k : nodesConfigKey <> wk k.
Proof. done. Qed.

Lemma okKey_ne_config k : okKey k -> k <> nodesConfigKey.
Proof. intros [_ Hl] ->. by rewrite <- Hl in HkeyLen. Qed.

(** Two environments with the same slots represent the same states. *)
Lemma rep_slots e e' a a' :
  aQ a' = aQ a -> eiHook e' = eiHook e ->
  (forall k, okKey k -> slot e' (wk k) = slot e (wk k)) ->
  slot e' waitingListHeadKey = slot e waitingListHeadKey ->
  (forall k, okKey k -> readData (slot e' k) = inr (aData a' k)) ->
  readConfig (slot e' nodesConfigKey) = aCfg a' -> MaxNumNodes (aCfg a') <> 0 ->
  rep e a -> rep e' a'.
Proof.
  intros Hq Hh Hw Hl Hd Hc Hm [H1 H2 H3 H4 H5]. split; [| | |done|congruence].
  - rewrite Hq. by apply (queueRep_frame keyLen e).
  - intros k Hk. apply regData_iff. auto.
  - by apply readConfig_iff.
Qed.

Lemma rep_same e e' a : (forall k, slot e' k = slot e k) -> eiHook e' = eiHook e -> rep e a -> rep e' a.
Proof.
  intros Hs Hh Hr. apply (rep_slots e e' a a); auto; destruct Hr as [_ H2 H3 H4 _]; try done.
  - intros k Hk. rewrite Hs. by apply regData_iff, H2.
  - rewrite Hs. by apply readConfig_iff.
Qed.

(** An operation of the waiting list. *)
Lemma rep_frame e e' a q :
  frame e e' -> queueRep keyLen e' (fst q) (snd q) -> rep e a -> rep e' (aSetQ a q).
Proof.
  intros [Hf Hh] Hq [H1 H2 H3 H4 H5]. split; simpl; [done| | |done|congruence].
  - intros k Hk. apply regData_iff. rewrite Hf by by apply okKey_other. by apply regData_iff, H2.
  - apply readConfig_iff. rewrite Hf; [by apply readConfig_iff|]. split; [done|].
    intros k Hk. apply nodesConfigKey_wk.
Qed.

(** ** Primitive operations *)

Section Primitives.
Context {R : Type} `{HR : Stops R}.

Lemma twp_hook {A} (f : Hook -> A) (K : A -> aState -> Prop) a :
  K (f hk) a -> twp (hook (R := R) f) K a.
Proof.
  intros H e Hr. exists e, (f hk), a. split; [|done].
  unfold hook, gets. by rewrite (r_hook _ _ Hr).
Qed.

Lemma twp_message m (K : unit -> aState -> Prop) a : K tt a -> twp (AddReturnMessage (R := R) m) K a.
Proof.
  intros H e Hr. eexists _, tt, a. split; [reflexivity|]. split; [|done].
  apply (rep_same e); [|apply hook_message|done]. intros k. apply slot_message.
Qed.

Lemma twp_finish v (K : unit -> aState -> Prop) a : K tt a -> twp (Finish (R := R) v) K a.
Proof.
  intros H e Hr. eexists _, tt, a. split; [reflexivity|]. split; [|done].
  apply (rep_same e); [|apply hook_finish|done]. intros k. apply slot_finish.
Qed.

Lemma twp_getConfig (K : StakingNodesConfig -> aState -> Prop) a :
  K (aCfg a) a -> twp (getConfig s (R := R)) K a.
Proof.
  intros H e Hr. exists e, (aCfg a), a. split; [|done]. rewrite getConfig_eq.
  by rewrite (proj1 (readConfig_iff e (aCfg a)) (r_cfg _ _ Hr)).
Qed.

Lemma twp_setConfig c (K : unit -> aState -> Prop) a :
  MaxNumNodes c <> 0 -> K tt (aSetCfg a c) -> twp (setConfig (R := R) c) K a.
Proof.
  intros Hm H e Hr. destruct (mConfig_ok c) as (b & Eb & Hu & Hne).
  eexists _, tt, (aSetCfg a c). unfold setConfig. rewrite Eb. split; [reflexivity|]. split; [|done].
  apply (rep_slots e _ a); auto.
  - apply hook_set.
  - intros k Hk. apply slot_set_ne. intros Ek. symmetry in Ek. by apply nodesConfigKey_wk in Ek.
  - by apply slot_set_ne.
  - intros k Hk. rewrite slot_set_ne by by apply okKey_ne_config. by apply regData_iff, Hr.
  - rewrite slot_set_eq. simpl. unfold readConfig. rewrite bool_decide_eq_false_2 by auto.
    destruct Hu as [->|Hu]; [by destruct (Hne Hm)|]. by rewrite Hu.
Qed.
End Primitives.

Lemma twp_get k (K : StakedDataV2_0 -> aState -> Prop) a :
  okKey k -> (SlashValue (aData a k) <> None -> K (aData a k) a) ->
  twp (getOrCreateRegisteredData k) K a.
Proof.
  intros Hk H e Hr. exists e, (aData a k), a. split; [by apply Hr|]. split; [done|]. apply H.
  assert (Hd : readData (slot e k) = inr (aData a k)) by by apply regData_iff, Hr.
  unfold readData in Hd. destruct (bool_decide _).
  - injection Hd as <-. done.
  - destruct (uStaked _) as [t|d]; [done|]. injection Hd as <-. by destruct (SlashValue d) eqn:?; simpl; congruence.
Qed.

Lemma twp_save k d (K : unit -> aState -> Prop) a :
  okKey k -> SlashValue d <> None -> K tt (aSave a k d) -> twp (saveStakingData flags k d) K a.
Proof.
  intros Hk Hd H e Hr. destruct (mStaked_ok d) as (b & Eb & Hne & Hu).
  unfold saveStakingData. rewrite Hstake, HstakingV2. simpl. unfold bind, liftMarshal. rewrite Eb.
  eexists _, tt, (aSave a k d). split; [reflexivity|]. split; [|done].
  pose proof (okKey_other keyLen HkeyLen k Hk) as [Hkh Hkw].
  apply (rep_slots e _ a); auto; simpl.
  - apply hook_set.
  - intros k' Hk'. apply slot_set_ne. intros E0. by apply (Hkw k').
  - by apply slot_set_ne.
  - intros k' Hk'. destruct (decide (k' = k)) as [->|Hne'].
    + rewrite slot_set_eq. simpl. unfold readData. rewrite bool_decide_eq_false_2 by done.
      rewrite Hu. by destruct (SlashValue d).
    + rewrite slot_set_ne by done. by apply regData_iff, Hr.
  - rewrite slot_set_ne by (intros E0; by apply (okKey_ne_config k)). apply readConfig_iff, Hr.
  - apply Hr.
Qed.

Lemma twp_unset {R} k (K : unit -> aState -> Prop) a :
  okKey k -> K tt (aSave a k emptyStaked) -> twp (SetStorage (R := R) k None) K a.
Proof.
  intros Hk H e Hr. eexists _, tt, (aSave a k emptyStaked). split; [reflexivity|]. split; [|done].
  pose proof (okKey_other keyLen HkeyLen k Hk) as [Hkh Hkw].
  apply (rep_slots e _ a); auto; simpl.
  - apply hook_set.
  - intros k' Hk'. apply slot_set_ne. intros E0. by apply (Hkw k').
  - by apply slot_set_ne.
  - intros k' Hk'. destruct (decide (k' = k)) as [->|Hne'].
    + by rewrite slot_set_eq.
    + rewrite slot_set_ne by done. by apply regData_iff, Hr.
  - rewrite slot_set_ne by (intros E0; by apply (okKey_ne_config k)). apply readConfig_iff, Hr.
  - apply Hr.
Qed.

Lemma twp_add k (jailed : bool) (K : unit -> aState -> Prop) a :
  okKey k -> Z.of_nat (length (queued a)) + 1 < MaxUint32 ->
  K tt (aSetQ a (qAdd k jailed (aQ a))) -> twp (addToWaitingList flags k jailed) K a.
Proof.
  intros Hk Hl H e Hr.
  destruct (addToWaitingList_spec flags keyLen HkeyLen e _ _ k jailed Hfirst (r_queue _ _ Hr) Hk Hl)
    as (e' & E1 & Ha & Hf).
  exists e', tt, (aSetQ a (qAdd k jailed (aQ a))). split; [done|]. split; [|done].
  apply (rep_frame e); [done| |done]. unfold added in Ha. by destruct (aQ a).
Qed.

Lemma twp_remove k (K : unit -> aState -> Prop) a :
  okKey k -> K tt (aSetQ a (qRemove k (aQ a))) -> twp (removeFromWaitingList flags k) K a.
Proof.
  intros Hk H e Hr.
  destruct (removeFromWaitingList_spec flags keyLen HkeyLen Hfirst Hlast e _ _ k (r_queue _ _ Hr) Hk)
    as (e' & E1 & Ha & Hf).
  exists e', tt, (aSetQ a (qRemove k (aQ a))). split; [done|]. split; [|done].
  apply (rep_frame e); [done| |done]. by destruct (aQ a).
Qed.

Lemma twp_head (K : WaitingList -> aState -> Prop) a :
  K (match queued a with [] => emptyHead | _ => headOf (fst (aQ a)) (snd (aQ a)) end) a ->
  twp getWaitingListHead K a.
Proof.
  intros H e Hr. eexists e, _, a. split; [apply (q_inv_head keyLen), Hr|done].
Qed.

(** The first element of a queue that is not empty. *)
Lemma twp_firstElement k l (K : ElementInList -> aState -> Prop) a :
  queued a = k :: l -> (forall x, BLSPublicKey x = k -> K x a) ->
  twp (getWaitingListElement (hdKey (queued a) [])) K a.
Proof.
  intros Hq H e Hr. pose proof (q_seg _ _ _ _ (r_queue _ _ Hr)) as Hs. unfold queued in *.
  rewrite Hq in Hs |- *. destruct Hs as [Hk _].
  eexists e, _, a. split; [apply get_elem, Hk|]. split; [done|]. by apply H.
Qed.

Lemma twp_noElement k (K : option ElementInList -> aState -> Prop) a :
  okKey k -> (k ∉ queued a -> K None a) -> (forall x, k ∈ queued a -> K (Some x) a) ->
  twp (tryElement (wk k)) K a.
Proof.
  intros Hk H1 H2 e Hr. destruct (decide (k ∈ queued a)) as [Hin|Hin].
  - apply list_elem_of_split in Hin as Hsp. destruct Hsp as (l1 & l2 & El).
    pose proof (q_seg _ _ _ _ (r_queue _ _ Hr)) as Hs. unfold queued in *. rewrite El in Hs.
    apply seg_app in Hs as [_ [Hk' _]].
    eexists e, _, a. split; [unfold tryElement; rewrite (get_elem _ _ _ Hk'); reflexivity|]. auto.
  - exists e, None, a. split; [|auto]. unfold tryElement.
    rewrite get_elem_none; [done|]. by apply (q_out _ _ _ _ (r_queue _ _ Hr)).
Qed.
End State.
