(* ===== verification/StakingInvariant.v ===== *)
(** * The invariant of the staking contract: the queue, the registry and the
    counter of staked nodes agree, and every handler keeps them so. *)

From stdpp Require Import base list gmap strings.
From Stdlib Require Import ZArith Lia.
From S2P Require Import Prelude SystemEI StakingData StakingQueue StakingQueueSpec.
From S2P Require Import StakingQueueSpec StakingQueueRemove StakingSC StakingState.

Definition b2z (b : bool) : Z := if b then 1 else 0.

(** ** The invariant *)

(** [v4]: StakingV4StartedFlag, after which there is no queue. *)
Record consistent (keyLen : nat) (v4 : bool) (a : aState) : Prop := {
  c_queue : forall k, okKey keyLen k -> (Waiting (aData a k) = true <-> k ∈ queued a);
  c_excl : forall k, okKey keyLen k -> Staked (aData a k) = true -> Waiting (aData a k) = false;
  c_count : exists S : gset bytes,
    (forall k, k ∈ S <-> okKey keyLen k /\ Staked (aData a k) = true) /\
    StakedNodes (aCfg a) = Z.of_nat (size S);
  c_v4 : v4 = true -> queued a = [];
}.

(** There is room for one more node. *)
Definition room (a : aState) : Prop :=
  Z.of_nat (length (queued a)) + 1 < MaxUint32 /\ StakedNodes (aCfg a) + 1 < 2 ^ 63.

#[local] Arguments qRemove : simpl never.
#[local] Arguments qAdd : simpl never.

Lemma elem_qRemove x k q : x ∈ fst (qRemove k q) ++ snd (qRemove k q) <-> x <> k /\ x ∈ fst q ++ snd q.
Proof. unfold qRemove. cbn [fst snd]. rewrite !elem_of_app, !list_elem_of_filter. tauto. Qed.

Lemma elem_qAdd x k j q : x ∈ fst (qAdd k j q) ++ snd (qAdd k j q) <-> x = k \/ x ∈ fst q ++ snd q.
Proof.
  unfold qAdd. destruct (decide _) as [H|H].
  - split; [by right|]. by intros [->|?].
  - destruct j; simpl; rewrite !elem_of_app, list_elem_of_singleton; tauto.
Qed.

Section Invariant.
Context (keyLen : nat) (v4 : bool).
Notation okKey := (okKey keyLen).
Notation consistent := (consistent keyLen v4).
Implicit Types (a : aState).

(** One key changes: its place in the queue and the counter follow its data. *)
Lemma consistent_update a k d q c :
  consistent a -> okKey k ->
  (forall x, x <> k -> (x ∈ fst q ++ snd q <-> x ∈ queued a)) ->
  (k ∈ fst q ++ snd q <-> Waiting d = true) ->
  (Staked d = true -> Waiting d = false) ->
  StakedNodes c = StakedNodes (aCfg a) + b2z (Staked d) - b2z (Staked (aData a k)) ->
  (v4 = true -> fst q ++ snd q = []) ->
  consistent (aSave (aSetCfg (aSetQ a q) c) k d).
Proof.
  intros [H1 H2 (S & HS & Hn) H4] Hk Hq Hkq Hex Hc Hv. split; [| | |exact Hv].
  - intros x Hx. unfold queued. simpl. destruct (decide (x = k)) as [->|Hne]; [by rewrite Hkq|].
    rewrite H1 by done. by rewrite Hq.
  - intros x Hx. simpl. destruct (decide (x = k)) as [->|Hne]; auto.
  - simpl. destruct (Staked d) eqn:Ed.
    + exists (S ∪ {[k]}). split.
      * intros x. rewrite elem_of_union, elem_of_singleton, HS.
        destruct (decide (x = k)) as [->|Hne]; [tauto|]. tauto.
      * destruct (Staked (aData a k)) eqn:Ek; simpl in Hc.
        -- assert (Hin : k ∈ S) by by apply HS.
           replace (S ∪ {[k]}) with S; [lia|]. clear -Hin. set_solver.
        -- assert (Hin : k ∉ S) by (intros [_ Hk2]%HS; congruence).
           rewrite size_union, size_singleton; [lia|]. clear -Hin. set_solver.
    + exists (S ∖ {[k]}). split.
      * intros x. rewrite elem_of_difference, elem_of_singleton, HS.
        destruct (decide (x = k)) as [->|Hne]; [|tauto]. rewrite Ed. split; intros [? ?]; done.
      * destruct (Staked (aData a k)) eqn:Ek; simpl in Hc.
        -- assert (Hin : k ∈ S) by by apply HS.
           rewrite size_difference by (clear -Hin; set_solver). rewrite size_singleton.
           assert (size S <> 0%nat) by (apply size_non_empty_iff; clear -Hin; set_solver). lia.
        -- assert (Hin : k ∉ S) by (intros [_ Hk2]%HS; congruence).
           replace (S ∖ {[k]}) with S by (clear -Hin; set_solver). lia.
Qed.

(** The data of a key changes, but not whether it is staked or waiting. *)
Lemma consistent_same a k d :
  consistent a -> okKey k -> Staked d = Staked (aData a k) -> Waiting d = Waiting (aData a k) ->
  consistent (aSave a k d).
Proof.
  intros H Hk Hs Hw.
  apply (consistent_update a k d (aQ a) (aCfg a)); auto.
  - rewrite Hw. symmetry. by apply H.
  - rewrite Hw, Hs. by apply H.
  - rewrite Hs. lia.
  - apply H.
Qed.

Lemma count_pos a k : consistent a -> okKey k -> Staked (aData a k) = true -> 0 < StakedNodes (aCfg a).
Proof.
  intros [_ _ (S & HS & Hn) _] Hk Hst. assert (Hin : k ∈ S) by by apply HS.
  assert (size S <> 0%nat) by (apply size_non_empty_iff; clear -Hin; set_solver). lia.
Qed.

Lemma count_nonneg a : consistent a -> 0 <= StakedNodes (aCfg a).
Proof. intros [_ _ (S & HS & Hn) _]. lia. Qed.
End Invariant.

(** ** The handlers *)

Section Handlers.
Context {E : Type} `{EI : SystemEI E} `{EL : !SystemEILaws E}.
Context `{SC : StakingCodec} `{CL : !StakingCodecLaws SC} `{CO : CoreLib}.
Variables (s : stakingSC) (flags : EpochFlags) (keyLen : nat) (hk : Hook).
Hypothesis HkeyLen : keyLen <> 11%nat.
Hypothesis Hstake : StakeFlag flags = true.
Hypothesis HstakingV2 : StakingV2Flag flags = true.
Hypothesis Hfirst : CorrectFirstQueuedFlag flags = true.
Hypothesis Hlast : CorrectLastUnJailedFlag flags = true.
Notation okKey := (okKey keyLen).
Notation v4 := (StakingV4StartedFlag flags).
Notation consistent := (consistent keyLen v4).
Notation wp := (wp (E := E) s keyLen hk).
Notation twp := (twp (E := E) s keyLen hk).
Implicit Types (a : aState).

(** *** Rules for the pieces of the handlers *)

Lemma wp_require (b : bool) m (K : unit -> aState -> Prop) F a :
  (b = true -> K tt a) -> wp (require b m) K F a.
Proof.
  intros H. destruct b; simpl; [by apply wp_ret; auto|].
  unfold fail. apply wp_bind, twp_wp, twp_message. by apply wp_throw.
Qed.

Lemma wp_requireCaller args addr m (K : unit -> aState -> Prop) F a :
  K tt a -> wp (requireCaller args addr m) K F a.
Proof. intros H. by apply wp_require. Qed.

Lemma wp_fail {A} m (K : A -> aState -> Prop) F a : wp (fail m : SE E stop A) K F a.
Proof. unfold fail. apply wp_bind, twp_wp, twp_message. by apply wp_throw. Qed.

Lemma wp_return {A} rc (K : A -> aState -> Prop) F a : (rc = Ok -> F a) -> wp (return_ rc) K F a.
Proof. intros H. apply wp_throw. intros Hok. apply H. by apply bool_decide_eq_true in Hok. Qed.

Lemma wp_when {R} `{Stops R} (b : bool) (m : SE E R unit) (K : unit -> aState -> Prop) F a :
  (b = true -> wp m K F a) -> (b = false -> K tt a) -> wp (when_ b m) K F a.
Proof. intros H1 H2. destruct b; simpl; [auto|by apply wp_ret; auto]. Qed.

Lemma wp_orFail {A} p (m : SE E stErr A) (K : A -> aState -> Prop) F a :
  wp m K F a -> wp (orFail p m) K F a.
Proof. intros Hm. eapply wp_onErr; [exact Hm|]. by intros [] e. Qed.

Lemma wp_orUserError {A} (m : SE E stErr A) (K : A -> aState -> Prop) F a :
  wp m K F a -> wp (orUserError m) K F a.
Proof. intros Hm. eapply wp_onErr; [exact Hm|]. by intros [] e. Qed.

(** A handler that always changes a key to data with the same status. *)
Lemma save_same k d a :
  consistent a -> okKey k -> SlashValue d <> None ->
  Staked d = Staked (aData a k) -> Waiting d = Waiting (aData a k) ->
  twp (saveStakingData flags k d) (fun _ => consistent) a.
Proof.
  intros Hc Hk Hd Hs Hw. apply twp_save; auto. by apply consistent_same.
Qed.

(** *** The counter *)

Lemma twp_addStaked {R} (K : unit -> aState -> Prop) a :
  0 <= StakedNodes (aCfg a) -> room a -> MaxNumNodes (aCfg a) <> 0 ->
  K tt (aSetCfg a (withStakedNodes (aCfg a) (StakedNodes (aCfg a) + 1))) ->
  twp (addToStakedNodes (R := R) s 1) K a.
Proof.
  intros H0 [_ Hr] Hm HK. unfold addToStakedNodes. apply twp_bind, twp_getConfig.
  apply twp_setConfig; [done|done|]. by rewrite i64_small by lia.
Qed.

Lemma twp_removeStaked {R} (K : unit -> aState -> Prop) a :
  0 < StakedNodes (aCfg a) -> MaxNumNodes (aCfg a) <> 0 ->
  K tt (aSetCfg a (withStakedNodes (aCfg a) (StakedNodes (aCfg a) - 1))) ->
  twp (removeFromStakedNodes (R := R) s) K a.
Proof.
  intros H0 Hm HK. unfold removeFromStakedNodes. apply twp_bind, twp_getConfig.
  rewrite (proj2 (Z.ltb_lt _ _) H0). by apply twp_setConfig.
Qed.

(** The representation knows that the maximum is not zero. *)
Lemma wp_max {R A} `{Stops R} (m : SE E R A) (K : A -> aState -> Prop) F a :
  (MaxNumNodes (aCfg a) <> 0 -> wp m K F a) -> wp m K F a.
Proof. intros H1 e Hr. by apply H1; [apply Hr|]. Qed.

Lemma twp_max {R A} (m : SE E R A) (K : A -> aState -> Prop) a :
  (MaxNumNodes (aCfg a) <> 0 -> twp m K a) -> twp m K a.
Proof. intros H1 e Hr. by apply H1; [apply Hr|]. Qed.

(** *** processStake *)

(** What staking does to the state: the key is put in the queue when the nodes are
    at their maximum, and is staked otherwise. *)
Definition full a : bool :=
  negb (StakingV4StartedFlag flags) && negb (StakedNodes (aCfg a) <? MaxNumNodes (aCfg a)).

Definition aStake (k : bytes) (d : StakedDataV2_0) (addFirst : bool) a : StakedDataV2_0 * aState :=
  if Staked d then (d, a)
  else
    let d := withRegisterNonce d (CurrentNonce hk) in
    if full a then (withWaiting d true, aSetQ a (qAdd k addFirst (aQ a)))
    else
      (withActiveStaking d (CurrentNonce hk),
       aSetCfg (aSetQ a (if StakingV4StartedFlag flags then aQ a else qRemove k (aQ a)))
         (withStakedNodes (aCfg a) (StakedNodes (aCfg a) + 1))).

Lemma twp_processStake k d addFirst (K : StakedDataV2_0 -> aState -> Prop) a :
  okKey k -> room a -> 0 <= StakedNodes (aCfg a) ->
  K (fst (aStake k d addFirst a)) (snd (aStake k d addFirst a)) ->
  twp (processStake s flags k d addFirst) K a.
Proof.
  intros Hk Hr H0 HK. apply twp_max. intros Hm.
  unfold processStake, aStake, full in *. destruct (Staked d) eqn:Ed.
  - destruct (StakingV4StartedFlag flags); [unfold processStakeV2|unfold processStakeV1];
      rewrite Ed; by apply twp_ret.
  - destruct (StakingV4StartedFlag flags) eqn:E4; simpl in HK.
    + unfold processStakeV2. rewrite Ed. apply twp_bind, twp_hook, twp_bind, twp_addStaked; auto.
      apply twp_bind, twp_hook, twp_ret. exact HK.
    + unfold processStakeV1. rewrite Ed. apply twp_bind, twp_hook, twp_bind.
      unfold canStake. rewrite E4. apply twp_bind, twp_getConfig, twp_ret.
      destruct (StakedNodes (aCfg a) <? MaxNumNodes (aCfg a)); simpl in HK |- *.
      * apply twp_bind, twp_onErr, twp_remove; auto. apply twp_bind.
        apply twp_addStaked; auto.
        -- split; [|apply Hr]. destruct Hr as [Hr _]. unfold queued in *. simpl.
           rewrite length_app in Hr |- *.
           pose proof (length_filter (fun x => x <> k) (fst (aQ a))).
           pose proof (length_filter (fun x => x <> k) (snd (aQ a))). lia.
        -- apply twp_bind, twp_hook, twp_ret. exact HK.
      * apply twp_bind, twp_message, twp_bind, twp_onErr, twp_add; auto; [apply Hr|].
        apply twp_bind, twp_finish, twp_ret. exact HK.
Qed.

Lemma qRemove_nil k q : fst q ++ snd q = [] -> fst (qRemove k q) ++ snd (qRemove k q) = [].
Proof. intros H. apply app_eq_nil in H as [H1 H2]. unfold qRemove. by rewrite H1, H2. Qed.

Lemma aStake_consistent k d addFirst a :
  consistent a -> okKey k -> Staked d = Staked (aData a k) -> Waiting d = Waiting (aData a k) ->
  consistent (aSave (snd (aStake k d addFirst a)) k (fst (aStake k d addFirst a))).
Proof.
  intros Hc Hk Hs Hw. unfold aStake. destruct (Staked d) eqn:Ed; simpl.
  - apply consistent_same; auto; congruence.
  - unfold full. destruct (negb v4 && _) eqn:Ef; simpl.
    + apply (consistent_update _ _ a k _ (qAdd k addFirst (aQ a)) (aCfg a)); auto.
      * intros x Hx. setoid_rewrite elem_qAdd. unfold queued. tauto.
      * setoid_rewrite elem_qAdd. simpl. tauto.
      * by simpl; rewrite Ed.
      * simpl. rewrite Ed, <- Hs. simpl. lia.
      * intros Hv. by rewrite Hv in Ef.
    + apply (consistent_update _ _ a k _ (if v4 then aQ a else qRemove k (aQ a))
        (withStakedNodes (aCfg a) (StakedNodes (aCfg a) + 1))); auto; simpl.
      * intros x Hx. destruct v4; [done|]. rewrite elem_qRemove. unfold queued. tauto.
      * destruct v4 eqn:Ev; [|by rewrite elem_qRemove; split; [intros [? _]|]].
        pose proof (c_v4 _ _ _ Hc eq_refl) as Hq. unfold queued in Hq. rewrite Hq.
        split; [by intros ?%elem_of_nil|done].
      * rewrite <- Hs. simpl. lia.
      * intros Hv. rewrite Hv. by apply (c_v4 _ _ _ Hc).
Qed.

(** *** moveFirstFromWaitingToStaked *)

Lemma twp_moveFirst_empty (K : bool -> aState -> Prop) a :
  queued a = [] -> K false a -> twp (moveFirstFromWaitingToStaked s flags) K a.
Proof.
  intros Hq HK. unfold moveFirstFromWaitingToStaked. apply twp_bind, twp_head. rewrite Hq. simpl.
  by apply twp_ret.
Qed.

(** The head of the queue is staked at the current nonce and leaves the queue. *)
Definition aMove (k : bytes) a : aState :=
  aSave (aSetCfg (aSetQ a (qRemove k (aQ a))) (withStakedNodes (aCfg a) (StakedNodes (aCfg a) + 1)))
    k (withActiveStaking (aData a k) (CurrentNonce hk)).

Lemma aMove_consistent k a :
  consistent a -> okKey k -> k ∈ queued a -> consistent (aMove k a).
Proof.
  intros Hc Hk Hin.
  apply (consistent_update _ _ a k (withActiveStaking (aData a k) (CurrentNonce hk)) (qRemove k (aQ a))
    (withStakedNodes (aCfg a) (StakedNodes (aCfg a) + 1))); auto.
  - intros x Hx. rewrite elem_qRemove. unfold queued. tauto.
  - rewrite elem_qRemove. by split; [intros [? _]|].
  - assert (Staked (aData a k) = false) as ->; [|simpl; lia].
    apply (c_queue _ _ _ Hc k Hk) in Hin. destruct (Staked (aData a k)) eqn:Es; [|done].
    by rewrite (c_excl _ _ _ Hc k Hk Es) in Hin.
  - intros Hv. apply qRemove_nil. by apply (c_v4 _ _ _ Hc).
Qed.

Lemma queued_ok {R A} `{Stops R} k l (m : SE E R A) (K : A -> aState -> Prop) F a :
  queued a = k :: l -> (okKey k -> wp m K F a) -> wp m K F a.
Proof.
  intros Hq H1 e Hr. apply H1; [|done]. pose proof (q_ok _ _ _ _ (r_queue _ _ _ _ _ Hr)) as Hok.
  unfold queued in Hq. rewrite Hq in Hok. by inversion Hok.
Qed.

Lemma room_remove k a : room a -> room (aSetQ a (qRemove k (aQ a))).
Proof.
  intros [H1 H2]. split; [|done]. unfold queued in *. simpl. rewrite length_app in H1 |- *.
  pose proof (length_filter (fun x => x <> k) (fst (aQ a))).
  pose proof (length_filter (fun x => x <> k) (snd (aQ a))). lia.
Qed.

Lemma wp_moveFirst (K : bool -> aState -> Prop) F a :
  consistent a -> room a ->
  (queued a = [] -> K false a) ->
  (forall k l, queued a = k :: l -> okKey k -> K true (aMove k a)) ->
  wp (moveFirstFromWaitingToStaked s flags) K F a.
Proof.
  intros Hc Hr H1 H2. destruct (queued a) as [|k l] eqn:Hq.
  - apply twp_wp, twp_moveFirst_empty; auto.
  - apply (queued_ok k l); [done|]. intros Hk. apply wp_max. intros Hm.
    unfold moveFirstFromWaitingToStaked. apply wp_bind, twp_wp, twp_head. rewrite Hq.
    assert (Hlen : Length_ (headOf (aQ a).1 (aQ a).2) =? 0 = false).
    { apply Z.eqb_neq. simpl. unfold queued in Hq. rewrite Hq. simpl. lia. }
    rewrite Hlen. cbn [FirstKey headOf].
    change (fst (aQ a) ++ snd (aQ a)) with (queued a). apply wp_bind, twp_wp.
    apply (twp_firstElement _ _ _ k l); [done|]. intros x Hx. rewrite Hx.
    apply wp_bind, twp_wp, twp_remove; auto. apply wp_bind, twp_wp, twp_get; [done|]. intros Hsl.
    simpl aData in *. destruct (_ || Staked (aData a k)) eqn:Est; [by apply wp_throw|].
    apply wp_bind, twp_wp, twp_hook, wp_bind, twp_wp, twp_addStaked; auto.
    + simpl. by eapply count_nonneg.
    + by apply room_remove.
    + apply wp_bind, twp_wp, twp_save; auto. apply wp_ret. by apply (H2 k l).
Qed.
End Handlers.
