(* ===== verification/StakingHandlers.v ===== *)
(** * Every handler of the staking contract but init keeps the registry, the queue and
    the counter of staked nodes in agreement.

    [keeps] is one lemma per handler, by the program logic of [StakingState]; [kept] says
    the same of one call, for unStakeAllNodesFromQueue, whose callees are assumed not to
    write here only in the environments that the call reaches.  [kept_functions] puts them
    together. *)

From stdpp Require Import base list gmap strings.
From Stdlib Require Import ZArith Lia.
From S2P Require Import Prelude SystemEI StakingData StakingQueue StakingQueueSpec.
From S2P Require Import StakingQueueSpec StakingQueueRemove StakingSC StakingState.
From S2P Require Import StakingInvariant StakingAccess.

(** The arguments of a call that are BLS keys. *)
Definition keyArguments (args : ContractCallInput) : list bytes :=
  let f := Function_ args in
  if beq f (str "jail") then Arguments args
  else if beq f (str "changeRewardAddress") || beq f (str "changeOwnerAndRewardAddress")
  then drop 1 (Arguments args)
  else if beq f (str "setOwnersOnAddresses") then map (fun p => fst (snd p)) (pairs 0 (Arguments args))
  else if existsb (beq f) (map str ["stake"; "register"; "unStake"; "unBond"; "unJail"; "switchJailedWithWaiting";
    "unStakeAtEndOfEpoch"; "addMissingNodeToQueue"]%string)
  then take 1 (Arguments args)
  else [].

Section Handlers.
Context {E : Type} `{EI : SystemEI E} `{EL : !SystemEILaws E}.
Context `{SC : StakingCodec} `{CL : !StakingCodecLaws SC} `{CO : CoreLib}.
Variables (s : stakingSC) (flags : EpochFlags) (keyLen : nat) (hk : Hook).
Hypothesis HkeyLen : keyLen <> 11%nat.
Hypothesis Hstake : StakeFlag flags = true.
Hypothesis HstakingV2 : StakingV2Flag flags = true.
Hypothesis Hfirst : CorrectFirstQueuedFlag flags = true.
Hypothesis Hlast : CorrectLastUnJailedFlag flags = true.
Notation okKey := (okKey keyLen).
Notation v4 := (StakingV4StartedFlag flags).
Notation consistent := (consistent keyLen v4).
Notation wp := (wp (E := E) s keyLen hk).
Notation twp := (twp (E := E) s keyLen hk).
Notation aStake := (aStake flags hk).
Implicit Types (a : aState).
#[local] Hint Resolve HkeyLen Hstake HstakingV2 Hfirst Hlast : core.

(** The handler keeps the invariant, whether it ends or returns Ok early. *)
Notation keeps m := (wp m (fun _ => consistent) consistent).

Lemma wp_badRating d k (K : bool -> aState -> Prop) F a :
  (forall b, K b a) -> wp (isNodeJailedOrWithBadRating d k) K F a.
Proof.
  intros H. unfold isNodeJailedOrWithBadRating.
  apply wp_bind, twp_wp, twp_hook, wp_bind, twp_wp, twp_hook, wp_ret. apply H.
Qed.

Lemma aState_eta a : aSetCfg (aSetQ a (aQ a)) (aCfg a) = a.
Proof. by destruct a. Qed.

(** One step of a handler. *)
Ltac wp_step :=
  lazymatch goal with
  | |- StakingState.wp _ _ _ ?m _ _ _ =>
      lazymatch m with
      | bind _ _ => apply wp_bind
      | requireCaller _ _ _ => apply wp_requireCaller
      | require _ _ => apply wp_require; intros ?
      | orFail _ _ => apply wp_orFail
      | orUserError _ => apply wp_orUserError
      | fail _ => apply wp_fail
      | ret _ => apply wp_ret
      | getOrCreateRegisteredData _ => apply twp_wp, twp_get; [assumption|intros ?]
      | hook _ => apply twp_wp, twp_hook
      | AddReturnMessage _ => apply twp_wp, twp_message
      | Finish _ => apply twp_wp, twp_finish
      | getConfig _ => apply twp_wp, twp_getConfig
      | isNodeJailedOrWithBadRating _ _ => apply wp_badRating; intros ?
      end
  end.
Ltac wp_steps := repeat wp_step.

Lemma wp_if {R A} `{Stops R} (b : bool) (m1 m2 : SE E R A) (K : A -> aState -> Prop) F a :
  wp m1 K F a -> wp m2 K F a -> wp (if b then m1 else m2) K F a.
Proof. by destruct b. Qed.

Lemma wp_foldM {R A B} `{Stops R} (f : B -> A -> SE E R B) (l : list A) (b : B) (I : B -> aState -> Prop) F a :
  (forall x b a, x ∈ l -> I b a -> wp (f b x) I F a) -> I b a -> wp (foldM f b l) I F a.
Proof.
  revert b a. induction l as [|x l IH]; intros b a Hf HI; simpl; [by apply wp_ret|].
  apply wp_bind. eapply wp_mono; [|apply (Hf x b a); [left|done]].
  intros b' a' HI'. apply IH; [|done]. intros y b2 a2 Hy. apply Hf. by right.
Qed.

Lemma aStake_slash k d addFirst a :
  SlashValue d <> None -> SlashValue (fst (aStake k d addFirst a)) <> None.
Proof. unfold StakingInvariant.aStake. destruct (Staked d); [done|]. by destruct (full _ _). Qed.

(** Staking or queueing a key, and saving it. *)
Lemma keeps_processStake k d addFirst p a :
  consistent a -> room a -> okKey k -> SlashValue d <> None ->
  Staked d = Staked (aData a k) -> Waiting d = Waiting (aData a k) ->
  wp (processStake s flags k d addFirst)
    (fun d => keeps (orFail p (saveStakingData flags k d))) consistent a.
Proof.
  intros Hc Hr Hk Hsl Hs Hw. apply twp_wp.
  apply twp_processStake; auto; [by eapply count_nonneg|].
  apply wp_orFail, twp_wp, twp_save; auto; [by apply aStake_slash|].
  by apply aStake_consistent.
Qed.

Lemma key_arg args k l : Arguments args = k :: l -> arg args 0 = k.
Proof. intros E0. unfold arg. by rewrite E0. Qed.

Lemma keeps_stake args onlyRegister a :
  consistent a -> room a -> (nargs args <> 0 -> okKey (arg args 0)) ->
  keeps (stake s flags args onlyRegister) a.
Proof.
  intros Hc Hr Hk. unfold stake. apply wp_bind, wp_requireCaller, wp_bind, wp_require.
  intros Hn. apply negb_true_iff, Z.ltb_ge in Hn. assert (okKey (arg args 0)) by (apply Hk; lia).
  wp_steps. destruct onlyRegister; simpl.
  - wp_steps. apply twp_wp, twp_save; auto. by apply consistent_same.
  - wp_step. by apply keeps_processStake.
Qed.

(** *** unStake *)

Lemma wp_markUnStaked d (K : StakedDataV2_0 -> aState -> Prop) {R} `{Stops R} F a :
  K (withUnStaked d (CurrentEpoch hk) (CurrentNonce hk)) a ->
  wp (markUnStaked (R := R) d) K F a.
Proof. intros HK. unfold markUnStaked. wp_steps. exact HK. Qed.

(** A key that is marked as unstaked, and is no longer in the queue. *)
Lemma keeps_unStaked k d a q c p :
  consistent a -> okKey k -> SlashValue d <> None ->
  q = (if Waiting (aData a k) then qRemove k (aQ a) else aQ a) ->
  c = (if Staked (aData a k) then withStakedNodes (aCfg a) (StakedNodes (aCfg a) - 1) else aCfg a) ->
  keeps (let! d := markUnStaked d in orFail p (saveStakingData flags k d))
    (aSetCfg (aSetQ a q) c).
Proof.
  intros Hc Hk Hsl -> ->. wp_step. apply wp_markUnStaked. wp_step.
  apply twp_wp, twp_save; auto. apply consistent_update; auto; cbn [Staked Waiting withUnStaked].
  - intros x Hx. destruct (Waiting _); [|done]. rewrite elem_qRemove. unfold queued. tauto.
  - destruct (Waiting (aData a k)) eqn:Ew.
    + rewrite elem_qRemove. by split; [intros [? _]|].
    + split; [|done]. intros Hin. apply (c_queue _ _ _ Hc k Hk) in Hin. congruence.
  - destruct (Staked _); simpl; lia.
  - intros Hv. pose proof (c_v4 _ _ _ Hc Hv). destruct (Waiting _); [by apply qRemove_nil|done].
Qed.

Lemma keeps_tryUnStake k d a :
  consistent a -> okKey k -> SlashValue d <> None -> Staked (aData a k) = true ->
  keeps (tryUnStake s flags k d) a.
Proof.
  intros Hc Hk Hsl Hs. unfold tryUnStake. apply wp_max. intros Hm. wp_step. unfold canUnStake, numSpareNodes.
  wp_steps. apply twp_wp, twp_removeStaked; auto; [by eapply count_pos|].
  unfold doUnStake. apply (keeps_unStaked k d a (aQ a)); auto; rewrite ?Hs; [|done].
  by rewrite (c_excl _ _ _ Hc k Hk Hs).
Qed.

Lemma wp_checkUnStakeArgs args (K : StakedDataV2_0 -> aState -> Prop) F a :
  (nargs args <> 0 -> okKey (arg args 0)) ->
  (okKey (arg args 0) -> SlashValue (aData a (arg args 0)) <> None ->
   Staked (aData a (arg args 0)) || Waiting (aData a (arg args 0)) = true ->
   RewardAddress (aData a (arg args 0)) = arg args 1 ->
   K (aData a (arg args 0)) a) ->
  wp (checkUnStakeArgs s args) K F a.
Proof.
  intros Hk HK. unfold checkUnStakeArgs. wp_steps.
  match goal with H : negb (_ <? _) = true |- _ => apply negb_true_iff, Z.ltb_ge in H end.
  assert (okKey (arg args 0)) by (apply Hk; lia).
  wp_steps. apply HK; auto.
  match goal with H : beq _ _ = true |- _ => by apply beq_true in H end.
Qed.

Lemma keeps_unStakeV2 args a :
  consistent a -> (nargs args <> 0 -> okKey (arg args 0)) -> keeps (unStakeV2 s flags args) a.
Proof.
  intros Hc Hk. unfold unStakeV2. wp_step. apply wp_checkUnStakeArgs; [done|]. intros Hk' Hsl _ _.
  destruct (Staked _) eqn:Es; simpl; [by apply keeps_tryUnStake|].
  wp_steps. by apply wp_return.
Qed.

Lemma keeps_unStakeV1 args a :
  consistent a -> room a -> (nargs args <> 0 -> okKey (arg args 0)) -> keeps (unStakeV1 s flags args) a.
Proof.
  intros Hc Hr Hk. unfold unStakeV1. wp_step. apply wp_checkUnStakeArgs; [done|]. intros Hk' Hsl Hsw _.
  destruct (Staked _) eqn:Es; simpl.
  - wp_step. unfold canStakeIfOneRemoved. wp_steps. apply wp_when; intros Hone.
    + wp_steps. apply wp_moveFirst; auto.
      * intros Hq. wp_step. by apply keeps_tryUnStake.
      * intros k l Hq Hkk. wp_step. apply keeps_tryUnStake; auto.
        -- apply aMove_consistent; auto. rewrite Hq. left.
        -- simpl. by destruct (decide _).
    + by apply keeps_tryUnStake.
  - simpl in Hsw. wp_steps. apply twp_wp, twp_remove; auto. wp_step.
    apply twp_wp, twp_save; auto.
    apply (consistent_update _ _ a _ _ (qRemove (arg args 0) (aQ a)) (aCfg a)); auto.
    + intros x Hx. rewrite elem_qRemove. unfold queued. tauto.
    + rewrite elem_qRemove. by split; [intros [? _]|].
    + simpl. rewrite Es. lia.
    + intros Hv. apply qRemove_nil. by apply (c_v4 _ _ _ Hc).
Qed.

Lemma keeps_unStake args a :
  consistent a -> room a -> (nargs args <> 0 -> okKey (arg args 0)) -> keeps (unStake s flags args) a.
Proof.
  intros. unfold unStake. apply wp_if; [by apply keeps_unStakeV2|by apply keeps_unStakeV1].
Qed.

(** *** The other handlers *)

Lemma keeps_unBond args a :
  consistent a -> (nargs args <> 0 -> okKey (arg args 0)) -> keeps (unBond s args) a.
Proof.
  intros Hc Hk. unfold unBond. wp_steps.
  match goal with H : negb (_ <? _) = true |- _ => apply negb_true_iff, Z.ltb_ge in H end.
  assert (Hk' : okKey (arg args 0)) by (apply Hk; lia).
  wp_steps. unfold canUnBond, numSpareNodes. wp_steps.
  apply twp_wp, twp_unset; auto.
  repeat match goal with H : negb _ = true |- _ => apply negb_true_iff in H end.
  apply consistent_same; auto.
Qed.

Lemma keeps_unJail args a :
  consistent a -> room a -> (nargs args <> 0 -> okKey (arg args 0)) -> keeps (unJail s flags args) a.
Proof.
  intros Hc Hr Hk. unfold unJail. rewrite Hstake. change (negb true) with false. cbv iota.
  wp_steps. match goal with H : (_ =? _) = true |- _ => apply Z.eqb_eq in H end.
  assert (Hk' : okKey (arg args 0)) by (apply Hk; lia).
  wp_steps. by apply keeps_processStake.
Qed.

Lemma keeps_jail args a :
  consistent a -> Forall okKey (Arguments args) -> keeps (jail s flags args) a.
Proof.
  intros Hc Hk. unfold jail. wp_step. apply wp_when; [intros _; by apply wp_return|intros _].
  apply wp_foldM; [|done]. intros k _ a' Hin Hc'. rewrite Forall_forall in Hk.
  assert (okKey k) by auto. wp_steps. apply twp_wp, twp_save; auto. by apply consistent_same.
Qed.

Lemma keeps_changeRewardAddress args a :
  consistent a -> Forall okKey (drop 1 (Arguments args)) -> keeps (changeRewardAddress s flags args) a.
Proof.
  intros Hc Hk. unfold changeRewardAddress. wp_steps.
  apply wp_foldM; [|done]. intros k _ a' Hin Hc'. rewrite Forall_forall in Hk.
  assert (okKey k) by auto. wp_steps. apply wp_if; wp_steps; [done|].
  apply twp_wp, twp_save; auto. by apply consistent_same.
Qed.

Lemma keeps_changeOwnerAndRewardAddress args a :
  consistent a -> Forall okKey (drop 1 (Arguments args)) ->
  keeps (changeOwnerAndRewardAddress s flags args) a.
Proof.
  intros Hc Hk. unfold changeOwnerAndRewardAddress.
  wp_step. apply wp_when; [intros _; by apply wp_return|intros _]. wp_steps.
  apply wp_foldM; [|done]. intros k _ a' Hin Hc'. rewrite Forall_forall in Hk.
  assert (okKey k) by auto. wp_steps.
  apply twp_wp, twp_save; auto. by apply consistent_same.
Qed.

Lemma keeps_unStakeAtEndOfEpoch args a :
  consistent a -> (nargs args <> 0 -> okKey (arg args 0)) -> keeps (unStakeAtEndOfEpoch s flags args) a.
Proof.
  intros Hc Hk. unfold unStakeAtEndOfEpoch. apply wp_max. intros Hm.
  wp_step. apply wp_when; [intros _; by apply wp_return|intros _].
  wp_steps. match goal with H : (_ =? _) = true |- _ => apply Z.eqb_eq in H end.
  assert (Hk' : okKey (arg args 0)) by (apply Hk; lia).
  wp_steps. apply wp_when; [intros _; wp_steps; by apply wp_return|intros _].
  wp_step. apply wp_when; [intros _; by apply wp_return|intros _].
  wp_step. apply wp_when; intros Hs.
  - apply twp_wp, twp_removeStaked; auto; [by eapply count_pos|]. wp_step.
    apply wp_when; intros Hw; [by rewrite (c_excl _ _ _ Hc _ Hk' Hs) in Hw|].
    apply (keeps_unStaked _ _ a (aQ a)); auto; by rewrite ?Hs, ?Hw.
  - wp_step. apply wp_when; intros Hw.
    + wp_steps. apply twp_wp, twp_remove; auto.
      apply (keeps_unStaked _ _ a _ (aCfg a)); auto; by rewrite ?Hs, ?Hw.
    + match goal with |- keeps ?m a => cut (keeps m (aSetCfg (aSetQ a (aQ a)) (aCfg a))) end.
      * by rewrite aState_eta.
      * apply keeps_unStaked; auto; by rewrite ?Hs, ?Hw.
Qed.

Lemma keeps_removeJailed k d p a :
  consistent a -> okKey k -> SlashValue d <> None ->
  Staked (aData a k) = true -> Staked d = true -> Waiting d = false ->
  wp (tryRemoveJailedNodeFromStaked s flags d)
    (fun d => keeps (orFail p (saveStakingData flags k d))) consistent a.
Proof.
  intros Hc Hk Hsl Hs Hds Hdw. apply wp_max. intros Hm.
  assert (Hw : Waiting (aData a k) = false) by by apply (c_excl _ _ _ Hc).
  assert (Hremove : wp (removeAndSetUnstaked s d)
    (fun d => keeps (orFail p (saveStakingData flags k d))) consistent a).
  { unfold removeAndSetUnstaked. wp_step. apply twp_wp, twp_removeStaked; auto; [by eapply count_pos|].
    wp_steps. apply twp_wp, twp_save; auto.
    apply (consistent_update _ _ a k _ (aQ a) (withStakedNodes (aCfg a) (StakedNodes (aCfg a) - 1)));
      auto; cbn [Staked Waiting withRemovedFromStaked StakedNodes withStakedNodes].
    - rewrite Hdw. split; [|done]. intros Hin. apply (c_queue _ _ _ Hc k Hk) in Hin. congruence.
    - rewrite Hs. simpl. lia.
    - apply Hc. }
  unfold tryRemoveJailedNodeFromStaked. apply wp_if; [done|].
  wp_step. unfold canUnStake, numSpareNodes. wp_steps. apply wp_if; [done|]. wp_steps.
  apply twp_wp, twp_save; auto. apply consistent_same; congruence.
Qed.

Lemma keeps_switchJailedWithWaiting args a :
  consistent a -> room a -> (nargs args <> 0 -> okKey (arg args 0)) ->
  keeps (switchJailedWithWaiting s flags args) a.
Proof.
  intros Hc Hr Hk. unfold switchJailedWithWaiting, disabledAfterV4Step1. wp_steps.
  apply wp_when; [intros _; by apply wp_return|intros Hn]. apply negb_false_iff, Z.eqb_eq in Hn.
  assert (Hk' : okKey (arg args 0)) by (apply Hk; lia). wp_steps.
  match goal with H : Staked _ = true |- _ => rename H into Hs end.
  assert (Hw : Waiting (aData a (arg args 0)) = false) by by apply (c_excl _ _ _ Hc).
  (* the key is not in the queue *)
  assert (Hnq : arg args 0 ∉ queued a).
  { intros Hin. apply (c_queue _ _ _ Hc _ Hk') in Hin. congruence. }
  assert (Hafter : forall a' (switched : bool), consistent a' -> aData a' (arg args 0) = aData a (arg args 0) ->
    keeps (let! nonce := hook CurrentNonce in
      let registrationData := withJailed (aData a (arg args 0)) (JailedRound (aData a (arg args 0))) nonce in
      let! registrationData :=
        (if negb switched && negb (CorrectJailedNotUnStakedEmptyQueueFlag flags) then
           AddReturnMessage (str "did not switch as nobody in waiting, but jailed") ;;
           ret registrationData
         else tryRemoveJailedNodeFromStaked s flags registrationData) in
      orFail errSave (saveStakingData flags (arg args 0) registrationData)) a').
  { intros a' switched Hc' Hd. wp_steps. cbv zeta. wp_step. apply wp_if.
    - wp_steps. apply twp_wp, twp_save; auto. apply consistent_same; auto; simpl; congruence.
    - apply keeps_removeJailed; auto; congruence. }
  unfold moveFirstFromWaitingToStakedIfNeeded. wp_step.
  apply twp_wp, (twp_noElement _ _ _ (arg args 0)); [done| |by intros x Hin].
  intros _. apply wp_moveFirst; auto.
  intros k l Hq Hkk. assert (Hin : k ∈ queued a) by (rewrite Hq; left).
  apply (Hafter (aMove hk k a) true); [by apply aMove_consistent|].
  simpl. rewrite decide_False; [done|]. intros <-. done.
Qed.

Lemma keeps_updateConfig (f : StakingNodesConfig) a :
  consistent a -> MaxNumNodes f <> 0 -> StakedNodes f = StakedNodes (aCfg a) ->
  wp (setConfig (R := stop) f) (fun _ => consistent) consistent a.
Proof.
  intros [H1 H2 (S & HS & Hn) H4] Hm Hf. apply twp_wp, twp_setConfig; auto.
  split; [done|done| |done]. exists S. split; [done|]. simpl. congruence.
Qed.

Lemma keeps_updateConfigMinNodes args a : consistent a -> keeps (updateConfigMinNodes s args) a.
Proof.
  intros Hc. unfold updateConfigMinNodes. apply wp_max. intros Hm. wp_steps. by apply keeps_updateConfig.
Qed.

Lemma keeps_updateConfigMaxNodes args a : consistent a -> keeps (updateConfigMaxNodes s flags args) a.
Proof.
  intros Hc. unfold updateConfigMaxNodes. wp_steps. apply keeps_updateConfig; [done| |done]. simpl.
  repeat match goal with H : (_ <? _) = true |- _ => apply Z.ltb_lt in H end. lia.
Qed.

Lemma stoppedAt_fails {A} i k r e :
  match (stoppedAt i k r : SE E stop A) e with (_, inl r') => isOk r' = false | _ => False end.
Proof. by destruct r. Qed.

Lemma keeps_setOwnersOnAddresses args a :
  consistent a -> Forall okKey (map (fun p => fst (snd p)) (pairs 0 (Arguments args))) ->
  keeps (setOwnersOnAddresses s flags args) a.
Proof.
  intros Hc Hk. unfold setOwnersOnAddresses. wp_steps. rewrite Forall_map, Forall_forall in Hk.
  apply wp_foldM; [|done]. intros [i [k owner]] _ a' Hin Hc'. assert (okKey k) by by apply Hk in Hin.
  wp_step. eapply wp_onErr; [|intros; by apply stoppedAt_fails]. wp_steps. apply wp_if; [by wp_steps|].
  eapply wp_onErr; [|intros; by apply stoppedAt_fails].
  apply twp_wp, twp_save; auto. by apply consistent_same.
Qed.

(** The last jailed key is forgotten: all the keys have the same priority. *)
Lemma twp_resetLastJailed (K : unit -> aState -> Prop) a :
  queued a <> [] -> K tt (aSetQ a ([], queued a)) ->
  twp (saveWaitingListHead (withLastJailedKey (headOf (fst (aQ a)) (snd (aQ a))) [])) K a.
Proof.
  intros Hq HK e Hr. pose proof (r_queue _ _ _ _ _ Hr) as Hqr.
  destruct (save_head e (withLastJailedKey (headOf (fst (aQ a)) (snd (aQ a))) [])) as (e' & E1 & Hh & W & Hhk).
  { simpl. unfold queued in Hq. by destruct (fst (aQ a) ++ snd (aQ a)). }
  exists e', tt, (aSetQ a ([], queued a)). split; [exact E1|]. split; [|done].
  apply (rep_frame s keyLen hk HkeyLen e); [| |done].
  - split; [|done]. intros key [H1 _]. by apply W.
  - destruct Hqr as [R1 R2 R3 R4 R5 R6]. unfold queued in *. split; simpl; auto.
    + intros k Hk Hin. rewrite W by apply wk_ne_head. auto.
    + unfold withLastJailedKey, headOf in Hh. simpl in Hh. unfold headOf. simpl.
      by destruct (fst (aQ a) ++ snd (aQ a)).
    + eapply seg_frame; [|exact R6]. intros k Hk. apply W, wk_ne_head.
Qed.

Lemma keeps_resetLastUnJailedFromQueue args a :
  consistent a -> keeps (resetLastUnJailedFromQueue s flags args) a.
Proof.
  intros Hc. unfold resetLastUnJailedFromQueue, disabledAfterV4Step1, endOfEpochOnly.
  wp_step. apply wp_when; [intros _; by apply wp_return|intros _]. wp_steps.
  apply twp_wp, twp_head. wp_step. apply wp_when; [intros _; by apply wp_return|intros Hl].
  wp_step. destruct (queued a) as [|k l] eqn:Eq; [done|].
  apply twp_wp, twp_resetLastJailed; [by rewrite Eq|].
  by destruct Hc; split.
Qed.

(** *** cleanAdditionalQueue *)

(** checkValidatorFunds only reads. *)
Lemma getData_any k e : exists r, getOrCreateRegisteredData k e = (e, r).
Proof. eexists. apply getData_eq. Qed.

Lemma wp_reads {R A} `{Stops R} (m : SE E R A) (K : A -> aState -> Prop) F a :
  (forall e, fst (m e) = e) -> (forall e r, snd (m e) = inl r -> isOk r = false) ->
  (forall x, K x a) -> wp m K F a.
Proof.
  intros Hm Herr HK e Hr. specialize (Hm e). specialize (Herr e). destruct (m e) as [e' [r|x]].
  - simpl in *. by rewrite Herr.
  - simpl in *. subst e'. by exists a.
Qed.

Lemma countStaked_reads keys e : fst (countStaked keys e) = e.
Proof.
  unfold countStaked. generalize 0. induction keys as [|k keys IH]; intros n; [done|].
  simpl. unfold bind. destruct (getData_any k e) as [[r|d] ->]; [done|]. apply IH.
Qed.

Lemma checkValidatorFunds_reads m owner price e : fst (checkValidatorFunds s m owner price e) = e.
Proof.
  unfold checkValidatorFunds. destruct (m !! owner); [done|].
  unfold bind at 1, gets. destruct (slen _ =? 0); [done|].
  unfold bind at 1, liftMarshal. destruct (uValidatorData _) as [|d]; [done|]. simpl.
  destruct (price =? 0); [done|]. destruct (_ <=? _); [done|].
  unfold bind. pose proof (countStaked_reads (BlsPubKeys d) e) as Hk.
  destruct (countStaked _ e) as [e' [r|n]]; simpl in Hk; by subst.
Qed.

Lemma firstElements_eq e a : rep s keyLen hk e a ->
  exists lk al, getFirstElementsFromWaitingList MaxUint32 e =
    (e, inr (mkReturnData (queued a) (map (aData a) (queued a)) lk al)).
Proof.
  intros Hr. pose proof (r_queue _ _ _ _ _ Hr) as Hq.
  destruct (getFirstElements_spec keyLen HkeyLen e _ _ (map (aData a) (queued a)) Hq)
    as (lk & al & E1 & _); [|by exists lk, al].
  apply Forall2_fmap_r, Forall_Forall2_diag. eapply Forall_impl; [apply Hq|].
  intros k Hk. by apply Hr.
Qed.

Lemma twp_firstElements (K : waitingListReturnData -> aState -> Prop) a :
  (forall lk al, Forall okKey (queued a) -> NoDup (queued a) ->
     K (mkReturnData (queued a) (map (aData a) (queued a)) lk al) a) ->
  twp (getFirstElementsFromWaitingList MaxUint32) K a.
Proof.
  intros HK e Hr. destruct (firstElements_eq e a Hr) as (lk & al & E1).
  eexists e, _, a. split; [exact E1|]. split; [done|].
  pose proof (r_queue _ _ _ _ _ Hr) as Hq. apply HK; [apply Hq|]. apply (q_nodup _ _ _ _ Hq).
Qed.

Lemma elem_combine_map {A B} (f : A -> B) (l : list A) x y :
  (x, y) ∈ rev (combine l (map f l)) -> x ∈ l.
Proof.
  rewrite list_elem_of_In, <- in_rev. intros Hin%in_combine_l. by apply list_elem_of_In.
Qed.

(** Removing keys of the queue from it, one after the other. *)
Lemma keeps_cleanAdditionalQueue args a :
  consistent a -> keeps (cleanAdditionalQueue s flags args) a.
Proof.
  intros Hc. unfold cleanAdditionalQueue, disabledAfterV4Step1, endOfEpochOnly. wp_steps.
  apply twp_wp, twp_firstElements. intros lk al Hok Hnd. wp_step.
  apply wp_when; [intros _; wp_steps; by apply wp_return|intros _]. wp_steps.
  unfold cleanAdditionalQueueNotEnoughFunds. wp_step.
  set (l := rev _).
  set (I := fun (_ : list bytes * gmap bytes (list bytes) * gmap bytes Z) a' =>
    consistent a' /\ forall k, k ∈ queued a -> Staked (aData a' k) = false).
  eapply (wp_mono _ _ _ _ I).
  2:{ apply wp_foldM.
      - intros [k d] [[owners unstaked] checked] a' Hin [Hc' Hns]. cbn beta iota.
        apply elem_combine_map in Hin as Hkq. rewrite Forall_forall in Hok.
        assert (Hk : okKey k) by auto. wp_step.
        apply wp_reads; [intros; apply checkValidatorFunds_reads|done|]. intros [checked' n].
        apply wp_if; [by wp_steps|]. wp_step. apply twp_wp, twp_remove; auto. wp_step. wp_step.
        wp_step. apply wp_markUnStaked. wp_step. apply twp_wp, twp_save; auto. wp_step. split.
        + apply (consistent_update _ _ a' k _ (qRemove k (aQ a')) (aCfg a')); auto.
          * intros x Hx. rewrite elem_qRemove. unfold queued. tauto.
          * rewrite elem_qRemove. by split; [intros [? _]|].
          * simpl. rewrite Hns by done. simpl. lia.
          * intros Hv. apply qRemove_nil. by apply (c_v4 _ _ _ Hc').
        + intros k' Hk'. simpl. destruct (decide _); [done|]. by apply Hns.
      - split; [done|]. intros k Hk. rewrite Forall_forall in Hok. specialize (Hok k Hk).
        apply (c_queue _ _ _ Hc k Hok) in Hk. destruct (Staked (aData a k)) eqn:Es; [|done].
        by rewrite (c_excl _ _ _ Hc k Hok Es) in Hk. }
  intros [[owners unstaked] checked] a' [Hc' _]. wp_step.
  apply wp_foldM; [|done]. intros owner _ a2 _ Hc2. wp_steps.
  apply wp_foldM; [|done]. intros k _ a3 _ Hc3. by wp_steps.
Qed.
(** *** The functions that only read *)

Lemma wp_view (m : SE E stop unit) (Q : aState -> Prop) a : reads m -> Q a -> wp m (fun _ => Q) Q a.
Proof.
  intros Hm HQ e Hr. destruct (Hm e) as [Hs Hh]. destruct (m e) as [e' [r|x]]; simpl in Hs, Hh;
    [intros _|]; exists a; (split; [by apply (rep_same s keyLen hk e)|done]).
Qed.

Lemma wp_useGas g (K : unit -> aState -> Prop) F a : K tt a -> wp (useGas g) K F a.
Proof.
  intros HK e Hr. unfold useGas. destruct (eiUseGas e g) as [e'|] eqn:Eg; [|done]. exists a. split; [|done].
  apply (rep_same s keyLen hk e); [intros k; by eapply slot_gas|by eapply hook_gas|done].
Qed.

(** *** addMissingNodeToQueue: no node is missing *)

Lemma wp_elementIn k (K : ElementInList -> aState -> Prop) F a :
  okKey k -> (k ∈ queued a -> forall x, K x a) -> wp (getWaitingListElement (createWaitingListKey k)) K F a.
Proof.
  intros Hk HK e Hr. destruct (decide (k ∈ queued a)) as [Hin|Hin].
  - pose proof (reads_getElement (createWaitingListKey k) e) as [Hs Hh].
    destruct (getWaitingListElement _ e) as [e' [r|x]]; simpl in Hs, Hh; [by destruct r|].
    exists a. split; [by apply (rep_same s keyLen hk e)|auto].
  - rewrite get_elem_none; [done|]. by apply (q_out _ _ _ _ (r_queue _ _ _ _ _ Hr)).
Qed.

Lemma keeps_addMissingNodeToQueue args a :
  consistent a -> (nargs args <> 0 -> okKey (arg args 0)) -> keeps (addMissingNodeToQueue s flags args) a.
Proof.
  intros Hc Hk. unfold addMissingNodeToQueue. wp_steps. apply wp_useGas. wp_steps.
  match goal with H : (nargs args =? 1) = true |- _ => apply Z.eqb_eq in H end.
  assert (Hk' : okKey (arg args 0)) by (apply Hk; lia).
  apply wp_elementIn; [done|]. intros Hin _. wp_steps. apply twp_wp, twp_firstElements. intros lk al _ _. wp_steps.
  match goal with H : negb (existsb _ _) = true |- _ => apply negb_true_iff in H; rename H into Hex end.
  exfalso. apply not_true_iff_false in Hex. apply Hex, existsb_exists. exists (arg args 0).
  split; [by apply list_elem_of_In|apply beq_refl].
Qed.
(** *** fixWaitingListQueueSize: the size is right *)

Lemma fixSizeLoop_spec e head first l1 l fuel idx found :
  seg e (lastKeyOf first l1) l [] -> Forall okKey l -> l <> [] ->
  (forall k, k ∈ l -> exists d, regData e k d) -> Z.of_nat (length (l1 ++ l)) <= Length_ head ->
  Length_ head < MaxUint32 -> idx = Z.of_nat (length l1) + 1 -> (length l < fuel)%nat ->
  fixSizeLoop fuel head (hdKey l []) idx found e =
    (e, inr (Z.of_nat (length (l1 ++ l)), lastKeyOf [] l,
             found || existsb (fun k => beq (LastJailedKey head) (createWaitingListKey k)) l)).
Proof.
  revert l1 idx found fuel. induction l as [|k l IH]; intros l1 idx found fuel Hs Hok Hne Hd Hlen Hmax Hidx Hf; [done|].
  destruct fuel as [|fuel]; [simpl in Hf; lia|]. destruct Hs as [Hk Hs]. inversion Hok as [|? ? Hokk Hok']; subst.
  assert (Hl : Z.of_nat (length (l1 ++ k :: l)) = Z.of_nat (length l1) + 1 + Z.of_nat (length l))
    by (rewrite length_app; simpl; lia).
  destruct (Hd k ltac:(left)) as [d Hdk]. unfold regData in Hdk.
  cbn [fixSizeLoop hdKey]. rewrite wk_blen. change (negb false) with true.
  rewrite (proj2 (Z.leb_le _ (Length_ head))) by lia. cbn [andb].
  erewrite bind_ok by (unfold orFail, onErr; rewrite (get_elem _ _ _ Hk); reflexivity). cbn [BLSPublicKey NextKey].
  erewrite bind_ok by (unfold orFail, onErr; rewrite Hdk; reflexivity).
  destruct l as [|k2 l].
  - cbn [existsb]. rewrite orb_false_r, Hl. unfold lastKeyOf. cbn [length last]. by replace (Z.of_nat (length l1) + 1 + Z.of_nat 0) with (Z.of_nat (length l1) + 1) by lia.
  - cbn [hdKey]. rewrite wk_blen. inversion Hok' as [|? ? Hok2 _]; subst. rewrite copyInto_same_length.
    2:{ unfold createWaitingListKey. rewrite !length_app. by rewrite (proj2 Hokk), (proj2 Hok2). }
    change (createWaitingListKey k2) with (hdKey (k2 :: l) []). rewrite (IH (l1 ++ [k])); auto.
    + rewrite <- (assoc_L (++)). cbn [app existsb]. rewrite <- orb_assoc.
      rewrite (lastKeyOf_cons [] k), (lastKeyOf_eq (createWaitingListKey k) [] (k2 :: l)) by done. done.
    + by rewrite lastKeyOf_snoc.
    + intros x Hx. apply Hd. by right.
    + rewrite <- app_assoc. simpl app. lia.
    + rewrite length_app. simpl. rewrite u32_succ; lia.
    + simpl in Hf |- *. lia.
Qed.

(** The head is written as it was. *)
Lemma twp_sameHead w (K : unit -> aState -> Prop) a :
  queued a <> [] -> w = headOf (fst (aQ a)) (snd (aQ a)) -> K tt a -> twp (saveWaitingListHead w) K a.
Proof.
  intros Hq -> HK e Hr. destruct (save_head e (headOf (fst (aQ a)) (snd (aQ a)))) as (e' & E1 & Hh & W & Hhk).
  { unfold queued in Hq. simpl. by destruct (fst (aQ a) ++ snd (aQ a)). }
  exists e', tt, a. split; [exact E1|]. split; [|done].
  replace a with (aSetQ a (aQ a)) by (by destruct a).
  apply (rep_frame s keyLen hk HkeyLen e); [split; [|done]; intros key [H1 _]; by apply W| |done].
  destruct (r_queue _ _ _ _ _ Hr) as [R1 R2 R3 R4 R5 R6]. split; auto.
  - intros k Hk Hin. rewrite W by apply wk_ne_head. auto.
  - unfold queued in Hq. by destruct (fst (aQ a) ++ snd (aQ a)).
  - eapply seg_frame; [|exact R6]. intros k Hk. apply W, wk_ne_head.
Qed.

Lemma twp_fixSizeLoop (K : Z * bytes * bool -> aState -> Prop) a :
  let w := headOf (fst (aQ a)) (snd (aQ a)) in
  queued a <> [] -> K (Length_ w, LastKey w, true) a ->
  twp (fixSizeLoop (Z.to_nat (Length_ w) + 1) w (FirstKey w) 1 (blen (LastJailedKey w) =? 0)) K a.
Proof.
  cbv zeta. intros Hq HK e Hr. pose proof (r_queue _ _ _ _ _ Hr) as Hqr. unfold queued in Hq.
  exists e, (Length_ (headOf (fst (aQ a)) (snd (aQ a))), LastKey (headOf (fst (aQ a)) (snd (aQ a))), true), a. split; [|done].
  set (w := headOf (fst (aQ a)) (snd (aQ a))). change (FirstKey w) with (hdKey (fst (aQ a) ++ snd (aQ a)) []).
  pose proof (q_seg _ _ _ _ Hqr) as Hs. pose proof (q_len _ _ _ _ Hqr) as Hlen.
  destruct (fst (aQ a) ++ snd (aQ a)) as [|k l] eqn:El; [done|].
  assert (Hw : Length_ w = Z.of_nat (length (k :: l))) by (unfold w; simpl; by rewrite El).
  rewrite (fixSizeLoop_spec e w (createWaitingListKey k) [] (k :: l)); auto.
  - do 2 f_equal. f_equal; [f_equal; [by rewrite Hw|unfold w; simpl; by rewrite El]|].
    destruct (fst (aQ a)) as [|j J'] eqn:EJ; [unfold w; simpl; reflexivity|].
    apply orb_true_iff. right. apply existsb_exists. destruct (snoc_case (j :: J') ltac:(done)) as (J1 & z & Ez).
    exists z. split.
    + rewrite <- El, Ez. apply list_elem_of_In. rewrite !elem_of_app, list_elem_of_singleton. tauto.
    + unfold w. simpl LastJailedKey. rewrite Ez, jailedKey_nonempty. apply beq_refl.
  - pose proof (q_ok _ _ _ _ Hqr) as Hok. by rewrite El in Hok.
  - intros x Hx. exists (aData a x). apply Hr. pose proof (q_ok _ _ _ _ Hqr) as Hok. rewrite El in Hok.
    rewrite Forall_forall in Hok. auto.
  - simpl app. lia.
  - rewrite Hw. lia.
  - rewrite Hw. simpl. lia.
Qed.

Lemma keeps_fixWaitingListQueueSize args a :
  consistent a -> keeps (fixWaitingListQueueSize s flags args) a.
Proof.
  intros Hc. unfold fixWaitingListQueueSize. wp_steps. apply wp_useGas. wp_steps. apply twp_wp, twp_head. wp_step.
  apply wp_when; [intros _; by apply wp_return|intros Hl]. wp_step.
  assert (Hq : queued a <> []) by (intros Hq; by rewrite Hq in Hl).
  destruct (queued a) as [|k l] eqn:Eq; [done|]. rewrite <- Eq in Hq.
  apply twp_wp, (twp_fixSizeLoop _ a Hq). cbv beta iota zeta. simpl negb. wp_step.
  apply twp_wp, (twp_sameHead _ _ a Hq); [|done]. by destruct (headOf _ _).
Qed.
(** *** stakeNodesFromQueue *)

Lemma wp_slash {R A} `{Stops R} k (m : SE E R A) (K : A -> aState -> Prop) F a :
  okKey k -> (SlashValue (aData a k) <> None -> wp m K F a) -> wp m K F a.
Proof.
  intros Hk Hm e Hr. apply Hm; [|done].
  destruct (twp_get s keyLen hk k (fun _ a' => SlashValue (aData a' k) <> None) a Hk ltac:(auto) e Hr)
    as (e' & x & a' & E1 & _ & Hs).
  pose proof (r_data _ _ _ _ _ Hr k Hk) as Hd. unfold regData in Hd.
  destruct (twp_get s keyLen hk k (fun d _ => SlashValue d <> None) a Hk ltac:(auto) e Hr) as (e2 & x2 & a2 & E2 & _ & Hs2).
  rewrite Hd in E2. by injection E2 as <- <-.
Qed.

(** The state once [n] more nodes are counted. *)
Definition counted a (n : Z) : aState := aSetCfg a (withStakedNodes (aCfg a) (StakedNodes (aCfg a) + n)).

Lemma counted_staked a n k :
  consistent (counted a n) -> okKey k -> k ∈ queued a ->
  consistent (counted (aSetQ (aSave a k (withActiveStaking (aData a k) (CurrentNonce hk))) (qRemove k (aQ a))) (n + 1)).
Proof.
  intros Hc Hk Hin.
  apply (consistent_update _ _ (counted a n) k (withActiveStaking (aData a k) (CurrentNonce hk)) (qRemove k (aQ a))
    (withStakedNodes (aCfg a) (StakedNodes (aCfg a) + (n + 1)))); auto.
  - intros x Hx. rewrite elem_qRemove. unfold queued. tauto.
  - rewrite elem_qRemove. by split; [intros [? _]|].
  - assert (Staked (aData (counted a n) k) = false) as ->; [|simpl; lia].
    apply (c_queue _ _ _ Hc k Hk) in Hin. destruct (Staked (aData (counted a n) k)) eqn:Es; [|done].
    by rewrite (c_excl _ _ _ Hc k Hk Es) in Hin.
  - intros Hv. apply qRemove_nil. by apply (c_v4 _ _ _ Hc).
Qed.

(** The loop: the nodes staked so far are not counted yet. *)
Lemma wp_stakeNodesLoop (D : bytes -> StakedDataV2_0) ks num price checked n (K : Z -> aState -> Prop) F a :
  Forall okKey ks -> NoDup ks -> (forall k, k ∈ ks -> k ∈ queued a /\ aData a k = D k) ->
  consistent (counted a n) ->
  (forall a' m, consistent (counted a' m) -> n <= m <= n + Z.of_nat (length ks) -> aCfg a' = aCfg a -> K m a') ->
  wp (stakeNodesLoop s flags (combine ks (map D ks)) num price checked n) K F a.
Proof.
  intros Hok. revert checked n a. induction Hok as [|k ks Hk _ IH]; intros checked n a Hnd Hq Hc HK.
  - simpl. apply wp_ret, HK; simpl; [done|lia|done].
  - apply NoDup_cons in Hnd as [Hnk Hnd]. cbn [map combine stakeNodesLoop]. destruct (Hq k ltac:(left)) as [Hin Hd].
    assert (Hrest : forall x, x ∈ ks -> x ∈ queued a /\ aData a x = D x) by (intros x Hx; apply Hq; by right).
    apply wp_if; [apply wp_ret, HK; [done|simpl; lia|done]|].
    wp_step. wp_step. apply wp_reads; [intros; apply checkValidatorFunds_reads|done|]. intros [checked' m]. apply wp_if.
    + apply IH; auto. intros a' m' H1 H2 H3. apply HK; [done|simpl; lia|done].
    + wp_step. unfold activeStakingFor. wp_steps. apply (wp_slash k); [done|]. intros Hsl. rewrite Hd in Hsl.
      apply twp_wp, twp_save; auto. wp_steps. apply twp_wp, twp_remove; auto. wp_steps.
      rewrite <- Hd. apply IH; [done| | |].
      * intros x Hx. destruct (Hrest x Hx) as [H1 H2]. assert (x <> k) by (by intros ->). split.
        -- unfold queued. simpl aQ. by rewrite elem_qRemove.
        -- simpl. by rewrite decide_False.
      * exact (counted_staked a n k Hc Hk Hin).
      * intros a' m' H1 H2 H3. apply HK; [done|simpl; lia|exact H3].
Qed.

Lemma keeps_stakeNodesFromQueue args a :
  consistent a -> StakedNodes (aCfg a) + Z.of_nat (length (queued a)) < 2 ^ 63 ->
  keeps (stakeNodesFromQueue s flags args) a.
Proof.
  intros Hc Hroom. unfold stakeNodesFromQueue, disabledAfterV4Step1, endOfEpochOnly. apply wp_max. intros Hm. wp_steps.
  apply twp_wp, twp_firstElements. intros lk al Hok Hnd. wp_step.
  apply wp_when; [intros _; wp_steps; by apply wp_return|intros _]. wp_steps. cbn [blsKeys stakedDataList].
  pose proof (count_nonneg _ _ _ Hc) as Hnn.
  apply (wp_stakeNodesLoop (aData a)); auto.
  { unfold counted. rewrite Z.add_0_r. destruct Hc as [C1 C2 C3 C4]. by split. }
  intros a' m Hc' Hm' Ec. unfold addToStakedNodes. apply wp_bind, twp_wp, twp_getConfig, twp_wp, twp_setConfig.
  - done.
  - simpl. by rewrite Ec.
  - rewrite Ec, (i64_small m), i64_small by lia. unfold counted in Hc'. by rewrite Ec in Hc'.
Qed.

(** *** unStakeAllNodesFromQueue *)

(** While the queue is emptied: the keys of [rest] still have their elements. *)
Record emptying (e : E) a (rest : list bytes) : Prop := {
  y_queue : forall k, okKey k -> k ∉ rest -> slot e (wk k) = [];
  y_data : forall k, okKey k -> regData e k (aData a k);
  y_cfg : getConfig s (R := stErr) e = (e, inr (aCfg a));
  y_max : MaxNumNodes (aCfg a) <> 0;
  y_hook : eiHook e = hk;
}.

Lemma rep_emptying e a : rep s keyLen hk e a -> emptying e a (queued a).
Proof. intros [[] H2 H3 H4 H5]. by split. Qed.

Lemma emptied_rep e a :
  emptying e a [] -> rep s keyLen hk (eiSetStorage e waitingListHeadKey None) (aSetQ a ([], [])).
Proof.
  intros [Y1 Y2 Y3 Y4 Y5]. split; [split| | |done|]; simpl; try done; try constructor.
  - intros k Hk _. rewrite slot_set_ne by apply wk_ne_head. apply Y1; [done|apply not_elem_of_nil].
  - by rewrite slot_set_eq.
  - intros k Hk. apply regData_iff. rewrite slot_set_ne by by apply (okKey_other keyLen HkeyLen). by apply regData_iff, Y2.
  - apply readConfig_iff. rewrite slot_set_ne by done. by apply readConfig_iff.
  - by rewrite hook_set.
Qed.

Lemma emptying_step e a k rest d :
  emptying e a (k :: rest) -> okKey k -> d = aData a k ->
  exists v, doUnStake flags k d e = (eiSetStorage e k v, inr tt) /\
    emptying (eiSetStorage (eiSetStorage e k v) (createWaitingListKey k) None)
      (aSave a k (withUnStaked d (CurrentEpoch hk) (CurrentNonce hk))) rest.
Proof.
  intros [Y1 Y2 Y3 Y4 Y5] Hk ->. set (d := withUnStaked _ _ _).
  assert (Hd : SlashValue d <> None).
  { pose proof (proj1 (regData_iff e k _) (Y2 k Hk)) as Hr. unfold readData in Hr. simpl.
    destruct (bool_decide _); [by injection Hr as <-|]. destruct (uStaked _) as [t|d0]; [done|].
    injection Hr as <-. by destruct (SlashValue d0) eqn:?; simpl; congruence. }
  destruct (mStaked_ok d) as (b & Eb & Hne & Hu).
  pose proof (okKey_other keyLen HkeyLen) as Hother. pose proof (Hother k Hk) as [Hkh Hkw].
  eexists. split.
  { unfold doUnStake, markUnStaked, saveStakingData, hook, gets, bind, orFail, onErr, liftMarshal.
    rewrite Y5, Hstake, HstakingV2. simpl. fold d. rewrite Eb. reflexivity. }
  split; simpl.
  - intros x Hx Hin. destruct (decide (x = k)) as [->|Hne']; [apply slot_set_eq|].
    rewrite !slot_set_ne; [apply Y1; [done|]|by intros E0; apply (Hkw x)|by intros ?%wk_inj].
    by intros [->|?]%elem_of_cons.
  - intros x Hx. apply regData_iff. rewrite slot_set_ne by (intros E0; by apply (proj2 (Hother x Hx) k)).
    destruct (decide (x = k)) as [->|Hne'].
    + rewrite slot_set_eq. simpl. unfold readData. rewrite bool_decide_eq_false_2 by done.
      rewrite Hu. by destruct (SlashValue d).
    + rewrite slot_set_ne by done. by apply regData_iff, Y2.
  - apply readConfig_iff. rewrite !slot_set_ne; [by apply readConfig_iff| |done].
    intros E0. by apply (okKey_ne_config keyLen HkeyLen k).
  - done.
  - by rewrite !hook_set.
Qed.

(** What the invariant says while the queue is emptied. *)
Notation emptied a rest := (StakingInvariant.consistent keyLen false (aSetQ a ([], rest))).

Lemma emptied_step a k rest d :
  emptied a (k :: rest) -> okKey k -> k ∉ rest -> d = aData a k ->
  emptied (aSave a k (withUnStaked d (CurrentEpoch hk) (CurrentNonce hk))) rest.
Proof.
  intros Hc Hk Hin ->.
  assert (Hs : Staked (aData a k) = false).
  { destruct (Staked (aData a k)) eqn:Es; [|done]. assert (Hq : k ∈ k :: rest) by left.
    apply (c_queue _ _ _ Hc k Hk) in Hq. by rewrite (c_excl _ _ _ Hc k Hk Es) in Hq. }
  apply (consistent_update _ _ (aSetQ a ([], k :: rest)) k _ ([], rest) (aCfg a)); auto; simpl.
  - intros x Hx. unfold queued. simpl. rewrite elem_of_cons. split; [by right|]. by intros [->|?].
  - by split.
  - rewrite Hs. simpl. lia.
  - done.
Qed.

(** The environments of the call in [e0]: the contract writes into its storage and
    calls the contracts of the owners. *)
Inductive reached (self : bytes) (e0 : E) : E -> Prop :=
| reached_start : reached self e0 e0
| reached_set e k v : reached self e0 e -> reached self e0 (eiSetStorage e k v)
| reached_call e owner keys e' :
    reached self e0 e -> executeOnStakeAtEndOfEpoch owner keys self e = (e', inr Ok) ->
    reached self e0 e'.
#[local] Hint Constructors reached : core.

(** The contracts of the owners do not write into the storage of this contract. *)
Definition calleesKeep (self : bytes) (e0 : E) : Prop :=
  forall e owner keys e', reached self e0 e ->
    executeOnStakeAtEndOfEpoch owner keys self e = (e', inr Ok) -> untouched e e'.

Lemma unStakeQueued_empties (self : bytes) (e0 : E) (D : bytes -> StakedDataV2_0) ks :
  forall e a (acc : list bytes * gmap bytes (list bytes)),
  Forall okKey ks -> NoDup ks -> (forall x, x ∈ ks -> D x = aData a x) ->
  emptying e a ks -> emptied a ks -> reached self e0 e ->
  exists e' acc' a', foldM (fun '(owners, keysOf) '(blsKey, registrationData) =>
      doUnStake flags blsKey registrationData ;;
      SetStorage (createWaitingListKey blsKey) None ;;
      let owner := OwnerAddress registrationData in
      ret (match keysOf !! owner with Some _ => owners | None => owners ++ [owner] end,
           <[owner := default [] (keysOf !! owner) ++ [blsKey]]> keysOf))
    acc (combine ks (map D ks)) e = (e', inr acc') /\
    emptying e' a' [] /\ emptied a' [] /\ reached self e0 e'.
Proof.
  induction ks as [|k ks IH]; intros e a [owners keysOf] Hok Hnd HD He Hc Hreach.
  - by eexists e, _, a.
  - inversion Hok as [|? ? Hk Hok']; subst. apply NoDup_cons in Hnd as [Hnk Hnd].
    destruct (emptying_step e a k ks (D k) He Hk) as (v & E1 & He1); [by apply HD; left|].
    cbn [map combine foldM]. erewrite bind_ok by (rewrite (bind_ok _ _ _ _ _ E1); reflexivity).
    apply (IH _ (aSave a k (withUnStaked (D k) (CurrentEpoch hk) (CurrentNonce hk)))); auto.
    + intros x Hx. simpl. rewrite decide_False by (by intros ->). apply HD. by right.
    + apply emptied_step; auto. apply HD. left.
Qed.

(** What [keeps] says of one call. *)
Definition kept (r : E * (stop + unit)) : Prop :=
  match r with
  | (e', inr _) => exists a', rep s keyLen hk e' a' /\ consistent a'
  | (e', inl r) => isOk r = true -> exists a', rep s keyLen hk e' a' /\ consistent a'
  end.

Lemma kept_owners (self : bytes) (e0 : E) (keysOf : gmap bytes (list bytes)) (owners : list bytes) : calleesKeep self e0 ->
  forall e a, rep s keyLen hk e a -> consistent a -> reached self e0 e ->
  kept (foldM (fun _ owner =>
    let! shardOf := hook GetShardOfAddress in
    if negb (shardOf owner =? MetachainShardId) then ret tt
    else
      let! returnCode := executeOnStakeAtEndOfEpoch owner (default [] (keysOf !! owner)) self in
      if decide (returnCode = Ok) then ret tt else return_ returnCode) tt owners e).
Proof.
  intros Hkeep. induction owners as [|owner owners IH]; intros e a Hr Hc Hreach; simpl; [by exists a|].
  unfold bind at 1. unfold bind at 1, hook, gets.
  destruct (negb _); [by apply (IH e a)|]. unfold bind at 1.
  destruct (executeOnStakeAtEndOfEpoch _ _ _ e) as [e1 [r|rc]] eqn:E1.
  - exfalso. revert E1. unfold executeOnStakeAtEndOfEpoch. by destruct (eiExecuteOnDestContext _ _ _ _ _) as [? [?|?]].
  - destruct (decide (rc = Ok)) as [->|Hrc].
    + destruct (Hkeep _ _ _ _ Hreach E1) as [Hs Hh].
      apply (IH e1 a); [by apply (rep_same s keyLen hk e)|done|by eauto].
    + simpl. intros Hok. by apply bool_decide_eq_true in Hok.
Qed.

Lemma outcome_require (b : bool) m (f : unit -> SE E stop unit) e :
  kept (f tt e) -> kept (bind (require b m) f e).
Proof. by destruct b. Qed.

Lemma kept_unStakeAllNodesFromQueue args a e :
  StakingInvariant.consistent keyLen false a -> rep s keyLen hk e a ->
  calleesKeep (RecipientAddr args) e -> kept (unStakeAllNodesFromQueue s flags args e).
Proof.
  intros Hc Hr Hkeep. unfold unStakeAllNodesFromQueue, endOfEpochOnly, requireCaller. do 3 apply outcome_require.
  destruct (firstElements_eq e a Hr) as (lk & al & E1). unfold orFail.
  erewrite bind_ok by (by apply onErr_ok). cbn [blsKeys stakedDataList].
  destruct Hc as [C1 C2 C3 _]. pose proof (r_queue _ _ _ _ _ Hr) as Hq. destruct (length (queued a) =? 0)%nat eqn:El.
  { intros _. exists a. split; [done|]. split; auto. by destruct (queued a). }
  cbn [when_]. erewrite bind_ok by reflexivity. unfold unStakeQueued.
  destruct (unStakeQueued_empties (RecipientAddr args) e (aData a) (queued a) e a ([], ∅))
    as (e' & [owners keysOf] & a' & E2 & He' & [C1' C2' C3' _] & Hreach);
    [apply Hq|apply (q_nodup _ _ _ _ Hq)|done|by apply rep_emptying|by split|constructor|].
  erewrite bind_ok by exact E2. cbv beta iota. erewrite bind_ok by reflexivity.
  apply (kept_owners _ e _ _ Hkeep _ (aSetQ a' ([], []))); [by apply emptied_rep|by split|by constructor].
Qed.

(** *** All the functions *)

Lemma runHandler_kept (m : SE E stop unit) e :
  kept (m e) -> snd (runHandler m e) = Some Ok ->
  exists a', rep s keyLen hk (fst (runHandler m e)) a' /\ consistent a'.
Proof.
  unfold runHandler, kept. destruct (m e) as [e' [[rc|]|[]]]; simpl; [|done|done].
  intros Hm [= ->]. by apply Hm.
Qed.

(** What a call needs of the state and of the other contracts: room for one more
    node; for stakeNodesFromQueue, that the counter does not overflow if all the
    queue is staked; for unStakeAllNodesFromQueue, [calleesKeep]. *)
Definition readyFor args (e : E) a : Prop :=
  room a /\
  (Function_ args = str "stakeNodesFromQueue" ->
     StakedNodes (aCfg a) + Z.of_nat (length (queued a)) < 2 ^ 63) /\
  (Function_ args = str "unStakeAllNodesFromQueue" -> calleesKeep (RecipientAddr args) e).

(** There is no queue before the call: staking V4 has started, and the call is not
    the one that empties the queue when it starts. *)
Definition noQueueBefore args : bool :=
  v4 && negb (beq (Function_ args) (str "unStakeAllNodesFromQueue")).

Lemma first_key args :
  Forall okKey (take 1 (Arguments args)) -> nargs args <> 0 -> okKey (arg args 0).
Proof.
  unfold nargs, arg. destruct (Arguments args) as [|k l]; simpl; [done|]. intros H _. by inversion H.
Qed.

Lemma kept_functions f args a e :
  (Function_ args, f) ∈ functions s flags -> SCDeployInitFunctionName <> Function_ args ->
  Forall okKey (keyArguments args) -> rep s keyLen hk e a ->
  StakingInvariant.consistent keyLen (noQueueBefore args) a -> readyFor args e a -> kept (f args e).
Proof.
  intros Hin Hinit Hk Hr Hc (Hroom & Hslots & Hkeep). unfold keyArguments in Hk. unfold noQueueBefore in Hc.
  destruct (decide (Function_ args ∈ views)) as [Hv|Hv].
  { apply (wp_view (f args) consistent a); [by eapply reads_view| |done]. destruct Hc as [C1 C2 C3 C4]. split; auto.
    intros H4. apply C4. rewrite H4. apply negb_true_iff, beq_false. intros Hf. rewrite Hf in Hv.
    revert Hv. apply (bool_decide_unpack (_ ∉ _)). by vm_compute. }
  remember (Function_ args) as name eqn:Hname. unfold functions in Hin.
  repeat (apply elem_of_cons in Hin; destruct Hin as [[= -> ->]|Hin]); [..|by apply elem_of_nil in Hin];
    try contradiction; try (exfalso; apply Hv, (bool_decide_unpack _); by vm_compute); clear Hv Hinit Hname;
    simpl in Hk, Hc; rewrite ?andb_true_r, ?andb_false_r in Hc.
  - apply keeps_stake with (a := a); auto using first_key.
  - apply keeps_stake with (a := a); auto using first_key.
  - apply keeps_unStake with (a := a); auto using first_key.
  - apply keeps_unBond with (a := a); auto using first_key.
  - apply keeps_jail with (a := a); auto.
  - apply keeps_unJail with (a := a); auto using first_key.
  - apply keeps_changeRewardAddress with (a := a); auto.
  - apply keeps_switchJailedWithWaiting with (a := a); auto using first_key.
  - apply keeps_updateConfigMinNodes with (a := a); auto.
  - apply keeps_setOwnersOnAddresses with (a := a); auto.
  - apply keeps_updateConfigMaxNodes with (a := a); auto.
  - apply keeps_stakeNodesFromQueue with (a := a); auto.
  - apply keeps_unStakeAtEndOfEpoch with (a := a); auto using first_key.
  - apply keeps_resetLastUnJailedFromQueue with (a := a); auto.
  - apply keeps_cleanAdditionalQueue with (a := a); auto.
  - apply keeps_changeOwnerAndRewardAddress with (a := a); auto.
  - apply keeps_fixWaitingListQueueSize with (a := a); auto.
  - apply keeps_addMissingNodeToQueue with (a := a); auto using first_key.
  - apply (kept_unStakeAllNodesFromQueue _ a); auto.
Qed.
End Handlers.
