(* ===== verification/EEI.v ===== *)
(** * The environment of the system contracts: vm/systemSmartContracts/eei.go.

    The storage updates are a Go map that contexts share by reference: the model
    has a heap of such maps, and a context holds the reference of one. *)

From stdpp Require Import base list gmap strings.
From Stdlib Require Import ZArith Lia.
From S2P Require Import Prelude SystemEI.

(** ** Data (mx-chain-vm-common-go) *)

Record OutputTransfer := mkTransfer {
  otIndex : Z; otValue : Z; otGasLimit : Z; otData : bytes; otSenderAddress : bytes;
}.

(** Balance is nil in the accounts that AddCode and AddTxValueToSmartContract
    create. *)
Record OutputAccount := mkAccount {
  oaAddress : bytes;
  oaBalance : option Z;
  oaBalanceDelta : Z;
  oaOutputTransfers : list OutputTransfer;
  oaCode : bytes;
  oaCodeDeployerAddress : slice;
}.

Record LogEntry := mkLog {
  lgIdentifier : bytes; lgAddress : bytes; lgTopics : list bytes; lgData : list bytes;
}.

Abbreviation storageMap := (gmap bytes (gmap bytes bytes)).

(** The fields of vmContext that change. *)
Record vmContext := mkContext {
  scAddress : bytes;
  storageUpdate : positive;
  outputAccounts : gmap bytes OutputAccount;
  gasRemaining : Z;
  returnMessage : bytes;
  output : list bytes;
  logs : list LogEntry;
  crtTransferIndex : Z;
}.

Record host := mkHost { ctx : vmContext; heap : gmap positive storageMap }.

Record EEIFlags := mkEEIFlags {
  MultiClaimOnDelegationFlag : bool;
  SetSenderInEeiOutputTransferFlag : bool;
  AlwaysMergeContextsInEEIFlag : bool;
}.

(** The constant transferValueOnly. *)
Definition transferValueOnlyId : bytes := str "transferValueOnly".

(** Updates of the fields. *)
Definition withCtx (h : host) (f : vmContext -> vmContext) : host := mkHost (f (ctx h)) (heap h).

Definition setOutput (c : vmContext) (o : list bytes) : vmContext :=
  mkContext (scAddress c) (storageUpdate c) (outputAccounts c) (gasRemaining c) (returnMessage c) o
    (logs c) (crtTransferIndex c).
Definition setMessage (c : vmContext) (m : bytes) : vmContext :=
  mkContext (scAddress c) (storageUpdate c) (outputAccounts c) (gasRemaining c) m (output c)
    (logs c) (crtTransferIndex c).
Definition setAccounts (c : vmContext) (a : gmap bytes OutputAccount) : vmContext :=
  mkContext (scAddress c) (storageUpdate c) a (gasRemaining c) (returnMessage c) (output c)
    (logs c) (crtTransferIndex c).
Definition setScAddress (c : vmContext) (a : bytes) : vmContext :=
  mkContext a (storageUpdate c) (outputAccounts c) (gasRemaining c) (returnMessage c) (output c)
    (logs c) (crtTransferIndex c).
Definition setStorageRef (c : vmContext) (r : positive) : vmContext :=
  mkContext (scAddress c) r (outputAccounts c) (gasRemaining c) (returnMessage c) (output c)
    (logs c) (crtTransferIndex c).
Definition setGas (c : vmContext) (g : Z) : vmContext :=
  mkContext (scAddress c) (storageUpdate c) (outputAccounts c) g (returnMessage c) (output c)
    (logs c) (crtTransferIndex c).
Definition setLogs (c : vmContext) (l : list LogEntry) : vmContext :=
  mkContext (scAddress c) (storageUpdate c) (outputAccounts c) (gasRemaining c) (returnMessage c)
    (output c) l (crtTransferIndex c).
Definition setIndex (c : vmContext) (i : Z) : vmContext :=
  mkContext (scAddress c) (storageUpdate c) (outputAccounts c) (gasRemaining c) (returnMessage c)
    (output c) (logs c) i.

(** The map a context refers to. *)
Definition storageOf (h : host) : storageMap := default ∅ (heap h !! storageUpdate (ctx h)).

Definition newAccount (a : bytes) : OutputAccount := mkAccount a (Some 0) 0 [] [] None.

Definition withDelta (a : OutputAccount) (d : Z) : OutputAccount :=
  mkAccount (oaAddress a) (oaBalance a) d (oaOutputTransfers a) (oaCode a) (oaCodeDeployerAddress a).

Definition withTransfers (a : OutputAccount) (l : list OutputTransfer) : OutputAccount :=
  mkAccount (oaAddress a) (oaBalance a) (oaBalanceDelta a) l (oaCode a) (oaCodeDeployerAddress a).

Definition withCode (a : OutputAccount) (code : bytes) : OutputAccount :=
  mkAccount (oaAddress a) (oaBalance a) (oaBalanceDelta a) (oaOutputTransfers a) code
    (oaCodeDeployerAddress a).

Definition withDeployer (a : OutputAccount) (owner : slice) : OutputAccount :=
  mkAccount (oaAddress a) (oaBalance a) (oaBalanceDelta a) (oaOutputTransfers a) (oaCode a) owner.

(** The output accounts and the other fields of a VMOutput. *)
Record OutputOfAccount := mkOutputOfAccount {
  voAccount : OutputAccount;
  voStorageUpdates : gmap bytes bytes;
}.

Record VMOutput := mkVMOutput {
  voOutputAccounts : gmap bytes OutputOfAccount;
  voGasRemaining : Z;
  voReturnMessage : bytes;
  voLogs : list LogEntry;
  voReturnData : list bytes;
}.

Section EEI.
(** What the context is created with: the blockchain hook (storage and account
    reads, and the block), the system contracts and the parser of call data. *)
Variable flags : EEIFlags.
Variable hookData : Hook.
Variable GetStorageData : bytes -> bytes -> option bytes.
Variable GetAccountBalance : bytes -> option Z.
Variable ParseData : bytes -> bytes + (bytes * list bytes).
Variable initFunctionName : bytes.
Variable ErrUnknownContract : bytes.
Variable systemContracts : bytes -> option (ContractCallInput -> host -> host * ReturnCode).
Variable baseContracts : bytes -> option (ContractCallInput -> host -> host * ReturnCode).
Variable FormatLogDataForCall : bytes -> bytes -> list bytes -> list bytes.

(** ** Storage *)

Definition GetStorageFromAddress (h : host) (address key : bytes) : slice :=
  match storageOf h !! address with
  | Some storageAdrMap =>
      match storageAdrMap !! key with
      | Some value => Some value
      | None => GetStorageData address key
      end
  | None => GetStorageData address key
  end.

(** The map the context refers to is changed in place. *)
Definition SetStorageForAddress (h : host) (address key : bytes) (value : slice) : host :=
  let m := storageOf h in
  let adrMap := default ∅ (m !! address) in
  mkHost (ctx h)
    (<[storageUpdate (ctx h) := <[address := <[key := default [] value]> adrMap]> m]> (heap h)).

Definition hostGetStorage (h : host) (key : bytes) : slice :=
  GetStorageFromAddress h (scAddress (ctx h)) key.

Definition hostSetStorage (h : host) (key : bytes) (value : slice) : host :=
  SetStorageForAddress h (scAddress (ctx h)) key value.

(** ** Output *)

Definition hostFinish (h : host) (value : bytes) : host :=
  withCtx h (fun c => setOutput c (output c ++ [value])).

Definition hostAddReturnMessage (h : host) (message : bytes) : host :=
  if blen message =? 0 then h
  else withCtx h (fun c =>
    setMessage c (if blen (returnMessage c) =? 0 then message
                  else returnMessage c ++ str "@" ++ message)).

Definition hostUseGas (h : host) (gasToConsume : Z) : option host :=
  if gasRemaining (ctx h) <? gasToConsume then None
  else Some (withCtx h (fun c => setGas c (gasRemaining c - gasToConsume))).

Definition AddLogEntry (h : host) (entry : LogEntry) : host :=
  withCtx h (fun c => setLogs c (logs c ++ [entry])).

(** A new map, at a fresh reference. *)
Definition allocStorage (h : host) : host :=
  let r := fresh (dom (heap h)) in
  mkHost (setStorageRef (ctx h) r) (<[r := ∅]> (heap h)).

Definition CleanCache (h : host) : host :=
  let h1 := allocStorage h in
  withCtx h1 (fun c => mkContext (scAddress c) (storageUpdate c) ∅ 0 [] [] [] 1).

Definition softCleanCache (h : host) : host :=
  withCtx h (fun c => setMessage (setOutput (setAccounts c ∅) []) []).

Definition CleanStorageUpdates (h : host) : host := allocStorage h.

(** ** Value transfers *)

(** getSenderDestination: the accounts are created if they are missing. *)
Definition ensureAccount (m : gmap bytes OutputAccount) (a : bytes) : gmap bytes OutputAccount :=
  match m !! a with Some _ => m | None => <[a := newAccount a]> m end.

Definition getSenderDestination (m : gmap bytes OutputAccount) (sender destination : bytes)
  : gmap bytes OutputAccount :=
  ensureAccount (ensureAccount m sender) destination.

Definition addDelta (m : gmap bytes OutputAccount) (a : bytes) (v : Z) : gmap bytes OutputAccount :=
  alter (fun acc => withDelta acc (oaBalanceDelta acc + v)) a m.

Definition transferValueOnly (h : host) (destination sender : bytes) (value : Z) : host :=
  withCtx h (fun c =>
    let m := getSenderDestination (outputAccounts c) sender destination in
    setAccounts c (addDelta (addDelta m sender (- value)) destination value)).

Definition NextOutputTransferIndex (h : host) : host * Z :=
  (withCtx h (fun c => setIndex c (u32 (crtTransferIndex c + 1))), crtTransferIndex (ctx h)).

Definition Transfer (h : host) (destination sender : bytes) (value : Z) (input : bytes) (gasLimit : Z)
  : host :=
  let h1 := transferValueOnly h destination sender value in
  let (h2, index) := NextOutputTransferIndex h1 in
  let transfer := mkTransfer index value gasLimit input
    (if SetSenderInEeiOutputTransferFlag flags then sender else []) in
  withCtx h2 (fun c =>
    setAccounts c (alter (fun acc => withTransfers acc (oaOutputTransfers acc ++ [transfer]))
                     destination (getSenderDestination (outputAccounts c) sender destination))).

(** [None] is the panic of the addition to a nil Balance. *)
Definition GetBalance (h : host) (addr : bytes) : option Z :=
  match outputAccounts (ctx h) !! addr with
  | Some outAcc => balance ← oaBalance outAcc; Some (balance + oaBalanceDelta outAcc)
  | None => Some (default 0 (GetAccountBalance addr))
  end.

Definition GetTotalSentToUser (h : host) (dest : bytes) : Z :=
  match outputAccounts (ctx h) !! dest with
  | Some acc => oaBalanceDelta acc
  | None => 0
  end.

Definition AddCode (h : host) (address code : bytes) : host :=
  withCtx h (fun c => setAccounts c
    (match outputAccounts c !! address with
     | None => <[address := mkAccount address None 0 [] code None]> (outputAccounts c)
     | Some newSCAcc => <[address := withCode newSCAcc code]> (outputAccounts c)
     end)).

Definition AddTxValueToSmartContract (h : host) (value : Z) (scAddr : bytes) : host :=
  withCtx h (fun c => setAccounts c
    (let destAcc := default (mkAccount scAddr None 0 [] [] None) (outputAccounts c !! scAddr) in
     <[scAddr := withDelta destAcc (oaBalanceDelta destAcc + value)]> (outputAccounts c))).

Definition UpdateCodeDeployerAddress (h : host) (scAddr : bytes) (newOwner : slice) : option host :=
  match outputAccounts (ctx h) !! scAddr with
  | None => None
  | Some outAcc =>
      Some (withCtx h (fun c =>
        setAccounts c (<[scAddr := withDeployer outAcc newOwner]> (outputAccounts c))))
  end.

Definition addContractDeployToOutput (h : host) (contractAddress ownerAddress code : bytes) : host :=
  withCtx h (fun c => setAccounts c
    (let outAcc := default (newAccount contractAddress) (outputAccounts c !! contractAddress) in
     <[contractAddress := withDeployer (withCode outAcc code) (Some ownerAddress)]>
       (outputAccounts c))).

(** The storage updates and the accounts, address by address. *)
Definition CreateVMOutput (h : host) : VMOutput :=
  let c := ctx h in
  let account (outAcc : OutputAccount) :=
    mkAccount (oaAddress outAcc) None (oaBalanceDelta outAcc) (oaOutputTransfers outAcc)
      (oaCode outAcc)
      (if (0 <? CurrentNonce hookData) && (0 <? slen (oaCodeDeployerAddress outAcc))
       then oaCodeDeployerAddress outAcc else None) in
  let outAccs := map_imap (fun addr updates =>
    Some (mkOutputOfAccount (mkAccount addr None 0 [] [] None) updates)) (storageOf h) in
  let outAccs := map_fold (fun addr outAcc accs =>
    <[addr := mkOutputOfAccount (account outAcc)
                (match accs !! addr with Some o => voStorageUpdates o | None => ∅ end)]> accs)
    outAccs (outputAccounts c) in
  mkVMOutput outAccs (gasRemaining c) (returnMessage c) (logs c) (output c).

(** ** Nested calls *)

(** The log entry of transferBeforeInternalExec. *)
Definition mkTransferLog (sender : bytes) (value : Z) (recipient callType function : bytes)
  (arguments : list bytes) : LogEntry :=
  mkLog transferValueOnlyId sender [bigBytes value; recipient]
    (FormatLogDataForCall callType function arguments).

(** copyToNewContext: the maps are those of the receiver. *)
Definition copyToNewContext (c : vmContext) : vmContext :=
  mkContext (scAddress c) (storageUpdate c) (outputAccounts c) 0 [] (output c) [] 0.

(** addOutputAccounts, for the fields that are modelled. *)
Definition addOutputAccounts (destination right : OutputAccount) : OutputAccount :=
  mkAccount
    (if blen (oaAddress right) =? 0 then oaAddress destination else oaAddress right)
    (match oaBalance right with None => oaBalance destination | Some b => Some b end)
    (oaBalanceDelta destination + oaBalanceDelta right)
    (oaOutputTransfers destination ++ oaOutputTransfers right)
    (if blen (oaCode right) =? 0 then oaCode destination else oaCode right)
    (match oaCodeDeployerAddress right with
     | None => oaCodeDeployerAddress destination
     | Some a => Some a
     end).

Definition mergeAccounts (left right : gmap bytes OutputAccount) : gmap bytes OutputAccount :=
  map_fold (fun _ r m =>
    let a := oaAddress r in
    <[a := addOutputAccounts (default (newAccount a) (m !! a)) r]> m) left right.

(** properMergeContexts, when the flag MultiClaimOnDelegation is set. *)
Definition properMergeContexts (h : host) (parent : vmContext) (rc : ReturnCode) : host :=
  let h1 := hostAddReturnMessage (withCtx h (fun c => setScAddress c (scAddress parent)))
    (returnMessage parent) in
  if bool_decide (rc = Ok) || AlwaysMergeContextsInEEIFlag flags then
    withCtx h1 (fun c => setAccounts (setOutput c (output c ++ output parent))
      (mergeAccounts (outputAccounts c) (outputAccounts parent)))
  else h1.

(** The value transfer and the log entry before the call. *)
Definition transferBeforeInternalExec (h : host) (callInput : ContractCallInput)
  (sender callType : bytes) : host :=
  AddLogEntry (transferValueOnly h (RecipientAddr callInput) sender (CallValue callInput))
    (mkTransferLog sender (CallValue callInput) (RecipientAddr callInput) callType
       (Function_ callInput) (Arguments callInput)).

(** softCleanCache and SetSCAddress: what the called contract starts with. *)
Definition enterCall (h : host) (callInput : ContractCallInput) : host :=
  withCtx (softCleanCache (transferBeforeInternalExec h callInput (CallerAddr callInput)
    (str "ExecuteOnDestContext"))) (fun c => setScAddress c (RecipientAddr callInput)).

(** ExecuteOnDestContext, when the flag MultiClaimOnDelegation is set: the text
    of an error, or the return code of the call.  The deferred function runs at
    every return after the context has been copied. *)
Definition ExecuteOnDestContext (h : host) (destination sender : bytes) (value : Z) (input : bytes)
  : host * (bytes + ReturnCode) :=
  match ParseData input with
  | inl text => (h, inl text)
  | inr (function, arguments) =>
      let callInput := mkInput sender arguments value destination function 0 in
      let currContext := copyToNewContext
        (ctx (transferBeforeInternalExec h callInput sender (str "ExecuteOnDestContext"))) in
      let deferred h rc :=
        properMergeContexts (withCtx h (fun c => setOutput c [])) currContext rc in
      let h2 := enterCall h callInput in
      match systemContracts destination with
      | None => (deferred h2 UserError, inl ErrUnknownContract)
      | Some contract =>
          if beq function initFunctionName then (deferred h2 UserError, inr UserError)
          else
            let (h3, returnCode) := contract callInput h2 in
            let h4 :=
              if decide (returnCode = Ok) then h3
              else withCtx h3 (fun c => setStorageRef (setAccounts c ∅) (storageUpdate currContext)) in
            (deferred h4 returnCode, inr returnCode)
      end
  end.

(** DeploySystemSC, when the flag MultiClaimOnDelegation is set; baseContracts is
    the container of the system contracts. *)
Definition DeploySystemSC (h : host) (baseContract newAddress ownerAddress initFunction : bytes)
  (value : Z) (input : list bytes) : host * (bytes + ReturnCode) :=
  let callInput := mkInput ownerAddress input value newAddress initFunction 0 in
  let sender := scAddress (ctx h) in
  let h1 := transferBeforeInternalExec h callInput sender (str "DeploySmartContract") in
  match baseContracts baseContract with
  | None => (h1, inl ErrUnknownContract)
  | Some contract =>
      let oldSCAddress := scAddress (ctx h1) in
      let (h2, returnCode) := contract callInput (withCtx h1 (fun c => setScAddress c newAddress)) in
      let h3 := withCtx h2 (fun c => setScAddress c oldSCAddress) in
      (addContractDeployToOutput h3 newAddress ownerAddress baseContract, inr returnCode)
  end.

(** ** The interface *)

#[export] Instance hostEI : SystemEI host := {
  eiHook _ := hookData;
  eiGetStorage := hostGetStorage;
  eiGetStorageFromAddress := GetStorageFromAddress;
  eiSetStorage := hostSetStorage;
  eiFinish := hostFinish;
  eiAddReturnMessage := hostAddReturnMessage;
  eiUseGas := hostUseGas;
  eiExecuteOnDestContext := ExecuteOnDestContext;
}.

Lemma storageOf_set h a k v :
  storageOf (SetStorageForAddress h a k v) =
  <[a := <[k := default [] v]> (default ∅ (storageOf h !! a))]> (storageOf h).
Proof. unfold storageOf, SetStorageForAddress. simpl. by rewrite lookup_insert_eq. Qed.

Lemma get_set h a k v a' k' :
  GetStorageFromAddress (SetStorageForAddress h a k v) a' k' =
  if decide (a' = a /\ k' = k) then Some (default [] v) else GetStorageFromAddress h a' k'.
Proof.
  unfold GetStorageFromAddress. rewrite storageOf_set.
  destruct (decide (a' = a)) as [->|Ha].
  - rewrite lookup_insert_eq. destruct (decide (k' = k)) as [->|Hk].
    + by rewrite lookup_insert_eq, decide_True.
    + rewrite decide_False by naive_solver. rewrite (lookup_insert_ne _ k k') by done.
      destruct (storageOf h !! a) as [adrMap|]; simpl; [done|]. by rewrite lookup_empty.
  - rewrite decide_False by naive_solver. by rewrite lookup_insert_ne.
Qed.

Lemma message_storage h m : storageOf (hostAddReturnMessage h m) = storageOf h /\
  scAddress (ctx (hostAddReturnMessage h m)) = scAddress (ctx h).
Proof. unfold hostAddReturnMessage. by destruct (blen m =? 0). Qed.

#[export] Instance hostEILaws : SystemEILaws host.
Proof.
  split; try done; unfold slot; simpl; unfold hostGetStorage.
  - intros h k v. unfold hostSetStorage. simpl. rewrite get_set. by rewrite decide_True.
  - intros h k v k' Hk. unfold hostSetStorage. simpl. rewrite get_set.
    by rewrite decide_False by naive_solver.
  - intros h m k. destruct (message_storage h m) as [H1 H2].
    unfold GetStorageFromAddress. by rewrite H1, H2.
  - intros h g h' k. unfold hostUseGas. by destruct (_ <? _); intros [= <-].
Qed.
End EEI.
