(* ===== verification/EEITheorems.v ===== *)
(** * Properties of the environment of the system contracts (EEI.v). *)

From stdpp Require Import base list gmap strings.
From Stdlib Require Import ZArith Lia.
From S2P Require Import Prelude SystemEI EEI.

(** ** The balance changes of the output accounts *)

Definition totalDelta (m : gmap bytes OutputAccount) : Z :=
  map_fold (fun _ a acc => oaBalanceDelta a + acc) 0 m.

(** Every account is stored under its own address. *)
Definition keyed (m : gmap bytes OutputAccount) : Prop :=
  map_Forall (fun k a => oaAddress a = k) m.

(** No value is created: the changes of the balances add up to zero. *)
Definition balanced (h : host) : Prop :=
  keyed (outputAccounts (ctx h)) /\ totalDelta (outputAccounts (ctx h)) = 0.

Section TotalDelta.
Implicit Types m : gmap bytes OutputAccount.

Lemma totalDelta_empty : totalDelta ∅ = 0.
Proof. done. Qed.

Lemma totalDelta_insert m a x : m !! a = None ->
  totalDelta (<[a := x]> m) = oaBalanceDelta x + totalDelta m.
Proof.
  intros H. unfold totalDelta. rewrite map_fold_insert_L; [done|intros; lia|done].
Qed.

Lemma totalDelta_delete m a x : m !! a = Some x ->
  totalDelta m = oaBalanceDelta x + totalDelta (delete a m).
Proof.
  intros H. rewrite <- (insert_delete_id m a x) at 1 by done.
  apply totalDelta_insert. apply lookup_delete_eq.
Qed.

Lemma totalDelta_insert_some m a x y : m !! a = Some y ->
  totalDelta (<[a := x]> m) = totalDelta m - oaBalanceDelta y + oaBalanceDelta x.
Proof.
  intros H. rewrite (totalDelta_delete m a y), <- insert_delete_eq by done.
  rewrite totalDelta_insert by apply lookup_delete_eq. lia.
Qed.

Lemma ensureAccount_total m a : totalDelta (ensureAccount m a) = totalDelta m.
Proof.
  unfold ensureAccount. destruct (m !! a) eqn:H; [done|].
  rewrite totalDelta_insert by done. simpl. lia.
Qed.

Lemma ensureAccount_keyed m a : keyed m -> keyed (ensureAccount m a).
Proof.
  intros H. unfold ensureAccount. destruct (m !! a) eqn:E; [done|].
  by apply map_Forall_insert_2.
Qed.

Lemma ensureAccount_is_Some m a b :
  (b = a \/ is_Some (m !! b)) -> is_Some (ensureAccount m a !! b).
Proof.
  intros H. unfold ensureAccount. destruct (m !! a) eqn:E.
  - destruct H as [->|H]; [by eexists|done].
  - destruct (decide (b = a)) as [->|Hb]; [rewrite lookup_insert_eq; by eexists|].
    rewrite lookup_insert_ne by done. by destruct H.
Qed.

Lemma addDelta_total m a v : is_Some (m !! a) -> totalDelta (addDelta m a v) = totalDelta m + v.
Proof.
  intros [x Hx]. unfold addDelta.
  rewrite (alter_alt_Some _ _ _ x) by done.
  rewrite (totalDelta_insert_some _ _ _ x) by done. simpl. lia.
Qed.
End TotalDelta.

Section Accounts.
Implicit Types m : gmap bytes OutputAccount.

Lemma alter_keyed f m a : (forall x, oaAddress (f x) = oaAddress x) -> keyed m -> keyed (alter f a m).
Proof.
  intros Hf H k x Hx. apply lookup_alter_Some in Hx as [(-> & y & Hy & ->)|[_ Hx]].
  - rewrite Hf. by apply H.
  - by apply H.
Qed.

Lemma alter_total f m a : (forall x, oaBalanceDelta (f x) = oaBalanceDelta x) ->
  totalDelta (alter f a m) = totalDelta m.
Proof.
  intros Hf. destruct (m !! a) as [x|] eqn:E.
  - rewrite (alter_alt_Some _ _ _ x) by done.
    rewrite (totalDelta_insert_some _ _ _ x), Hf by done. lia.
  - f_equal. apply map_eq. intros k. destruct (decide (k = a)) as [->|].
    + by rewrite lookup_alter_eq, E.
    + by rewrite lookup_alter_ne.
Qed.

Lemma pair_total m sender destination value :
  totalDelta (addDelta (addDelta (getSenderDestination m sender destination) sender (- value))
                destination value) = totalDelta m.
Proof.
  unfold getSenderDestination. rewrite !addDelta_total.
  - rewrite !ensureAccount_total. lia.
  - apply ensureAccount_is_Some. right. apply ensureAccount_is_Some. by left.
  - unfold addDelta. apply lookup_alter_is_Some, ensureAccount_is_Some. by left.
Qed.

Lemma pair_keyed m sender destination value : keyed m ->
  keyed (addDelta (addDelta (getSenderDestination m sender destination) sender (- value))
           destination value).
Proof. intros H. do 2 (apply alter_keyed; [done|]). by do 2 apply ensureAccount_keyed. Qed.

Lemma merge_total left right : totalDelta (mergeAccounts left right) = totalDelta left + totalDelta right.
Proof.
  unfold mergeAccounts.
  apply (map_fold_weak_ind (fun acc r => totalDelta acc = totalDelta left + totalDelta r)).
  - rewrite totalDelta_empty. lia.
  - intros k x m acc Hm IH. rewrite (totalDelta_insert m) by done. simpl.
    destruct (acc !! oaAddress x) as [y|] eqn:E; simpl.
    + rewrite (totalDelta_insert_some _ _ _ y) by done. simpl. lia.
    + rewrite totalDelta_insert by done. simpl. lia.
Qed.

Lemma merge_keyed left right : keyed left -> keyed (mergeAccounts left right).
Proof.
  intros Hl. unfold mergeAccounts.
  apply (map_fold_weak_ind (fun acc _ => keyed acc)); [done|].
  intros k x m acc _ IH. apply map_Forall_insert_2; [|done].
  unfold addOutputAccounts. simpl. destruct (blen (oaAddress x) =? 0) eqn:E; [|done].
  destruct (acc !! oaAddress x) as [y|] eqn:Ey; simpl; [by apply IH|done].
Qed.
End Accounts.

Lemma balanced_accounts h h' : outputAccounts (ctx h') = outputAccounts (ctx h) ->
  balanced h -> balanced h'.
Proof. intros E. unfold balanced. by rewrite E. Qed.

Lemma message_accounts h m : outputAccounts (ctx (hostAddReturnMessage h m)) = outputAccounts (ctx h).
Proof. unfold hostAddReturnMessage. by destruct (blen m =? 0). Qed.

Lemma transferValueOnly_balanced h destination sender value :
  balanced h -> balanced (transferValueOnly h destination sender value).
Proof.
  intros [Hk Ht]. split; simpl.
  - by apply pair_keyed.
  - by rewrite pair_total.
Qed.

Lemma balanced_empty h : outputAccounts (ctx h) = ∅ -> balanced h.
Proof. intros E. unfold balanced. rewrite E. split; [apply map_Forall_empty|done]. Qed.

Section Calls.
Variable flags : EEIFlags.
Variable ParseData : bytes -> bytes + (bytes * list bytes).
Variable initFunctionName : bytes.
Variable ErrUnknownContract : bytes.
Variable systemContracts : bytes -> option (ContractCallInput -> host -> host * ReturnCode).
Variable baseContracts : bytes -> option (ContractCallInput -> host -> host * ReturnCode).
Variable FormatLogDataForCall : bytes -> bytes -> list bytes -> list bytes.

Notation execute := (ExecuteOnDestContext flags ParseData initFunctionName ErrUnknownContract
  systemContracts FormatLogDataForCall).
Notation deploy := (DeploySystemSC ErrUnknownContract baseContracts FormatLogDataForCall).

Lemma Transfer_balanced h destination sender value input gasLimit :
  balanced h -> balanced (Transfer flags h destination sender value input gasLimit).
Proof.
  intros H. pose proof (transferValueOnly_balanced h destination sender value H) as [Hk Ht].
  unfold Transfer. simpl. split; simpl.
  - apply alter_keyed; [done|]. by do 2 apply ensureAccount_keyed.
  - rewrite alter_total by done. unfold getSenderDestination.
    by rewrite !ensureAccount_total.
Qed.

Lemma properMerge_balanced h parent rc :
  balanced h -> keyed (outputAccounts parent) -> totalDelta (outputAccounts parent) = 0 ->
  balanced (properMergeContexts flags h parent rc).
Proof.
  intros [Hk Ht] Hpk Hpt. unfold properMergeContexts.
  destruct (_ || _).
  - split; simpl; rewrite message_accounts; simpl; [by apply merge_keyed|].
    rewrite merge_total. lia.
  - apply (balanced_accounts h); [|done]. by rewrite message_accounts.
Qed.

Lemma execute_balanced h destination sender value input :
  (forall d c i h', systemContracts d = Some c -> balanced h' -> balanced (fst (c i h'))) ->
  balanced h -> balanced (fst (execute h destination sender value input)).
Proof.
  intros Hc H. unfold ExecuteOnDestContext.
  destruct (ParseData input) as [t|[function arguments]]; [done|].
  pose proof (transferValueOnly_balanced h destination sender value H) as [Hk Ht].
  set (h2 := enterCall _ _ _).
  assert (Hsoft : balanced h2) by by apply balanced_empty.
  destruct (systemContracts destination) as [c|] eqn:Ec; [|by apply properMerge_balanced].
  destruct (beq function initFunctionName); [by apply properMerge_balanced|].
  match goal with |- context [c ?i h2] => pose proof (Hc _ c i h2 Ec Hsoft) as H3; destruct (c i h2) as [h3 rc] end.
  simpl in *. apply properMerge_balanced; [|done|done].
  destruct (decide (rc = Ok)); [done|by apply balanced_empty].
Qed.

Lemma deploy_balanced h base newAddress owner init value input :
  (forall d c i h', baseContracts d = Some c -> balanced h' -> balanced (fst (c i h'))) ->
  balanced h -> balanced (fst (deploy h base newAddress owner init value input)).
Proof.
  intros Hc H. unfold DeploySystemSC.
  set (h1 := transferBeforeInternalExec _ _ _ _ _).
  assert (H1 : balanced h1) by by apply (transferValueOnly_balanced h).
  destruct (baseContracts base) as [c|] eqn:Ec; [|done].
  match goal with |- context [c ?i ?h'] =>
    pose proof (Hc _ c i h' Ec (balanced_accounts h1 h' eq_refl H1)) as H3;
    destruct (c i h') as [h3 rc] end.
  simpl in *. destruct H3 as [Hk Ht]. split; simpl.
  - apply map_Forall_insert_2; [|done]. simpl.
    destruct (outputAccounts (ctx h3) !! newAddress) as [y|] eqn:Ey; simpl; [by apply Hk|done].
  - destruct (outputAccounts (ctx h3) !! newAddress) as [y|] eqn:Ey; simpl.
    + rewrite (totalDelta_insert_some _ _ _ y) by done. simpl. lia.
    + rewrite totalDelta_insert by done. simpl. lia.
Qed.
End Calls.

(** ** What a contract can do to the environment

    One rule per operation of the environment; a call of another contract runs
    that contract, which is in the relation as well. *)
Section Runs.
Variable flags : EEIFlags.
Variable initFunctionName : bytes.
Variable ErrUnknownContract : bytes.
Variable FormatLogDataForCall : bytes -> bytes -> list bytes -> list bytes.

Definition Contracts := bytes -> option (ContractCallInput -> host -> host * ReturnCode).

Inductive runs : host -> host -> Prop :=
| run_nil h : runs h h
| run_trans h1 h2 h3 : runs h1 h2 -> runs h2 h3 -> runs h1 h3
| run_set h a k v : runs h (SetStorageForAddress h a k v)
| run_finish h v : runs h (hostFinish h v)
| run_message h m : runs h (hostAddReturnMessage h m)
| run_gas h g h' : hostUseGas h g = Some h' -> runs h h'
| run_log h l : runs h (AddLogEntry h l)
| run_code h a c : runs h (AddCode h a c)
| run_deployer h a o h' : UpdateCodeDeployerAddress h a o = Some h' -> runs h h'
| run_transfer h d s v i g : runs h (Transfer flags h d s v i g)
| run_execute h (parse : bytes -> bytes + (bytes * list bytes)) (contracts : Contracts) d s v i :
    (forall a c x h', contracts a = Some c -> runs h' (fst (c x h'))) ->
    runs h (fst (ExecuteOnDestContext flags parse initFunctionName ErrUnknownContract contracts
                   FormatLogDataForCall h d s v i))
| run_deploy h (contracts : Contracts) base new owner init v i :
    (forall a c x h', contracts a = Some c -> runs h' (fst (c x h'))) ->
    runs h (fst (DeploySystemSC ErrUnknownContract contracts FormatLogDataForCall h base new owner
                   init v i)).

Lemma AddCode_balanced h a c : balanced h -> balanced (AddCode h a c).
Proof.
  intros [Hk Ht]. unfold AddCode. split; simpl; destruct (outputAccounts (ctx h) !! a) as [x|] eqn:E.
  - apply map_Forall_insert_2; [|done]. exact (Hk a x E).
  - by apply map_Forall_insert_2.
  - rewrite (totalDelta_insert_some _ _ _ x) by done. simpl. lia.
  - rewrite totalDelta_insert by done. simpl. lia.
Qed.

Lemma deployer_balanced h a o h' :
  UpdateCodeDeployerAddress h a o = Some h' -> balanced h -> balanced h'.
Proof.
  unfold UpdateCodeDeployerAddress. destruct (outputAccounts (ctx h) !! a) as [x|] eqn:E; [|done].
  intros [= <-] [Hk Ht]. split; simpl.
  - apply map_Forall_insert_2; [|done]. exact (Hk a x E).
  - rewrite (totalDelta_insert_some _ _ _ x) by done. simpl. lia.
Qed.

(** C6: no contract creates or destroys value.  Whatever operations of the
    environment a contract runs - storage, messages, gas, logs, code, transfers,
    deployments and calls of other contracts that succeed, fail or do not exist,
    which in turn run any such operations - the balance changes of the output
    accounts still add up to zero when they did at the start, and every account is
    stored under its own address (vmContext.Transfer, ExecuteOnDestContext with its
    deferred properMergeContexts, DeploySystemSC). *)
Theorem value_conservation h h' : runs h h' -> balanced h -> balanced h'.
Proof.
  induction 1 as [ | |h a k v|h v|h m|h g h' Hg|h l|h a c|h a o h' Ho|h d s v i g
                 |h parse cs d s v i Hc IH|h cs base new owner init v i Hc IH]; intros Hb; auto.
  - apply (balanced_accounts h); [apply message_accounts|done].
  - apply (balanced_accounts h); [|done]. unfold hostUseGas in Hg.
    destruct (_ <? _); by inversion Hg.
  - by apply AddCode_balanced.
  - by eapply deployer_balanced.
  - by apply Transfer_balanced.
  - apply execute_balanced; [|done]. intros. eapply IH; eauto.
  - apply deploy_balanced; [|done]. intros. eapply IH; eauto.
Qed.

Lemma properMerge_storage h parent rc :
  storageOf (properMergeContexts flags h parent rc) = storageOf h.
Proof.
  unfold properMergeContexts. destruct (_ || _); unfold storageOf; simpl;
    by unfold hostAddReturnMessage; destruct (blen (returnMessage parent) =? 0).
Qed.

(** C40: a nested call that fails does not undo its storage writes.  Whatever code
    the called contract returns, if it keeps the storage map it was given, the
    caller sees after ExecuteOnDestContext, at every address and key, exactly what
    the called contract left: on failure storageUpdate is reset to
    currContext.storageUpdate, which copyToNewContext made the same map. *)
Theorem failed_call_keeps_writes GetStorageData parse (contracts : Contracts) h destination sender
  value input function args contract h3 rc :
  parse input = inr (function, args) ->
  contracts destination = Some contract ->
  function <> initFunctionName ->
  let callInput := mkInput sender args value destination function 0 in
  contract callInput (enterCall FormatLogDataForCall h callInput) = (h3, rc) ->
  storageUpdate (ctx h3) = storageUpdate (ctx h) ->
  let h' := fst (ExecuteOnDestContext flags parse initFunctionName ErrUnknownContract contracts
                   FormatLogDataForCall h destination sender value input) in
  forall a k, GetStorageFromAddress GetStorageData h' a k = GetStorageFromAddress GetStorageData h3 a k.
Proof.
  intros Hp Hc Hf callInput Hrun Href h' a k. subst h'.
  unfold ExecuteOnDestContext. rewrite Hp, Hc. apply beq_false in Hf. rewrite Hf.
  fold callInput. rewrite Hrun. simpl.
  unfold GetStorageFromAddress. rewrite properMerge_storage.
  replace (storageOf (withCtx _ _)) with (storageOf h3); [done|].
  unfold storageOf. destruct (decide (rc = Ok)); simpl; [done|]. by rewrite Href.
Qed.
End Runs.

(** ** Witnesses *)
Module EEIInstances.
Definition flags : EEIFlags := mkEEIFlags true true true.
Definition fmt (a b : bytes) (l : list bytes) : list bytes := a :: b :: l.
Definition parse (i : bytes) : bytes + (bytes * list bytes) := inr (i, []).

(** A contract at address 2 that writes a slot, sends 3 to address 4 and fails. *)
Definition failing (_ : ContractCallInput) (h : host) : host * ReturnCode :=
  (Transfer flags (SetStorageForAddress h [2] [7] (Some [8])) [4] [2] 3 [] 0, UserError).
Definition contracts (a : bytes) : option (ContractCallInput -> host -> host * ReturnCode) :=
  if beq a [2] then Some failing else None.
Definition start : host := mkHost (mkContext [9] 1 ∅ 0 [] [] [] 1) ∅.
Definition call : host * (bytes + ReturnCode) :=
  ExecuteOnDestContext flags parse (str "_init") (str "unknown") contracts fmt start [2] [9] 5
    (str "f").

Lemma call_runs : runs flags (str "_init") (str "unknown") fmt start (fst call).
Proof.
  apply run_execute. intros a c x h'. unfold contracts. destruct (beq a [2]); [|done].
  intros [= <-]. eapply run_trans; [apply run_set|apply run_transfer].
Qed.

Lemma value_conservation_witness :
  balanced start /\ balanced (fst call) /\ snd call = inr UserError /\
  oaBalanceDelta <$> (outputAccounts (ctx (fst call)) !! [2]) = Some 5.
Proof.
  split; [by apply balanced_empty|]. split; [|split; [done|vm_compute; reflexivity]].
  apply (value_conservation flags (str "_init") (str "unknown") fmt start); [apply call_runs|].
  by apply balanced_empty.
Defined.

Lemma failed_call_keeps_writes_witness :
  snd call = inr UserError /\
  GetStorageFromAddress (fun _ _ => None) (fst call) [2] [7] = Some [8].
Proof.
  split; [done|].
  pose (start' := enterCall fmt start (mkInput [9] [] 5 [2] (str "f") 0)).
  etransitivity; [|exact (eq_refl : GetStorageFromAddress (fun _ _ => None)
    (fst (failing (mkInput [9] [] 5 [2] (str "f") 0) start')) [2] [7] = Some [8])].
  by apply (failed_call_keeps_writes flags (str "_init") (str "unknown") fmt
    (fun _ _ => None) parse contracts start [2] [9] 5 (str "f") (str "f") [] failing _ UserError).
Defined.
End EEIInstances.
