(* ===== verification/StakingTheorems.v ===== *)
(** * Properties of the staking contract. *)

From stdpp Require Import base list gmap strings countable.
From Stdlib Require Import ZArith Lia.
From S2P Require Import Prelude SystemEI StakingData StakingQueue StakingQueueSpec.
From S2P Require Import StakingQueueSpec StakingQueueRemove StakingSC StakingState.
From S2P Require Import StakingInvariant StakingHandlers StakingAccess EEI.

(** ** The waiting list is a queue *)

Inductive queueOp := QAdd (k : bytes) (jailed : bool) | QRemove (k : bytes).

Definition opKey (o : queueOp) : bytes := match o with QAdd k _ => k | QRemove k => k end.

(** The operation on the storage, and on the abstract queue. *)
Definition runOp {E} `{SystemEI E} `{StakingCodec} (flags : EpochFlags) (o : queueOp) : SE E stErr unit :=
  match o with
  | QAdd k jailed => addToWaitingList flags k jailed
  | QRemove k => removeFromWaitingList flags k
  end.

Definition absOp (q : list bytes * list bytes) (o : queueOp) : list bytes * list bytes :=
  match o with QAdd k jailed => qAdd k jailed q | QRemove k => qRemove k q end.

Section Theorems.
Context {E : Type} `{EI : SystemEI E} `{EL : !SystemEILaws E}.
Context `{SC : StakingCodec} `{CL : !StakingCodecLaws SC} `{CO : CoreLib}.
Variables (s : stakingSC) (flags : EpochFlags) (keyLen : nat) (hk : Hook).
Implicit Types (e : E) (a : aState).

(** The flags of the epochs the properties are about: everything up to the
    correction of the last unjailed node. *)
Definition recentFlags : Prop :=
  StakeFlag flags = true /\ StakingV2Flag flags = true /\
  CorrectFirstQueuedFlag flags = true /\ CorrectLastUnJailedFlag flags = true.

Lemma absOp_length q o :
  (length (fst (absOp q o) ++ snd (absOp q o)) <= S (length (fst q ++ snd q)))%nat.
Proof.
  destruct o as [k j|k]; simpl.
  - unfold qAdd. destruct (decide _); [lia|]. destruct j; simpl; rewrite !length_app; simpl; lia.
  - pose proof (length_filter (fun x => x <> k) (fst q)).
    pose proof (length_filter (fun x => x <> k) (snd q)). rewrite !length_app. lia.
Qed.

Lemma runOps ops : forall e q,
  recentFlags -> keyLen <> 11%nat ->
  queueRep keyLen e (fst q) (snd q) -> Forall (fun o => okKey keyLen (opKey o)) ops ->
  Z.of_nat (length (fst q ++ snd q)) + Z.of_nat (length ops) < MaxUint32 ->
  exists e', foldM (fun _ o => runOp flags o) tt ops e = (e', inr tt) /\
    queueRep keyLen e' (fst (foldl absOp q ops)) (snd (foldl absOp q ops)) /\ frame keyLen e e'.
Proof.
  induction ops as [|o ops IH]; intros e q Hf Hl Hq Hok Hlen; simpl.
  - by exists e.
  - inversion Hok as [|? ? Hk Hok']; subst. pose proof Hf as (F1 & F2 & F3 & F4).
    assert (Hstep : exists e1, runOp flags o e = (e1, inr tt) /\
      queueRep keyLen e1 (fst (absOp q o)) (snd (absOp q o)) /\ frame keyLen e e1).
    { destruct q as [J N]. destruct o as [k j|k]; simpl in *.
      - destruct (addToWaitingList_spec flags keyLen Hl e J N k j) as (e1 & E1 & Ha & Hfr); auto; [lia|].
        by exists e1.
      - destruct (removeFromWaitingList_spec flags keyLen Hl F3 F4 e J N k) as (e1 & E1 & Ha & Hfr); auto.
        by exists e1. }
    destruct Hstep as (e1 & E1 & Hq1 & Hfr1). pose proof (absOp_length q o).
    destruct (IH e1 (absOp q o)) as (e2 & E2 & Hq2 & Hfr2); auto; [simpl in Hlen; lia|].
    exists e2. split; [by rewrite (bind_ok _ _ _ _ _ E1)|]. split; [done|].
    destruct Hfr1 as [A1 B1], Hfr2 as [A2 B2]. split; [|congruence]. intros key Hkey. by rewrite A2, A1.
Qed.

(** C2: the doubly linked list in the storage of the staking contract is a queue
    with two priorities.  Any sequence of addToWaitingList (with or without the
    priority of a jailed node) and removeFromWaitingList on keys of one length
    succeeds, leaves the storage representing the two lists that appending to one
    of them and deleting from them give, touches no storage outside the waiting
    list, and afterwards getFirstElementsFromWaitingList returns the keys of the
    first list followed by those of the second, in order, with their data. *)
Theorem waiting_list_refines_queue e J N ops :
  recentFlags -> keyLen <> 11%nat ->
  queueRep keyLen e J N -> Forall (fun o => okKey keyLen (opKey o)) ops ->
  Z.of_nat (length (J ++ N)) + Z.of_nat (length ops) < MaxUint32 ->
  exists e', foldM (fun _ o => runOp flags o) tt ops e = (e', inr tt) /\ frame keyLen e e' /\
    let (J', N') := foldl absOp (J, N) ops in
    queueRep keyLen e' J' N' /\
    forall ds, Forall2 (regData e') (J' ++ N') ds ->
      exists lk al, getFirstElementsFromWaitingList MaxUint32 e' =
        (e', inr (mkReturnData (J' ++ N') ds lk al)) /\ (al = true <-> J' <> []).
Proof.
  intros Hf Hl Hq Hok Hlen.
  destruct (runOps ops e (J, N) Hf Hl Hq Hok Hlen) as (e' & E' & Hq' & Hfr).
  exists e'. split; [done|]. split; [done|].
  destruct (foldl absOp (J, N) ops) as [J' N']. split; [done|].
  intros ds Hds. by apply (getFirstElements_spec keyLen Hl).
Qed.

(** ** The invariant of the contract *)

Lemma runHandler_wp (m : SE E stop unit) F e a :
  rep s keyLen hk e a -> wp s keyLen hk m (fun _ => F) F a ->
  snd (runHandler m e) = Some Ok -> exists a', rep s keyLen hk (fst (runHandler m e)) a' /\ F a'.
Proof.
  intros Hr Hm. specialize (Hm e Hr). unfold runHandler. destruct (m e) as [e' [[rc|]|[]]]; simpl.
  - intros [= ->]. by apply Hm.
  - done.
  - intros _. exact Hm.
Qed.

(** C3: the staking contract is consistent.  [consistent] says of the storage: a key
    is marked as waiting exactly when it is in the queue, no key is both staked and
    waiting, the counter StakedNodes is the number of staked keys, and there is no
    queue once staking V4 has started.  If this holds before a call of Execute that
    returns Ok, it holds after the call, whatever the function is - stakes, functions
    of the end of an epoch, those that stake, clean, repair or empty the whole queue,
    views - except init, which only writes the first configuration; and the queue is
    still a well-formed doubly linked list (that is part of [rep]).  The call that
    empties the queue, unStakeAllNodesFromQueue, may find one although staking V4 has
    started ([noQueueBefore]).

    Conditions: the flags of the recent epochs are on ([recentFlags]: StakeFlag,
    StakingV2Flag, CorrectFirstQueuedFlag, CorrectLastUnJailedFlag); the BLS keys
    among the arguments ([keyArguments]) have the length of the registered keys,
    which is neither 0 nor that of the slot of the configuration; and [readyFor]: the
    queue is shorter than MaxUint32 - 1 and the counter below 2^63 - 1, before
    stakeNodesFromQueue the counter and the queue together below 2^63, and the
    contracts that a call of unStakeAllNodesFromQueue calls with success do not write
    into the storage of this contract. *)
Theorem staking_consistency args e a :
  recentFlags -> keyLen <> 11%nat ->
  rep s keyLen hk e a -> consistent keyLen (noQueueBefore flags args) a -> readyFor args e a ->
  SCDeployInitFunctionName <> Function_ args ->
  Forall (okKey keyLen) (keyArguments args) ->
  snd (Execute s flags args e) = Some Ok ->
  exists a', rep s keyLen hk (fst (Execute s flags args e)) a' /\
    consistent keyLen (StakingV4StartedFlag flags) a'.
Proof.
  intros (F1 & F2 & F3 & F4) Hl Hr Hc Hready Hinit Hk. unfold Execute.
  apply (runHandler_kept s flags), outcome_require.
  destruct (dispatch _ _) as [f|] eqn:Hd; [|done].
  eapply kept_functions; eauto. by apply dispatch_in.
Qed.

(** ** What stake does *)

Lemma runHandler_twp (m : SE E stop unit) (K : aState -> Prop) e a :
  rep s keyLen hk e a -> twp s keyLen hk m (fun _ => K) a ->
  exists e' a', runHandler m e = (e', Some Ok) /\ rep s keyLen hk e' a' /\ K a'.
Proof.
  intros Hr Hm. destruct (Hm e Hr) as (e' & [] & a' & Em & Hr' & HK). exists e', a'.
  unfold runHandler. by rewrite Em.
Qed.

Lemma twp_require (b : bool) m (K : unit -> aState -> Prop) a :
  b = true -> K tt a -> twp (E := E) s keyLen hk (require b m) K a.
Proof. intros -> HK. by apply twp_ret. Qed.

(** The registration the caller asks for. *)
Definition stakeRequest (args : ContractCallInput) (d : StakedDataV2_0) : StakedDataV2_0 :=
  withStakeValue (withOwner (withReward d (arg args 1)) (arg args 2)) (stakeValue s).

(** C4: what stake does.  A call of the validator contract for a key that is neither
    jailed nor badly rated returns Ok.  If the key is not staked and the number of
    staked nodes is below its maximum, the key is staked at the current nonce, leaves
    the queue and is counted; if the maximum is reached, it joins the end of the
    queue (once) and is marked as waiting; a staked key only gets its new owner and
    reward addresses.  After staking V4 every key is staked at once.  Nothing else
    changes. *)
Theorem stake_spec args e a :
  recentFlags -> keyLen <> 11%nat ->
  rep s keyLen hk e a -> consistent keyLen (StakingV4StartedFlag flags) a -> room a ->
  numESDTTransfers args = 0%nat -> Function_ args = str "stake" ->
  SCDeployInitFunctionName <> str "stake" ->
  CallerAddr args = stakeAccessAddr s -> 3 <= nargs args ->
  let k := arg args 0 in
  okKey keyLen k -> Jailed (aData a k) = false -> CanUnJail hk k = false -> IsBadRating hk k = false ->
  let d := stakeRequest args (aData a k) in
  exists e' a', Execute s flags args e = (e', Some Ok) /\ rep s keyLen hk e' a' /\
    a' =
      if Staked d then aSave a k d
      else if negb (StakingV4StartedFlag flags) && (MaxNumNodes (aCfg a) <=? StakedNodes (aCfg a)) then
        aSave (aSetQ a (qAdd k false (aQ a))) k
          (withWaiting (withRegisterNonce d (CurrentNonce hk)) true)
      else
        aSave (aSetCfg (aSetQ a (if StakingV4StartedFlag flags then aQ a else qRemove k (aQ a)))
                 (withStakedNodes (aCfg a) (StakedNodes (aCfg a) + 1)))
          k (withActiveStaking d (CurrentNonce hk)).
Proof.
  intros (F1 & F2 & F3 & F4) Hl Hr Hc Hroom Hesdt Hfn Hinit Hcaller Hn k Hk Hj Hcu Hbr d.
  unfold Execute. apply (runHandler_twp _ (fun a' => a' = _) e a Hr).
  apply twp_bind, twp_require; [by rewrite Hesdt|].
  rewrite Hfn. unfold functions. simpl dispatch. apply beq_false in Hinit. rewrite Hinit.
  unfold stake. apply twp_bind. apply twp_require; [by apply beq_true|].
  apply twp_bind, twp_require; [by apply negb_true_iff, Z.ltb_ge|].
  apply twp_bind, twp_onErr, twp_get; [done|]. intros Hsl.
  apply twp_bind, twp_bind, twp_hook, twp_bind, twp_hook, twp_ret.
  change (arg args 0) with k. rewrite Hj, Hcu, Hbr. simpl negb.
  apply twp_bind, twp_require; [done|]. apply twp_bind, twp_onErr.
  apply twp_processStake; auto; [by eapply count_nonneg|].
  apply twp_onErr, twp_save; auto; [by apply aStake_slash|].
  unfold aStake, full. fold (stakeRequest args (aData a k)). fold d. rewrite Z.ltb_antisym, negb_involutive.
  destruct (Staked d) eqn:Ed; [done|]. destruct (_ && _); [done|]. done.
Qed.

(** ** What unStake does *)

(** The number of nodes above the minimum, as numSpareNodes computes it. *)
Definition spare (c : StakingNodesConfig) : Z :=
  i64 (i64 (StakedNodes c - JailedNodes c) - MinNumNodes c).

(** The first of the queue takes the place, when the nodes are not above their
    maximum. *)
Definition promote (a : aState) : aState :=
  match queued a with
  | k :: _ => if StakedNodes (aCfg a) <=? MaxNumNodes (aCfg a) then aMove hk k a else a
  | [] => a
  end.

Lemma wp_tryUnStake k d (P : aState -> Prop) F a :
  recentFlags -> keyLen <> 11%nat -> okKey keyLen k -> SlashValue d <> None -> 0 < StakedNodes (aCfg a) ->
  (0 < spare (aCfg a) ->
   P (aSave (aSetCfg a (withStakedNodes (aCfg a) (StakedNodes (aCfg a) - 1))) k
       (withUnStaked d (CurrentEpoch hk) (CurrentNonce hk)))) ->
  wp s keyLen hk (tryUnStake s flags k d) (fun _ => P) F a.
Proof.
  intros (F1 & F2 & F3 & F4) Hl Hk Hsl Hpos HP. apply wp_max. intros Hm. unfold tryUnStake.
  apply wp_bind. unfold canUnStake, numSpareNodes. apply wp_bind, wp_bind, twp_wp, twp_getConfig, wp_ret, wp_ret.
  apply wp_bind, wp_require. intros Hs. apply Z.ltb_lt in Hs.
  apply wp_bind, twp_wp, twp_removeStaked; auto. unfold doUnStake, markUnStaked.
  apply wp_bind, wp_bind, twp_wp, twp_hook, wp_bind, twp_wp, twp_hook, wp_ret.
  apply wp_orFail, twp_wp, twp_save; auto.
Qed.

(** C5: what unStake does, before staking V4.  When it returns Ok for a key, the
    caller named the reward address of the key, and either the key was waiting and
    left the queue, or it was staked: then the first key of the queue (when the nodes
    are not above their maximum and the queue is not empty) took its place at the
    current nonce, more nodes than the minimum were left after that, the counter was
    decreased and the key is unstaked at the current epoch and nonce.  Nothing else
    changed. *)
Theorem unStake_spec args e a :
  recentFlags -> StakingV4StartedFlag flags = false -> keyLen <> 11%nat ->
  rep s keyLen hk e a -> consistent keyLen false a -> room a ->
  Function_ args = str "unStake" -> SCDeployInitFunctionName <> str "unStake" ->
  let k := arg args 0 in
  okKey keyLen k -> snd (Execute s flags args e) = Some Ok ->
  let d := aData a k in
  let a1 := promote a in
  exists a', rep s keyLen hk (fst (Execute s flags args e)) a' /\ RewardAddress d = arg args 1 /\
    if Staked d then
      0 < spare (aCfg a1) /\
      a' = aSave (aSetCfg a1 (withStakedNodes (aCfg a1) (StakedNodes (aCfg a1) - 1))) k
             (withUnStaked d (CurrentEpoch hk) (CurrentNonce hk))
    else
      Waiting d = true /\ a' = aSave (aSetQ a (qRemove k (aQ a))) k (withWaiting d false).
Proof.
  intros Hfl E4 Hl Hr Hc Hroom Hfn Hinit k Hk Hok d a1. pose proof Hfl as (F1 & F2 & F3 & F4).
  revert Hok. unfold Execute. apply (runHandler_wp _ _ _ _ Hr). apply wp_bind, wp_require. intros _.
    rewrite Hfn. unfold functions. simpl dispatch. apply beq_false in Hinit. rewrite Hinit.
    unfold unStake. rewrite E4. unfold unStakeV1. apply wp_bind.
    apply wp_checkUnStakeArgs; [done..|]. intros Hk' Hsl Hsw Hrew. fold k in Hsl, Hsw, Hrew |- *.
    fold d in Hsl, Hsw, Hrew |- *.
    destruct (Staked d) eqn:Es; simpl negb; cbv iota.
    - assert (Hpos := count_pos _ _ _ _ Hc Hk Es). rewrite F4. simpl negb. apply wp_bind.
      unfold canStakeIfOneRemoved. apply wp_bind, twp_wp, twp_getConfig, wp_ret. simpl orb.
      apply wp_bind, wp_when; intros Hone.
      + apply wp_bind, wp_orFail, wp_moveFirst; auto; [by rewrite E4| |].
        * intros Hq. apply wp_ret. assert (Ha1 : a1 = a) by (unfold a1, promote; by rewrite Hq).
          apply wp_tryUnStake; auto. intros Hs. split; [done|]. rewrite Ha1. by split.
        * intros k0 l Hq Hk0. apply wp_ret.
          assert (Ha1 : a1 = aMove hk k0 a) by (unfold a1, promote; by rewrite Hq, Hone).
          apply wp_tryUnStake; auto; [simpl; lia|]. intros Hs. split; [done|]. rewrite Ha1. by split.
      + assert (Ha1 : a1 = a) by (unfold a1, promote; rewrite Hone; by destruct (queued a)).
        apply wp_tryUnStake; auto. intros Hs. split; [done|]. rewrite Ha1. by split.
    - simpl in Hsw. apply wp_bind, wp_orFail, twp_wp, twp_remove; auto.
      apply wp_orFail, twp_wp, twp_save; auto.
Qed.

(** ** Who can change the storage *)

(** C39: outsiders change nothing.  A call of Execute by an address that is neither
    the validator contract, nor the jailing address, nor the end-of-epoch address
    leaves every storage slot of the contract as it was, whatever the function, the
    arguments, the state of the storage, the epoch and the outcome; the functions
    that anyone can call to change something are the initialisation and the two
    repairs of the queue. *)
Theorem outsiders_change_nothing args e key :
  CallerAddr args <> stakeAccessAddr s -> CallerAddr args <> jailAccessAddr s ->
  CallerAddr args <> endOfEpochAccessAddr s ->
  Function_ args <> SCDeployInitFunctionName ->
  Function_ args <> str "fixWaitingListQueueSize" ->
  Function_ args <> str "addMissingNodeToQueue" ->
  slot (fst (Execute s flags args e)) key = slot e key.
Proof.
  intros H1 H2 H3 Hinit Hfix Hadd. apply runHandler_reads. apply reads_bind; [apply reads_require|].
  intros _. destruct (dispatch _ _) as [f|] eqn:Ed; [|apply reads_throw].
  apply beq_false in H1, H2, H3. apply dispatch_in in Ed.
  by apply (outsider_functions s flags args H1 H2 H3 (Function_ args)).
Qed.

(** ** What unBond requires *)

(** C38: what unBond requires.  When it returns Ok the key was registered and is
    neither staked, nor waiting, nor jailed, nor badly rated, nor still a validator;
    if it was unstaked, the unbond period has passed since; at least the minimum
    number of nodes is staked; and the key is no longer registered afterwards, while
    nothing else changed. *)
Theorem unBond_spec args e a :
  recentFlags -> keyLen <> 11%nat -> rep s keyLen hk e a ->
  Function_ args = str "unBond" -> SCDeployInitFunctionName <> str "unBond" ->
  let k := arg args 0 in
  okKey keyLen k -> snd (Execute s flags args e) = Some Ok ->
  let d := aData a k in
  rep s keyLen hk (fst (Execute s flags args e)) (aSave a k emptyStaked) /\
  RewardAddress d <> [] /\ Staked d = false /\ Waiting d = false /\ Jailed d = false /\
  CanUnJail hk k = false /\ IsBadRating hk k = false /\ IsValidator hk k = false /\
  (0 < UnStakedNonce d -> unBondPeriod s <= u64 (CurrentNonce hk - UnStakedNonce d)) /\
  0 <= spare (aCfg a).
Proof.
  intros Hfl Hl Hr Hfn Hinit k Hk Hok d.
  cut (exists a', rep s keyLen hk (fst (Execute s flags args e)) a' /\
    (a' = aSave a k emptyStaked /\ RewardAddress d <> [] /\ Staked d = false /\ Waiting d = false /\
     Jailed d = false /\ CanUnJail hk k = false /\ IsBadRating hk k = false /\
     IsValidator hk k = false /\
     (0 < UnStakedNonce d -> unBondPeriod s <= u64 (CurrentNonce hk - UnStakedNonce d)) /\
     0 <= spare (aCfg a))).
  { intros (a' & Hr' & -> & HP). by split. }
  revert Hok. unfold Execute. apply (runHandler_wp _ _ _ _ Hr). apply wp_bind, wp_require. intros _.
  rewrite Hfn. unfold functions. simpl dispatch. apply beq_false in Hinit. rewrite Hinit.
  unfold unBond. apply wp_bind, wp_requireCaller, wp_bind, wp_require. intros _.
  apply wp_bind, wp_orFail, twp_wp, twp_get; [done|]. intros Hsl. fold k. fold d.
  apply wp_bind, wp_require. intros G1. apply wp_bind, wp_require. intros G2.
  unfold isNodeJailedOrWithBadRating.
  apply wp_bind, wp_bind, twp_wp, twp_hook, wp_bind, twp_wp, twp_hook, wp_ret.
  apply wp_bind, wp_require. intros G3. apply wp_bind, wp_require. intros G4.
  apply wp_bind, twp_wp, twp_hook. apply wp_bind, wp_require. intros G5.
  unfold canUnBond, numSpareNodes.
  apply wp_bind, wp_bind, wp_bind, twp_wp, twp_getConfig, wp_ret, wp_ret.
  apply wp_bind, wp_require. intros G6. apply wp_bind, twp_wp, twp_hook.
  apply wp_bind, wp_require. intros G7. apply twp_wp, twp_unset; auto.
  apply negb_true_iff in G1, G2, G3, G4, G5, G7. apply orb_false_iff in G3 as [G3 G3b].
  apply orb_false_iff in G3 as [G3 G3a]. apply Z.leb_le in G6.
  rewrite Z.eqb_neq, blen_0 in G1. repeat (split; [done|]). split; [|done].
  intros Hp. apply Z.ltb_lt in Hp. rewrite Hp in G5. by apply Z.ltb_ge in G5.
Qed.
End Theorems.

(** ** Witnesses: a codec, and the context of EEI.v as the environment *)
Module StakingInstances.
Definition stakedTuple (d : StakedDataV2_0) :=
  (RegisterNonce d, StakedNonce d, Staked d, UnStakedNonce d, UnStakedEpoch d, RewardAddress d,
   (StakeValue d, JailedRound d, JailedNonce d, UnJailedNonce d, Jailed d, Waiting d, NumJailed d,
    SlashValue d, OwnerAddress d)).
#[export] Instance staked_eq_dec : EqDecision StakedDataV2_0.
Proof. solve_decision. Defined.
#[export] Instance staked_countable : Countable StakedDataV2_0.
Proof.
  apply (inj_countable' stakedTuple (fun '(a, b, c, d, e, f, (g, h, i, j, k, l, m, n, o)) =>
    mkStaked a b c d e f g h i j k l m n o)). by intros [].
Defined.
#[export] Instance config_eq_dec : EqDecision StakingNodesConfig.
Proof. solve_decision. Defined.
#[export] Instance config_countable : Countable StakingNodesConfig.
Proof.
  apply (inj_countable' (fun c => (MinNumNodes c, MaxNumNodes c, StakedNodes c, JailedNodes c))
    (fun '(a, b, c, d) => mkConfig a b c d)). by intros [].
Defined.
#[export] Instance element_eq_dec : EqDecision ElementInList.
Proof. solve_decision. Defined.
#[export] Instance element_countable : Countable ElementInList.
Proof.
  apply (inj_countable' (fun c => (BLSPublicKey c, PreviousKey c, NextKey c))
    (fun '(a, b, c) => mkElement a b c)). by intros [].
Defined.
#[export] Instance head_eq_dec : EqDecision WaitingList.
Proof. solve_decision. Defined.
#[export] Instance head_countable : Countable WaitingList.
Proof.
  apply (inj_countable' (fun c => (FirstKey c, LastKey c, Length_ c, LastJailedKey c))
    (fun '(a, b, c, d) => mkWaitingList a b c d)). by intros [].
Defined.

Definition put {A} `{Countable A} (x : A) : bytes + bytes := inr [Zpos (encode x)].
Definition take1 {A} `{Countable A} (b : bytes) : bytes + A :=
  match b with
  | [Zpos p] => match decode p with Some x => inr x | None => inl [] end
  | _ => inl []
  end.

Lemma take1_put {A} `{Countable A} (x : A) : exists b, put x = inr b /\ b <> [] /\ take1 b = inr x.
Proof. eexists. split; [reflexivity|]. split; [done|]. simpl. by rewrite decode_encode. Qed.

#[export] Instance codec : StakingCodec := {
  mStaked := put;
  mStakedV1_1 _ := inl [];
  mStakedV1_0 _ := inl [];
  uStaked := take1;
  mConfig := put;
  uConfig := take1;
  mElement := put;
  uElement := take1;
  mWaitingList := put;
  uWaitingList := take1;
  uValidatorData _ := inl [];
}.

#[export] Instance codecLaws : StakingCodecLaws codec.
Proof.
  split; intros.
  - apply take1_put.
  - destruct (take1_put c) as (b & H1 & H2 & H3). exists b. auto.
  - apply take1_put.
  - apply take1_put.
Qed.

#[export] Instance core : CoreLib := {
  SCDeployInitFunctionName := str "_init";
  IsSmartContractAddress _ := true;
  MetachainShardId := MaxUint32;
}.

(** The block: nonce 10, round 11, epoch 5; all addresses are in the metachain. *)
Definition hook0 : Hook :=
  mkHook 10 11 5 (fun _ => false) (fun _ => false) (fun _ => false) (fun _ => MaxUint32).

(** The owner of the keys is a contract that accepts every call. *)
Definition contracts (a : bytes) : option (ContractCallInput -> host -> host * ReturnCode) :=
  if beq a [200] then Some (fun _ h => (h, Ok)) else None.

#[export] Instance env : SystemEI host :=
  hostEI (mkEEIFlags true true true) hook0 (fun _ _ => None) (fun i => inr (i, [])) (str "_init")
    (str "unknown") contracts (fun a b l => a :: b :: l).
#[export] Instance envLaws : SystemEILaws host := hostEILaws _ _ _ _ _ _ _ _.

(** At least one node, at most two. *)
Definition sc : stakingSC := mkStakingSC 250 [1] [2] [3] 1 1 1 2 100 32 100.
Definition flags : EpochFlags := mkFlags true true true true true true false false.

Definition start : host := mkHost (mkContext [9] 1 ∅ 1000 [] [] [] 1) ∅.

Definition call (fn : string) (caller : bytes) (l : list bytes) : ContractCallInput :=
  mkInput caller l 0 [9] (str fn) 0.
Definition run (e : host) (c : ContractCallInput) : host := fst (Execute sc flags c e).

(** Keys are one byte long here.  Three keys ask for two places. *)
Definition stakeCall (k : Z) : ContractCallInput := call "stake" [1] [[k]; [100 + k]; [200]].
Definition staked2 : host := run (run start (stakeCall 50)) (stakeCall 51).
Definition queued1 : host := run staked2 (stakeCall 52).

Definition a0 : aState := mkAState ([], []) (fun _ => emptyStaked) (baseConfig sc).

Lemma start_rep : rep sc 1 hook0 start a0.
Proof.
  split; [| |done|done|done].
  - split; simpl; try done; try constructor.
  - intros k _. by apply regData_iff.
Qed.

Lemma start_consistent : consistent 1 false a0.
Proof.
  split; simpl; try done.
  - intros k _. split; [done|]. by intros ?%elem_of_nil.
  - exists ∅. split; [|done]. intros k. split; [by intros ?%elem_of_empty|]. by intros [_ ?].
Qed.

Lemma key_ok k : okKey 1 [k].
Proof. done. Qed.

Lemma recent : recentFlags flags.
Proof. done. Qed.

Example staked2_codes : map (fun k => snd (Execute sc flags (stakeCall k) start)) [50; 51] = [Some Ok; Some Ok].
Proof. vm_compute. reflexivity. Qed.

Definition status (e : host) (k : Z) : option (bool * bool) :=
  match snd (getOrCreateRegisteredData [k] e) with
  | inr d => Some (Staked d, Waiting d)
  | inl _ => None
  end.

(** The third key is in the queue, and takes the place of the first when it leaves. *)
Example promoted :
  let e := run queued1 (call "unStake" [1] [[50]; [150]]) in
  status queued1 52 = Some (false, true) /\ status e 52 = Some (true, false) /\
  status e 50 = Some (false, false).
Proof. vm_compute. done. Qed.

Lemma waiting_list_refines_queue_witness :
  exists e', foldM (fun _ o => runOp flags o) tt [QAdd [5] false; QAdd [6] true; QRemove [5]] start
    = (e', inr tt) /\ queueRep 1 e' [[6]] [].
Proof.
  destruct (waiting_list_refines_queue flags 1 start [] [] [QAdd [5] false; QAdd [6] true; QRemove [5]]
    recent ltac:(done) (r_queue _ _ _ _ _ start_rep)) as (e' & E1 & _ & Hq).
  - by repeat constructor.
  - simpl. unfold MaxUint32. lia.
  - exists e'. split; [exact E1|].
    assert (Hf : foldl absOp ([], []) [QAdd [5] false; QAdd [6] true; QRemove [5]] = ([[6]], []))
      by (vm_compute; reflexivity).
    rewrite Hf in Hq. apply Hq.
Defined.

Lemma stake_spec_witness :
  exists e' a', Execute sc flags (stakeCall 50) start = (e', Some Ok) /\ rep sc 1 hook0 e' a' /\
    Staked (aData a' [50]) = true /\ StakedNodes (aCfg a') = 1.
Proof.
  destruct (stake_spec sc flags 1 hook0 (stakeCall 50) start a0) as (e' & a' & He & Hr & Ha);
    try done; [apply start_rep|apply start_consistent|].
  exists e', a'. split; [done|]. split; [done|]. rewrite Ha. vm_compute. done.
Defined.

(** A key that is staked, or unstaked at nonce 1 with an unbond period of 2. *)
Definition data50 (staked : bool) : StakedDataV2_0 :=
  mkStaked 0 0 staked (if staked then 0 else 1) 0 [150] 100 0 0 0 false false 0 (Some 0) [200].
Definition sc2 : stakingSC := mkStakingSC 2 [1] [2] [3] 1 1 0 2 100 32 100.
Definition cfg50 (staked : bool) : StakingNodesConfig := mkConfig 0 2 (if staked then 1 else 0) 0.
Definition prepare (staked : bool) : SE host stErr unit :=
  saveStakingData flags [50] (data50 staked) ;; setConfig (cfg50 staked).
Definition prepared (staked : bool) : host := fst (prepare staked start).
Definition a50 (staked : bool) : aState :=
  aSetCfg (aSave (mkAState ([], []) (fun _ => emptyStaked) (baseConfig sc2)) [50] (data50 staked))
    (cfg50 staked).

Lemma prepared_rep staked : rep sc2 1 hook0 (prepared staked) (a50 staked).
Proof.
  assert (H0 : rep sc2 1 hook0 start (mkAState ([], []) (fun _ => emptyStaked) (baseConfig sc2))).
  { split; [| |done|done|done].
    - split; simpl; try done; try constructor.
    - intros k _. by apply regData_iff. }
  assert (Ht : twp sc2 1 hook0 (prepare staked) (fun _ a => a = a50 staked)
    (mkAState ([], []) (fun _ => emptyStaked) (baseConfig sc2))).
  { apply twp_bind, twp_save; try done. by apply twp_setConfig. }
  destruct (Ht start H0) as (e' & x & a' & E1 & Hr & ->). unfold prepared. by rewrite E1.
Qed.

Lemma prepared_consistent : consistent 1 false (a50 true).
Proof.
  apply (consistent_update 1 false (mkAState ([], []) (fun _ => emptyStaked) (cfg50 false)) [50]
    (data50 true) ([], []) (cfg50 true)); try done.
  - split; simpl; try done.
    + intros k _. split; [done|]. by intros ?%elem_of_nil.
    + exists ∅. split; [|done]. intros k. split; [by intros ?%elem_of_empty|]. by intros [_ ?].
  - simpl. split; [by intros ?%elem_of_nil|done].
Qed.

(** A key waits while staking V4 starts. *)
Definition flagsV4 : EpochFlags := mkFlags true true true true true true true true.
Definition dataW : StakedDataV2_0 := withWaiting (data50 false) true.
Definition waiting50 : host :=
  fst ((saveStakingData flags [50] dataW ;; addToWaitingList flags [50] false) start).
Definition aW : aState := aSetQ (aSave a0 [50] dataW) ([], [[50]]).

Example emptied50 :
  status waiting50 50 = Some (false, true) /\
  let e := fst (Execute sc flagsV4 (call "unStakeAllNodesFromQueue" [3] []) waiting50) in
  status e 50 = Some (false, false) /\ slot e waitingListHeadKey = [].
Proof. vm_compute. done. Qed.

Lemma waiting_rep : rep sc 1 hook0 waiting50 aW.
Proof.
  assert (Ht : twp sc 1 hook0 (saveStakingData flags [50] dataW ;; addToWaitingList flags [50] false)
    (fun _ a => a = aW) a0) by (apply twp_bind, twp_save; try done; by apply twp_add).
  destruct (Ht start start_rep) as (e' & x & a' & E1 & Hr & ->). unfold waiting50. by rewrite E1.
Qed.

Lemma waiting_consistent : consistent 1 false aW.
Proof.
  apply (consistent_update 1 false a0 [50] dataW ([], [[50]]) (aCfg a0) start_consistent); try done.
  - intros x Hx. simpl. rewrite list_elem_of_singleton. split; [done|]. by intros ?%elem_of_nil.
  - simpl. rewrite list_elem_of_singleton. done.
Qed.

Lemma merge_storage fl h parent rc :
  storageOf (properMergeContexts fl h parent rc) = storageOf h /\
  scAddress (ctx (properMergeContexts fl h parent rc)) = scAddress parent.
Proof.
  destruct (message_storage (withCtx h (fun c => setScAddress c (scAddress parent))) (returnMessage parent))
    as [H1 H2]. unfold properMergeContexts. by destruct (_ || _).
Qed.

Lemma contracts_keep self e0 : calleesKeep (E := host) self e0.
Proof.
  intros e owner keys e' _. unfold executeOnStakeAtEndOfEpoch. generalize (str "unStakeAtEndOfEpoch" ++
    flat_map (fun key => str "@" ++ hexEncode key) keys) as input. intros input.
  simpl. unfold ExecuteOnDestContext. simpl. unfold contracts.
  destruct (beq owner [200]); [|done]. destruct (beq input (str "_init")); [done|].
  intros [= <-]. split; [|done]. intros k. unfold slot. simpl. unfold hostGetStorage, GetStorageFromAddress.
  edestruct merge_storage as [-> ->]. done.
Qed.

Lemma staking_consistency_witness :
  (snd (Execute sc flags (stakeCall 50) start) = Some Ok /\
   exists a', rep sc 1 hook0 (run start (stakeCall 50)) a' /\ consistent 1 false a') /\
  let c := call "unStakeAllNodesFromQueue" [3] [] in
  snd (Execute sc flagsV4 c waiting50) = Some Ok /\
  exists a', rep sc 1 hook0 (fst (Execute sc flagsV4 c waiting50)) a' /\ consistent 1 true a'.
Proof.
  split.
  - assert (Hok : snd (Execute sc flags (stakeCall 50) start) = Some Ok) by (vm_compute; reflexivity).
    split; [done|].
    apply (staking_consistency sc flags 1 hook0 (stakeCall 50) start a0); try done.
    + apply start_rep.
    + apply start_consistent.
    + by constructor.
  - intros c. assert (Hok : snd (Execute sc flagsV4 c waiting50) = Some Ok) by (vm_compute; reflexivity).
    split; [done|].
    apply (staking_consistency sc flagsV4 1 hook0 c waiting50 aW); try done.
    + apply waiting_rep.
    + apply waiting_consistent.
    + split; [done|]. split; [done|]. intros _. apply contracts_keep.
Defined.

Lemma unStake_spec_witness :
  let c := call "unStake" [1] [[50]; [150]] in
  snd (Execute sc2 flags c (prepared true)) = Some Ok /\
  exists a', rep sc2 1 hook0 (fst (Execute sc2 flags c (prepared true))) a' /\
    Staked (aData a' [50]) = false /\ StakedNodes (aCfg a') = 0.
Proof.
  intros c. assert (Hok : snd (Execute sc2 flags c (prepared true)) = Some Ok) by (vm_compute; reflexivity).
  split; [done|].
  assert (Hroom : room (a50 true)) by by vm_compute.
  destruct (unStake_spec sc2 flags 1 hook0 c (prepared true) (a50 true) recent eq_refl ltac:(done)
    (prepared_rep true) prepared_consistent Hroom eq_refl ltac:(done) (key_ok 50) Hok)
    as (a' & Hr & _ & Ha).
  exists a'. split; [done|]. destruct Ha as [_ ->]. by vm_compute.
Defined.

Lemma unBond_spec_witness :
  let c := call "unBond" [1] [[50]] in
  snd (Execute sc2 flags c (prepared false)) = Some Ok /\
  rep sc2 1 hook0 (fst (Execute sc2 flags c (prepared false))) (aSave (a50 false) [50] emptyStaked).
Proof.
  intros c. assert (Hok : snd (Execute sc2 flags c (prepared false)) = Some Ok) by (vm_compute; reflexivity).
  split; [done|].
  apply (unBond_spec sc2 flags 1 hook0 c (prepared false) (a50 false) recent ltac:(done)
    (prepared_rep false) eq_refl ltac:(done) (key_ok 50) Hok).
Defined.

Lemma outsiders_change_nothing_witness :
  slot (fst (Execute sc flags (call "jail" [7] [[50]]) (prepared true))) [50] = slot (prepared true) [50].
Proof. by apply (outsiders_change_nothing sc flags (call "jail" [7] [[50]]) (prepared true) [50]). Defined.
End StakingInstances.
