(* ===== verification/Shuffler.v ===== *)
(** * The validators shuffler: sharding/nodesCoordinator/hashValidatorShuffler.go
    and validatorDistributor.go.

    A map from shards to lists of validators is a [gmap]; a missing shard reads as
    the empty list, as a nil slice does.  A loop over the shards of a map whose
    iterations touch different shards is written as a loop over the sorted shards. *)

From stdpp Require Import base list gmap sets sorting.
From Stdlib Require Import ZArith Lia.
From S2P Require Import Prelude.

Record Validator := mkValidator { PubKey : bytes; Chances : Z; Index : Z }.

#[global] Instance Validator_eq_dec : EqDecision Validator.
Proof. solve_decision. Defined.

Abbreviation vmap := (gmap Z (list Validator)).

(** [m[shard]] *)
Definition listOf (m : vmap) (shard : Z) : list Validator := default [] (m !! shard).

Definition lenZ {A} (l : list A) : Z := Z.of_nat (length l).

(** The errors, and a run-time panic. *)
Inductive shufErr :=
| ErrSmallShardEligibleListSize (shard : Z)
| ErrNilOrEmptyDestinationForDistribute
| ErrReceivedNewListNodeInStakingV4
| ShufPanic.

Record MaxNodesChangeConfig := mkMaxNodes {
  EpochEnable : Z;
  MaxNumNodes : Z;
  NodesToShufflePerShard : Z;
}.

(** The distributor: CrossShardValidatorDistributor or IntraShardValidatorDistributor. *)
Inductive ValidatorsDistributor := CrossShard | IntraShard.

Record shuffleNodesArg := mkShuffleNodesArg {
  eligible : vmap;
  waiting : vmap;
  unstakeLeaving : list Validator;
  additionalLeaving : list Validator;
  newNodes : list Validator;
  auction : list Validator;
  randomness : bytes;
  distributor : ValidatorsDistributor;
  nodesMeta : Z;
  nodesPerShard : Z;
  nbShards : Z;
  maxNodesToSwapPerShard : Z;
  maxNumNodes : Z;
  flagBalanceWaitingLists : bool;
  flagStakingV4Step2 : bool;
  flagStakingV4Step3 : bool;
  flagCleanupAuctionOnLowWaitingList : bool;
}.

Record shuffledNodesConfig := mkShuffledNodesConfig {
  numShuffled : Z;
  numNewEligible : Z;
  numNewWaiting : Z;
  numSelectedAuction : Z;
  cfgMaxNumNodes : Z;
  cfgStakingV4Step2 : bool;
}.

Record ResUpdateNodes := mkResUpdateNodes {
  rEligible : vmap;
  rWaiting : vmap;
  rShuffledOut : vmap;
  rLeaving : list Validator;
  rStillRemaining : list Validator;
  rLowWaitingList : bool;
}.

(** ** The order of strings, byte by byte *)

Fixpoint bytesLe (a b : bytes) : bool :=
  match a, b with
  | [], _ => true
  | _ :: _, [] => false
  | x :: a', y :: b' => (x <? y) || ((x =? y) && bytesLe a' b')
  end.

Definition bytesOrder (a b : bytes) : Prop := bytesLe a b = true.

#[global] Instance bytesOrder_dec : RelDecision bytesOrder.
Proof. intros a b. unfold bytesOrder. apply _. Defined.

(** ** Lists *)

(** Attention: the last element takes the place of the one removed. *)
Definition removeValidatorFromList (validatorList : list Validator) (index : Z) : list Validator :=
  if (lenZ validatorList - 1 <? index) || (index <? 0) then validatorList
  else
    take (length validatorList - 1)
      (match last validatorList with
       | Some v => <[Z.to_nat index := v]> validatorList
       | None => validatorList
       end).

(** The search from the end of the list for a key: the position, and the validator. *)
Fixpoint searchBack (l : list Validator) (key : bytes) (i : nat) : option (nat * Validator) :=
  match i with
  | O => None
  | S i' =>
      match l !! i' with
      | Some val => if beq (PubKey val) key then Some (i', val) else searchBack l key i'
      | None => searchBack l key i'
      end
  end.

Fixpoint removeLoop (resultedList removed : list Validator) (validatorsToRemove : list Validator)
  (maxToRemove : Z) : list Validator * list Validator :=
  match validatorsToRemove with
  | [] => (resultedList, removed)
  | valToRemove :: rest =>
      if lenZ removed =? maxToRemove then (resultedList, removed)
      else
        match searchBack resultedList (PubKey valToRemove) (length resultedList) with
        | Some (i, val) =>
            removeLoop (removeValidatorFromList resultedList (Z.of_nat i)) (removed ++ [val]) rest
              maxToRemove
        | None => removeLoop resultedList removed rest maxToRemove
        end
  end.

Definition removeValidatorsFromList (validatorList validatorsToRemove : list Validator)
  (maxToRemove : Z) : list Validator * list Validator :=
  removeLoop validatorList [] validatorsToRemove maxToRemove.

(** The inner loop of removeDupplicates, over the positions below [i]. *)
Fixpoint removeKeyBack (l : list Validator) (key : bytes) (i : nat) : list Validator :=
  match i with
  | O => l
  | S i' =>
      match l !! i' with
      | Some v =>
          removeKeyBack (if beq key (PubKey v) then removeValidatorFromList l (Z.of_nat i') else l) key i'
      | None => removeKeyBack l key i'
      end
  end.

Definition removeDupplicates (unstake additionalLeaving : list Validator) : list Validator :=
  fold_left (fun additionalCopy v => removeKeyBack additionalCopy (PubKey v) (length additionalCopy))
    unstake additionalLeaving.

(** ** Maps of lists *)

Definition sortKeys (nodes : vmap) : list Z := merge_sort Z.le (elements (dom nodes)).

Definition createListsForAllShards (MetachainShardId : Z) (shardMap : vmap) (shards : Z) : vmap :=
  fold_left (fun m shardId => match m !! shardId with None => <[shardId := []]> m | Some _ => m end)
    (seqZ 0 shards ++ [MetachainShardId]) shardMap.

Definition getNumPubKeys (m : vmap) : Z := map_fold (fun _ l n => u32 (n + u32 (lenZ l))) 0 m.

Definition getMaxListSize (lists : vmap) : Z :=
  map_fold (fun _ l maxSize => if maxSize <? lenZ l then lenZ l else maxSize) 0 lists.

(** Whether a list of the map has the key (indexHashedNodesCoordinator.go). *)
Definition searchInMap (m : vmap) (key : bytes) : bool :=
  existsb (fun '(_, l) => existsb (fun v => beq (PubKey v) key) l) (map_to_list m).

Definition computeNeededNodes (destination source : list Validator) (maxNodes : Z) : Z :=
  let numCurrentNodes := u32 (lenZ destination) in
  let numSourceNodes := u32 (lenZ source) in
  let numNeededNodes := if numCurrentNodes <? maxNodes then u32 (maxNodes - numCurrentNodes) else 0 in
  if numSourceNodes <? numNeededNodes then numSourceNodes else numNeededNodes.

(** The number of nodes of a shard. *)
Definition shardSize (MetachainShardId numMeta numShard shardId : Z) : Z :=
  if shardId =? MetachainShardId then numMeta else numShard.

(** The maps after the moves: the destination and the source. *)
Definition moveMaxNumNodesToMap (MetachainShardId : Z) (destination source : vmap) (numMeta numShard : Z)
  : vmap * vmap :=
  fold_left (fun '(destination, source) shardId =>
    let validators := listOf source shardId in
    let numNeededNodes := Z.to_nat (computeNeededNodes (listOf destination shardId) validators
      (shardSize MetachainShardId numMeta numShard shardId)) in
    (<[shardId := listOf destination shardId ++ take numNeededNodes validators]> destination,
     <[shardId := drop numNeededNodes validators]> source))
    (sortKeys source) (destination, source).

Definition moveNodesToMap (destination source : vmap) : vmap * vmap :=
  fold_left (fun '(destination, source) shardId =>
    (<[shardId := listOf destination shardId ++ listOf source shardId]> destination,
     <[shardId := []]> source))
    (sortKeys source) (destination, source).

(** ** Leaving nodes *)

Definition removeNodesFromShard (existingNodes : vmap) (leavingNodes : list Validator) (shard nbToRemove : Z)
  : vmap * list Validator * Z :=
  let nbToRemove := if lenZ leavingNodes <? nbToRemove then lenZ leavingNodes else nbToRemove in
  let (vList, removedNodes) := removeValidatorsFromList (listOf existingNodes shard) leavingNodes nbToRemove in
  let (leavingNodes, _) := removeValidatorsFromList leavingNodes removedNodes (lenZ removedNodes) in
  (<[shard := vList]> existingNodes, leavingNodes, lenZ removedNodes).

Abbreviation counts := (gmap Z Z).
Definition countOf (m : counts) (shard : Z) : Z := default 0 (m !! shard).

(** The map of nodes, the leaving nodes that are left and the numbers left to
    remove. *)
Definition removeNodesFromMap (existingNodes : vmap) (leavingNodes : list Validator) (numToRemove : counts)
  : vmap * list Validator * counts :=
  fold_left (fun '(existingNodes, leavingNodes, numToRemove) shardId =>
    let '(existingNodes, leavingNodes, numRemoved) :=
      removeNodesFromShard existingNodes leavingNodes shardId (countOf numToRemove shardId) in
    (existingNodes, leavingNodes, <[shardId := countOf numToRemove shardId - numRemoved]> numToRemove))
    (sortKeys existingNodes) (existingNodes, leavingNodes, numToRemove).

Definition removeLeavingNodesNotExistingInEligibleOrWaiting (leavingValidators : list Validator)
  (waiting eligible : vmap) : list Validator * list Validator :=
  let notFoundValidators := filter (fun v =>
    searchInMap waiting (PubKey v) = false /\ searchInMap eligible (PubKey v) = false) leavingValidators in
  removeValidatorsFromList leavingValidators notFoundValidators (lenZ notFoundValidators).

(** The waiting nodes leave first, then the eligible ones. *)
Definition removeLeavingNodesFromValidatorMaps (eligible waiting : vmap) (numToRemove : counts)
  (leaving : list Validator) : vmap * vmap * list Validator * counts :=
  let '(newWaiting, stillRemaining, numToRemove) := removeNodesFromMap waiting leaving numToRemove in
  let '(newEligible, stillRemaining, numToRemove) := removeNodesFromMap eligible stillRemaining numToRemove in
  (newEligible, newWaiting, stillRemaining, numToRemove).

Definition computeNumToRemovePerShard (numEligible numWaiting nodesPerShard shard : Z) : shufErr + Z :=
  if numEligible + numWaiting <? nodesPerShard then inl (ErrSmallShardEligibleListSize shard)
  else inr (numEligible + numWaiting - nodesPerShard).

Section Shuffler.
(** The hash function of mx-chain-core-go (sha256) and the identifier of the
    metachain. *)
Variable sha256 : bytes -> bytes.
Variable MetachainShardId : Z.

Fixpoint numToRemoveLoop (arg : shuffleNodesArg) (shards : list Z) (numToRemove : counts)
  : shufErr + counts :=
  match shards with
  | [] => inr numToRemove
  | shardId :: shards =>
      let? maxToRemove := computeNumToRemovePerShard (lenZ (listOf (eligible arg) shardId))
        (lenZ (listOf (waiting arg) shardId))
        (shardSize MetachainShardId (nodesMeta arg) (nodesPerShard arg) shardId) shardId in
      numToRemoveLoop arg shards (<[shardId := maxToRemove]> numToRemove)
  end.

Definition computeNumToRemove (arg : shuffleNodesArg) : shufErr + counts :=
  if nbShards arg =? 0 then inr ∅
  else numToRemoveLoop arg (seqZ 0 (nbShards arg) ++ [MetachainShardId]) ∅.

(** ** Shuffling *)

Definition hashOf (randomness : bytes) (v : Validator) : bytes := sha256 (PubKey v ++ randomness).

(** A validator whose hash is that of a later one is replaced by it. *)
Definition shuffleList (validators : list Validator) (randomness : bytes) : list Validator :=
  let keys := map (hashOf randomness) validators in
  let mapValidators : gmap bytes Validator :=
    fold_left (fun m v => <[hashOf randomness v := v]> m) validators ∅ in
  omap (fun k => mapValidators !! k) (merge_sort bytesOrder keys).

Definition shuffleOutShard (validators : list Validator) (validatorsToSelect : Z) (randomness : bytes)
  : shufErr + (list Validator * list Validator) :=
  let validatorsToSelect :=
    if lenZ validators <? validatorsToSelect then lenZ validators else validatorsToSelect in
  if validatorsToSelect <? 0 then inl ShufPanic
  else
    let shardShuffledEligible := shuffleList validators randomness in
    inr (take (Z.to_nat validatorsToSelect) shardShuffledEligible,
         drop (Z.to_nat validatorsToSelect) shardShuffledEligible).

Fixpoint shuffleOutLoop (eligible : vmap) (numToShuffle : counts) (randomness : bytes) (shards : list Z)
  (shuffledOutMap newEligible : vmap) : shufErr + (vmap * vmap) :=
  match shards with
  | [] => inr (shuffledOutMap, newEligible)
  | shardId :: shards =>
      let? (shardShuffledOut, validators) :=
        shuffleOutShard (listOf eligible shardId) (countOf numToShuffle shardId) randomness in
      shuffleOutLoop eligible numToShuffle randomness shards
        (<[shardId := shardShuffledOut]> shuffledOutMap)
        (<[shardId := fst (removeValidatorsFromList validators shardShuffledOut (lenZ shardShuffledOut))]>
           newEligible)
  end.

Definition shuffleOutNodes (eligible : vmap) (numToShuffle : counts) (randomness : bytes)
  : shufErr + (vmap * vmap) :=
  shuffleOutLoop eligible numToShuffle randomness (sortKeys eligible) ∅ ∅.

(** ** Distribution *)

(** The loop of equalizeValidatorsLists: the lists, the index and the number of
    validators left. *)
Definition equalizeStep (validators : list Validator) (maxListSize : Z)
  (st : vmap * Z * Z) (shardID : Z) : vmap * Z * Z :=
  let '(destLists, indexValidators, remainingValidatorsNumber) := st in
  let shardList := listOf destLists shardID in
  if lenZ shardList <? maxListSize then
    let toMove := maxListSize - lenZ shardList in
    let toMove := if remainingValidatorsNumber <? toMove then remainingValidatorsNumber else toMove in
    (<[shardID := shardList ++ take (Z.to_nat toMove) (drop (Z.to_nat indexValidators) validators)]> destLists,
     indexValidators + toMove, remainingValidatorsNumber - toMove)
  else st.

Definition equalizeValidatorsLists (destLists : vmap) (validators : list Validator)
  : vmap * list Validator :=
  let '(destLists, indexValidators, remaining) :=
    fold_left (equalizeStep validators (getMaxListSize destLists)) (sortKeys destLists)
      (destLists, 0, lenZ validators) in
  (destLists, take (Z.to_nat remaining) (drop (Z.to_nat indexValidators) validators)).

Fixpoint dealLoop (destLists : vmap) (sortedShardIds : list Z) (i : Z) (validators : list Validator) : vmap :=
  match validators with
  | [] => destLists
  | v :: validators =>
      let shardId := default 0 (sortedShardIds !! Z.to_nat (u32 i mod u32 (lenZ sortedShardIds))) in
      dealLoop (<[shardId := listOf destLists shardId ++ [v]]> destLists) sortedShardIds (i + 1) validators
  end.

Definition distributeValidators (destLists : vmap) (validators : list Validator) (randomness : bytes)
  (balanced : bool) : shufErr + vmap :=
  if (size destLists =? 0)%nat then inl ErrNilOrEmptyDestinationForDistribute
  else
    let shuffledValidators := shuffleList validators randomness in
    let sortedShardIds := sortKeys destLists in
    let (destLists, shuffledValidators) :=
      if balanced then equalizeValidatorsLists destLists shuffledValidators
      else (destLists, shuffledValidators) in
    inr (dealLoop destLists sortedShardIds 0 shuffledValidators).

Definition checkAndDistributeNewNodes (waiting : vmap) (newNodes : list Validator) (randomness : bytes)
  (flagStakingV4Step3 : bool) : shufErr + vmap :=
  if negb flagStakingV4Step3 then distributeValidators waiting newNodes randomness false
  else if 0 <? lenZ newNodes then inl ErrReceivedNewListNodeInStakingV4
  else inr waiting.

(** All the validators of a map; the program meets the shards in any order. *)
Definition allOf (m : vmap) : list Validator := concat (map snd (map_to_list m)).

(** DistributeValidators: the destination and the source after the call. *)
Definition DistributeValidators (d : ValidatorsDistributor) (destination source : vmap) (rand : bytes)
  (balanced : bool) : shufErr + (vmap * vmap) :=
  match d with
  | IntraShard => inr (moveNodesToMap destination source)
  | CrossShard =>
      let? destination := distributeValidators destination (allOf source) rand balanced in
      inr (destination, source)
  end.

Definition shouldDistributeShuffledToWaitingInStakingV4 (cfg : shuffledNodesConfig) : bool :=
  if negb (cfgStakingV4Step2 cfg) then false
  else
    let totalNewWaiting := u32 (numNewWaiting cfg + numSelectedAuction cfg) in
    let totalNodes := u32 (u32 (totalNewWaiting + numNewEligible cfg) + numShuffled cfg) in
    totalNodes <=? cfgMaxNumNodes cfg.

(** ** shuffleNodes *)

Definition capNumToRemove (maxNodesToSwap : Z) (numToRemove : counts) : counts :=
  (fun toRemove => if maxNodesToSwap <? toRemove then maxNodesToSwap else toRemove) <$> numToRemove.

(** The part of shuffleNodes up to the move of waiting nodes to the eligible lists:
    the new eligible and waiting nodes, the shuffled out nodes and the leaving
    nodes that remain. *)
Definition selectNodes (arg : shuffleNodesArg) : shufErr + (vmap * vmap * vmap * list Validator) :=
  let waitingCopy := createListsForAllShards MetachainShardId (waiting arg) (nbShards arg) in
  let eligibleCopy := eligible arg in
  let? numToRemove := computeNumToRemove arg in
  let numToRemove := capNumToRemove (maxNodesToSwapPerShard arg) numToRemove in
  let (remainingUnstakeLeaving, _) := removeLeavingNodesNotExistingInEligibleOrWaiting
    (unstakeLeaving arg) waitingCopy eligibleCopy in
  let (remainingAdditionalLeaving, _) := removeLeavingNodesNotExistingInEligibleOrWaiting
    (additionalLeaving arg) waitingCopy eligibleCopy in
  let '(newEligible, newWaiting, stillRemainingUnstakeLeaving, numToRemove) :=
    removeLeavingNodesFromValidatorMaps eligibleCopy waitingCopy numToRemove remainingUnstakeLeaving in
  let '(newEligible, newWaiting, stillRemainingAdditionalLeaving, numToRemove) :=
    removeLeavingNodesFromValidatorMaps newEligible newWaiting numToRemove remainingAdditionalLeaving in
  let stillRemainingInLeaving := stillRemainingUnstakeLeaving ++ stillRemainingAdditionalLeaving in
  let? (shuffledOutMap, newEligible) := shuffleOutNodes newEligible numToRemove (randomness arg) in
  let (newEligible, newWaiting) :=
    moveMaxNumNodesToMap MetachainShardId newEligible newWaiting (nodesMeta arg) (nodesPerShard arg) in
  inr (newEligible, newWaiting, shuffledOutMap, stillRemainingInLeaving).

Definition shuffleNodes (arg : shuffleNodesArg) : shufErr + ResUpdateNodes :=
  let allLeaving := unstakeLeaving arg ++ additionalLeaving arg in
  let? (newEligible, newWaiting, shuffledOutMap, stillRemainingInLeaving) := selectNodes arg in
  let? newWaiting := checkAndDistributeNewNodes newWaiting (newNodes arg) (randomness arg)
    (flagStakingV4Step3 arg) in
  let shuffledNodesCfg := mkShuffledNodesConfig (getNumPubKeys shuffledOutMap) (getNumPubKeys newEligible)
    (getNumPubKeys newWaiting) (u32 (lenZ (auction arg))) (maxNumNodes arg) (flagStakingV4Step2 arg) in
  let lowWaitingList := shouldDistributeShuffledToWaitingInStakingV4 shuffledNodesCfg in
  let? newWaiting :=
    (if flagStakingV4Step3 arg || lowWaitingList then
       distributeValidators newWaiting (auction arg) (randomness arg) (flagBalanceWaitingLists arg)
     else inr newWaiting) in
  let? (newWaiting, shuffledOutMap) :=
    (if negb (flagStakingV4Step2 arg) || lowWaitingList then
       DistributeValidators (distributor arg) newWaiting shuffledOutMap (randomness arg)
         (flagBalanceWaitingLists arg)
     else inr (newWaiting, shuffledOutMap)) in
  let (actualLeaving, _) := removeValidatorsFromList allLeaving stillRemainingInLeaving
    (lenZ stillRemainingInLeaving) in
  let shouldCleanupAuction := flagCleanupAuctionOnLowWaitingList arg && lowWaitingList in
  inr (mkResUpdateNodes newEligible newWaiting shuffledOutMap actualLeaving stillRemainingInLeaving
    shouldCleanupAuction).

(** ** The shuffler object *)

Record randHashShuffler := mkShuffler {
  shuffleBetweenShards : bool;
  adaptivity : bool;
  nodesShard : Z;
  rhsNodesMeta : Z;
  shardHysteresis : Z;
  metaHysteresis : Z;
  activeNodesConfig : MaxNodesChangeConfig;
  availableNodesConfigs : list MaxNodesChangeConfig;
  validatorDistributor : ValidatorsDistributor;
  stakingV4Step2EnableEpoch : Z;
  rhsStakingV4Step2 : bool;
  stakingV4Step3EnableEpoch : Z;
  rhsStakingV4Step3 : bool;
}.

(** By increasing epoch; the configurations have different epochs. *)
Definition epochOrder (a b : MaxNodesChangeConfig) : Prop := EpochEnable a <= EpochEnable b.

#[global] Instance epochOrder_dec : RelDecision epochOrder.
Proof. intros a b. unfold epochOrder. apply _. Defined.

Definition sortConfigs (configs : list MaxNodesChangeConfig) : list MaxNodesChangeConfig :=
  merge_sort epochOrder configs.

(** [times hysteresis n] is uint32(float32(n) * hysteresis). *)
Definition UpdateParams {float32 : Type} (times : float32 -> Z -> Z) (rhs : randHashShuffler)
  (nodesShard nodesMeta : Z) (hysteresis : float32) (adaptivity : bool) : randHashShuffler :=
  mkShuffler (shuffleBetweenShards rhs) adaptivity nodesShard nodesMeta (times hysteresis nodesShard)
    (times hysteresis nodesMeta) (activeNodesConfig rhs) (availableNodesConfigs rhs)
    (validatorDistributor rhs) (stakingV4Step2EnableEpoch rhs) (rhsStakingV4Step2 rhs)
    (stakingV4Step3EnableEpoch rhs) (rhsStakingV4Step3 rhs).

Record NodesShufflerArgs (float32 : Type) := mkNodesShufflerArgs {
  NodesShard : Z;
  NodesMeta : Z;
  Hysteresis : float32;
  Adaptivity : bool;
  ShuffleBetweenShards : bool;
  MaxNodesEnableConfig : list MaxNodesChangeConfig;
  StakingV4Step2EnableEpoch : Z;
  StakingV4Step3EnableEpoch : Z;
}.

(** The arguments are given and the handler is compatible. *)
Definition NewHashValidatorsShuffler {float32 : Type} (times : float32 -> Z -> Z)
  (args : NodesShufflerArgs float32) : randHashShuffler :=
  let rxs := mkShuffler (ShuffleBetweenShards _ args) false 0 0 0 0 (mkMaxNodes 0 0 0)
    (sortConfigs (MaxNodesEnableConfig _ args))
    (if ShuffleBetweenShards _ args then CrossShard else IntraShard)
    (StakingV4Step2EnableEpoch _ args) false (StakingV4Step3EnableEpoch _ args) false in
  UpdateParams times rxs (NodesShard _ args) (NodesMeta _ args) (Hysteresis _ args) (Adaptivity _ args).

(** The flags of the enable-epochs handler, in the epoch of the call. *)
Record ShufflerFlags := mkShufflerFlags {
  BalanceWaitingListsFlag : bool;
  CleanupAuctionOnLowWaitingListFlag : bool;
}.

Record ArgsUpdateNodes := mkArgsUpdateNodes {
  uEligible : vmap;
  uWaiting : vmap;
  uNewNodes : list Validator;
  uUnStakeLeaving : list Validator;
  uAdditionalLeaving : list Validator;
  uAuction : list Validator;
  uRand : bytes;
  uNbShards : Z;
  uEpoch : Z;
}.

Definition updateShufflerConfig (rhs : randHashShuffler) (epoch : Z) : randHashShuffler :=
  let active := mkMaxNodes (EpochEnable (activeNodesConfig rhs)) (MaxNumNodes (activeNodesConfig rhs))
    (nodesShard rhs) in
  let active := fold_left (fun active c => if EpochEnable c <=? epoch then c else active)
    (availableNodesConfigs rhs) active in
  mkShuffler (shuffleBetweenShards rhs) (adaptivity rhs) (nodesShard rhs) (rhsNodesMeta rhs) (shardHysteresis rhs)
    (metaHysteresis rhs) active (availableNodesConfigs rhs) (validatorDistributor rhs)
    (stakingV4Step2EnableEpoch rhs) (stakingV4Step2EnableEpoch rhs <=? epoch)
    (stakingV4Step3EnableEpoch rhs) (stakingV4Step3EnableEpoch rhs <=? epoch).

(** The new number of shards; the division by a shard size of zero panics. *)
Definition computeNewShards (rhs : randHashShuffler) (eligible waiting : vmap) (numNewNodes numLeavingNodes : Z)
  (nbShards : Z) : shufErr + Z :=
  let nbEligible := map_fold (fun shard l n => n + lenZ l) 0 eligible in
  let nbWaiting := map_fold (fun shard _ n => n + lenZ (listOf waiting shard)) 0 eligible in
  let nodesNewEpoch := u32 (nbEligible + nbWaiting + numNewNodes - numLeavingNodes) in
  let maxNodesMeta := u32 (rhsNodesMeta rhs + metaHysteresis rhs) in
  let maxNodesShard := u32 (nodesShard rhs + shardHysteresis rhs) in
  let nodesForSplit := u32 (u32 (u32 (nbShards + 1) * maxNodesShard) + maxNodesMeta) in
  let nodesForMerge := u32 (u32 (nbShards * nodesShard rhs) + rhsNodesMeta rhs) in
  if nodesForSplit <? nodesNewEpoch then
    if maxNodesShard =? 0 then inl ShufPanic
    else inr (u32 (nodesNewEpoch - maxNodesMeta) / maxNodesShard)
  else if nodesNewEpoch <? nodesForMerge then inr (u32 (nbShards - 1))
  else inr nbShards.

(** They are not implemented: they log the error and copy the maps. *)
Definition splitShards (eligible waiting : vmap) (newNbShards : Z) : vmap * vmap := (eligible, waiting).
Definition mergeShards (eligible waiting : vmap) (newNbShards : Z) : vmap * vmap := (eligible, waiting).

Definition UpdateNodeLists (rhs : randHashShuffler) (flags : ShufflerFlags) (args : ArgsUpdateNodes)
  : randHashShuffler * (shufErr + ResUpdateNodes) :=
  let rhs := updateShufflerConfig rhs (uEpoch args) in
  let additional := removeDupplicates (uUnStakeLeaving args) (uAdditionalLeaving args) in
  let totalLeavingNum := lenZ additional + lenZ (uUnStakeLeaving args) in
  (rhs,
   let? newNbShards := computeNewShards rhs (uEligible args) (uWaiting args) (lenZ (uNewNodes args))
     totalLeavingNum (uNbShards args) in
   let canSplit := adaptivity rhs && (uNbShards args <? newNbShards) in
   let canMerge := adaptivity rhs && (newNbShards <? uNbShards args) in
   let (eligibleAfterReshard, waitingAfterReshard) :=
     if canMerge then mergeShards (uEligible args) (uWaiting args) newNbShards
     else if canSplit then splitShards (uEligible args) (uWaiting args) newNbShards
     else (uEligible args, uWaiting args) in
   shuffleNodes (mkShuffleNodesArg eligibleAfterReshard waitingAfterReshard (uUnStakeLeaving args) additional
     (uNewNodes args) (uAuction args) (uRand args) (validatorDistributor rhs) (rhsNodesMeta rhs)
     (nodesShard rhs) (uNbShards args) (NodesToShufflePerShard (activeNodesConfig rhs))
     (MaxNumNodes (activeNodesConfig rhs)) (BalanceWaitingListsFlag flags) (rhsStakingV4Step2 rhs)
     (rhsStakingV4Step3 rhs) (CleanupAuctionOnLowWaitingListFlag flags))).
End Shuffler.
