(* ===== verification/ShufflerSpec.v ===== *)
(** * The lists and maps of the shuffler as collections of validators: what each
    operation keeps, removes and adds. *)

From stdpp Require Import base list gmap sets sorting.
From Stdlib Require Import ZArith Lia.
From S2P Require Import Prelude Shuffler.

Notation keys := (map PubKey).

(** ** Lists *)

Lemma removeValidatorFromList_perm l i v :
  l !! i = Some v -> l ≡ₚ v :: removeValidatorFromList l (Z.of_nat i).
Proof.
  intros Hi. pose proof (lookup_lt_Some _ _ _ Hi) as Hlt.
  destruct (snoc_case l) as (l' & z & ->); [by intros ->|].
  rewrite length_app in Hlt. simpl in Hlt.
  unfold removeValidatorFromList, lenZ. rewrite length_app. simpl length.
  rewrite (proj2 (Z.ltb_ge _ _)) by lia. rewrite (proj2 (Z.ltb_ge _ _)) by lia. simpl orb. cbv iota.
  rewrite last_snoc, Nat2Z.id. replace (length l' + 1 - 1)%nat with (length l') by lia.
  destruct (decide (i = length l')) as [->|Hne].
  - rewrite list_lookup_middle in Hi by done. injection Hi as ->.
    rewrite insert_app_r_alt by lia. rewrite take_app_le by lia. rewrite take_ge by lia.
    by rewrite Permutation_app_comm.
  - rewrite lookup_app_l in Hi by lia. rewrite insert_app_l by lia.
    rewrite take_app_le by (rewrite length_insert; lia). rewrite take_ge by (rewrite length_insert; lia).
    apply list_elem_of_split_length in Hi as (a & b & -> & Ha). subst i.
    rewrite insert_app_r_alt, Nat.sub_diag by lia. rewrite <- app_assoc. simpl.
    rewrite <- Permutation_middle. apply Permutation_skip. 
    rewrite (Permutation_app_comm b [z]). simpl. by rewrite <- Permutation_middle.
Qed.

Lemma searchBack_Some l key i j v :
  searchBack l key i = Some (j, v) -> l !! j = Some v /\ PubKey v = key.
Proof.
  induction i as [|i IH]; simpl; [done|]. destruct (l !! i) as [w|] eqn:E; [|done].
  destruct (beq (PubKey w) key) eqn:Eb; [|done]. intros [= <- <-]. split; [done|]. by apply beq_true.
Qed.

Lemma searchBack_None l key i : searchBack l key i = None ->
  forall j v, (j < i)%nat -> l !! j = Some v -> PubKey v <> key.
Proof.
  induction i as [|i IH]; simpl; [intros _ j v Hj; lia|]. intros Hs j v Hj Hv.
  destruct (decide (j = i)) as [->|Hne].
  - rewrite Hv in Hs. destruct (beq _ _) eqn:Eb; [done|]. by apply beq_false.
  - assert (Hs' : searchBack l key i = None) by (destruct (l !! i); [by destruct (beq _ _)|done]).
    apply (IH Hs' j v); [lia|done].
Qed.

Lemma searchBack_absent l key : searchBack l key (length l) = None <-> key ∉ keys l.
Proof.
  split.
  - intros Hs Hin. apply list_elem_of_fmap in Hin as (v & -> & Hv).
    apply list_elem_of_lookup in Hv as [j Hj].
    apply (searchBack_None _ _ _ Hs j v); [by apply lookup_lt_Some in Hj|done|done].
  - intros Hn. destruct (searchBack l key (length l)) as [[j v]|] eqn:Es; [|done].
    apply searchBack_Some in Es as [Hj <-]. exfalso. apply Hn. apply list_elem_of_fmap.
    exists v. split; [done|]. by apply list_elem_of_lookup_2 in Hj.
Qed.

(** What removeValidatorsFromList removes. *)
Lemma removeLoop_spec to : forall l rem max l' rem',
  removeLoop l rem to max = (l', rem') ->
  exists r, rem' = rem ++ r /\ l ≡ₚ l' ++ r /\ keys r `sublist_of` keys to /\
    (lenZ rem <= max -> lenZ rem' <= max).
Proof.
  induction to as [|t to IH]; intros l rem max l' rem'; simpl.
  - intros [= -> ->]. exists []. rewrite !app_nil_r. repeat split; auto.
  - destruct (lenZ rem =? max) eqn:Emax.
    + intros [= -> ->]. exists []. rewrite !app_nil_r. repeat split; auto. apply sublist_nil_l.
    + apply Z.eqb_neq in Emax. destruct (searchBack _ _ _) as [[i v]|] eqn:Es.
      * intros Hr. apply IH in Hr as (r & -> & Hp & Hsub & Hmax).
        apply searchBack_Some in Es as [Hi Hk]. exists (v :: r). split; [by rewrite <- app_assoc|].
        split; [|split].
        -- rewrite (removeValidatorFromList_perm _ _ _ Hi), Hp. by rewrite Permutation_middle.
        -- simpl. rewrite Hk. by apply sublist_skip.
        -- intros Hle. apply Hmax. unfold lenZ in *. rewrite length_app. simpl. lia.
      * intros Hr. apply IH in Hr as (r & -> & Hp & Hsub & Hmax). exists r.
        repeat split; auto. simpl. by apply sublist_cons.
Qed.

(** Nothing is removed when no key matches. *)
Lemma removeLoop_none to : forall l rem max,
  (forall k, k ∈ keys to -> k ∉ keys l) -> removeLoop l rem to max = (l, rem).
Proof.
  induction to as [|t to IH]; intros l rem max Hn; simpl; [done|].
  destruct (_ =? _); [done|]. rewrite (proj2 (searchBack_absent l (PubKey t))).
  - apply IH. intros k Hk. apply Hn. simpl. by right.
  - apply Hn. simpl. left.
Qed.

(** Everything is removed when every key is there. *)
Lemma removeLoop_all to : forall l rem max rest,
  keys l ≡ₚ keys to ++ rest -> lenZ rem + lenZ to <= max ->
  exists l' r, removeLoop l rem to max = (l', rem ++ r) /\ l ≡ₚ l' ++ r /\ keys r = keys to.
Proof.
  induction to as [|t to IH]; intros l rem max rest Hp Hmax; simpl in *.
  - exists l, []. by rewrite !app_nil_r.
  - unfold lenZ in *. simpl in Hmax. rewrite (proj2 (Z.eqb_neq _ _)) by lia.
    destruct (searchBack l (PubKey t) (length l)) as [[i v]|] eqn:Es.
    + apply searchBack_Some in Es as [Hi Hk]. pose proof (removeValidatorFromList_perm _ _ _ Hi) as Hv.
      destruct (IH (removeValidatorFromList l (Z.of_nat i)) (rem ++ [v]) max rest)
        as (l' & r & Hr & Hp' & Hkr).
      * rewrite Hv in Hp. simpl in Hp. rewrite Hk in Hp. by apply Permutation_cons_inv in Hp.
      * rewrite length_app. simpl. lia.
      * exists l', (v :: r). split; [by rewrite Hr, <- app_assoc|]. split; [|simpl; congruence].
        rewrite Hv, Hp'. by rewrite Permutation_middle.
    + apply searchBack_absent in Es. exfalso. apply Es. rewrite Hp. left.
Qed.

(** ** Maps *)

Lemma allOf_empty : allOf ∅ = [].
Proof. unfold allOf. by rewrite map_to_list_empty. Qed.

Lemma allOf_insert_new (m : vmap) s l : m !! s = None -> allOf (<[s := l]> m) ≡ₚ l ++ allOf m.
Proof. intros H. unfold allOf. by rewrite map_to_list_insert by done. Qed.

Lemma allOf_delete (m : vmap) s : allOf m ≡ₚ listOf m s ++ allOf (delete s m).
Proof.
  unfold listOf. destruct (m !! s) as [l|] eqn:E; simpl.
  - rewrite <- (insert_delete_id m s l) at 1 by done. apply allOf_insert_new, lookup_delete_eq.
  - by rewrite delete_id.
Qed.

Lemma allOf_insert (m : vmap) s l : allOf (<[s := l]> m) ++ listOf m s ≡ₚ l ++ allOf m.
Proof.
  rewrite (allOf_delete m s). rewrite <- insert_delete_eq, allOf_insert_new by apply lookup_delete_eq.
  rewrite <- app_assoc. by rewrite (Permutation_app_comm (allOf _)).
Qed.

(** A list grows. *)
Lemma allOf_append (m : vmap) s l : allOf (<[s := listOf m s ++ l]> m) ≡ₚ allOf m ++ l.
Proof. pose proof (allOf_insert m s (listOf m s ++ l)). perm. Qed.

(** A list shrinks. *)
Lemma allOf_shrink (m : vmap) s l r : listOf m s ≡ₚ l ++ r -> allOf m ≡ₚ allOf (<[s := l]> m) ++ r.
Proof. intros H. pose proof (allOf_insert m s l). perm. Qed.

Lemma listOf_insert (m : vmap) s l s' : listOf (<[s := l]> m) s' = if decide (s' = s) then l else listOf m s'.
Proof.
  unfold listOf. destruct (decide (s' = s)) as [->|Hne]; [by rewrite lookup_insert_eq|].
  by rewrite lookup_insert_ne.
Qed.

Lemma listOf_sub (m : vmap) s : exists r, allOf m ≡ₚ listOf m s ++ r.
Proof. exists (allOf (delete s m)). apply allOf_delete. Qed.

Lemma elem_sortKeys (m : vmap) s : s ∈ sortKeys m <-> is_Some (m !! s).
Proof.
  unfold sortKeys. rewrite merge_sort_Permutation, elem_of_elements. apply elem_of_dom.
Qed.

Lemma NoDup_sortKeys (m : vmap) : NoDup (sortKeys m).
Proof. unfold sortKeys. rewrite merge_sort_Permutation. apply NoDup_elements. Qed.

Lemma sortKeys_dom (m m' : vmap) : dom m = dom m' -> sortKeys m = sortKeys m'.
Proof. unfold sortKeys. by intros ->. Qed.

(** The lists of the shards, in order. *)
Lemma allOf_sorted (m : vmap) : allOf m ≡ₚ concat (map (listOf m) (sortKeys m)).
Proof.
  unfold sortKeys. rewrite (merge_sort_Permutation Z.le).
  induction m as [|s l m Hs IH] using map_ind; [done|].
  rewrite allOf_insert_new by done. rewrite dom_insert_L.
  rewrite elements_disj_union by (rewrite disjoint_singleton_l; by apply not_elem_of_dom).
  rewrite elements_singleton. simpl. rewrite listOf_insert, decide_True by done.
  apply Permutation_app_head. rewrite IH.
  assert (Hm : map (listOf m) (elements (dom m)) = map (listOf (<[s := l]> m)) (elements (dom m))); [|by rewrite Hm].
  apply map_ext_in. intros s' Hin. rewrite listOf_insert, decide_False; [done|]. intros ->.
  apply list_elem_of_In, elem_of_elements, elem_of_dom in Hin. rewrite Hs in Hin. by destruct Hin.
Qed.

(** ** What the operations do to the validators *)

(** ** The order of strings *)

Lemma bytesLe_refl a : bytesLe a a = true.
Proof. induction a as [|x a IH]; simpl; [done|]. rewrite Z.ltb_irrefl, Z.eqb_refl. done. Qed.

#[global] Instance bytesOrder_total : Total bytesOrder.
Proof.
  intros a. unfold bytesOrder. induction a as [|x a IH]; intros [|y b]; simpl; [by left..|by right|].
  destruct (Z.lt_trichotomy x y) as [H|[->|H]].
  - left. by rewrite (proj2 (Z.ltb_lt _ _) H).
  - rewrite Z.ltb_irrefl, Z.eqb_refl. apply IH.
  - right. by rewrite (proj2 (Z.ltb_lt _ _) H).
Qed.

Lemma bytesLe_cons x y a b : bytesLe (x :: a) (y :: b) = true <-> x < y \/ (x = y /\ bytesLe a b = true).
Proof. simpl. rewrite orb_true_iff, andb_true_iff, Z.ltb_lt, Z.eqb_eq. tauto. Qed.

#[global] Instance bytesOrder_trans : Transitive bytesOrder.
Proof.
  intros a. unfold bytesOrder. induction a as [|x a IH]; intros [|y b] [|z c]; try done.
  rewrite !bytesLe_cons. intros [H1|[-> H1]] [H2|[-> H2]]; try (left; lia). right. split; [done|].
  by apply (IH b).
Qed.

#[global] Instance bytesOrder_antisymm : AntiSymm (=) bytesOrder.
Proof.
  intros a. unfold bytesOrder. induction a as [|x a IH]; intros [|y b]; try done.
  rewrite !bytesLe_cons. intros [H1|[-> H1]] [H2|[E H2]]; try lia. f_equal. by apply IH.
Qed.

Section Ops.
Variable sha256 : bytes -> bytes.
Variable MetachainShardId : Z.
Notation hashOf := (hashOf sha256).
Notation shuffleList := (shuffleList sha256).

(** ** shuffleList *)

(** The validators have different hashes. *)
Definition distinct (randomness : bytes) (l : list Validator) : Prop := NoDup (map (hashOf randomness) l).

Lemma distinct_sub rand l k r : l ≡ₚ k ++ r -> distinct rand l -> distinct rand k.
Proof. unfold distinct. intros ->. rewrite map_app, NoDup_app. tauto. Qed.

Lemma distinct_perm rand l k : l ≡ₚ k -> distinct rand l -> distinct rand k.
Proof. unfold distinct. by intros ->. Qed.

Lemma distinct_keys rand l : distinct rand l -> NoDup (keys l).
Proof.
  unfold distinct. induction l as [|v l IH]; simpl; [constructor|]. rewrite !NoDup_cons. intros [H1 H2].
  split; [|auto]. intros Hin. apply H1. apply list_elem_of_fmap in Hin as (w & Hk & Hw).
  apply list_elem_of_fmap. exists w. split; [|done]. unfold Shuffler.hashOf. by rewrite Hk.
Qed.

Lemma hash_map rand l : distinct rand l ->
  forall v (m : gmap bytes Validator), v ∈ l -> fold_left (fun m v => <[hashOf rand v := v]> m) l m !! hashOf rand v = Some v.
Proof.
  unfold distinct. induction l as [|w l IH]; simpl; [by intros _ v m ?%elem_of_nil|].
  rewrite NoDup_cons. intros [H1 H2] v m [->|Hv]%elem_of_cons; [|by apply IH].
  clear IH. assert (Hm : forall m' : gmap bytes Validator, m' !! hashOf rand w = Some w ->
    fold_left (fun m v => <[hashOf rand v := v]> m) l m' !! hashOf rand w = Some w).
  { clear H2. induction l as [|u l IH]; simpl; [done|]. intros m' Hm'. simpl in H1.
    rewrite not_elem_of_cons in H1. destruct H1 as [Hne H1]. apply (IH H1).
    by rewrite lookup_insert_ne by done. }
  apply Hm. by rewrite lookup_insert_eq.
Qed.

Lemma omap_hash (m : gmap bytes Validator) rand l :
  (forall v, v ∈ l -> m !! hashOf rand v = Some v) -> omap (fun k => m !! k) (map (hashOf rand) l) = l.
Proof.
  induction l as [|v l IH]; simpl; [done|]. intros H. rewrite (H v) by left.
  f_equal. apply IH. intros w Hw. apply H. by right.
Qed.

Lemma shuffleList_perm l rand : distinct rand l -> shuffleList l rand ≡ₚ l.
Proof.
  intros Hd. unfold Shuffler.shuffleList.
  rewrite (merge_sort_Permutation bytesOrder). rewrite omap_hash; [done|].
  intros v Hv. by apply hash_map.
Qed.

(** The hashes of the result are sorted. *)
Lemma shuffleList_hashes l rand : distinct rand l ->
  map (hashOf rand) (shuffleList l rand) = merge_sort bytesOrder (map (hashOf rand) l).
Proof.
  intros Hd. unfold Shuffler.shuffleList.
  set (m := fold_left _ l ∅). set (ks := merge_sort bytesOrder (map (hashOf rand) l)).
  assert (Hks : forall k, k ∈ ks -> exists v, m !! k = Some v /\ hashOf rand v = k).
  { intros k Hk. subst ks. rewrite merge_sort_Permutation in Hk.
    apply list_elem_of_fmap in Hk as (v & -> & Hv). exists v. split; [by apply hash_map|done]. }
  clearbody ks. clear Hd. induction ks as [|k ks IH]; simpl; [done|].
  destruct (Hks k) as (v & Hv & Hk); [left|]. rewrite Hv. simpl. rewrite Hk. f_equal.
  apply IH. intros k' Hk'. apply Hks. by right.
Qed.

(** The result does not depend on the order of the validators. *)
Lemma shuffleList_order l k rand : distinct rand l -> l ≡ₚ k -> shuffleList l rand = shuffleList k rand.
Proof.
  intros Hd Hp. pose proof (distinct_perm _ _ _ Hp Hd) as Hdk.
  assert (Hh : map (hashOf rand) (shuffleList l rand) = map (hashOf rand) (shuffleList k rand)).
  { rewrite !shuffleList_hashes by done.
    apply (StronglySorted_unique bytesOrder); try apply (StronglySorted_merge_sort bytesOrder).
    rewrite !merge_sort_Permutation. by rewrite Hp. }
  pose proof (shuffleList_perm l rand Hd) as Hl. pose proof (shuffleList_perm k rand Hdk) as Hk.
  assert (Hs : shuffleList l rand ≡ₚ shuffleList k rand) by by rewrite Hl, Hk, Hp.
  pose proof (distinct_perm _ _ _ (symmetry Hl) Hd) as Hdl. clear Hl Hk Hp Hd Hdk.
  revert Hh Hs Hdl. generalize (shuffleList l rand) (shuffleList k rand). clear l k.
  intros l. induction l as [|v l IH]; intros [|w k] Hh Hs Hd; try done; simpl in Hh.
  injection Hh as Hvw Hh. assert (v = w) as ->.
  { assert (Hin : v ∈ w :: k) by (rewrite <- Hs; left). apply elem_of_cons in Hin as [->|Hin]; [done|].
    unfold distinct in Hd. simpl in Hd. rewrite NoDup_cons in Hd. destruct Hd as [Hd _].
    exfalso. apply Hd. rewrite Hh. apply list_elem_of_fmap. by exists v. }
  f_equal. apply IH; [done|by apply Permutation_cons_inv in Hs|].
  unfold distinct in *. simpl in Hd. rewrite NoDup_cons in Hd. apply Hd.
Qed.
End Ops.
