(* ===== verification/ShufflerMoves.v ===== *)
(** * Leaving nodes, shuffled out nodes, the moves between the lists, and the distribution
    of the shuffled out and new nodes. *)

From stdpp Require Import base list gmap sets sorting.
From Stdlib Require Import ZArith Lia.
From S2P Require Import Prelude Shuffler ShufflerSpec.

(** ** Leaving nodes *)

(** From the maps and leaving nodes of one moment to those of a later one: the nodes
    that are gone, the leaving nodes they answer, and the numbers left. *)
Record leftAfter (m0 : vmap) (lv0 : list Validator) (num0 : counts)
    (m : vmap) (lv : list Validator) (num : counts) (gone answered : list Validator) : Prop := {
  la_all : allOf m0 ≡ₚ allOf m ++ gone;
  la_leaving : lv0 ≡ₚ lv ++ answered;
  la_keys : keys gone ≡ₚ keys answered;
  la_count : forall s, lenZ (listOf m s) - countOf num s = lenZ (listOf m0 s) - countOf num0 s;
  la_pos : (forall s, 0 <= countOf num0 s) -> forall s, 0 <= countOf num s;
  la_dom : dom m = dom m0;
  la_small : forall s, lenZ (listOf m s) <= lenZ (listOf m0 s);
}.

Lemma leftAfter_refl m lv num : leftAfter m lv num m lv num [] [].
Proof. split; rewrite ?app_nil_r; done || lia. Qed.

Lemma leftAfter_trans m0 lv0 n0 m1 lv1 n1 m2 lv2 n2 g1 a1 g2 a2 :
  leftAfter m0 lv0 n0 m1 lv1 n1 g1 a1 -> leftAfter m1 lv1 n1 m2 lv2 n2 g2 a2 ->
  leftAfter m0 lv0 n0 m2 lv2 n2 (g2 ++ g1) (a2 ++ a1).
Proof.
  intros [A1 A2 A3 A4 A5 A6 A7] [B1 B2 B3 B4 B5 B6 B7]. split.
  - perm.
  - perm.
  - rewrite !map_app. by rewrite A3, B3.
  - intros s. by rewrite B4.
  - auto.
  - congruence.
  - intros s. specialize (A7 s). specialize (B7 s). lia.
Qed.

Lemma countOf_insert (n : counts) s v s' : countOf (<[s := v]> n) s' = if decide (s' = s) then v else countOf n s'.
Proof.
  unfold countOf. destruct (decide (s' = s)) as [->|Hne]; [by rewrite lookup_insert_eq|].
  by rewrite lookup_insert_ne.
Qed.

Lemma sublist_perm {A} (l k : list A) : l `sublist_of` k -> exists r, k ≡ₚ l ++ r.
Proof.
  intros H. induction H as [|x l k H (r & IH)|x l k H (r & IH)].
  - by exists [].
  - exists r. simpl. by rewrite IH.
  - exists (x :: r). rewrite IH. by rewrite Permutation_middle.
Qed.

Lemma removeNodesFromShard_spec m lv num s m' lv' n :
  s ∈ dom m -> 0 <= countOf num s ->
  removeNodesFromShard m lv s (countOf num s) = (m', lv', n) ->
  exists gone answered, leftAfter m lv num m' lv' (<[s := countOf num s - n]> num) gone answered.
Proof.
  intros Hdom Hpos. unfold removeNodesFromShard.
  set (nb := if _ <? _ then _ else _).
  assert (Hnb : 0 <= nb <= countOf num s).
  { subst nb. pose proof (Zle_0_nat (length lv)) as H0. destruct (lenZ lv <? countOf num s) eqn:E.
    - apply Z.ltb_lt in E. unfold lenZ in *. lia.
    - lia. }
  clearbody nb. unfold removeValidatorsFromList.
  destruct (removeLoop (listOf m s) [] lv nb) as [vList removed] eqn:E1.
  apply removeLoop_spec in E1 as (r & Hr & Hp & Hsub & Hmax). simpl in Hr. subst removed.
  apply sublist_perm in Hsub as (rest & Hrest).
  destruct (removeLoop_all r lv [] (lenZ r) rest Hrest) as (lv1 & a & E2 & Hlv & Hka); [done|].
  simpl in E2. rewrite E2. intros [= <- <- <-]. exists r, a.
  assert (Hmax' : lenZ r <= nb) by (apply Hmax; unfold lenZ; simpl; lia).
  assert (Hlen : lenZ (listOf m s) = lenZ vList + lenZ r)
    by (unfold lenZ; rewrite Hp, length_app; lia).
  split.
  - by apply allOf_shrink.
  - done.
  - by rewrite Hka.
  - intros s'. rewrite listOf_insert, countOf_insert. destruct (decide (s' = s)) as [->|]; lia.
  - intros H s'. rewrite countOf_insert. destruct (decide _); [lia|auto].
  - rewrite dom_insert_L. set_solver.
  - intros s'. rewrite listOf_insert. destruct (decide (s' = s)) as [->|]; unfold lenZ in *; lia.
Qed.

Lemma removeNodesFromMap_loop ks : forall m lv num m' lv' num',
  (forall s, s ∈ ks -> s ∈ dom m) -> (forall s, 0 <= countOf num s) ->
  fold_left (fun '(existingNodes, leavingNodes, numToRemove) shardId =>
    let '(existingNodes, leavingNodes, numRemoved) :=
      removeNodesFromShard existingNodes leavingNodes shardId (countOf numToRemove shardId) in
    (existingNodes, leavingNodes, <[shardId := countOf numToRemove shardId - numRemoved]> numToRemove))
    ks (m, lv, num) = (m', lv', num') ->
  exists gone answered, leftAfter m lv num m' lv' num' gone answered.
Proof.
  induction ks as [|s ks IH]; intros m lv num m' lv' num' Hks Hpos; simpl.
  - intros [= <- <- <-]. exists [], []. apply leftAfter_refl.
  - destruct (removeNodesFromShard m lv s (countOf num s)) as [[m1 lv1] n1] eqn:E1.
    apply removeNodesFromShard_spec in E1 as (g1 & a1 & H1); [|apply Hks; left|done].
    intros E2. apply IH in E2 as (g2 & a2 & H2).
    + exists (g2 ++ g1), (a2 ++ a1). by eapply leftAfter_trans.
    + intros s' Hs'. rewrite (la_dom _ _ _ _ _ _ _ _ H1). apply Hks. by right.
    + by apply (la_pos _ _ _ _ _ _ _ _ H1).
Qed.

Lemma removeNodesFromMap_spec m lv num m' lv' num' :
  (forall s, 0 <= countOf num s) -> removeNodesFromMap m lv num = (m', lv', num') ->
  exists gone answered, leftAfter m lv num m' lv' num' gone answered.
Proof.
  intros Hpos. apply removeNodesFromMap_loop; [|done].
  intros s Hs. apply elem_sortKeys in Hs. by apply elem_of_dom.
Qed.

(** Both maps. *)
Record leftBoth (el0 wt0 : vmap) (lv0 : list Validator) (num0 : counts)
    (el wt : vmap) (lv : list Validator) (num : counts) (gone answered : list Validator) : Prop := {
  lb_all : allOf el0 ++ allOf wt0 ≡ₚ allOf el ++ allOf wt ++ gone;
  lb_leaving : lv0 ≡ₚ lv ++ answered;
  lb_keys : keys gone ≡ₚ keys answered;
  lb_count : forall s, lenZ (listOf el s) + lenZ (listOf wt s) - countOf num s =
    lenZ (listOf el0 s) + lenZ (listOf wt0 s) - countOf num0 s;
  lb_pos : forall s, 0 <= countOf num s;
  lb_small : forall s, lenZ (listOf el s) <= lenZ (listOf el0 s) /\ lenZ (listOf wt s) <= lenZ (listOf wt0 s);
  lb_dom : dom el = dom el0 /\ dom wt = dom wt0;
}.

Lemma removeLeaving_spec el wt num lv el' wt' lv' num' :
  (forall s, 0 <= countOf num s) ->
  removeLeavingNodesFromValidatorMaps el wt num lv = (el', wt', lv', num') ->
  exists gone answered, leftBoth el wt lv num el' wt' lv' num' gone answered.
Proof.
  intros Hpos. unfold removeLeavingNodesFromValidatorMaps.
  destruct (removeNodesFromMap wt lv num) as [[wt1 lv1] n1] eqn:E1.
  destruct (removeNodesFromMap el lv1 n1) as [[el1 lv2] n2] eqn:E2. intros [= <- <- <- <-].
  apply removeNodesFromMap_spec in E1 as (g1 & a1 & H1); [|done].
  pose proof (la_pos _ _ _ _ _ _ _ _ H1 Hpos) as Hpos1.
  apply removeNodesFromMap_spec in E2 as (g2 & a2 & H2); [|done].
  exists (g2 ++ g1), (a2 ++ a1). destruct H1 as [A1 A2 A3 A4 A5 A6 A7], H2 as [B1 B2 B3 B4 B5 B6 B7]. split.
  - perm.
  - perm.
  - rewrite !map_app. by rewrite A3, B3.
  - intros s. specialize (A4 s). specialize (B4 s). lia.
  - by apply B5.
  - intros s. split; [apply B7|apply A7].
  - done.
Qed.

Lemma leftBoth_trans el0 wt0 n0 el1 wt1 n1 el2 wt2 n2 lv0 lv1 kv0 kv1 g1 a1 g2 a2 :
  leftBoth el0 wt0 lv0 n0 el1 wt1 lv1 n1 g1 a1 -> leftBoth el1 wt1 kv0 n1 el2 wt2 kv1 n2 g2 a2 ->
  leftBoth el0 wt0 (lv0 ++ kv0) n0 el2 wt2 (lv1 ++ kv1) n2 (g2 ++ g1) (a2 ++ a1).
Proof.
  intros [A1 A2 A3 A4 A5 A6 A7] [B1 B2 B3 B4 B5 B6 B7]. split.
  - perm.
  - perm.
  - rewrite !map_app. by rewrite A3, B3.
  - intros s. specialize (A4 s). specialize (B4 s). lia.
  - done.
  - intros s. specialize (A6 s). specialize (B6 s). lia.
  - destruct A7, B7. split; congruence.
Qed.

Lemma searchInMap_true m key : searchInMap m key = true <-> key ∈ keys (allOf m).
Proof.
  unfold searchInMap, allOf. rewrite existsb_exists. split.
  - intros ([s l] & Hin & Hex). apply existsb_exists in Hex as (v & Hv & Hk). apply beq_true in Hk as <-.
    apply list_elem_of_fmap. exists v. split; [done|]. apply list_elem_of_In, in_concat. exists l.
    split; [|done]. apply in_map_iff. by exists (s, l).
  - intros (v & -> & Hv)%list_elem_of_fmap. apply list_elem_of_In, in_concat in Hv as (l & Hl & Hv).
    apply in_map_iff in Hl as ([s l'] & <- & Hin). exists (s, l'). split; [done|].
    apply existsb_exists. exists v. split; [done|]. apply beq_refl.
Qed.

(** The leaving nodes that are in no list are put aside. *)
Lemma removeNotExisting_spec lv wt el lv' removed :
  removeLeavingNodesNotExistingInEligibleOrWaiting lv wt el = (lv', removed) ->
  lv ≡ₚ lv' ++ removed /\ (forall k, k ∈ keys removed -> k ∉ keys (allOf el ++ allOf wt)).
Proof.
  unfold removeLeavingNodesNotExistingInEligibleOrWaiting, removeValidatorsFromList.
  set (nf := filter _ _). intros Hr. apply removeLoop_spec in Hr as (r & -> & Hp & Hsub & _). simpl.
  split; [done|]. intros k Hk.
  assert (Hnf : k ∈ keys nf) by (by eapply elem_of_sublist).
  apply list_elem_of_fmap in Hnf as (v & -> & Hv). subst nf.
  apply list_elem_of_filter in Hv as [[Hw He] _]. rewrite map_app, elem_of_app.
  intros [H|H]; apply searchInMap_true in H; congruence.
Qed.

(** The numbers to remove. *)
Lemma numToRemoveLoop_nonneg meta arg shards : forall num num',
  (forall s, 0 <= countOf num s) -> numToRemoveLoop meta arg shards num = inr num' ->
  forall s, 0 <= countOf num' s.
Proof.
  induction shards as [|s shards IH]; intros num num' Hpos; simpl; [by intros [= ->]|].
  unfold computeNumToRemovePerShard. destruct (_ <? _) eqn:E; simpl; [done|].
  apply Z.ltb_ge in E. apply IH. intros s'. rewrite countOf_insert.
  destruct (decide (s' = s)); [lia|auto].
Qed.

Lemma computeNumToRemove_nonneg meta arg num :
  computeNumToRemove meta arg = inr num -> forall s, 0 <= countOf num s.
Proof.
  unfold computeNumToRemove. destruct (_ =? _); [intros [= <-] s; done|].
  apply numToRemoveLoop_nonneg. intros s. done.
Qed.

Lemma countOf_cap mx num s :
  0 <= mx -> 0 <= countOf num s -> countOf (capNumToRemove mx num) s = Z.min mx (countOf num s).
Proof.
  intros Hm Hp. unfold capNumToRemove, countOf in *. rewrite lookup_fmap.
  destruct (num !! s) as [n|]; simpl in *; [|lia]. destruct (mx <? n) eqn:E; [apply Z.ltb_lt in E|apply Z.ltb_ge in E]; lia.
Qed.

(** The shards whose numbers are computed, and the numbers. *)
Definition surplus (meta : Z) (arg : shuffleNodesArg) (s : Z) : Z :=
  lenZ (listOf (eligible arg) s) + lenZ (listOf (waiting arg) s)
  - shardSize meta (nodesMeta arg) (nodesPerShard arg) s.

Lemma numToRemoveLoop_ok meta arg shards : forall num,
  (forall s, s ∈ shards -> 0 <= surplus meta arg s) ->
  exists num', numToRemoveLoop meta arg shards num = inr num' /\
    forall s, countOf num' s = if decide (s ∈ shards) then surplus meta arg s else countOf num s.
Proof.
  induction shards as [|s shards IH]; intros num Hs; simpl.
  - exists num. split; [done|]. intros s. destruct (decide (s ∈ [])) as [H|]; [by apply elem_of_nil in H|done].
  - pose proof (Hs s ltac:(left)) as H0. unfold computeNumToRemovePerShard.
    rewrite (proj2 (Z.ltb_ge _ _)) by (unfold surplus in H0; lia). simpl.
    destruct (IH (<[s := surplus meta arg s]> num)) as (num' & Hl & Hc);
      [intros s' Hs'; apply Hs; by right|].
    exists num'. split; [done|]. intros s'. rewrite Hc, countOf_insert.
    destruct (decide (s' ∈ shards)), (decide (s' ∈ s :: shards)) as [|Hn], (decide (s' = s)) as [->|];
      try done; exfalso; set_solver.
Qed.

Lemma numToRemoveLoop_err meta arg shards : forall num,
  (exists s, s ∈ shards /\ surplus meta arg s < 0) ->
  exists s, s ∈ shards /\ surplus meta arg s < 0 /\
    numToRemoveLoop meta arg shards num = inl (ErrSmallShardEligibleListSize s).
Proof.
  induction shards as [|s shards IH]; intros num (s0 & Hin & Hs); simpl; [by apply elem_of_nil in Hin|].
  unfold computeNumToRemovePerShard.
  destruct (Z.ltb_spec (lenZ (listOf (eligible arg) s) + lenZ (listOf (waiting arg) s))
    (shardSize meta (nodesMeta arg) (nodesPerShard arg) s)) as [Hlt|Hge]; simpl.
  - exists s. split; [left|]. unfold surplus. split; [lia|done].
  - apply elem_of_cons in Hin as [->|Hin]; [unfold surplus in Hs; lia|].
    destruct (IH (<[s := surplus meta arg s]> num)) as (s1 & H1 & H2 & H3); [by exists s0|].
    exists s1. split; [by right|]. done.
Qed.

(** ** Shuffled out nodes *)

Section Out.
Variable sha256 : bytes -> bytes.
Notation distinct := (distinct sha256).

Lemma distinct_listOf rand m s : distinct rand (allOf m) -> distinct rand (listOf m s).
Proof. destruct (listOf_sub m s) as (r & Hr). by apply distinct_sub with (r := r). Qed.

Lemma shuffleOutShard_spec l n rand : distinct rand l -> 0 <= n ->
  exists out rest, shuffleOutShard sha256 l n rand = inr (out, rest) /\ l ≡ₚ out ++ rest /\
    lenZ out = Z.min (lenZ l) n /\ fst (removeValidatorsFromList rest out (lenZ out)) = rest.
Proof.
  intros Hd Hn. unfold shuffleOutShard.
  set (k := if lenZ l <? n then _ else _).
  assert (Hk : k = Z.min (lenZ l) n) by (subst k; destruct (Z.ltb_spec (lenZ l) n); lia).
  assert (Hk0 : 0 <= k) by (rewrite Hk; unfold lenZ; lia). clearbody k.
  rewrite (proj2 (Z.ltb_ge _ _)) by done. set (sl := shuffleList sha256 l rand).
  assert (Hsl : sl ≡ₚ l) by by apply shuffleList_perm.
  exists (take (Z.to_nat k) sl), (drop (Z.to_nat k) sl). split; [done|]. rewrite take_drop.
  split; [by rewrite Hsl|]. split.
  - unfold lenZ in *. rewrite length_take. rewrite Hsl. lia.
  - unfold removeValidatorsFromList. rewrite removeLoop_none; [done|].
    pose proof (distinct_keys _ _ _ (distinct_perm _ _ _ _ (symmetry Hsl) Hd)) as Hnd.
    rewrite <- (take_drop (Z.to_nat k) sl), map_app, NoDup_app in Hnd. intros key. apply Hnd.
Qed.

Lemma shuffleOutLoop_spec el num rand : distinct rand (allOf el) -> (forall s, 0 <= countOf num s) ->
  forall ks so ne, NoDup ks -> exists so' ne',
    shuffleOutLoop sha256 el num rand ks so ne = inr (so', ne') /\
    (forall s, s ∈ ks -> listOf el s ≡ₚ listOf so' s ++ listOf ne' s /\
       lenZ (listOf so' s) = Z.min (lenZ (listOf el s)) (countOf num s)) /\
    (forall s, s ∉ ks -> so' !! s = so !! s /\ ne' !! s = ne !! s) /\
    dom so' = dom so ∪ list_to_set ks /\ dom ne' = dom ne ∪ list_to_set ks.
Proof.
  intros Hd Hpos. induction ks as [|s ks IH]; intros so ne Hnd; simpl.
  - exists so, ne. repeat split; try set_solver. 
  - apply NoDup_cons in Hnd as [Hs Hnd].
    destruct (shuffleOutShard_spec (listOf el s) (countOf num s) rand) as (out & rest & -> & Hp & Hlen & Hrem);
      [by apply distinct_listOf|done|]. simpl. rewrite Hrem.
    destruct (IH (<[s := out]> so) (<[s := rest]> ne) Hnd) as (so' & ne' & -> & Hin & Hout & Hd1 & Hd2).
    exists so', ne'. split; [done|]. destruct (Hout s Hs) as [Ho1 Ho2]. split; [|split; [|split]].
    + intros s' [->|Hs']%elem_of_cons; [|by apply Hin].
      unfold listOf at 2 3 4. rewrite Ho1, Ho2, !lookup_insert_eq. simpl. done.
    + intros s' Hn. rewrite not_elem_of_cons in Hn. destruct Hn as [Hne Hn]. destruct (Hout s' Hn) as [-> ->].
      by rewrite !lookup_insert_ne by done.
    + rewrite Hd1, dom_insert_L. clear. set_solver.
    + rewrite Hd2, dom_insert_L. clear. set_solver.
Qed.

(** Two maps on the same shards, list by list. *)
Lemma concat_split (m a b : vmap) ks :
  (forall s, s ∈ ks -> listOf m s ≡ₚ listOf a s ++ listOf b s) ->
  concat (map (listOf m) ks) ≡ₚ concat (map (listOf a) ks) ++ concat (map (listOf b) ks).
Proof.
  induction ks as [|s ks IH]; simpl; [done|]. intros H. pose proof (H s ltac:(left)).
  assert (Hks : concat (map (listOf m) ks) ≡ₚ concat (map (listOf a) ks) ++ concat (map (listOf b) ks))
    by (apply IH; intros s' Hs'; apply H; by right). perm.
Qed.

Lemma allOf_split (m a b : vmap) : dom a = dom m -> dom b = dom m ->
  (forall s, s ∈ dom m -> listOf m s ≡ₚ listOf a s ++ listOf b s) ->
  allOf m ≡ₚ allOf a ++ allOf b.
Proof.
  intros Ha Hb H. rewrite !allOf_sorted. rewrite (sortKeys_dom a m Ha), (sortKeys_dom b m Hb).
  apply concat_split. intros s Hs. apply H. apply elem_of_dom. by apply elem_sortKeys.
Qed.

Lemma shuffleOutNodes_spec el num rand : distinct rand (allOf el) -> (forall s, 0 <= countOf num s) ->
  exists so ne, shuffleOutNodes sha256 el num rand = inr (so, ne) /\ allOf el ≡ₚ allOf so ++ allOf ne /\
    (forall s, s ∈ dom el -> lenZ (listOf so s) = Z.min (lenZ (listOf el s)) (countOf num s) /\
       lenZ (listOf ne s) = lenZ (listOf el s) - lenZ (listOf so s)) /\
    dom so = dom el /\ dom ne = dom el.
Proof.
  intros Hd Hpos. unfold shuffleOutNodes.
  destruct (shuffleOutLoop_spec el num rand Hd Hpos (sortKeys el) ∅ ∅ (NoDup_sortKeys el))
    as (so & ne & -> & Hin & _ & Hd1 & Hd2). exists so, ne. split; [done|].
  assert (Hdom : list_to_set (sortKeys el) = dom el).
  { apply set_eq. intros s. by rewrite elem_of_list_to_set, elem_sortKeys, elem_of_dom. }
  rewrite Hdom, dom_empty_L, union_empty_l_L in Hd1, Hd2.
  assert (Hin' : forall s, s ∈ dom el -> listOf el s ≡ₚ listOf so s ++ listOf ne s /\
     lenZ (listOf so s) = Z.min (lenZ (listOf el s)) (countOf num s)).
  { intros s Hs. apply Hin, elem_sortKeys, elem_of_dom, Hs. }
  split; [|split; [|done]].
  - apply allOf_split; [done|done|]. intros s Hs. by apply Hin'.
  - intros s Hs. destruct (Hin' s Hs) as [Hp Hl]. split; [done|].
    unfold lenZ. rewrite Hp, length_app. lia.
Qed.
End Out.

(** ** The distribution of the validators *)

Lemma u32_id z : 0 <= z < 2 ^ 32 -> u32 z = z.
Proof. intros H. by apply Z.mod_small. Qed.

Lemma lenZ_app {A} (l k : list A) : lenZ (l ++ k) = lenZ l + lenZ k.
Proof. unfold lenZ. rewrite length_app. lia. Qed.

Lemma lenZ_nonneg {A} (l : list A) : 0 <= lenZ l.
Proof. unfold lenZ. lia. Qed.

(** ** createListsForAllShards *)

Lemma createLists_loop ks : forall m : vmap,
  let m' := fold_left (fun m shardId =>
    match m !! shardId with None => <[shardId := []]> m | Some _ => m end) ks m in
  allOf m' ≡ₚ allOf m /\ (forall s, listOf m' s = listOf m s) /\ dom m' = dom m ∪ list_to_set ks.
Proof.
  induction ks as [|s ks IH]; intros m; simpl; [repeat split; set_solver|].
  destruct (m !! s) eqn:E.
  - destruct (IH m) as (H1 & H2 & H3). split; [done|split; [done|]]. rewrite H3.
    apply elem_of_dom_2 in E. clear -E. set_solver.
  - destruct (IH (<[s := []]> m)) as (H1 & H2 & H3). split; [|split].
    + rewrite H1. by rewrite allOf_insert_new.
    + intros s'. rewrite H2, listOf_insert. destruct (decide (s' = s)) as [->|]; [|done].
      unfold listOf. by rewrite E.
    + rewrite H3, dom_insert_L. clear. set_solver.
Qed.

Lemma createLists_spec meta m shards :
  let m' := createListsForAllShards meta m shards in
  allOf m' ≡ₚ allOf m /\ (forall s, listOf m' s = listOf m s) /\
  dom m' = dom m ∪ list_to_set (seqZ 0 shards ++ [meta]).
Proof. apply createLists_loop. Qed.

(** ** moveMaxNumNodesToMap *)

(** The number of nodes that move into a list of [d] nodes from one of [s] nodes,
    for a shard of [n] nodes. *)
Definition needed (d s n : Z) : Z := Z.min s (Z.max 0 (n - d)).

Lemma computeNeededNodes_spec d s n :
  lenZ d < 2 ^ 32 -> lenZ s < 2 ^ 32 -> 0 <= n < 2 ^ 32 ->
  computeNeededNodes d s n = needed (lenZ d) (lenZ s) n.
Proof.
  intros Hd Hs Hn. unfold computeNeededNodes, needed. pose proof (lenZ_nonneg d). pose proof (lenZ_nonneg s).
  rewrite !(u32_id (lenZ _)) by lia.
  destruct (Z.ltb_spec (lenZ d) n); [rewrite u32_id by lia|];
    match goal with |- (if ?b then _ else _) = _ => destruct b eqn:E end;
    [apply Z.ltb_lt in E|apply Z.ltb_ge in E|apply Z.ltb_lt in E|apply Z.ltb_ge in E]; lia.
Qed.

Section Moves.
Variable MetachainShardId : Z.

Notation moveStep numMeta numShard := (fun '(destination, source) shardId =>
    let validators := listOf source shardId in
    let numNeededNodes := Z.to_nat (computeNeededNodes (listOf destination shardId) validators
      (shardSize MetachainShardId numMeta numShard shardId)) in
    (<[shardId := listOf destination shardId ++ take numNeededNodes validators]> destination,
     <[shardId := drop numNeededNodes validators]> source)).

Lemma moveMax_loop numMeta numShard ks : forall (d s d' s' : vmap),
  NoDup ks -> fold_left (moveStep numMeta numShard) ks (d, s) = (d', s') ->
  allOf d ++ allOf s ≡ₚ allOf d' ++ allOf s' /\
  dom d' = dom d ∪ list_to_set ks /\ dom s' = dom s ∪ list_to_set ks /\
  (forall k, k ∉ ks -> listOf d' k = listOf d k /\ listOf s' k = listOf s k) /\
  (forall k, k ∈ ks ->
     let n := Z.to_nat (computeNeededNodes (listOf d k) (listOf s k)
       (shardSize MetachainShardId numMeta numShard k)) in
     listOf d' k = listOf d k ++ take n (listOf s k) /\ listOf s' k = drop n (listOf s k)).
Proof.
  induction ks as [|k ks IH]; intros d s d' s' Hnd; simpl.
  - intros [= <- <-]. split; [done|]. repeat split; try set_solver.
  - apply NoDup_cons in Hnd as [Hk Hnd]. set (n := Z.to_nat _). intros Hf.
    apply IH in Hf as (H1 & H2 & H3 & H4 & H5); [|done].
    rewrite dom_insert_L in H2, H3. split; [|split; [|split; [|split]]].
    + rewrite <- H1. pose proof (allOf_append d k (take n (listOf s k))) as Ha.
      assert (Hs : listOf s k ≡ₚ drop n (listOf s k) ++ take n (listOf s k))
        by (rewrite Permutation_app_comm; by rewrite take_drop).
      apply allOf_shrink in Hs. clear -Ha Hs. perm.
    + rewrite H2. clear. set_solver.
    + rewrite H3. clear. set_solver.
    + intros j Hj. rewrite not_elem_of_cons in Hj. destruct Hj as [Hne Hj]. destruct (H4 j Hj) as [-> ->].
      by rewrite !listOf_insert, !decide_False by done.
    + intros j [->|Hj]%elem_of_cons.
      * destruct (H4 k Hk) as [-> ->]. by rewrite !listOf_insert, !decide_True by done.
      * destruct (H5 j Hj) as [-> ->]. rewrite !listOf_insert, !decide_False by (intros ->; done). done.
Qed.

Lemma moveMax_spec numMeta numShard d s d' s' :
  moveMaxNumNodesToMap MetachainShardId d s numMeta numShard = (d', s') ->
  allOf d ++ allOf s ≡ₚ allOf d' ++ allOf s' /\ dom d' = dom d ∪ dom s /\ dom s' = dom s /\
  (forall k, lenZ (listOf d k) < 2 ^ 32 -> lenZ (listOf s k) < 2 ^ 32 ->
     0 <= shardSize MetachainShardId numMeta numShard k < 2 ^ 32 ->
     lenZ (listOf d' k) = lenZ (listOf d k) +
       needed (lenZ (listOf d k)) (lenZ (listOf s k)) (shardSize MetachainShardId numMeta numShard k)).
Proof.
  unfold moveMaxNumNodesToMap. intros Hf. apply moveMax_loop in Hf as (H1 & H2 & H3 & H4 & H5);
    [|apply NoDup_sortKeys].
  assert (Hdom : list_to_set (sortKeys s) = dom s).
  { apply set_eq. intros k. by rewrite elem_of_list_to_set, elem_sortKeys, elem_of_dom. }
  rewrite Hdom in H2, H3. split; [done|split; [done|split; [set_solver|]]].
  intros k Hd Hs Hn. destruct (decide (k ∈ sortKeys s)) as [Hin|Hin].
  - destruct (H5 k Hin) as [-> _]. rewrite computeNeededNodes_spec by done.
    rewrite lenZ_app. f_equal. unfold lenZ at 1. rewrite length_take. unfold needed, lenZ in *. lia.
  - destruct (H4 k Hin) as [-> _]. rewrite elem_sortKeys in Hin.
    assert (listOf s k = []) as ->.
    { unfold listOf. destruct (s !! k); [|done]. exfalso. apply Hin. by eexists. }
    unfold needed. change (lenZ []) with 0. lia.
Qed.

Lemma moveNodes_loop ks : forall (d s d' s' : vmap),
  fold_left (fun '(destination, source) shardId =>
    (<[shardId := listOf destination shardId ++ listOf source shardId]> destination,
     <[shardId := []]> source)) ks (d, s) = (d', s') ->
  allOf d ++ allOf s ≡ₚ allOf d' ++ allOf s' /\
  (forall k, listOf s' k = if decide (k ∈ ks) then [] else listOf s k).
Proof.
  induction ks as [|k ks IH]; intros d s d' s'; simpl.
  - intros [= <- <-]. split; [done|]. intros k. destruct (decide (k ∈ [])) as [H|]; [by apply elem_of_nil in H|done].
  - intros Hf. apply IH in Hf as [H1 H2]. split.
    + rewrite <- H1. pose proof (allOf_append d k (listOf s k)) as Ha.
      assert (Hs : listOf s k ≡ₚ [] ++ listOf s k) by done. apply allOf_shrink in Hs. clear -Ha Hs. perm.
    + intros j. rewrite H2, listOf_insert. destruct (decide (j ∈ ks)), (decide (j ∈ k :: ks)) as [|Hn]; try done.
      * exfalso. apply Hn. by right.
      * destruct (decide (j = k)); [done|]. exfalso. set_solver.
      * rewrite decide_False; [done|]. intros ->. apply Hn. left.
Qed.

(** The source is left with empty lists. *)
Lemma moveNodesToMap_spec d s d' s' :
  moveNodesToMap d s = (d', s') ->
  allOf d ++ allOf s ≡ₚ allOf d' /\ forall k, listOf s' k = [].
Proof.
  unfold moveNodesToMap. intros Hf. apply moveNodes_loop in Hf as [H1 H2].
  assert (Hs : forall k, listOf s' k = []).
  { intros k. rewrite H2. destruct (decide _) as [|Hn]; [done|]. unfold listOf.
    rewrite elem_sortKeys in Hn. destruct (s !! k); [|done]. exfalso. apply Hn. by eexists. }
  split; [|done]. rewrite H1. rewrite (allOf_sorted s').
  rewrite (map_ext_in _ (fun _ => [])) by auto.
  replace (concat (map (fun _ => []) (sortKeys s'))) with (@nil Validator).
  - by rewrite app_nil_r.
  - generalize (sortKeys s'). intros l. induction l; simpl; [done|]. done.
Qed.
End Moves.

(** ** Distribution *)

Lemma deal_perm ks validators : forall d i, allOf (dealLoop d ks i validators) ≡ₚ allOf d ++ validators.
Proof.
  induction validators as [|v vs IH]; intros d i; simpl; [by rewrite app_nil_r|].
  rewrite IH, allOf_append. rewrite <- app_assoc. done.
Qed.

Lemma equalize_perm validators maxl ks : forall d i r d' i' r',
  0 <= i -> 0 <= r -> i + r = lenZ validators ->
  fold_left (equalizeStep validators maxl) ks (d, i, r) = (d', i', r') ->
  exists moved, allOf d' ≡ₚ allOf d ++ moved /\
    moved ++ drop (Z.to_nat i') validators ≡ₚ drop (Z.to_nat i) validators /\
    0 <= i' /\ 0 <= r' /\ i' + r' = lenZ validators.
Proof.
  induction ks as [|k ks IH]; intros d i r d' i' r' Hi Hr Hlen; simpl.
  - intros [= <- <- <-]. exists []. rewrite app_nil_r. done.
  - destruct (Z.ltb_spec (lenZ (listOf d k)) maxl) as [Hlt|_]; [|by apply IH].
    set (n := if r <? _ then _ else _).
    assert (Hn : 0 <= n <= r) by (subst n; destruct (Z.ltb_spec r (maxl - lenZ (listOf d k))); lia).
    clearbody n. intros Hf. apply IH in Hf as (mv & H1 & H2 & H3 & H4 & H5); [|lia..].
    exists (take (Z.to_nat n) (drop (Z.to_nat i) validators) ++ mv). split; [|split; [|done]].
    + rewrite H1, allOf_append. by rewrite <- app_assoc.
    + rewrite <- app_assoc, H2. rewrite Z2Nat.inj_add by lia.
      rewrite <- drop_drop. by rewrite take_drop.
Qed.

Lemma equalizeValidatorsLists_perm d validators d' validators' :
  equalizeValidatorsLists d validators = (d', validators') ->
  allOf d' ++ validators' ≡ₚ allOf d ++ validators.
Proof.
  unfold equalizeValidatorsLists.
  destruct (fold_left _ _ _) as [[d1 i1] r1] eqn:Ef. intros [= <- <-].
  apply equalize_perm in Ef as (mv & H1 & H2 & H3 & H4 & H5); [|apply lenZ_nonneg || lia..].
  rewrite take_ge by (rewrite length_drop; unfold lenZ in H5; lia).
  rewrite H1, <- app_assoc, H2. done.
Qed.

(** No shard disappears. *)
Lemma deal_dom ks validators : forall d i, dom d ⊆ dom (dealLoop d ks i validators).
Proof.
  induction validators as [|v vs IH]; intros d i; simpl; [done|].
  etrans; [|apply IH]. rewrite dom_insert_L. clear. set_solver.
Qed.

Lemma equalize_dom validators maxl ks : forall st,
  dom (fst (fst st)) ⊆ dom (fst (fst (fold_left (equalizeStep validators maxl) ks st))).
Proof.
  induction ks as [|k ks IH]; intros [[d i] r]; simpl; [done|].
  destruct (_ <? _); [|apply (IH (d, i, r))].
  etrans; [|apply (IH (_, _, _))]. simpl. rewrite dom_insert_L. clear. set_solver.
Qed.

Section Distribute.
Variable sha256 : bytes -> bytes.

(** All the validators are dealt, when there is a shard to deal them to. *)
Lemma distributeValidators_spec d validators rand balanced :
  distinct sha256 rand validators -> d <> ∅ ->
  exists d', distributeValidators sha256 d validators rand balanced = inr d' /\
    allOf d' ≡ₚ allOf d ++ validators /\ dom d ⊆ dom d'.
Proof.
  intros Hd Hne. unfold distributeValidators.
  assert (Hsz : (size d =? 0)%nat = false) by (apply Nat.eqb_neq; by rewrite map_size_empty_iff).
  rewrite Hsz. pose proof (shuffleList_perm _ _ _ Hd) as Hp.
  destruct balanced.
  - destruct (equalizeValidatorsLists d _) as [d1 vs1] eqn:E. eexists. split; [done|]. split.
    + rewrite deal_perm. apply equalizeValidatorsLists_perm in E. by rewrite E, Hp.
    + etrans; [|apply deal_dom]. unfold equalizeValidatorsLists in E.
      pose proof (equalize_dom (shuffleList sha256 validators rand) (getMaxListSize d) (sortKeys d)
        (d, 0, lenZ (shuffleList sha256 validators rand))) as He.
      destruct (fold_left _ _ _) as [[d2 i2] r2]. by injection E as <- <-.
  - eexists. split; [done|]. split; [by rewrite deal_perm, Hp|apply deal_dom].
Qed.

Lemma DistributeValidators_spec dd d s rand balanced :
  distinct sha256 rand (allOf s) -> d <> ∅ ->
  exists d' s', DistributeValidators sha256 dd d s rand balanced = inr (d', s') /\
    allOf d' ≡ₚ allOf d ++ allOf s.
Proof.
  intros Hd Hne. destruct dd; simpl.
  - destruct (distributeValidators_spec d (allOf s) rand balanced Hd Hne) as (d' & -> & Hp & _). by exists d', s.
  - destruct (moveNodesToMap d s) as [d' s'] eqn:E. exists d', s'. split; [done|].
    by apply moveNodesToMap_spec in E as [-> _].
Qed.

(** The outcome does not depend on the order the validators come in. *)
Lemma distributeValidators_order d l k rand balanced :
  distinct sha256 rand l -> l ≡ₚ k ->
  distributeValidators sha256 d l rand balanced = distributeValidators sha256 d k rand balanced.
Proof. intros Hd Hp. unfold distributeValidators. by rewrite (shuffleList_order _ _ _ _ Hd Hp). Qed.
End Distribute.
