(* ===== verification/ShufflerNodes.v ===== *)
(** * shuffleNodes as a whole: where every validator goes, and how many are left in
    each list. *)

From stdpp Require Import base list gmap sets sorting.
From Stdlib Require Import ZArith Lia.
From S2P Require Import Prelude Shuffler ShufflerSpec ShufflerMoves.
From S2P Require Import ShufflerMoves.

Section Nodes.
Variable sha256 : bytes -> bytes.
Variable MetachainShardId : Z.
Notation distinct := (distinct sha256).
Notation selectNodes := (selectNodes sha256 MetachainShardId).
Notation shuffleNodes := (shuffleNodes sha256 MetachainShardId).
Notation surplus := (surplus MetachainShardId).

(** The nodes of the lists before the epoch change. *)
Definition oldNodes (arg : shuffleNodesArg) : list Validator := allOf (eligible arg) ++ allOf (waiting arg).

Definition shardsOf (arg : shuffleNodesArg) : list Z := seqZ 0 (nbShards arg) ++ [MetachainShardId].

(** The number of nodes of a shard. *)
Definition sizeOf (arg : shuffleNodesArg) (s : Z) : Z :=
  shardSize MetachainShardId (nodesMeta arg) (nodesPerShard arg) s.

(** What the first part of shuffleNodes gives. *)
Record selected (arg : shuffleNodesArg) (num : counts) (ne nw so : vmap) (still : list Validator)
    (gone answered absent : list Validator) : Prop := {
  se_nodes : oldNodes arg ≡ₚ allOf ne ++ allOf nw ++ allOf so ++ gone;
  se_leaving : unstakeLeaving arg ++ additionalLeaving arg ≡ₚ still ++ answered ++ absent;
  se_keys : keys gone ≡ₚ keys answered;
  se_absent : forall k, k ∈ keys absent -> k ∉ keys (oldNodes arg);
  se_waiting : MetachainShardId ∈ dom nw;
  se_dom : dom ne = dom (eligible arg) ∪ (dom (waiting arg) ∪ list_to_set (shardsOf arg));
}.

(** The sizes of the lists of a shard, before the numbers needed are moved. *)
Definition sizesFit (arg : shuffleNodesArg) (num : counts) (ne : vmap) : Prop :=
  forall s, lenZ (listOf (eligible arg) s) < 2 ^ 32 -> lenZ (listOf (waiting arg) s) < 2 ^ 32 ->
    0 <= sizeOf arg s < 2 ^ 32 ->
    exists e w c, 0 <= e <= lenZ (listOf (eligible arg) s) /\ 0 <= w /\ 0 <= c /\
      e + w - c = lenZ (listOf (eligible arg) s) + lenZ (listOf (waiting arg) s)
                  - Z.min (maxNodesToSwapPerShard arg) (countOf num s) /\
      lenZ (listOf ne s) = e - Z.min e c + needed (e - Z.min e c) w (sizeOf arg s).

Lemma distinct_old_eligible rand el0 wt0 el wt g :
  distinct rand (allOf el0 ++ allOf wt0) -> allOf el0 ++ allOf wt0 ≡ₚ allOf el ++ allOf wt ++ g ->
  distinct rand (allOf el).
Proof. intros Hd Hp. by eapply distinct_sub. Qed.

Lemma selectNodes_spec arg num :
  computeNumToRemove MetachainShardId arg = inr num ->
  distinct (randomness arg) (oldNodes arg) -> 0 <= maxNodesToSwapPerShard arg ->
  exists ne nw so still gone answered absent,
    selectNodes arg = inr (ne, nw, so, still) /\
    selected arg num ne nw so still gone answered absent /\ sizesFit arg num ne.
Proof.
  intros Hnum Hd Hmx. unfold Shuffler.selectNodes.
  destruct (createLists_spec MetachainShardId (waiting arg) (nbShards arg)) as (Hc1 & Hc2 & Hc3).
  cbv zeta. set (wc := createListsForAllShards _ _ _) in *. clearbody wc. rewrite Hnum. simpl rbind.
  pose proof (computeNumToRemove_nonneg _ _ _ Hnum) as Hpos0.
  set (num0 := capNumToRemove _ num).
  assert (Hcap : forall s, countOf num0 s = Z.min (maxNodesToSwapPerShard arg) (countOf num s))
    by (intros s; by apply countOf_cap).
  clearbody num0. assert (Hpos : forall s, 0 <= countOf num0 s)
    by (intros s; rewrite Hcap; specialize (Hpos0 s); lia).
  destruct (removeLeavingNodesNotExistingInEligibleOrWaiting (unstakeLeaving arg) _ _) as [lv1 ab1] eqn:E1.
  destruct (removeLeavingNodesNotExistingInEligibleOrWaiting (additionalLeaving arg) _ _) as [lv2 ab2] eqn:E2.
  apply removeNotExisting_spec in E1 as [Hl1 Ha1], E2 as [Hl2 Ha2].
  destruct (removeLeavingNodesFromValidatorMaps (eligible arg) wc num0 lv1) as [[[el1 wt1] st1] n1] eqn:E3.
  apply removeLeaving_spec in E3 as (g1 & an1 & L1); [|done].
  destruct (removeLeavingNodesFromValidatorMaps el1 wt1 n1 lv2) as [[[el2 wt2] st2] n2] eqn:E4.
  apply removeLeaving_spec in E4 as (g2 & an2 & L2); [|by apply (lb_pos _ _ _ _ _ _ _ _ _ _ L1)].
  pose proof (leftBoth_trans _ _ _ _ _ _ _ _ _ _ _ _ _ _ _ _ _ L1 L2) as [A1 A2 A3 A4 A5 A6 [A7 A8]].
  clear L1 L2. rewrite Hc1 in A1.
  destruct (shuffleOutNodes_spec sha256 el2 n2 (randomness arg)) as (so & ne & Hso & Hp & Hsz & Hd1 & Hd2);
    [by eapply distinct_old_eligible|done|]. rewrite Hso. simpl rbind.
  destruct (moveMaxNumNodesToMap _ ne wt2 _ _) as [ne' nw] eqn:E5.
  apply moveMax_spec in E5 as (M1 & M2 & M3 & M4).
  exists ne', nw, so, (st1 ++ st2), (g2 ++ g1), (an2 ++ an1), (ab1 ++ ab2). split; [done|]. split.
  - split.
    + unfold oldNodes. clear -A1 Hp M1. perm.
    + clear -A2 Hl1 Hl2. perm.
    + done.
    + intros k. rewrite map_app, elem_of_app. unfold oldNodes. rewrite <- Hc1. intros [H|H]; auto.
    + rewrite M3, A8, Hc3. clear. set_solver.
    + by rewrite M2, Hd2, A7, A8, Hc3.
  - intros s He Hw Hn. pose proof (A6 s) as [B1 B2]. rewrite Hc2 in B2.
    exists (lenZ (listOf el2 s)), (lenZ (listOf wt2 s)), (countOf n2 s).
    pose proof (lenZ_nonneg (listOf el2 s)). pose proof (lenZ_nonneg (listOf wt2 s)).
    split; [lia|]. split; [done|]. split; [done|]. split.
    + rewrite <- Hcap. specialize (A4 s). rewrite Hc2 in A4. lia.
    + assert (Hne : lenZ (listOf ne s) = lenZ (listOf el2 s) - Z.min (lenZ (listOf el2 s)) (countOf n2 s)).
      { destruct (decide (s ∈ dom el2)) as [Hin|Hin]; [destruct (Hsz s Hin); lia|].
        assert (Hz : listOf el2 s = []) by (unfold listOf; by rewrite (proj1 (not_elem_of_dom _ _) Hin)).
        assert (Hz' : listOf ne s = []).
        { unfold listOf. rewrite (proj1 (not_elem_of_dom _ _)); [done|by rewrite Hd2]. }
        rewrite Hz, Hz'. change (lenZ []) with 0. specialize (A5 s). lia. }
      rewrite M4, Hne; [done|specialize (A5 s); lia|lia|done].
Qed.

(** The nodes reported as leaving are those of the request that do not remain. *)
Lemma actualLeaving_keys all still answered absent :
  all ≡ₚ still ++ answered ++ absent ->
  keys (fst (removeValidatorsFromList all still (lenZ still))) ≡ₚ keys answered ++ keys absent.
Proof.
  intros Hp. unfold removeValidatorsFromList.
  destruct (removeLoop_all still all [] (lenZ still) (keys answered ++ keys absent)) as (l' & r & -> & Hl & Hk).
  - rewrite Hp. by rewrite !map_app.
  - done.
  - simpl. rewrite Hp in Hl. apply (Permutation_map PubKey) in Hl. rewrite !map_app, Hk in Hl.
    apply (Permutation_app_inv_l (keys still)). rewrite Hl. apply Permutation_app_comm.
Qed.

(** The nodes that stay, when the keys of those that go are known. *)
Lemma stay_filter (all kept gone : list Validator) (leaving absent : list bytes) :
  NoDup (keys all) -> all ≡ₚ kept ++ gone -> leaving ≡ₚ keys gone ++ absent ->
  (forall k, k ∈ absent -> k ∉ keys all) ->
  filter (fun v => PubKey v ∉ leaving) all ≡ₚ kept.
Proof.
  intros Hnd Hp Hl Hab.
  assert (Hnd' : NoDup (keys kept ++ keys gone)) by (rewrite <- map_app; by rewrite <- Hp).
  apply NoDup_app in Hnd' as (_ & Hdis & _).
  rewrite (filter_Permutation _ _ _ Hp), filter_app, (filter_none _ gone), (filter_all _ kept).
  - by rewrite app_nil_r.
  - apply Forall_forall. intros v Hv. rewrite Hl, not_elem_of_app.
    assert (Hin : PubKey v ∈ keys kept) by (apply list_elem_of_fmap; by exists v).
    split; [by apply Hdis|]. intros Ha. apply Hab in Ha. apply Ha. rewrite Hp, map_app, elem_of_app. by left.
  - apply Forall_forall. intros v Hv Hn. apply Hn. rewrite Hl. apply elem_of_app. left.
    apply list_elem_of_fmap. by exists v.
Qed.

(** The steps of shuffleNodes after the selection. *)
Lemma newNodes_step arg nw :
  distinct (randomness arg) (newNodes arg) -> (flagStakingV4Step3 arg = true -> newNodes arg = []) ->
  MetachainShardId ∈ dom nw ->
  exists nw', checkAndDistributeNewNodes sha256 nw (newNodes arg) (randomness arg) (flagStakingV4Step3 arg)
      = inr nw' /\ allOf nw' ≡ₚ allOf nw ++ newNodes arg /\ MetachainShardId ∈ dom nw'.
Proof.
  intros Hd H3 Hdom. unfold checkAndDistributeNewNodes. destruct (flagStakingV4Step3 arg); simpl.
  - rewrite H3 by done. exists nw. rewrite app_nil_r. done.
  - destruct (distributeValidators_spec sha256 nw (newNodes arg) (randomness arg) false Hd) as (d & -> & H1 & H2).
    + intros ->. rewrite dom_empty_L in Hdom. set_solver.
    + exists d. split; [done|]. split; [done|]. by apply H2.
Qed.

Lemma auction_step arg nw (b : bool) :
  distinct (randomness arg) (auction arg) -> MetachainShardId ∈ dom nw ->
  exists nw', (if b then distributeValidators sha256 nw (auction arg) (randomness arg) (flagBalanceWaitingLists arg)
     else inr nw) = inr nw' /\ allOf nw' ≡ₚ allOf nw ++ (if b then auction arg else []) /\
    MetachainShardId ∈ dom nw'.
Proof.
  intros Hd Hdom. destruct b.
  - destruct (distributeValidators_spec sha256 nw (auction arg) (randomness arg)
      (flagBalanceWaitingLists arg) Hd) as (d & -> & H1 & H2).
    + intros ->. rewrite dom_empty_L in Hdom. set_solver.
    + exists d. split; [done|]. split; [done|]. by apply H2.
  - exists nw. by rewrite app_nil_r.
Qed.

Lemma shuffled_step arg nw so (b : bool) :
  distinct (randomness arg) (allOf so) -> MetachainShardId ∈ dom nw ->
  exists nw' so', (if b then DistributeValidators sha256 (distributor arg) nw so (randomness arg)
       (flagBalanceWaitingLists arg) else inr (nw, so)) = inr (nw', so') /\
    allOf nw' ++ (if b then [] else allOf so') ≡ₚ allOf nw ++ allOf so.
Proof.
  intros Hd Hdom. destruct b.
  - destruct (DistributeValidators_spec sha256 (distributor arg) nw so (randomness arg)
      (flagBalanceWaitingLists arg) Hd) as (d & s' & -> & H1).
    + intros ->. rewrite dom_empty_L in Hdom. set_solver.
    + exists d, s'. rewrite app_nil_r. done.
  - by exists nw, so.
Qed.

(** The nodes of the lists afterwards are those of before, but for the leaving nodes
    reported, with the new nodes and, when they are taken, those of the auction. *)
Definition conserves (arg : shuffleNodesArg) (low : bool) (r : ResUpdateNodes) : Prop :=
  allOf (rEligible r) ++ allOf (rWaiting r) ++
    (if negb (flagStakingV4Step2 arg) || low then [] else allOf (rShuffledOut r))
  ≡ₚ filter (fun v => PubKey v ∉ keys (rLeaving r)) (oldNodes arg) ++ newNodes arg ++
     (if flagStakingV4Step3 arg || low then auction arg else []).

Lemma shuffleNodes_spec arg num :
  computeNumToRemove MetachainShardId arg = inr num ->
  distinct (randomness arg) (oldNodes arg ++ newNodes arg ++ auction arg) ->
  0 <= maxNodesToSwapPerShard arg -> (flagStakingV4Step3 arg = true -> newNodes arg = []) ->
  exists r low, shuffleNodes arg = inr r /\
    rLowWaitingList r = flagCleanupAuctionOnLowWaitingList arg && low /\
    (low = true -> flagStakingV4Step2 arg = true) /\ conserves arg low r /\
    sizesFit arg num (rEligible r) /\
    dom (rEligible r) = dom (eligible arg) ∪ (dom (waiting arg) ∪ list_to_set (shardsOf arg)) /\
    keys (rLeaving r) ⊆ keys (unstakeLeaving arg ++ additionalLeaving arg).
Proof.
  intros Hnum Hd Hmx H3. pose proof (distinct_keys _ _ _ Hd) as Hk.
  assert (Hold : distinct (randomness arg) (oldNodes arg)) by by eapply distinct_sub.
  assert (Hnew : distinct (randomness arg) (newNodes arg)).
  { refine (distinct_sub _ _ _ _ (oldNodes arg ++ auction arg) _ Hd). clear. perm. }
  assert (Hauc : distinct (randomness arg) (auction arg)).
  { refine (distinct_sub _ _ _ _ (oldNodes arg ++ newNodes arg) _ Hd). clear. perm. }
  destruct (selectNodes_spec arg num Hnum Hold Hmx)
    as (ne & nw & so & still & gone & answered & absent & Hsel & [S1 S2 S3 S4 S5 S6] & Hsz).
  assert (Hso : distinct (randomness arg) (allOf so)).
  { refine (distinct_sub _ _ _ _ (allOf ne ++ allOf nw ++ gone) _ Hold). rewrite S1. clear. perm. }
  unfold Shuffler.shuffleNodes. rewrite Hsel. simpl rbind.
  destruct (newNodes_step arg nw Hnew H3 S5) as (nw1 & -> & N1 & N2). simpl rbind.
  set (low := shouldDistributeShuffledToWaitingInStakingV4 _).
  assert (Hlow : low = true -> flagStakingV4Step2 arg = true).
  { subst low. unfold shouldDistributeShuffledToWaitingInStakingV4. simpl. by destruct (flagStakingV4Step2 arg). }
  clearbody low.
  destruct (auction_step arg nw1 (flagStakingV4Step3 arg || low) Hauc N2) as (nw2 & -> & A1 & A2). simpl rbind.
  destruct (shuffled_step arg nw2 so (negb (flagStakingV4Step2 arg) || low) Hso A2) as (nw3 & so3 & -> & B1).
  simpl rbind. pose proof (actualLeaving_keys _ _ _ _ S2) as Hlv.
  destruct (removeValidatorsFromList _ still _) as [lv rest]. simpl in Hlv.
  eexists _, low. split; [reflexivity|]. split; [done|]. split; [done|].
  split; [|split; [done|split; [exact S6|]]].
  2: { simpl. intros k. rewrite Hlv, S2, !map_app, !elem_of_app. tauto. }
  unfold conserves. simpl. rewrite <- S3 in Hlv.
  rewrite (stay_filter (oldNodes arg) (allOf ne ++ allOf nw ++ allOf so) gone (keys lv) (keys absent)).
  - rewrite B1, A1, N1. clear. perm.
  - by apply distinct_keys in Hold.
  - rewrite S1. clear. perm.
  - done.
  - done.
Qed.
End Nodes.
