(* ===== verification/ShufflerTheorems.v ===== *)
(** * The properties of the validators shuffler. *)

From stdpp Require Import base list gmap sets sorting.
From Stdlib Require Import ZArith Lia.
From S2P Require Import Prelude Shuffler ShufflerSpec ShufflerMoves.
From S2P Require Import ShufflerMoves ShufflerNodes.

(** ** Duplicates *)

(** The positions from [i] on do not have the key. *)
Definition cleanFrom (l : list Validator) (key : bytes) (i : nat) : Prop :=
  forall j v, (i <= j)%nat -> l !! j = Some v -> PubKey v <> key.

Lemma removeValidatorFromList_lookup l i j v :
  (i < length l)%nat -> removeValidatorFromList l (Z.of_nat i) !! j = Some v ->
  (j <> i /\ l !! j = Some v) \/ (j = i /\ exists k, (i < k)%nat /\ l !! k = Some v).
Proof.
  intros Hi. unfold removeValidatorFromList, lenZ.
  rewrite (proj2 (Z.ltb_ge _ _)) by lia. rewrite (proj2 (Z.ltb_ge _ _)) by lia. simpl orb. cbv iota.
  destruct (snoc_case l) as (l' & z & ->); [by intros ->; simpl in Hi; lia|].
  rewrite last_snoc, Nat2Z.id. rewrite length_app in *. simpl in *.
  intros Hj. pose proof (lookup_lt_Some _ _ _ Hj) as Hlt. rewrite length_take, length_insert, length_app in Hlt.
  simpl in Hlt. rewrite lookup_take_lt in Hj by lia. destruct (decide (j = i)) as [->|Hne].
  - right. split; [done|]. rewrite list_lookup_insert_eq in Hj by (rewrite length_app; simpl; lia).
    injection Hj as <-. exists (length l'). split; [lia|]. by rewrite list_lookup_middle.
  - left. split; [done|]. by rewrite list_lookup_insert_ne in Hj by done.
Qed.

Lemma removeKeyBack_spec key i : forall l, (i <= length l)%nat -> cleanFrom l key i ->
  removeKeyBack l key i ≡ₚ filter (fun v => PubKey v <> key) l.
Proof.
  induction i as [|i IH]; intros l Hi Hc; simpl.
  - rewrite filter_all; [done|]. apply Forall_forall. intros v Hv.
    apply list_elem_of_lookup in Hv as [j Hj]. apply (Hc j v); [lia|done].
  - destruct (lookup_lt_is_Some_2 l i) as [v Hv]; [lia|]. rewrite Hv. destruct (beq key (PubKey v)) eqn:E.
    + apply beq_true in E. pose proof (removeValidatorFromList_perm _ _ _ Hv) as Hp.
      assert (Hlen : length l = S (length (removeValidatorFromList l (Z.of_nat i))))
        by (apply Permutation_length in Hp; done).
      rewrite IH.
      * rewrite (filter_Permutation _ _ _ Hp). rewrite filter_cons_False by naive_solver. done.
      * lia.
      * intros j w Hj Hw. apply removeValidatorFromList_lookup in Hw as [[Hne Hw]|[-> (k & Hk & Hw)]]; [..|lia].
        -- apply (Hc j w); [lia|done].
        -- apply (Hc k w); [lia|done].
    + apply beq_false in E. apply IH; [lia|]. intros j w Hj Hw. destruct (decide (j = i)) as [->|Hne].
      * naive_solver.
      * apply (Hc j w); [lia|done].
Qed.

(** Whatever the order and the repetitions of the two lists of leaving nodes,
    removing the duplicates leaves exactly the additional leaving nodes that are not in
    the unstaked list, each as often as before, although the last element of the list
    is moved into the place of a removed one while the list is scanned. *)
Theorem removeDupplicates_spec unstake additional :
  removeDupplicates unstake additional ≡ₚ filter (fun v => PubKey v ∉ keys unstake) additional.
Proof.
  unfold removeDupplicates. revert additional. induction unstake as [|u us IH]; intros l; simpl.
  - rewrite filter_all; [done|]. apply Forall_forall. intros v _. apply not_elem_of_nil.
  - rewrite IH. assert (H : removeKeyBack l (PubKey u) (length l) ≡ₚ filter (fun v => PubKey v <> PubKey u) l).
    { apply removeKeyBack_spec; [lia|]. intros j v Hj Hv. apply lookup_lt_Some in Hv. lia. }
    etrans; [apply filter_Permutation, H|]. rewrite list_filter_filter.
    erewrite list_filter_iff; [done|]. intros v. simpl. rewrite not_elem_of_cons. tauto.
Qed.

(** ** The configuration of the epoch *)

#[global] Instance epochOrder_total : Total epochOrder.
Proof. intros a b. unfold epochOrder. lia. Qed.

#[global] Instance epochOrder_trans : Transitive epochOrder.
Proof. intros a b c. unfold epochOrder. lia. Qed.

Definition latest (configs : list MaxNodesChangeConfig) (epoch : Z) (active : MaxNodesChangeConfig) : Prop :=
  (active ∈ configs /\ EpochEnable active <= epoch /\
   forall c, c ∈ configs -> EpochEnable c <= epoch -> EpochEnable c <= EpochEnable active)
  \/ forall c, c ∈ configs -> epoch < EpochEnable c.

#[global] Instance latest_proper : Proper (Permutation ==> eq ==> eq ==> iff) latest.
Proof. intros l k Hp e ? <- a ? <-. unfold latest. by setoid_rewrite Hp. Qed.

Lemma choose_latest configs epoch : forall active,
  StronglySorted epochOrder configs ->
  let active' := fold_left (fun active c => if EpochEnable c <=? epoch then c else active) configs active in
  latest configs epoch active' /\ ((forall c, c ∈ configs -> epoch < EpochEnable c) -> active' = active).
Proof.
  induction configs as [|c cs IH]; intros active Hs; simpl.
  - split; [|done]. right. intros c H. by apply elem_of_nil in H.
  - apply StronglySorted_inv in Hs as [Hs Hc]. rewrite Forall_forall in Hc.
    destruct (Z.leb_spec (EpochEnable c) epoch) as [Hle|Hgt].
    + destruct (IH c Hs) as [[(H1 & H2 & H3)|H1] H4].
      * split; [|intros H; specialize (H c ltac:(left)); lia]. left.
        split; [by right|]. split; [done|]. intros c' [->|Hin]%elem_of_cons Hle'; [by apply Hc|auto].
      * rewrite H4 by done. split; [|intros H; specialize (H c ltac:(left)); lia]. left.
        split; [left|]. split; [done|].
        intros c' [->|Hin]%elem_of_cons Hle'; [done|]. specialize (H1 c' Hin). lia.
    + destruct (IH active Hs) as [[(H1 & H2 & H3)|H1] H4].
      * specialize (Hc _ H1). unfold epochOrder in Hc. lia.
      * split; [|intros _; by apply H4]. right. intros c' [->|Hin]%elem_of_cons; [done|auto].
Qed.

(** Whatever the order of the configurations the shuffler is created with, the one
    in force after UpdateNodeLists is the latest that is enabled in the epoch of the
    call; before the first of them, every node of a shard can be shuffled out. *)
Theorem active_config_latest {float32 : Type} (times : float32 -> Z -> Z) args sha256 meta flags u :
  let rhs := NewHashValidatorsShuffler times args in
  let rhs' := fst (UpdateNodeLists sha256 meta rhs flags u) in
  latest (MaxNodesEnableConfig _ args) (uEpoch u) (activeNodesConfig rhs') /\
  ((forall c, c ∈ MaxNodesEnableConfig _ args -> uEpoch u < EpochEnable c) ->
   NodesToShufflePerShard (activeNodesConfig rhs') = NodesShard _ args).
Proof.
  intros rhs rhs'. subst rhs rhs'. unfold UpdateNodeLists, updateShufflerConfig. simpl.
  assert (Hp : sortConfigs (MaxNodesEnableConfig _ args) ≡ₚ MaxNodesEnableConfig _ args)
    by apply merge_sort_Permutation.
  destruct (choose_latest (sortConfigs (MaxNodesEnableConfig _ args)) (uEpoch u)
    (mkMaxNodes 0 0 (NodesShard _ args))) as [H1 H2]; [by apply (StronglySorted_merge_sort epochOrder)|].
  split.
  - by apply (latest_proper _ _ Hp _ _ eq_refl _ _ eq_refl).
  - intros H. rewrite H2; [done|]. intros c Hc. apply H. by rewrite <- Hp.
Qed.

Section Theorems.
Variable sha256 : bytes -> bytes.
Variable MetachainShardId : Z.
Notation distinct := (distinct sha256).
Notation shuffleNodes := (shuffleNodes sha256 MetachainShardId).
Notation surplus := (surplus MetachainShardId).
Notation shardsOf := (shardsOf MetachainShardId).
Notation sizeOf := (sizeOf MetachainShardId).

Lemma computeNumToRemove_ok arg : nbShards arg <> 0 ->
  (forall s, s ∈ shardsOf arg -> 0 <= surplus arg s) ->
  exists num, computeNumToRemove MetachainShardId arg = inr num /\
    forall s, s ∈ shardsOf arg -> countOf num s = surplus arg s.
Proof.
  intros Hnb Hs. unfold computeNumToRemove. rewrite (proj2 (Z.eqb_neq _ _)) by done.
  destruct (numToRemoveLoop_ok MetachainShardId arg (shardsOf arg) ∅ Hs) as (num & Hl & Hc).
  exists num. split; [done|]. intros s Hin. rewrite Hc. by rewrite decide_True.
Qed.

(** What shuffling promises when every shard has enough nodes. *)
Lemma shuffleNodes_result arg : nbShards arg <> 0 -> (forall s, s ∈ shardsOf arg -> 0 <= surplus arg s) ->
  distinct (randomness arg) (oldNodes arg ++ newNodes arg ++ auction arg) -> 0 <= maxNodesToSwapPerShard arg ->
  (flagStakingV4Step3 arg = true -> newNodes arg = []) ->
  exists r low, shuffleNodes arg = inr r /\
    rLowWaitingList r = flagCleanupAuctionOnLowWaitingList arg && low /\ (low = true -> flagStakingV4Step2 arg = true) /\
    conserves arg low r /\
    dom (rEligible r) = dom (eligible arg) ∪ (dom (waiting arg) ∪ list_to_set (shardsOf arg)) /\
    keys (rLeaving r) ⊆ keys (unstakeLeaving arg ++ additionalLeaving arg) /\
    forall s, s ∈ shardsOf arg -> lenZ (listOf (eligible arg) s) < 2 ^ 32 -> lenZ (listOf (waiting arg) s) < 2 ^ 32 ->
      0 <= sizeOf arg s < 2 ^ 32 ->
      sizeOf arg s <= lenZ (listOf (rEligible r) s) /\
      (lenZ (listOf (eligible arg) s) <= sizeOf arg s -> lenZ (listOf (rEligible r) s) = sizeOf arg s).
Proof.
  intros Hnb Hsizes Hdistinct Hswap Hnew. destruct (computeNumToRemove_ok arg Hnb Hsizes) as (num & Hnum & Hc).
  destruct (shuffleNodes_spec sha256 MetachainShardId arg num Hnum Hdistinct Hswap Hnew)
    as (r & low & H1 & H2 & H3 & H4 & Hfit & H5 & H6). exists r, low. do 6 (split; [done|]). intros s Hs B1 B2 B3.
  destruct (Hfit s B1 B2 B3) as (e & w & c & He & Hw & Hc0 & Hsum & Hlen).
  rewrite Hc in Hsum by done. specialize (Hsizes s Hs). unfold ShufflerMoves.surplus in *.
  rewrite Hlen. unfold needed. unfold ShufflerNodes.sizeOf in *. lia.
Qed.

(** C7: When every shard has enough eligible and waiting nodes, shuffling succeeds and
    no validator is lost or duplicated: the new eligible and waiting lists, with the
    shuffled out nodes when they are not sent to the waiting lists, hold exactly the old
    eligible and waiting nodes that are not reported as leaving, the new nodes, and the
    auction nodes when they are taken. *)
Theorem shuffleNodes_conservation arg
  (Hnb : nbShards arg <> 0)
  (Hsizes : forall s, s ∈ shardsOf arg -> 0 <= surplus arg s)
  (Hdistinct : distinct (randomness arg) (oldNodes arg ++ newNodes arg ++ auction arg))
  (Hswap : 0 <= maxNodesToSwapPerShard arg)
  (Hnew : flagStakingV4Step3 arg = true -> newNodes arg = []) :
  exists r low, shuffleNodes arg = inr r /\
    rLowWaitingList r = flagCleanupAuctionOnLowWaitingList arg && low /\
    (low = true -> flagStakingV4Step2 arg = true) /\ conserves arg low r.
Proof.
  destruct (shuffleNodes_result arg Hnb Hsizes Hdistinct Hswap Hnew) as (r & low & H1 & H2 & H3 & H4 & _). by exists r, low.
Qed.

(** After shuffling, every shard has at least as many eligible nodes as its
    configured size, and exactly that many when it did not have more before: leaving
    and shuffled out nodes never empty a shard. *)
Theorem shards_stay_full arg
  (Hnb : nbShards arg <> 0)
  (Hsizes : forall s, s ∈ shardsOf arg -> 0 <= surplus arg s)
  (Hdistinct : distinct (randomness arg) (oldNodes arg ++ newNodes arg ++ auction arg))
  (Hswap : 0 <= maxNodesToSwapPerShard arg)
  (Hnew : flagStakingV4Step3 arg = true -> newNodes arg = [])
  (Hbounds : forall s, lenZ (listOf (eligible arg) s) < 2 ^ 32 /\ lenZ (listOf (waiting arg) s) < 2 ^ 32 /\
     0 <= sizeOf arg s < 2 ^ 32) :
  exists r, shuffleNodes arg = inr r /\
    forall s, s ∈ shardsOf arg ->
      sizeOf arg s <= lenZ (listOf (rEligible r) s) /\
      (lenZ (listOf (eligible arg) s) <= sizeOf arg s -> lenZ (listOf (rEligible r) s) = sizeOf arg s).
Proof.
  destruct (shuffleNodes_result arg Hnb Hsizes Hdistinct Hswap Hnew) as (r & low & H1 & _ & _ & _ & _ & _ & Hfull).
  exists r. split; [done|]. intros s Hs. destruct (Hbounds s) as (B1 & B2 & B3). by apply Hfull.
Qed.

(** When a shard has fewer eligible and waiting nodes than its size, shuffling is
    refused with the error that names such a shard, whatever else the arguments say. *)
Theorem shuffleNodes_too_small arg
  (Hnb : nbShards arg <> 0)
  (Hsmall : exists s, s ∈ shardsOf arg /\ surplus arg s < 0) :
  exists s, s ∈ shardsOf arg /\ surplus arg s < 0 /\
    shuffleNodes arg = inl (ErrSmallShardEligibleListSize s).
Proof.
  destruct (numToRemoveLoop_err MetachainShardId arg (shardsOf arg) ∅ Hsmall) as (s & H1 & H2 & H3).
  exists s. split; [done|]. split; [done|]. unfold Shuffler.shuffleNodes, selectNodes, computeNumToRemove.
  rewrite (proj2 (Z.eqb_neq _ _)) by done. unfold ShufflerNodes.shardsOf in H3. by rewrite H3.
Qed.

(** The distribution of validators over the shards is the same on every node: it
    does not depend on the order in which the validators are met, although Go iterates
    over maps in an arbitrary order; and it deals every validator exactly once. *)
Theorem distribution_deterministic dest l k rand balanced
  (Hdistinct : distinct rand l) (Hperm : l ≡ₚ k) (Hdest : dest <> ∅) :
  exists dest', distributeValidators sha256 dest l rand balanced = inr dest' /\
    distributeValidators sha256 dest k rand balanced = inr dest' /\
    allOf dest' ≡ₚ allOf dest ++ l.
Proof.
  destruct (distributeValidators_spec sha256 dest l rand balanced Hdistinct Hdest) as (d & Hd & Hp & _).
  exists d. split; [done|]. split; [|done].
  by rewrite <- (distributeValidators_order sha256 dest l k rand balanced Hdistinct Hperm).
Qed.
End Theorems.

(** ** A concrete epoch change *)

Module ShufflerInstances.
Definition node (k : Z) : Validator := mkValidator [k] 1 k.
Definition meta : Z := 4294967295.
Definition idHash (b : bytes) : bytes := b.

(** Two shards of two nodes, one waiting node each; two nodes leave, one of them
    unknown; an auction node is there. *)
Definition epochArg : shuffleNodesArg :=
  mkShuffleNodesArg
    (<[0 := [node 1; node 2]]> (<[meta := [node 3; node 4]]> ∅))
    (<[0 := [node 5]]> (<[meta := [node 6]]> ∅))
    [node 2] [node 9] [node 7] [node 8] [12] CrossShard 2 2 1 1 10 true false false false.

(** The same with a shard that is too small. *)
Definition smallArg : shuffleNodesArg :=
  mkShuffleNodesArg (<[0 := [node 1; node 2]]> (<[meta := [node 3]]> ∅)) ∅
    [] [] [] [] [12] IntraShard 2 2 1 1 10 true false false false.

Lemma epochArg_shards s : s ∈ shardsOf meta epochArg -> s = 0 \/ s = meta.
Proof. intros H. vm_compute in H. set_solver. Qed.

Lemma epochArg_sizes s : s ∈ shardsOf meta epochArg -> 0 <= surplus meta epochArg s.
Proof. intros [-> | ->]%epochArg_shards; by vm_compute. Qed.

Lemma epochArg_distinct :
  distinct idHash (randomness epochArg) (oldNodes epochArg ++ newNodes epochArg ++ auction epochArg).
Proof. unfold distinct. apply (bool_decide_unpack _). by vm_compute. Qed.

Lemma epochArg_bounds s : lenZ (listOf (eligible epochArg) s) < 2 ^ 32 /\
  lenZ (listOf (waiting epochArg) s) < 2 ^ 32 /\ 0 <= sizeOf meta epochArg s < 2 ^ 32.
Proof.
  unfold sizeOf, shardSize. simpl. rewrite !listOf_insert.
  repeat case_decide; destruct (s =? meta); by vm_compute.
Qed.

(** The result: the waiting nodes replace the leaving and the shuffled out ones. *)
Definition epochResult : ResUpdateNodes := Eval vm_compute in
  match shuffleNodes idHash meta epochArg with
  | inr r => r
  | inl _ => mkResUpdateNodes ∅ ∅ ∅ [] [] false
  end.

Example epochResult_ok : shuffleNodes idHash meta epochArg = inr epochResult.
Proof. by vm_compute. Qed.

Lemma shuffleNodes_conservation_witness :
  exists r low, shuffleNodes idHash meta epochArg = inr r /\
    rLowWaitingList r = flagCleanupAuctionOnLowWaitingList epochArg && low /\
    (low = true -> flagStakingV4Step2 epochArg = true) /\ conserves epochArg low r.
Proof.
  apply (shuffleNodes_conservation idHash meta epochArg); [done|apply epochArg_sizes|apply epochArg_distinct|done|done].
Defined.

Lemma shards_stay_full_witness :
  exists r, shuffleNodes idHash meta epochArg = inr r /\
    forall s, s ∈ shardsOf meta epochArg ->
      sizeOf meta epochArg s <= lenZ (listOf (rEligible r) s) /\
      (lenZ (listOf (eligible epochArg) s) <= sizeOf meta epochArg s ->
       lenZ (listOf (rEligible r) s) = sizeOf meta epochArg s).
Proof.
  apply (shards_stay_full idHash meta epochArg);
    [done|apply epochArg_sizes|apply epochArg_distinct|done|done|apply epochArg_bounds].
Defined.

Lemma shuffleNodes_too_small_witness :
  exists s, s ∈ shardsOf meta smallArg /\ surplus meta smallArg s < 0 /\
    shuffleNodes idHash meta smallArg = inl (ErrSmallShardEligibleListSize s).
Proof.
  apply (shuffleNodes_too_small idHash meta smallArg); [done|]. exists meta.
  split; [|done]. apply (bool_decide_unpack _). by vm_compute.
Defined.

Lemma distribution_deterministic_witness :
  exists dest', distributeValidators idHash (waiting epochArg) [node 7; node 8] [12] true = inr dest' /\
    distributeValidators idHash (waiting epochArg) [node 8; node 7] [12] true = inr dest' /\
    allOf dest' ≡ₚ allOf (waiting epochArg) ++ [node 7; node 8].
Proof.
  apply (distribution_deterministic idHash).
  - unfold distinct. apply (bool_decide_unpack _). by vm_compute.
  - apply Permutation_swap.
  - simpl. apply insert_non_empty.
Defined.
End ShufflerInstances.
