(* ===== verification/NodesSelection.v ===== *)
(** * Choosing a group out of a list, with weights: sharding/nodesCoordinator
    (selectionBasedProvider.go, expandedListSampling.go, common.go).

    The list is expanded, each index as often as its weight says; an index that was chosen
    is taken out with all its copies.  The provider does not build the smaller lists: it
    keeps the intervals that were taken out, and moves an index past them.  The theorem is
    that it computes the same as taking the elements out. *)

From stdpp Require Import base list sets sorting.
From Stdlib Require Import ZArith Lia.
From S2P Require Import Prelude.

Inductive selectErr :=
| ErrNilWeights
| ErrInvalidWeight
| ErrNilRandomness
| ErrInvalidSampleSize
| ErrNilRandomSelector
| ErrNilHasher
| SelectPanic.

Record validatorEntry := mkEntry { startIndex : Z; numAppearances : Z }.

Record SelectionBasedProvider := mkProvider { sortedSlice : list validatorEntry; sbpSize : Z }.

Definition NewSelectionBasedProvider : SelectionBasedProvider := mkProvider [] 0.

Fixpoint insertEntry (ve : validatorEntry) (l : list validatorEntry) : list validatorEntry :=
  match l with
  | [] => [ve]
  | e :: l' => if startIndex ve <=? startIndex e then ve :: l else e :: insertEntry ve l'
  end.

Definition addToSortedSlice (ve : validatorEntry) (sbp : SelectionBasedProvider) : SelectionBasedProvider :=
  mkProvider (insertEntry ve (sortedSlice sbp)) (sbpSize sbp + numAppearances ve).

(** From the position below [i] on to the front: after the first other value. *)
Fixpoint startBack (l : list Z) (val : Z) (i : nat) : nat :=
  match i with
  | O => O
  | S i' => if decide (l !! i' = Some val) then startBack l val i' else i
  end.

(** From the position [i] on: how many are equal. *)
Fixpoint equalPrefix (val : Z) (l : list Z) : nat :=
  match l with
  | [] => O
  | x :: l' => if decide (x = val) then S (equalPrefix val l') else O
  end.

Definition computeStartIndexAndNumAppearancesForValidator (expEligibleList : list Z) (idx : nat) : Z * Z :=
  let val := nth idx expEligibleList 0 in
  let startIdx := Z.of_nat (startBack expEligibleList val idx) in
  let endIdx := Z.of_nat idx + Z.of_nat (equalPrefix val (drop (S idx) expEligibleList)) in
  (startIdx, endIdx - startIdx + 1).

Definition add (expElList : list Z) (index : nat) (sbp : SelectionBasedProvider) : SelectionBasedProvider :=
  let (startIdx, numAppearances) := computeStartIndexAndNumAppearancesForValidator expElList index in
  addToSortedSlice (mkEntry startIdx numAppearances) sbp.

Fixpoint adjustIndex (slice : list validatorEntry) (index : Z) : Z :=
  match slice with
  | [] => index
  | entry :: slice' => if index <? startIndex entry then index else adjustIndex slice' (u64 (index + numAppearances entry))
  end.

(** binary.BigEndian *)
Definition PutUint64 (n : Z) : bytes := map (fun i => Z.land (Z.shiftr n (8 * i)) 255) [7; 6; 5; 4; 3; 2; 1; 0].
Definition BigEndianUint64 (b : bytes) : option Z :=
  if (length b <? 8)%nat then None else Some (foldl (fun n x => n * 256 + x) 0 (take 8 b)).

Section Selection.
(** hasher.Compute *)
Variable hasher : bytes -> bytes.

Definition computeRandomnessAsUint64 (randomness : bytes) (index : Z) : option Z :=
  BigEndianUint64 (hasher (PutUint64 index ++ randomness)).

(** The loop of Get, with the turns that are left. *)
Fixpoint getLoop (randomness : bytes) (expandedEligibleList : list Z) (turns : nat) (i : Z) (sbp : SelectionBasedProvider)
    : selectErr + list Z :=
  match turns with
  | O => inr []
  | S turns' =>
      match computeRandomnessAsUint64 randomness i with
      | None => inl SelectPanic
      | Some newRandomness =>
          let lenExpandedList := Z.of_nat (length expandedEligibleList) in
          if lenExpandedList <=? sbpSize sbp then inl ErrInvalidSampleSize
          else
            let index := Z.to_nat (adjustIndex (sortedSlice sbp) (newRandomness mod (lenExpandedList - sbpSize sbp))) in
            match expandedEligibleList !! index with
            | None => inl SelectPanic
            | Some v =>
                let? validators := getLoop randomness expandedEligibleList turns' (i + 1) (add expandedEligibleList index sbp) in
                inr (v :: validators)
            end
      end
  end.

Definition Get (randomness : bytes) (numValidators : Z) (expandedEligibleList : list Z) : selectErr + list Z :=
  if blen randomness =? 0 then inl ErrNilRandomness
  else if Z.of_nat (length expandedEligibleList) <? numValidators then inl ErrInvalidSampleSize
  else getLoop randomness expandedEligibleList (Z.to_nat numValidators) 0 NewSelectionBasedProvider.

(** ** The selector over an expanded list *)

Record selectorExpandedList := mkSelector { expandedList : list Z; uniqueItems : Z }.

Definition minWeight : Z := 1.

Fixpoint expandFrom (i : Z) (weightList : list Z) : selectErr + list Z :=
  match weightList with
  | [] => inr []
  | w :: l => if w <? minWeight then inl ErrInvalidWeight else let? rest := expandFrom (i + 1) l in inr (replicate (Z.to_nat w) (u32 i) ++ rest)
  end.

Definition expandList (weightList : list Z) : selectErr + list Z := expandFrom 0 weightList.

Definition NewSelectorExpandedList (weightList : list Z) : selectErr + selectorExpandedList :=
  if (length weightList =? 0)%nat then inl ErrNilWeights
  else let? l := expandList weightList in inr (mkSelector l (u32 (Z.of_nat (length weightList)))).

Definition Select (s : selectorExpandedList) (randSeed : bytes) (sampleSize : Z) : selectErr + list Z :=
  if blen randSeed =? 0 then inl ErrNilRandomness
  else if (sampleSize =? 0) || (uniqueItems s <? sampleSize) then inl ErrInvalidSampleSize
  else Get randSeed sampleSize (expandedList s).

(** ** The reference: take the chosen element out, with its copies *)

Fixpoint sample (randomness : bytes) (l : list Z) (turns : nat) (i : Z) : selectErr + list Z :=
  match turns with
  | O => inr []
  | S turns' =>
      match computeRandomnessAsUint64 randomness i with
      | None => inl SelectPanic
      | Some r =>
          match l !! Z.to_nat (r mod Z.of_nat (length l)) with
          | None => inl ErrInvalidSampleSize
          | Some v => let? validators := sample randomness (filter (fun x => x <> v) l) turns' (i + 1) in inr (v :: validators)
          end
      end
  end.
End Selection.

(** ** The intervals of the provider *)

(** The value [v] is at the positions of the interval [e] of [l], and at no others. *)
Definition block (l : list Z) (v : Z) (e : validatorEntry) : Prop :=
  0 <= startIndex e /\ 0 < numAppearances e /\
  forall q : nat, l !! q = Some v <-> startIndex e <= Z.of_nat q < startIndex e + numAppearances e.

(** Equal values are next to each other. *)
Definition grouped (l : list Z) : Prop := forall v, v ∈ l -> exists e, block l v e.

Definition before (e1 e2 : validatorEntry) : Prop := startIndex e1 + numAppearances e1 <= startIndex e2.

Definition sumOf (l : list validatorEntry) : Z := foldr (fun e n => numAppearances e + n) 0 l.

(** The values [vs] were taken out. *)
Record providerIs (l : list Z) (sbp : SelectionBasedProvider) (vs : list Z) : Prop := {
  provider_sorted : StronglySorted before (sortedSlice sbp);
  provider_blocks : Forall2 (fun e v => block l v e) (sortedSlice sbp) vs;
  provider_nodup : NoDup vs;
  provider_size : sbpSize sbp = sumOf (sortedSlice sbp);
}.

(** The sum of the intervals that start before [p]. *)
Definition sumBelow (l : list validatorEntry) (p : Z) : Z :=
  foldr (fun e n => (if startIndex e <=? p then numAppearances e else 0) + n) 0 l.

Lemma sumBelow_none l p : Forall (fun e => p < startIndex e) l -> sumBelow l p = 0.
Proof. induction 1 as [|e l He _ IH]; simpl; [done|]. destruct (Z.leb_spec (startIndex e) p); lia. Qed.

Lemma sumOf_nonneg l : Forall (fun e => 0 < numAppearances e) l -> 0 <= sumOf l.
Proof. induction 1; simpl; lia. Qed.

Lemma blocks_positive l slice vs : Forall2 (fun e v => block l v e) slice vs -> Forall (fun e => 0 < numAppearances e) slice.
Proof. induction 1 as [|e v slice vs (_ & H & _)]; constructor; done. Qed.

Lemma adjustIndex_spec slice index : StronglySorted before slice -> Forall (fun e => 0 < numAppearances e) slice ->
  0 <= index -> index + sumOf slice < 2 ^ 64 ->
  let p := adjustIndex slice index in
  index <= p <= index + sumOf slice /\ p = index + sumBelow slice p /\
  Forall (fun e => p < startIndex e \/ startIndex e + numAppearances e <= p) slice.
Proof.
  intros Hs Hp. revert index. induction slice as [|e slice IH]; intros index Hi Hsum; simpl in *; [repeat split; [lia..|constructor]|].
  apply StronglySorted_inv in Hs as [Hs He]. apply Forall_cons in Hp as [Hpe Hp]. pose proof (sumOf_nonneg _ Hp) as Hn.
  destruct (Z.ltb_spec index (startIndex e)) as [Hlt|Hge].
  - assert (Hall : Forall (fun e' => index < startIndex e') slice) by (eapply Forall_impl; [exact He|]; unfold before; simpl; intros; lia).
    split; [lia|]. rewrite sumBelow_none by done. split; [destruct (Z.leb_spec (startIndex e) index); lia|].
    constructor; [by left|]. eapply Forall_impl; [exact Hall|]. simpl. intros; by left.
  - unfold u64. rewrite Z.mod_small by lia. destruct (IH Hs Hp (index + numAppearances e)) as (H1 & H2 & H3); [lia..|].
    split; [lia|]. destruct (Z.leb_spec (startIndex e) (adjustIndex slice (index + numAppearances e))) as [_|Hlt]; [|lia].
    split; [lia|]. constructor; [right; lia|done].
Qed.

(** How often a value is in the part of the list before [p]. *)
Lemma block_before l v e p : block l v e -> (p <= length l)%nat -> Z.of_nat p < startIndex e \/ startIndex e + numAppearances e <= Z.of_nat p ->
  Z.of_nat (length (filter (fun x => x = v) (take p l))) = if startIndex e <=? Z.of_nat p then numAppearances e else 0.
Proof.
  intros (Hs & Hn & Hb) Hpl Hp. assert (Hno : forall k, (forall q, (q < length k)%nat -> k !! q <> Some v) -> filter (fun x => x = v) k = []).
  { intros k Hk. apply filter_none. apply Forall_forall. intros x Hx ->. apply list_elem_of_lookup in Hx as [q Hq].
    apply (Hk q); [by eapply lookup_lt_Some|done]. }
  set (s := Z.to_nat (startIndex e)). set (n := Z.to_nat (numAppearances e)). destruct (Z.leb_spec (startIndex e) (Z.of_nat p)).
  - assert (E : take p l = take s l ++ replicate n v ++ drop (s + n) (take p l)).
    { rewrite <- (take_drop (s + n) (take p l)) at 1. rewrite take_take, Nat.min_l by lia.
      rewrite <- (take_drop s (take (s + n) l)), take_take, Nat.min_l by lia. rewrite <- app_assoc. f_equal. f_equal.
      apply list_eq. intros q. rewrite lookup_drop. destruct (decide (q < n)%nat) as [Hq|Hq].
      - rewrite lookup_replicate_2, lookup_take_lt by lia. apply Hb. lia.
      - rewrite lookup_take_ge by lia. symmetry. apply lookup_replicate_None. lia. }
    rewrite E, !filter_app, !length_app, (Hno (take s l)), (Hno (drop (s + n) (take p l))).
    + rewrite filter_all by (apply Forall_replicate; done). rewrite length_replicate. simpl. lia.
    + intros q Hq E'. rewrite lookup_drop in E'. apply lookup_take_Some in E' as [E' _]. apply Hb in E'. lia.
    + intros q Hq E'. apply lookup_take_Some in E' as [E' Hlt]. apply Hb in E'. lia.
  - rewrite Hno; [done|]. intros q Hq E. apply lookup_take_Some in E as [E Hlt]. apply Hb in E. lia.
Qed.

Lemma filter_in_cons (v : Z) vs (l : list Z) : v ∉ vs ->
  length (filter (fun x => x ∈ v :: vs) l) = (length (filter (fun x => x = v) l) + length (filter (fun x => x ∈ vs) l))%nat.
Proof.
  intros Hv. induction l as [|x l IH]; [done|]. rewrite !filter_cons.
  repeat case_decide; simpl; rewrite IH; try lia; set_solver.
Qed.

Lemma filter_out_length (vs l : list Z) : (length (filter (fun x => x ∉ vs) l) + length (filter (fun x => x ∈ vs) l) = length l)%nat.
Proof. induction l as [|x l IH]; [done|]. rewrite !filter_cons. repeat case_decide; simpl; try lia; done. Qed.

(** How many values that were taken out are before a position that is in no interval. *)
Lemma taken_before l slice vs p : Forall2 (fun e v => block l v e) slice vs -> NoDup vs -> (p <= length l)%nat ->
  Forall (fun e => Z.of_nat p < startIndex e \/ startIndex e + numAppearances e <= Z.of_nat p) slice ->
  Z.of_nat (length (filter (fun x => x ∈ vs) (take p l))) = sumBelow slice (Z.of_nat p).
Proof.
  intros Hb. induction Hb as [|e v slice vs He Hb IH]; intros Hnd Hpl Hf; simpl.
  - rewrite filter_none; [done|]. apply Forall_forall. intros x _. by apply not_elem_of_nil.
  - apply NoDup_cons in Hnd as [Hv Hnd]. apply Forall_cons in Hf as [Hfe Hf]. rewrite filter_in_cons by done.
    rewrite Nat2Z.inj_add, IH by done. by rewrite (block_before l v e).
Qed.

Lemma provider_bounds l sbp vs : providerIs l sbp vs ->
  sbpSize sbp = Z.of_nat (length (filter (fun x => x ∈ vs) l)) /\ 0 <= sbpSize sbp.
Proof.
  intros [Hs Hb Hnd Hsz]. assert (Hend : Forall (fun e => startIndex e + numAppearances e <= Z.of_nat (length l)) (sortedSlice sbp)).
  { clear -Hb. induction Hb as [|e v slice vs (H1 & H2 & He) _ IH]; constructor; [|done].
    set (q := Z.to_nat (startIndex e + numAppearances e - 1)). assert (Hq : l !! q = Some v) by (apply He; lia).
    apply lookup_lt_Some in Hq. lia. }
  pose proof (taken_before l _ vs (length l) Hb Hnd (Nat.le_refl _)) as H. rewrite firstn_all in H. rewrite H, Hsz.
  - split; [|apply sumOf_nonneg; by eapply blocks_positive]. pose proof (blocks_positive _ _ _ Hb) as Hp. clear -Hend Hp.
    induction Hend as [|e slice He _ IH]; [done|]. apply Forall_cons in Hp as [Hpe Hp]. simpl.
    destruct (Z.leb_spec (startIndex e) (Z.of_nat (length l))); [rewrite IH by done; lia|lia].
  - eapply Forall_impl; [exact Hend|]. simpl. intros; by right.
Qed.

(** The index that is moved past the intervals is that of the same element in the smaller
    list. *)
Lemma adjusted_lookup l sbp vs r : providerIs l sbp vs -> Z.of_nat (length l) < 2 ^ 64 -> 0 <= r < Z.of_nat (length l) - sbpSize sbp ->
  exists p v, adjustIndex (sortedSlice sbp) r = Z.of_nat p /\ l !! p = Some v /\ filter (fun x => x ∉ vs) l !! Z.to_nat r = Some v.
Proof.
  intros HP Hl Hr. pose proof HP as [Hs Hb Hnd Hsz]. destruct (provider_bounds l sbp vs HP) as [Hsize Hpos].
  pose proof (blocks_positive _ _ _ Hb) as Hp. destruct (adjustIndex_spec _ r Hs Hp) as (H1 & H2 & H3); [lia..|].
  set (p := Z.to_nat (adjustIndex (sortedSlice sbp) r)) in *. assert (Ep : adjustIndex (sortedSlice sbp) r = Z.of_nat p) by lia.
  rewrite Ep in *. assert (Hpl : (p < length l)%nat) by lia. destruct (lookup_lt_is_Some_2 l p Hpl) as [v Hv].
  exists p, v. split; [done|]. split; [done|]. pose proof (taken_before l _ vs p Hb Hnd ltac:(lia) H3) as Ht.
  pose proof (filter_out_length vs (take p l)) as Hlen. rewrite length_take, Nat.min_l in Hlen by lia.
  assert (Hout : v ∉ vs).
  { intros Hin. apply list_elem_of_lookup in Hin as [i Hi]. destruct (Forall2_lookup_r _ _ _ _ _ Hb Hi) as (e & He & _ & _ & Hbe).
    apply Hbe in Hv. rewrite Forall_lookup in H3. destruct (H3 i e He); lia. }
  rewrite <- (take_drop_middle l p v Hv), filter_app, filter_cons_True by done.
  assert (Z.to_nat r = length (filter (fun x => x ∉ vs) (take p l))) as -> by lia. by rewrite list_lookup_middle.
Qed.

(** *** Adding an interval *)

Lemma startBack_spec l v s (i : nat) : (s <= i)%nat -> (forall q : nat, (s <= q < i)%nat -> l !! q = Some v) ->
  (s = O \/ l !! pred s <> Some v) -> startBack l v i = s.
Proof.
  intros Hsi Hin Hout. induction i as [|i IH]; simpl; [lia|]. case_decide as Hd.
  - destruct (decide (s = S i)) as [->|Hne]; [destruct Hout as [|Hout]; done|]. apply IH; [lia|]. intros q Hq. apply Hin. lia.
  - destruct (decide (s = S i)) as [->|Hne]; [done|]. exfalso. apply Hd, Hin. lia.
Qed.

Lemma equalPrefix_spec v l n : (forall q : nat, (q < n)%nat -> l !! q = Some v) -> l !! n <> Some v -> equalPrefix v l = n.
Proof.
  revert n. induction l as [|x l IH]; intros n Hin Hout; simpl.
  - destruct n; [done|]. by specialize (Hin O ltac:(lia)).
  - destruct n as [|n]; [rewrite decide_False; [done|]; intros ->; by apply Hout|].
    pose proof (Hin O ltac:(lia)) as [= ->]. rewrite decide_True by done. f_equal. apply IH; [|done].
    intros q Hq. apply (Hin (S q)). lia.
Qed.

Lemma interval_found l v e p : block l v e -> l !! p = Some v ->
  computeStartIndexAndNumAppearancesForValidator l p = (startIndex e, numAppearances e).
Proof.
  intros (Hs & Hn & Hb) Hv. unfold computeStartIndexAndNumAppearancesForValidator. rewrite (nth_lookup_Some _ _ _ _ Hv).
  pose proof (proj1 (Hb p) Hv) as Hp. set (s := Z.to_nat (startIndex e)).
  rewrite (startBack_spec l v s), (equalPrefix_spec v _ (Z.to_nat (startIndex e + numAppearances e) - S p)); try lia.
  - f_equal; lia.
  - intros q Hq. rewrite lookup_drop. apply Hb. lia.
  - rewrite lookup_drop. intros Hc%Hb. lia.
  - intros q Hq. apply Hb. lia.
  - destruct (decide (s = O)) as [|Hne]; [by left|right]. intros Hc%Hb. lia.
Qed.

Lemma insert_blocks l e v slice vs : block l v e -> Forall2 (fun e v => block l v e) slice vs ->
  exists vs', vs' ≡ₚ v :: vs /\ Forall2 (fun e v => block l v e) (insertEntry e slice) vs'.
Proof.
  intros He Hb. induction Hb as [|e' v' slice vs He' Hb (vs' & Hp & IH)]; simpl.
  - exists [v]. split; [done|]. apply Forall2_cons. by split.
  - destruct (startIndex e <=? startIndex e').
    + exists (v :: v' :: vs). split; [done|]. apply Forall2_cons. split; [done|]. by apply Forall2_cons.
    + exists (v' :: vs'). split; [rewrite Hp; apply perm_swap|]. by constructor.
Qed.

Lemma insert_elem e e' slice : e' ∈ insertEntry e slice -> e' = e \/ e' ∈ slice.
Proof.
  induction slice as [|x slice IH]; simpl; [intros Hin%list_elem_of_singleton; by left|].
  destruct (startIndex e <=? startIndex x); [intros [->|Hin]%elem_of_cons; [by left|by right]|].
  intros [->|[->|?]%IH]%elem_of_cons; [right; by left|by left|right; by right].
Qed.

Lemma insert_sum e slice : sumOf (insertEntry e slice) = sumOf slice + numAppearances e.
Proof. induction slice as [|x slice IH]; simpl; [lia|]. destruct (startIndex e <=? startIndex x); simpl; lia. Qed.

Lemma insert_before e slice : StronglySorted before slice -> Forall (fun x => 0 < numAppearances x) slice -> 0 < numAppearances e ->
  Forall (fun x => before e x \/ before x e) slice -> StronglySorted before (insertEntry e slice).
Proof.
  intros Hs Hp Hpe. induction Hs as [|x slice Hs IH Hx]; intros Hd; simpl; [by repeat constructor|].
  apply Forall_cons in Hp as [Hpx Hp]. apply Forall_cons in Hd as [Hdx Hd]. unfold before in *.
  destruct (Z.leb_spec (startIndex e) (startIndex x)) as [Hle|Hgt].
  - assert (Hex : startIndex e + numAppearances e <= startIndex x) by lia. constructor; [by constructor|]. constructor; [done|].
    rewrite Forall_forall in Hx |- *. intros y Hy. specialize (Hx y Hy). lia.
  - constructor; [by apply IH|]. apply Forall_forall. intros y [->|Hy]%insert_elem; [lia|]. rewrite Forall_forall in Hx. by apply Hx.
Qed.

Lemma blocks_apart l v1 v2 e1 e2 : block l v1 e1 -> block l v2 e2 -> v1 <> v2 -> before e1 e2 \/ before e2 e1.
Proof.
  intros (H1 & H2 & Hb1) (H3 & H4 & Hb2) Hne. unfold before.
  destruct (Z.le_gt_cases (startIndex e1 + numAppearances e1) (startIndex e2)); [by left|right].
  destruct (Z.le_gt_cases (startIndex e2 + numAppearances e2) (startIndex e1)); [done|]. exfalso. apply Hne.
  set (q := Z.to_nat (Z.max (startIndex e1) (startIndex e2))).
  pose proof (proj2 (Hb1 q) ltac:(lia)) as E1. pose proof (proj2 (Hb2 q) ltac:(lia)) as E2. congruence.
Qed.

Lemma add_provider l sbp vs p v : grouped l -> providerIs l sbp vs -> l !! p = Some v -> v ∉ vs ->
  exists vs', vs' ≡ₚ v :: vs /\ providerIs l (add l p sbp) vs'.
Proof.
  intros Hg [Hs Hb Hnd Hsz] Hv Hout. destruct (Hg v) as [e He]; [by eapply list_elem_of_lookup_2|].
  unfold add. rewrite (interval_found l v e p He Hv). replace (mkEntry (startIndex e) (numAppearances e)) with e by by destruct e.
  destruct (insert_blocks l e v _ _ He Hb) as (vs' & Hp & Hb'). exists vs'. split; [done|]. split; simpl.
  - apply insert_before; [done|by eapply blocks_positive|by destruct He as (_ & ? & _)|].
    apply Forall_lookup. intros i x Hx. destruct (Forall2_lookup_l _ _ _ _ _ Hb Hx) as (w & Hw & Hxw).
    apply (blocks_apart l v w); [done|done|]. intros ->. by eapply Hout, list_elem_of_lookup_2.
  - done.
  - rewrite Hp. by constructor.
  - rewrite insert_sum. lia.
Qed.

(** *** The provider takes the elements out *)

Section Sampling.
Variable hasher : bytes -> bytes.

Lemma getLoop_sample l randomness turns : grouped l -> Z.of_nat (length l) < 2 ^ 64 ->
  forall i sbp vs, providerIs l sbp vs ->
  getLoop hasher randomness l turns i sbp = sample hasher randomness (filter (fun x => x ∉ vs) l) turns i.
Proof.
  intros Hg Hl. induction turns as [|turns IH]; intros i sbp vs HP; simpl; [done|].
  destruct (computeRandomnessAsUint64 hasher randomness i) as [r|]; [|done].
  destruct (provider_bounds l sbp vs HP) as [Hsize Hpos]. pose proof (filter_out_length vs l) as Hlen.
  assert (Hrest : Z.of_nat (length (filter (fun x => x ∉ vs) l)) = Z.of_nat (length l) - sbpSize sbp) by lia. rewrite Hrest.
  destruct (Z.leb_spec (Z.of_nat (length l)) (sbpSize sbp)) as [Hle|Hlt].
  - assert (E : filter (fun x => x ∉ vs) l = []) by (apply length_zero_iff_nil; lia). by rewrite E.
  - pose proof (Z.mod_pos_bound r (Z.of_nat (length l) - sbpSize sbp) ltac:(lia)) as Hr.
    destruct (adjusted_lookup l sbp vs _ HP Hl Hr) as (p & v & Ep & Hv & Hf). rewrite Ep, Nat2Z.id, Hv, Hf.
    assert (Hout : v ∉ vs) by (apply list_elem_of_lookup_2, list_elem_of_filter in Hf; by destruct Hf).
    destruct (add_provider l sbp vs p v Hg HP Hv Hout) as (vs' & Hp & HP'). rewrite (IH _ _ vs' HP').
    rewrite list_filter_filter. f_equal. f_equal. apply list_filter_iff. intros x. rewrite Hp, not_elem_of_cons. tauto.
Qed.

Lemma Get_sample l randomness numValidators : grouped l -> Z.of_nat (length l) < 2 ^ 64 -> blen randomness <> 0 ->
  numValidators <= Z.of_nat (length l) ->
  Get hasher randomness numValidators l = sample hasher randomness l (Z.to_nat numValidators) 0.
Proof.
  intros Hg Hl Hr Hn. unfold Get. destruct (Z.eqb_spec (blen randomness) 0); [done|].
  destruct (Z.ltb_spec (Z.of_nat (length l)) numValidators); [lia|].
  rewrite (getLoop_sample l randomness _ Hg Hl 0 NewSelectionBasedProvider []); [|by repeat constructor].
  f_equal. apply filter_all, Forall_forall. intros x _. apply not_elem_of_nil.
Qed.

(** What was sampled: as many different elements of the list as were asked for. *)
Lemma sample_spec randomness l turns i vs : sample hasher randomness l turns i = inr vs ->
  length vs = turns /\ NoDup vs /\ Forall (fun v => v ∈ l) vs.
Proof.
  revert l i vs. induction turns as [|turns IH]; intros l i vs; simpl; [intros [= <-]; by repeat constructor|].
  destruct (computeRandomnessAsUint64 hasher randomness i) as [r|]; [|done]. destruct (l !! _) as [v|] eqn:Ev; [|done].
  destruct (sample _ _ _ _ _) as [|vs'] eqn:E; simpl; [done|]. intros [= <-]. destruct (IH _ _ _ E) as (H1 & H2 & H3).
  rewrite Forall_forall in H3. split; [simpl; by rewrite H1|]. split.
  - constructor; [|done]. intros Hin. apply H3, list_elem_of_filter in Hin. by destruct Hin.
  - constructor; [by eapply list_elem_of_lookup_2|]. apply Forall_forall. intros x Hx. apply H3, list_elem_of_filter in Hx. by destruct Hx.
Qed.

(** It does not fail when there are as many different elements. *)
Lemma sample_succeeds randomness l turns i : (forall j, is_Some (computeRandomnessAsUint64 hasher randomness j)) ->
  (exists vs, NoDup vs /\ length vs = turns /\ Forall (fun v => v ∈ l) vs) -> exists vs, sample hasher randomness l turns i = inr vs.
Proof.
  intros Hh. revert l i. induction turns as [|turns IH]; intros l i (vs & Hnd & Hlen & Hin); simpl; [by eexists|].
  destruct (Hh i) as [r ->]. assert (Hl : (0 < length l)%nat).
  { destruct vs as [|v vs]; [done|]. apply Forall_cons in Hin as [Hv _]. destruct l; [by apply not_elem_of_nil in Hv|simpl; lia]. }
  destruct (lookup_lt_is_Some_2 l (Z.to_nat (r mod Z.of_nat (length l)))) as [v Hv].
  { pose proof (Z.mod_pos_bound r (Z.of_nat (length l)) ltac:(lia)). lia. }
  rewrite Hv. destruct (IH (filter (fun x => x <> v) l) (i + 1)) as [vs' ->]; [|by eexists].
  assert (Hvs : (turns <= length (filter (fun x => x <> v) vs))%nat).
  { clear -Hnd Hlen. revert turns Hlen. induction Hnd as [|x vs Hx Hnd IH]; intros turns Hlen; [done|]. rewrite filter_cons.
    case_decide as Hd; simpl in *; [destruct turns; [lia|]; specialize (IH turns ltac:(lia)); lia|].
    subst x. rewrite filter_all; [lia|].
    apply Forall_forall. intros y Hy ->. done. }
  exists (take turns (filter (fun x => x <> v) vs)). split; [apply (sublist_NoDup _ (filter (fun x => x <> v) vs)); [by apply NoDup_filter|apply sublist_take]|].
  split; [rewrite length_take; lia|]. apply Forall_take, Forall_forall. intros x [Hne Hx]%list_elem_of_filter.
  rewrite Forall_forall in Hin. apply list_elem_of_filter. split; [done|by apply Hin].
Qed.
End Sampling.

(** *** The expanded list *)

Lemma block_shift k x l v e : block l v e -> v <> x -> block (replicate k x ++ l) v (mkEntry (startIndex e + Z.of_nat k) (numAppearances e)).
Proof.
  intros (H1 & H2 & Hb) Hne. split; simpl; [lia|]. split; [done|]. intros q. destruct (decide (q < k)%nat) as [Hq|Hq].
  - rewrite lookup_app_l, lookup_replicate_2 by (rewrite ?length_replicate; lia). split; [congruence|lia].
  - rewrite lookup_app_r, length_replicate, Hb by (rewrite length_replicate; lia). lia.
Qed.

Lemma block_first k x l : (0 < k)%nat -> x ∉ l -> block (replicate k x ++ l) x (mkEntry 0 (Z.of_nat k)).
Proof.
  intros Hk Hx. split; simpl; [lia|]. split; [lia|]. intros q. destruct (decide (q < k)%nat) as [Hq|Hq].
  - rewrite lookup_app_l, lookup_replicate_2 by (rewrite ?length_replicate; lia). split; [lia|done].
  - rewrite lookup_app_r by (rewrite length_replicate; lia). split; [|lia]. intros E. by apply list_elem_of_lookup_2 in E.
Qed.

Lemma expand_spec weights i l : expandFrom i weights = inr l -> 0 <= i -> i + Z.of_nat (length weights) <= 2 ^ 32 ->
  (forall v, v ∈ l <-> i <= v < i + Z.of_nat (length weights)) /\ grouped l /\ (length weights <= length l)%nat.
Proof.
  revert i l. induction weights as [|w weights IH]; intros i l; simpl.
  - intros [= <-] _ _. split; [|split; [by intros v ?%elem_of_nil|done]]. intros v. rewrite elem_of_nil. lia.
  - destruct (Z.ltb_spec w minWeight) as [|Hw]; [done|]. destruct (expandFrom (i + 1) weights) as [|rest] eqn:E; simpl; [done|].
    intros [= <-] Hi Hlen. unfold minWeight in Hw. destruct (IH _ _ E) as (Hin & Hg & Hl); [lia..|].
    unfold u32. rewrite Z.mod_small by lia. set (k := Z.to_nat w). assert (Hi' : i ∉ rest) by (rewrite Hin; lia).
    assert (Hr : forall v, v ∈ replicate k i <-> v = i).
    { intros v. rewrite elem_of_replicate. split; [tauto|]. intros ->. split; [done|lia]. }
    split; [|split].
    + intros v. rewrite elem_of_app, Hr, Hin. lia.
    + intros v [Hv%Hr|Hv]%elem_of_app; [subst v; eexists; apply block_first; [lia|done]|].
      destruct (Hg v Hv) as [e He]. eexists. apply block_shift; [done|]. by intros ->.
    + rewrite length_app, length_replicate. lia.
Qed.

(** The weights are not too many, and not too large, for the integers of the code. *)
Definition weightsFit (weights : list Z) : Prop :=
  Z.of_nat (length weights) < 2 ^ 32 /\ Forall (fun w => w < 2 ^ 31) weights.

Lemma expand_length weights i l : expandFrom i weights = inr l -> Forall (fun w => w < 2 ^ 31) weights ->
  Z.of_nat (length l) <= Z.of_nat (length weights) * 2 ^ 31.
Proof.
  revert i l. induction weights as [|w weights IH]; intros i l; simpl; [by intros [= <-]|].
  destruct (w <? minWeight); [done|]. destruct (expandFrom (i + 1) weights) as [|rest] eqn:E; simpl; [done|].
  intros [= <-] [Hw Hf]%Forall_cons. specialize (IH _ _ E Hf). rewrite length_app, length_replicate. lia.
Qed.

Section Selector.
Variable hasher : bytes -> bytes.
Hypothesis hash_long : forall b, (8 <= length (hasher b))%nat.

Lemma randomness_defined randomness j : is_Some (computeRandomnessAsUint64 hasher randomness j).
Proof.
  unfold computeRandomnessAsUint64, BigEndianUint64. pose proof (hash_long (PutUint64 j ++ randomness)).
  destruct (Nat.ltb_spec (length (hasher (PutUint64 j ++ randomness))) 8); [lia|by eexists].
Qed.

Lemma selector_spec weights s randSeed sampleSize : weightsFit weights -> NewSelectorExpandedList weights = inr s ->
  blen randSeed <> 0 -> 0 < sampleSize <= Z.of_nat (length weights) ->
  Select hasher s randSeed sampleSize = sample hasher randSeed (expandedList s) (Z.to_nat sampleSize) 0 /\
  exists idxs, Select hasher s randSeed sampleSize = inr idxs /\ length idxs = Z.to_nat sampleSize /\ NoDup idxs /\
    Forall (fun i => 0 <= i < Z.of_nat (length weights)) idxs.
Proof.
  intros [Hlen Hw] HN Hr Hs. unfold NewSelectorExpandedList, expandList in HN. destruct (length weights =? 0)%nat; [done|].
  destruct (expandFrom 0 weights) as [|l] eqn:E; simpl in HN; [done|]. injection HN as <-.
  destruct (expand_spec weights 0 l E) as (Hin & Hg & Hl); [lia..|]. pose proof (expand_length weights 0 l E Hw) as Hmax.
  assert (Hget : Get hasher randSeed sampleSize l = sample hasher randSeed l (Z.to_nat sampleSize) 0) by (apply Get_sample; [done|lia|done|lia]).
  unfold Select. simpl. destruct (Z.eqb_spec (blen randSeed) 0); [done|]. destruct (Z.eqb_spec sampleSize 0); [lia|].
  unfold u32. rewrite Z.mod_small by lia. destruct (Z.ltb_spec (Z.of_nat (length weights)) sampleSize); [lia|]. simpl.
  split; [done|]. rewrite Hget. destruct (sample_succeeds hasher randSeed l (Z.to_nat sampleSize) 0) as [idxs Hidxs].
  - intros j. apply randomness_defined.
  - exists (map Z.of_nat (seq 0 (Z.to_nat sampleSize))). split; [|split].
    + apply NoDup_fmap; [intros x y; apply Nat2Z.inj|apply NoDup_seq].
    + by rewrite length_map, length_seq.
    + apply Forall_forall. intros v Hv. apply list_elem_of_fmap in Hv as (k & -> & Hk). apply elem_of_seq in Hk. apply Hin. lia.
  - exists idxs. split; [done|]. destruct (sample_spec _ _ _ _ _ _ Hidxs) as (H1 & H2 & H3). split; [done|]. split; [done|].
    eapply Forall_impl; [exact H3|]. intros v Hv%Hin. lia.
Qed.
End Selector.
