(* ===== verification/NodesCoordinator.v ===== *)
(** * The nodes coordinator: sharding/nodesCoordinator (indexHashedNodesCoordinator.go,
    its registries, the variants WithRater and Lite).

    It keeps, for some epochs, which validators are eligible and waiting in which shard,
    chooses the consensus group of a round, and makes the lists of the next epoch with the
    shuffler.  What Go does in the order of a map depends on the argument [shardOrder]. *)

From stdpp Require Import base list gmap sets sorting strings.
From Stdlib Require Import ZArith Lia DecimalPos DecimalN.
From S2P Require Import Prelude Shuffler NodesSelection.

(** fmt's %v and %d of an integer *)
Fixpoint digitsOf (d : Decimal.uint) : bytes :=
  match d with
  | Decimal.Nil => []
  | Decimal.D0 d => 48 :: digitsOf d | Decimal.D1 d => 49 :: digitsOf d | Decimal.D2 d => 50 :: digitsOf d
  | Decimal.D3 d => 51 :: digitsOf d | Decimal.D4 d => 52 :: digitsOf d | Decimal.D5 d => 53 :: digitsOf d
  | Decimal.D6 d => 54 :: digitsOf d | Decimal.D7 d => 55 :: digitsOf d | Decimal.D8 d => 56 :: digitsOf d
  | Decimal.D9 d => 57 :: digitsOf d
  end.
Definition Sprint (n : Z) : bytes := (if n <? 0 then [45] else []) ++ digitsOf (N.to_uint (Z.abs_N n)).

(** strconv.ParseInt in base 10 with 64 bits *)
Fixpoint decimalValue (acc : Z) (s : bytes) : option Z :=
  match s with
  | [] => Some acc
  | c :: s => if (48 <=? c) && (c <=? 57) then decimalValue (acc * 10 + (c - 48)) s else None
  end.
Definition ParseInt (s : bytes) : option Z :=
  let unsigned r := match r with [] => None | _ => decimalValue 0 r end in
  let inRange n := if (- 2 ^ 63 <=? n) && (n <? 2 ^ 63) then Some n else None in
  match s with
  | c :: r => if c =? 45 then n ← unsigned r; inRange (- n) else if c =? 43 then n ← unsigned r; inRange n else n ← unsigned s; inRange n
  | [] => None
  end.

Inductive coordErr :=
| CErrSelect (e : selectErr)
| CErrShuffler (e : shufErr)
| CErrInvalidConsensusGroupSize
| CErrInvalidNumberOfShards
| CErrInvalidShardId
| CErrNilPubKey
| CErrNilInputNodesMap
| CErrSmallMetachainEligibleListSize
| CErrSmallShardEligibleListSize
| CErrNilRandomness
| CErrEpochNodesConfigDoesNotExist (epoch : Z)
| CErrValidatorNotFound
| CErrInvalidNumberPubKeys
| CErrMapSizeZero
| CErrReceivedNewListNodeInStakingV4
| CErrReceivedAuctionValidatorsBeforeStakingV4
| CErrNilBlockBody
| CErrWrongTypeAssertion
| CErrKeyNotFoundInWaitingList
| CErrValidatorInfo
| CErrStorage
| CErrRegistry
| CErrNumError
| CoordPanic.

(** ** Data *)

Record epochNodesConfig := mkEpochNodesConfig {
  nbShards : Z;
  shardID : Z;
  eligibleMap : vmap;
  waitingMap : vmap;
  selectors : gmap Z selectorExpandedList;
  leavingMap : vmap;
  shuffledOutMap : vmap;
  newList : list Validator;
  auctionList : list Validator;
  lowWaitingList : bool;
}.

Definition emptyConfig : epochNodesConfig := mkEpochNodesConfig 0 0 ∅ ∅ ∅ ∅ ∅ [] [] false.

(** state.ShardValidatorInfo *)
Record ShardValidatorInfo := mkShardValidatorInfo {
  viPublicKey : slice;
  viShardId : Z;
  viList : bytes;
  viIndex : Z;
  viTempRating : Z;
  viPreviousList : bytes;
  viPreviousIndex : Z;
}.

(** What the header and the body of an epoch start give. *)
Record startHeader := mkStartHeader { IsStartOfEpochBlock : bool; isMetaBlock : bool; GetPrevRandSeed : bytes; hdrEpoch : Z }.
Record MiniBlock := mkMiniBlock { isPeerBlock : bool; TxHashes : list bytes }.
Inductive bodyHandler := nilBody | otherBody | blockBody (MiniBlocks : list MiniBlock).

(** *** Registries *)

Record SerializableValidator := mkSerializable { svPubKey : slice; svChances : Z; svIndex : Z }.
Abbreviation svMap := (gmap bytes (list SerializableValidator)).

Record EpochValidators := mkEpochValidators { EligibleValidators : svMap; WaitingValidators : svMap; LeavingValidators : svMap }.
Record EpochValidatorsWithAuction := mkEpochValidatorsWithAuction {
  Eligible : svMap; Waiting : svMap; Leaving : svMap; ShuffledOut : svMap; LowWaitingList : bool }.

Record NodesCoordinatorRegistry := mkRegistry { EpochsConfig : gmap bytes EpochValidators; CurrentEpoch : Z }.
Record NodesCoordinatorRegistryWithAuction := mkRegistryWithAuction {
  EpochsConfigWithAuction : gmap bytes EpochValidatorsWithAuction; awCurrentEpoch : Z }.
Inductive NodesCoordinatorRegistryHandler := oldRegistry (r : NodesCoordinatorRegistry) | auctionRegistry (r : NodesCoordinatorRegistryWithAuction).

(** The configuration of one epoch in one of the two. *)
Inductive EpochValidatorsHandler := withoutAuction (v : EpochValidators) | withAuction (v : EpochValidatorsWithAuction).

(** ** The surroundings *)

(** The cache of consensus groups. *)
Class Cacher (C : Type) := mkCacher {
  cacheGet : C -> bytes -> option (list Validator);
  cachePut : bytes -> list Validator -> C -> C;
  cacheClear : C -> C;
}.

(** The boot storage; a write may fail. *)
Class Storer (St : Type) := mkStorer {
  storerGet : St -> bytes -> option bytes;
  storerPut : bytes -> bytes -> St -> option St;
}.

(** nodesCoordinatorHelper: the coordinator itself, or the one WithRater with its chance
    computer. *)
Inductive nodesCoordinatorHelper := baseHelper | raterHelper (chance : Z -> Z).

(** What was given to the constructor and is not changed. *)
Record ArgNodesCoordinator := mkArgNodesCoordinator {
  ShardConsensusGroupSize : Z;
  MetaConsensusGroupSize : Z;
  ShardIDAsObserver : Z;
  NbShards : Z;
  EligibleNodes : option vmap;
  WaitingNodes : option vmap;
  SelfPublicKey : bytes;
  argEpoch : Z;
  StartEpoch : Z;
  IsFullArchive : bool;
}.

Class CoordinatorEnv := mkCoordinatorEnv {
  arguments : ArgNodesCoordinator;
  CoreMetachainShardId : Z;
  hasherCompute : bytes -> bytes;
  (** the orders in which range goes through a map *)
  shardOrder : gset Z -> list Z;
  keyOrder : gset bytes -> list bytes;
  (** enableEpochsHandler *)
  StakingV4Step1ActivationEpoch : Z;
  StakingV4Step2ActivationEpoch : Z;
  RefactorPeersMiniBlocksEnableEpoch : Z;
  shufflerFlags : Z -> ShufflerFlags;
  (** sha256 in the shuffler *)
  shufflerHash : bytes -> bytes;
  (** validatorInfoCacher and the marshaller *)
  GetValidatorInfo : bytes -> option ShardValidatorInfo;
  UnmarshalValidatorInfo : bytes -> option ShardValidatorInfo;
  (** the registry factory: its epoch, encoding/json and the marshaller *)
  ncfStakingV4Step2EnableEpoch : Z;
  jsonMarshal : NodesCoordinatorRegistryHandler -> option bytes;
  jsonUnmarshal : bytes -> option NodesCoordinatorRegistry;
  protoMarshal : NodesCoordinatorRegistryHandler -> option bytes;
  protoUnmarshal : bytes -> option NodesCoordinatorRegistryWithAuction;
  (** genesisNodesSetupHandler *)
  MinMetaHysteresisNodes : Z;
  MinShardHysteresisNodes : Z;
}.

Record validatorWithShardID := mkWithShard { wsValidator : Validator; wsShardID : Z }.

(** The coordinator.  The last three fields are what others are told: the node type, the
    requests to stop the node, and the calls of shuffledOutHandler.Process. *)
Record indexHashedNodesCoordinator (C St : Type) := mkCoordinator {
  currentEpoch : Z;
  numTotalEligible : Z;
  savedStateKey : bytes;
  shuffler : randHashShuffler;
  bootStorer : St;
  nodesConfig : gmap Z epochNodesConfig;
  helper : nodesCoordinatorHelper;
  consensusGroupCacher : C;
  publicKeyToValidatorMap : gmap bytes validatorWithShardID;
  ncFlagStakingV4Step2 : bool;
  flagStakingV4Started : bool;
  isValidatorType : bool;
  stopRequests : nat;
  shuffledOutCalls : list Z;
}.
#[global] Arguments currentEpoch {C St} _.
#[global] Arguments numTotalEligible {C St} _.
#[global] Arguments savedStateKey {C St} _.
#[global] Arguments shuffler {C St} _.
#[global] Arguments bootStorer {C St} _.
#[global] Arguments nodesConfig {C St} _.
#[global] Arguments helper {C St} _.
#[global] Arguments consensusGroupCacher {C St} _.
#[global] Arguments publicKeyToValidatorMap {C St} _.
#[global] Arguments ncFlagStakingV4Step2 {C St} _.
#[global] Arguments flagStakingV4Started {C St} _.
#[global] Arguments isValidatorType {C St} _.
#[global] Arguments stopRequests {C St} _.
#[global] Arguments shuffledOutCalls {C St} _.
#[global] Arguments mkCoordinator {C St}.

Section Setters.
Context {C St : Type}.
Implicit Type x : indexHashedNodesCoordinator C St.

Definition set_currentEpoch v (x : indexHashedNodesCoordinator C St) : indexHashedNodesCoordinator C St :=
  mkCoordinator v (numTotalEligible x) (savedStateKey x) (shuffler x) (bootStorer x) (nodesConfig x)
    (helper x) (consensusGroupCacher x) (publicKeyToValidatorMap x) (ncFlagStakingV4Step2 x)
    (flagStakingV4Started x) (isValidatorType x) (stopRequests x) (shuffledOutCalls x).
Definition set_numTotalEligible v (x : indexHashedNodesCoordinator C St) : indexHashedNodesCoordinator C St :=
  mkCoordinator (currentEpoch x) v (savedStateKey x) (shuffler x) (bootStorer x) (nodesConfig x)
    (helper x) (consensusGroupCacher x) (publicKeyToValidatorMap x) (ncFlagStakingV4Step2 x)
    (flagStakingV4Started x) (isValidatorType x) (stopRequests x) (shuffledOutCalls x).
Definition set_savedStateKey v (x : indexHashedNodesCoordinator C St) : indexHashedNodesCoordinator C St :=
  mkCoordinator (currentEpoch x) (numTotalEligible x) v (shuffler x) (bootStorer x) (nodesConfig x)
    (helper x) (consensusGroupCacher x) (publicKeyToValidatorMap x) (ncFlagStakingV4Step2 x)
    (flagStakingV4Started x) (isValidatorType x) (stopRequests x) (shuffledOutCalls x).
Definition set_shuffler v (x : indexHashedNodesCoordinator C St) : indexHashedNodesCoordinator C St :=
  mkCoordinator (currentEpoch x) (numTotalEligible x) (savedStateKey x) v (bootStorer x)
    (nodesConfig x) (helper x) (consensusGroupCacher x) (publicKeyToValidatorMap x)
    (ncFlagStakingV4Step2 x) (flagStakingV4Started x) (isValidatorType x) (stopRequests x)
    (shuffledOutCalls x).
Definition set_bootStorer v (x : indexHashedNodesCoordinator C St) : indexHashedNodesCoordinator C St :=
  mkCoordinator (currentEpoch x) (numTotalEligible x) (savedStateKey x) (shuffler x) v
    (nodesConfig x) (helper x) (consensusGroupCacher x) (publicKeyToValidatorMap x)
    (ncFlagStakingV4Step2 x) (flagStakingV4Started x) (isValidatorType x) (stopRequests x)
    (shuffledOutCalls x).
Definition set_nodesConfig v (x : indexHashedNodesCoordinator C St) : indexHashedNodesCoordinator C St :=
  mkCoordinator (currentEpoch x) (numTotalEligible x) (savedStateKey x) (shuffler x)
    (bootStorer x) v (helper x) (consensusGroupCacher x) (publicKeyToValidatorMap x)
    (ncFlagStakingV4Step2 x) (flagStakingV4Started x) (isValidatorType x) (stopRequests x)
    (shuffledOutCalls x).
Definition set_helper v (x : indexHashedNodesCoordinator C St) : indexHashedNodesCoordinator C St :=
  mkCoordinator (currentEpoch x) (numTotalEligible x) (savedStateKey x) (shuffler x) (bootStorer x)
    (nodesConfig x) v (consensusGroupCacher x) (publicKeyToValidatorMap x) (ncFlagStakingV4Step2 x)
    (flagStakingV4Started x) (isValidatorType x) (stopRequests x) (shuffledOutCalls x).
Definition set_consensusGroupCacher v (x : indexHashedNodesCoordinator C St) : indexHashedNodesCoordinator C St :=
  mkCoordinator (currentEpoch x) (numTotalEligible x) (savedStateKey x) (shuffler x) (bootStorer x)
    (nodesConfig x) (helper x) v (publicKeyToValidatorMap x) (ncFlagStakingV4Step2 x)
    (flagStakingV4Started x) (isValidatorType x) (stopRequests x) (shuffledOutCalls x).
Definition set_publicKeyToValidatorMap v (x : indexHashedNodesCoordinator C St) : indexHashedNodesCoordinator C St :=
  mkCoordinator (currentEpoch x) (numTotalEligible x) (savedStateKey x) (shuffler x) (bootStorer x)
    (nodesConfig x) (helper x) (consensusGroupCacher x) v (ncFlagStakingV4Step2 x)
    (flagStakingV4Started x) (isValidatorType x) (stopRequests x) (shuffledOutCalls x).
Definition set_ncFlagStakingV4Step2 v (x : indexHashedNodesCoordinator C St) : indexHashedNodesCoordinator C St :=
  mkCoordinator (currentEpoch x) (numTotalEligible x) (savedStateKey x) (shuffler x) (bootStorer x)
    (nodesConfig x) (helper x) (consensusGroupCacher x) (publicKeyToValidatorMap x) v
    (flagStakingV4Started x) (isValidatorType x) (stopRequests x) (shuffledOutCalls x).
Definition set_flagStakingV4Started v (x : indexHashedNodesCoordinator C St) : indexHashedNodesCoordinator C St :=
  mkCoordinator (currentEpoch x) (numTotalEligible x) (savedStateKey x) (shuffler x) (bootStorer x)
    (nodesConfig x) (helper x) (consensusGroupCacher x) (publicKeyToValidatorMap x)
    (ncFlagStakingV4Step2 x) v (isValidatorType x) (stopRequests x) (shuffledOutCalls x).
Definition set_isValidatorType v (x : indexHashedNodesCoordinator C St) : indexHashedNodesCoordinator C St :=
  mkCoordinator (currentEpoch x) (numTotalEligible x) (savedStateKey x) (shuffler x) (bootStorer x)
    (nodesConfig x) (helper x) (consensusGroupCacher x) (publicKeyToValidatorMap x)
    (ncFlagStakingV4Step2 x) (flagStakingV4Started x) v (stopRequests x) (shuffledOutCalls x).
Definition set_stopRequests v (x : indexHashedNodesCoordinator C St) : indexHashedNodesCoordinator C St :=
  mkCoordinator (currentEpoch x) (numTotalEligible x) (savedStateKey x) (shuffler x) (bootStorer x)
    (nodesConfig x) (helper x) (consensusGroupCacher x) (publicKeyToValidatorMap x)
    (ncFlagStakingV4Step2 x) (flagStakingV4Started x) (isValidatorType x) v (shuffledOutCalls x).
Definition set_shuffledOutCalls v (x : indexHashedNodesCoordinator C St) : indexHashedNodesCoordinator C St :=
  mkCoordinator (currentEpoch x) (numTotalEligible x) (savedStateKey x) (shuffler x) (bootStorer x)
    (nodesConfig x) (helper x) (consensusGroupCacher x) (publicKeyToValidatorMap x)
    (ncFlagStakingV4Step2 x) (flagStakingV4Started x) (isValidatorType x) (stopRequests x) v.
End Setters.

(** ** Validators and lists *)

Definition EligibleList := str "eligible".
Definition WaitingList := str "waiting".
Definition LeavingList := str "leaving".
Definition InactiveList := str "inactive".
Definition JailedList := str "jailed".
Definition NewList := str "new".
Definition SelectedFromAuctionList := str "selectedFromAuction".
Definition NodesCoordinatorRegistryKeyPrefix := str "indexHashed_".

Definition defaultSelectionChances : Z := 1.
Definition minEpochsToWait : Z := 1.
Definition nodesCoordinatorStoredEpochs : Z := 4.

Definition NewValidator (pubKey : slice) (chances index : Z) : coordErr + Validator :=
  match pubKey with None => inl CErrNilPubKey | Some k => inr (mkValidator k chances index) end.

(** sort.Sort of a validatorList: by index and public key; validators that agree in both
    have no order. *)
Definition validatorOrder (a b : Validator) : Prop :=
  Index a < Index b \/ Index a = Index b /\ bytesOrder (PubKey a) (PubKey b).
#[global] Instance validatorOrder_dec : RelDecision validatorOrder.
Proof. intros a b. unfold validatorOrder. apply _. Defined.
Definition sortValidators (l : list Validator) : list Validator := merge_sort validatorOrder l.

(** [m[shard] = append(m[shard], v)] *)
Definition appendTo (m : vmap) (shard : Z) (v : Validator) : vmap := <[shard := listOf m shard ++ [v]]> m.

(** A loop with early returns over a list. *)
Fixpoint foldR {E A B} (f : B -> A -> E + B) (b : B) (l : list A) : E + B :=
  match l with [] => inr b | x :: l' => let? b' := f b x in foldR f b' l' end.
Fixpoint mapR {E A B} (f : A -> E + B) (l : list A) : E + list B :=
  match l with [] => inr [] | x :: l' => let? y := f x in let? r := mapR f l' in inr (y :: r) end.

Definition epochErr {A} (epoch : Z) (o : option A) : coordErr + A :=
  match o with Some a => inr a | None => inl (CErrEpochNodesConfigDoesNotExist epoch) end.

Definition selectR {A} (r : selectErr + A) : coordErr + A := match r with inl e => inl (CErrSelect e) | inr a => inr a end.

Definition keyFormat (randomness : bytes) (round shardID epoch : Z) : bytes :=
  randomness ++ str "_" ++ Sprint round ++ str "_" ++ Sprint shardID ++ str "_" ++ Sprint epoch.
Definition seedFormat (round : Z) (randomness : bytes) : bytes := Sprint round ++ str "-" ++ randomness.

Definition pubKeysOf (m : vmap) : gmap Z (list bytes) := fmap (map PubKey) (filter (fun p => p.2 <> []) m).

Section Coordinator.
Context `{CE : CoordinatorEnv} {C St : Type} `{CC : Cacher C} `{SS : Storer St}.
Notation coordinator := (indexHashedNodesCoordinator C St).
Implicit Types (ihnc : coordinator) (cfg : epochNodesConfig).

Definition ordered (m : vmap) : list Z := shardOrder (dom m).

(** *** nodesCoordinatorHelper *)

Definition GetChance (h : nodesCoordinatorHelper) (rating : Z) : Z :=
  match h with baseHelper => defaultSelectionChances | raterHelper chance => chance rating end.

Definition ValidatorsWeights (h : nodesCoordinatorHelper) (validators : list Validator) : list Z :=
  match h with
  | baseHelper => map (fun _ => defaultSelectionChances) validators
  | raterHelper chance =>
      let minChance := chance 0 in map (fun v => if Chances v <? minChance then minChance else Chances v) validators
  end.

Definition additionalStep (chance : Z -> Z) (m : vmap) (vInfo : ShardValidatorInfo) : coordErr + vmap :=
  if beq (viList vInfo) InactiveList || beq (viList vInfo) JailedList then inr m
  else
    let chances := chance (viTempRating vInfo) in
    if chances <? chance 0 then let? val := NewValidator (viPublicKey vInfo) chances (viIndex vInfo) in inr (appendTo m (viShardId vInfo) val)
    else inr m.

Definition ComputeAdditionalLeaving (h : nodesCoordinatorHelper) (allValidators : list ShardValidatorInfo) : coordErr + vmap :=
  match h with
  | baseHelper => inr ∅
  | raterHelper chance => foldR (additionalStep chance) ∅ allValidators
  end.

(** *** Selectors and groups *)

Definition createSelectors (h : nodesCoordinatorHelper) (eligible : vmap) : coordErr + gmap Z selectorExpandedList :=
  foldR (fun selectors shard =>
    let? s := selectR (NewSelectorExpandedList (ValidatorsWeights h (listOf eligible shard))) in
    inr (<[shard := s]> selectors)) ∅ (ordered eligible).

Definition ConsensusGroupSize (shardID : Z) : Z :=
  if shardID =? CoreMetachainShardId then MetaConsensusGroupSize arguments else ShardConsensusGroupSize arguments.

Definition selectValidators (selector : option selectorExpandedList) (randomness : bytes) (consensusSize : Z) (eligibleList : list Validator)
    : coordErr + list Validator :=
  match selector with
  | None => inl (CErrSelect ErrNilRandomSelector)
  | Some s =>
      if blen randomness =? 0 then inl CErrNilRandomness
      else
        let? selectedIndexes := selectR (Select hasherCompute s randomness consensusSize) in
        mapR (fun i => match selectedIndexes !! i with
                       | Some idx => match eligibleList !! Z.to_nat idx with Some v => inr v | None => inl CoordPanic end
                       | None => inl CoordPanic
                       end) (seq 0 (Z.to_nat consensusSize))
  end.

Definition searchConsensusForKey (key : bytes) ihnc : option (list Validator) := cacheGet (consensusGroupCacher ihnc) key.

Definition ComputeConsensusGroup (randomness : bytes) (round shardID epoch : Z) ihnc : coordinator * (coordErr + list Validator) :=
  if blen randomness =? 0 then (ihnc, inl CErrNilRandomness)
  else match nodesConfig ihnc !! epoch with
  | None => (ihnc, inl (CErrEpochNodesConfigDoesNotExist epoch))
  | Some cfg =>
      if (nbShards cfg <=? shardID) && negb (shardID =? CoreMetachainShardId) then (ihnc, inl CErrInvalidShardId)
      else
        let key := keyFormat randomness round shardID epoch in
        match searchConsensusForKey key ihnc with
        | Some validators => (ihnc, inr validators)
        | None =>
            match selectValidators (selectors cfg !! shardID) (seedFormat round randomness) (u32 (ConsensusGroupSize shardID))
                    (listOf (eligibleMap cfg) shardID) with
            | inl e => (ihnc, inl e)
            | inr tempList => (set_consensusGroupCacher (cachePut key tempList (consensusGroupCacher ihnc)) ihnc, inr tempList)
            end
        end
  end.

Definition GetConsensusValidatorsPublicKeys (randomness : bytes) (round shardID epoch : Z) ihnc : coordinator * (coordErr + list bytes) :=
  let (ihnc, r) := ComputeConsensusGroup randomness round shardID epoch ihnc in
  (ihnc, let? consensusNodes := r in inr (map PubKey consensusNodes)).

(** *** Reading the configuration *)

Definition GetValidatorWithPublicKey (publicKey : bytes) ihnc : coordErr + (Validator * Z) :=
  if blen publicKey =? 0 then inl CErrNilPubKey
  else match publicKeyToValidatorMap ihnc !! publicKey with
  | Some v => inr (wsValidator v, wsShardID v)
  | None => inl CErrValidatorNotFound
  end.

Definition GetAllEligibleValidatorsPublicKeys (epoch : Z) ihnc : coordErr + gmap Z (list bytes) :=
  let? cfg := epochErr epoch (nodesConfig ihnc !! epoch) in inr (pubKeysOf (eligibleMap cfg)).
Definition GetAllWaitingValidatorsPublicKeys (epoch : Z) ihnc : coordErr + gmap Z (list bytes) :=
  let? cfg := epochErr epoch (nodesConfig ihnc !! epoch) in inr (pubKeysOf (waitingMap cfg)).
Definition GetAllLeavingValidatorsPublicKeys (epoch : Z) ihnc : coordErr + gmap Z (list bytes) :=
  let? cfg := epochErr epoch (nodesConfig ihnc !! epoch) in inr (pubKeysOf (leavingMap cfg)).
Definition GetAllShuffledOutValidatorsPublicKeys (epoch : Z) ihnc : coordErr + gmap Z (list bytes) :=
  let? cfg := epochErr epoch (nodesConfig ihnc !! epoch) in inr (pubKeysOf (shuffledOutMap cfg)).

Definition GetShuffledOutToAuctionValidatorsPublicKeys (epoch : Z) ihnc : coordErr + gmap Z (list bytes) :=
  let? cfg := epochErr epoch (nodesConfig ihnc !! epoch) in
  if lowWaitingList cfg then inr ∅ else GetAllShuffledOutValidatorsPublicKeys epoch ihnc.

(** The positions of a key in a list. *)
Definition indexesOf (key : bytes) (keys : list bytes) : list Z :=
  map (fun p => Z.of_nat p.1) (filter (fun p => p.2 = key) (imap pair keys)).

Definition GetValidatorsIndexes (publicKeys : list bytes) (epoch : Z) ihnc : coordErr + list Z :=
  let? validatorsPubKeys := GetAllEligibleValidatorsPublicKeys epoch ihnc in
  let? cfg := epochErr epoch (nodesConfig ihnc !! epoch) in
  let signersIndexes := concat (map (fun k => indexesOf k (default [] (validatorsPubKeys !! shardID cfg))) publicKeys) in
  if (length publicKeys =? length signersIndexes)%nat then inr signersIndexes else inl CErrInvalidNumberPubKeys.

Definition ShardIdForEpoch (epoch : Z) ihnc : coordErr + Z :=
  let? cfg := epochErr epoch (nodesConfig ihnc !! epoch) in inr (shardID cfg).

Definition GetNumTotalEligible ihnc : Z := numTotalEligible ihnc.
Definition GetSavedStateKey ihnc : bytes := savedStateKey ihnc.
Definition GetOwnPublicKey ihnc : bytes := SelfPublicKey arguments.

Definition searchInMap (validatorMap : vmap) (pk : bytes) : option Z :=
  snd <$> list_find (fun shard => Exists (fun v => PubKey v = pk) (listOf validatorMap shard)) (ordered validatorMap).

Definition isValidator (config : option epochNodesConfig) (pk : bytes) : bool :=
  match config with
  | None => false
  | Some cfg => match searchInMap (eligibleMap cfg) pk with Some _ => true | None => bool_decide (is_Some (searchInMap (waitingMap cfg) pk)) end
  end.

Definition GetConsensusWhitelistedNodes (epoch : Z) ihnc : coordErr + gset bytes :=
  let keysOfShard e := let? keys := GetAllEligibleValidatorsPublicKeys e ihnc in
                       let? shard := ShardIdForEpoch e ihnc in
                       inr (list_to_set (C := gset bytes) (default [] (keys !! shard))) in
  let prevEpoch := if StartEpoch arguments <? epoch then match keysOfShard (epoch - 1) with inr s => s | inl _ => ∅ end else ∅ in
  let? shardEligible := keysOfShard epoch in
  inr (prevEpoch ∪ shardEligible).

Definition getMinHysteresisNodes (shardId : Z) : Z :=
  if shardId =? CoreMetachainShardId then MinMetaHysteresisNodes else MinShardHysteresisNodes.

Definition searchWaitingEpochsLeftForPublicKeyInShard (publicKey : bytes) (shardId : Z) (shardWaiting : list Validator) : option Z :=
  match list_find (fun v => PubKey v = publicKey) shardWaiting with
  | None => None
  | Some (idx, _) =>
      let minHysteresisNodes := getMinHysteresisNodes shardId in
      if minHysteresisNodes =? 0 then Some minEpochsToWait
      else Some (u32 (u32 (Z.of_nat idx) / minHysteresisNodes + minEpochsToWait))
  end.

(** [currentEpoch] is that of the enable-epochs handler. *)
Definition GetWaitingEpochsLeftForPublicKey (currentEpoch : Z) (publicKey : bytes) ihnc : coordErr + Z :=
  if blen publicKey =? 0 then inl CErrNilPubKey
  else
    let? cfg := epochErr currentEpoch (nodesConfig ihnc !! currentEpoch) in
    match omap (fun shard => searchWaitingEpochsLeftForPublicKeyInShard publicKey shard (listOf (waitingMap cfg) shard)) (ordered (waitingMap cfg)) with
    | n :: _ => inr n
    | [] => inl CErrKeyNotFoundInWaitingList
    end.

(** *** Setting the configuration of an epoch *)

Definition orElse {A} (o : option A) (k : option A) : option A := match o with Some _ => o | None => k end.

(** The shard and whether the node is a validator. *)
Definition computeShardForSelfPublicKey cfg ihnc : Z * bool :=
  let pubKey := SelfPublicKey arguments in
  let selfShard := match nodesConfig ihnc !! currentEpoch ihnc with Some c => shardID c | None => ShardIDAsObserver arguments end in
  match orElse (searchInMap (eligibleMap cfg) pubKey)
         (orElse (searchInMap (waitingMap cfg) pubKey)
           (orElse (searchInMap (leavingMap cfg) pubKey)
             (if ncFlagStakingV4Step2 ihnc then searchInMap (shuffledOutMap cfg) pubKey else None))) with
  | Some shardId => (shardId, true)
  | None => (selfShard, false)
  end.

Definition setNodeType (isValidator : bool) ihnc : coordinator := set_isValidatorType isValidator ihnc.

(** The number of the eligible validators, when there are enough in each shard. *)
Definition checkEligible (eligible : vmap) : coordErr + Z :=
  let nodesList := listOf eligible CoreMetachainShardId in
  if lenZ nodesList <? MetaConsensusGroupSize arguments then inl CErrSmallMetachainEligibleListSize
  else
    foldR (fun numTotalEligible shardId =>
      let nbNodesShard := lenZ (listOf eligible shardId) in
      if nbNodesShard <? ShardConsensusGroupSize arguments then inl CErrSmallShardEligibleListSize
      else inr (u64 (numTotalEligible + nbNodesShard)))
      (lenZ nodesList) (seqZ 0 (u32 (Z.of_nat (size eligible) - 1))).

(** A configuration that exists is changed in place, also when the selectors cannot be
    made; a new one is only stored when they can. *)
Definition setNodesPerShards (eligible waiting : option vmap) (leaving shuffledOut : vmap) (epoch : Z) (lowWaitingList : bool) ihnc
    : coordinator * (coordErr + unit) :=
  let old := default emptyConfig (nodesConfig ihnc !! epoch) in
  match eligible, waiting with
  | Some eligible, Some waiting =>
      match checkEligible eligible with
      | inl e => (ihnc, inl e)
      | inr numTotal =>
          let cfg := mkEpochNodesConfig (u32 (Z.of_nat (size eligible) - 1)) (shardID old) eligible waiting (selectors old) leaving shuffledOut
                       (newList old) (auctionList old) lowWaitingList in
          let (shard, isCurrentNodeValidator) := computeShardForSelfPublicKey cfg ihnc in
          let withSelectors s := mkEpochNodesConfig (nbShards cfg) shard eligible waiting s leaving shuffledOut
                                   (newList old) (auctionList old) lowWaitingList in
          match createSelectors (helper ihnc) eligible with
          | inl e =>
              (match nodesConfig ihnc !! epoch with
               | Some _ => set_nodesConfig (<[epoch := withSelectors ∅]> (nodesConfig ihnc)) ihnc
               | None => ihnc
               end, inl e)
          | inr s =>
              let ihnc := set_nodesConfig (<[epoch := withSelectors s]> (nodesConfig ihnc)) ihnc in
              let ihnc := setNodeType isCurrentNodeValidator (set_numTotalEligible numTotal ihnc) in
              (if IsFullArchive arguments && isCurrentNodeValidator then set_stopRequests (S (stopRequests ihnc)) ihnc else ihnc, inr tt)
          end
      end
  | _, _ => (ihnc, inl CErrNilInputNodesMap)
  end.

Definition addAll (shardMap : vmap) (m : gmap bytes validatorWithShardID) : gmap bytes validatorWithShardID :=
  fold_left (fun m shardId => fold_left (fun m v => <[PubKey v := mkWithShard v shardId]> m) (listOf shardMap shardId) m) (ordered shardMap) m.

Definition createPublicKeyToValidatorMap (eligible waiting : vmap) : gmap bytes validatorWithShardID :=
  addAll waiting (addAll eligible ∅).

Definition sortedEpochs (m : gmap Z epochNodesConfig) : list Z := merge_sort Z.le (elements (dom m)).

Definition fillPublicKeyToValidatorMap ihnc : coordinator :=
  let ofEpoch epoch := let cfg := default emptyConfig (nodesConfig ihnc !! epoch) in
                       createPublicKeyToValidatorMap (eligibleMap cfg) (waitingMap cfg) in
  set_publicKeyToValidatorMap (fold_left (fun m epoch => ofEpoch epoch ∪ m) (sortedEpochs (nodesConfig ihnc)) ∅) ihnc.

(** *** The registry *)

Definition ValidatorArrayToSerializableValidatorArray (validators : list Validator) : list SerializableValidator :=
  map (fun v => mkSerializable (Some (PubKey v)) (Chances v) (Index v)) validators.
Definition serializableValidatorArrayToValidatorArray (sValidators : list SerializableValidator) : coordErr + list Validator :=
  mapR (fun v => NewValidator (svPubKey v) (svChances v) (svIndex v)) sValidators.

Definition serializeMap (m : vmap) : svMap := kmap Sprint (fmap ValidatorArrayToSerializableValidatorArray m).

Definition parseKey (k : bytes) : coordErr + Z := match ParseInt k with Some n => inr n | None => inl CErrNumError end.

Definition serializableValidatorsMapToValidatorsMap (sValidators : svMap) : coordErr + vmap :=
  foldR (fun result k =>
    let? key := parseKey k in
    let? v := serializableValidatorArrayToValidatorArray (default [] (sValidators !! k)) in
    inr (<[u32 key := v]> result)) ∅ (keyOrder (dom sValidators)).

Definition epochNodesConfigToEpochValidators cfg : EpochValidators :=
  mkEpochValidators (serializeMap (eligibleMap cfg)) (serializeMap (waitingMap cfg)) (serializeMap (leavingMap cfg)).
Definition epochNodesConfigToEpochValidatorsWithAuction cfg : EpochValidatorsWithAuction :=
  mkEpochValidatorsWithAuction (serializeMap (eligibleMap cfg)) (serializeMap (waitingMap cfg)) (serializeMap (leavingMap cfg))
    (serializeMap (shuffledOutMap cfg)) (lowWaitingList cfg).

Definition GetEligibleValidators (h : EpochValidatorsHandler) : svMap :=
  match h with withoutAuction v => EligibleValidators v | withAuction v => Eligible v end.
Definition GetWaitingValidators (h : EpochValidatorsHandler) : svMap :=
  match h with withoutAuction v => WaitingValidators v | withAuction v => Waiting v end.
Definition GetLeavingValidators (h : EpochValidatorsHandler) : svMap :=
  match h with withoutAuction v => LeavingValidators v | withAuction v => Leaving v end.

Definition epochValidatorsToEpochNodesConfig (config : EpochValidatorsHandler) : coordErr + epochNodesConfig :=
  let? e := serializableValidatorsMapToValidatorsMap (GetEligibleValidators config) in
  let? w := serializableValidatorsMapToValidatorsMap (GetWaitingValidators config) in
  let? l := serializableValidatorsMapToValidatorsMap (GetLeavingValidators config) in
  match config with
  | withoutAuction _ => inr (mkEpochNodesConfig 0 0 e w ∅ l ∅ [] [] false)
  | withAuction v =>
      let? s := serializableValidatorsMapToValidatorsMap (ShuffledOut v) in
      inr (mkEpochNodesConfig 0 0 e w ∅ l s [] [] (LowWaitingList v))
  end.

Definition getLastEpochConfig ihnc : Z := foldr Z.max 0 (sortedEpochs (nodesConfig ihnc)).

Definition getMinAndLastEpoch ihnc : Z * Z :=
  let lastEpoch := getLastEpochConfig ihnc in
  (if nodesCoordinatorStoredEpochs <=? lastEpoch then lastEpoch - nodesCoordinatorStoredEpochs + 1 else 0, lastEpoch).

(** The epochs that are saved; the loop of Go also ends there, as the last epoch is not
    the greatest integer. *)
Definition savedConfigs ihnc : gmap Z epochNodesConfig :=
  let (minEpoch, lastEpoch) := getMinAndLastEpoch ihnc in
  filter (fun p => minEpoch <= p.1 <= lastEpoch) (nodesConfig ihnc).

Definition nodesCoordinatorToOldRegistry ihnc : NodesCoordinatorRegistry :=
  mkRegistry (kmap Sprint (fmap epochNodesConfigToEpochValidators (savedConfigs ihnc))) (currentEpoch ihnc).
Definition nodesCoordinatorToRegistryWithAuction ihnc : NodesCoordinatorRegistryWithAuction :=
  mkRegistryWithAuction (kmap Sprint (fmap epochNodesConfigToEpochValidatorsWithAuction (savedConfigs ihnc))) (currentEpoch ihnc).

Definition NodesCoordinatorToRegistry (epoch : Z) ihnc : NodesCoordinatorRegistryHandler :=
  if StakingV4Step2ActivationEpoch <=? epoch then auctionRegistry (nodesCoordinatorToRegistryWithAuction ihnc)
  else oldRegistry (nodesCoordinatorToOldRegistry ihnc).

Definition GetCurrentEpoch (r : NodesCoordinatorRegistryHandler) : Z :=
  match r with oldRegistry r => CurrentEpoch r | auctionRegistry r => awCurrentEpoch r end.
Definition GetEpochsConfig (r : NodesCoordinatorRegistryHandler) : gmap bytes EpochValidatorsHandler :=
  match r with oldRegistry r => fmap withoutAuction (EpochsConfig r) | auctionRegistry r => fmap withAuction (EpochsConfigWithAuction r) end.

Definition createOldRegistry (buff : bytes) : option NodesCoordinatorRegistry := jsonUnmarshal buff.
Definition createRegistryWithAuction (buff : bytes) : option NodesCoordinatorRegistryWithAuction := protoUnmarshal buff.

Definition CreateNodesCoordinatorRegistry (buff : bytes) : option NodesCoordinatorRegistryHandler :=
  match createRegistryWithAuction buff with
  | Some r => Some (auctionRegistry r)
  | None => oldRegistry <$> createOldRegistry buff
  end.
Definition GetRegistryData (r : NodesCoordinatorRegistryHandler) (epoch : Z) : option bytes :=
  if ncfStakingV4Step2EnableEpoch <=? epoch then protoMarshal r else jsonMarshal r.

Definition registryStep ihnc (config : gmap bytes EpochValidatorsHandler) (result : gmap Z epochNodesConfig) (epochStr : bytes)
    : coordErr + gmap Z epochNodesConfig :=
  let? epoch := parseKey epochStr in
  match config !! epochStr with
  | None => inr result
  | Some epochValidators =>
      let? cfg := epochValidatorsToEpochNodesConfig epochValidators in
      let n := u32 (Z.of_nat (size (eligibleMap cfg))) in
      if n <? 2 then inl CErrInvalidNumberOfShards
      else
        let (shard, _) := computeShardForSelfPublicKey cfg ihnc in
        let? s := createSelectors (helper ihnc) (eligibleMap cfg) in
        inr (<[u32 epoch := mkEpochNodesConfig (n - 1) shard (eligibleMap cfg) (waitingMap cfg) s (leavingMap cfg) (shuffledOutMap cfg)
                              (newList cfg) (auctionList cfg) (lowWaitingList cfg)]> result)
  end.
Definition registryToNodesCoordinator (config : NodesCoordinatorRegistryHandler) ihnc : coordErr + gmap Z epochNodesConfig :=
  foldR (registryStep ihnc (GetEpochsConfig config)) ∅ (keyOrder (dom (GetEpochsConfig config))).

Definition saveState (key : bytes) (epoch : Z) ihnc : coordinator * (coordErr + unit) :=
  match GetRegistryData (NodesCoordinatorToRegistry epoch ihnc) epoch with
  | None => (ihnc, inl CErrRegistry)
  | Some data =>
      match storerPut (NodesCoordinatorRegistryKeyPrefix ++ key) data (bootStorer ihnc) with
      | None => (ihnc, inl CErrStorage)
      | Some st => (set_bootStorer st ihnc, inr tt)
      end
  end.

Definition baseLoadState (key : bytes) ihnc : coordinator * (coordErr + unit) :=
  match storerGet (bootStorer ihnc) (NodesCoordinatorRegistryKeyPrefix ++ key) with
  | None => (ihnc, inl CErrStorage)
  | Some data =>
      match CreateNodesCoordinatorRegistry data with
      | None => (ihnc, inl CErrRegistry)
      | Some config =>
          let ihnc := set_currentEpoch (GetCurrentEpoch config) (set_savedStateKey key ihnc) in
          match registryToNodesCoordinator config ihnc with
          | inl e => (ihnc, inl e)
          | inr m => (set_nodesConfig m ihnc, inr tt)
          end
      end
  end.
Definition LoadState (key : bytes) ihnc : coordinator * (coordErr + unit) := baseLoadState key ihnc.

(** *** The start of an epoch *)

Definition updateEpochFlags (epoch : Z) ihnc : coordinator :=
  set_ncFlagStakingV4Step2 (StakingV4Step2ActivationEpoch <=? epoch) (set_flagStakingV4Started (StakingV4Step1ActivationEpoch <=? epoch) ihnc).

Definition getShardValidatorInfoData (txHash : bytes) (epoch : Z) : coordErr + ShardValidatorInfo :=
  match (if RefactorPeersMiniBlocksEnableEpoch <=? epoch then GetValidatorInfo txHash else UnmarshalValidatorInfo txHash) with
  | Some i => inr i
  | None => inl CErrValidatorInfo
  end.

Definition createValidatorInfoFromBody (body : bodyHandler) (epoch : Z) : coordErr + list ShardValidatorInfo :=
  match body with
  | nilBody => inl CErrNilBlockBody
  | otherBody => inl CErrWrongTypeAssertion
  | blockBody MiniBlocks =>
      mapR (fun txHash => getShardValidatorInfoData txHash epoch) (concat (map TxHashes (filter (fun m => isPeerBlock m = true) MiniBlocks)))
  end.

(** The lists that are built: eligible, waiting, leaving, new, from the auction. *)
Record infoLists := mkInfoLists { ilEligible : vmap; ilWaiting : vmap; ilLeaving : vmap; ilNew : list Validator; ilAuction : list Validator }.

(** currentValidator is appended to leavingMap before its index is set to the previous
    one, and is the same object. *)
Definition leavingIndex ihnc (vInfo : ShardValidatorInfo) : Z :=
  let previousList := viPreviousList vInfo in
  if negb (flagStakingV4Started ihnc) || (length previousList =? 0)%nat then viIndex vInfo
  else if beq previousList EligibleList || beq previousList WaitingList then viPreviousIndex vInfo
  else viIndex vInfo.

Definition addValidatorToPreviousMap ihnc (eligible waiting : vmap) (v : Validator) (vInfo : ShardValidatorInfo) : vmap * vmap :=
  let shardId := viShardId vInfo in
  let previousList := viPreviousList vInfo in
  if negb (flagStakingV4Started ihnc) || (length previousList =? 0)%nat then (appendTo eligible shardId v, waiting)
  else if beq previousList EligibleList then (appendTo eligible shardId v, waiting)
  else if beq previousList WaitingList then (eligible, appendTo waiting shardId v)
  else (eligible, waiting).

Definition infoStep ihnc (ls : infoLists) (vInfo : ShardValidatorInfo) : coordErr + infoLists :=
  let (e, w, l, n, a) := ls in
  let chance := GetChance (helper ihnc) (viTempRating vInfo) in
  let? v := NewValidator (viPublicKey vInfo) chance (viIndex vInfo) in
  let list := viList vInfo in
  let shardId := viShardId vInfo in
  if beq list WaitingList then inr (mkInfoLists e (appendTo w shardId v) l n a)
  else if beq list EligibleList then inr (mkInfoLists (appendTo e shardId v) w l n a)
  else if beq list LeavingList then
    let v := mkValidator (PubKey v) (Chances v) (leavingIndex ihnc vInfo) in
    let (e', w') := addValidatorToPreviousMap ihnc e w v vInfo in
    inr (mkInfoLists e' w' (appendTo l shardId v) n a)
  else if beq list NewList then
    if ncFlagStakingV4Step2 ihnc then inl CErrReceivedNewListNodeInStakingV4 else inr (mkInfoLists e w l (n ++ [v]) a)
  else if beq list SelectedFromAuctionList then
    if ncFlagStakingV4Step2 ihnc then inr (mkInfoLists e w l n (a ++ [v])) else inl CErrReceivedAuctionValidatorsBeforeStakingV4
  else inr ls.

Definition computeNodesConfigFromList (validatorInfos : list ShardValidatorInfo) ihnc : coordErr + epochNodesConfig :=
  let? ls := foldR (infoStep ihnc) (mkInfoLists ∅ ∅ ∅ [] []) validatorInfos in
  if (size (ilEligible ls) =? 0)%nat then inl CErrMapSizeZero
  else inr (mkEpochNodesConfig (u32 (Z.of_nat (size (ilEligible ls)) - 1)) 0 (fmap sortValidators (ilEligible ls))
              (fmap sortValidators (ilWaiting ls)) ∅ (fmap sortValidators (ilLeaving ls)) ∅
              (sortValidators (ilNew ls)) (sortValidators (ilAuction ls)) false).

Definition createSortedListFromMap (validatorsMap : vmap) : list Validator :=
  sortValidators (concat (map (listOf validatorsMap) (ordered validatorsMap))).

(** actuallyLeaving, actuallyRemaining and processedValidatorsMap *)
Definition leavingStep (leaving : list Validator) (shardId : Z) (acc : vmap * vmap * gset bytes) (v : Validator) : vmap * vmap * gset bytes :=
  let '(al, ar, processed) := acc in
  if bool_decide (PubKey v ∈ processed) then acc
  else if bool_decide (PubKey v ∈ map PubKey leaving) then (appendTo al shardId v, ar, {[PubKey v]} ∪ processed)
  else (al, appendTo ar shardId v, {[PubKey v]} ∪ processed).
Definition computeActuallyLeaving (unstakeLeaving : vmap) (leaving : list Validator) (acc : vmap * vmap * gset bytes) : vmap * vmap * gset bytes :=
  fold_left (fun acc shardId => fold_left (leavingStep leaving shardId) (listOf unstakeLeaving shardId) acc) (sortKeys unstakeLeaving) acc.
Definition createActuallyLeavingPerShards (unstakeLeaving additionalLeaving : vmap) (leaving : list Validator) : vmap * vmap :=
  (computeActuallyLeaving additionalLeaving leaving (computeActuallyLeaving unstakeLeaving leaving (∅, ∅, ∅))).1.

(** What EpochStartPrepare and SetNodesConfigFromValidatorsInfo share: from the
    validators of the block to the result of the shuffler, with the lists of those
    leaving. *)
Definition shuffleValidators (withAuction : bool) (infos : list ShardValidatorInfo) (randomness : bytes) (epoch : Z) ihnc
    : coordinator * (coordErr + (ResUpdateNodes * vmap)) :=
  match computeNodesConfigFromList infos ihnc with
  | inl e => (ihnc, inl e)
  | inr cfg =>
      match ComputeAdditionalLeaving (helper ihnc) infos with
      | inl e => (ihnc, inl e)
      | inr additionalLeavingMap =>
          let shufflerArgs := mkArgsUpdateNodes (eligibleMap cfg) (waitingMap cfg) (newList cfg) (createSortedListFromMap (leavingMap cfg))
            (createSortedListFromMap additionalLeavingMap) (if withAuction then auctionList cfg else []) randomness (nbShards cfg) epoch in
          let (rhs, res) := UpdateNodeLists shufflerHash CoreMetachainShardId (shuffler ihnc) (shufflerFlags epoch) shufflerArgs in
          (set_shuffler rhs ihnc,
           match res with
           | inl e => inl (CErrShuffler e)
           | inr r => inr (r, (createActuallyLeavingPerShards (leavingMap cfg) additionalLeavingMap (rLeaving r)).1)
           end)
      end
  end.

(** It returns nothing and logs its errors; only a panic is left of them. *)
Definition logged (r : coordErr + unit) : coordErr + unit :=
  match r with inl (CErrShuffler ShufPanic) => r | _ => inr tt end.

Definition EpochStartPrepare (metaHdr : startHeader) (body : bodyHandler) ihnc : coordinator * (coordErr + unit) :=
  if negb (IsStartOfEpochBlock metaHdr) then (ihnc, inr tt)
  else if negb (isMetaBlock metaHdr) then (ihnc, inr tt)
  else
    let randomness := GetPrevRandSeed metaHdr in
    let newEpoch := hdrEpoch metaHdr in
    match body with
    | nilBody => if newEpoch =? currentEpoch ihnc then (ihnc, inr tt) else (updateEpochFlags newEpoch ihnc, inr tt)
    | _ =>
      let ihnc := updateEpochFlags newEpoch ihnc in
      match createValidatorInfoFromBody body newEpoch with
      | inl _ => (ihnc, inr tt)
      | inr allValidatorInfo =>
          let (ihnc, res) := shuffleValidators true allValidatorInfo randomness newEpoch ihnc in
          match res with
          | inl e => (ihnc, logged (inl e))
          | inr (r, leavingNodesMap) =>
              let (ihnc, _) := setNodesPerShards (Some (rEligible r)) (Some (rWaiting r)) leavingNodesMap (rShuffledOut r) newEpoch
                                 (rLowWaitingList r) ihnc in
              let ihnc := fillPublicKeyToValidatorMap ihnc in
              let (ihnc, _) := saveState randomness newEpoch ihnc in
              let ihnc := set_savedStateKey randomness ihnc in
              (set_consensusGroupCacher (cacheClear (consensusGroupCacher ihnc)) ihnc, inr tt)
          end
      end
    end.

Definition EpochStartAction (newEpoch : Z) ihnc : coordinator :=
  let epochToRemove := i32 (i32 newEpoch - nodesCoordinatorStoredEpochs) in
  let needToRemove := 0 <=? epochToRemove in
  let ihnc := set_currentEpoch newEpoch ihnc in
  let (ihnc, _) := saveState (savedStateKey ihnc) newEpoch ihnc in
  if needToRemove then set_nodesConfig (filter (fun p => ~ p.1 <= u32 epochToRemove) (nodesConfig ihnc)) ihnc else ihnc.

Definition ShuffleOutForEpoch (epoch : Z) ihnc : coordinator :=
  match nodesConfig ihnc !! epoch with
  | None => ihnc
  | Some cfg =>
      if isValidator (Some cfg) (SelfPublicKey arguments) then set_shuffledOutCalls (shuffledOutCalls ihnc ++ [shardID cfg]) ihnc else ihnc
  end.

(** *** indexHashedNodesCoordinatorLite.go *)

Definition removeOlderEpochs (epoch maxDelta : Z) ihnc : coordinator :=
  if maxDelta <=? Z.of_nat (size (nodesConfig ihnc)) then
    set_nodesConfig (filter (fun p => ~ p.1 <= u32 (epoch - maxDelta)) (nodesConfig ihnc)) ihnc
  else ihnc.

Definition SetNodesConfigFromValidatorsInfo (epoch : Z) (randomness : bytes) (validatorsInfo : list ShardValidatorInfo) ihnc
    : coordinator * (coordErr + unit) :=
  let (ihnc, res) := shuffleValidators false validatorsInfo randomness epoch ihnc in
  match res with
  | inl e => (ihnc, inl e)
  | inr (r, leavingNodesMap) =>
      let (ihnc, res) := setNodesPerShards (Some (rEligible r)) (Some (rWaiting r)) leavingNodesMap (rShuffledOut r) epoch
                           (rLowWaitingList r) ihnc in
      match res with
      | inl e => (ihnc, inl e)
      | inr _ => (removeOlderEpochs epoch nodesCoordinatorStoredEpochs ihnc, inr tt)
      end
  end.

Definition IsEpochInConfig (epoch : Z) ihnc : bool := bool_decide (is_Some (nodesConfig ihnc !! epoch)).

(** *** Construction *)

Definition checkArguments : coordErr + unit :=
  let a := arguments in
  if (ShardConsensusGroupSize a <? 1) || (MetaConsensusGroupSize a <? 1) then inl CErrInvalidConsensusGroupSize
  else if NbShards a <? 1 then inl CErrInvalidNumberOfShards
  else if (NbShards a <=? ShardIDAsObserver a) && negb (ShardIDAsObserver a =? CoreMetachainShardId) then inl CErrInvalidShardId
  else if (length (SelfPublicKey a) =? 0)%nat then inl CErrNilPubKey
  else inr tt.

Definition NewIndexHashedNodesCoordinator (sh : randHashShuffler) (st : St) (cache : C) : coordErr + coordinator :=
  let? _ := checkArguments in
  let a := arguments in
  let first := mkEpochNodesConfig (NbShards a) (ShardIDAsObserver a) ∅ ∅ ∅ ∅ ∅ [] [] false in
  let ihnc := mkCoordinator (argEpoch a) 0 (hasherCompute (SelfPublicKey a)) sh st {[argEpoch a := first]} baseHelper cache ∅
                false false false 0 [] in
  let (ihnc, res) := setNodesPerShards (EligibleNodes a) (WaitingNodes a) ∅ ∅ (argEpoch a) false ihnc in
  let? _ := res in
  let ihnc := fillPublicKeyToValidatorMap ihnc in
  let (ihnc, _) := saveState (savedStateKey ihnc) (argEpoch a) ihnc in
  let? _ := epochErr (argEpoch a) (nodesConfig ihnc !! argEpoch a) in
  inr ihnc.

Definition withSelectors (s : gmap Z selectorExpandedList) cfg : epochNodesConfig :=
  mkEpochNodesConfig (nbShards cfg) (shardID cfg) (eligibleMap cfg) (waitingMap cfg) s (leavingMap cfg) (shuffledOutMap cfg)
    (newList cfg) (auctionList cfg) (lowWaitingList cfg).

(** The coordinator that was given is changed, also when there is an error. *)
Definition NewIndexHashedNodesCoordinatorWithRater (chanceComputer : Z -> Z) ihnc : coordinator * (coordErr + unit) :=
  let ihncr := set_helper (raterHelper chanceComputer) ihnc in
  match nodesConfig ihncr !! currentEpoch ihncr with
  | None => (ihncr, let? _ := createSelectors (helper ihncr) ∅ in inr tt)
  | Some cfg =>
      match createSelectors (helper ihncr) (eligibleMap cfg) with
      | inl e => (set_nodesConfig (<[currentEpoch ihncr := withSelectors ∅ cfg]> (nodesConfig ihncr)) ihncr, inl e)
      | inr s => (set_nodesConfig (<[currentEpoch ihncr := withSelectors s cfg]> (nodesConfig ihncr)) ihncr, inr tt)
      end
  end.

(** The public keys of the genesis nodes. *)
Definition NodesInfoToValidators (nodesInfo : gmap Z (list slice)) : coordErr + vmap :=
  foldR (fun m shId =>
    let? validators := mapR (fun p => NewValidator p.2 defaultSelectionChances (u32 (Z.of_nat p.1))) (imap pair (default [] (nodesInfo !! shId))) in
    inr (<[shId := validators]> m)) ∅ (shardOrder (dom nodesInfo)).
End Coordinator.
