(* ===== verification/NodesTheorems.v ===== *)
(** * The nodes coordinator: its theorems.

    [keyFormat_inj]: the keys of the cache are unambiguous.  [createSelectors] and
    [checkEligible] give each shard its selector, [setNodesPerShards] keeps that
    ([configOK]), and the calls of a running node keep it and the agreement of the cache
    with the configuration ([coordinatorOK]); from this, [consensus_group_valid].
    [selection_is_sampling] is on the selector alone, [load_after_save] on the registry.
    [epoch_start_conserves] follows the validators of a block through the reading of the
    block, the shuffler and setNodesPerShards.  Two cases in which the code goes wrong come
    before the example. *)

From stdpp Require Import base list gmap sets sorting strings.
From Stdlib Require Import ZArith Lia DecimalPos DecimalN.
From S2P Require Import Prelude Shuffler ShufflerSpec ShufflerMoves ShufflerNodes ShufflerTheorems NodesSelection NodesCoordinator.

(** ** Numbers as text *)

Definition isDigit (c : Z) : Prop := 48 <= c <= 57.

Lemma digits_are d : Forall isDigit (digitsOf d).
Proof. induction d; simpl; constructor; try done; unfold isDigit; lia. Qed.

Lemma decimalValue_pos d : forall p, decimalValue (Z.pos p) (digitsOf d) = Some (Z.pos (Pos.of_uint_acc d p)).
Proof.
  induction d as [|d IH|d IH|d IH|d IH|d IH|d IH|d IH|d IH|d IH|d IH]; intros p; [done|..];
    (cbn [digitsOf decimalValue Pos.of_uint_acc]; rewrite <- IH; match goal with |- context [if ?b then _ else None] => change b with true end;
     cbv iota; f_equal; lia).
Qed.

Lemma decimalValue_zero d : decimalValue 0 (digitsOf d) = Some (Z.of_N (N.of_uint d)).
Proof.
  induction d as [|d IH|d IH|d IH|d IH|d IH|d IH|d IH|d IH|d IH|d IH]; [done|exact IH|..];
    (cbn [digitsOf decimalValue]; match goal with |- context [if ?b then _ else None] => change b with true end; cbv iota;
     match goal with |- context [decimalValue ?z _] => let z' := eval cbv in z in change z with z' end;
     rewrite decimalValue_pos; reflexivity).
Qed.

Lemma to_uint_nonnil n : digitsOf (N.to_uint n) <> [].
Proof.
  intros E. assert (N.to_uint n = Decimal.Nil) as Hn by (destruct (N.to_uint n); done).
  pose proof (DecimalN.Unsigned.of_to n) as H. rewrite Hn in H. simpl in H. by subst n.
Qed.

Lemma ParseInt_Sprint n : - 2 ^ 63 <= n < 2 ^ 63 -> ParseInt (Sprint n) = Some n.
Proof.
  intros Hn. unfold Sprint. set (d := N.to_uint (Z.abs_N n)).
  assert (Hv : decimalValue 0 (digitsOf d) = Some (Z.abs n)).
  { unfold d. rewrite decimalValue_zero, DecimalN.Unsigned.of_to. f_equal. lia. }
  pose proof (digits_are d) as Hd. pose proof (to_uint_nonnil (Z.abs_N n)) as Hnn. fold d in Hnn.
  destruct (digitsOf d) as [|c r] eqn:E; [done|]. apply Forall_cons in Hd as [Hc _]. unfold isDigit in Hc.
  destruct (Z.ltb_spec n 0) as [Hneg|Hpos]; cbn [app].
  - unfold ParseInt. rewrite Z.eqb_refl, Hv. cbn [mbind option_bind]. rewrite Z.abs_neq by lia. rewrite Z.opp_involutive.
    rewrite (proj2 (Z.leb_le _ _)), (proj2 (Z.ltb_lt _ _)) by lia. done.
  - unfold ParseInt. rewrite (proj2 (Z.eqb_neq c 45)), (proj2 (Z.eqb_neq c 43)) by lia. rewrite Hv. cbn [mbind option_bind].
    rewrite Z.abs_eq by lia. rewrite (proj2 (Z.leb_le _ _)), (proj2 (Z.ltb_lt _ _)) by lia. done.
Qed.

Lemma Sprint_value n : exists s r, Sprint n = s ++ r /\ Forall isDigit r /\ decimalValue 0 r = Some (Z.abs n) /\
  s = (if n <? 0 then [45] else []).
Proof.
  exists (if n <? 0 then [45] else []), (digitsOf (N.to_uint (Z.abs_N n))). split; [done|]. split; [apply digits_are|].
  split; [|done]. rewrite decimalValue_zero, DecimalN.Unsigned.of_to. f_equal. lia.
Qed.

#[global] Instance Sprint_inj : Inj (=) (=) Sprint.
Proof.
  intros a b E. destruct (Sprint_value a) as (s1 & r1 & E1 & H1 & V1 & S1), (Sprint_value b) as (s2 & r2 & E2 & H2 & V2 & S2).
  rewrite E1, E2 in E. subst s1 s2.
  assert (Habs : r1 = r2 /\ ((a <? 0) = (b <? 0))).
  { destruct (a <? 0), (b <? 0); simpl in E; [by injection E as ->| | |done]; exfalso.
    - destruct r2 as [|c r2]; [done|]. injection E as <- _. apply Forall_cons in H2 as [H2 _]. unfold isDigit in H2. lia.
    - destruct r1 as [|c r1]; [done|]. injection E as -> _. apply Forall_cons in H1 as [H1 _]. unfold isDigit in H1. lia. }
  destruct Habs as [-> Hs]. rewrite V1 in V2. injection V2 as V2. destruct (Z.ltb_spec a 0), (Z.ltb_spec b 0); lia || done.
Qed.

Lemma Sprint_no_underscore n : 95 ∉ Sprint n.
Proof.
  unfold Sprint. rewrite elem_of_app. intros [H|H].
  - destruct (n <? 0); [apply list_elem_of_singleton in H; lia|by apply elem_of_nil in H].
  - pose proof (digits_are (N.to_uint (Z.abs_N n))) as Hd. rewrite Forall_forall in Hd. apply Hd in H. unfold isDigit in H. lia.
Qed.

(** The last field of a text that is split at underscores. *)
Lemma split_last_underscore a b c d : 95 ∉ b -> 95 ∉ d -> a ++ str "_" ++ b = c ++ str "_" ++ d -> a = c /\ b = d.
Proof.
  intros Hb Hd. change (str "_") with [95]. revert c. induction a as [|x a IH]; intros [|y c]; simpl.
  - by intros [= ->].
  - intros [= <- ->]. exfalso. apply Hb. apply elem_of_app. right. apply elem_of_cons. by left.
  - intros [= -> <-]. exfalso. apply Hd. apply elem_of_app. right. apply elem_of_cons. by left.
  - intros [= -> E]. by destruct (IH _ E) as [-> ->].
Qed.

(** The key of a group in the cache says what the group is for. *)
Lemma keyFormat_inj r1 n1 s1 e1 r2 n2 s2 e2 : keyFormat r1 n1 s1 e1 = keyFormat r2 n2 s2 e2 -> r1 = r2 /\ n1 = n2 /\ s1 = s2 /\ e1 = e2.
Proof.
  unfold keyFormat. intros E. rewrite !(assoc_L (++)) in E.
  rewrite <- (assoc_L (++) _ (str "_") (Sprint e1)), <- (assoc_L (++) _ (str "_") (Sprint e2)) in E.
  apply split_last_underscore in E as [E He]; [|apply Sprint_no_underscore..].
  rewrite <- (assoc_L (++) _ (str "_") (Sprint s1)), <- (assoc_L (++) _ (str "_") (Sprint s2)) in E.
  apply split_last_underscore in E as [E Hs]; [|apply Sprint_no_underscore..].
  rewrite <- (assoc_L (++) _ (str "_") (Sprint n1)), <- (assoc_L (++) _ (str "_") (Sprint n2)) in E.
  apply split_last_underscore in E as [E Hn]; [|apply Sprint_no_underscore..].
  split; [done|]. split; [by apply (inj Sprint)|]. split; by apply (inj Sprint).
Qed.

(** ** Loops that fill a map *)

Section Loops.
Context {E A B V : Type} {K : Type} `{Countable K}.

Lemma foldR_ext (f g : B -> A -> E + B) b l : (forall b x, x ∈ l -> f b x = g b x) -> foldR f b l = foldR g b l.
Proof.
  revert b. induction l as [|x l IH]; intros b Hf; [done|]. simpl. rewrite Hf by apply list_elem_of_here.
  destruct (g b x); simpl; [done|]. apply IH. intros. apply Hf. by apply list_elem_of_further.
Qed.

Lemma mapR_ok (f : A -> E + B) (g : A -> B) l : (forall x, x ∈ l -> f x = inr (g x)) -> mapR f l = inr (map g l).
Proof.
  induction l as [|x l IH]; intros Hf; [done|]. simpl. rewrite Hf by apply list_elem_of_here. simpl.
  rewrite IH; [done|]. intros. apply Hf. by apply list_elem_of_further.
Qed.

(** Each step inserts what [f] says at the key of its element. *)
Lemma foldR_build (step : gmap K V -> A -> E + gmap K V) (key : A -> K) (f : K -> option V) l : forall m0 m,
  (forall m a m', a ∈ l -> step m a = inr m' -> exists v, f (key a) = Some v /\ m' = <[key a := v]> m) ->
  foldR step m0 l = inr m -> forall k, m !! k = if decide (k ∈ map key l) then f k else m0 !! k.
Proof.
  induction l as [|a l IH]; intros m0 m Hs; [intros [= <-] k; by rewrite decide_False by apply not_elem_of_nil|]. cbn [foldR map].
  destruct (step m0 a) as [|m1] eqn:E1; simpl; [done|]. intros Hf k.
  destruct (Hs _ _ _ (list_elem_of_here a l) E1) as (v & Hv & ->).
  rewrite (IH _ _ (fun m x m' Hin => Hs m x m' (list_elem_of_further x a l Hin)) Hf). destruct (decide (k ∈ map key l)) as [Hk|Hk].
  - by rewrite decide_True by (by apply elem_of_cons; right).
  - destruct (decide (k = key a)) as [->|Hne].
    + rewrite decide_True by apply list_elem_of_here. by rewrite lookup_insert_eq.
    + rewrite decide_False by (rewrite elem_of_cons; naive_solver). by rewrite lookup_insert_ne.
Qed.

Lemma foldR_inv (P : B -> Prop) (step : B -> A -> E + B) l : (forall b a b', P b -> step b a = inr b' -> P b') ->
  forall b0 b, P b0 -> foldR step b0 l = inr b -> P b.
Proof.
  intros Hs. induction l as [|a l IH]; intros b0 b H0; simpl; [by intros [= <-]|].
  destruct (step b0 a) as [|b1] eqn:E1; simpl; [done|]. apply IH. by eapply Hs.
Qed.

Lemma foldR_total (step : B -> A -> E + B) l : (forall b a, a ∈ l -> exists b', step b a = inr b') -> forall b, exists b', foldR step b l = inr b'.
Proof.
  intros Hs. induction l as [|a l IH]; intros b; simpl; [by eexists|]. destruct (Hs b a (list_elem_of_here a l)) as [b' ->]. simpl.
  apply IH. intros. apply Hs. by apply list_elem_of_further.
Qed.
End Loops.

(** ** Consensus groups *)

(** The cache may forget, and never mixes up keys. *)
Class CacherLaws (C : Type) `{Cacher C} : Prop := {
  cacheGet_put (c : C) k v k' x : cacheGet (cachePut k v c) k' = Some x -> if decide (k' = k) then x = v else cacheGet c k' = Some x;
  cacheGet_clear (c : C) k : cacheGet (cacheClear c) k = None;
}.

Class OrderLaws `{CE : CoordinatorEnv} : Prop := {
  shardOrder_perm X : shardOrder X ≡ₚ elements X;
  keyOrder_perm X : keyOrder X ≡ₚ elements X;
}.

Section Groups.
Context `{CE : CoordinatorEnv} `{OL : !OrderLaws} {C St : Type} `{CC : Cacher C} `{SS : Storer St} `{CL : !CacherLaws C}.
Notation coordinator := (indexHashedNodesCoordinator C St).
Implicit Types (ihnc : coordinator) (cfg : epochNodesConfig).

Lemma ordered_elem m shard : shard ∈ ordered m <-> is_Some (m !! shard).
Proof. unfold ordered. rewrite shardOrder_perm, elem_of_elements, elem_of_dom. done. Qed.

(** The selector that a list of validators gets. *)
Definition selectorOf (h : nodesCoordinatorHelper) (l : list Validator) : option selectorExpandedList :=
  match NewSelectorExpandedList (ValidatorsWeights h l) with inr s => Some s | inl _ => None end.

Lemma createSelectors_lookup h m s : createSelectors h m = inr s ->
  forall shard, s !! shard = match m !! shard with Some l => selectorOf h l | None => None end.
Proof.
  unfold createSelectors. intros Hs shard.
  rewrite (fun Hstep => foldR_build _ id (fun shard => selectorOf h (listOf m shard)) _ _ _ Hstep Hs shard), map_id.
  - unfold listOf. destruct (m !! shard) as [l|] eqn:E.
    + by rewrite decide_True by (apply ordered_elem; by eexists).
    + rewrite decide_False; [apply lookup_empty|]. rewrite ordered_elem, E. apply is_Some_None.
  - intros m0 a m' _. simpl. unfold selectorOf. destruct (NewSelectorExpandedList _) as [|sel]; simpl; [done|].
    intros [= <-]. by eexists.
Qed.

Lemma createSelectors_made h m s shard l : createSelectors h m = inr s -> m !! shard = Some l ->
  exists sel, NewSelectorExpandedList (ValidatorsWeights h l) = inr sel /\ s !! shard = Some sel.
Proof.
  intros Hs Hl. pose proof (createSelectors_lookup _ _ _ Hs shard) as Hsh. rewrite Hl in Hsh. unfold createSelectors in Hs.
  assert (Hin : shard ∈ ordered m) by (apply ordered_elem; by eexists). revert Hs Hsh. generalize (∅ : gmap Z selectorExpandedList).
  unfold selectorOf. assert (Hlo : listOf m shard = l) by (unfold listOf; by rewrite Hl).
  induction (ordered m) as [|x xs IH]; intros m0; [by apply not_elem_of_nil in Hin|]. simpl.
  apply elem_of_cons in Hin as [<-|Hin].
  - rewrite Hlo. destruct (NewSelectorExpandedList _) as [|sel]; simpl; [done|]. intros _ ->. by eexists.
  - destruct (NewSelectorExpandedList (ValidatorsWeights h (listOf m x))) as [|sel]; simpl; [done|]. by apply IH.
Qed.

Lemma weights_length h l : length (ValidatorsWeights h l) = length l.
Proof. destruct h; simpl; apply length_map. Qed.

Lemma checkEligible_spec eligible n : checkEligible eligible = inr n ->
  MetaConsensusGroupSize arguments <= lenZ (listOf eligible CoreMetachainShardId) /\
  forall shard, 0 <= shard < u32 (Z.of_nat (size eligible) - 1) -> ShardConsensusGroupSize arguments <= lenZ (listOf eligible shard).
Proof.
  unfold checkEligible. destruct (Z.ltb_spec (lenZ (listOf eligible CoreMetachainShardId)) (MetaConsensusGroupSize arguments)) as [|Hm]; [done|].
  intros Hf. split; [done|]. intros shard Hr.
  assert (Hs : shard ∈ seqZ 0 (u32 (Z.of_nat (size eligible) - 1))) by (apply elem_of_seqZ; lia). clear Hr. revert Hf. generalize (lenZ (listOf eligible CoreMetachainShardId)) as n0.
  induction (seqZ 0 (u32 (Z.of_nat (size eligible) - 1))) as [|x xs IH]; intros n0; [by apply not_elem_of_nil in Hs|]. simpl.
  destruct (Z.ltb_spec (lenZ (listOf eligible x)) (ShardConsensusGroupSize arguments)) as [|Hx]; simpl; [done|].
  apply elem_of_cons in Hs as [->|Hs]; [done|]. by apply IH.
Qed.

(** The group that a configuration gives, without the cache. *)
Definition groupOf cfg (randomness : bytes) (round shardID : Z) : coordErr + list Validator :=
  selectValidators (selectors cfg !! shardID) (seedFormat round randomness) (u32 (ConsensusGroupSize shardID)) (listOf (eligibleMap cfg) shardID).

Hypothesis hash_long : forall b, (8 <= length (hasherCompute b))%nat.

Lemma seed_nonempty round randomness : blen (seedFormat round randomness) <> 0.
Proof.
  unfold seedFormat, blen. change (str "-") with [45]. rewrite !length_app. simpl. lia.
Qed.

(** A group: of the size that was asked for, its members from the list and as different as
    those of the list. *)
Record isGroup (l : list Validator) (n : Z) (group : list Validator) : Prop := {
  group_size : lenZ group = n;
  group_members : Forall (fun v => v ∈ l) group;
  group_distinct : NoDup (map PubKey l) -> NoDup (map PubKey group);
}.

Lemma pick_group (l : list Validator) idxs : Forall (fun i => 0 <= i < lenZ l) idxs ->
  exists group, mapR (fun i => match idxs !! i with
    | Some idx => match l !! Z.to_nat idx with Some v => inr v | None => inl CoordPanic end
    | None => inl CoordPanic end) (seq 0 (length idxs)) = inr group /\
    Forall2 (fun i v => l !! Z.to_nat i = Some v) idxs group.
Proof.
  intros Hb. exists (map (fun i => nth (Z.to_nat i) l (mkValidator [] 0 0)) idxs). split.
  - rewrite (mapR_ok _ (fun k => nth (Z.to_nat (nth k idxs 0)) l (mkValidator [] 0 0))).
    + f_equal. clear Hb. apply list_eq. intros k. rewrite !list_lookup_fmap.
      destruct (idxs !! k) as [i|] eqn:Ei.
      * rewrite lookup_seq_lt by (by eapply lookup_lt_Some). simpl. by rewrite (nth_lookup_Some idxs k 0 i Ei).
      * rewrite lookup_seq_ge by (by apply lookup_ge_None). done.
    + intros k Hk%elem_of_seq. destruct (lookup_lt_is_Some_2 idxs k ltac:(lia)) as [i Hi]. rewrite Hi.
      rewrite Forall_forall in Hb. pose proof (Hb i ltac:(by eapply list_elem_of_lookup_2)) as Hr. unfold lenZ in Hr.
      destruct (lookup_lt_is_Some_2 l (Z.to_nat i) ltac:(lia)) as [v Hv]. rewrite Hv. f_equal.
      rewrite (nth_lookup_Some idxs k 0 i Hi). symmetry. by apply nth_lookup_Some.
  - induction Hb as [|i idxs Hi _ IH]; simpl; constructor; [|done]. unfold lenZ in Hi.
    destruct (lookup_lt_is_Some_2 l (Z.to_nat i) ltac:(lia)) as [v Hv]. by rewrite (nth_lookup_Some _ _ _ _ Hv).
Qed.

Lemma pick_distinct (l : list Validator) idxs group : NoDup idxs -> Forall (fun i => 0 <= i < lenZ l) idxs ->
  Forall2 (fun i v => l !! Z.to_nat i = Some v) idxs group -> NoDup (map PubKey l) -> NoDup (map PubKey group).
Proof.
  intros Hnd Hb Hp Hl. induction Hp as [|i v idxs group Hi Hp IH]; [constructor|].
  apply NoDup_cons in Hnd as [Hni Hnd]. apply Forall_cons in Hb as [Hbi Hb]. simpl. constructor; [|by apply IH].
  intros Hin. apply list_elem_of_fmap in Hin as (w & Hw & Hin). apply list_elem_of_lookup in Hin as [k Hk].
  destruct (Forall2_lookup_r _ _ _ _ _ Hp Hk) as (j & Hj & Hlj). apply Hni.
  assert (E : Z.to_nat i = Z.to_nat j).
  { apply (NoDup_lookup (map PubKey l) _ _ (PubKey v) Hl); rewrite list_lookup_fmap; [by rewrite Hi|by rewrite Hlj, Hw]. }
  rewrite Forall_forall in Hb. pose proof (Hb j ltac:(by eapply list_elem_of_lookup_2)) as Hj'.
  replace i with j by lia. by eapply list_elem_of_lookup_2.
Qed.

(** The list and its chances are in the range of the integers of the selector. *)
Definition fits (h : nodesCoordinatorHelper) (l : list Validator) : Prop :=
  lenZ l < 2 ^ 32 /\ Forall (fun v => Chances v < 2 ^ 31) l /\ GetChance h 0 < 2 ^ 31.

Lemma fits_weights h l : fits h l -> weightsFit (ValidatorsWeights h l).
Proof.
  intros (Hl & Hc & Hz). split; [rewrite weights_length; done|]. apply Forall_forall. intros w Hw.
  rewrite Forall_forall in Hc. destruct h as [|chance]; simpl in *; apply list_elem_of_fmap in Hw as (v & -> & Hv);
    [by vm_compute|]. specialize (Hc v Hv). destruct (Chances v <? chance 0); lia.
Qed.

(** [group] is what sampling without replacement picks from the list, each validator as
    often in the urn as its weight says. *)
Definition sampledFrom (h : nodesCoordinatorHelper) (l : list Validator) (seed : bytes) (n : Z) (group : list Validator) : Prop :=
  exists sel idxs, NewSelectorExpandedList (ValidatorsWeights h l) = inr sel /\
    sample hasherCompute seed (expandedList sel) (Z.to_nat n) 0 = inr idxs /\
    Forall2 (fun i v => l !! Z.to_nat i = Some v) idxs group.

Lemma select_group s sel h l seed n : NewSelectorExpandedList (ValidatorsWeights h l) = inr sel -> s = Some sel -> blen seed <> 0 ->
  fits h l -> 1 <= n <= lenZ l ->
  exists group, selectValidators s seed n l = inr group /\ isGroup l n group /\ sampledFrom h l seed n group.
Proof.
  intros Hsel -> Hseed Hfit Hn. unfold lenZ in Hn.
  destruct (selector_spec hasherCompute hash_long _ _ seed n (fits_weights _ _ Hfit) Hsel Hseed) as (Hsam & idxs & Hidx & Hlen & Hnd & Hb).
  { rewrite weights_length. lia. }
  rewrite weights_length in Hb. destruct (pick_group l idxs Hb) as (group & Hg & Hf).
  exists group. split; [|split].
  - unfold selectValidators. rewrite (proj2 (Z.eqb_neq _ _)) by done. rewrite Hidx. simpl. by rewrite <- Hlen.
  - split.
    + unfold lenZ. rewrite <- (Forall2_length _ _ _ Hf), Hlen. lia.
    + apply Forall_forall. intros v Hv. apply list_elem_of_lookup in Hv as [k Hk].
      destruct (Forall2_lookup_r _ _ _ _ _ Hf Hk) as (i & _ & Hi). by eapply list_elem_of_lookup_2.
    + intros Hl. by eapply pick_distinct.
  - exists sel, idxs. split; [done|]. split; [|done]. by rewrite <- Hsam.
Qed.

Lemma groupOf_spec h cfg randomness round shard l : createSelectors h (eligibleMap cfg) = inr (selectors cfg) ->
  eligibleMap cfg !! shard = Some l -> fits h l -> 1 <= ConsensusGroupSize shard <= lenZ l ->
  exists group, groupOf cfg randomness round shard = inr group /\ isGroup l (ConsensusGroupSize shard) group /\
    sampledFrom h l (seedFormat round randomness) (ConsensusGroupSize shard) group.
Proof.
  intros Hs Hl Hfit Hn. destruct (createSelectors_made _ _ _ _ _ Hs Hl) as (sel & Hsel & Hsh). unfold groupOf.
  replace (u32 (ConsensusGroupSize shard)) with (ConsensusGroupSize shard)
    by (destruct Hfit as [Hf _]; unfold u32; rewrite Z.mod_small; lia).
  unfold listOf. rewrite Hl. simpl. by apply (select_group _ sel); [|by rewrite Hsh|apply seed_nonempty| |].
Qed.

(** *** The configurations of the epochs *)

(** The selectors are those of the eligible lists, or none when they cannot be made. *)
Record configOK (h : nodesCoordinatorHelper) cfg : Prop := {
  config_selectors : selectors cfg = match createSelectors h (eligibleMap cfg) with inr s => s | inl _ => ∅ end;
  config_sizes : exists n, checkEligible (eligibleMap cfg) = inr n;
  config_shards : nbShards cfg = u32 (Z.of_nat (size (eligibleMap cfg)) - 1);
}.

Definition configsOK ihnc : Prop := map_Forall (fun _ cfg => configOK (helper ihnc) cfg) (nodesConfig ihnc).

(** What is in the cache for a known epoch is what would be computed. *)
Definition cacheOK ihnc : Prop := forall epoch cfg randomness round shard group, nodesConfig ihnc !! epoch = Some cfg ->
  searchConsensusForKey (keyFormat randomness round shard epoch) ihnc = Some group -> groupOf cfg randomness round shard = inr group.

Lemma setNodesPerShards_ok eligible waiting leaving shuffledOut epoch low ihnc : configsOK ihnc ->
  let r := setNodesPerShards eligible waiting leaving shuffledOut epoch low ihnc in
  configsOK r.1 /\ helper r.1 = helper ihnc /\ (r.2 = inr tt -> exists cfg e w, nodesConfig r.1 !! epoch = Some cfg /\
    eligible = Some e /\ waiting = Some w /\ eligibleMap cfg = e /\ waitingMap cfg = w /\ leavingMap cfg = leaving /\
    shuffledOutMap cfg = shuffledOut /\ lowWaitingList cfg = low /\ createSelectors (helper ihnc) e = inr (selectors cfg)).
Proof.
  intros Hc. unfold setNodesPerShards. destruct eligible as [eligible|]; [|done]. destruct waiting as [waiting|]; [|done].
  destruct (checkEligible eligible) as [|n] eqn:En; [done|]. destruct (computeShardForSelfPublicKey _ ihnc) as [shard v].
  destruct (createSelectors (helper ihnc) eligible) as [e|s] eqn:Es; cbv beta iota zeta; cbn [fst snd].
  - destruct (nodesConfig ihnc !! epoch) as [old|]; [|done]. split; [|done]. unfold configsOK. simpl.
    apply map_Forall_insert_2; [|done]. split; simpl; [by rewrite Es|by eexists|done].
  - assert (H : configsOK (set_nodesConfig (<[epoch := mkEpochNodesConfig (u32 (Z.of_nat (size eligible) - 1)) shard eligible waiting s leaving
        shuffledOut (newList (default emptyConfig (nodesConfig ihnc !! epoch))) (auctionList (default emptyConfig (nodesConfig ihnc !! epoch))) low]>
        (nodesConfig ihnc)) ihnc)).
    { unfold configsOK. simpl. apply map_Forall_insert_2; [|done]. split; simpl; [by rewrite Es|by eexists|done]. }
    destruct (IsFullArchive arguments && v); (split; [exact H|]; split; [done|]; intros _; eexists _, eligible, waiting; split; [apply lookup_insert_eq|done]).
Qed.

(** *** The selectors can be made *)

Lemma expandFrom_total weights i : Forall (fun w => minWeight <= w) weights -> exists l, expandFrom i weights = inr l.
Proof.
  intros Hw. revert i. induction Hw as [|w weights Hw _ IH]; intros i; simpl; [by eexists|].
  destruct (Z.ltb_spec w minWeight); [lia|]. destruct (IH (i + 1)) as [l ->]. simpl. by eexists.
Qed.

Lemma weights_min h l : 1 <= GetChance h 0 -> Forall (fun w => minWeight <= w) (ValidatorsWeights h l).
Proof.
  intros Hh. apply Forall_forall. intros w Hw. unfold minWeight. destruct h as [|chance]; simpl in *;
    apply list_elem_of_fmap in Hw as (y & -> & _); [unfold defaultSelectionChances; lia|].
  destruct (Z.ltb_spec (Chances y) (chance 0)); lia.
Qed.

Lemma selector_total h l : 1 <= GetChance h 0 -> l <> [] -> exists sel, NewSelectorExpandedList (ValidatorsWeights h l) = inr sel.
Proof.
  intros Hh Hl. unfold NewSelectorExpandedList, expandList. rewrite weights_length.
  destruct (expandFrom_total (ValidatorsWeights h l) 0 (weights_min h l Hh)) as [x ->]. destruct l; [done|]. simpl. by eexists.
Qed.

Lemma createSelectors_total h m : 1 <= GetChance h 0 -> (forall shard l, m !! shard = Some l -> l <> []) -> exists s, createSelectors h m = inr s.
Proof.
  intros Hh Hm. apply foldR_total. intros s shard [l Hl]%ordered_elem. unfold listOf. rewrite Hl. simpl.
  destruct (selector_total h l Hh (Hm _ _ Hl)) as [sel ->]. simpl. by eexists.
Qed.

Definition sizesPositive : Prop := 1 <= ShardConsensusGroupSize arguments /\ 1 <= MetaConsensusGroupSize arguments.

(** The shards of a configuration that was checked are the numbered ones and the
    metachain, each with enough validators. *)
Lemma checked_shards eligible n : checkEligible eligible = inr n -> sizesPositive ->
  CoreMetachainShardId = MaxUint32 -> Z.of_nat (size eligible) <= 2 ^ 32 ->
  forall shard l, eligible !! shard = Some l -> l <> [].
Proof.
  intros Hn [Hs1 Hs2] Hmeta Hsize. destruct (checkEligible_spec _ _ Hn) as [Hm Hsh].
  assert (Hne : forall shard, 1 <= lenZ (listOf eligible shard) -> is_Some (eligible !! shard) /\ forall l, eligible !! shard = Some l -> l <> []).
  { intros shard. unfold listOf. destruct (eligible !! shard) as [l|]; simpl; [|unfold lenZ; simpl; lia]. intros Hl.
    split; [by eexists|]. intros ? [= <-] ->. unfold lenZ in Hl. simpl in Hl. lia. }
  destruct (Hne CoreMetachainShardId) as [Hmd Hmn]; [lia|].
  assert (Hpos : (0 < size eligible)%nat).
  { destruct Hmd as [l Hl]. destruct (decide (eligible = ∅)) as [->|Hne']; [by rewrite lookup_empty in Hl|].
    pose proof (map_size_non_empty_iff eligible) as E. apply E in Hne'. lia. }
  unfold u32 in Hsh. rewrite Z.mod_small in Hsh by lia.
  set (X := {[CoreMetachainShardId]} ∪ list_to_set (C := gset Z) (seqZ 0 (Z.of_nat (size eligible) - 1))).
  assert (HX : X = dom eligible).
  { apply set_subseteq_size_eq.
    - intros k Hk. apply elem_of_dom. unfold X in Hk. apply elem_of_union in Hk as [->%elem_of_singleton|Hk]; [done|].
      apply elem_of_list_to_set, elem_of_seqZ in Hk. apply Hne. specialize (Hsh k ltac:(lia)). lia.
    - unfold X. rewrite size_union, size_singleton, size_list_to_set, length_seqZ, size_dom.
      + lia.
      + apply NoDup_seqZ.
      + intros k Hk1%elem_of_singleton Hk2%elem_of_list_to_set%elem_of_seqZ. subst k. rewrite Hmeta in Hk2. unfold MaxUint32 in Hk2. lia. }
  intros shard l Hl. assert (Hin : shard ∈ X) by (rewrite HX; apply elem_of_dom; by eexists).
  unfold X in Hin. apply elem_of_union in Hin as [->%elem_of_singleton|Hin]; [by apply Hmn|].
  apply elem_of_list_to_set, elem_of_seqZ in Hin. apply (Hne shard); [|done]. specialize (Hsh shard ltac:(lia)). lia.
Qed.

(** *** The calls keep this *)

Lemma saveState_same key epoch ihnc : exists st, (saveState key epoch ihnc).1 = set_bootStorer st ihnc.
Proof.
  assert (Hid : ihnc = set_bootStorer (bootStorer ihnc) ihnc) by (by destruct ihnc).
  unfold saveState. destruct (GetRegistryData _ _); [|eauto]. destruct (storerPut _ _ _); eauto.
Qed.

Lemma shuffleValidators_same wa infos rnd epoch ihnc : exists rhs, (shuffleValidators wa infos rnd epoch ihnc).1 = set_shuffler rhs ihnc.
Proof.
  assert (Hid : ihnc = set_shuffler (shuffler ihnc) ihnc) by (by destruct ihnc).
  unfold shuffleValidators. destruct (computeNodesConfigFromList _ _); [eauto|]. destruct (ComputeAdditionalLeaving _ _); [eauto|].
  destruct (UpdateNodeLists _ _ _ _ _) as [rhs res]. simpl. eauto.
Qed.

(** All the calls that change a coordinator. *)
Inductive coordinatorCall :=
| callLoadState (key : bytes)
| callSetNodesConfigFromValidatorsInfo (epoch : Z) (randomness : bytes) (validatorsInfo : list ShardValidatorInfo)
| callEpochStartPrepare (metaHdr : startHeader) (body : bodyHandler)
| callEpochStartAction (epoch : Z)
| callComputeConsensusGroup (randomness : bytes) (round shardID epoch : Z)
| callShuffleOutForEpoch (epoch : Z).

Definition runCall ihnc (c : coordinatorCall) : coordinator :=
  match c with
  | callLoadState key => (LoadState key ihnc).1
  | callSetNodesConfigFromValidatorsInfo epoch randomness validatorsInfo =>
      (SetNodesConfigFromValidatorsInfo epoch randomness validatorsInfo ihnc).1
  | callEpochStartPrepare metaHdr body => (EpochStartPrepare metaHdr body ihnc).1
  | callEpochStartAction epoch => EpochStartAction epoch ihnc
  | callComputeConsensusGroup randomness round shardID epoch => (ComputeConsensusGroup randomness round shardID epoch ihnc).1
  | callShuffleOutForEpoch epoch => ShuffleOutForEpoch epoch ihnc
  end.
Definition runCalls (calls : list coordinatorCall) ihnc : coordinator := fold_left runCall calls ihnc.

(** No group of the epoch is in the cache. *)
Definition uncached ihnc epoch : Prop := forall randomness round shard, searchConsensusForKey (keyFormat randomness round shard epoch) ihnc = None.

(** LoadState and SetNodesConfigFromValidatorsInfo replace the configurations of epochs,
    and neither clears the cache; the first does not test the sizes of the lists either.
    They are for epochs whose groups have not been asked for yet. *)
Definition allowed ihnc (c : coordinatorCall) : Prop :=
  match c with
  | callLoadState key => (LoadState key ihnc).2 = inr tt ->
      map_Forall (fun epoch cfg => uncached ihnc epoch /\ exists n, checkEligible (eligibleMap cfg) = inr n) (nodesConfig (LoadState key ihnc).1)
  | callSetNodesConfigFromValidatorsInfo epoch _ _ => uncached ihnc epoch
  | _ => True
  end.
Fixpoint allowedRun ihnc (calls : list coordinatorCall) : Prop :=
  match calls with
  | [] => True
  | c :: calls => allowed ihnc c /\ allowedRun (runCall ihnc c) calls
  end.

Definition coordinatorOK h ihnc : Prop := helper ihnc = h /\ configsOK ihnc /\ cacheOK ihnc.

Lemma EpochStartPrepare_ok h metaHdr body ihnc : coordinatorOK h ihnc -> coordinatorOK h (EpochStartPrepare metaHdr body ihnc).1.
Proof.
  intros Hok. unfold EpochStartPrepare. destruct (IsStartOfEpochBlock metaHdr); [|done]. destruct (isMetaBlock metaHdr); [|done]. cbn [negb].
  destruct body as [| |miniBlocks]; [by destruct (hdrEpoch metaHdr =? currentEpoch ihnc)|exact Hok|].
  destruct (createValidatorInfoFromBody _ _) as [|infos]; [exact Hok|].
  destruct (shuffleValidators_same true infos (GetPrevRandSeed metaHdr) (hdrEpoch metaHdr) (updateEpochFlags (hdrEpoch metaHdr) ihnc)) as [rhs Hr].
  destruct (shuffleValidators _ _ _ _ _) as [ihnc1 [e|[r leavingNodesMap]]]; simpl in Hr; subst ihnc1; [exact Hok|].
  destruct Hok as (Hh & Hc & _).
  destruct (setNodesPerShards_ok (Some (rEligible r)) (Some (rWaiting r)) leavingNodesMap (rShuffledOut r) (hdrEpoch metaHdr) (rLowWaitingList r)
    (set_shuffler rhs (updateEpochFlags (hdrEpoch metaHdr) ihnc)) Hc) as (Hc2 & Hh2 & _).
  destruct (setNodesPerShards _ _ _ _ _ _ _) as [ihnc2 res2]. cbn [fst] in *.
  destruct (saveState_same (GetPrevRandSeed metaHdr) (hdrEpoch metaHdr) (fillPublicKeyToValidatorMap ihnc2)) as [st Hst].
  destruct (saveState _ _ _) as [ihnc3 res3]. cbn [fst] in *. subst ihnc3.
  split; [by rewrite <- Hh|]. split; [exact Hc2|]. intros epoch cfg randomness round shard group _. unfold searchConsensusForKey. simpl.
  by rewrite cacheGet_clear.
Qed.

Lemma EpochStartAction_ok h epoch ihnc : coordinatorOK h ihnc -> coordinatorOK h (EpochStartAction epoch ihnc).
Proof.
  intros (Hh & Hc & Hk). unfold EpochStartAction.
  destruct (saveState_same (savedStateKey (set_currentEpoch epoch ihnc)) epoch (set_currentEpoch epoch ihnc)) as [st Hst].
  destruct (saveState _ _ _) as [ihnc1 res]. cbn [fst] in Hst. subst ihnc1. destruct (0 <=? _); [|done].
  split; [done|]. split.
  - intros e cfg [Hcfg _]%map_lookup_filter_Some. by apply (Hc e).
  - intros e cfg randomness round shard group [Hcfg _]%map_lookup_filter_Some. by apply (Hk e).
Qed.

Lemma ShuffleOutForEpoch_ok h epoch ihnc : coordinatorOK h ihnc -> coordinatorOK h (ShuffleOutForEpoch epoch ihnc).
Proof. intros H. unfold ShuffleOutForEpoch. destruct (nodesConfig ihnc !! epoch) as [cfg|]; [|done]. by destruct (isValidator _ _). Qed.

Lemma ComputeConsensusGroup_ok h randomness round shard epoch ihnc : coordinatorOK h ihnc ->
  coordinatorOK h (ComputeConsensusGroup randomness round shard epoch ihnc).1.
Proof.
  intros Hok. unfold ComputeConsensusGroup. destruct (blen randomness =? 0); [done|]. destruct (nodesConfig ihnc !! epoch) as [cfg|] eqn:Ec; [|done].
  destruct (_ && _); [done|]. destruct (searchConsensusForKey _ ihnc); [done|].
  destruct (selectValidators _ _ _ _) as [|group] eqn:Eg; [done|]. destruct Hok as (Hh & Hc & Hk). split; [done|]. split; [done|].
  intros e cfg' randomness' round' shard' group' Hcfg Hs. unfold searchConsensusForKey in Hs. simpl in Hs, Hcfg.
  apply cacheGet_put in Hs. case_decide as Hd; [|by apply (Hk e)]. apply keyFormat_inj in Hd as (-> & -> & -> & ->). subst group'.
  rewrite Ec in Hcfg. by injection Hcfg as <-.
Qed.

(** What LoadState builds: a shard at least, and selectors that could be made. *)
Lemma registry_built config ihnc m : registryToNodesCoordinator config ihnc = inr m ->
  map_Forall (fun _ cfg => createSelectors (helper ihnc) (eligibleMap cfg) = inr (selectors cfg) /\
    nbShards cfg = u32 (Z.of_nat (size (eligibleMap cfg)) - 1)) m.
Proof.
  unfold registryToNodesCoordinator. apply foldR_inv; [|apply map_Forall_empty]. intros res k res' Hres. unfold registryStep.
  destruct (parseKey k) as [|epoch]; simpl; [done|]. destruct (GetEpochsConfig config !! k) as [v|]; [|by intros [= <-]].
  destruct (epochValidatorsToEpochNodesConfig v) as [|cfg]; simpl; [done|].
  destruct (Z.ltb_spec (u32 (Z.of_nat (size (eligibleMap cfg)))) 2) as [|Hn]; [done|].
  destruct (computeShardForSelfPublicKey cfg ihnc) as [shard b].
  destruct (createSelectors (helper ihnc) (eligibleMap cfg)) as [|sel] eqn:Es; simpl; [done|]. intros [= <-].
  apply map_Forall_insert_2; [|done]. split; [done|]. simpl. unfold u32 in *.
  pose proof (Z.mod_pos_bound (Z.of_nat (size (eligibleMap cfg))) (2 ^ 32) ltac:(lia)).
  rewrite (Zminus_mod (Z.of_nat _)), (Z.mod_small 1 (2 ^ 32)) by lia. symmetry. apply Z.mod_small. lia.
Qed.

Lemma LoadState_cache key ihnc : consensusGroupCacher (LoadState key ihnc).1 = consensusGroupCacher ihnc.
Proof.
  unfold LoadState, baseLoadState. destruct (storerGet _ _) as [data|]; [|done]. destruct (CreateNodesCoordinatorRegistry data) as [config|]; [|done].
  by destruct (registryToNodesCoordinator config _).
Qed.

Lemma LoadState_ok h key ihnc : allowed ihnc (callLoadState key) -> coordinatorOK h ihnc -> coordinatorOK h (LoadState key ihnc).1.
Proof.
  intros Ha Hok. simpl in Ha. unfold LoadState, baseLoadState in *. destruct (storerGet _ _) as [data|]; [|done].
  destruct (CreateNodesCoordinatorRegistry data) as [config|]; [|done].
  destruct (registryToNodesCoordinator config _) as [e|m] eqn:Em; [exact Hok|]. specialize (Ha eq_refl). apply registry_built in Em.
  destruct Hok as (Hh & _ & _). split; [done|]. split.
  - intros epoch cfg Hcfg. destruct (Em _ _ Hcfg) as [Hs Hn]. destruct (Ha _ _ Hcfg) as [_ Hz]. simpl in Hs.
    split; [simpl; by rewrite Hs|done|done].
  - intros epoch cfg randomness round shard group Hcfg Hg. destruct (Ha _ _ Hcfg) as [Hu _].
    change (searchConsensusForKey (keyFormat randomness round shard epoch) ihnc = Some group) in Hg. by rewrite Hu in Hg.
Qed.

(** setNodesPerShards changes no other epoch, and not the cache. *)
Lemma setNodesPerShards_other eligible waiting leaving shuffledOut epoch low ihnc :
  let r := setNodesPerShards eligible waiting leaving shuffledOut epoch low ihnc in
  consensusGroupCacher r.1 = consensusGroupCacher ihnc /\ forall e, e <> epoch -> nodesConfig r.1 !! e = nodesConfig ihnc !! e.
Proof.
  unfold setNodesPerShards. destruct eligible as [eligible|]; [|done]. destruct waiting as [waiting|]; [|done].
  destruct (checkEligible eligible); [done|]. destruct (computeShardForSelfPublicKey _ ihnc) as [shard v].
  destruct (createSelectors (helper ihnc) eligible); cbv beta iota zeta; cbn [fst].
  - destruct (nodesConfig ihnc !! epoch); [|done]. split; [done|]. intros e1 He. simpl. by rewrite lookup_insert_ne.
  - destruct (IsFullArchive arguments && v); (split; [done|]; intros e1 He; simpl; by rewrite lookup_insert_ne).
Qed.

Lemma removeOlderEpochs_ok h epoch delta ihnc : coordinatorOK h ihnc -> coordinatorOK h (removeOlderEpochs epoch delta ihnc).
Proof.
  intros (Hh & Hc & Hk). unfold removeOlderEpochs. destruct (_ <=? _); [|done]. split; [done|]. split.
  - intros e cfg [Hcfg _]%map_lookup_filter_Some. by apply (Hc e).
  - intros e cfg randomness round shard group [Hcfg _]%map_lookup_filter_Some. by apply (Hk e).
Qed.

Lemma SetNodesConfig_ok h epoch randomness infos ihnc : uncached ihnc epoch -> coordinatorOK h ihnc ->
  coordinatorOK h (SetNodesConfigFromValidatorsInfo epoch randomness infos ihnc).1.
Proof.
  intros Hu Hok. unfold SetNodesConfigFromValidatorsInfo.
  destruct (shuffleValidators_same false infos randomness epoch ihnc) as [rhs Hr].
  destruct (shuffleValidators _ _ _ _ _) as [ihnc1 [e|[r leavingNodesMap]]]; simpl in Hr; subst ihnc1; [exact Hok|].
  destruct Hok as (Hh & Hc & Hk). set (ihnc1 := set_shuffler rhs ihnc).
  destruct (setNodesPerShards_ok (Some (rEligible r)) (Some (rWaiting r)) leavingNodesMap (rShuffledOut r) epoch (rLowWaitingList r) ihnc1 Hc)
    as (Hc2 & Hh2 & _).
  destruct (setNodesPerShards_other (Some (rEligible r)) (Some (rWaiting r)) leavingNodesMap (rShuffledOut r) epoch (rLowWaitingList r) ihnc1)
    as (Hca & Ho).
  destruct (setNodesPerShards _ _ _ _ _ _ _) as [ihnc2 res2]. cbn [fst] in *.
  assert (Hok2 : coordinatorOK h ihnc2).
  { split; [by rewrite Hh2|]. split; [done|]. intros e cfg rnd round shard group Hcfg Hg.
    unfold searchConsensusForKey in Hg. rewrite Hca in Hg.
    change (searchConsensusForKey (keyFormat rnd round shard e) ihnc = Some group) in Hg.
    destruct (decide (e = epoch)) as [->|Hne]; [by rewrite Hu in Hg|]. rewrite Ho in Hcfg by done. by apply (Hk e cfg). }
  destruct res2; [done|]. by apply removeOlderEpochs_ok.
Qed.

Lemma runCalls_ok h calls ihnc : coordinatorOK h ihnc -> allowedRun ihnc calls -> coordinatorOK h (runCalls calls ihnc).
Proof.
  revert ihnc. induction calls as [|c calls IH]; intros ihnc Hok Hrun; [done|]. destruct Hrun as [Ha Hrun].
  apply (IH (runCall ihnc c)); [|done]. destruct c; simpl.
  - by apply LoadState_ok.
  - by apply SetNodesConfig_ok.
  - by apply EpochStartPrepare_ok.
  - by apply EpochStartAction_ok.
  - by apply ComputeConsensusGroup_ok.
  - by apply ShuffleOutForEpoch_ok.
Qed.

(** A coordinator as it is constructed, with an empty cache. *)
Inductive created : coordinator -> Prop :=
| created_base sh st cache ihnc : (forall k, cacheGet cache k = None) -> NewIndexHashedNodesCoordinator sh st cache = inr ihnc -> created ihnc
| created_rater sh st cache chanceComputer ihnc0 ihnc : (forall k, cacheGet cache k = None) ->
    NewIndexHashedNodesCoordinator sh st cache = inr ihnc0 ->
    NewIndexHashedNodesCoordinatorWithRater chanceComputer ihnc0 = (ihnc, inr tt) -> created ihnc.

(** The first configuration has no eligible validators yet, and is always replaced. *)
Lemma New_created sh st cache ihnc : NewIndexHashedNodesCoordinator sh st cache = inr ihnc ->
  sizesPositive /\ consensusGroupCacher ihnc = cache /\ currentEpoch ihnc = argEpoch arguments /\ helper ihnc = baseHelper /\
  exists cfg, nodesConfig ihnc = {[argEpoch arguments := cfg]} /\ configOK baseHelper cfg.
Proof.
  unfold NewIndexHashedNodesCoordinator, checkArguments.
  destruct (Z.ltb_spec (ShardConsensusGroupSize arguments) 1), (Z.ltb_spec (MetaConsensusGroupSize arguments) 1); try done. cbn [orb].
  destruct (NbShards arguments <? 1); [done|]. destruct (_ && _); [done|]. destruct (length (SelfPublicKey arguments) =? 0)%nat; [done|]. cbn [rbind].
  set (ihnc0 := mkCoordinator _ _ _ _ _ _ _ _ _ _ _ _ _ _). unfold setNodesPerShards.
  destruct (EligibleNodes arguments) as [eligible|]; [|done]. destruct (WaitingNodes arguments) as [waiting|]; [|done].
  destruct (checkEligible eligible) as [|n] eqn:En; [done|]. destruct (computeShardForSelfPublicKey _ ihnc0) as [shard v].
  destruct (createSelectors (helper ihnc0) eligible) as [e|s] eqn:Es; cbv beta iota zeta; [done|]. cbn [rbind].
  intros HN. split; [split; lia|].
  match type of HN with (let (_, _) := saveState ?k ?e ?x in _) = _ => destruct (saveState_same k e x) as [st' Hst]; destruct (saveState k e x) as [ihnc1 res1] end.
  cbn [fst] in Hst. subst ihnc1.
  destruct (epochErr _ _); [done|]. injection HN as <-.
  assert (Hins : forall cfg, nodesConfig ihnc0 = {[argEpoch arguments := cfg]} -> forall c, <[argEpoch arguments := c]> (nodesConfig ihnc0) = {[argEpoch arguments := c]})
    by (intros cfg -> c; apply insert_singleton_eq).
  destruct (IsFullArchive arguments && v); (split; [done|]; split; [done|]; split; [done|]; eexists; split; [apply (Hins _ eq_refl)|]);
    (split; simpl; [simpl in Es; by rewrite Es|by eexists|done]).
Qed.

Lemma created_ok ihnc : created ihnc -> sizesPositive /\ coordinatorOK (helper ihnc) ihnc.
Proof.
  assert (Hempty : forall (x : coordinator), (forall k, cacheGet (consensusGroupCacher x) k = None) -> cacheOK x).
  { intros x Hx e cfg randomness round shard group _. unfold searchConsensusForKey. by rewrite Hx. }
  destruct 1 as [sh st cache ihnc Hcache HN|sh st cache chance ihnc0 ihnc Hcache HN HR].
  - destruct (New_created _ _ _ _ HN) as (Hpos & Hca & _ & Hh & cfg & Hm & Hcfg). split; [done|]. split; [done|]. split.
    + unfold configsOK. rewrite Hm, Hh. by apply map_Forall_singleton.
    + apply Hempty. by rewrite Hca.
  - destruct (New_created _ _ _ _ HN) as (Hpos & Hca & He & Hh & cfg & Hm & Hcfg). split; [done|].
    unfold NewIndexHashedNodesCoordinatorWithRater in HR. simpl in HR. rewrite Hm, He, lookup_singleton_eq in HR.
    destruct (createSelectors (raterHelper chance) (eligibleMap cfg)) as [|s] eqn:Es; [done|]. injection HR as <-.
    split; [done|]. split.
    + unfold configsOK. simpl. rewrite insert_singleton_eq. apply map_Forall_singleton. destruct Hcfg as [_ Hn Hs]. split; simpl; [by rewrite Es|done|done].
    + apply Hempty. simpl. by rewrite Hca.
Qed.

Definition shardExists cfg (shard : Z) : Prop := shard = CoreMetachainShardId \/ 0 <= shard < nbShards cfg.

(** A checked configuration has the group of each of its shards. *)
Lemma config_group h cfg randomness round shard : configOK h cfg -> sizesPositive -> CoreMetachainShardId = MaxUint32 ->
  1 <= GetChance h 0 -> Z.of_nat (size (eligibleMap cfg)) <= 2 ^ 32 -> shardExists cfg shard -> fits h (listOf (eligibleMap cfg) shard) ->
  exists group, groupOf cfg randomness round shard = inr group /\
    isGroup (listOf (eligibleMap cfg) shard) (ConsensusGroupSize shard) group /\
    sampledFrom h (listOf (eligibleMap cfg) shard) (seedFormat round randomness) (ConsensusGroupSize shard) group.
Proof.
  intros [Hsel [n Hn] Hnb] Hpos Hmeta Hh Hsize Hshard Hfit.
  destruct (createSelectors_total h (eligibleMap cfg) Hh (checked_shards _ _ Hn Hpos Hmeta Hsize)) as [s Hs]. rewrite Hs in Hsel. subst s.
  destruct (checkEligible_spec _ _ Hn) as [Hm Hsh].
  assert (Hr : 1 <= ConsensusGroupSize shard <= lenZ (listOf (eligibleMap cfg) shard)).
  { unfold ConsensusGroupSize. destruct Hpos. destruct (Z.eqb_spec shard CoreMetachainShardId) as [->|Hne]; [lia|].
    destruct Hshard as [?|Hshard]; [done|]. rewrite Hnb in Hshard. specialize (Hsh shard Hshard). lia. }
  unfold listOf in *. destruct (eligibleMap cfg !! shard) as [l|] eqn:El; simpl in *; [|unfold lenZ in Hr; simpl in Hr; lia].
  by apply groupOf_spec.
Qed.

Lemma ComputeConsensusGroup_result h ihnc cfg randomness round shard epoch : coordinatorOK h ihnc -> nodesConfig ihnc !! epoch = Some cfg ->
  shardExists cfg shard -> blen randomness <> 0 -> (ComputeConsensusGroup randomness round shard epoch ihnc).2 = groupOf cfg randomness round shard.
Proof.
  intros (_ & _ & Hk) Hcfg Hshard Hr. unfold ComputeConsensusGroup. rewrite (proj2 (Z.eqb_neq _ _)) by done. rewrite Hcfg.
  replace ((nbShards cfg <=? shard) && negb (shard =? CoreMetachainShardId)) with false.
  2: { destruct Hshard as [->|Hs]; [rewrite Z.eqb_refl; by destruct (_ <=? _)|]. by rewrite (proj2 (Z.leb_gt _ _)) by lia. }
  destruct (searchConsensusForKey _ ihnc) as [group|] eqn:Es; [symmetry; by apply (Hk epoch)|].
  unfold groupOf. by destruct (selectValidators _ _ _ _).
Qed.

(** C18: However a coordinator is used after it was constructed - epochs that start, with
    whatever validators and in whatever order, groups that are asked for and cached,
    states that are loaded and configurations that are set from validator infos - each
    shard of each epoch that it knows has its consensus group: of the configured size,
    without repetition, chosen from the eligible validators of the shard by sampling
    without replacement with the weights of the validators.  It depends on nothing but the
    randomness, the round and this list; the cache does not matter.  Two calls have a
    condition ([allowed]): LoadState and SetNodesConfigFromValidatorsInfo do not clear the
    cache, so they come before a group of the epochs that they replace is asked for, and
    LoadState does not test the sizes of the lists that it reads, so these are as large as
    the groups.  The list and the chances are in the range of the integers of the selector
    ([fits]), the lowest chance is not 0, and the randomness is not empty. *)
Theorem consensus_group_valid (ihnc0 : coordinator) calls epoch cfg randomness round shard
  (Hcreated : created ihnc0)
  (Hcalls : allowedRun ihnc0 calls)
  (Hmeta : CoreMetachainShardId = MaxUint32)
  (Hchance : 1 <= GetChance (helper ihnc0) 0)
  (Hcfg : nodesConfig (runCalls calls ihnc0) !! epoch = Some cfg)
  (Hsize : Z.of_nat (size (eligibleMap cfg)) <= 2 ^ 32)
  (Hshard : shardExists cfg shard)
  (Hfit : fits (helper ihnc0) (listOf (eligibleMap cfg) shard))
  (Hrandomness : blen randomness <> 0) :
  exists group, (ComputeConsensusGroup randomness round shard epoch (runCalls calls ihnc0)).2 = inr group /\
    isGroup (listOf (eligibleMap cfg) shard) (ConsensusGroupSize shard) group /\
    sampledFrom (helper ihnc0) (listOf (eligibleMap cfg) shard) (seedFormat round randomness) (ConsensusGroupSize shard) group.
Proof.
  destruct (created_ok _ Hcreated) as [Hpos Hok]. pose proof (runCalls_ok _ calls _ Hok Hcalls) as Hrun.
  rewrite (ComputeConsensusGroup_result _ _ _ _ _ _ _ Hrun Hcfg Hshard Hrandomness).
  destruct Hrun as (Hh & Hc & _). apply config_group; try done. rewrite <- Hh. by apply (Hc epoch).
Qed.
End Groups.

(** ** Selection *)

(** Each index as often as its weight says. *)
Definition urn (weights : list Z) : list Z := concat (imap (fun i w => replicate (Z.to_nat w) (Z.of_nat i)) weights).

Lemma expandFrom_urn i weights l : expandFrom (Z.of_nat i) weights = inr l -> Z.of_nat (i + length weights) <= 2 ^ 32 ->
  l = concat (imap (fun k w => replicate (Z.to_nat w) (Z.of_nat (i + k))) weights).
Proof.
  revert i l. induction weights as [|w weights IH]; intros i l; simpl; [by intros [= <-] _|].
  destruct (w <? minWeight); [done|]. destruct (expandFrom (Z.of_nat i + 1) weights) as [|rest] eqn:E; simpl; [done|].
  intros [= <-] Hlen. f_equal; [unfold u32; rewrite Z.mod_small by lia; by rewrite Nat.add_0_r|].
  replace (Z.of_nat i + 1) with (Z.of_nat (S i)) in E by lia. rewrite (IH _ _ E) by lia. f_equal. apply imap_ext. intros k x _. simpl.
  by rewrite Nat.add_succ_r.
Qed.

(** C34: The selector, which keeps the intervals of the list that were taken out and moves
    each random position past them, chooses exactly what sampling without replacement
    from the urn does, in which each index is as often as its weight says and from which
    a chosen index is taken with all its copies; and it always finds as many different
    indexes as it was asked for. *)
Theorem selection_is_sampling (hasher : bytes -> bytes) weights randSeed sampleSize
  (hash_long : forall b, (8 <= length (hasher b))%nat)
  (Hfit : weightsFit weights)
  (Hweights : Forall (fun w => 1 <= w) weights)
  (Hseed : blen randSeed <> 0)
  (Hsize : 0 < sampleSize <= lenZ weights) :
  exists s indexes, NewSelectorExpandedList weights = inr s /\
    Select hasher s randSeed sampleSize = inr indexes /\
    sample hasher randSeed (urn weights) (Z.to_nat sampleSize) 0 = inr indexes /\
    lenZ indexes = sampleSize /\ NoDup indexes /\ Forall (fun i => 0 <= i < lenZ weights) indexes.
Proof.
  unfold lenZ in *. destruct (expandFrom_total weights 0 Hweights) as [l Hl].
  assert (Hu : l = urn weights) by (apply (expandFrom_urn 0); [done|destruct Hfit; lia]).
  assert (HN : NewSelectorExpandedList weights = inr (mkSelector l (u32 (Z.of_nat (length weights))))).
  { unfold NewSelectorExpandedList, expandList. destruct weights; [simpl in Hsize; lia|]. simpl length. cbv iota. by rewrite Hl. }
  destruct (selector_spec hasher hash_long _ _ _ _ Hfit HN Hseed Hsize) as (Hs & indexes & Hi & Hlen & Hnd & Hb).
  eexists _, indexes. split; [exact HN|]. split; [done|]. split; [rewrite <- Hu; cbn [expandedList] in Hs; by rewrite <- Hs|]. split; [lia|done].
Qed.

(** ** The registry *)

Class StorerLaws (St : Type) `{Storer St} : Prop := {
  storerGet_put (st : St) k v st' : storerPut k v st = Some st' -> storerGet st' k = Some v;
}.

Definition inUint32 (n : Z) : Prop := 0 <= n < 2 ^ 32.

(** What the marshallers give back: integers in their range, and keys that are not empty
    (protocol buffers leave out an empty key, which is then read as nil). *)
Definition serializableFits (v : SerializableValidator) : Prop :=
  match svPubKey v with Some (_ :: _) => True | _ => False end /\ inUint32 (svChances v) /\ inUint32 (svIndex v).
Definition svMapFits (m : svMap) : Prop := map_Forall (fun _ l => Forall serializableFits l) m.

Class RegistryLaws `{CE : CoordinatorEnv} : Prop := {
  protoUnmarshal_marshal r b : protoMarshal (auctionRegistry r) = Some b -> inUint32 (awCurrentEpoch r) ->
    map_Forall (fun _ v => svMapFits (Eligible v) /\ svMapFits (Waiting v) /\ svMapFits (Leaving v) /\ svMapFits (ShuffledOut v)) (EpochsConfigWithAuction r) ->
    protoUnmarshal b = Some r;
  jsonUnmarshal_marshal r b : jsonMarshal (oldRegistry r) = Some b -> inUint32 (CurrentEpoch r) ->
    map_Forall (fun _ v => svMapFits (EligibleValidators v) /\ svMapFits (WaitingValidators v) /\ svMapFits (LeavingValidators v)) (EpochsConfig r) ->
    jsonUnmarshal b = Some r /\ protoUnmarshal b = None;
  factory_epoch : ncfStakingV4Step2EnableEpoch = StakingV4Step2ActivationEpoch;
}.

Section Registry.
Context `{CE : CoordinatorEnv} `{OL : !OrderLaws} `{RL : !RegistryLaws} {C St : Type} `{CC : Cacher C} `{SS : Storer St} `{SL : !StorerLaws St}.
Notation coordinator := (indexHashedNodesCoordinator C St).
Implicit Types (ihnc : coordinator) (cfg : epochNodesConfig).

Lemma parseKey_Sprint k : inUint32 k -> parseKey (Sprint k) = inr k /\ u32 k = k.
Proof.
  unfold inUint32. intros Hk. unfold parseKey. rewrite ParseInt_Sprint by lia. split; [done|]. by apply Z.mod_small.
Qed.

(** Reading what was written under the numbers as texts. *)
Lemma read_back {A V : Type} (m : gmap Z A) (f : A -> V) (step : gmap Z V -> bytes -> coordErr + gmap Z V) :
  (forall k a res, m !! k = Some a -> step res (Sprint k) = inr (<[k := f a]> res)) ->
  map_Forall (fun k _ => inUint32 k) m ->
  foldR step ∅ (keyOrder (dom (kmap Sprint m : gmap bytes A))) = inr (f <$> m).
Proof.
  intros Hs Hr. set (l := keyOrder _).
  assert (Hl : forall s, s ∈ l <-> exists k a, s = Sprint k /\ m !! k = Some a).
  { intros s. unfold l. rewrite keyOrder_perm, elem_of_elements, elem_of_dom. split.
    - intros [a Ha]. apply lookup_kmap_Some in Ha as (k & -> & Ha); [|apply _]. by exists k, a.
    - intros (k & a & -> & Ha). exists a. by rewrite lookup_kmap by apply _. }
  destruct (foldR_total step l) with (b := ∅ : gmap Z V) as [m' Hm'].
  { intros res s (k & a & -> & Ha)%Hl. eexists. by apply Hs. }
  rewrite Hm'. f_equal. apply map_eq. intros k.
  rewrite (fun Hstep => foldR_build step (fun s => default 0 (ParseInt s)) (fun k => f <$> m !! k) l ∅ m' Hstep Hm' k), lookup_fmap.
  - case_decide as Hk; [done|]. destruct (m !! k) as [a|] eqn:Ea; [|apply lookup_empty]. exfalso. apply Hk.
    apply list_elem_of_fmap. exists (Sprint k). pose proof (Hr _ _ Ea) as Hrk. unfold inUint32 in Hrk. rewrite ParseInt_Sprint by lia. split; [done|].
    apply Hl. by exists k, a.
  - intros res s res' (k' & a & -> & Ha)%Hl Hstep. rewrite (Hs _ _ _ Ha) in Hstep. injection Hstep as <-. exists (f a).
    pose proof (Hr _ _ Ha) as Hrk. unfold inUint32 in Hrk. rewrite ParseInt_Sprint by lia. simpl. by rewrite Ha.
Qed.

Lemma validators_read_back l : serializableValidatorArrayToValidatorArray (ValidatorArrayToSerializableValidatorArray l) = inr l.
Proof. induction l as [|[k c i] l IH]; [done|]. unfold serializableValidatorArrayToValidatorArray in *. simpl in *. by rewrite IH. Qed.

Definition shardsInRange (m : vmap) : Prop := map_Forall (fun shard _ => inUint32 shard) m.

Lemma map_read_back m : shardsInRange m -> serializableValidatorsMapToValidatorsMap (serializeMap m) = inr m.
Proof.
  intros Hm. unfold serializableValidatorsMapToValidatorsMap, serializeMap.
  rewrite (read_back (ValidatorArrayToSerializableValidatorArray <$> m) (fun l => map (fun v => mkValidator (default [] (svPubKey v)) (svChances v) (svIndex v)) l)).
  - f_equal. rewrite <- map_fmap_compose. rewrite <- (map_fmap_id m) at 2. apply map_fmap_ext. intros k l _. simpl.
    unfold ValidatorArrayToSerializableValidatorArray. rewrite map_map. rewrite <- (map_id l) at 2. apply map_ext. by intros [].
  - intros k a res Ha. rewrite lookup_fmap in Ha. destruct (m !! k) as [l|] eqn:El; [|done]. injection Ha as <-.
    destruct (parseKey_Sprint k (Hm _ _ El)) as [-> Hu]. simpl. rewrite lookup_kmap by apply _. rewrite lookup_fmap, El. simpl.
    rewrite validators_read_back. simpl. rewrite Hu. do 2 f_equal. unfold ValidatorArrayToSerializableValidatorArray. rewrite map_map.
    rewrite <- (map_id l) at 1. apply map_ext. by intros [].
  - intros k a Ha. rewrite lookup_fmap in Ha. destruct (m !! k) as [l|] eqn:El; [|done]. by eapply Hm.
Qed.

Definition validatorFits (v : Validator) : Prop := PubKey v <> [] /\ inUint32 (Chances v) /\ inUint32 (Index v).
Definition mapFits (m : vmap) : Prop := map_Forall (fun shard l => inUint32 shard /\ Forall validatorFits l) m.

(** A configuration that can be saved: keys are not empty, integers are in their range,
    there is a shard and the metachain, and the selectors are those of the lists. *)
Record savable (h : nodesCoordinatorHelper) cfg : Prop := {
  savable_eligible : mapFits (eligibleMap cfg);
  savable_waiting : mapFits (waitingMap cfg);
  savable_leaving : mapFits (leavingMap cfg);
  savable_shuffledOut : mapFits (shuffledOutMap cfg);
  savable_shards : 1 <= nbShards cfg /\ Z.of_nat (size (eligibleMap cfg)) = nbShards cfg + 1 /\ nbShards cfg + 1 < 2 ^ 32;
  savable_selectors : createSelectors h (eligibleMap cfg) = inr (selectors cfg);
}.

Lemma mapFits_shards m : mapFits m -> shardsInRange m.
Proof. intros Hm k l Hl. by apply (Hm _ _ Hl). Qed.

Lemma serialized_fits m : mapFits m -> svMapFits (serializeMap m).
Proof.
  intros Hm s l Hl. unfold serializeMap in Hl. apply lookup_kmap_Some in Hl as (k & -> & Hl); [|apply _].
  rewrite lookup_fmap in Hl. destruct (m !! k) as [vs|] eqn:Ek; [|done]. injection Hl as <-.
  destruct (Hm _ _ Ek) as [_ Hvs]. unfold ValidatorArrayToSerializableValidatorArray. apply Forall_map. eapply Forall_impl; [exact Hvs|].
  intros v (Hk & Hc & Hi). split; [|done]. simpl. by destruct (PubKey v).
Qed.

(** What is left of a configuration: without an auction registry the shuffled out nodes
    are lost, and the shard of the node is computed anew. *)
Definition restored (withAuction : bool) ihnc cfg : epochNodesConfig :=
  let cfg' := mkEpochNodesConfig 0 0 (eligibleMap cfg) (waitingMap cfg) ∅ (leavingMap cfg) (if withAuction then shuffledOutMap cfg else ∅) [] []
                (withAuction && lowWaitingList cfg) in
  mkEpochNodesConfig (nbShards cfg) (computeShardForSelfPublicKey cfg' ihnc).1 (eligibleMap cfg) (waitingMap cfg) (selectors cfg) (leavingMap cfg)
    (shuffledOutMap cfg') [] [] (lowWaitingList cfg').

Definition configHandler (withAuction_ : bool) cfg : EpochValidatorsHandler :=
  if withAuction_ then withAuction (epochNodesConfigToEpochValidatorsWithAuction cfg) else withoutAuction (epochNodesConfigToEpochValidators cfg).

Lemma config_read_back wa h cfg : savable h cfg -> epochValidatorsToEpochNodesConfig (configHandler wa cfg) =
  inr (mkEpochNodesConfig 0 0 (eligibleMap cfg) (waitingMap cfg) ∅ (leavingMap cfg) (if wa then shuffledOutMap cfg else ∅) [] []
         (wa && lowWaitingList cfg)).
Proof.
  intros [He Hw Hl Hs _ _]. unfold epochValidatorsToEpochNodesConfig. destruct wa; simpl;
    rewrite !map_read_back by (by apply mapFits_shards); done.
Qed.

Lemma registryStep_back wa ihnc (m : gmap Z epochNodesConfig) k cfg res : m !! k = Some cfg -> inUint32 k -> savable (helper ihnc) cfg ->
  registryStep ihnc (configHandler wa <$> kmap Sprint m) res (Sprint k) = inr (<[k := restored wa ihnc cfg]> res).
Proof.
  intros Hm Hk Hs. unfold registryStep. destruct (parseKey_Sprint k Hk) as [-> Hu]. simpl.
  rewrite lookup_fmap, lookup_kmap, Hm by apply _. simpl. rewrite (config_read_back _ _ _ Hs). simpl.
  destruct Hs as [_ _ _ _ (Hn1 & Hn2 & Hn3) Hsel]. rewrite Hn2.
  replace (u32 (nbShards cfg + 1)) with (nbShards cfg + 1) by (unfold u32; rewrite Z.mod_small; lia).
  destruct (Z.ltb_spec (nbShards cfg + 1) 2); [lia|].
  destruct (computeShardForSelfPublicKey _ ihnc) as [shard v] eqn:Esh. rewrite Hsel. simpl. rewrite Hu. do 2 f_equal.
  unfold restored. cbv zeta. rewrite Esh. simpl. f_equal. lia.
Qed.

Lemma kmap_handlers wa (m : gmap Z epochNodesConfig) : configHandler wa <$> (kmap Sprint m : gmap bytes epochNodesConfig) =
  if wa then withAuction <$> (kmap Sprint (epochNodesConfigToEpochValidatorsWithAuction <$> m))
  else withoutAuction <$> (kmap Sprint (epochNodesConfigToEpochValidators <$> m)).
Proof. destruct wa; rewrite kmap_fmap, <- map_fmap_compose by apply _; done. Qed.

(** C35: A node that restarts has what it had: loading a state that was saved gives back
    the current epoch and the configurations of the last four epochs, with their eligible,
    waiting and leaving validators and the same selectors, so that the consensus groups
    are the same; the shuffled out validators only come back from an auction registry. *)
Theorem load_after_save ihnc ihnc1 ihnc2 key epoch
  (Hsave : saveState key epoch ihnc = (ihnc1, inr tt))
  (Hstorer : bootStorer ihnc2 = bootStorer ihnc1)
  (Hcurrent : inUint32 (currentEpoch ihnc))
  (Hconfigs : map_Forall (fun e cfg => inUint32 e /\ savable (helper ihnc2) cfg) (savedConfigs ihnc)) :
  exists ihnc3, LoadState key ihnc2 = (ihnc3, inr tt) /\
    currentEpoch ihnc3 = currentEpoch ihnc /\ savedStateKey ihnc3 = key /\
    nodesConfig ihnc3 = restored (StakingV4Step2ActivationEpoch <=? epoch) (set_currentEpoch (currentEpoch ihnc) (set_savedStateKey key ihnc2))
                          <$> savedConfigs ihnc.
Proof.
  set (wa := StakingV4Step2ActivationEpoch <=? epoch). set (ihnc2' := set_currentEpoch _ _).
  assert (Hreg : exists data r, storerGet (bootStorer ihnc2) (NodesCoordinatorRegistryKeyPrefix ++ key) = Some data /\
    CreateNodesCoordinatorRegistry data = Some r /\ GetCurrentEpoch r = currentEpoch ihnc /\
    GetEpochsConfig r = configHandler wa <$> kmap Sprint (savedConfigs ihnc)).
  { unfold saveState in Hsave. destruct (GetRegistryData _ epoch) as [data|] eqn:Ed; [|done]. destruct (storerPut _ _ _) as [st|] eqn:Es; [|done].
    injection Hsave as <-. exists data, (NodesCoordinatorToRegistry epoch ihnc). split; [rewrite Hstorer; by eapply storerGet_put|].
    unfold GetRegistryData in Ed. rewrite factory_epoch in Ed. fold wa in Ed. unfold CreateNodesCoordinatorRegistry, createRegistryWithAuction, createOldRegistry.
    rewrite kmap_handlers. unfold NodesCoordinatorToRegistry in *. fold wa in Ed |- *. destruct wa.
    - rewrite (protoUnmarshal_marshal _ _ Ed); [done|done|]. simpl. intros s v Hv. apply lookup_kmap_Some in Hv as (k & -> & Hv); [|apply _].
      rewrite lookup_fmap in Hv. destruct (savedConfigs ihnc !! k) as [cfg|] eqn:Ec; [|done]. injection Hv as <-.
      destruct (Hconfigs _ _ Ec) as [_ [? ? ? ? _ _]]. simpl. split_and!; by apply serialized_fits.
    - destruct (jsonUnmarshal_marshal _ _ Ed) as [-> ->]; [done| |done]. simpl. intros s v Hv. apply lookup_kmap_Some in Hv as (k & -> & Hv); [|apply _].
      rewrite lookup_fmap in Hv. destruct (savedConfigs ihnc !! k) as [cfg|] eqn:Ec; [|done]. injection Hv as <-.
      destruct (Hconfigs _ _ Ec) as [_ [? ? ? ? _ _]]. simpl. split_and!; by apply serialized_fits. }
  destruct Hreg as (data & r & Hget & Hr & He & Hcfgs). unfold LoadState, baseLoadState. rewrite Hget, Hr, He. fold ihnc2'.
  assert (Hload : registryToNodesCoordinator r ihnc2' = inr (restored wa ihnc2' <$> savedConfigs ihnc)).
  { unfold registryToNodesCoordinator. rewrite Hcfgs, dom_fmap_L. apply read_back.
    - intros k cfg res Hcfg. destruct (Hconfigs _ _ Hcfg) as [Hk Hs]. by apply registryStep_back.
    - intros k cfg Hcfg. by apply (Hconfigs _ _ Hcfg). }
  rewrite Hload. eexists. split; [reflexivity|]. done.
Qed.
End Registry.

(** ** The start of an epoch *)

Definition keyOf (i : ShardValidatorInfo) : bytes := default [] (viPublicKey i).
Definition inList (l : bytes) (i : ShardValidatorInfo) : bool := beq (viList i) l.

(** A leaving validator is still counted with its previous list. *)
Definition leavesCurrent (started : bool) (i : ShardValidatorInfo) : bool :=
  negb started || (length (viPreviousList i) =? 0)%nat || beq (viPreviousList i) EligibleList || beq (viPreviousList i) WaitingList.
Definition isCurrent (started : bool) (i : ShardValidatorInfo) : bool :=
  inList WaitingList i || inList EligibleList i || inList LeavingList i && leavesCurrent started i.

Definition keysIn (f : ShardValidatorInfo -> bool) (infos : list ShardValidatorInfo) : list bytes := map keyOf (filter (fun i => f i = true) infos).

Lemma keysIn_cons f i infos : keysIn f (i :: infos) = (if f i then [keyOf i] else []) ++ keysIn f infos.
Proof. unfold keysIn. rewrite filter_cons. destruct (f i) eqn:E; by case_decide. Qed.

Lemma appendTo_keys m s v : keys (allOf (appendTo m s v)) ≡ₚ keys (allOf m) ++ [PubKey v].
Proof. unfold appendTo. by rewrite allOf_append, map_app. Qed.

(** Evaluate the comparisons of the constant names. *)
Ltac eval_lists :=
  repeat match goal with
  | |- context [beq ?a ?b] => let v := eval vm_compute in (beq a b) in
      lazymatch v with true => change (beq a b) with true | false => change (beq a b) with false end
  end; cbn [orb andb negb].

(** The list of a validator is known: what its step adds. *)
Ltac info_case E :=
  cbn [orb]; intros [= <-]; split; rewrite ?keysIn_cons; unfold isCurrent, inList, leavesCurrent;
  rewrite ?E; repeat match goal with H : _ = true |- _ => rewrite H | H : _ = false |- _ => rewrite H end;
  eval_lists; cbn [ilEligible ilWaiting ilLeaving ilNew ilAuction]; unfold keysIn; cbn [filter list_filter map];
  rewrite ?map_app, ?appendTo_keys; cbn [map PubKey app]; try match goal with Hk : keyOf _ = _ |- _ => rewrite ?Hk end; rewrite ?app_nil_r; try done; try perm.

Section Infos.
Context `{CE : CoordinatorEnv} {C St : Type}.
Implicit Types (ihnc : indexHashedNodesCoordinator C St).

(** What reading the validators adds to the lists. *)
Record addedBy (started step2 : bool) (infos : list ShardValidatorInfo) (ls ls' : infoLists) : Prop := {
  added_current : keys (allOf (ilEligible ls')) ++ keys (allOf (ilWaiting ls')) ≡ₚ
    keys (allOf (ilEligible ls)) ++ keys (allOf (ilWaiting ls)) ++ keysIn (isCurrent started) infos;
  added_leaving : keys (allOf (ilLeaving ls')) ≡ₚ keys (allOf (ilLeaving ls)) ++ keysIn (inList LeavingList) infos;
  added_new : keys (ilNew ls') ≡ₚ keys (ilNew ls) ++ keysIn (inList NewList) infos;
  added_auction : keys (ilAuction ls') ≡ₚ keys (ilAuction ls) ++ keysIn (inList SelectedFromAuctionList) infos;
  added_step2 : step2 = true -> ilNew ls = [] -> ilNew ls' = [];
  added_keys : Forall (fun i => is_Some (viPublicKey i)) infos;
}.

Lemma infoStep_added ihnc ls i ls' : infoStep ihnc ls i = inr ls' -> addedBy (flagStakingV4Started ihnc) (ncFlagStakingV4Step2 ihnc) [i] ls ls'.
Proof.
  destruct ls as [e w l n a]. unfold infoStep. destruct (viPublicKey i) as [k|] eqn:Ek; simpl; [|done].
  assert (Hk : keyOf i = k) by (unfold keyOf; by rewrite Ek).
  assert (Hs : Forall (fun i => is_Some (viPublicKey i)) [i]) by (constructor; [rewrite Ek; by eexists|constructor]).
  destruct (beq (viList i) WaitingList) eqn:E1; [|destruct (beq (viList i) EligibleList) eqn:E2; [|destruct (beq (viList i) LeavingList) eqn:E3;
    [|destruct (beq (viList i) NewList) eqn:E4; [|destruct (beq (viList i) SelectedFromAuctionList) eqn:E5]]]].
  all: try (apply beq_true in E1; info_case E1). all: try (apply beq_true in E2; info_case E2).
  - apply beq_true in E3. unfold addValidatorToPreviousMap.
    destruct (negb (flagStakingV4Started ihnc)) eqn:E6; [info_case E3|]. destruct (length (viPreviousList i) =? 0)%nat eqn:E7; [info_case E3|].
    cbn [orb]. destruct (beq (viPreviousList i) EligibleList) eqn:E8; [info_case E3|].
    destruct (beq (viPreviousList i) WaitingList) eqn:E9; info_case E3.
  - apply beq_true in E4. destruct (ncFlagStakingV4Step2 ihnc); [done|]. info_case E4.
  - apply beq_true in E5. destruct (ncFlagStakingV4Step2 ihnc); [|done]. info_case E5.
  - info_case E1.
Qed.

Lemma infos_added ihnc infos : forall ls ls', foldR (infoStep ihnc) ls infos = inr ls' ->
  addedBy (flagStakingV4Started ihnc) (ncFlagStakingV4Step2 ihnc) infos ls ls'.
Proof.
  induction infos as [|i infos IH]; intros ls ls'; simpl.
  - intros [= <-]. split; unfold keysIn; simpl; rewrite ?app_nil_r; done.
  - destruct (infoStep ihnc ls i) as [|ls1] eqn:E; simpl; [done|]. intros Hf.
    destruct (infoStep_added _ _ _ _ E) as [A1 A2 A3 A4 A5 A6], (IH _ _ Hf) as [B1 B2 B3 B4 B5 B6].
    rewrite keysIn_cons in A1, A2, A3, A4. change (keysIn _ []) with (@nil bytes) in A1, A2, A3, A4.
    split; rewrite ?keysIn_cons; [perm|perm|perm|perm|auto|]. constructor; [|done]. by apply Forall_cons in A6 as [A6 _].
Qed.

Lemma sorted_keys l : keys (sortValidators l) ≡ₚ keys l.
Proof. unfold sortValidators. by rewrite merge_sort_Permutation. Qed.

Lemma sorted_map_keys m : keys (allOf (sortValidators <$> m)) ≡ₚ keys (allOf m).
Proof.
  unfold allOf. rewrite map_to_list_fmap. induction (map_to_list m) as [|[s l] ml IH]; simpl; [done|].
  rewrite !map_app, sorted_keys. by apply Permutation_app_head.
Qed.

Lemma concat_perm {A} (l k : list (list A)) : l ≡ₚ k -> concat l ≡ₚ concat k.
Proof.
  induction 1 as [|x l k H IH|x y l|l k m H1 IH1 H2 IH2]; simpl; [done|by apply Permutation_app_head| |by etrans].
  rewrite !app_assoc. by apply Permutation_app_tail, Permutation_app_comm.
Qed.

(** What the lists of the next epoch are made from. *)
Lemma computeNodesConfig_spec infos ihnc cfg : computeNodesConfigFromList infos ihnc = inr cfg ->
  keys (allOf (eligibleMap cfg)) ++ keys (allOf (waitingMap cfg)) ≡ₚ keysIn (isCurrent (flagStakingV4Started ihnc)) infos /\
  keys (allOf (leavingMap cfg)) ≡ₚ keysIn (inList LeavingList) infos /\
  keys (newList cfg) ≡ₚ keysIn (inList NewList) infos /\ keys (auctionList cfg) ≡ₚ keysIn (inList SelectedFromAuctionList) infos /\
  (ncFlagStakingV4Step2 ihnc = true -> newList cfg = []) /\
  nbShards cfg = u32 (Z.of_nat (size (eligibleMap cfg)) - 1) /\ Forall (fun i => is_Some (viPublicKey i)) infos.
Proof.
  unfold computeNodesConfigFromList. destruct (foldR _ _ infos) as [|ls] eqn:E; simpl; [done|].
  destruct (size (ilEligible ls) =? 0)%nat; [done|]. intros [= <-]. destruct (infos_added _ _ _ _ E) as [A1 A2 A3 A4 A5 A6].
  simpl in *. rewrite !sorted_map_keys, !sorted_keys. rewrite allOf_empty in A1, A2. split; [done|]. split; [done|]. split; [done|].
  split; [done|]. split; [intros H; by rewrite (A5 H eq_refl)|]. split; [|done]. by rewrite map_size_fmap.
Qed.

(** Those whose rating is too low are asked to leave. *)
Definition ratedOut (h : nodesCoordinatorHelper) (i : ShardValidatorInfo) : bool :=
  match h with
  | baseHelper => false
  | raterHelper chance => negb (inList InactiveList i || inList JailedList i) && (chance (viTempRating i) <? chance 0)
  end.

Lemma additional_spec h infos : Forall (fun i => is_Some (viPublicKey i)) infos ->
  exists m, ComputeAdditionalLeaving h infos = inr m /\ keys (allOf m) ≡ₚ keysIn (ratedOut h) infos.
Proof.
  intros Hk. destruct h as [|chance]; simpl.
  - exists ∅. split; [done|]. rewrite allOf_empty. unfold keysIn. by rewrite filter_none by (by apply Forall_forall).
  - cut (forall m0, exists m, foldR (additionalStep chance) m0 infos = inr m /\ keys (allOf m) ≡ₚ keys (allOf m0) ++ keysIn (ratedOut (raterHelper chance)) infos).
    { intros H. destruct (H ∅) as (m & Hm & Hp). exists m. by rewrite allOf_empty in Hp. }
    induction Hk as [|i infos [k Hi] _ IH]; intros m0; simpl.
    { exists m0. split; [done|]. unfold keysIn. simpl. by rewrite app_nil_r. }
    rewrite keysIn_cons. unfold additionalStep at 1. unfold ratedOut at 1. fold (inList InactiveList i) (inList JailedList i).
    destruct (inList InactiveList i || inList JailedList i); [apply IH|]. cbn [negb andb].
    destruct (chance (viTempRating i) <? chance 0); [|apply IH]. rewrite Hi. simpl.
    destruct (IH (appendTo m0 (viShardId i) (mkValidator k (chance (viTempRating i)) (viIndex i)))) as (m & Hm & Hp).
    exists m. split; [done|]. rewrite Hp, appendTo_keys, <- app_assoc. simpl. unfold keyOf. by rewrite Hi.
Qed.

Lemma sortedList_keys `{OL : !OrderLaws} m : keys (createSortedListFromMap m) ≡ₚ keys (allOf m).
Proof.
  unfold createSortedListFromMap. rewrite sorted_keys. apply Permutation_map. rewrite allOf_sorted. apply concat_perm, Permutation_map.
  unfold ordered, sortKeys. by rewrite shardOrder_perm, merge_sort_Permutation.
Qed.
End Infos.

(** *** With the shuffler *)

Lemma keys_filter (leaving : list bytes) l : keys (filter (fun v => PubKey v ∉ leaving) l) = filter (fun k => k ∉ leaving) (keys l).
Proof. induction l as [|v l IH]; [done|]. rewrite filter_cons. simpl. rewrite filter_cons. case_decide; simpl; by rewrite IH. Qed.

(** Three kinds of validators, no one of two kinds. *)
Lemma keysIn_three (f g h : ShardValidatorInfo -> bool) infos : (forall i, f i = true -> g i = false /\ h i = false) -> (forall i, g i = true -> h i = false) ->
  keysIn f infos ++ keysIn g infos ++ keysIn h infos ≡ₚ keysIn (fun i => f i || g i || h i) infos.
Proof.
  intros H1 H2. induction infos as [|i infos IH]; [done|]. rewrite !keysIn_cons. cbv beta. specialize (H1 i). specialize (H2 i).
  destruct (f i); [destruct (H1 eq_refl) as [-> ->]|destruct (g i); [rewrite (H2 eq_refl)|destruct (h i)]]; cbn [orb]; rewrite <- IH; perm.
Qed.

Lemma keysIn_distinct {A} (hash : bytes -> A) f infos : NoDup (map (fun i => hash (keyOf i)) infos) -> NoDup (map hash (keysIn f infos)).
Proof.
  intros Hd. unfold keysIn. rewrite map_map. eapply sublist_NoDup; [exact Hd|]. apply fmap_sublist, sublist_filter.
Qed.

Definition shuffleArg (rhs : randHashShuffler) (flags : ShufflerFlags) (args : ArgsUpdateNodes) : shuffleNodesArg :=
  mkShuffleNodesArg (uEligible args) (uWaiting args) (uUnStakeLeaving args) (removeDupplicates (uUnStakeLeaving args) (uAdditionalLeaving args))
    (uNewNodes args) (uAuction args) (uRand args) (validatorDistributor rhs) (rhsNodesMeta rhs) (nodesShard rhs) (uNbShards args)
    (NodesToShufflePerShard (activeNodesConfig rhs)) (MaxNumNodes (activeNodesConfig rhs)) (BalanceWaitingListsFlag flags)
    (rhsStakingV4Step2 rhs) (rhsStakingV4Step3 rhs) (CleanupAuctionOnLowWaitingListFlag flags).

Lemma UpdateNodeLists_shuffles sha256 meta rhs flags args : u32 (nodesShard rhs + shardHysteresis rhs) <> 0 ->
  UpdateNodeLists sha256 meta rhs flags args = (updateShufflerConfig rhs (uEpoch args),
    shuffleNodes sha256 meta (shuffleArg (updateShufflerConfig rhs (uEpoch args)) flags args)).
Proof.
  intros Hz. unfold UpdateNodeLists. f_equal.
  assert (Hn : exists k, computeNewShards (updateShufflerConfig rhs (uEpoch args)) (uEligible args) (uWaiting args) (lenZ (uNewNodes args))
    (lenZ (removeDupplicates (uUnStakeLeaving args) (uAdditionalLeaving args)) + lenZ (uUnStakeLeaving args)) (uNbShards args) = inr k).
  { unfold computeNewShards. simpl. rewrite (proj2 (Z.eqb_neq _ _)) by done. destruct (_ <? _); [by eexists|]. destruct (_ <? _); by eexists. }
  destruct Hn as [k ->]. simpl. unfold mergeShards, splitShards. destruct (adaptivity rhs && (k <? uNbShards args)); [done|].
  by destruct (adaptivity rhs && (uNbShards args <? k)).
Qed.

Section EpochStart.
Context `{CE : CoordinatorEnv} `{OL : !OrderLaws} {C St : Type} `{CC : Cacher C} `{SS : Storer St}.
Notation coordinator := (indexHashedNodesCoordinator C St).
Implicit Types (ihnc : coordinator) (cfg : epochNodesConfig).

Definition shardIds (n : Z) : list Z := seqZ 0 n ++ [CoreMetachainShardId].
Definition sizeOfShard ihnc (shard : Z) : Z := shardSize CoreMetachainShardId (rhsNodesMeta (shuffler ihnc)) (nodesShard (shuffler ihnc)) shard.

(** The validators of the block are enough for the next epoch. *)
Record readyFor ihnc (randomness : bytes) (epoch : Z) (infos : list ShardValidatorInfo) (n : Z) cfg : Prop := {
  ready_read : computeNodesConfigFromList infos (updateEpochFlags epoch ihnc) = inr cfg;
  ready_shards : 1 <= n < 2 ^ 32 - 1 /\ dom (eligibleMap cfg) = list_to_set (shardIds n) /\ dom (waitingMap cfg) ⊆ dom (eligibleMap cfg);
  ready_sizes : forall shard, shard ∈ shardIds n ->
    1 <= ConsensusGroupSize shard <= sizeOfShard ihnc shard /\
    sizeOfShard ihnc shard <= lenZ (listOf (eligibleMap cfg) shard) + lenZ (listOf (waitingMap cfg) shard) < 2 ^ 32;
  ready_distinct : NoDup (map (fun i => shufflerHash (keyOf i ++ randomness)) infos);
  ready_shuffler : u32 (nodesShard (shuffler ihnc) + shardHysteresis (shuffler ihnc)) <> 0 /\
    0 <= NodesToShufflePerShard (activeNodesConfig (updateShufflerConfig (shuffler ihnc) epoch));
  ready_epochs : stakingV4Step2EnableEpoch (shuffler ihnc) = StakingV4Step2ActivationEpoch /\
    StakingV4Step2ActivationEpoch <= stakingV4Step3EnableEpoch (shuffler ihnc);
}.

Definition epochArg ihnc randomness epoch cfg (additional : vmap) : shuffleNodesArg :=
  shuffleArg (updateShufflerConfig (shuffler ihnc) epoch) (shufflerFlags epoch)
    (mkArgsUpdateNodes (eligibleMap cfg) (waitingMap cfg) (newList cfg) (createSortedListFromMap (leavingMap cfg))
      (createSortedListFromMap additional) (auctionList cfg) randomness (nbShards cfg) epoch).

Lemma shardIds_size (m : vmap) n : dom m = list_to_set (shardIds n) -> 1 <= n < 2 ^ 32 - 1 -> CoreMetachainShardId = MaxUint32 ->
  Z.of_nat (size m) = n + 1.
Proof.
  intros Hdom Hn Hmeta. rewrite <- size_dom, Hdom, size_list_to_set.
  - unfold shardIds. rewrite length_app, length_seqZ. simpl. lia.
  - unfold shardIds. apply NoDup_app. split; [apply NoDup_seqZ|]. split; [|apply NoDup_singleton].
    intros k Hk%elem_of_seqZ ->%list_elem_of_singleton. rewrite Hmeta in Hk. unfold MaxUint32 in Hk. lia.
Qed.

Lemma checkEligible_total (m : vmap) n : dom m = list_to_set (shardIds n) -> 1 <= n < 2 ^ 32 - 1 -> CoreMetachainShardId = MaxUint32 ->
  (forall shard, shard ∈ shardIds n -> ConsensusGroupSize shard <= lenZ (listOf m shard)) -> exists k, checkEligible m = inr k.
Proof.
  intros Hdom Hn Hmeta Hs. pose proof (shardIds_size m n Hdom Hn Hmeta) as Hsize. unfold checkEligible. rewrite Hsize.
  assert (Hm : MetaConsensusGroupSize arguments <= lenZ (listOf m CoreMetachainShardId)).
  { specialize (Hs CoreMetachainShardId). unfold ConsensusGroupSize in Hs. rewrite Z.eqb_refl in Hs. apply Hs. unfold shardIds. set_solver. }
  destruct (Z.ltb_spec (lenZ (listOf m CoreMetachainShardId)) (MetaConsensusGroupSize arguments)); [lia|]. apply foldR_total.
  intros k shard Hin. unfold u32 in Hin. rewrite Z.add_simpl_r, Z.mod_small in Hin by lia.
  pose proof Hin as Hr%elem_of_seqZ. specialize (Hs shard). unfold ConsensusGroupSize in Hs.
  destruct (Z.eqb_spec shard CoreMetachainShardId) as [E|Hne]; [rewrite E, Hmeta in Hr; unfold MaxUint32 in Hr; lia|].
  destruct (Z.ltb_spec (lenZ (listOf m shard)) (ShardConsensusGroupSize arguments)) as [Hlt|_]; [|by eexists].
  assert (shard ∈ shardIds n) by (unfold shardIds; apply elem_of_app; by left). specialize (Hs ltac:(done)). lia.
Qed.

Lemma ready_nbShards ihnc randomness epoch infos n cfg : readyFor ihnc randomness epoch infos n cfg -> CoreMetachainShardId = MaxUint32 ->
  nbShards cfg = n.
Proof.
  intros [Hr (Hn & Hdom & _) _ _ _ _] Hmeta. destruct (computeNodesConfig_spec _ _ _ Hr) as (_ & _ & _ & _ & _ & Hnb & _).
  rewrite Hnb, (shardIds_size _ n) by done. unfold u32. rewrite Z.mod_small; lia.
Qed.

(** What the shuffler does with these validators. *)
Lemma epoch_shuffled ihnc randomness epoch infos n cfg : readyFor ihnc randomness epoch infos n cfg -> CoreMetachainShardId = MaxUint32 ->
  exists r low additional, shuffleValidators true infos randomness epoch (updateEpochFlags epoch ihnc) =
      (set_shuffler (updateShufflerConfig (shuffler ihnc) epoch) (updateEpochFlags epoch ihnc),
       inr (r, (createActuallyLeavingPerShards (leavingMap cfg) additional (rLeaving r)).1)) /\
    (low = true -> StakingV4Step2ActivationEpoch <= epoch) /\
    conserves (epochArg ihnc randomness epoch cfg additional) low r /\
    dom (rEligible r) = list_to_set (shardIds n) /\
    (forall k, k ∈ keys (rLeaving r) -> k ∈ keysIn (fun i => inList LeavingList i || ratedOut (helper ihnc) i) infos) /\
    forall shard, shard ∈ shardIds n -> sizeOfShard ihnc shard <= lenZ (listOf (rEligible r) shard).
Proof.
  intros Hready Hmeta. pose proof (ready_nbShards _ _ _ _ _ _ Hready Hmeta) as Hnb.
  destruct Hready as [Hr (Hn & Hdom & Hwd) Hsz Hdist [Hz Hswap] [He2 He3]].
  destruct (computeNodesConfig_spec _ _ _ Hr) as (P1 & P2 & P3 & P4 & P5 & _ & Pk).
  destruct (additional_spec (helper ihnc) infos Pk) as (additional & Ha & Pa).
  set (arg := epochArg ihnc randomness epoch cfg additional).
  assert (Hshards : shardsOf CoreMetachainShardId arg = shardIds n) by (unfold shardsOf, shardIds, arg; simpl; by rewrite Hnb).
  destruct (shuffleNodes_result shufflerHash CoreMetachainShardId arg) as (r & low & R1 & _ & R2 & R3 & R4 & R5 & R6).
  - unfold arg. simpl. lia.
  - rewrite Hshards. intros shard Hs. destruct (Hsz shard Hs) as [_ Hle]. unfold surplus, arg. simpl. unfold sizeOfShard in Hle. lia.
  - unfold distinct. change (map (hashOf shufflerHash (Shuffler.randomness arg))) with (map (fun v => shufflerHash (PubKey v ++ randomness))).
    rewrite <- (map_map PubKey (fun k => shufflerHash (k ++ randomness))).
    assert (Hp : keys (oldNodes arg ++ newNodes arg ++ auction arg) ≡ₚ keysIn (isCurrent (flagStakingV4Started (updateEpochFlags epoch ihnc))) infos ++
      keysIn (inList NewList) infos ++ keysIn (inList SelectedFromAuctionList) infos).
    { unfold oldNodes, arg. simpl. by rewrite !map_app, P1, P3, P4. }
    rewrite Hp, keysIn_three; [by apply (keysIn_distinct (fun k => shufflerHash (k ++ randomness)))| |].
    + intros i. unfold isCurrent, inList. rewrite orb_true_iff, orb_true_iff, andb_true_iff, !beq_true. intros [[-> | ->]|[-> _]]; by vm_compute.
    + intros i. unfold inList. rewrite beq_true. intros ->. by vm_compute.
  - done.
  - unfold arg. simpl. intros H3%Z.leb_le. apply P5. simpl. apply Z.leb_le. lia.
  - exists r, low, additional. split.
    { unfold shuffleValidators. rewrite Hr. change (helper (updateEpochFlags epoch ihnc)) with (helper ihnc). rewrite Ha.
      rewrite UpdateNodeLists_shuffles by done. cbv beta iota. change (shuffler (updateEpochFlags epoch ihnc)) with (shuffler ihnc).
      change (uEpoch _) with epoch. change (shuffleArg _ _ _) with arg. rewrite R1. done. }
    split; [intros Hlow; specialize (R2 Hlow); simpl in R2; apply Z.leb_le in R2; lia|]. split; [done|]. split.
    { rewrite R4, Hshards. unfold arg. simpl. rewrite Hdom in Hwd |- *. set_solver. }
    split.
    + intros k Hk%R5. unfold arg in Hk. simpl in Hk. rewrite map_app, elem_of_app in Hk.
      assert (Hk' : k ∈ keysIn (inList LeavingList) infos \/ k ∈ keysIn (ratedOut (helper ihnc)) infos).
      { destruct Hk as [Hk|Hk]; [left; by rewrite <- P2, <- sortedList_keys|right]. rewrite <- Pa, <- sortedList_keys.
        rewrite removeDupplicates_spec in Hk. apply list_elem_of_fmap in Hk as (v & -> & Hv). apply list_elem_of_filter in Hv as [_ Hv].
        apply list_elem_of_fmap. by exists v. }
      unfold keysIn. destruct Hk' as [Hk'|Hk']; apply list_elem_of_fmap in Hk' as (i & -> & Hi); apply list_elem_of_filter in Hi as [Hi1 Hi2];
        apply list_elem_of_fmap; exists i; (split; [done|]); apply list_elem_of_filter; (split; [|done]); rewrite Hi1; [done|apply orb_true_r].
    + intros shard Hs. destruct (Hsz shard Hs) as [Hg [Hle Hlt]]. rewrite Hshards in R6.
      pose proof (lenZ_nonneg (listOf (eligibleMap cfg) shard)). pose proof (lenZ_nonneg (listOf (waitingMap cfg) shard)).
      apply R6; [done|unfold arg; simpl; lia|unfold arg; simpl; lia|]. unfold sizeOf, arg. simpl. unfold sizeOfShard in *. lia.
Qed.

(** C19: At the start of an epoch no validator is lost and none is in two lists.  From the
    validators of the block, when their keys are different and there are enough for each
    shard, the coordinator makes the configuration of the new epoch: the eligible and
    waiting lists, and the shuffled out ones when they are not sent to waiting, hold
    exactly the validators that the block has as eligible, waiting or leaving, but for
    some of those that leave or whose rating is too low, with the new ones and those of
    the auction when they are taken; each shard has at least its number of eligible
    validators, and a selector for its consensus groups. *)
Theorem epoch_start_conserves ihnc metaHdr miniBlocks infos n cfg
  (Hhdr : IsStartOfEpochBlock metaHdr = true /\ isMetaBlock metaHdr = true)
  (Hinfos : createValidatorInfoFromBody (blockBody miniBlocks) (hdrEpoch metaHdr) = inr infos)
  (Hready : readyFor ihnc (GetPrevRandSeed metaHdr) (hdrEpoch metaHdr) infos n cfg)
  (Hmeta : CoreMetachainShardId = MaxUint32)
  (Hchance : 1 <= GetChance (helper ihnc) 0) :
  let epoch := hdrEpoch metaHdr in
  exists ihnc' c low (leaving : list bytes), EpochStartPrepare metaHdr (blockBody miniBlocks) ihnc = (ihnc', inr tt) /\
    nodesConfig ihnc' !! epoch = Some c /\
    keys (allOf (eligibleMap c)) ++ keys (allOf (waitingMap c)) ++
      (if negb (StakingV4Step2ActivationEpoch <=? epoch) || low then [] else keys (allOf (shuffledOutMap c)))
    ≡ₚ filter (fun k => k ∉ leaving) (keysIn (isCurrent (StakingV4Step1ActivationEpoch <=? epoch)) infos) ++
       keysIn (inList NewList) infos ++
       (if (stakingV4Step3EnableEpoch (shuffler ihnc) <=? epoch) || low then keysIn (inList SelectedFromAuctionList) infos else []) /\
    (forall k, k ∈ leaving -> k ∈ keysIn (fun i => inList LeavingList i || ratedOut (helper ihnc) i) infos) /\
    (low = true -> StakingV4Step2ActivationEpoch <= epoch) /\
    (forall shard, shard ∈ shardIds n -> sizeOfShard ihnc shard <= lenZ (listOf (eligibleMap c) shard)) /\
    createSelectors (helper ihnc) (eligibleMap c) = inr (selectors c).
Proof.
  cbv zeta. set (epoch := hdrEpoch metaHdr) in *. set (randomness := GetPrevRandSeed metaHdr) in *.
  destruct (epoch_shuffled _ _ _ _ _ _ Hready Hmeta) as (r & low & additional & Hsh & Hlow & Hcons & Hdom & Hleave & Hfull).
  pose proof (ready_nbShards _ _ _ _ _ _ Hready Hmeta) as Hnb.
  destruct Hready as [Hr (Hn & _) Hsz _ _ [He2 _]]. destruct (computeNodesConfig_spec _ _ _ Hr) as (P1 & _ & P3 & P4 & _).
  destruct (checkEligible_total (rEligible r) n Hdom Hn Hmeta) as [k Hk].
  { intros shard Hs. destruct (Hsz shard Hs) as [Hg _]. specialize (Hfull shard Hs). lia. }
  destruct (createSelectors_total (helper ihnc) (rEligible r) Hchance) as [s Hs].
  { apply (checked_shards _ _ Hk); [|done|rewrite (shardIds_size _ n) by done; lia]. unfold ConsensusGroupSize in Hsz. split.
    - specialize (Hsz 0). rewrite Hmeta in Hsz. simpl in Hsz. apply Hsz. unfold shardIds. apply elem_of_app. left. apply elem_of_seqZ. lia.
    - specialize (Hsz CoreMetachainShardId). rewrite Z.eqb_refl in Hsz. apply Hsz. unfold shardIds. set_solver. }
  unfold EpochStartPrepare. destruct Hhdr as [-> ->]. cbn [negb]. fold epoch randomness. rewrite Hinfos, Hsh. cbv beta iota.
  set (leavingNodesMap := (createActuallyLeavingPerShards _ _ _).1). set (ihnc1 := set_shuffler _ _).
  set (old := default emptyConfig (nodesConfig ihnc1 !! epoch)).
  assert (Hset : exists ihnc2 c, setNodesPerShards (Some (rEligible r)) (Some (rWaiting r)) leavingNodesMap (rShuffledOut r) epoch (rLowWaitingList r) ihnc1 = (ihnc2, inr tt) /\
    nodesConfig ihnc2 !! epoch = Some c /\ eligibleMap c = rEligible r /\ waitingMap c = rWaiting r /\ shuffledOutMap c = rShuffledOut r /\ selectors c = s).
  { unfold setNodesPerShards. fold old. rewrite Hk. destruct (computeShardForSelfPublicKey _ ihnc1) as [shard v]. change (helper ihnc1) with (helper ihnc). rewrite Hs.
    destruct (IsFullArchive arguments && v); (eexists _, _; split; [reflexivity|]; split; [apply lookup_insert_eq|done]). }
  destruct Hset as (ihnc2 & c & -> & Hc & C1 & C2 & C3 & C4).
  destruct (saveState_same randomness epoch (fillPublicKeyToValidatorMap ihnc2)) as [st Hst].
  destruct (saveState randomness epoch _) as [ihnc3 res]. cbn [fst] in Hst. subst ihnc3.
  eexists _, c, low, (keys (rLeaving r)). split; [reflexivity|]. split; [exact Hc|]. rewrite C1, C2, C3, C4.
  split; [|done]. unfold conserves in Hcons. apply (Permutation_map PubKey) in Hcons. rewrite !map_app, keys_filter in Hcons.
  unfold epochArg, shuffleArg, oldNodes in Hcons. simpl in Hcons. rewrite He2, map_app, P1, P3 in Hcons.
  change (flagStakingV4Started (updateEpochFlags epoch ihnc)) with (StakingV4Step1ActivationEpoch <=? epoch) in Hcons.
  destruct (negb (StakingV4Step2ActivationEpoch <=? epoch) || low), ((stakingV4Step3EnableEpoch (shuffler ihnc) <=? epoch) || low);
    rewrite Hcons, ?P4; done.
Qed.
End EpochStart.

(** ** What goes wrong *)

Section Wrong.
Context `{CE : CoordinatorEnv} `{OL : !OrderLaws} {C St : Type} `{CC : Cacher C} `{SS : Storer St}.
Notation coordinator := (indexHashedNodesCoordinator C St).
Implicit Types (ihnc : coordinator) (cfg : epochNodesConfig).

(** The difference of the epochs wraps around below the fourth epoch: once four
    configurations are known, all of them are removed, the new one included. *)
Lemma removeOlderEpochs_removes_all epoch ihnc : 0 <= epoch < nodesCoordinatorStoredEpochs ->
  (4 <= size (nodesConfig ihnc))%nat -> map_Forall (fun e _ => e < 2 ^ 32 - 4) (nodesConfig ihnc) ->
  nodesConfig (removeOlderEpochs epoch nodesCoordinatorStoredEpochs ihnc) = ∅.
Proof.
  unfold nodesCoordinatorStoredEpochs. intros He Hs Hm. unfold removeOlderEpochs. rewrite (proj2 (Z.leb_le _ _)) by lia. simpl.
  apply map_empty. intros e. apply map_lookup_filter_None_2. right. intros cfg Hcfg Hn. apply Hn. simpl. specialize (Hm _ _ Hcfg). simpl in Hm.
  replace (u32 (epoch - 4)) with (epoch - 4 + 2 ^ 32); [lia|]. unfold u32. apply (Z.mod_unique_pos _ _ (-1)); lia.
Qed.

(** A node that was shuffled out is a validator of its shard in the epoch's configuration
    when it is made, but not when the same configuration is computed by a node that was
    restarted, whose flag is not set before the next epoch starts. *)
Lemma restart_forgets_shuffled_out ihnc cfg shard : searchInMap (eligibleMap cfg) (SelfPublicKey arguments) = None ->
  searchInMap (waitingMap cfg) (SelfPublicKey arguments) = None -> searchInMap (leavingMap cfg) (SelfPublicKey arguments) = None ->
  searchInMap (shuffledOutMap cfg) (SelfPublicKey arguments) = Some shard -> nodesConfig ihnc !! currentEpoch ihnc = None ->
  computeShardForSelfPublicKey cfg (set_ncFlagStakingV4Step2 true ihnc) = (shard, true) /\
  computeShardForSelfPublicKey cfg (set_ncFlagStakingV4Step2 false ihnc) = (ShardIDAsObserver arguments, false).
Proof. intros H1 H2 H3 H4 H5. unfold computeShardForSelfPublicKey. rewrite H1, H2, H3, H4. simpl. by rewrite H5. Qed.
End Wrong.

(** ** An example: a node of shard 0, with one shard and the metachain *)

Module NodesInstances.
Definition meta : Z := MaxUint32.
Definition node (k : Z) : Validator := mkValidator [k] 1 k.
Definition hash (b : bytes) : bytes := PutUint64 (foldl (fun n x => (n * 6364136223846793005 + x + 1442695040888963407) mod 2 ^ 64) 7 b).

Definition exArguments : ArgNodesCoordinator :=
  mkArgNodesCoordinator 2 2 0 1 (Some (<[0 := [node 1; node 2; node 3]]> {[meta := [node 4; node 5]]})) (Some {[0 := [node 6]]}) [1] 0 0 false.

(** The validators of the blocks are numbered. *)
Definition infoOf (k : Z) (list : bytes) (shard : Z) : ShardValidatorInfo := mkShardValidatorInfo (Some [k]) shard list k 50 [] 0.
Definition infos (h : bytes) : option ShardValidatorInfo :=
  match h with
  | [k; 0] => Some (infoOf k EligibleList 0)
  | [k; 1] => Some (infoOf k EligibleList meta)
  | [k; 2] => Some (infoOf k WaitingList 0)
  | [k; 3] => Some (infoOf k WaitingList meta)
  | [k; 4] => Some (infoOf k LeavingList 0)
  | _ => None
  end.

#[global] Instance SerializableValidator_dec : EqDecision SerializableValidator.
Proof. solve_decision. Defined.
#[global] Instance SerializableValidator_countable : Countable SerializableValidator :=
  inj_countable' (fun v => (svPubKey v, svChances v, svIndex v)) (fun p => mkSerializable p.1.1 p.1.2 p.2) ltac:(by intros []).
#[global] Instance EpochValidators_dec : EqDecision EpochValidators.
Proof. solve_decision. Defined.
#[global] Instance EpochValidators_countable : Countable EpochValidators :=
  inj_countable' (fun v => (EligibleValidators v, WaitingValidators v, LeavingValidators v)) (fun p => mkEpochValidators p.1.1 p.1.2 p.2) ltac:(by intros []).
#[global] Instance EpochValidatorsWithAuction_dec : EqDecision EpochValidatorsWithAuction.
Proof. solve_decision. Defined.
#[global] Instance EpochValidatorsWithAuction_countable : Countable EpochValidatorsWithAuction :=
  inj_countable' (fun v => (Eligible v, Waiting v, Leaving v, ShuffledOut v, LowWaitingList v))
    (fun p => mkEpochValidatorsWithAuction p.1.1.1.1 p.1.1.1.2 p.1.1.2 p.1.2 p.2) ltac:(by intros []).

(** A numbering of the registries stands for the two encodings. *)
Definition encodeOld (r : NodesCoordinatorRegistryHandler) : option bytes :=
  match r with oldRegistry r => Some [1; Z.pos (encode (EpochsConfig r, CurrentEpoch r))] | _ => None end.
Definition decodeOld (b : bytes) : option NodesCoordinatorRegistry :=
  match b with [1; Z.pos p] => (fun q => mkRegistry q.1 q.2) <$> decode p | _ => None end.
Definition encodeAuction (r : NodesCoordinatorRegistryHandler) : option bytes :=
  match r with auctionRegistry r => Some [2; Z.pos (encode (EpochsConfigWithAuction r, awCurrentEpoch r))] | _ => None end.
Definition decodeAuction (b : bytes) : option NodesCoordinatorRegistryWithAuction :=
  match b with [2; Z.pos p] => (fun q => mkRegistryWithAuction q.1 q.2) <$> decode p | _ => None end.

(** [marshals] says whether the marshallers work. *)
Definition exEnv (marshals : bool) : CoordinatorEnv :=
  mkCoordinatorEnv exArguments meta hash elements elements 100 100 0 (fun _ => mkShufflerFlags true false) hash infos (fun _ => None) 100
    (fun r => if marshals then encodeOld r else None) decodeOld (fun r => if marshals then encodeAuction r else None) decodeAuction 1 1.

#[global] Instance exCache : Cacher (gmap bytes (list Validator)) := mkCacher _ (fun c k => c !! k) (fun k v c => <[k := v]> c) (fun _ => ∅).
#[global] Instance exStore : Storer (gmap bytes bytes) := mkStorer _ (fun st k => st !! k) (fun k v st => Some (<[k := v]> st)).

#[global] Instance exCache_laws : CacherLaws (gmap bytes (list Validator)).
Proof.
  split; simpl; [|intros; apply lookup_empty]. intros c k v k' x. case_decide as Hd; [subst k'|].
  - rewrite lookup_insert_eq. by intros [= ->].
  - by rewrite lookup_insert_ne.
Qed.
#[global] Instance exStore_laws : StorerLaws (gmap bytes bytes).
Proof. split. simpl. intros st k v st' [= <-]. apply lookup_insert_eq. Qed.
#[global] Instance exOrders m : OrderLaws (CE := exEnv m).
Proof. by split. Qed.
#[global] Instance exRegistry : RegistryLaws (CE := exEnv true).
Proof.
  split; [| |done].
  - intros r b Hb _ _. replace b with [2; Z.pos (encode (EpochsConfigWithAuction r, awCurrentEpoch r))] by (cbv beta iota delta [protoMarshal exEnv encodeAuction] in Hb; congruence).
    unfold protoUnmarshal, exEnv, decodeAuction. rewrite decode_encode. by destruct r.
  - intros r b Hb _ _. replace b with [1; Z.pos (encode (EpochsConfig r, CurrentEpoch r))] by (cbv beta iota delta [jsonMarshal exEnv encodeOld] in Hb; congruence).
    unfold jsonUnmarshal, protoUnmarshal, exEnv, decodeOld, decodeAuction. rewrite decode_encode. by destruct r.
Qed.

Lemma hash_long b : (8 <= length (hash b))%nat.
Proof. done. Qed.

(** The shuffler: three nodes in a shard, two on the metachain, one is shuffled out. *)
Definition exShuffler : randHashShuffler :=
  mkShuffler true false 3 2 1 1 (mkMaxNodes 0 20 1) [mkMaxNodes 0 20 1] CrossShard 100 false 100 false.

Definition noCoordinator : indexHashedNodesCoordinator (gmap bytes (list Validator)) (gmap bytes bytes) :=
  mkCoordinator 0 0 [] exShuffler ∅ ∅ baseHelper ∅ ∅ false false false 0 [].
Definition exStart (st : gmap bytes bytes) : indexHashedNodesCoordinator (gmap bytes (list Validator)) (gmap bytes bytes) :=
  match NewIndexHashedNodesCoordinator (CE := exEnv false) exShuffler st ∅ with inr x => x | inl _ => noCoordinator end.

Lemma exStart_created st : created (CE := exEnv false) (exStart st).
Proof. apply (created_base (CE := exEnv false) exShuffler st ∅); [intros; apply lookup_empty|by vm_compute]. Qed.

(** The first configuration, saved with key [3]. *)
Definition exSaved : indexHashedNodesCoordinator (gmap bytes (list Validator)) (gmap bytes bytes) :=
  (saveState (CE := exEnv true) [3] 0 (exStart ∅)).1.

(** Node 3 is leaving, 7 is waiting on the metachain. *)
Definition exBody : bodyHandler := blockBody [mkMiniBlock true [[1; 0]; [2; 0]; [3; 4]; [4; 1]; [5; 1]; [6; 2]; [7; 3]; [8; 2]]].
Definition exInfos : list ShardValidatorInfo :=
  match createValidatorInfoFromBody (CE := exEnv false) exBody 1 with inr l => l | inl _ => [] end.
(** The saved state is loaded, and the next epoch is set, before groups are asked for. *)
Definition exCalls : list coordinatorCall :=
  [callLoadState [3]; callSetNodesConfigFromValidatorsInfo 1 [9; 9] exInfos; callComputeConsensusGroup [7] 2 0 0;
   callEpochStartPrepare (mkStartHeader true true [9; 9] 1) exBody; callEpochStartAction 1; callComputeConsensusGroup [7] 3 0 1].
Definition exEnd : indexHashedNodesCoordinator (gmap bytes (list Validator)) (gmap bytes bytes) := runCalls (CE := exEnv false) exCalls (exStart (bootStorer exSaved)).
Definition exConfig : epochNodesConfig := default emptyConfig (nodesConfig exEnd !! 1).

Lemma exUncached st epoch : uncached (exStart st) epoch.
Proof.
  intros randomness round shard. unfold searchConsensusForKey.
  assert (E : consensusGroupCacher (exStart st) = ∅) by by vm_compute. rewrite E. apply lookup_empty.
Qed.

Example exLoad : (LoadState (CE := exEnv false) [3] (exStart (bootStorer exSaved))).2 = inr tt /\
  (SetNodesConfigFromValidatorsInfo (CE := exEnv false) 1 [9; 9] exInfos (exStart ∅)).2 = inr tt.
Proof. split; vm_compute; reflexivity. Qed.

Lemma exSizes : map_Forall (fun _ cfg => match checkEligible (CE := exEnv false) (eligibleMap cfg) with inr _ => true | inl _ => false end = true)
  (nodesConfig (LoadState (CE := exEnv false) [3] (exStart (bootStorer exSaved))).1).
Proof. apply (bool_decide_unpack _). vm_compute. reflexivity. Qed.

Lemma exAllowed : allowedRun (CE := exEnv false) (exStart (bootStorer exSaved)) exCalls.
Proof.
  split; [|split; [|by repeat split]].
  - intros _ epoch cfg Hcfg. split; [apply exUncached|]. pose proof (exSizes _ _ Hcfg) as Hs. cbv beta in Hs.
    destruct (checkEligible (eligibleMap cfg)) as [|n]; [done|by exists n].
  - intros randomness round shard. unfold runCall, searchConsensusForKey. rewrite LoadState_cache. exact (exUncached (bootStorer exSaved) 1 randomness round shard).
Qed.

Lemma exFits shard : shard = 0 \/ shard = meta -> fits baseHelper (listOf (eligibleMap exConfig) shard).
Proof. by intros [-> | ->]; (split; [|split]; [by vm_compute|apply (bool_decide_unpack _); by vm_compute|by vm_compute]). Qed.

Lemma consensus_group_valid_witness :
  exists group, (ComputeConsensusGroup (CE := exEnv false) [7] 3 0 1 exEnd).2 = inr group /\
    isGroup (listOf (eligibleMap exConfig) 0) 2 group /\
    sampledFrom (CE := exEnv false) baseHelper (listOf (eligibleMap exConfig) 0) (seedFormat 3 [7]) 2 group.
Proof.
  apply (consensus_group_valid (CE := exEnv false) hash_long (exStart (bootStorer exSaved)) exCalls 1 exConfig [7] 3 0);
    [apply exStart_created|apply exAllowed|done|by vm_compute|by vm_compute|by vm_compute|right; by vm_compute|by apply exFits; left|done].
Defined.

Example exGroup : (ComputeConsensusGroup (CE := exEnv false) [7] 3 0 1 exEnd).2 = inr [node 6; node 1].
Proof. by vm_compute. Qed.

Lemma selection_is_sampling_witness :
  exists s indexes, NewSelectorExpandedList [2; 1; 3] = inr s /\ Select hash s [7] 2 = inr indexes /\
    sample hash [7] (urn [2; 1; 3]) (Z.to_nat 2) 0 = inr indexes /\ lenZ indexes = 2 /\ NoDup indexes /\ Forall (fun i => 0 <= i < lenZ [2; 1; 3]) indexes.
Proof.
  apply selection_is_sampling; [apply hash_long|split; [by vm_compute|]|..|done|by vm_compute];
    apply (bool_decide_unpack _); by vm_compute.
Defined.

(** The first configuration is loaded by a coordinator that knows nothing. *)
Definition exFresh : indexHashedNodesCoordinator (gmap bytes (list Validator)) (gmap bytes bytes) :=
  set_bootStorer (bootStorer exSaved) noCoordinator.

Lemma exSavedConfigs : savedConfigs (exStart ∅) = {[0 := default emptyConfig (nodesConfig (exStart ∅) !! 0)]}.
Proof. by vm_compute. Qed.

Lemma exMapFits m : bool_decide (map_Forall (fun shard l => inUint32 shard /\
  Forall (fun v => PubKey v <> [] /\ inUint32 (Chances v) /\ inUint32 (Index v)) l) m) = true -> mapFits m.
Proof. by intros H%bool_decide_eq_true. Qed.

Lemma load_after_save_witness :
  exists ihnc3, LoadState (CE := exEnv true) [3] exFresh = (ihnc3, inr tt) /\
    currentEpoch ihnc3 = 0 /\ savedStateKey ihnc3 = [3] /\
    nodesConfig ihnc3 = restored (CE := exEnv true) false (set_currentEpoch 0 (set_savedStateKey [3] exFresh)) <$> savedConfigs (exStart ∅).
Proof.
  apply (load_after_save (CE := exEnv true) (exStart ∅) exSaved exFresh [3] 0); [reflexivity|reflexivity|by vm_compute|].
  rewrite exSavedConfigs. apply map_Forall_singleton. split; [by vm_compute|].
  split; try (apply exMapFits; by vm_compute); by vm_compute.
Defined.

Definition exHeader : startHeader := mkStartHeader true true [9; 9] 1.
Definition exMiniBlocks : list MiniBlock := match exBody with blockBody l => l | _ => [] end.
Definition exRead : epochNodesConfig :=
  match computeNodesConfigFromList exInfos (updateEpochFlags (CE := exEnv false) 1 (exStart ∅)) with inr c => c | inl _ => emptyConfig end.

Lemma exReady : readyFor (CE := exEnv false) (exStart ∅) [9; 9] 1 exInfos 1 exRead.
Proof.
  assert (Hids : forall shard, shard ∈ shardIds (CE := exEnv false) 1 -> shard = 0 \/ shard = meta).
  { intros shard. unfold shardIds. change (CoreMetachainShardId) with meta. change (seqZ 0 1) with [0]. set_solver. }
  split; [by vm_compute|split; [done|]|..| |split; by vm_compute|split; by vm_compute].
  - split; [apply (bool_decide_unpack _); by vm_compute|apply (bool_decide_unpack _); by vm_compute].
  - intros shard [-> | ->]%Hids; by vm_compute.
  - apply (bool_decide_unpack _). by vm_compute.
Qed.

Lemma epoch_start_conserves_witness :
  exists ihnc' c low (leaving : list bytes), EpochStartPrepare (CE := exEnv false) exHeader (blockBody exMiniBlocks) (exStart ∅) = (ihnc', inr tt) /\
    nodesConfig ihnc' !! 1 = Some c /\
    keys (allOf (eligibleMap c)) ++ keys (allOf (waitingMap c)) ++ (if true || low then [] else keys (allOf (shuffledOutMap c)))
    ≡ₚ filter (fun k => k ∉ leaving) (keysIn (isCurrent false) exInfos) ++ keysIn (inList NewList) exInfos ++
       (if false || low then keysIn (inList SelectedFromAuctionList) exInfos else []) /\
    (forall k, k ∈ leaving -> k ∈ keysIn (fun i => inList LeavingList i || ratedOut baseHelper i) exInfos) /\
    (low = true -> 100 <= 1) /\
    (forall shard, shard ∈ shardIds (CE := exEnv false) 1 -> sizeOfShard (CE := exEnv false) (exStart ∅) shard <= lenZ (listOf (eligibleMap c) shard)) /\
    createSelectors (CE := exEnv false) baseHelper (eligibleMap c) = inr (selectors c).
Proof.
  apply (epoch_start_conserves (CE := exEnv false) (exStart ∅) exHeader exMiniBlocks exInfos 1 exRead); [done|by vm_compute|apply exReady|done|by vm_compute].
Defined.
End NodesInstances.
