(* ===== verification/Bitmap.v ===== *)
(** * Bitmaps: a byte slice whose bit [i mod 8] of byte [i / 8] belongs to position
    [i]. *)

From stdpp Require Import base list.
From Stdlib Require Import ZArith Lia.
From S2P Require Import Prelude.

Definition u16 (z : Z) : Z := z mod 2 ^ 16.

(** [bitmap[i / 8]]; the callers check that the index is in range. *)
Definition byteAt (bitmap : bytes) (i : Z) : Z := nth (Z.to_nat (i / 8)) bitmap 0.

(** [bitmap[i / 8] & (1 << uint8(i % 8))] *)
Definition maskAt (bitmap : bytes) (i : Z) : Z := Z.land (byteAt bitmap i) (u8 (Z.shiftl 1 (i mod 8))).

(** [bitmap[i / 8] |= 1 << (uint16(i) % 8)] *)
Definition setBit (bitmap : bytes) (i : Z) : bytes :=
  <[Z.to_nat (i / 8) := Z.lor (byteAt bitmap i) (u8 (Z.shiftl 1 (u16 i mod 8)))]> bitmap.

(** The size of the bitmap for [n] positions. *)
Definition bitmapSize (n : Z) : Z := if n mod 8 =? 0 then n / 8 else n / 8 + 1.

(** [bits.OnesCount8] *)
Definition OnesCount8 (b : Z) : Z :=
  Z.of_nat (length (filter (fun i => Z.testbit b i = true) (seqZ 0 8))).

Definition onesOf (bitmap : bytes) : Z := fold_left (fun n b => n + OnesCount8 b) bitmap 0.

(** ** The bit of a position *)

Definition bitOf (bitmap : bytes) (i : Z) : bool := Z.testbit (byteAt bitmap i) (i mod 8).

Lemma bit_mask i : 0 <= i -> u8 (Z.shiftl 1 (i mod 8)) = 2 ^ (i mod 8).
Proof.
  intros Hi. pose proof (Z.mod_pos_bound i 8). rewrite Z.shiftl_1_l. unfold u8. apply Z.mod_small.
  split; [apply Z.pow_nonneg; lia|]. apply Z.pow_lt_mono_r; lia.
Qed.

Lemma maskAt_zero bitmap i : 0 <= i -> (maskAt bitmap i =? 0) = negb (bitOf bitmap i).
Proof.
  intros Hi. unfold maskAt, bitOf. rewrite bit_mask by done. pose proof (Z.mod_pos_bound i 8).
  generalize (byteAt bitmap i). intros b.
  destruct (Z.testbit b (i mod 8)) eqn:E; simpl.
  - apply Z.eqb_neq. intros H0. assert (Hb : Z.testbit (Z.land b (2 ^ (i mod 8))) (i mod 8) = false)
      by (rewrite H0; apply Z.bits_0).
    rewrite Z.land_spec, E, Z.pow2_bits_true in Hb by lia. done.
  - apply Z.eqb_eq. apply Z.bits_inj'. intros j Hj. rewrite Z.land_spec, Z.bits_0.
    destruct (Z.eq_dec j (i mod 8)) as [->|Hne]; [by rewrite E|].
    rewrite Z.pow2_bits_false by lia. apply andb_false_r.
Qed.

Lemma u16_mod8 i : u16 i mod 8 = i mod 8.
Proof.
  unfold u16. rewrite (Z.div_mod i (2 ^ 16)) at 2 by lia.
  replace (2 ^ 16 * (i / 2 ^ 16) + i mod 2 ^ 16) with (i mod 2 ^ 16 + (2 ^ 13 * (i / 2 ^ 16)) * 8) by lia.
  by rewrite Z.mod_add by lia.
Qed.

Lemma div_mod_8 i j : i / 8 = j / 8 -> i mod 8 = j mod 8 -> i = j.
Proof. intros H1 H2. rewrite (Z.div_mod i 8), (Z.div_mod j 8) by lia. lia. Qed.

(** Setting a bit sets that bit and no other. *)
Lemma bitOf_setBit bitmap i j : 0 <= i -> 0 <= j -> i / 8 < Z.of_nat (length bitmap) ->
  bitOf (setBit bitmap i) j = (i =? j) || bitOf bitmap j.
Proof.
  intros Hi Hj Hlen. unfold bitOf at 1. unfold setBit. rewrite u16_mod8, bit_mask by done.
  pose proof (Z.mod_pos_bound i 8). pose proof (Z.mod_pos_bound j 8).
  pose proof (Z.div_pos i 8). pose proof (Z.div_pos j 8).
  assert (Hb : byteAt (<[Z.to_nat (i / 8) := Z.lor (byteAt bitmap i) (2 ^ (i mod 8))]> bitmap) j =
    if j / 8 =? i / 8 then Z.lor (byteAt bitmap i) (2 ^ (i mod 8)) else byteAt bitmap j).
  { unfold byteAt at 1. destruct (Z.eqb_spec (j / 8) (i / 8)) as [->|Hne].
    - rewrite nth_lookup, list_lookup_insert_eq by lia. done.
    - rewrite nth_lookup, list_lookup_insert_ne by lia. by rewrite <- nth_lookup. }
  rewrite Hb. destruct (Z.eqb_spec (j / 8) (i / 8)) as [He|Hne].
  - assert (Hby : byteAt bitmap i = byteAt bitmap j) by (unfold byteAt; by rewrite He).
    rewrite Z.lor_spec, Hby. fold (bitOf bitmap j). destruct (Z.eqb_spec i j) as [->|Hij].
    + rewrite Z.pow2_bits_true by lia. apply orb_true_r.
    + rewrite Z.pow2_bits_false, orb_false_r; [done|]. intros Hm. apply Hij, div_mod_8; lia.
  - destruct (Z.eqb_spec i j) as [->|_]; [lia|done].
Qed.

Lemma length_setBit bitmap i : length (setBit bitmap i) = length bitmap.
Proof. apply length_insert. Qed.

Lemma bitOf_zeros n i : bitOf (repeat 0 n) i = false.
Proof. unfold bitOf, byteAt. rewrite nth_repeat. apply Z.testbit_0_l. Qed.

(** ** The number of ones *)

Lemma byteAt_cons b bitmap i : 0 <= i -> byteAt (b :: bitmap) (i + 8) = byteAt bitmap i.
Proof.
  intros Hi. unfold byteAt. replace (i + 8) with (i + 1 * 8) by lia. rewrite Z.div_add by lia.
  pose proof (Z.div_pos i 8). replace (Z.to_nat (i / 8 + 1)) with (S (Z.to_nat (i / 8))) by lia. done.
Qed.

Lemma bitOf_cons b bitmap i : 0 <= i -> bitOf (b :: bitmap) (i + 8) = bitOf bitmap i.
Proof.
  intros Hi. unfold bitOf. rewrite byteAt_cons by done. f_equal.
  replace (i + 8) with (i + 1 * 8) by lia. by rewrite Z.mod_add by lia.
Qed.

Lemma bitOf_cons_head b bitmap i : 0 <= i < 8 -> bitOf (b :: bitmap) i = Z.testbit b i.
Proof. intros Hi. unfold bitOf, byteAt. by rewrite Z.div_small, Z.mod_small by lia. Qed.

Definition positions (bitmap : bytes) : list Z := seqZ 0 (8 * Z.of_nat (length bitmap)).

Lemma filter_map_length {A B} (f : A -> B) (P : B -> Prop) (Q : A -> Prop)
    `{forall x, Decision (P x)} `{forall x, Decision (Q x)} l :
  (forall x, x ∈ l -> P (f x) <-> Q x) -> length (filter P (map f l)) = length (filter Q l).
Proof.
  induction l as [|x l IH]; intros Hl; [done|]. simpl map. rewrite !filter_cons.
  assert (IH' : length (filter P (map f l)) = length (filter Q l))
    by (apply IH; intros y Hy; apply Hl; by right).
  pose proof (Hl x ltac:(left)) as Hx. destruct (decide (P (f x))), (decide (Q x)); simpl; try tauto; lia.
Qed.

(** The ones of a bitmap are the positions whose bit is set. *)
Lemma onesOf_positions bitmap :
  onesOf bitmap = Z.of_nat (length (filter (fun i => bitOf bitmap i = true) (positions bitmap))).
Proof.
  assert (Hacc : forall l n, fold_left (fun n b => n + OnesCount8 b) l n =
    n + fold_left (fun n b => n + OnesCount8 b) l 0).
  { induction l as [|b l IH]; intros n; simpl; [lia|]. rewrite IH, (IH (0 + OnesCount8 b)). lia. }
  unfold onesOf. induction bitmap as [|b bitmap IH]; [done|]. simpl fold_left. rewrite Hacc, IH.
  unfold positions. replace (8 * Z.of_nat (length (b :: bitmap)))
    with (8 + 8 * Z.of_nat (length bitmap)) by (simpl; lia).
  rewrite seqZ_app by lia. rewrite filter_app, length_app.
  assert (Hs : seqZ (0 + 8) (8 * Z.of_nat (length bitmap)) =
    map (fun i => i + 8) (seqZ 0 (8 * Z.of_nat (length bitmap)))).
  { rewrite Z.add_comm, <- (fmap_add_seqZ 8 0). apply map_ext. intros. lia. }
  rewrite Hs, (filter_map_length (fun i => i + 8) _ (fun i => bitOf bitmap i = true)).
  - assert (Hh : length (filter (fun i => bitOf (b :: bitmap) i = true) (seqZ 0 8)) =
      length (filter (fun i => Z.testbit b i = true) (seqZ 0 8))).
    { rewrite <- (map_id (seqZ 0 8)) at 1. apply filter_map_length.
      intros i Hi. apply elem_of_seqZ in Hi. by rewrite bitOf_cons_head by lia. }
    rewrite Hh. unfold OnesCount8. lia.
  - intros i Hi. apply elem_of_seqZ in Hi. by rewrite bitOf_cons by lia.
Qed.

Lemma bitmapSize_bounds n : 0 <= n -> n <= 8 * bitmapSize n < n + 8.
Proof.
  intros Hn. unfold bitmapSize. pose proof (Z.div_mod n 8). pose proof (Z.mod_pos_bound n 8).
  destruct (Z.eqb_spec (n mod 8) 0); lia.
Qed.
