(* ===== verification/ConsensusState.v ===== *)
(** * The state of a consensus round: consensus/spos/consensusState.go with
    roundConsensus.go, roundState.go, roundStatus.go and roundThreshold.go.

    The headers, bodies and network messages are those of other packages: the state is
    polymorphic in their types.  A Go map from subround identifiers reads as the zero
    value where it has no entry. *)

From stdpp Require Import base list gmap.
From Stdlib Require Import ZArith Lia.
From S2P Require Import Prelude Bitmap.

Inductive sposErr :=
| ErrNilConsensusGroup
| ErrEmptyConsensusGroup
| ErrNotFoundInConsensus
| ErrInvalidKey
| ErrNilSignature
| ErrNilHeader
| ErrInvalidNumSigShares
| ErrSigning
| ErrOther.

(** ** roundState: the subrounds a node has done its job in *)

Record roundState := mkRoundState { jobDone : gmap Z bool }.

Definition NewRoundState : roundState := mkRoundState ∅.

Definition stateJobDone (rstate : roundState) (subroundId : Z) : bool :=
  default false (jobDone rstate !! subroundId).

Definition stateSetJobDone (rstate : roundState) (subroundId : Z) (value : bool) : roundState :=
  mkRoundState (<[subroundId := value]> (jobDone rstate)).

Definition ResetJobsDone (rstate : roundState) : roundState :=
  mkRoundState ((fun _ => false) <$> jobDone rstate).

(** ** roundStatus *)

Inductive SubroundStatus := SsNotFinished | SsFinished.

#[global] Instance SubroundStatus_eq_dec : EqDecision SubroundStatus.
Proof. solve_decision. Defined.

Record roundStatus := mkRoundStatus { status : gmap Z SubroundStatus }.

Definition NewRoundStatus : roundStatus := mkRoundStatus ∅.

Definition statusOf (rstatus : roundStatus) (subroundId : Z) : SubroundStatus :=
  default SsNotFinished (status rstatus !! subroundId).

Definition statusSet (rstatus : roundStatus) (subroundId : Z) (s : SubroundStatus) : roundStatus :=
  mkRoundStatus (<[subroundId := s]> (status rstatus)).

Definition statusReset (rstatus : roundStatus) : roundStatus :=
  mkRoundStatus ((fun _ => SsNotFinished) <$> status rstatus).

(** ** roundThreshold *)

Record roundThreshold := mkRoundThreshold { threshold : gmap Z Z; fallbackThreshold : gmap Z Z }.

Definition NewRoundThreshold : roundThreshold := mkRoundThreshold ∅ ∅.

Definition thresholdOf (rthr : roundThreshold) (subroundId : Z) : Z :=
  default 0 (threshold rthr !! subroundId).

Definition thresholdSet (rthr : roundThreshold) (subroundId t : Z) : roundThreshold :=
  mkRoundThreshold (<[subroundId := t]> (threshold rthr)) (fallbackThreshold rthr).

Definition fallbackOf (rthr : roundThreshold) (subroundId : Z) : Z :=
  default 0 (fallbackThreshold rthr !! subroundId).

Definition fallbackSet (rthr : roundThreshold) (subroundId t : Z) : roundThreshold :=
  mkRoundThreshold (threshold rthr) (<[subroundId := t]> (fallbackThreshold rthr)).

(** ** roundConsensus *)

(** The consensus group is [None] before the first round. *)
Record roundConsensus := mkRoundConsensus {
  eligibleNodes : gset bytes;
  consensusGroup : option (list bytes);
  consensusGroupSize : Z;
  selfPubKey : bytes;
  validatorRoundStates : gmap bytes roundState;
}.

Definition NewRoundConsensus (eligibleNodes : gset bytes) (consensusGroupSize : Z) (selfId : bytes)
  : roundConsensus :=
  mkRoundConsensus eligibleNodes None consensusGroupSize selfId ∅.

Definition group (rcns : roundConsensus) : list bytes := default [] (consensusGroup rcns).

Fixpoint indexOf (l : list bytes) (pubKey : bytes) (i : Z) : option Z :=
  match l with
  | [] => None
  | pk :: l => if beq pk pubKey then Some i else indexOf l pubKey (i + 1)
  end.

Definition rcIndex (rcns : roundConsensus) (pubKey : bytes) : sposErr + Z :=
  match indexOf (group rcns) pubKey 0 with
  | Some i => inr i
  | None => inl ErrNotFoundInConsensus
  end.

Definition rcSetEligibleList (eligibleList : gset bytes) (rcns : roundConsensus) : roundConsensus :=
  mkRoundConsensus eligibleList (consensusGroup rcns) (consensusGroupSize rcns) (selfPubKey rcns)
    (validatorRoundStates rcns).

Definition rcSetGroup (consensusGroup : list bytes) (rcns : roundConsensus) : roundConsensus :=
  mkRoundConsensus (eligibleNodes rcns) (Some consensusGroup) (consensusGroupSize rcns) (selfPubKey rcns)
    (fold_left (fun m pk => <[pk := NewRoundState]> m) consensusGroup ∅).

Definition withStates (states : gmap bytes roundState) (rcns : roundConsensus) : roundConsensus :=
  mkRoundConsensus (eligibleNodes rcns) (consensusGroup rcns) (consensusGroupSize rcns) (selfPubKey rcns) states.

Definition rcJobDone (rcns : roundConsensus) (key : bytes) (subroundId : Z) : sposErr + bool :=
  match validatorRoundStates rcns !! key with
  | None => inl ErrInvalidKey
  | Some currentRoundState => inr (stateJobDone currentRoundState subroundId)
  end.

Definition rcSetJobDone (rcns : roundConsensus) (key : bytes) (subroundId : Z) (value : bool)
  : sposErr + roundConsensus :=
  match validatorRoundStates rcns !! key with
  | None => inl ErrInvalidKey
  | Some currentRoundState =>
      inr (withStates (<[key := stateSetJobDone currentRoundState subroundId value]> (validatorRoundStates rcns)) rcns)
  end.

Definition rcInGroup (rcns : roundConsensus) (node : bytes) : bool := existsb (fun pk => beq pk node) (group rcns).

Definition rcEligible (rcns : roundConsensus) (node : bytes) : bool := bool_decide (node ∈ eligibleNodes rcns).

(** Whether the job is done; an unknown key counts as no. *)
Definition isDone (rcns : roundConsensus) (subroundId : Z) (key : bytes) : bool :=
  match rcJobDone rcns key subroundId with inr d => d | inl _ => false end.

Definition rcComputeSize (rcns : roundConsensus) (subroundId : Z) : Z :=
  fold_left (fun n pk => if isDone rcns subroundId pk then n + 1 else n) (group rcns) 0.

Definition rcReset (rcns : roundConsensus) : roundConsensus :=
  withStates (fold_left (fun states pk =>
    match states !! pk with
    | None => states
    | Some currentRoundState => <[pk := ResetJobsDone currentRoundState]> states
    end) (group rcns) (validatorRoundStates rcns)) rcns.

(** ** ConsensusState *)

Section State.
Context {H B P2P : Type}.

Record ConsensusState := mkConsensusState {
  Data : slice;
  Body : option B;
  Header : option H;
  receivedHeaders : list H;
  receivedMessagesWithSignature : gmap bytes P2P;
  RoundIndex : Z;
  RoundTimeStamp : Z;
  RoundCanceled : bool;
  ExtendedCalled : bool;
  WaitingAllSignaturesTimeOut : bool;
  processingBlock : bool;
  roundConsensusOf : roundConsensus;
  roundThresholdOf : roundThreshold;
  roundStatusOf : roundStatus;
}.

Definition set_Data v (x : ConsensusState) : ConsensusState :=
  mkConsensusState v (Body x) (Header x) (receivedHeaders x) (receivedMessagesWithSignature x)
    (RoundIndex x) (RoundTimeStamp x) (RoundCanceled x) (ExtendedCalled x)
    (WaitingAllSignaturesTimeOut x) (processingBlock x) (roundConsensusOf x) (roundThresholdOf x)
    (roundStatusOf x).
Definition set_Body v (x : ConsensusState) : ConsensusState :=
  mkConsensusState (Data x) v (Header x) (receivedHeaders x) (receivedMessagesWithSignature x)
    (RoundIndex x) (RoundTimeStamp x) (RoundCanceled x) (ExtendedCalled x)
    (WaitingAllSignaturesTimeOut x) (processingBlock x) (roundConsensusOf x) (roundThresholdOf x)
    (roundStatusOf x).
Definition set_Header v (x : ConsensusState) : ConsensusState :=
  mkConsensusState (Data x) (Body x) v (receivedHeaders x) (receivedMessagesWithSignature x)
    (RoundIndex x) (RoundTimeStamp x) (RoundCanceled x) (ExtendedCalled x)
    (WaitingAllSignaturesTimeOut x) (processingBlock x) (roundConsensusOf x) (roundThresholdOf x)
    (roundStatusOf x).
Definition set_receivedHeaders v (x : ConsensusState) : ConsensusState :=
  mkConsensusState (Data x) (Body x) (Header x) v (receivedMessagesWithSignature x) (RoundIndex x)
    (RoundTimeStamp x) (RoundCanceled x) (ExtendedCalled x) (WaitingAllSignaturesTimeOut x)
    (processingBlock x) (roundConsensusOf x) (roundThresholdOf x) (roundStatusOf x).
Definition set_receivedMessagesWithSignature v (x : ConsensusState) : ConsensusState :=
  mkConsensusState (Data x) (Body x) (Header x) (receivedHeaders x) v (RoundIndex x)
    (RoundTimeStamp x) (RoundCanceled x) (ExtendedCalled x) (WaitingAllSignaturesTimeOut x)
    (processingBlock x) (roundConsensusOf x) (roundThresholdOf x) (roundStatusOf x).
Definition set_RoundIndex v (x : ConsensusState) : ConsensusState :=
  mkConsensusState (Data x) (Body x) (Header x) (receivedHeaders x)
    (receivedMessagesWithSignature x) v (RoundTimeStamp x) (RoundCanceled x) (ExtendedCalled x)
    (WaitingAllSignaturesTimeOut x) (processingBlock x) (roundConsensusOf x) (roundThresholdOf x)
    (roundStatusOf x).
Definition set_RoundTimeStamp v (x : ConsensusState) : ConsensusState :=
  mkConsensusState (Data x) (Body x) (Header x) (receivedHeaders x)
    (receivedMessagesWithSignature x) (RoundIndex x) v (RoundCanceled x) (ExtendedCalled x)
    (WaitingAllSignaturesTimeOut x) (processingBlock x) (roundConsensusOf x) (roundThresholdOf x)
    (roundStatusOf x).
Definition set_RoundCanceled v (x : ConsensusState) : ConsensusState :=
  mkConsensusState (Data x) (Body x) (Header x) (receivedHeaders x)
    (receivedMessagesWithSignature x) (RoundIndex x) (RoundTimeStamp x) v (ExtendedCalled x)
    (WaitingAllSignaturesTimeOut x) (processingBlock x) (roundConsensusOf x) (roundThresholdOf x)
    (roundStatusOf x).
Definition set_ExtendedCalled v (x : ConsensusState) : ConsensusState :=
  mkConsensusState (Data x) (Body x) (Header x) (receivedHeaders x)
    (receivedMessagesWithSignature x) (RoundIndex x) (RoundTimeStamp x) (RoundCanceled x) v
    (WaitingAllSignaturesTimeOut x) (processingBlock x) (roundConsensusOf x) (roundThresholdOf x)
    (roundStatusOf x).
Definition set_WaitingAllSignaturesTimeOut v (x : ConsensusState) : ConsensusState :=
  mkConsensusState (Data x) (Body x) (Header x) (receivedHeaders x)
    (receivedMessagesWithSignature x) (RoundIndex x) (RoundTimeStamp x) (RoundCanceled x)
    (ExtendedCalled x) v (processingBlock x) (roundConsensusOf x) (roundThresholdOf x)
    (roundStatusOf x).
Definition set_processingBlock v (x : ConsensusState) : ConsensusState :=
  mkConsensusState (Data x) (Body x) (Header x) (receivedHeaders x)
    (receivedMessagesWithSignature x) (RoundIndex x) (RoundTimeStamp x) (RoundCanceled x)
    (ExtendedCalled x) (WaitingAllSignaturesTimeOut x) v (roundConsensusOf x) (roundThresholdOf x)
    (roundStatusOf x).
Definition set_roundConsensusOf v (x : ConsensusState) : ConsensusState :=
  mkConsensusState (Data x) (Body x) (Header x) (receivedHeaders x)
    (receivedMessagesWithSignature x) (RoundIndex x) (RoundTimeStamp x) (RoundCanceled x)
    (ExtendedCalled x) (WaitingAllSignaturesTimeOut x) (processingBlock x) v (roundThresholdOf x)
    (roundStatusOf x).
Definition set_roundThresholdOf v (x : ConsensusState) : ConsensusState :=
  mkConsensusState (Data x) (Body x) (Header x) (receivedHeaders x)
    (receivedMessagesWithSignature x) (RoundIndex x) (RoundTimeStamp x) (RoundCanceled x)
    (ExtendedCalled x) (WaitingAllSignaturesTimeOut x) (processingBlock x) (roundConsensusOf x) v
    (roundStatusOf x).
Definition set_roundStatusOf v (x : ConsensusState) : ConsensusState :=
  mkConsensusState (Data x) (Body x) (Header x) (receivedHeaders x)
    (receivedMessagesWithSignature x) (RoundIndex x) (RoundTimeStamp x) (RoundCanceled x)
    (ExtendedCalled x) (WaitingAllSignaturesTimeOut x) (processingBlock x) (roundConsensusOf x)
    (roundThresholdOf x) v.

(** The embedded structures. *)
Definition onConsensus (f : roundConsensus -> roundConsensus) (cns : ConsensusState) : ConsensusState :=
  set_roundConsensusOf (f (roundConsensusOf cns)) cns.

Definition ConsensusGroup (cns : ConsensusState) : list bytes := group (roundConsensusOf cns).
Definition ConsensusGroupSize (cns : ConsensusState) : Z := consensusGroupSize (roundConsensusOf cns).
Definition SelfPubKey (cns : ConsensusState) : bytes := selfPubKey (roundConsensusOf cns).
Definition ConsensusGroupIndex (cns : ConsensusState) (pk : bytes) : sposErr + Z := rcIndex (roundConsensusOf cns) pk.
Definition SelfConsensusGroupIndex (cns : ConsensusState) : sposErr + Z := ConsensusGroupIndex cns (SelfPubKey cns).
Definition SetConsensusGroup (g : list bytes) (cns : ConsensusState) : ConsensusState := onConsensus (rcSetGroup g) cns.
Definition SetEligibleList (l : gset bytes) (cns : ConsensusState) : ConsensusState := onConsensus (rcSetEligibleList l) cns.
Definition JobDone (cns : ConsensusState) (key : bytes) (subroundId : Z) : sposErr + bool :=
  rcJobDone (roundConsensusOf cns) key subroundId.
Definition SetJobDone (cns : ConsensusState) (key : bytes) (subroundId : Z) (value : bool) : sposErr + ConsensusState :=
  let? rcns := rcSetJobDone (roundConsensusOf cns) key subroundId value in
  inr (set_roundConsensusOf rcns cns).
Definition IsNodeInConsensusGroup (cns : ConsensusState) (node : bytes) : bool := rcInGroup (roundConsensusOf cns) node.
Definition IsNodeInEligibleList (cns : ConsensusState) (node : bytes) : bool := rcEligible (roundConsensusOf cns) node.
Definition ComputeSize (cns : ConsensusState) (subroundId : Z) : Z := rcComputeSize (roundConsensusOf cns) subroundId.
Definition Threshold (cns : ConsensusState) (subroundId : Z) : Z := thresholdOf (roundThresholdOf cns) subroundId.
Definition SetThreshold (subroundId t : Z) (cns : ConsensusState) : ConsensusState :=
  set_roundThresholdOf (thresholdSet (roundThresholdOf cns) subroundId t) cns.
Definition FallbackThreshold (cns : ConsensusState) (subroundId : Z) : Z := fallbackOf (roundThresholdOf cns) subroundId.
Definition SetFallbackThreshold (subroundId t : Z) (cns : ConsensusState) : ConsensusState :=
  set_roundThresholdOf (fallbackSet (roundThresholdOf cns) subroundId t) cns.
Definition Status (cns : ConsensusState) (subroundId : Z) : SubroundStatus := statusOf (roundStatusOf cns) subroundId.
Definition SetStatus (subroundId : Z) (s : SubroundStatus) (cns : ConsensusState) : ConsensusState :=
  set_roundStatusOf (statusSet (roundStatusOf cns) subroundId s) cns.

Definition ResetConsensusState (cns : ConsensusState) : ConsensusState :=
  let cns := set_Data None (set_Header None (set_Body None cns)) in
  let cns := set_receivedMessagesWithSignature ∅ (set_receivedHeaders [] cns) in
  let cns := set_RoundCanceled false cns in
  let cns := set_ExtendedCalled false cns in
  let cns := set_WaitingAllSignaturesTimeOut false cns in
  let cns := set_roundStatusOf (statusReset (roundStatusOf cns)) cns in
  onConsensus rcReset cns.

Definition NewConsensusState (rcns : roundConsensus) (rthr : roundThreshold) (rstatus : roundStatus)
  : ConsensusState :=
  ResetConsensusState
    (mkConsensusState None None None [] ∅ 0 0 false false false false rcns rthr rstatus).

Definition AddReceivedHeader (headerHandler : H) (cns : ConsensusState) : ConsensusState :=
  set_receivedHeaders (receivedHeaders cns ++ [headerHandler]) cns.

Definition AddMessageWithSignature (key : bytes) (message : P2P) (cns : ConsensusState) : ConsensusState :=
  set_receivedMessagesWithSignature (<[key := message]> (receivedMessagesWithSignature cns)) cns.

Definition GetMessageWithSignature (cns : ConsensusState) (key : bytes) : option P2P :=
  receivedMessagesWithSignature cns !! key.

Definition GetLeader (cns : ConsensusState) : sposErr + bytes :=
  match consensusGroup (roundConsensusOf cns) with
  | None => inl ErrNilConsensusGroup
  | Some [] => inl ErrEmptyConsensusGroup
  | Some (leader :: _) => inr leader
  end.

Definition IsNodeLeaderInCurrentRound (cns : ConsensusState) (node : bytes) : bool :=
  match GetLeader cns with inl _ => false | inr leader => beq leader node end.

Definition IsSelfLeaderInCurrentRound (cns : ConsensusState) : bool :=
  IsNodeLeaderInCurrentRound cns (SelfPubKey cns).

Definition IsConsensusDataSet (cns : ConsensusState) : bool :=
  match Data cns with Some _ => true | None => false end.

(** bytes.Equal: a nil slice equals an empty one. *)
Definition IsConsensusDataEqual (cns : ConsensusState) (data : slice) : bool :=
  beq (default [] (Data cns)) (default [] data).

Definition IsJobDone (cns : ConsensusState) (node : bytes) (currentSubroundId : Z) : bool :=
  match JobDone cns node currentSubroundId with inl _ => false | inr jobDone => jobDone end.

Definition IsSelfJobDone (cns : ConsensusState) (currentSubroundId : Z) : bool :=
  IsJobDone cns (SelfPubKey cns) currentSubroundId.

Definition IsSubroundFinished (cns : ConsensusState) (subroundID : Z) : bool :=
  bool_decide (Status cns subroundID = SsFinished).

Definition IsNodeSelf (cns : ConsensusState) (node : bytes) : bool := beq node (SelfPubKey cns).

Definition IsBlockBodyAlreadyReceived (cns : ConsensusState) : bool :=
  match Body cns with Some _ => true | None => false end.

Definition IsHeaderAlreadyReceived (cns : ConsensusState) : bool :=
  match Header cns with Some _ => true | None => false end.

Definition SetProcessingBlock (b : bool) (cns : ConsensusState) : ConsensusState := set_processingBlock b cns.

Section Keys.
(** keysHandler.IsKeyManagedByCurrentNode *)
Variable IsKeyManagedByCurrentNode : bytes -> bool.

Definition IsMultiKeyInConsensusGroup (cns : ConsensusState) : bool :=
  existsb IsKeyManagedByCurrentNode (ConsensusGroup cns).

Definition IsMultiKeyLeaderInCurrentRound (cns : ConsensusState) : bool :=
  match GetLeader cns with inl _ => false | inr leader => IsKeyManagedByCurrentNode leader end.

Definition IsLeaderJobDone (cns : ConsensusState) (currentSubroundId : Z) : bool :=
  match GetLeader cns with inl _ => false | inr leader => IsJobDone cns leader currentSubroundId end.

Definition IsMultiKeyJobDone (cns : ConsensusState) (currentSubroundId : Z) : bool :=
  forallb (fun validator => negb (IsKeyManagedByCurrentNode validator) || IsJobDone cns validator currentSubroundId)
    (ConsensusGroup cns).

Definition CanDoSubroundJob (cns : ConsensusState) (currentSubroundId : Z) : bool :=
  if negb (IsConsensusDataSet cns) then false
  else
    let selfJobDone :=
      if IsNodeInConsensusGroup cns (SelfPubKey cns) then IsSelfJobDone cns currentSubroundId else true in
    let multiKeyJobDone :=
      if IsMultiKeyInConsensusGroup cns then IsMultiKeyJobDone cns currentSubroundId else true in
    if selfJobDone && multiKeyJobDone then false
    else if IsSubroundFinished cns currentSubroundId then false
    else true.
End Keys.

(** The sender and the round of a message. *)
Definition CanProcessReceivedMessage (cns : ConsensusState) (pubKey : bytes) (msgRound currentRoundIndex : Z)
  (currentSubroundId : Z) : bool :=
  if IsNodeSelf cns pubKey then false
  else if negb (currentRoundIndex =? msgRound) then false
  else if IsJobDone cns pubKey currentSubroundId then false
  else if IsSubroundFinished cns currentSubroundId then false
  else true.

Fixpoint bitmapLoop (cns : ConsensusState) (subroundId : Z) (pubKeys : list bytes) (i : Z) (bitmap : bytes) : bytes :=
  match pubKeys with
  | [] => bitmap
  | pubKey :: pubKeys =>
      bitmapLoop cns subroundId pubKeys (i + 1)
        (if IsJobDone cns pubKey subroundId then setBit bitmap i else bitmap)
  end.

Definition GenerateBitmap (cns : ConsensusState) (subroundId : Z) : bytes :=
  let sizeConsensus := Z.of_nat (length (ConsensusGroup cns)) in
  bitmapLoop cns subroundId (ConsensusGroup cns) 0 (repeat 0 (Z.to_nat (bitmapSize sizeConsensus))).
End State.
Arguments ConsensusState : clear implicits.
