(* ===== verification/HeaderHandler.v ===== *)
(** * What the consensus uses of the packages around it: the interface of headers
    (data.HeaderHandler of mx-chain-core-go), the multi-signer and the single signer
    (crypto of mx-chain-crypto-go).

    The headers are values: a clone is the header itself, and a setter gives the
    changed header, or [None] when it returns an error. *)

From stdpp Require Import base list.
From Stdlib Require Import ZArith.
From S2P Require Import Prelude.

Class HeaderHandler (H : Type) := {
  GetEpoch : H -> Z;
  GetRound : H -> Z;
  GetNonce : H -> Z;
  GetShardID : H -> Z;
  GetPrevHash : H -> slice;
  GetPrevRandSeed : H -> slice;
  GetRandSeed : H -> slice;
  IsStartOfEpochBlock : H -> bool;
  CheckFieldsForNil : H -> bool;
  GetPubKeysBitmap : H -> slice;
  GetSignature : H -> slice;
  GetLeaderSignature : H -> slice;
  SetPubKeysBitmap : H -> slice -> option H;
  SetSignature : H -> slice -> option H;
  SetLeaderSignature : H -> slice -> option H;
  SetPrevHash : H -> slice -> option H;
  SetShardID : H -> Z -> option H;
  SetTimeStamp : H -> Z -> option H;
  SetPrevRandSeed : H -> slice -> option H;
  SetRandSeed : H -> slice -> option H;
  SetChainID : H -> bytes -> option H;
}.

(** The signature of the hash of a block by a group: crypto.MultiSigner. *)
Record MultiSigner := mkMultiSigner {
  CreateSignatureShare : bytes -> slice -> option bytes;
  VerifySignatureShareWith : bytes -> slice -> bytes -> bool;
  AggregateSigsWith : list bytes -> list slice -> option bytes;
  VerifyAggregatedSig : list bytes -> slice -> slice -> bool;
}.

(** The header without its three signature fields. *)
Definition unsigned {H} `{HeaderHandler H} (h : H) : option H :=
  match SetSignature h None with
  | None => None
  | Some h =>
      match SetPubKeysBitmap h None with
      | None => None
      | Some h => SetLeaderSignature h None
      end
  end.

(** One of the signature fields is set. *)
Inductive signatureSet {H} `{HeaderHandler H} (h h' : H) : Prop :=
| set_bitmap v : SetPubKeysBitmap h v = Some h' -> signatureSet h h'
| set_signature v : SetSignature h v = Some h' -> signatureSet h h'
| set_leader v : SetLeaderSignature h v = Some h' -> signatureSet h h'.

(** The fields that hold the signatures: what the setters of the concrete headers do. *)
Class HeaderLaws (H : Type) `{HeaderHandler H} := {
  bitmap_total : forall h v, is_Some (SetPubKeysBitmap h v);
  signature_total : forall h v, is_Some (SetSignature h v);
  leader_total : forall h v, is_Some (SetLeaderSignature h v);
  bitmap_set : forall h v h', SetPubKeysBitmap h v = Some h' -> GetPubKeysBitmap h' = v;
  signature_set : forall h v h', SetSignature h v = Some h' ->
    GetSignature h' = v /\ GetPubKeysBitmap h' = GetPubKeysBitmap h;
  leader_set : forall h v h', SetLeaderSignature h v = Some h' ->
    GetLeaderSignature h' = v /\ GetSignature h' = GetSignature h /\ GetPubKeysBitmap h' = GetPubKeysBitmap h;
  leader_cleared : forall h v h', SetLeaderSignature h v = Some h' ->
    SetLeaderSignature h' None = SetLeaderSignature h None;
  unsigned_same : forall h h', signatureSet h h' -> unsigned h' = unsigned h;
  identity_same : forall h h', signatureSet h h' ->
    GetEpoch h' = GetEpoch h /\ GetRound h' = GetRound h /\ GetShardID h' = GetShardID h /\
    GetPrevRandSeed h' = GetPrevRandSeed h /\ IsStartOfEpochBlock h' = IsStartOfEpochBlock h;
}.
