(* ===== verification/HeaderCheck.v ===== *)
(** * The verification of the signatures of a header:
    process/headerCheck/headerSignatureVerify.go and common.go. *)

From stdpp Require Import base list.
From Stdlib Require Import ZArith Lia.
From S2P Require Import Prelude Bitmap HeaderHandler.

Inductive headerErr :=
| ErrNilPubKeysBitmap
| ErrBlockProposerSignatureMissing
| ErrNodesCoordinator
| ErrWrongSizeBitmap
| ErrNotEnoughSignatures
| ErrIndexOutOfBounds
| ErrIndexNotSelected
| ErrMultiSigner
| ErrHeaderSetter
| ErrMarshal
| ErrVerify
| ErrPublicKey
| HeaderPanic.

Definition ComputeSignersPublicKeys (consensusGroup : list bytes) (bitmap : bytes) : list bytes :=
  let nbBitsBitmap := blen bitmap * 8 in
  let consensusGroupSize := Z.of_nat (length consensusGroup) in
  let size := if nbBitsBitmap <? consensusGroupSize then nbBitsBitmap else consensusGroupSize in
  omap (fun i =>
    let indexRequired := 0 <? Z.land (byteAt bitmap i) (u8 (Z.shiftl 1 (u16 (i mod 8)))) in
    if indexRequired then consensusGroup !! Z.to_nat i else None) (seqZ 0 size).

Definition isIndexInBitmap (index : Z) (bitmap : bytes) : headerErr + unit :=
  if u16 (blen bitmap * 8) <=? index then inl ErrIndexOutOfBounds
  else if maskAt bitmap index =? 0 then inl ErrIndexNotSelected
  else inr tt.

Section Verifier.
Context {H : Type} `{HeaderHandler H}.

(** The collaborators: the nodes coordinator, the signers, the marshaller, the
    hasher, the fallback validator and the PBFT thresholds of mx-chain-core-go. *)
Record HeaderSigVerifier := mkHeaderSigVerifier {
  GetConsensusValidatorsPublicKeys : slice -> Z -> Z -> Z -> option (list bytes);
  hsvComputeConsensusGroup : slice -> Z -> Z -> Z -> option (list bytes);
  GetMultiSigner : Z -> option MultiSigner;
  PublicKeyFromByteArray : bytes -> bool;
  SingleVerify : bytes -> slice -> slice -> bool;
  hsvMarshal : H -> option bytes;
  hsvCompute : bytes -> bytes;
  ShouldApplyFallbackValidation : H -> bool;
  GetPBFTThreshold : Z -> Z;
  GetPBFTFallbackThreshold : Z -> Z;
}.

Variable hsv : HeaderSigVerifier.

Definition setH {A} (r : option A) : headerErr + A :=
  match r with Some h => inr h | None => inl ErrHeaderSetter end.

Definition orErr {A} (e : headerErr) (r : option A) : headerErr + A :=
  match r with Some a => inr a | None => inl e end.

Definition verifyConsensusSize (consensusPubKeys : list bytes) (header : H) : headerErr + unit :=
  let consensusSize := Z.of_nat (length consensusPubKeys) in
  let bitmap := default [] (GetPubKeysBitmap header) in
  let expectedBitmapSize := bitmapSize consensusSize in
  if negb (blen bitmap =? expectedBitmapSize) then inl ErrWrongSizeBitmap
  else
    let numOfOnesInBitmap := onesOf bitmap in
    let minNumRequiredSignatures :=
      if ShouldApplyFallbackValidation hsv header then GetPBFTFallbackThreshold hsv consensusSize
      else GetPBFTThreshold hsv consensusSize in
    if minNumRequiredSignatures <=? numOfOnesInBitmap then inr tt else inl ErrNotEnoughSignatures.

(** The epoch whose nodes sign the header. *)
Definition consensusEpoch (header : H) : Z :=
  if IsStartOfEpochBlock header && (0 <? GetEpoch header) then u32 (GetEpoch header - 1) else GetEpoch header.

Fixpoint signersLoop (pubKeys : list bytes) (i : Z) (bitmap : bytes) : list bytes :=
  match pubKeys with
  | [] => []
  | pk :: pubKeys =>
      match isIndexInBitmap (u16 i) bitmap with
      | inl _ => signersLoop pubKeys (i + 1) bitmap
      | inr _ => pk :: signersLoop pubKeys (i + 1) bitmap
      end
  end.

Definition getConsensusSigners (header : H) : headerErr + list bytes :=
  let bitmap := default [] (GetPubKeysBitmap header) in
  if blen bitmap =? 0 then inl ErrNilPubKeysBitmap
  else if Z.land (byteAt bitmap 0) 1 =? 0 then inl ErrBlockProposerSignatureMissing
  else
    let? consensusPubKeys := orErr ErrNodesCoordinator (GetConsensusValidatorsPublicKeys hsv
      (GetPrevRandSeed header) (GetRound header) (GetShardID header) (consensusEpoch header)) in
    let? _ := verifyConsensusSize consensusPubKeys header in
    inr (signersLoop consensusPubKeys 0 bitmap).

Definition copyHeaderWithoutSig (header : H) : headerErr + H :=
  let? headerCopy := setH (SetSignature header None) in
  let? headerCopy := setH (SetPubKeysBitmap headerCopy None) in
  setH (SetLeaderSignature headerCopy None).

Definition copyHeaderWithoutLeaderSig (header : H) : headerErr + H := setH (SetLeaderSignature header None).

(** core.CalculateHash *)
Definition CalculateHash (header : H) : headerErr + bytes :=
  let? b := orErr ErrMarshal (hsvMarshal hsv header) in inr (hsvCompute hsv b).

Definition VerifySignature (header : H) : headerErr + unit :=
  let? multiSigVerifier := orErr ErrMultiSigner (GetMultiSigner hsv (GetEpoch header)) in
  let? headerCopy := copyHeaderWithoutSig header in
  let? hash := CalculateHash headerCopy in
  let? pubKeysSigners := getConsensusSigners header in
  if VerifyAggregatedSig multiSigVerifier pubKeysSigners (Some hash) (GetSignature header) then inr tt
  else inl ErrVerify.

Definition ComputeConsensusGroup (header : H) : headerErr + list bytes :=
  orErr ErrNodesCoordinator (hsvComputeConsensusGroup hsv (GetPrevRandSeed header) (GetRound header)
    (GetShardID header) (consensusEpoch header)).

Definition getLeader (header : H) : headerErr + bytes :=
  let? headerConsensusGroup := ComputeConsensusGroup header in
  match headerConsensusGroup with
  | [] => inl HeaderPanic
  | leader :: _ => if PublicKeyFromByteArray hsv leader then inr leader else inl ErrPublicKey
  end.

Definition verified (ok : bool) : headerErr + unit := if ok then inr tt else inl ErrVerify.

Definition verifyRandSeed (leaderPubKey : bytes) (header : H) : headerErr + unit :=
  verified (SingleVerify hsv leaderPubKey (GetPrevRandSeed header) (GetRandSeed header)).

Definition verifyLeaderSignature (leaderPubKey : bytes) (header : H) : headerErr + unit :=
  let? headerCopy := copyHeaderWithoutLeaderSig header in
  let? headerBytes := orErr ErrMarshal (hsvMarshal hsv headerCopy) in
  verified (SingleVerify hsv leaderPubKey (Some headerBytes) (GetLeaderSignature header)).

Definition VerifyRandSeed (header : H) : headerErr + unit :=
  let? leaderPubKey := getLeader header in verifyRandSeed leaderPubKey header.

Definition VerifyLeaderSignature (header : H) : headerErr + unit :=
  let? leaderPubKey := getLeader header in verifyLeaderSignature leaderPubKey header.

Definition VerifyRandSeedAndLeaderSignature (header : H) : headerErr + unit :=
  let? leaderPubKey := getLeader header in
  let? _ := verifyRandSeed leaderPubKey header in
  verifyLeaderSignature leaderPubKey header.
End Verifier.
Arguments HeaderSigVerifier : clear implicits.

(** ** fallback/headerValidator.go *)

Section Fallback.
Context {H : Type} `{HeaderHandler H}.
Variable MetachainShardId : Z.
(** process.GetMetaHeader from the pool or the storage, by its hash. *)
Variable GetMetaHeader : slice -> option H.

Definition MaxRoundsWithoutCommittedStartInEpochBlock : Z := 50.

Definition fallbackApplies (headerHandler : option H) : bool :=
  match headerHandler with
  | None => false
  | Some headerHandler =>
      if negb (GetShardID headerHandler =? MetachainShardId) then false
      else if negb (IsStartOfEpochBlock headerHandler) then false
      else
        match GetMetaHeader (GetPrevHash headerHandler) with
        | None => false
        | Some previousHeader =>
            MaxRoundsWithoutCommittedStartInEpochBlock <=?
              i64 (i64 (GetRound headerHandler) - i64 (GetRound previousHeader))
        end
  end.
End Fallback.
