(* ===== verification/SigningHandler.v ===== *)
(** * The signature shares of a round: factory/crypto/signingHandler.go. *)

From stdpp Require Import base list.
From Stdlib Require Import ZArith Lia.
From S2P Require Import Prelude Bitmap HeaderHandler.

Inductive signErr :=
| ErrNilPublicKeys
| ErrEmptyPubKeyString
| ErrNoPublicKeySet
| ErrNilMessage
| ErrPrivateKey
| ErrGetMultiSigner
| ErrSigner
| ErrInvalidSignature
| ErrShareIndexOutOfBounds
| ErrNilElement
| ErrNilBitmap
| ErrBitmapMismatch
| ErrKeyGen
| SignPanic.

Record signatureHolderData := mkHolder {
  pubKeys : list bytes;
  sigShares : list slice;
  aggSig : slice;
}.

(** The collaborators: the container of multi-signers, the single signer, the key
    generator and the keys of the node. *)
Record signEnv := mkSignEnv {
  seGetMultiSigner : Z -> option MultiSigner;
  seSign : bytes -> slice -> option bytes;
  seVerify : bytes -> slice -> slice -> bool;
  seKeyGen : bytes -> bool;
  GetHandledPrivateKey : bytes -> option bytes;
}.

Fixpoint convertStringsToPubKeysBytes (keys : list bytes) : signErr + list bytes :=
  match keys with
  | [] => inr []
  | [] :: _ => inl ErrEmptyPubKeyString
  | key :: keys => let? pk := convertStringsToPubKeysBytes keys in inr (key :: pk)
  end.

(** [make([][]byte, uint16(len(pubKeys)))] *)
Definition noShares (keys : list bytes) : list slice := repeat None (Z.to_nat (u16 (Z.of_nat (length keys)))).

Definition newHolder (keys : list bytes) : signErr + signatureHolderData :=
  let? pubKeysBytes := convertStringsToPubKeysBytes keys in
  inr (mkHolder pubKeysBytes (noShares keys) None).

(** The collaborators are given. *)
Definition NewSigningHandler (keys : list bytes) : signErr + signatureHolderData :=
  if (length keys =? 0)%nat then inl ErrNoPublicKeySet else newHolder keys.

Section Signing.
Variable env : signEnv.

Abbreviation SH := (SE signatureHolderData signErr).

(** Reset: the data stays as it is on an error. *)
Definition Reset (keys : option (list bytes)) : SH unit :=
  match keys with
  | None => throw ErrNilPublicKeys
  | Some keys => fun sh =>
      match newHolder keys with
      | inl e => (sh, inl e)
      | inr sh' => (sh', inr tt)
      end
  end.

Definition signer (epoch : Z) : signErr + MultiSigner :=
  match seGetMultiSigner env epoch with Some ms => inr ms | None => inl ErrGetMultiSigner end.

(** [sh.data.sigShares[index] = sig] *)
Definition storeShare (index : Z) (sig : slice) : SH unit := fun sh =>
  if Z.of_nat (length (sigShares sh)) <=? index then (sh, inl SignPanic)
  else (mkHolder (pubKeys sh) (<[Z.to_nat index := sig]> (sigShares sh)) (aggSig sh), inr tt).

Definition CreateSignatureShareForPublicKey (message : slice) (index epoch : Z) (publicKeyBytes : bytes)
  : SH bytes :=
  match message with
  | None => throw ErrNilMessage
  | Some _ =>
      match GetHandledPrivateKey env publicKeyBytes with
      | None => throw ErrPrivateKey
      | Some privateKeyBytes =>
          let! multiSigner := liftR (signer epoch) in
          match CreateSignatureShare multiSigner privateKeyBytes message with
          | None => throw ErrSigner
          | Some sigShareBytes => storeShare index (Some sigShareBytes) ;; ret sigShareBytes
          end
      end
  end.

Definition CreateSignatureForPublicKey (message : slice) (publicKeyBytes : bytes) : signErr + bytes :=
  match GetHandledPrivateKey env publicKeyBytes with
  | None => inl ErrPrivateKey
  | Some privateKey =>
      match seSign env privateKey message with Some sig => inr sig | None => inl ErrSigner end
  end.

Definition VerifySingleSignature (publicKeyBytes : bytes) (message signature : slice) : signErr + unit :=
  if negb (seKeyGen env publicKeyBytes) then inl ErrKeyGen
  else if seVerify env publicKeyBytes message signature then inr tt else inl ErrInvalidSignature.

Definition VerifySignatureShare (sh : signatureHolderData) (index : Z) (sig : slice) (message : slice)
  (epoch : Z) : signErr + unit :=
  if slen sig =? 0 then inl ErrInvalidSignature
  else if u16 (Z.of_nat (length (pubKeys sh))) <=? index then inl ErrShareIndexOutOfBounds
  else
    match pubKeys sh !! Z.to_nat index with
    | None => inl SignPanic
    | Some pubKey =>
        let? multiSigner := signer epoch in
        if VerifySignatureShareWith multiSigner pubKey message (default [] sig) then inr tt
        else inl ErrSigner
    end.

Definition StoreSignatureShare (index : Z) (sig : slice) : SH unit :=
  if slen sig =? 0 then throw ErrInvalidSignature
  else
    let! sh := gets (fun sh => sh) in
    if Z.of_nat (length (sigShares sh)) <=? index then throw ErrShareIndexOutOfBounds
    else storeShare index sig.

Definition SignatureShare (sh : signatureHolderData) (index : Z) : signErr + slice :=
  if Z.of_nat (length (sigShares sh)) <=? index then inl ErrShareIndexOutOfBounds
  else
    match sigShares sh !! Z.to_nat index with
    | Some (Some sig) => inr (Some sig)
    | _ => inl ErrNilElement
    end.

Definition shIndexInBitmap (sh : signatureHolderData) (index : Z) (bitmap : bytes) : bool :=
  if u16 (Z.of_nat (length (pubKeys sh))) <=? index then false
  else negb (maskAt bitmap index =? 0).

(** The values at the positions that are in the bitmap. *)
Definition inBitmap {A} (sh : signatureHolderData) (bitmap : bytes) (l : list A) : list A :=
  omap (fun '(i, a) => if shIndexInBitmap sh (u16 (Z.of_nat i)) bitmap then Some a else None)
    (imap (fun i a => (i, a)) l).

(** Whether the bitmap covers the keys. *)
Definition checkBitmap (sh : signatureHolderData) (bitmap : slice) : signErr + bytes :=
  match bitmap with
  | None => inl ErrNilBitmap
  | Some bitmap => if blen bitmap * 8 <? Z.of_nat (length (pubKeys sh)) then inl ErrBitmapMismatch else inr bitmap
  end.

Definition AggregateSigs (sh : signatureHolderData) (bitmap : slice) (epoch : Z) : signErr + bytes :=
  let? bitmap := checkBitmap sh bitmap in
  let? multiSigner := signer epoch in
  let signatures := inBitmap sh bitmap (sigShares sh) in
  let pubKeysSigners := inBitmap sh bitmap (take (length (sigShares sh)) (pubKeys sh)) in
  match AggregateSigsWith multiSigner pubKeysSigners signatures with
  | Some sig => inr sig
  | None => inl ErrSigner
  end.

Definition SetAggregatedSig (sig : slice) (sh : signatureHolderData) : signatureHolderData :=
  mkHolder (pubKeys sh) (sigShares sh) sig.

Definition Verify (sh : signatureHolderData) (message : slice) (bitmap : slice) (epoch : Z) : signErr + unit :=
  let? bitmap := checkBitmap sh bitmap in
  let? multiSigner := signer epoch in
  let keys := inBitmap sh bitmap (pubKeys sh) in
  if VerifyAggregatedSig multiSigner keys message (aggSig sh) then inr tt else inl ErrSigner.
End Signing.
