(* ===== verification/SubroundCore.v ===== *)
(** * What the subrounds of the BLS consensus share: the messages, the state of a node
    in a round, its collaborators, what it sends out (consensus/spos/subround.go,
    consensus/message.go, consensus/spos/bls/constants.go). *)

From stdpp Require Import base list gmap.
From Stdlib Require Import ZArith Lia.
From S2P Require Import Prelude Bitmap ConsensusState HeaderHandler HeaderCheck SigningHandler.

(** ** Subrounds and messages *)

Definition SrStartRound : Z := 0.
Definition SrBlock : Z := 1.
Definition SrSignature : Z := 2.
Definition SrEndRound : Z := 3.

Definition MtUnknown : Z := 0.
Definition MtBlockBodyAndHeader : Z := 1.
Definition MtBlockBody : Z := 2.
Definition MtBlockHeader : Z := 3.
Definition MtSignature : Z := 4.
Definition MtBlockHeaderFinalInfo : Z := 5.
Definition MtInvalidSigners : Z := 6.

Record Message := NewConsensusMessage {
  BlockHeaderHash : slice;
  mSignatureShare : slice;
  mBody : slice;
  mHeader : slice;
  mPubKey : bytes;
  mSignature : slice;
  mMsgType : Z;
  mRoundIndex : Z;
  mChainID : slice;
  mPubKeysBitmap : slice;
  mAggregateSignature : slice;
  mLeaderSignature : slice;
  mOriginatorPid : bytes;
  mInvalidSigners : slice;
}.

(** The factors of consensus/spos/constants.go. *)
Definition LeaderPeerHonestyIncreaseFactor : Z := 2.
Definition ValidatorPeerHonestyIncreaseFactor : Z := 1.
Definition LeaderPeerHonestyDecreaseFactor : Z := -4.
Definition ValidatorPeerHonestyDecreaseFactor : Z := -2.

Section Core.
Context {H B P2P : Type} `{HeaderHandler H}.

(** What a node sends to the others, or asks of its collaborators. *)
Inductive event :=
| EvBroadcast (m : Message)
| EvBroadcastHeader (h : H) (pk : bytes)
| EvBroadcastBlockData (h : H) (pk : bytes)
| EvPrepareHeaderValidator (h : H) (idx : Z) (pk : bytes)
| EvPrepareBlockDataValidator (h : option H) (idx : Z) (pk : bytes)
| EvChangeScore (pk : bytes) (factor : Z)
| EvBlacklist (peer : bytes)
| EvProcessBlock (h : H) (b : B)
| EvScheduled (h : H) (b : B)
| EvCommitBlock (h : H) (b : option B)
| EvWaitAllSignatures
| EvSignatureSent (pk : bytes)
| EvStartRound
| EvExecuteStoredMessages
| EvResetConsensusMessages
| EvRoundWithoutMessage (pk : bytes)
| EvAdjustInactivity.

Record srState := mkSrState {
  cns : ConsensusState H B P2P;
  holder : signatureHolderData;
  trace : list event;
}.

(** The collaborators, as they answer during one call of a subround. *)
Record ConsensusCore := mkCore {
  roundIndex : Z;
  roundIndexAfter : Z;
  roundTimeStamp : Z;
  TimeDuration : Z;
  RemainingTime : Z -> Z -> Z;
  processingThresholdPercentage : Z;
  IsRedundancyNode : bool;
  IsMainMachineActive : bool;
  IsKeyManagedByCurrentNode : bytes -> bool;
  GetAssociatedPid : bytes -> bytes;
  IsSynchronized : bool;
  GetCurrentBlockHeader : option H;
  GetCurrentBlockHeaderHash : slice;
  GetGenesisHeader : option H;
  GetGenesisHeaderHash : slice;
  SelfId : Z;
  ChainID : bytes;
  MegabyteSize : Z;
  coreComputeConsensusGroup : slice -> Z -> Z -> Z -> option (list bytes);
  CreateNewHeader : Z -> Z -> option H;
  CreateBlock : H -> option (H * B);
  DecodeBlockBody : slice -> option B;
  DecodeBlockHeader : slice -> option H;
  ProcessBlock : H -> B -> bool;
  CommitBlock : H -> option B -> bool;
  MarshalizedDataToBroadcast : option H -> option B -> bool;
  IsProcessedOKWithTimeout : bool;
  MarshalHeader : H -> option bytes;
  MarshalBody : B -> option bytes;
  Compute : bytes -> bytes;
  BroadcastConsensusMessage : Message -> bool;
  Deserialize : slice -> option (list P2P);
  Serialize : list P2P -> option bytes;
  MessageVerify : P2P -> bool;
  UnmarshalMessage : P2P -> option Message;
  PeerOf : P2P -> bytes;
  FallbackValidation : option H -> bool;
  signing : signEnv;
  headerSigVerifier : HeaderSigVerifier H;
}.

Variable core : ConsensusCore.

(** A function that returns a boolean: [throw b] is [return b]. *)
Abbreviation Returns := (SE srState bool bool).

Definition return_ {A} (b : bool) : SE srState bool A := throw b.

(** [if !cond \{ return false \}] *)
Definition require (cond : bool) : SE srState bool unit := if cond then ret tt else return_ false.

Definition outcome {E} (m : Returns) : SE srState E bool := fun st =>
  match m st with
  | (st', inl b) => (st', inr b)
  | (st', inr b) => (st', inr b)
  end.

(** The result of a call. *)
Definition run (m : Returns) (st : srState) : srState * bool :=
  match m st with (st', inl b) => (st', b) | (st', inr b) => (st', b) end.

Definition getCns {E} : SE srState E (ConsensusState H B P2P) := gets cns.

Definition modCns {E} (f : ConsensusState H B P2P -> ConsensusState H B P2P) : SE srState E unit :=
  modify (fun st => mkSrState (f (cns st)) (holder st) (trace st)).

Definition emit {E} (e : event) : SE srState E unit :=
  modify (fun st => mkSrState (cns st) (holder st) (trace st ++ [e])).

(** A call of the signing handler; [None] stands for its error. *)
Definition onHolder {E A} (m : SE signatureHolderData signErr A) : SE srState E (option A) := fun st =>
  match m (holder st) with
  | (sh, inl _) => (mkSrState (cns st) sh (trace st), inr None)
  | (sh, inr a) => (mkSrState (cns st) sh (trace st), inr (Some a))
  end.

(** [if err != nil \{ return false \}] *)
Definition okOr {E A} (r : E + A) : SE srState bool A :=
  match r with inl _ => return_ false | inr a => ret a end.

Definition someOr {A} (r : option A) : SE srState bool A :=
  match r with None => return_ false | Some a => ret a end.

Definition trySetJobDone (pk : bytes) (subroundId : Z) (value : bool) : SE srState sposErr unit :=
  let! c := getCns in
  match SetJobDone c pk subroundId value with
  | inl e => throw e
  | inr c' => modCns (fun _ => c')
  end.

Definition changeScore {E} (pk : bytes) (factor : Z) : SE srState E unit := emit (EvChangeScore pk factor).

(** ** subround.go *)

Definition ShouldConsiderSelfKeyInConsensus : bool :=
  let isMainMachine := negb (IsRedundancyNode core) in
  if isMainMachine then true else negb (IsMainMachineActive core).

Definition SelfIsLeader (c : ConsensusState H B P2P) : bool :=
  IsSelfLeaderInCurrentRound c || IsMultiKeyLeaderInCurrentRound (IsKeyManagedByCurrentNode core) c.

Definition SelfInGroup (c : ConsensusState H B P2P) : bool :=
  IsNodeInConsensusGroup c (SelfPubKey c) || IsMultiKeyInConsensusGroup (IsKeyManagedByCurrentNode core) c.

(** The call of the messenger is recorded whether it fails or not. *)
Definition broadcast (m : Message) : SE srState bool unit :=
  emit (EvBroadcast m) ;; require (BroadcastConsensusMessage core m).

(** Whether the round is out of its processing time. *)
Definition maxTime : Z := i64 (Z.quot (i64 (TimeDuration core * processingThresholdPercentage core)) 100).

(** ** initConsensusThreshold of blsSubroundsFactory.go *)
Definition initConsensusThreshold (c : ConsensusState H B P2P) : ConsensusState H B P2P :=
  let pBFTThreshold := GetPBFTThreshold (headerSigVerifier core) (ConsensusGroupSize c) in
  let pBFTFallbackThreshold := GetPBFTFallbackThreshold (headerSigVerifier core) (ConsensusGroupSize c) in
  let c := SetThreshold SrBlock 1 c in
  let c := SetThreshold SrSignature pBFTThreshold c in
  let c := SetFallbackThreshold SrBlock 1 c in
  SetFallbackThreshold SrSignature pBFTFallbackThreshold c.
End Core.
Arguments event : clear implicits.
Arguments srState : clear implicits.
Arguments ConsensusCore : clear implicits.
Arguments getCns {H B P2P E} /.
