(* ===== verification/SubroundBlock.v ===== *)
(** * The start-round and block subrounds: consensus/spos/bls/subroundStartRound.go and
    subroundBlock.go. *)

From stdpp Require Import base list gmap.
From Stdlib Require Import ZArith Lia.
From S2P Require Import Prelude Bitmap ConsensusState HeaderHandler HeaderCheck SigningHandler.
From S2P Require Import SubroundCore.

Section Block.
Context {H B P2P : Type} `{HeaderHandler H}.
Variable core : ConsensusCore H B P2P.
Notation St := (srState H B P2P).
Notation "'Run' A" := (SE St bool A) (at level 10, A at level 9).
Notation managed := (IsKeyManagedByCurrentNode core).

(** ** Start round *)

Definition doStartRoundJob : Run bool :=
  modCns ResetConsensusState ;;
  modCns (set_RoundIndex (roundIndex core)) ;;
  modCns (set_RoundTimeStamp (roundTimeStamp core)) ;;
  emit EvResetConsensusMessages ;;
  return_ true.

Definition GetNextConsensusGroup (randomSource : slice) (round shardId epoch : Z) : option (list bytes) :=
  coreComputeConsensusGroup core randomSource round shardId epoch.

(** The header the group is drawn from. *)
Definition currentOrGenesis : option H :=
  match GetCurrentBlockHeader core with Some h => Some h | None => GetGenesisHeader core end.

Definition generateNextConsensusGroup : SE St sposErr unit :=
  let! c := getCns in
  match currentOrGenesis with
  | None => throw ErrNilHeader
  | Some currentHeader =>
      match GetNextConsensusGroup (GetRandSeed currentHeader) (u64 (RoundIndex c)) (SelfId core)
              (GetEpoch currentHeader) with
      | None => throw ErrOther
      | Some nextConsensusGroup => modCns (SetConsensusGroup nextConsensusGroup)
      end
  end.

(** The number of keys managed by the node, which goes to the metrics; the rounds without
    messages of every key are counted on the way. *)
Fixpoint computeNumManagedKeysInConsensusGroup (pubKeys : list bytes) (n : Z) : Run Z :=
  match pubKeys with
  | [] => ret n
  | pk :: pubKeys =>
      emit (EvRoundWithoutMessage pk) ;;
      computeNumManagedKeysInConsensusGroup pubKeys (if managed pk then n + 1 else n)
  end.

(** [sr.RoundCanceled = true; return false] *)
Definition cancelRound {A} : Run A := modCns (set_RoundCanceled true) ;; return_ false.

(** The metrics and the indexing of the round are left out. *)
Definition initCurrentRound : Run bool :=
  require (IsSynchronized core) ;;
  onErr generateNextConsensusGroup (fun _ => cancelRound) ;;
  (if IsRedundancyNode core then emit EvAdjustInactivity else ret tt) ;;
  let! c := getCns in
  match GetLeader c with
  | inl _ => cancelRound
  | inr leader =>
      emit EvStartRound ;;
      let! numMultiKeysInConsensusGroup := computeNumManagedKeysInConsensusGroup (ConsensusGroup c) 0 in
      let! reset := onHolder (Reset (consensusGroup (roundConsensusOf c))) in
      match reset with
      | None => cancelRound
      | Some _ =>
          if RemainingTime core (RoundTimeStamp c) (maxTime core) <? 0 then cancelRound
          else
            modCns (SetStatus SrStartRound SsFinished) ;;
            emit EvExecuteStoredMessages ;;
            return_ true
      end
  end.

Definition doStartRoundConsensusCheck : Run bool :=
  let! c := getCns in
  if RoundCanceled c then return_ false
  else if IsSubroundFinished c SrStartRound then return_ true
  else initCurrentRound.

Definition changeEpoch (epochNodes : gset bytes) (c : ConsensusState H B P2P) : ConsensusState H B P2P :=
  SetEligibleList epochNodes c.

(** ** The proposal of a block *)

Definition maxAllowedSizeInBytes : Z := u32 (MegabyteSize core * 95 / 100).

Definition couldBeSentTogether (marshalizedBody marshalizedHeader : bytes) : bool :=
  u32 (blen marshalizedBody + blen marshalizedHeader) <=? maxAllowedSizeInBytes.

Definition getRoundInLastCommittedBlock : Z :=
  match GetCurrentBlockHeader core with None => 0 | Some h => i64 (GetRound h) end.

Definition blockMessage (headerHash body header : slice) (leader : bytes) (msg : Z) : Message :=
  NewConsensusMessage headerHash None body header leader None msg (roundIndex core) (Some (ChainID core))
    None None None (GetAssociatedPid core leader) None.

(** The nonce, the previous hash and the previous random seed. *)
Definition headerOrigin : option (Z * slice * slice) :=
  match GetCurrentBlockHeader core, GetGenesisHeader core with
  | Some h, _ => Some (u64 (GetNonce h + 1), GetCurrentBlockHeaderHash core, GetRandSeed h)
  | None, Some g => Some (u64 (GetNonce g + 1), GetGenesisHeaderHash core, GetRandSeed g)
  | None, None => None
  end.

Definition createHeader : Run H :=
  let! (nonce, prevHash, prevRandSeed) := someOr headerOrigin in
  let! hdr := someOr (CreateNewHeader core (u64 (roundIndex core)) nonce) in
  let! hdr := someOr (SetPrevHash hdr prevHash) in
  let! c := getCns in
  let! leader := okOr (GetLeader c) in
  let! randSeed := okOr (CreateSignatureForPublicKey (signing core) prevRandSeed leader) in
  let! hdr := someOr (SetShardID hdr (SelfId core)) in
  let! hdr := someOr (SetTimeStamp hdr (u64 (roundTimeStamp core))) in
  let! hdr := someOr (SetPrevRandSeed hdr prevRandSeed) in
  let! hdr := someOr (SetRandSeed hdr (Some randSeed)) in
  someOr (SetChainID hdr (ChainID core)).

(** [sr.Data = headerHash], [sr.Body = body], [sr.Header = header] *)
Definition putData {E} (headerHash : slice) : SE St E unit := modCns (set_Data headerHash).
Definition putBody {E} (body : option B) : SE St E unit := modCns (set_Body body).
Definition putHeader {E} (header : option H) : SE St E unit := modCns (set_Header header).

Definition sendHeaderAndBlockBody (header : H) (body : B) (marshalizedBody marshalizedHeader : bytes) : Run bool :=
  let headerHash := Some (Compute core marshalizedHeader) in
  let! c := getCns in
  let! leader := okOr (GetLeader c) in
  broadcast core (blockMessage headerHash (Some marshalizedBody) (Some marshalizedHeader) leader MtBlockBodyAndHeader) ;;
  putData headerHash ;;
  putBody (Some body) ;;
  putHeader (Some header) ;;
  return_ true.

Definition sendBlockBody (body : B) (marshalizedBody : bytes) : Run bool :=
  let! c := getCns in
  let! leader := okOr (GetLeader c) in
  broadcast core (blockMessage None (Some marshalizedBody) None leader MtBlockBody) ;;
  putBody (Some body) ;;
  return_ true.

Definition sendBlockHeader (header : H) (marshalizedHeader : bytes) : Run bool :=
  let headerHash := Some (Compute core marshalizedHeader) in
  let! c := getCns in
  let! leader := okOr (GetLeader c) in
  broadcast core (blockMessage headerHash None (Some marshalizedHeader) leader MtBlockHeader) ;;
  putData headerHash ;;
  putHeader (Some header) ;;
  return_ true.

Definition sendBlock (header : H) (body : B) : Run bool :=
  let! marshalizedBody := someOr (MarshalBody core body) in
  let! marshalizedHeader := someOr (MarshalHeader core header) in
  if couldBeSentTogether marshalizedBody marshalizedHeader then
    sendHeaderAndBlockBody header body marshalizedBody marshalizedHeader
  else
    let! okBody := outcome (sendBlockBody body marshalizedBody) in
    require okBody ;;
    let! okHeader := outcome (sendBlockHeader header marshalizedHeader) in
    require okHeader ;;
    return_ true.

Definition doBlockJob : Run bool :=
  let! c := getCns in
  let isSelfLeader := IsSelfLeaderInCurrentRound c && ShouldConsiderSelfKeyInConsensus core in
  require (isSelfLeader || IsMultiKeyLeaderInCurrentRound managed c) ;;
  require (getRoundInLastCommittedBlock <? roundIndex core) ;;
  require (negb (IsLeaderJobDone c SrBlock)) ;;
  require (negb (IsSubroundFinished c SrBlock)) ;;
  let! header := createHeader in
  let! (header, body) := someOr (CreateBlock core header) in
  let! sentWithSuccess := outcome (sendBlock header body) in
  require sentWithSuccess ;;
  let! c := getCns in
  let! leader := okOr (GetLeader c) in
  onErr (trySetJobDone leader SrBlock true) (fun _ => return_ false) ;;
  emit (EvScheduled header body) ;;
  return_ true.

(** ** The reception of a block *)

(** The part that runs while the block is marked as being processed. *)
Definition processMarkedBlock (cnsDta : Message) (header : H) (body : B) : Run bool :=
  let! c := getCns in
  let node := mPubKey cnsDta in
  require (negb (ExtendedCalled c || (mRoundIndex cnsDta <? roundIndex core))) ;;
  emit (EvProcessBlock header body) ;;
  let ok := ProcessBlock core header body in
  require (negb (mRoundIndex cnsDta <? roundIndexAfter core)) ;;
  (if negb ok then cancelRound else ret tt) ;;
  onErr (trySetJobDone node SrBlock true) (fun _ => return_ false) ;;
  emit (EvScheduled header body) ;;
  return_ true.

Definition processReceivedBlock (cnsDta : Message) : Run bool :=
  let! c := getCns in
  let! body := someOr (Body c) in
  let! header := someOr (Header c) in
  modCns (SetProcessingBlock true) ;;
  let! ok := outcome (processMarkedBlock cnsDta header body) in
  modCns (SetProcessingBlock false) ;;
  return_ ok.

Definition isInvalidHeaderOrData (c : ConsensusState H B P2P) : bool :=
  match Data c, Header c with
  | Some _, Some header => negb (CheckFieldsForNil header)
  | _, _ => true
  end.

(** Only the leader of the round may send. *)
Definition requireLeader (c : ConsensusState H B P2P) (node : bytes) : Run unit :=
  if negb (IsNodeLeaderInCurrentRound c node) then
    changeScore node LeaderPeerHonestyDecreaseFactor ;; return_ false
  else ret tt.

(** The score of the leader goes up whatever the outcome of the processing. *)
Definition processAndScore (cnsDta : Message) : Run bool :=
  let! blockProcessedWithSuccess := outcome (processReceivedBlock cnsDta) in
  changeScore (mPubKey cnsDta) LeaderPeerHonestyIncreaseFactor ;;
  return_ blockProcessedWithSuccess.

Definition receivedBlockBodyAndHeader (cnsDta : Message) : Run bool :=
  let node := mPubKey cnsDta in
  let! c := getCns in
  require (negb (IsConsensusDataSet c)) ;;
  requireLeader c node ;;
  require (negb (IsBlockBodyAlreadyReceived c)) ;;
  require (negb (IsHeaderAlreadyReceived c)) ;;
  require (CanProcessReceivedMessage c node (mRoundIndex cnsDta) (roundIndex core) SrBlock) ;;
  putData (BlockHeaderHash cnsDta) ;;
  putBody (DecodeBlockBody core (mBody cnsDta)) ;;
  putHeader (DecodeBlockHeader core (mHeader cnsDta)) ;;
  let! c := getCns in
  require (IsBlockBodyAlreadyReceived c && negb (isInvalidHeaderOrData c)) ;;
  processAndScore cnsDta.

Definition receivedBlockBody (cnsDta : Message) : Run bool :=
  let node := mPubKey cnsDta in
  let! c := getCns in
  requireLeader c node ;;
  require (negb (IsBlockBodyAlreadyReceived c)) ;;
  require (CanProcessReceivedMessage c node (mRoundIndex cnsDta) (roundIndex core) SrBlock) ;;
  putBody (DecodeBlockBody core (mBody cnsDta)) ;;
  let! c := getCns in
  require (IsBlockBodyAlreadyReceived c) ;;
  processAndScore cnsDta.

Definition receivedBlockHeader (cnsDta : Message) : Run bool :=
  let node := mPubKey cnsDta in
  let! c := getCns in
  require (negb (IsConsensusDataSet c)) ;;
  requireLeader c node ;;
  require (negb (IsHeaderAlreadyReceived c)) ;;
  require (CanProcessReceivedMessage c node (mRoundIndex cnsDta) (roundIndex core) SrBlock) ;;
  putData (BlockHeaderHash cnsDta) ;;
  putHeader (DecodeBlockHeader core (mHeader cnsDta)) ;;
  let! c := getCns in
  require (negb (isInvalidHeaderOrData c)) ;;
  processAndScore cnsDta.

Definition isBlockReceived (c : ConsensusState H B P2P) (threshold : Z) : bool :=
  let n := fold_left (fun n node => if IsJobDone c node SrBlock then n + 1 else n) (ConsensusGroup c) 0 in
  threshold <=? n.

Definition doBlockConsensusCheck : Run bool :=
  let! c := getCns in
  if RoundCanceled c then return_ false
  else if IsSubroundFinished c SrBlock then return_ true
  else
    let threshold := Threshold c SrBlock in
    if isBlockReceived c threshold then modCns (SetStatus SrBlock SsFinished) ;; return_ true
    else return_ false.
End Block.
