(* ===== verification/SubroundSignature.v ===== *)
(** * The signature subround: consensus/spos/bls/subroundSignature.go. *)

From stdpp Require Import base list gmap.
From Stdlib Require Import ZArith Lia.
From S2P Require Import Prelude Bitmap ConsensusState HeaderHandler HeaderCheck SigningHandler.
From S2P Require Import SubroundCore.

Section Signature.
Context {H B P2P : Type} `{HeaderHandler H}.
Variable core : ConsensusCore H B P2P.
Notation St := (srState H B P2P).
Notation "'Run' A" := (SE St bool A) (at level 10, A at level 9).
Notation managed := (IsKeyManagedByCurrentNode core).

Definition signatureMessage (c : ConsensusState H B P2P) (signatureShare : slice) (pkBytes : bytes) : Message :=
  NewConsensusMessage (Data c) signatureShare None None pkBytes None MtSignature (roundIndex core)
    (Some (ChainID core)) None None None (GetAssociatedPid core pkBytes) None.

Definition createAndSendSignatureMessage (signatureShare : slice) (pkBytes : bytes) : Run bool :=
  let! c := getCns in
  broadcast core (signatureMessage c signatureShare pkBytes) ;;
  return_ true.

(** The wait is done by another goroutine: see [waitAllSignatures]. *)
Definition completeSignatureSubRound (pk : bytes) (shouldWaitForAllSigsAsync : bool) : Run bool :=
  onErr (trySetJobDone pk SrSignature true) (fun _ => return_ false) ;;
  (if shouldWaitForAllSigsAsync then emit EvWaitAllSignatures else ret tt) ;;
  return_ true.

(** The end of the wait: the channel that wakes the subround up is left out. *)
Definition waitAllSignatures (c : ConsensusState H B P2P) : ConsensusState H B P2P :=
  if IsSubroundFinished c SrSignature then c else set_WaitingAllSignaturesTimeOut true c.

(** One round of the loop over the consensus group; doSignatureJob has checked that the
    header is there. *)
Definition signManagedKey (isMultiKeyLeader : bool) (idx : Z) (pk : bytes) : Run unit :=
  let! c := getCns in
  if IsJobDone c pk SrSignature then ret tt
  else if negb (managed pk) then ret tt
  else
    match ConsensusGroupIndex c pk, Header c with
    | inl _, _ => ret tt
    | inr _, None => ret tt
    | inr selfIndex, Some header =>
        let! signatureShare := onHolder (CreateSignatureShareForPublicKey (signing core) (Data c)
          (u16 selfIndex) (GetEpoch header) pk) in
        let! signatureShare := someOr signatureShare in
        (if negb isMultiKeyLeader then
           let! ok := outcome (createAndSendSignatureMessage (Some signatureShare) pk) in require ok
         else ret tt) ;;
        emit (EvSignatureSent pk) ;;
        let isLeader := idx =? 0 in
        let! ok := outcome (completeSignatureSubRound pk isLeader) in
        require ok
    end.

Fixpoint managedKeysLoop (isMultiKeyLeader : bool) (idx : Z) (pubKeys : list bytes) : Run unit :=
  match pubKeys with
  | [] => ret tt
  | pk :: pubKeys => signManagedKey isMultiKeyLeader idx pk ;; managedKeysLoop isMultiKeyLeader (idx + 1) pubKeys
  end.

Definition doSignatureJobForManagedKeys : Run bool :=
  let! c := getCns in
  let isMultiKeyLeader := IsMultiKeyLeaderInCurrentRound managed c in
  managedKeysLoop isMultiKeyLeader 0 (ConsensusGroup c) ;;
  return_ true.

(** The signature with the key of the node itself. *)
Definition signSelf (header : H) (isSelfLeader : bool) : Run unit :=
  let! c := getCns in
  let! selfIndex := okOr (SelfConsensusGroupIndex c) in
  let! signatureShare := onHolder (CreateSignatureShareForPublicKey (signing core) (Data c) (u16 selfIndex)
    (GetEpoch header) (SelfPubKey c)) in
  let! signatureShare := someOr signatureShare in
  (if negb isSelfLeader then
     let! ok := outcome (createAndSendSignatureMessage (Some signatureShare) (SelfPubKey c)) in require ok
   else ret tt) ;;
  let! ok := outcome (completeSignatureSubRound (SelfPubKey c) isSelfLeader) in
  require ok.

Definition doSignatureJob : Run bool :=
  let! c := getCns in
  require (CanDoSubroundJob managed c SrSignature) ;;
  let! header := someOr (Header c) in
  let isSelfLeader := IsSelfLeaderInCurrentRound c && ShouldConsiderSelfKeyInConsensus core in
  let isSelfInConsensusGroup :=
    IsNodeInConsensusGroup c (SelfPubKey c) && ShouldConsiderSelfKeyInConsensus core in
  (if isSelfLeader || isSelfInConsensusGroup then signSelf header isSelfLeader else ret tt) ;;
  doSignatureJobForManagedKeys.

Definition receivedSignature (cnsDta : Message) : Run bool :=
  let node := mPubKey cnsDta in
  let! c := getCns in
  require (IsConsensusDataSet c) ;;
  (if negb (IsNodeInConsensusGroup c node) then
     changeScore node ValidatorPeerHonestyDecreaseFactor ;; return_ false
   else ret tt) ;;
  require (SelfIsLeader core c) ;;
  require (IsConsensusDataEqual c (BlockHeaderHash cnsDta)) ;;
  require (CanProcessReceivedMessage c node (mRoundIndex cnsDta) (roundIndex core) SrSignature) ;;
  let! index := okOr (ConsensusGroupIndex c node) in
  let! stored := onHolder (StoreSignatureShare (u16 index) (mSignatureShare cnsDta)) in
  let! _ := someOr stored in
  onErr (trySetJobDone node SrSignature true) (fun _ => return_ false) ;;
  changeScore node ValidatorPeerHonestyIncreaseFactor ;;
  return_ true.

Definition getNumOfSignaturesCollected (c : ConsensusState H B P2P) : Z :=
  fold_left (fun n node => if IsJobDone c node SrSignature then n + 1 else n) (ConsensusGroup c) 0.

Definition areSignaturesCollected (c : ConsensusState H B P2P) (threshold : Z) : bool * Z :=
  let n := getNumOfSignaturesCollected c in (threshold <=? n, n).

Definition doSignatureConsensusCheck : Run bool :=
  let! c := getCns in
  if RoundCanceled c then return_ false
  else if IsSubroundFinished c SrSignature then return_ true
  else
    let isSelfLeader := SelfIsLeader core c in
    let isSelfInConsensusGroup := SelfInGroup core c in
    let threshold :=
      if FallbackValidation core (Header c) then FallbackThreshold c SrSignature else Threshold c SrSignature in
    let (areSignaturesCollected, numSigs) := areSignaturesCollected c threshold in
    let areAllSignaturesCollected := numSigs =? ConsensusGroupSize c in
    let isJobDoneByLeader := isSelfLeader &&
      (areAllSignaturesCollected || (areSignaturesCollected && WaitingAllSignaturesTimeOut c)) in
    let selfJobDone :=
      if IsNodeInConsensusGroup c (SelfPubKey c) then IsSelfJobDone c SrSignature else true in
    let multiKeyJobDone :=
      if IsMultiKeyInConsensusGroup managed c then IsMultiKeyJobDone managed c SrSignature else true in
    let isJobDoneByConsensusNode :=
      negb isSelfLeader && isSelfInConsensusGroup && selfJobDone && multiKeyJobDone in
    let isSubroundFinished := negb isSelfInConsensusGroup || isJobDoneByConsensusNode || isJobDoneByLeader in
    if isSubroundFinished then modCns (SetStatus SrSignature SsFinished) ;; return_ true
    else return_ false.
End Signature.
