(* ===== verification/SubroundEndRound.v ===== *)
(** * The end-round subround: consensus/spos/bls/subroundEndRound.go. *)

From stdpp Require Import base list gmap.
From Stdlib Require Import ZArith Lia.
From S2P Require Import Prelude Bitmap ConsensusState HeaderHandler HeaderCheck SigningHandler.
From S2P Require Import SubroundCore.

Section EndRound.
Context {H B P2P : Type} `{HeaderHandler H}.
Variable core : ConsensusCore H B P2P.
Notation St := (srState H B P2P).
Notation "'Run' A" := (SE St bool A) (at level 10, A at level 9).
Notation "'Try' A" := (SE St sposErr A) (at level 10, A at level 9).
Notation managed := (IsKeyManagedByCurrentNode core).

Definition getHolder {E} : SE St E signatureHolderData := gets (@holder H B P2P).

Definition signing_ {A} (r : signErr + A) : Try A :=
  match r with inl _ => throw ErrSigning | inr a => ret a end.

Definition needHeader (c : ConsensusState H B P2P) : Try H :=
  match Header c with None => throw ErrNilHeader | Some h => ret h end.

Definition setter (r : option H) : Run H := someOr r.

(** [sr.Header = header] *)
Definition putHeader {E} (h : H) : SE St E unit := modCns (set_Header (Some h)).

(** ** The signatures collected *)

Fixpoint allSigned (c : ConsensusState H B P2P) (signers : list bytes) : sposErr + unit :=
  match signers with
  | [] => inr tt
  | pubKey :: signers =>
      let? isSigJobDone := JobDone c pubKey SrSignature in
      if negb isSigJobDone then inl ErrNilSignature else allSigned c signers
  end.

Definition checkSignaturesValidity (c : ConsensusState H B P2P) (bitmap : bytes) : sposErr + unit :=
  allSigned c (ComputeSignersPublicKeys (ConsensusGroup c) bitmap).

(** One round of the loop: whether the key gave an invalid signature. *)
Definition verifyNode (header : H) (i : Z) (pk : bytes) : Try bool :=
  let! c := getCns in
  let! sh := getHolder in
  if negb (IsJobDone c pk SrSignature) then ret false
  else
    let! sigShare := signing_ (SignatureShare sh (u16 i)) in
    match VerifySignatureShare (signing core) sh (u16 i) sigShare (Data c) (GetEpoch header) with
    | inr _ => ret false
    | inl _ =>
        trySetJobDone pk SrSignature false ;;
        let decreaseFactor := - ValidatorPeerHonestyIncreaseFactor + ValidatorPeerHonestyDecreaseFactor in
        changeScore pk decreaseFactor ;;
        ret true
    end.

Fixpoint verifyNodesLoop (header : H) (i : Z) (pubKeys invalidPubKeys : list bytes) : Try (list bytes) :=
  match pubKeys with
  | [] => ret invalidPubKeys
  | pk :: pubKeys =>
      let! isInvalid := verifyNode header i pk in
      verifyNodesLoop header (i + 1) pubKeys (if isInvalid then invalidPubKeys ++ [pk] else invalidPubKeys)
  end.

Definition verifyNodesOnAggSigFail : Try (list bytes) :=
  let! c := getCns in
  let! header := needHeader c in
  verifyNodesLoop header 0 (ConsensusGroup c) [].

Definition getFullMessagesForInvalidSigners (invalidPubKeys : list bytes) : Try slice :=
  let! c := getCns in
  match Serialize core (omap (GetMessageWithSignature c) invalidPubKeys) with
  | None => throw ErrOther
  | Some invalidSigners => ret (Some invalidSigners)
  end.

Definition createAndBroadcastInvalidSigners (invalidSigners : slice) : Try unit :=
  let! c := getCns in
  let isSelfLeader := IsSelfLeaderInCurrentRound c && ShouldConsiderSelfKeyInConsensus core in
  if negb (isSelfLeader || IsMultiKeyLeaderInCurrentRound managed c) then ret tt
  else
    match GetLeader c with
    | inl _ => ret tt
    | inr leader =>
        emit (EvBroadcast (NewConsensusMessage (Data c) None None None leader None MtInvalidSigners
          (roundIndex core) (Some (ChainID core)) None None None (GetAssociatedPid core leader) invalidSigners))
    end.

Definition computeAggSigOnValidNodes : Try (bytes * bytes) :=
  let! c := getCns in
  let threshold := Threshold c SrEndRound in
  let numValidSigShares := ComputeSize c SrSignature in
  let! header := needHeader c in
  if numValidSigShares <? threshold then throw ErrInvalidNumSigShares
  else
    let bitmap := GenerateBitmap c SrSignature in
    let! _ := liftR (checkSignaturesValidity c bitmap) in
    let! sh := getHolder in
    let! sig := signing_ (AggregateSigs (signing core) sh (Some bitmap) (GetEpoch header)) in
    modify (fun st => mkSrState (cns st) (SetAggregatedSig (Some sig) (holder st)) (trace st)) ;;
    ret (bitmap, sig).

Definition handleInvalidSignersOnAggSigFail : Try (bytes * bytes) :=
  let! invalidPubKeys := verifyNodesOnAggSigFail in
  let! invalidSigners := getFullMessagesForInvalidSigners invalidPubKeys in
  (if 0 <? slen invalidSigners then createAndBroadcastInvalidSigners invalidSigners else ret tt) ;;
  computeAggSigOnValidNodes.

Definition aggregateSigsAndHandleInvalidSigners (header : H) (bitmap : bytes) : Try (bytes * bytes) :=
  let! sh := getHolder in
  match AggregateSigs (signing core) sh (Some bitmap) (GetEpoch header) with
  | inl _ => handleInvalidSignersOnAggSigFail
  | inr sig =>
      modify (fun st => mkSrState (cns st) (SetAggregatedSig (Some sig) (holder st)) (trace st)) ;;
      let! c := getCns in
      let! sh := getHolder in
      match Verify (signing core) sh (Data c) (Some bitmap) (GetEpoch header) with
      | inl _ => handleInvalidSignersOnAggSigFail
      | inr _ => ret (bitmap, sig)
      end
  end.

(** ** The leader *)

Definition signBlockHeader (c : ConsensusState H B P2P) (header : H) : option bytes :=
  match SetLeaderSignature header None with
  | None => None
  | Some headerClone =>
      match MarshalHeader core headerClone, GetLeader c with
      | Some marshalizedHdr, inr leader =>
          match CreateSignatureForPublicKey (signing core) (Some marshalizedHdr) leader with
          | inr sig => Some sig
          | inl _ => None
          end
      | _, _ => None
      end
  end.

Definition finalInfoMessage (c : ConsensusState H B P2P) (header : H) (leader : bytes) : Message :=
  NewConsensusMessage (Data c) None None None leader None MtBlockHeaderFinalInfo (roundIndex core)
    (Some (ChainID core)) (GetPubKeysBitmap header) (GetSignature header) (GetLeaderSignature header)
    (GetAssociatedPid core leader) None.

Definition createAndBroadcastHeaderFinalInfo (header : H) : Run unit :=
  let! c := getCns in
  match GetLeader c with
  | inl _ => ret tt
  | inr leader => emit (EvBroadcast (finalInfoMessage c header leader))
  end.

Definition broadcastBlockDataLeader (header : H) : Run unit :=
  let! c := getCns in
  if MarshalizedDataToBroadcast core (Some header) (Body c) then
    match GetLeader c with
    | inl _ => ret tt
    | inr leader => emit (EvBroadcastBlockData header leader)
    end
  else ret tt.

(** The signatures of the header; the header of the state is the one that is changed. *)
Definition completeHeader (header : H) (bitmap sig : bytes) : Run H :=
  let! header := setter (SetPubKeysBitmap header (Some bitmap)) in
  putHeader header ;;
  let! header := setter (SetSignature header (Some sig)) in
  putHeader header ;;
  let! c := getCns in
  let! leaderSignature := someOr (signBlockHeader c header) in
  let! header := setter (SetLeaderSignature header (Some leaderSignature)) in
  putHeader header ;;
  ret header.

Definition commit (header : H) : Run unit :=
  let! c := getCns in
  emit (EvCommitBlock header (Body c)) ;;
  require (CommitBlock core header (Body c)).

Definition doEndRoundJobByLeader : Run bool :=
  let! c := getCns in
  let bitmap := GenerateBitmap c SrSignature in
  let! _ := okOr (checkSignaturesValidity c bitmap) in
  let! header := someOr (Header c) in
  let! (bitmap, sig) := onErr (aggregateSigsAndHandleInvalidSigners header bitmap) (fun _ => return_ false) in
  let! header := completeHeader header bitmap sig in
  require (IsProcessedOKWithTimeout core) ;;
  require (negb (RemainingTime core (roundTimeStamp core) (TimeDuration core) <? 0)) ;;
  createAndBroadcastHeaderFinalInfo header ;;
  let! leader := okOr (GetLeader c) in
  emit (EvBroadcastHeader header leader) ;;
  commit header ;;
  modCns (SetStatus SrEndRound SsFinished) ;;
  broadcastBlockDataLeader header ;;
  return_ true.

(** ** The participants *)

(** The header with the signatures of the message. *)
Definition headerWithInfo (header : H) (cnsDta : Message) : option H :=
  match SetPubKeysBitmap header (mPubKeysBitmap cnsDta) with
  | None => None
  | Some header =>
      match SetSignature header (mAggregateSignature cnsDta) with
      | None => None
      | Some header => SetLeaderSignature header (mLeaderSignature cnsDta)
      end
  end.

Definition isBlockHeaderFinalInfoValid (c : ConsensusState H B P2P) (cnsDta : Message) : bool :=
  match Header c with
  | None => false
  | Some header =>
      match headerWithInfo header cnsDta with
      | None => false
      | Some header =>
          match VerifyLeaderSignature (headerSigVerifier core) header with
          | inl _ => false
          | inr _ =>
              match VerifySignature (headerSigVerifier core) header with inl _ => false | inr _ => true end
          end
      end
  end.

Definition withoutSigs (header : H) : option H :=
  match SetLeaderSignature header None with
  | None => None
  | Some header =>
      match SetPubKeysBitmap header None with
      | None => None
      | Some header => SetSignature header None
      end
  end.

Definition hashOf (header : H) : option bytes :=
  match MarshalHeader core header with None => None | Some b => Some (Compute core b) end.

Fixpoint findReceived (consensusHeaderHash : bytes) (receivedHeaders : list H) : option H :=
  match receivedHeaders with
  | [] => None
  | received :: receivedHeaders =>
      match withoutSigs received with
      | None => None
      | Some receivedHeader =>
          match hashOf receivedHeader with
          | None => None
          | Some receivedHeaderHash =>
              if beq receivedHeaderHash consensusHeaderHash then Some received
              else findReceived consensusHeaderHash receivedHeaders
          end
      end
  end.

Definition isConsensusHeaderReceived (c : ConsensusState H B P2P) : option H :=
  match Header c with
  | None => None
  | Some header =>
      match hashOf header with
      | None => None
      | Some consensusHeaderHash => findReceived consensusHeaderHash (receivedHeaders c)
      end
  end.

Definition haveConsensusHeaderWithFullInfo (c : ConsensusState H B P2P) (cnsDta : option Message) : option H :=
  match cnsDta with
  | None => isConsensusHeaderReceived c
  | Some cnsDta => match Header c with None => None | Some header => headerWithInfo header cnsDta end
  end.

Definition isOutOfTime : Run bool :=
  let! c := getCns in
  if RemainingTime core (RoundTimeStamp c) (maxTime core) <? 0 then modCns (set_RoundCanceled true) ;; ret true
  else ret false.

Definition getMinConsensusGroupIndexOfManagedKeys (c : ConsensusState H B P2P) : Z :=
  let minIdx := ConsensusGroupSize c in
  fst (fold_left (fun '(minIdx, idx) validator =>
    (if managed validator && (idx <? minIdx) then idx else minIdx, idx + 1)) (ConsensusGroup c) (minIdx, 0)).

(** The index and the key; the data to broadcast is that of the block processor. *)
Definition getIndexPkAndDataToBroadcast (c : ConsensusState H B P2P) : option (Z * bytes) :=
  let minIdx := getMinConsensusGroupIndexOfManagedKeys c in
  let minIdx := match SelfConsensusGroupIndex c with
                | inr idx => if idx <? minIdx then idx else minIdx
                | inl _ => minIdx
                end in
  if minIdx =? ConsensusGroupSize c then
    match SelfConsensusGroupIndex c with inl _ => None | inr _ => Some (-1, []) end
  else if negb (MarshalizedDataToBroadcast core (Header c) (Body c)) then None
  else match ConsensusGroup c !! Z.to_nat minIdx with Some pk => Some (minIdx, pk) | None => None end.

Definition setHeaderForValidator (header : H) : Run unit :=
  let! c := getCns in
  match getIndexPkAndDataToBroadcast c with
  | None => ret tt
  | Some (idx, pk) => emit (EvPrepareHeaderValidator header idx pk)
  end.

Definition prepareBroadcastBlockDataForValidator : Run unit :=
  let! c := getCns in
  match getIndexPkAndDataToBroadcast c with
  | None => ret tt
  | Some (idx, pk) => emit (EvPrepareBlockDataValidator (Header c) idx pk)
  end.

(** The part that runs while the block is marked as being processed. *)
Definition commitByParticipant (header : H) : Run bool :=
  let! c := getCns in
  require (negb (ExtendedCalled c || (i64 (GetRound header) <? roundIndex core))) ;;
  let! out := isOutOfTime in
  require (negb out) ;;
  require (IsProcessedOKWithTimeout core) ;;
  commit header ;;
  modCns (SetStatus SrEndRound SsFinished) ;;
  (if SelfInGroup core c then setHeaderForValidator header else ret tt) ;;
  return_ true.

Definition doEndRoundJobByParticipant (cnsDta : option Message) : Run bool :=
  let! c := getCns in
  require (negb (RoundCanceled c)) ;;
  require (IsConsensusDataSet c) ;;
  require (IsSubroundFinished c SrSignature) ;;
  require (negb (IsSubroundFinished c SrEndRound)) ;;
  let! header := someOr (haveConsensusHeaderWithFullInfo c cnsDta) in
  modCns (SetProcessingBlock true) ;;
  let! ok := outcome (commitByParticipant header) in
  modCns (SetProcessingBlock false) ;;
  return_ ok.

Definition receivedBlockHeaderFinalInfo (cnsDta : Message) : Run bool :=
  let node := mPubKey cnsDta in
  let! c := getCns in
  require (IsConsensusDataSet c) ;;
  (if negb (IsNodeLeaderInCurrentRound c node) then
     changeScore node LeaderPeerHonestyDecreaseFactor ;; return_ false
   else ret tt) ;;
  require (negb (SelfIsLeader core c)) ;;
  require (IsConsensusDataEqual c (BlockHeaderHash cnsDta)) ;;
  require (CanProcessReceivedMessage c node (mRoundIndex cnsDta) (roundIndex core) SrEndRound) ;;
  require (isBlockHeaderFinalInfoValid c cnsDta) ;;
  changeScore node LeaderPeerHonestyIncreaseFactor ;;
  doEndRoundJobByParticipant (Some cnsDta).

(** ** Invalid signers *)

Definition verifyInvalidSigner (msg : P2P) : Run unit :=
  require (MessageVerify core msg) ;;
  let! cnsMsg := someOr (UnmarshalMessage core msg) in
  match VerifySingleSignature (signing core) (mPubKey cnsMsg) (BlockHeaderHash cnsMsg) (mSignatureShare cnsMsg) with
  | inr _ => ret tt
  | inl _ => emit (EvBlacklist (PeerOf core msg))
  end.

Fixpoint verifyMessages (messages : list P2P) : Run unit :=
  match messages with
  | [] => ret tt
  | msg :: messages => verifyInvalidSigner msg ;; verifyMessages messages
  end.

Definition verifyInvalidSigners (invalidSigners : slice) : Run unit :=
  let! messages := someOr (Deserialize core invalidSigners) in
  verifyMessages messages.

Definition receivedInvalidSignersInfo (cnsDta : Message) : Run bool :=
  let messageSender := mPubKey cnsDta in
  let! c := getCns in
  require (IsConsensusDataSet c) ;;
  (if negb (IsNodeLeaderInCurrentRound c messageSender) then
     changeScore messageSender LeaderPeerHonestyDecreaseFactor ;; return_ false
   else ret tt) ;;
  require (negb (SelfIsLeader core c)) ;;
  require (IsConsensusDataEqual c (BlockHeaderHash cnsDta)) ;;
  require (CanProcessReceivedMessage c messageSender (mRoundIndex cnsDta) (roundIndex core) SrEndRound) ;;
  require (negb (slen (mInvalidSigners cnsDta) =? 0)) ;;
  verifyInvalidSigners (mInvalidSigners cnsDta) ;;
  changeScore messageSender LeaderPeerHonestyIncreaseFactor ;;
  return_ true.

(** ** The subround *)

Definition receivedHeader (headerHandler : H) : Run bool :=
  let! c := getCns in
  match consensusGroup (roundConsensusOf c) with
  | None => return_ false
  | Some _ =>
      require (negb (SelfIsLeader core c)) ;;
      modCns (AddReceivedHeader headerHandler) ;;
      doEndRoundJobByParticipant None
  end.

Definition doEndRoundJob : Run bool :=
  let! c := getCns in
  if negb (SelfIsLeader core c) then
    (if SelfInGroup core c then prepareBroadcastBlockDataForValidator else ret tt) ;;
    doEndRoundJobByParticipant None
  else doEndRoundJobByLeader.

Definition doEndRoundConsensusCheck : Run bool :=
  let! c := getCns in
  if RoundCanceled c then return_ false
  else if IsSubroundFinished c SrEndRound then return_ true
  else return_ false.
End EndRound.
