(* ===== verification/SubroundRound.v ===== *)
(** * A round of a node: the messages it handles, the jobs and checks of its subrounds,
    and the passing of time (consensus/spos/worker.go, consensus/spos/bls/blsWorker.go
    and blsSubroundsFactory.go). *)

From stdpp Require Import base list gmap.
From Stdlib Require Import ZArith Lia.
From S2P Require Import Prelude Bitmap ConsensusState HeaderHandler HeaderCheck SigningHandler.
From S2P Require Import SubroundCore SubroundBlock SubroundSignature SubroundEndRound.

Section Round.
Context {H B P2P : Type} `{HeaderHandler H}.
Notation St := (srState H B P2P).

(** ** The worker *)

(** checkSelfState: the messages of the keys of the node itself are not handled, nor
    those of a canceled round. *)
Definition checkSelfState (managed : bytes -> bool) (c : ConsensusState H B P2P) (cnsDta : Message) : bool :=
  if beq (SelfPubKey c) (mPubKey cnsDta) || managed (mPubKey cnsDta) then false
  else if RoundCanceled c && (RoundIndex c =? mRoundIndex cnsDta) then false
  else true.

(** The subrounds that have to be finished before a message is handled. *)
Definition CanProceed (c : ConsensusState H B P2P) (msgType : Z) : bool :=
  if (msgType =? MtBlockBodyAndHeader) || (msgType =? MtBlockBody) || (msgType =? MtBlockHeader) then
    IsSubroundFinished c SrStartRound
  else if msgType =? MtSignature then IsSubroundFinished c SrBlock
  else if (msgType =? MtBlockHeaderFinalInfo) || (msgType =? MtInvalidSigners) then
    IsSubroundFinished c SrSignature
  else false.

(** The handlers the factory registers. *)
Definition receivedMessageCall (core : ConsensusCore H B P2P) (cnsDta : Message) : SE St bool bool :=
  let t := mMsgType cnsDta in
  if t =? MtBlockBodyAndHeader then receivedBlockBodyAndHeader core cnsDta
  else if t =? MtBlockBody then receivedBlockBody core cnsDta
  else if t =? MtBlockHeader then receivedBlockHeader core cnsDta
  else if t =? MtSignature then receivedSignature core cnsDta
  else if t =? MtBlockHeaderFinalInfo then receivedBlockHeaderFinalInfo core cnsDta
  else if t =? MtInvalidSigners then receivedInvalidSignersInfo core cnsDta
  else return_ false.

(** Extend: the time of the subround is over (DoWork cancels the round first); the
    revert of the block in work is left to the block processor. *)
Definition Extend (c : ConsensusState H B P2P) : ConsensusState H B P2P :=
  set_ExtendedCalled true (set_RoundCanceled true c).

(** ** The subrounds *)

Inductive subround := StartRound | Block | Signature | EndRound.

Definition Job (core : ConsensusCore H B P2P) (sr : subround) : SE St bool bool :=
  match sr with
  | StartRound => doStartRoundJob core
  | Block => doBlockJob core
  | Signature => doSignatureJob core
  | EndRound => doEndRoundJob core
  end.

Definition Check_ (core : ConsensusCore H B P2P) (sr : subround) : SE St bool bool :=
  match sr with
  | StartRound => doStartRoundConsensusCheck core
  | Block => doBlockConsensusCheck
  | Signature => doSignatureConsensusCheck core
  | EndRound => doEndRoundConsensusCheck
  end.

Definition onState (f : ConsensusState H B P2P -> ConsensusState H B P2P) (st : St) : St :=
  mkSrState (f (cns st)) (holder st) (trace st).

(** ** The steps of a round

    Between the start of one round and that of the next, in any order: the messages
    that reach the handlers, the headers received, the jobs after the start and the
    checks, the timeouts.  The collaborators may answer differently at each step; the
    keys of the node stay the same. *)
Inductive roundStep (managed : bytes -> bool) : St -> St -> Prop :=
| step_message core st cnsDta :
    IsKeyManagedByCurrentNode core = managed -> checkSelfState managed (cns st) cnsDta = true ->
    roundStep managed st (fst (run (receivedMessageCall core cnsDta) st))
| step_header core st h :
    IsKeyManagedByCurrentNode core = managed ->
    roundStep managed st (fst (run (receivedHeader core h) st))
| step_job core st sr :
    IsKeyManagedByCurrentNode core = managed -> sr <> StartRound ->
    roundStep managed st (fst (run (Job core sr) st))
| step_check core st sr :
    IsKeyManagedByCurrentNode core = managed ->
    roundStep managed st (fst (run (Check_ core sr) st))
| step_allSignatures st : roundStep managed st (onState waitAllSignatures st)
| step_extend st : roundStep managed st (onState Extend st).

Definition roundSteps (managed : bytes -> bool) : St -> St -> Prop := rtc (roundStep managed).
End Round.
