(* ===== verification/ConsensusBitmap.v ===== *)
(** * What the bitmaps of a round say: the signers a bitmap selects, for the leader that
    builds it and for the nodes that verify it. *)

From stdpp Require Import base list gmap.
From Stdlib Require Import ZArith Lia ZifyBool.
From S2P Require Import Prelude Bitmap ConsensusState HeaderHandler HeaderCheck SigningHandler.

(** ** The elements a bitmap selects *)

Fixpoint pick {A} (bitmap : bytes) (l : list A) (i : Z) : list A :=
  match l with
  | [] => []
  | x :: l => if bitOf bitmap i then x :: pick bitmap l (i + 1) else pick bitmap l (i + 1)
  end.

Definition chosen {A} (bitmap : bytes) (l : list A) : list A := pick bitmap l 0.

(** No bit is set beyond the group. *)
Definition noPadding (n : Z) (bitmap : bytes) : Prop :=
  forall i, n <= i < 8 * blen bitmap -> bitOf bitmap i = false.

Lemma length_pick {A} bitmap (l : list A) i : 0 <= i ->
  length (pick bitmap l i) =
  length (filter (fun j => bitOf bitmap j = true) (seqZ i (Z.of_nat (length l)))).
Proof.
  revert i. induction l as [|x l IH]; intros i Hi; [done|]. cbn [pick length].
  rewrite Nat2Z.inj_succ, seqZ_cons by lia. replace (Z.pred (Z.succ (Z.of_nat (length l))))
    with (Z.of_nat (length l)) by lia. rewrite filter_cons. rewrite <- Z.add_1_r.
  specialize (IH (i + 1) ltac:(lia)). destruct (bitOf bitmap i); simpl; lia.
Qed.

Lemma filter_none_length {A} (P : A -> Prop) `{forall x, Decision (P x)} l :
  (forall x, x ∈ l -> ~ P x) -> length (filter P l) = 0%nat.
Proof.
  induction l as [|x l IH]; intros Hl; [done|]. rewrite filter_cons_False by (apply Hl; left).
  apply IH. intros y Hy. apply Hl. by right.
Qed.

(** The ones of a bitmap are the elements chosen and the padding. *)
Lemma onesOf_chosen {A} bitmap (l : list A) : Z.of_nat (length l) <= 8 * blen bitmap ->
  onesOf bitmap = Z.of_nat (length (chosen bitmap l)) +
    Z.of_nat (length (filter (fun j => bitOf bitmap j = true)
      (seqZ (Z.of_nat (length l)) (8 * blen bitmap - Z.of_nat (length l))))).
Proof.
  intros Hlen. rewrite onesOf_positions. unfold positions, chosen. rewrite length_pick by lia.
  fold (blen bitmap). replace (8 * blen bitmap)
    with (Z.of_nat (length l) + (8 * blen bitmap - Z.of_nat (length l))) at 1 by lia.
  rewrite seqZ_app by lia. rewrite filter_app, length_app. rewrite Z.add_0_l. lia.
Qed.

Lemma onesOf_noPadding {A} bitmap (l : list A) : Z.of_nat (length l) <= 8 * blen bitmap ->
  noPadding (Z.of_nat (length l)) bitmap -> onesOf bitmap = Z.of_nat (length (chosen bitmap l)).
Proof.
  intros Hlen Hpad. rewrite (onesOf_chosen bitmap l Hlen), filter_none_length; [lia|].
  intros j Hj%elem_of_seqZ. rewrite Hpad by lia. done.
Qed.

(** ** The verifying side *)

Lemma indexInBitmap_bit bitmap i : 0 <= i -> 8 * blen bitmap < 2 ^ 16 ->
  isIndexInBitmap i bitmap = inr tt <-> i < 8 * blen bitmap /\ bitOf bitmap i = true.
Proof.
  intros Hi Hlen. unfold isIndexInBitmap, u16. unfold blen in *. rewrite Z.mod_small by lia.
  destruct (Z.leb_spec (Z.of_nat (length bitmap) * 8) i); [split; [done|lia]|].
  rewrite maskAt_zero by done. destruct (bitOf bitmap i); simpl; split; try done; lia.
Qed.

Lemma bitOf_out bitmap i : 8 * blen bitmap <= i -> bitOf bitmap i = false.
Proof.
  intros Hi. unfold bitOf, byteAt. rewrite nth_overflow; [apply Z.testbit_0_l|].
  unfold blen in Hi. pose proof (Z.div_le_lower_bound i 8 (Z.of_nat (length bitmap)) ltac:(lia) ltac:(lia)). lia.
Qed.

Lemma signersLoop_pick pubKeys bitmap : forall i, 0 <= i -> 8 * blen bitmap < 2 ^ 16 ->
  i + Z.of_nat (length pubKeys) <= 2 ^ 16 -> signersLoop pubKeys i bitmap = pick bitmap pubKeys i.
Proof.
  induction pubKeys as [|pk pks IH]; intros i Hi Hb Hl; [done|]. cbn [signersLoop pick length] in *.
  rewrite (IH (i + 1)) by lia. unfold u16. rewrite Z.mod_small by lia.
  destruct (isIndexInBitmap i bitmap) as [e|[]] eqn:E.
  - destruct (bitOf bitmap i) eqn:Eb; [|done]. exfalso.
    assert (Hin : isIndexInBitmap i bitmap = inr tt); [|congruence].
    apply indexInBitmap_bit; [done|done|]. split; [|done].
    destruct (Z.lt_ge_cases i (8 * blen bitmap)); [done|]. rewrite bitOf_out in Eb by lia. done.
  - apply indexInBitmap_bit in E as [_ ->]; [|done..]. done.
Qed.

Lemma land_pos b k : 0 <= k -> (0 <? Z.land b (2 ^ k)) = Z.testbit b k.
Proof.
  intros Hk. destruct (Z.testbit b k) eqn:E.
  - apply Z.ltb_lt. assert (H0 : 0 <= Z.land b (2 ^ k)) by (apply Z.land_nonneg; right; apply Z.pow_nonneg; lia).
    destruct (Z.eq_dec (Z.land b (2 ^ k)) 0) as [Hz|]; [|lia].
    assert (Hb : Z.testbit (Z.land b (2 ^ k)) k = false) by (rewrite Hz; apply Z.bits_0).
    rewrite Z.land_spec, E, Z.pow2_bits_true in Hb by lia. done.
  - apply Z.ltb_ge. assert (Z.land b (2 ^ k) = 0) as ->; [|done].
    apply Z.bits_inj'. intros j Hj. rewrite Z.land_spec, Z.bits_0.
    destruct (Z.eq_dec j k) as [->|Hne]; [by rewrite E|]. rewrite Z.pow2_bits_false by lia. apply andb_false_r.
Qed.

Lemma omap_cons_eq {A C} (f : A -> option C) x l :
  omap f (x :: l) = match f x with Some y => y :: omap f l | None => omap f l end.
Proof. done. Qed.

Lemma pick_omap {A} bitmap (l : list A) : forall i, 0 <= i ->
  omap (fun j => if bitOf bitmap j then l !! Z.to_nat (j - i) else None) (seqZ i (Z.of_nat (length l)))
  = pick bitmap l i.
Proof.
  induction l as [|x l IH]; intros i Hi; [done|]. cbn [length pick].
  rewrite Nat2Z.inj_succ, seqZ_cons by lia. rewrite Z.pred_succ, <- Z.add_1_r.
  assert (Ht : omap (fun j => if bitOf bitmap j then (x :: l) !! Z.to_nat (j - i) else None)
    (seqZ (i + 1) (Z.of_nat (length l))) = pick bitmap l (i + 1)).
  { rewrite <- IH by lia. apply list_omap_ext. apply Forall_Forall2_diag, Forall_forall.
    intros j Hj%elem_of_seqZ. destruct (bitOf bitmap j); [|done].
    replace (Z.to_nat (j - i)) with (S (Z.to_nat (j - (i + 1)))) by lia. done. }
  rewrite omap_cons_eq, Ht, Z.sub_diag. by destruct (bitOf bitmap i).
Qed.

Lemma computeSigners_chosen consensusGroup bitmap :
  Z.of_nat (length consensusGroup) <= 8 * blen bitmap ->
  ComputeSignersPublicKeys consensusGroup bitmap = chosen bitmap consensusGroup.
Proof.
  intros Hlen. unfold ComputeSignersPublicKeys, chosen.
  rewrite (proj2 (Z.ltb_ge _ _)) by lia. rewrite <- (pick_omap bitmap consensusGroup 0) by lia.
  apply list_omap_ext, Forall_Forall2_diag, Forall_forall. intros j Hj%elem_of_seqZ.
  assert (Hu : u16 (j mod 8) = j mod 8).
  { pose proof (Z.mod_pos_bound j 8). apply Z.mod_small. lia. }
  rewrite Hu, bit_mask by lia. pose proof (Z.mod_pos_bound j 8). rewrite land_pos by lia.
  fold (bitOf bitmap j). by rewrite Z.sub_0_r.
Qed.

Lemma inBitmap_chosen {A} sh bitmap (l : list A) :
  Z.of_nat (length l) <= Z.of_nat (length (pubKeys sh)) < 2 ^ 16 ->
  inBitmap sh bitmap l = chosen bitmap l.
Proof.
  intros Hlen. unfold inBitmap, chosen.
  assert (Hi : forall (l' : list A) k, Z.of_nat (k + length l') <= Z.of_nat (length (pubKeys sh)) ->
    omap (fun '(i, a) => if shIndexInBitmap sh (u16 (Z.of_nat i)) bitmap then Some a else None)
      (imap (fun i a => ((k + i)%nat, a)) l') = pick bitmap l' (Z.of_nat k)).
  { induction l' as [|x l' IH]; intros k Hk; [done|]. cbn [length pick] in *.
    rewrite imap_cons, omap_cons_eq, Nat.add_0_r.
    assert (Hb : shIndexInBitmap sh (u16 (Z.of_nat k)) bitmap = bitOf bitmap (Z.of_nat k)).
    { unfold shIndexInBitmap, u16. rewrite !Z.mod_small by lia. rewrite (proj2 (Z.leb_gt _ _)) by lia.
      rewrite maskAt_zero by lia. apply negb_involutive. }
    rewrite Hb. rewrite (imap_ext _ (fun i a => ((S k + i)%nat, a))) by (intros; unfold compose; f_equal; lia).
    rewrite (IH (S k)) by lia. replace (Z.of_nat (S k)) with (Z.of_nat k + 1) by lia.
    by destruct (bitOf bitmap (Z.of_nat k)). }
  exact (Hi l 0%nat ltac:(lia)).
Qed.

(** ** The building side *)

Section Building.
Context {H B P2P : Type}.
Variable cns : ConsensusState H B P2P.
Variable subroundId : Z.

Notation done := (fun pk => IsJobDone cns pk subroundId = true).

Lemma length_bitmapLoop pks : forall i bm, length (bitmapLoop cns subroundId pks i bm) = length bm.
Proof.
  induction pks as [|pk pks IH]; intros i bm; [done|]. simpl. rewrite IH.
  destruct (IsJobDone _ _ _); [apply length_setBit|done].
Qed.

Lemma bitmapLoop_bit pks : forall i bm j, 0 <= i -> 0 <= j ->
  i + Z.of_nat (length pks) <= 8 * blen bm ->
  bitOf (bitmapLoop cns subroundId pks i bm) j =
  bitOf bm j || (if (i <=? j) && (j <? i + Z.of_nat (length pks)) then
    match pks !! Z.to_nat (j - i) with Some pk => IsJobDone cns pk subroundId | None => false end else false).
Proof.
  induction pks as [|pk pks IH]; intros i bm j Hi Hj Hlen; cbn [bitmapLoop length] in *.
  - destruct (_ && _); by rewrite orb_false_r.
  - unfold blen in *. assert (Hl : length (if IsJobDone cns pk subroundId then setBit bm i else bm) = length bm)
      by (destruct (IsJobDone _ _ _); [apply length_setBit|done]).
    rewrite IH by lia.
    assert (Hs : bitOf (if IsJobDone cns pk subroundId then setBit bm i else bm) j =
      bitOf bm j || (IsJobDone cns pk subroundId && (i =? j))).
    { destruct (IsJobDone cns pk subroundId); [|by rewrite orb_false_r].
      rewrite bitOf_setBit; [apply orb_comm|lia|lia|]. apply Z.div_lt_upper_bound; lia. }
    rewrite Hs, <- orb_assoc. f_equal. destruct (Z.eqb_spec i j) as [->|Hne].
    + replace (j + 1 <=? j) with false by lia. simpl. rewrite orb_false_r, andb_true_r.
      replace (j <=? j) with true by lia. replace (j <? j + Z.of_nat (S (length pks))) with true by lia.
      simpl. by rewrite Z.sub_diag.
    + rewrite andb_false_r. simpl. replace (i + 1 + Z.of_nat (length pks)) with (i + Z.of_nat (S (length pks))) by lia.
      destruct (Z.leb_spec i j).
      * replace (i + 1 <=? j) with true by lia. destruct (j <? _); [|done]. simpl.
        by replace (Z.to_nat (j - i)) with (S (Z.to_nat (j - (i + 1)))) by lia.
      * replace (i + 1 <=? j) with false by lia. done.
Qed.

Lemma blen_GenerateBitmap :
  blen (GenerateBitmap cns subroundId) = bitmapSize (Z.of_nat (length (ConsensusGroup cns))).
Proof.
  unfold blen, GenerateBitmap. rewrite length_bitmapLoop, repeat_length.
  pose proof (bitmapSize_bounds (Z.of_nat (length (ConsensusGroup cns)))). lia.
Qed.

(** The bit of a position says whether the job of its node is done. *)
Lemma GenerateBitmap_bit j : 0 <= j ->
  bitOf (GenerateBitmap cns subroundId) j =
  match ConsensusGroup cns !! Z.to_nat j with Some pk => IsJobDone cns pk subroundId | None => false end.
Proof.
  intros Hj. unfold GenerateBitmap. pose proof (bitmapSize_bounds (Z.of_nat (length (ConsensusGroup cns)))).
  rewrite bitmapLoop_bit; [|lia|lia|unfold blen; rewrite repeat_length; lia].
  rewrite bitOf_zeros, Z.sub_0_r, Z.add_0_l, orb_false_l. destruct (ConsensusGroup cns !! Z.to_nat j) as [pk|] eqn:E.
  - pose proof (lookup_lt_Some _ _ _ E). replace (0 <=? j) with true by lia.
    by replace (j <? Z.of_nat (length (ConsensusGroup cns))) with true by lia.
  - by destruct (_ && _).
Qed.

Lemma pick_done pks : forall i, 0 <= i ->
  (forall k pk, pks !! k = Some pk -> ConsensusGroup cns !! (Z.to_nat i + k)%nat = Some pk) ->
  pick (GenerateBitmap cns subroundId) pks i = filter done pks.
Proof.
  induction pks as [|pk pks IH]; intros i Hi Hg; [done|]. cbn [pick].
  rewrite GenerateBitmap_bit by done. pose proof (Hg 0%nat pk eq_refl) as H0. rewrite Nat.add_0_r in H0.
  rewrite H0, filter_cons. rewrite (IH (i + 1)); [|lia|].
  - by destruct (IsJobDone cns pk subroundId).
  - intros k pk' Hk. replace (Z.to_nat (i + 1) + k)%nat with (Z.to_nat i + S k)%nat by lia. by apply Hg.
Qed.

Lemma GenerateBitmap_chosen :
  chosen (GenerateBitmap cns subroundId) (ConsensusGroup cns) = filter done (ConsensusGroup cns).
Proof. by apply pick_done. Qed.

Lemma GenerateBitmap_noPadding :
  noPadding (Z.of_nat (length (ConsensusGroup cns))) (GenerateBitmap cns subroundId).
Proof. intros i Hi. rewrite GenerateBitmap_bit by lia. by rewrite lookup_ge_None_2 by lia. Qed.

Lemma ComputeSize_filter :
  ComputeSize cns subroundId = Z.of_nat (length (filter done (ConsensusGroup cns))).
Proof.
  unfold ComputeSize, rcComputeSize. fold (ConsensusGroup cns).
  assert (Hacc : forall l n, fold_left (fun n pk => if isDone (roundConsensusOf cns) subroundId pk then n + 1 else n) l n
    = n + Z.of_nat (length (filter done l))).
  { induction l as [|pk l IH]; intros n; [simpl; lia|]. simpl fold_left. rewrite IH, filter_cons.
    unfold IsJobDone, JobDone, isDone. destruct (rcJobDone _ _ _) as [e|[]]; simpl; lia. }
  by rewrite Hacc.
Qed.

Lemma onesOf_GenerateBitmap : onesOf (GenerateBitmap cns subroundId) = ComputeSize cns subroundId.
Proof.
  rewrite (onesOf_noPadding _ (ConsensusGroup cns)).
  - by rewrite GenerateBitmap_chosen, ComputeSize_filter.
  - rewrite blen_GenerateBitmap. pose proof (bitmapSize_bounds (Z.of_nat (length (ConsensusGroup cns)))). lia.
  - apply GenerateBitmap_noPadding.
Qed.
End Building.

(** ** Two quorums meet *)

Lemma picks_meet {A} (b1 b2 : bytes) (l : list A) : forall i,
  (length (pick b1 l i) + length (pick b2 l i) <=
   length l + length (filter (fun j => bitOf b1 j = true /\ bitOf b2 j = true) (seqZ i (Z.of_nat (length l)))))%nat.
Proof.
  induction l as [|x l IH]; intros i; [simpl; lia|]. cbn [pick length].
  rewrite Nat2Z.inj_succ, seqZ_cons by lia. rewrite Z.pred_succ, <- Z.add_1_r, filter_cons.
  specialize (IH (i + 1)). destruct (bitOf b1 i), (bitOf b2 i);
    destruct (decide _) as [[? ?]|Hn]; simpl; try done; try lia; exfalso; by apply Hn.
Qed.

(** The elements both choose. *)
Fixpoint common {A} (b1 b2 : bytes) (l : list A) (i : Z) : list A :=
  match l with
  | [] => []
  | x :: l => if bitOf b1 i && bitOf b2 i then x :: common b1 b2 l (i + 1) else common b1 b2 l (i + 1)
  end.

Lemma length_common {A} (b1 b2 : bytes) (l : list A) i :
  length (common b1 b2 l i) =
  length (filter (fun j => bitOf b1 j = true /\ bitOf b2 j = true) (seqZ i (Z.of_nat (length l)))).
Proof.
  revert i. induction l as [|x l IH]; intros i; [done|]. cbn [common length].
  rewrite Nat2Z.inj_succ, seqZ_cons by lia. rewrite Z.pred_succ, <- Z.add_1_r, filter_cons.
  specialize (IH (i + 1)). destruct (bitOf b1 i), (bitOf b2 i);
    destruct (decide _) as [[? ?]|Hn]; simpl; try done; try lia; exfalso; by apply Hn.
Qed.

Lemma common_sub {A} (b1 b2 : bytes) (l : list A) : forall i,
  common b1 b2 l i `sublist_of` pick b1 l i /\ common b1 b2 l i `sublist_of` pick b2 l i.
Proof.
  induction l as [|x l IH]; intros i; [done|]. cbn [common pick]. destruct (IH (i + 1)) as [H1 H2].
  destruct (bitOf b1 i), (bitOf b2 i); simpl; split; try done; by constructor.
Qed.

Lemma chosen_sub {A} b (l : list A) : chosen b l `sublist_of` l.
Proof.
  unfold chosen. generalize 0. induction l as [|x l IH]; intros i; [done|]. cbn [pick].
  destruct (bitOf b i); by constructor.
Qed.

Lemma quorums_meet {A} (b1 b2 : bytes) (l : list A) q1 q2 :
  q1 <= Z.of_nat (length (chosen b1 l)) -> q2 <= Z.of_nat (length (chosen b2 l)) ->
  exists k, k `sublist_of` chosen b1 l /\ k `sublist_of` chosen b2 l /\
    q1 + q2 - Z.of_nat (length l) <= Z.of_nat (length k).
Proof.
  intros H1 H2. exists (common b1 b2 l 0). destruct (common_sub b1 b2 l 0) as [C1 C2].
  split; [done|]. split; [done|]. pose proof (picks_meet b1 b2 l 0) as Hm. rewrite <- length_common in Hm.
  unfold chosen in *. lia.
Qed.
