(* ===== verification/ConsensusFinal.v ===== *)
(** * The end of a round: the final information of the leader is what the participants
    verify. *)

From stdpp Require Import base list gmap.
From Stdlib Require Import ZArith Lia ZifyBool.
From S2P Require Import Prelude Bitmap ConsensusState HeaderHandler HeaderCheck SigningHandler.
From S2P Require Import SubroundCore SubroundEndRound ConsensusBitmap.

Section Final.
Context {H B P2P : Type} `{HL : HeaderLaws H}.

(** ** Running the monad *)

Lemma run_bind {S E A C} (m : SE S E A) (f : A -> SE S E C) s :
  bind m f s = match m s with (s', inl e) => (s', inl e) | (s', inr a) => f a s' end.
Proof. done. Qed.

Lemma require_true (s : srState H B P2P) b : b = true -> require b s = (s, inr tt).
Proof. by intros ->. Qed.

Lemma bind_require {C} (b : bool) (f : unit -> SE (srState H B P2P) bool C) s :
  b = true -> bind (require b) f s = f tt s.
Proof. by intros ->. Qed.

Lemma bind_someOr {A C} (r : option A) a (f : A -> SE (srState H B P2P) bool C) s :
  r = Some a -> bind (someOr r) f s = f a s.
Proof. by intros ->. Qed.

Lemma bind_okOr {E A C} (r : E + A) a (f : A -> SE (srState H B P2P) bool C) s :
  r = inr a -> bind (okOr r) f s = f a s.
Proof. by intros ->. Qed.

(** ** The leader never doubts its own bitmap *)

Lemma allSigned_done (c : ConsensusState H B P2P) l :
  (forall pk, pk ∈ l -> IsJobDone c pk SrSignature = true) -> allSigned c l = inr tt.
Proof.
  induction l as [|pk l IH]; intros Hl; [done|]. simpl.
  pose proof (Hl pk ltac:(left)) as Hd. unfold IsJobDone in Hd.
  destruct (JobDone c pk SrSignature) as [e|[]]; simpl; try done. apply IH. intros k Hk. apply Hl. by right.
Qed.

Lemma checkSignatures_generated (c : ConsensusState H B P2P) :
  checkSignaturesValidity c (GenerateBitmap c SrSignature) = inr tt.
Proof.
  unfold checkSignaturesValidity. pose proof (bitmapSize_bounds (Z.of_nat (length (ConsensusGroup c)))).
  rewrite computeSigners_chosen by (rewrite blen_GenerateBitmap; lia).
  rewrite GenerateBitmap_chosen. apply allSigned_done. by intros pk [Hd _]%list_elem_of_filter.
Qed.

(** ** The signatures of a header *)

(** The leader's header with its signatures. *)
Lemma headerWithInfo_total (h : H) m : exists h', headerWithInfo h m = Some h' /\
  GetPubKeysBitmap h' = mPubKeysBitmap m /\ GetSignature h' = mAggregateSignature m /\
  GetLeaderSignature h' = mLeaderSignature m /\ unsigned h' = unsigned h /\
  GetEpoch h' = GetEpoch h /\ GetRound h' = GetRound h /\ GetShardID h' = GetShardID h /\
  GetPrevRandSeed h' = GetPrevRandSeed h /\ IsStartOfEpochBlock h' = IsStartOfEpochBlock h.
Proof.
  unfold headerWithInfo. destruct (bitmap_total h (mPubKeysBitmap m)) as [h1 E1]. rewrite E1.
  destruct (signature_total h1 (mAggregateSignature m)) as [h2 E2]. rewrite E2.
  destruct (leader_total h2 (mLeaderSignature m)) as [h3 E3]. exists h3. split; [done|].
  destruct (identity_same _ _ (set_bitmap _ _ _ E1)) as (A1 & A2 & A3 & A4 & A5).
  destruct (identity_same _ _ (set_signature _ _ _ E2)) as (B1 & B2 & B3 & B4 & B5).
  destruct (identity_same _ _ (set_leader _ _ _ E3)) as (C1 & C2 & C3 & C4 & C5).
  rewrite (unsigned_same _ _ (set_leader _ _ _ E3)), (unsigned_same _ _ (set_signature _ _ _ E2)),
    (unsigned_same _ _ (set_bitmap _ _ _ E1)).
  apply bitmap_set in E1. apply signature_set in E2 as [? ?]. apply leader_set in E3 as (? & ? & ?).
  repeat split; congruence.
Qed.

(** ** What a verifying node needs to agree on with the leader *)

Record agrees (core : ConsensusCore H B P2P) (hsv : HeaderSigVerifier H) (c : ConsensusState H B P2P) (h : H) : Prop := {
  ag_group : GetConsensusValidatorsPublicKeys hsv (GetPrevRandSeed h) (GetRound h) (GetShardID h)
    (consensusEpoch h) = Some (ConsensusGroup c);
  ag_size : 0 < Z.of_nat (length (ConsensusGroup c)) < 2 ^ 16 - 8;
  ag_signer : GetMultiSigner hsv (GetEpoch h) = seGetMultiSigner (signing core) (GetEpoch h);
  ag_fallback : forall h', ShouldApplyFallbackValidation hsv h' = false;
  ag_data : exists hu b, unsigned h = Some hu /\ hsvMarshal hsv hu = Some b /\
    Data c = Some (hsvCompute hsv b);
}.

Lemma agrees_copy hsv (h' h hu : H) b : unsigned h' = unsigned h -> unsigned h = Some hu ->
  hsvMarshal hsv hu = Some b ->
  (let? headerCopy := copyHeaderWithoutSig h' in CalculateHash hsv headerCopy) = inr (hsvCompute hsv b).
Proof.
  intros Hs Hu Hm. rewrite Hu in Hs. unfold unsigned in Hs. unfold copyHeaderWithoutSig, setH.
  destruct (SetSignature h' None) as [h1|]; [|done]. simpl. destruct (SetPubKeysBitmap h1 None) as [h2|]; [|done].
  simpl. rewrite Hs. simpl. unfold CalculateHash. by rewrite Hm.
Qed.

(** The signers another node takes from the bitmap the leader builds. *)
Lemma getConsensusSigners_generated (core : ConsensusCore H B P2P) hsv (c : ConsensusState H B P2P) (h h' : H) leader :
  agrees core hsv c h -> GetPrevRandSeed h' = GetPrevRandSeed h -> GetRound h' = GetRound h ->
  GetShardID h' = GetShardID h -> consensusEpoch h' = consensusEpoch h ->
  GetPubKeysBitmap h' = Some (GenerateBitmap c SrSignature) ->
  GetLeader c = inr leader -> IsJobDone c leader SrSignature = true ->
  GetPBFTThreshold hsv (Z.of_nat (length (ConsensusGroup c))) <= ComputeSize c SrSignature ->
  getConsensusSigners hsv h' = inr (chosen (GenerateBitmap c SrSignature) (ConsensusGroup c)).
Proof.
  intros [A1 A2 A3 A4 A5] E1 E2 E3 E4 Hbm Hlead Hdone Hthr.
  pose proof (bitmapSize_bounds (Z.of_nat (length (ConsensusGroup c)))) as Hsz.
  pose proof (blen_GenerateBitmap c SrSignature) as Hlen.
  unfold getConsensusSigners. rewrite Hbm. simpl default. set (bm := GenerateBitmap c SrSignature) in *.
  rewrite (proj2 (Z.eqb_neq _ _)) by lia.
  assert (Hbit : bitOf bm 0 = true).
  { subst bm. rewrite GenerateBitmap_bit by lia. unfold GetLeader in Hlead. unfold ConsensusGroup, group in *.
    destruct (consensusGroup (roundConsensusOf c)) as [[|pk g]|]; try done. simpl.
    injection Hlead as ->. done. }
  assert (Hm : (Z.land (byteAt bm 0) 1 =? 0) = false).
  { pose proof (maskAt_zero bm 0 ltac:(lia)) as Hm. rewrite Hbit in Hm. exact Hm. }
  rewrite Hm, E1, E2, E3, E4, A1. simpl.
  assert (Hv : verifyConsensusSize hsv (ConsensusGroup c) h' = inr tt).
  { unfold verifyConsensusSize. rewrite Hbm. simpl default. fold bm. rewrite Hlen, Z.eqb_refl. simpl.
    rewrite A4. unfold bm. rewrite onesOf_GenerateBitmap. by rewrite (proj2 (Z.leb_le _ _)) by lia. }
  rewrite Hv. simpl. unfold chosen. rewrite signersLoop_pick by lia. done.
Qed.

(** ** The leader's verification is that of the others *)

Lemma holder_verifies (core : ConsensusCore H B P2P) (c : ConsensusState H B P2P) sh sig epoch :
  pubKeys sh = ConsensusGroup c -> 0 < Z.of_nat (length (ConsensusGroup c)) < 2 ^ 16 - 8 ->
  Verify (signing core) (SetAggregatedSig (Some sig) sh) (Data c) (Some (GenerateBitmap c SrSignature)) epoch = inr tt ->
  exists ms, seGetMultiSigner (signing core) epoch = Some ms /\
    VerifyAggregatedSig ms (chosen (GenerateBitmap c SrSignature) (ConsensusGroup c)) (Data c) (Some sig) = true.
Proof.
  intros Hpk Hsz. unfold Verify, checkBitmap, signer.
  destruct (_ <? _); simpl; [done|]. destruct (seGetMultiSigner _ _) as [ms|]; simpl; [|done].
  rewrite inBitmap_chosen by (simpl; rewrite Hpk; lia). simpl. rewrite Hpk.
  destruct (VerifyAggregatedSig _ _ _ _) eqn:Ev; [|done]. intros _. exists ms. done.
Qed.

Lemma VerifySignature_generated (core : ConsensusCore H B P2P) hsv (c : ConsensusState H B P2P) sh (h h' : H) sig leader :
  agrees core hsv c h -> pubKeys sh = ConsensusGroup c ->
  unsigned h' = unsigned h -> GetEpoch h' = GetEpoch h -> GetPrevRandSeed h' = GetPrevRandSeed h ->
  GetRound h' = GetRound h -> GetShardID h' = GetShardID h -> IsStartOfEpochBlock h' = IsStartOfEpochBlock h ->
  GetPubKeysBitmap h' = Some (GenerateBitmap c SrSignature) -> GetSignature h' = Some sig ->
  Verify (signing core) (SetAggregatedSig (Some sig) sh) (Data c) (Some (GenerateBitmap c SrSignature))
    (GetEpoch h) = inr tt ->
  GetLeader c = inr leader -> IsJobDone c leader SrSignature = true ->
  GetPBFTThreshold hsv (Z.of_nat (length (ConsensusGroup c))) <= ComputeSize c SrSignature ->
  VerifySignature hsv h' = inr tt.
Proof.
  intros Ha Hpk Hu He Hr Hro Hsh Hst Hbm Hsig Hver Hlead Hdone Hthr.
  destruct (holder_verifies core c sh sig _ Hpk (ag_size _ _ _ _ Ha) Hver) as (ms & Hms & Hagg).
  destruct (ag_data _ _ _ _ Ha) as (hu & b & Hun & Hmar & Hdata).
  assert (Hep : consensusEpoch h' = consensusEpoch h) by (unfold consensusEpoch; by rewrite Hst, He).
  pose proof (getConsensusSigners_generated core hsv c h h' leader Ha Hr Hro Hsh Hep Hbm Hlead Hdone Hthr) as Hg.
  pose proof (agrees_copy hsv h' h hu b Hu Hun Hmar) as Hc.
  unfold VerifySignature. rewrite He, (ag_signer _ _ _ _ Ha), Hms. simpl.
  destruct (copyHeaderWithoutSig h') as [e|hc]; simpl in *; [done|]. rewrite Hc. simpl. rewrite Hg. simpl.
  by rewrite Hsig, <- Hdata, Hagg.
Qed.
End Final.
