(* ===== verification/SubroundKeeps.v ===== *)
(** * What no step of a round undoes, and how the state of a round evolves. *)

From stdpp Require Import base list gmap relations.
From Stdlib Require Import ZArith Lia.
From S2P Require Import Prelude Bitmap ConsensusState HeaderHandler HeaderCheck SigningHandler.
From S2P Require Import SubroundCore SubroundBlock SubroundSignature SubroundEndRound SubroundRound.

(** ** A computation that moves the state along a preorder *)

Section Keeps.
Context {S : Type} (R : S -> S -> Prop) `{!PreOrder R}.

Definition keeps {E A} (m : SE S E A) (s : S) : Prop := R s (fst (m s)).

Lemma keeps_ret {E A} (a : A) s : keeps (@ret S E A a) s.
Proof. unfold keeps, ret. simpl. reflexivity. Qed.

Lemma keeps_throw {E A} (e : E) s : keeps (@throw S E A e) s.
Proof. unfold keeps, throw. simpl. reflexivity. Qed.

Lemma keeps_gets {E A} (f : S -> A) s : keeps (@gets S E A f) s.
Proof. unfold keeps, gets. simpl. reflexivity. Qed.

Lemma keeps_liftR {E A} (r : E + A) s : keeps (@liftR S E A r) s.
Proof. unfold keeps, liftR. simpl. reflexivity. Qed.

Lemma keeps_bind {E A C} (m : SE S E A) (f : A -> SE S E C) s :
  keeps m s -> (forall s' a, R s s' -> m s = (s', inr a) -> keeps (f a) s') -> keeps (bind m f) s.
Proof.
  unfold keeps, bind. intros H1 H2. destruct (m s) as [s' [e|a]] eqn:E1; simpl in *; [done|].
  etrans; [exact H1|]. by apply H2.
Qed.

Lemma keeps_gets_bind {E A C} (g : S -> A) (f : A -> SE S E C) s :
  keeps (f (g s)) s -> keeps (bind (gets g) f) s.
Proof. done. Qed.

Lemma keeps_onErr {E E' A} (m : SE S E' A) (h : E' -> SE S E A) s :
  keeps m s -> (forall s' e, R s s' -> keeps (h e) s') -> keeps (onErr m h) s.
Proof.
  unfold keeps, onErr. intros H1 H2. destruct (m s) as [s' [e|a]] eqn:E1; simpl in *; [|done].
  etrans; [exact H1|]. by apply H2.
Qed.
End Keeps.

(** After [require] its condition holds. *)
Lemma kept_require_bind {H B P2P} (R : srState H B P2P -> srState H B P2P -> Prop) `{!PreOrder R} {C} (b : bool)
  (f : unit -> SE (srState H B P2P) bool C) s :
  (b = true -> keeps R (f tt) s) -> keeps R (bind (require b) f) s.
Proof. destruct b; intros Hf; [by apply Hf|]. unfold keeps, bind. simpl. reflexivity. Qed.

(** After [someOr] there is a value. *)
Lemma kept_someOr_bind {H B P2P} (R : srState H B P2P -> srState H B P2P -> Prop) `{!PreOrder R} {A C} (r : option A)
  (f : A -> SE (srState H B P2P) bool C) s :
  (forall a, r = Some a -> keeps R (f a) s) -> keeps R (bind (someOr r) f) s.
Proof. destruct r; intros Hf; [by apply Hf|]. unfold keeps, bind. simpl. reflexivity. Qed.

(** ** A round only moves forward *)

Section Evolves.
Context {H B P2P : Type} `{HeaderHandler H}.
Notation St := (srState H B P2P).

(** A signature message says the hash the node works on. *)
Definition signsData (c : ConsensusState H B P2P) (e : event H B) : Prop :=
  forall m, e = EvBroadcast m -> mMsgType m = MtSignature ->
    BlockHeaderHash m = Data c /\ Data c <> None.

Record evolves (s s' : St) : Prop := {
  ev_data : Data (cns s') = Data (cns s);
  ev_group : consensusGroup (roundConsensusOf (cns s')) = consensusGroup (roundConsensusOf (cns s));
  ev_self : SelfPubKey (cns s') = SelfPubKey (cns s);
  ev_threshold : roundThresholdOf (cns s') = roundThresholdOf (cns s);
  ev_start : IsSubroundFinished (cns s) SrStartRound = true -> IsSubroundFinished (cns s') SrStartRound = true;
  ev_known : forall pk, is_Some (validatorRoundStates (roundConsensusOf (cns s)) !! pk) ->
    is_Some (validatorRoundStates (roundConsensusOf (cns s')) !! pk);
  ev_block : forall pk, IsJobDone (cns s) pk SrBlock = true -> IsJobDone (cns s') pk SrBlock = true;
  ev_trace : exists new, trace s' = trace s ++ new /\ Forall (signsData (cns s')) new;
}.

#[global] Instance evolves_preorder : PreOrder evolves.
Proof.
  split.
  - intros s. split; try done. exists []. by rewrite app_nil_r.
  - intros s1 s2 s3 [A1 A2 A3 A4 A5 A6 A7 (n1 & A8 & A9)] [B1 B2 B3 B4 B5 B6 B7 (n2 & B8 & B9)]. split.
    + congruence.
    + congruence.
    + congruence.
    + congruence.
    + auto.
    + auto.
    + auto.
    + exists (n1 ++ n2). split; [by rewrite B8, A8, app_assoc|]. apply Forall_app. split; [|done].
      eapply Forall_impl; [exact A9|]. intros e He m Hm Ht. destruct (He m Hm Ht) as [H1 H2].
      by rewrite B1.
Qed.

(** The part of the state that matters is the same. *)
Lemma evolves_same (s : St) (f : ConsensusState H B P2P -> ConsensusState H B P2P) sh :
  Data (f (cns s)) = Data (cns s) -> roundConsensusOf (f (cns s)) = roundConsensusOf (cns s) ->
  roundThresholdOf (f (cns s)) = roundThresholdOf (cns s) ->
  roundStatusOf (f (cns s)) = roundStatusOf (cns s) ->
  evolves s (mkSrState (f (cns s)) sh (trace s)).
Proof.
  intros H1 H2 H3 H4. split; simpl.
  - done.
  - by rewrite H2.
  - unfold SelfPubKey. by rewrite H2.
  - done.
  - unfold IsSubroundFinished, Status. by rewrite H4.
  - by rewrite H2.
  - unfold IsJobDone, JobDone. by rewrite H2.
  - exists []. by rewrite app_nil_r.
Qed.

Lemma evolves_emit (s : St) e : signsData (cns s) e -> evolves s (mkSrState (cns s) (holder s) (trace s ++ [e])).
Proof. intros He. split; try done. exists [e]. simpl. split; [done|]. by constructor. Qed.

Lemma evolves_setStatus (s : St) sr : 
  evolves s (mkSrState (SetStatus sr SsFinished (cns s)) (holder s) (trace s)).
Proof.
  split; simpl; try done; [|exists []; by rewrite app_nil_r].
  unfold IsSubroundFinished, Status, statusOf. simpl. rewrite !bool_decide_eq_true.
  destruct (decide (sr = SrStartRound)) as [->|Hne]; [by rewrite lookup_insert_eq|].
  by rewrite lookup_insert_ne.
Qed.

(** A job is set; that of the block is never taken back. *)
Lemma evolves_setJob (s : St) pk sr v c' : SetJobDone (cns s) pk sr v = inr c' -> sr <> SrBlock \/ v = true ->
  evolves s (mkSrState c' (holder s) (trace s)).
Proof.
  unfold SetJobDone, rcSetJobDone. destruct (_ !! pk) as [rs|] eqn:E; simpl; [|done].
  intros [= <-] Hv. split; simpl; try done; [| |exists []; by rewrite app_nil_r].
  - intros pk' Hpk. destruct (decide (pk' = pk)) as [->|Hne]; [rewrite lookup_insert_eq; eauto|].
    by rewrite lookup_insert_ne.
  - intros pk'. unfold IsJobDone, JobDone, rcJobDone. simpl. destruct (decide (pk' = pk)) as [->|Hne].
    + rewrite E, lookup_insert_eq. unfold stateJobDone, stateSetJobDone. simpl.
      destruct (decide (sr = SrBlock)) as [->|Hsr].
      * rewrite lookup_insert_eq. by destruct Hv as [ | -> ].
      * by rewrite lookup_insert_ne.
    + by rewrite lookup_insert_ne.
Qed.
End Evolves.

(** ** The computations of the subrounds *)

Create HintDb keeps.

Section Computations.
Context {H B P2P : Type} `{HeaderHandler H}.
Notation St := (srState H B P2P).
Variable core : ConsensusCore H B P2P.
Abbreviation kept := (keeps (evolves (H:=H) (B:=B) (P2P:=P2P))).

Lemma kept_require (b : bool) (s : St) : kept (require b) s.
Proof. destruct b; [apply keeps_ret|apply keeps_throw]; apply _. Qed.

Lemma kept_someOr {A} (r : option A) (s : St) : kept (someOr r) s.
Proof. destruct r; [apply keeps_ret|apply keeps_throw]; apply _. Qed.

Lemma kept_okOr {E A} (r : E + A) (s : St) : kept (okOr r) s.
Proof. destruct r; [apply keeps_throw|apply keeps_ret]; apply _. Qed.

Lemma kept_emit {E} (e : event H B) (s : St) : signsData (cns s) e -> kept (emit e : SE St E unit) s.
Proof. apply evolves_emit. Qed.

Lemma kept_outcome {E} (m : SE St bool bool) (s : St) : kept m s -> kept (outcome m : SE St E bool) s.
Proof. unfold keeps, outcome. by destruct (m s) as [s' [b|b]]. Qed.

Lemma kept_run (m : SE St bool bool) (s : St) : kept m s -> evolves s (fst (run m s)).
Proof. unfold keeps, run. by destruct (m s) as [s' [b|b]]. Qed.

Lemma kept_onHolder {E A} (m : SE signatureHolderData signErr A) (s : St) : kept (onHolder m : SE St E (option A)) s.
Proof. unfold keeps, onHolder. destruct (m (holder s)) as [sh [e|a]]; by apply (evolves_same s id). Qed.

Lemma kept_trySetJobDone pk sr v (s : St) : sr <> SrBlock \/ v = true -> kept (trySetJobDone pk sr v) s.
Proof.
  intros Hv. unfold keeps, trySetJobDone, bind, getCns, gets. simpl.
  destruct (SetJobDone (cns s) pk sr v) as [e|c'] eqn:E; simpl; [reflexivity|].
  by eapply evolves_setJob.
Qed.

(** A change of the fields that no invariant looks at. *)
Lemma kept_modCns {E} (f : ConsensusState H B P2P -> ConsensusState H B P2P) (s : St) :
  (forall c, Data (f c) = Data c /\ roundConsensusOf (f c) = roundConsensusOf c /\
     roundThresholdOf (f c) = roundThresholdOf c /\ roundStatusOf (f c) = roundStatusOf c) ->
  kept (modCns f : SE St E unit) s.
Proof. intros Hf. destruct (Hf (cns s)) as (? & ? & ? & ?). by apply evolves_same. Qed.

Lemma kept_setStatus {E} sr (s : St) : kept (modCns (SetStatus sr SsFinished) : SE St E unit) s.
Proof. apply evolves_setStatus. Qed.

Lemma kept_modHolder {E} (f : signatureHolderData -> signatureHolderData) (s : St) :
  kept (modify (fun st => mkSrState (cns st) (f (holder st)) (trace st)) : SE St E unit) s.
Proof. by apply (evolves_same s id). Qed.
End Computations.

#[export] Hint Resolve kept_require kept_someOr kept_okOr kept_outcome kept_onHolder kept_setStatus
  kept_modHolder : keeps.
#[export] Hint Extern 1 (keeps _ (ret _) _) => apply keeps_ret; apply _ : keeps.
#[export] Hint Extern 1 (keeps _ (throw _) _) => apply keeps_throw; apply _ : keeps.
#[export] Hint Extern 1 (keeps _ (return_ _) _) => apply keeps_throw; apply _ : keeps.
#[export] Hint Extern 1 (keeps _ (liftR _) _) => apply keeps_liftR; apply _ : keeps.
#[export] Hint Extern 1 (keeps _ (gets _) _) => apply keeps_gets; apply _ : keeps.
#[export] Hint Extern 1 (keeps _ (getHolder) _) => apply keeps_gets; apply _ : keeps.
#[export] Hint Extern 1 (keeps _ (getCns) _) => apply keeps_gets; apply _ : keeps.
#[export] Hint Extern 1 (keeps _ (modCns (SetStatus _ _)) _) => apply kept_setStatus : keeps.
#[export] Hint Extern 2 (keeps _ (modCns _) _) => apply kept_modCns; intros ?; done : keeps.
#[export] Hint Extern 1 (keeps _ (emit _) _) => apply kept_emit; intros ? [=] ?; subst; done : keeps.
#[export] Hint Extern 1 (keeps _ (changeScore _ _) _) => apply kept_emit; intros ? [=] : keeps.
#[export] Hint Extern 1 (keeps _ (trySetJobDone _ _ _) _) => apply kept_trySetJobDone; (by left) || (by right) : keeps.

(** Goes through the computation; what is left are calls of other functions. *)
Ltac keep :=
  repeat first
    [ progress cbn beta iota
    | match goal with
      | |- keeps _ (bind getCns _) _ => apply keeps_gets_bind
      | |- keeps _ (bind (require _) _) _ => apply kept_require_bind; [apply _|intros ?]
      | |- keeps _ (bind (someOr _) _) _ => apply kept_someOr_bind; [apply _|intros ? ?]
      | |- keeps _ (bind _ _) _ => apply keeps_bind; [apply _| |intros ? ? ? ?]
      | |- keeps _ (onErr _ _) _ => apply keeps_onErr; [apply _| |intros ? ? ?]
      | |- keeps _ (if ?b then _ else _) _ => destruct b eqn:?
      | |- keeps _ (match ?x with _ => _ end) _ => destruct x eqn:?
      | |- keeps _ (let _ := _ in _) _ => cbv zeta
      end
    | solve [auto with keeps] ].

(** ** How the state of a round evolves *)

Section Steps.
Context {H B P2P : Type} `{HeaderHandler H}.
Notation St := (srState H B P2P).
Variable core : ConsensusCore H B P2P.
Abbreviation kept := (keeps (evolves (H:=H) (B:=B) (P2P:=P2P))).
Notation dataSet s := (Data (cns s) <> None).

(** ** The end round *)

Lemma kept_verifyNode header i pk (s : St) : kept (verifyNode core header i pk) s.
Proof. unfold verifyNode, signing_. keep. Qed.

Lemma kept_verifyNodesLoop header pks : forall i inv (s : St), kept (verifyNodesLoop core header i pks inv) s.
Proof.
  induction pks as [|pk pks IH]; intros i inv s; simpl; keep; auto using kept_verifyNode.
Qed.

Lemma kept_createAndBroadcastInvalidSigners inv (s : St) : kept (createAndBroadcastInvalidSigners core inv) s.
Proof. unfold createAndBroadcastInvalidSigners. keep. Qed.

Lemma kept_computeAggSigOnValidNodes (s : St) : kept (computeAggSigOnValidNodes core) s.
Proof. unfold computeAggSigOnValidNodes, needHeader, signing_. keep. Qed.

Lemma kept_handleInvalidSigners (s : St) : kept (handleInvalidSignersOnAggSigFail core) s.
Proof.
  unfold handleInvalidSignersOnAggSigFail, verifyNodesOnAggSigFail, getFullMessagesForInvalidSigners, needHeader.
  keep; auto using kept_verifyNodesLoop, kept_createAndBroadcastInvalidSigners, kept_computeAggSigOnValidNodes.
Qed.

Lemma kept_aggregateSigs header bitmap (s : St) : kept (aggregateSigsAndHandleInvalidSigners core header bitmap) s.
Proof. unfold aggregateSigsAndHandleInvalidSigners. keep; auto using kept_handleInvalidSigners. Qed.

Lemma kept_completeHeader header bitmap sig (s : St) : kept (completeHeader core header bitmap sig) s.
Proof. unfold completeHeader, setter, SubroundEndRound.putHeader. keep. Qed.

Lemma kept_commit header (s : St) : kept (commit core header) s.
Proof. unfold commit. keep. Qed.

Lemma kept_doEndRoundJobByLeader (s : St) : kept (doEndRoundJobByLeader core) s.
Proof.
  unfold doEndRoundJobByLeader, createAndBroadcastHeaderFinalInfo, broadcastBlockDataLeader.
  keep; auto using kept_aggregateSigs, kept_completeHeader, kept_commit.
Qed.

Lemma kept_commitByParticipant header (s : St) : kept (commitByParticipant core header) s.
Proof. unfold commitByParticipant, isOutOfTime, setHeaderForValidator. keep; auto using kept_commit. Qed.

Lemma kept_doEndRoundJobByParticipant cnsDta (s : St) : kept (doEndRoundJobByParticipant core cnsDta) s.
Proof. unfold doEndRoundJobByParticipant. keep; auto using kept_outcome, kept_commitByParticipant. Qed.

Lemma kept_receivedFinalInfo cnsDta (s : St) : kept (receivedBlockHeaderFinalInfo core cnsDta) s.
Proof. unfold receivedBlockHeaderFinalInfo. keep; auto using kept_doEndRoundJobByParticipant. Qed.

Lemma kept_verifyMessages msgs : forall s : St, kept (verifyMessages core msgs) s.
Proof. induction msgs as [|msg msgs IH]; intros s; simpl; unfold verifyInvalidSigner; keep; auto. Qed.

Lemma kept_receivedInvalidSigners cnsDta (s : St) : kept (receivedInvalidSignersInfo core cnsDta) s.
Proof. unfold receivedInvalidSignersInfo, verifyInvalidSigners. keep; auto using kept_verifyMessages. Qed.

Lemma kept_receivedHeader h (s : St) : kept (receivedHeader core h) s.
Proof. unfold receivedHeader. keep; auto using kept_doEndRoundJobByParticipant. Qed.

Lemma kept_doEndRoundJob (s : St) : kept (doEndRoundJob core) s.
Proof.
  unfold doEndRoundJob, prepareBroadcastBlockDataForValidator.
  keep; auto using kept_doEndRoundJobByLeader, kept_doEndRoundJobByParticipant.
Qed.

(** ** The signature subround *)

Lemma evolves_dataSet (s s' : St) : evolves s s' -> dataSet s -> dataSet s'.
Proof. intros [Hd _ _ _ _ _ _ _]. congruence. Qed.

Lemma kept_createAndSendSignature share pk (s : St) : dataSet s ->
  kept (createAndSendSignatureMessage core share pk) s.
Proof.
  intros Hd. unfold createAndSendSignatureMessage, broadcast. keep.
Qed.

Lemma kept_completeSignature pk b (s : St) : kept (completeSignatureSubRound pk b) s.
Proof. unfold completeSignatureSubRound. keep. Qed.

Lemma kept_signManagedKey lead idx pk (s : St) : dataSet s -> kept (signManagedKey core lead idx pk) s.
Proof.
  intros Hd. unfold signManagedKey. keep;
    eauto 6 using kept_outcome, kept_createAndSendSignature, kept_completeSignature, evolves_dataSet.
Qed.

Lemma kept_managedKeysLoop lead pks : forall idx (s : St), dataSet s -> kept (managedKeysLoop core lead idx pks) s.
Proof.
  induction pks as [|pk pks IH]; intros idx s Hd; simpl; keep;
    eauto using kept_signManagedKey, evolves_dataSet.
Qed.

Lemma kept_signSelf header lead (s : St) : dataSet s -> kept (signSelf core header lead) s.
Proof.
  intros Hd. unfold signSelf. keep;
    eauto 6 using kept_outcome, kept_createAndSendSignature, kept_completeSignature, evolves_dataSet.
Qed.

Lemma CanDo_dataSet managed (c : ConsensusState H B P2P) sr : CanDoSubroundJob managed c sr = true -> Data c <> None.
Proof. unfold CanDoSubroundJob, IsConsensusDataSet. by destruct (Data c). Qed.

Lemma kept_doSignatureJob (s : St) : kept (doSignatureJob core) s.
Proof.
  unfold doSignatureJob, doSignatureJobForManagedKeys. keep.
  all: eauto 6 using kept_signSelf, kept_managedKeysLoop, evolves_dataSet, CanDo_dataSet.
Qed.

Lemma kept_receivedSignature cnsDta (s : St) : kept (receivedSignature core cnsDta) s.
Proof. unfold receivedSignature. keep. Qed.

(** ** The block subround *)

Lemma kept_processReceivedBlock cnsDta (s : St) : kept (processReceivedBlock core cnsDta) s.
Proof.
  unfold processReceivedBlock. keep; try apply kept_outcome; unfold processMarkedBlock, cancelRound; keep.
Qed.

Lemma kept_processAndScore cnsDta (s : St) : kept (processAndScore core cnsDta) s.
Proof. unfold processAndScore. keep; auto using kept_outcome, kept_processReceivedBlock. Qed.

Lemma kept_receivedBlockBody cnsDta (s : St) : kept (receivedBlockBody core cnsDta) s.
Proof. unfold receivedBlockBody, requireLeader, putBody. keep; auto using kept_processAndScore. Qed.

(** ** The checks *)

Lemma kept_checks sr (s : St) : IsSubroundFinished (cns s) SrStartRound = true -> kept (Check_ core sr) s.
Proof.
  intros Hs. destruct sr; simpl.
  - unfold doStartRoundConsensusCheck. apply keeps_gets_bind. rewrite Hs. keep.
  - unfold doBlockConsensusCheck. keep.
  - unfold doSignatureConsensusCheck, areSignaturesCollected. keep.
  - unfold doEndRoundConsensusCheck. keep.
Qed.

(** ** The computations that set the data *)

(** The data is set at most once, when there is none. *)
Inductive progresses (s s' : St) : Prop :=
| prog_same : evolves s s' -> progresses s s'
| prog_set h s1 : Data (cns s) = None -> evolves s s1 -> evolves (onState (set_Data h) s1) s' ->
    progresses s s'.

Lemma requireLeader_bind {C} (c : ConsensusState H B P2P) node (f : unit -> SE St bool C) (s : St) (P : St -> Prop) :
  (forall s', evolves s s' -> P s') ->
  (IsNodeLeaderInCurrentRound c node = true -> P (fst (f tt s))) -> P (fst (bind (requireLeader c node) f s)).
Proof.
  intros H1 H2. unfold requireLeader. destruct (IsNodeLeaderInCurrentRound c node); simpl.
  - by apply H2.
  - apply H1. apply evolves_emit. intros m [=].
Qed.

Lemma require_bind {C} (b : bool) (f : unit -> SE St bool C) (s : St) (P : St -> Prop) :
  P s -> (b = true -> P (fst (f tt s))) -> P (fst (bind (require b) f s)).
Proof. destruct b; intros H1 H2; [by apply H2|done]. Qed.

Lemma run_bind' {S E A C} (m : SE S E A) (f : A -> SE S E C) s :
  bind m f s = match m s with (s', inl e) => (s', inl e) | (s', inr a) => f a s' end.
Proof. done. Qed.

Lemma bind_getCns {E C} (f : ConsensusState H B P2P -> SE St E C) (s : St) : bind getCns f s = f (cns s) s.
Proof. done. Qed.

Definition noData (c : ConsensusState H B P2P) : Data c = None \/ IsConsensusDataSet c = true :=
  match Data c as d return d = None \/ match d with Some _ => true | None => false end = true with
  | Some _ => or_intror eq_refl
  | None => or_introl eq_refl
  end.

Lemma fst_run (m : SE St bool bool) (s : St) : fst (run m s) = fst (m s).
Proof. unfold run. by destruct (m s) as [s' [b|b]]. Qed.

(** A proposal sets the data only when it comes from the leader, who is not the node
    itself. *)
Definition proposalProgress (cnsDta : Message) (s s' : St) : Prop :=
  evolves s s' \/
  exists h, Data (cns s) = None /\ IsNodeLeaderInCurrentRound (cns s) (mPubKey cnsDta) = true /\
    evolves (onState (set_Data h) s) s'.

Lemma receivedBlockBodyAndHeader_progress cnsDta (s : St) :
  proposalProgress cnsDta s (fst (receivedBlockBodyAndHeader core cnsDta s)).
Proof.
  unfold receivedBlockBodyAndHeader.
  rewrite bind_getCns. cbn beta.
  apply (require_bind _ _ _ (proposalProgress cnsDta s)); [by left|]. intros Hn.
  apply (requireLeader_bind _ _ _ _ (proposalProgress cnsDta s)); [by left|]. intros Hl.
  do 3 (apply (require_bind _ _ _ (proposalProgress cnsDta s)); [by left|]; intros ?). right. exists (BlockHeaderHash cnsDta).
  destruct (noData (cns s)) as [Hd|Hd]; [|by rewrite Hd in Hn]. split; [done|]. split; [done|].
  change (kept (putBody (DecodeBlockBody core (mBody cnsDta)) ;;
    SubroundBlock.putHeader (DecodeBlockHeader core (mHeader cnsDta)) ;;
    let! c := getCns in
    require (IsBlockBodyAlreadyReceived c && negb (isInvalidHeaderOrData c)) ;; processAndScore core cnsDta)
    (onState (set_Data (BlockHeaderHash cnsDta)) s)).
  unfold putBody, SubroundBlock.putHeader. keep. apply kept_processAndScore.
Qed.

Lemma receivedBlockHeader_progress cnsDta (s : St) :
  proposalProgress cnsDta s (fst (receivedBlockHeader core cnsDta s)).
Proof.
  unfold receivedBlockHeader.
  rewrite bind_getCns. cbn beta.
  apply (require_bind _ _ _ (proposalProgress cnsDta s)); [by left|]. intros Hn.
  apply (requireLeader_bind _ _ _ _ (proposalProgress cnsDta s)); [by left|]. intros Hl.
  do 2 (apply (require_bind _ _ _ (proposalProgress cnsDta s)); [by left|]; intros ?). right. exists (BlockHeaderHash cnsDta).
  destruct (noData (cns s)) as [Hd|Hd]; [|by rewrite Hd in Hn]. split; [done|]. split; [done|].
  change (kept (SubroundBlock.putHeader (DecodeBlockHeader core (mHeader cnsDta)) ;;
    let! c := getCns in
    require (negb (isInvalidHeaderOrData c)) ;; processAndScore core cnsDta)
    (onState (set_Data (BlockHeaderHash cnsDta)) s)).
  unfold SubroundBlock.putHeader. keep. apply kept_processAndScore.
Qed.
(** ** The leader's proposal *)

Lemma createHeader_state (s : St) : fst (createHeader core s) = s.
Proof.
  unfold createHeader, bind, someOr, okOr, ret, return_, throw, getCns, gets.
  repeat case_match; simplify_eq; done.
Qed.

(** A call that ends with true has set the data, one that ends with false has not. *)
Definition sendResult (s : St) (r : St * (bool + bool)) : Prop :=
  match snd r with
  | inr b | inl b => if b then exists h s1, evolves s s1 /\ evolves (onState (set_Data h) s1) (fst r)
                     else evolves s (fst r)
  end.

Lemma sendResult_stop (s : St) : sendResult s (s, inl false).
Proof. unfold sendResult. simpl. reflexivity. Qed.

Lemma sendTogether_result header body mb mh (s : St) :
  sendResult s (sendHeaderAndBlockBody core header body mb mh s).
Proof.
  unfold sendHeaderAndBlockBody. rewrite bind_getCns. cbn beta. destruct (GetLeader (cns s)) as [e|leader]; simpl; [apply sendResult_stop|].
  unfold broadcast, emit, modify, bind, require, ret, return_, throw.
  set (m := blockMessage _ _ _ _ _ _).
  assert (Hev : evolves s (mkSrState (cns s) (holder s) (trace s ++ [EvBroadcast m])))
    by (apply evolves_emit; intros ? [= <-] ?; done).
  destruct (BroadcastConsensusMessage core m); simpl; [|done].
  eexists (Some (Compute core mh)), _. split; [exact Hev|].
  apply (evolves_same (onState (set_Data (Some (Compute core mh)))
    (mkSrState (cns s) (holder s) (trace s ++ [EvBroadcast m])))
    (fun c => set_Header (Some header) (set_Body (Some body) c))); done.
Qed.

Lemma sendBlockHeader_result header mh (s : St) : sendResult s (sendBlockHeader core header mh s).
Proof.
  unfold sendBlockHeader. rewrite bind_getCns. cbn beta. destruct (GetLeader (cns s)) as [e|leader]; simpl; [apply sendResult_stop|].
  unfold broadcast, emit, modify, bind, require, ret, return_, throw.
  set (m := blockMessage _ _ _ _ _ _).
  assert (Hev : evolves s (mkSrState (cns s) (holder s) (trace s ++ [EvBroadcast m])))
    by (apply evolves_emit; intros ? [= <-] ?; done).
  destruct (BroadcastConsensusMessage core m); simpl; [|done].
  eexists (Some (Compute core mh)), _. split; [exact Hev|].
  apply (evolves_same (onState (set_Data (Some (Compute core mh)))
    (mkSrState (cns s) (holder s) (trace s ++ [EvBroadcast m])))
    (fun c => set_Header (Some header) c)); done.
Qed.

Lemma kept_sendBlockBody body mb (s : St) : kept (sendBlockBody core body mb) s.
Proof. unfold sendBlockBody, broadcast, putBody. keep. Qed.

Lemma sendBlock_result header body (s : St) : sendResult s (sendBlock core header body s).
Proof.
  unfold sendBlock. destruct (MarshalBody core body) as [mb|]; [|apply sendResult_stop].
  destruct (MarshalHeader core header) as [mh|]; [|apply sendResult_stop].
  cbn [someOr]. rewrite run_bind'. unfold ret at 1. cbn beta iota. rewrite run_bind'. unfold ret at 1. cbn beta iota.
  destruct (couldBeSentTogether core mb mh); [apply sendTogether_result|].
  rewrite run_bind'. unfold outcome at 1. pose proof (kept_sendBlockBody body mb s) as H1. unfold keeps in H1.
  destruct (sendBlockBody core body mb s) as [s1 [[]|[]]]; simpl in *; try done.
  all: pose proof (sendBlockHeader_result header mh s1) as H2; unfold sendResult in *.
  all: unfold bind, outcome, require, ret, return_, throw.
  all: destruct (sendBlockHeader core header mh s1) as [s2 [[]|[]]]; simpl in *.
  all: first [ destruct H2 as (h & s1' & A1 & A2); exists h, s1'; split; [by etrans|done] | by etrans ].
Qed.

(** The leader has done its job of the block subround when it has the data. *)
Definition leadOk (managed : bytes -> bool) (s : St) : Prop :=
  forall leader, GetLeader (cns s) = inr leader -> leader = SelfPubKey (cns s) \/ managed leader = true ->
    Data (cns s) <> None -> IsJobDone (cns s) leader SrBlock = true.

Definition knownLeader (s : St) : Prop :=
  forall leader, GetLeader (cns s) = inr leader ->
    is_Some (validatorRoundStates (roundConsensusOf (cns s)) !! leader).

Lemma evolves_GetLeader (s s' : St) : evolves s s' -> GetLeader (cns s') = GetLeader (cns s).
Proof. intros Hev. unfold GetLeader. by rewrite (ev_group _ _ Hev). Qed.

Lemma trySetJobDone_known pk (s : St) :
  is_Some (validatorRoundStates (roundConsensusOf (cns s)) !! pk) ->
  exists s', trySetJobDone pk SrBlock true s = (s', inr tt) /\ evolves s s' /\ IsJobDone (cns s') pk SrBlock = true.
Proof.
  intros [rs Hrs]. unfold trySetJobDone. rewrite bind_getCns. cbn beta.
  destruct (SetJobDone (cns s) pk SrBlock true) as [e|c'] eqn:E.
  - unfold SetJobDone, rcSetJobDone in E. by rewrite Hrs in E.
  - eexists. split; [reflexivity|]. split; [eapply evolves_setJob; [exact E|by right]|].
    unfold SetJobDone, rcSetJobDone in E. rewrite Hrs in E. simpl in E. injection E as <-.
    unfold IsJobDone, JobDone, rcJobDone. simpl. rewrite lookup_insert_eq. unfold stateJobDone. simpl.
    by rewrite lookup_insert_eq.
Qed.

(** The part of the job after the block is sent: the leader has its job done. *)
Definition markSent (header : H) (body : B) : SE St bool bool :=
  let! c := getCns in
  let! leader := okOr (GetLeader c) in
  onErr (trySetJobDone leader SrBlock true) (fun _ => return_ false) ;;
  emit (EvScheduled header body) ;;
  return_ true.

Lemma markSent_result header body (s : St) : knownLeader s ->
  evolves s (fst (markSent header body s)) /\
  forall leader, GetLeader (cns (fst (markSent header body s))) = inr leader ->
    IsJobDone (cns (fst (markSent header body s))) leader SrBlock = true.
Proof.
  intros Hk. remember (markSent header body s) as r eqn:Er. unfold markSent in Er.
  rewrite bind_getCns in Er. cbn beta in Er. rewrite run_bind' in Er.
  destruct (GetLeader (cns s)) as [e|leader] eqn:El; simpl in Er; subst r; simpl.
  - split; [reflexivity|]. rewrite El. done.
  - destruct (trySetJobDone_known leader s (Hk _ El)) as (s3 & E3 & B1 & B2).
    rewrite run_bind'. unfold onErr. rewrite E3. simpl. split.
    + etrans; [exact B1|]. apply evolves_emit. intros ? [=].
    + intros leader'. rewrite (evolves_GetLeader _ _ B1), El. by intros [= <-].
Qed.

Lemma proposeBlock_progress managed header body (s : St) :
  Data (cns s) = None -> knownLeader s ->
  let r := (let! sentWithSuccess := outcome (sendBlock core header body) in
    require sentWithSuccess ;; markSent header body) s in
  progresses s (fst r) /\ (leadOk managed s -> leadOk managed (fst r)).
Proof.
  intros Hd Hk. cbv zeta. rewrite run_bind'. pose proof (sendBlock_result header body s) as Hr.
  unfold outcome. destruct (sendBlock core header body s) as [s1 b]. unfold sendResult in Hr. simpl in Hr.
  set (ok := match b with inl b | inr b => b end).
  assert (Hok : if ok then exists h s2, evolves s s2 /\ evolves (onState (set_Data h) s2) s1 else evolves s s1)
    by (by destruct b). clear Hr.
  replace (match b with inl b0 | inr b0 => (s1, inr b0) end) with (s1, @inr bool bool ok) by (by destruct b).
  clearbody ok. destruct ok; cbn iota beta.
  - destruct Hok as (h & s2 & A1 & A2).
    change ((require true ;; markSent header body) s1) with (markSent header body s1).
    assert (Hk1 : knownLeader s1).
    { intros leader Hl. apply (ev_known _ _ A2). apply (ev_known _ _ A1). apply Hk.
      rewrite <- Hl, (evolves_GetLeader _ _ A2). symmetry. exact (evolves_GetLeader _ _ A1). }
    destruct (markSent_result header body s1 Hk1) as [B1 B2]. split.
    + apply (prog_set _ _ h s2); [done..|]. etrans; [exact A2|exact B1].
    + intros _ leader Hl _ _. by apply B2.
  - split; [by apply prog_same|]. intros Hlo leader Hl Hs Hn.
    exfalso. apply Hn. simpl. by rewrite (ev_data _ _ Hok).
Qed.
End Steps.
