(* ===== verification/RoundInvariant.v ===== *)
(** * A round from its start: the data is set once, and every signature the node sends
    is of that data. *)

From stdpp Require Import base list gmap relations.
From Stdlib Require Import ZArith Lia.
From S2P Require Import Prelude Bitmap ConsensusState HeaderHandler HeaderCheck SigningHandler.
From S2P Require Import SubroundCore SubroundBlock SubroundSignature SubroundEndRound SubroundRound.
From S2P Require Import SubroundKeeps.

Section Progress.
Context {H B P2P : Type} `{HeaderHandler H}.
Notation St := (srState H B P2P).
Variable core : ConsensusCore H B P2P.

(** ** The job of the leader in the block subround *)

Lemma leaderJob_noData managed (s : St) : leadOk managed s ->
  IsSelfLeaderInCurrentRound (cns s) && ShouldConsiderSelfKeyInConsensus core
    || IsMultiKeyLeaderInCurrentRound managed (cns s) = true ->
  IsLeaderJobDone (cns s) SrBlock = false -> Data (cns s) = None.
Proof.
  intros Hlo Hlead Hjob. destruct (Data (cns s)) as [d|] eqn:Hd; [exfalso|done].
  unfold IsLeaderJobDone, IsSelfLeaderInCurrentRound, IsMultiKeyLeaderInCurrentRound, IsNodeLeaderInCurrentRound in *.
  destruct (GetLeader (cns s)) as [e|leader] eqn:El; [done|].
  assert (Hj : IsJobDone (cns s) leader SrBlock = true); [|congruence].
  apply Hlo; [done| |by rewrite Hd]. apply orb_true_iff in Hlead as [[Hs _]%andb_true_iff|Hm]; [left|by right].
  by apply beq_true in Hs.
Qed.

Lemma doBlockJob_progress (s : St) :
  leadOk (IsKeyManagedByCurrentNode core) s -> knownLeader s ->
  progresses s (fst (doBlockJob core s)) /\ leadOk (IsKeyManagedByCurrentNode core) (fst (doBlockJob core s)).
Proof.
  intros Hlo Hk. set (managed := IsKeyManagedByCurrentNode core) in *.
  set (P := fun s' : St => progresses s s' /\ leadOk managed s').
  assert (Ps : P s) by (split; [apply prog_same; reflexivity|done]).
  change (P (fst (doBlockJob core s))). unfold doBlockJob. rewrite bind_getCns. cbn beta.
  apply require_bind; [done|]. intros Hlead. apply require_bind; [done|]. intros _.
  apply require_bind; [done|]. intros Hjob. apply require_bind; [done|]. intros _.
  rewrite run_bind'. pose proof (createHeader_state core s) as Hs.
  destruct (createHeader core s) as [s' [b|header]]; simpl in Hs; subst s'; [done|].
  rewrite run_bind'. destruct (CreateBlock core header) as [[hdr body]|]; [|done]. cbn.
  apply negb_true_iff in Hjob.
  pose proof (leaderJob_noData managed s Hlo Hlead Hjob) as Hd.
  destruct (proposeBlock_progress core managed hdr body s Hd Hk) as [Hp Hl]. split; [exact Hp|by apply Hl].
Qed.

(** ** The start of a round *)

Lemma numManagedKeys_run pks : forall n (s : St), exists n',
  computeNumManagedKeysInConsensusGroup core pks n s =
  (mkSrState (cns s) (holder s) (trace s ++ map EvRoundWithoutMessage pks), inr n').
Proof.
  induction pks as [|pk pks IH]; intros n [c sh tr]; simpl; [exists n; by rewrite app_nil_r|].
  unfold bind, emit, modify. simpl.
  destruct (IH (if IsKeyManagedByCurrentNode core pk then n + 1 else n) (mkSrState c sh (tr ++ [EvRoundWithoutMessage pk])))
    as [n' E]. exists n'. rewrite E. simpl. by rewrite <- app_assoc.
Qed.

(** Nothing is sent to the others. *)
Definition silent (s s' : St) : Prop :=
  exists new, trace s' = trace s ++ new /\ Forall (fun e => forall m, e <> EvBroadcast m) new.

Lemma silent_trace (s s' : St) : trace s' = trace s -> silent s s'.
Proof. intros E. exists []. by rewrite app_nil_r. Qed.

#[global] Instance silent_preorder : PreOrder silent.
Proof.
  split; [intros s; by apply silent_trace|].
  intros s1 s2 s3 (n1 & E1 & F1) (n2 & E2 & F2). exists (n1 ++ n2).
  split; [by rewrite E2, E1, app_assoc|by apply Forall_app].
Qed.

Lemma silent_emit (s : St) c sh e : (forall m, e <> EvBroadcast m) -> silent s (mkSrState c sh (trace s ++ [e])).
Proof. intros He. exists [e]. split; [done|]. by constructor. Qed.

Lemma group_known (g : list bytes) pk : pk ∈ g -> forall m : gmap bytes roundState,
  is_Some (fold_left (fun m pk => <[pk := NewRoundState]> m) g m !! pk).
Proof.
  assert (Hm : forall l (m : gmap bytes roundState), is_Some (m !! pk) ->
    is_Some (fold_left (fun m pk => <[pk := NewRoundState]> m) l m !! pk)).
  { induction l as [|x l IH]; intros m Hs; [done|]. simpl. apply IH.
    destruct (decide (x = pk)) as [->|Hne]; [rewrite lookup_insert_eq; eauto|by rewrite lookup_insert_ne]. }
  induction g as [|x g IH]; intros Hin m; [by apply elem_of_nil in Hin|]. simpl.
  apply elem_of_cons in Hin as [->|Hin]; [apply Hm; rewrite lookup_insert_eq; eauto|by apply IH].
Qed.

Lemma generateGroup_run (s s1 : St) r : generateNextConsensusGroup core s = (s1, r) ->
  trace s1 = trace s /\ Data (cns s1) = Data (cns s) /\ (r = inr tt -> knownLeader s1).
Proof.
  unfold generateNextConsensusGroup. rewrite bind_getCns. cbn beta.
  destruct (currentOrGenesis core) as [h|]; [|by intros [= <- <-]].
  destruct (GetNextConsensusGroup _ _ _ _ _) as [g|]; [|by intros [= <- <-]]. intros [= <- <-].
  repeat split; [done..|]. intros _ leader. unfold GetLeader. simpl. destruct g as [|pk g]; [done|].
  intros [= <-]. apply (group_known (pk :: g)). left.
Qed.

(** A round has started. *)
Record started (s : St) : Prop := {
  st_started : IsSubroundFinished (cns s) SrStartRound = true;
  st_data : Data (cns s) = None;
  st_leader : knownLeader s;
}.

Lemma doStartRound_run (s : St) : exists s', run (doStartRoundJob core) s = (s', true) /\
  silent s s' /\ cns s' =
    set_RoundTimeStamp (roundTimeStamp core) (set_RoundIndex (roundIndex core) (ResetConsensusState (cns s))).
Proof. eexists. split; [reflexivity|]. split; [|done]. exists [EvResetConsensusMessages]. split; [done|]. by constructor. Qed.

Lemma initCurrentRound_run (s s' : St) : run (initCurrentRound core) s = (s', true) ->
  Data (cns s) = None -> started s' /\ silent s s'.
Proof.
  intros Hrun Hd. unfold run, initCurrentRound in Hrun. rewrite run_bind' in Hrun.
  destruct (IsSynchronized core); simpl in Hrun; [|done]. rewrite run_bind' in Hrun. unfold onErr in Hrun.
  destruct (generateNextConsensusGroup core s) as [s1 [e|[]]] eqn:Eg; [done|].
  destruct (generateGroup_run _ _ _ Eg) as (T1 & D1 & K1). specialize (K1 eq_refl).
  rewrite run_bind' in Hrun.
  destruct ((if IsRedundancyNode core then emit EvAdjustInactivity else ret tt) s1) as [s2 r2] eqn:E2.
  assert (H2 : cns s2 = cns s1 /\ silent s1 s2 /\ r2 = inr tt).
  { destruct (IsRedundancyNode core); injection E2 as <- <-; repeat split; try done; [by apply silent_emit]. }
  destruct H2 as (C2 & S2 & ->). cbn beta iota in Hrun. rewrite run_bind' in Hrun. unfold gets in Hrun. cbn beta iota in Hrun.
  destruct (GetLeader (cns s2)) as [e|leader] eqn:El; [done|]. rewrite run_bind' in Hrun.
  change (emit EvStartRound s2) with (mkSrState (cns s2) (holder s2) (trace s2 ++ [EvStartRound]), @inr bool unit tt)
    in Hrun. cbn beta iota in Hrun. rewrite run_bind' in Hrun.
  destruct (numManagedKeys_run (ConsensusGroup (cns s2)) 0
    (mkSrState (cns s2) (holder s2) (trace s2 ++ [EvStartRound]))) as [n' En]. rewrite En in Hrun.
  cbn [cns holder trace] in Hrun.
  set (s3 := mkSrState (cns s2) (holder s2) _) in Hrun.
  assert (S3 : silent s s3).
  { etrans; [apply silent_trace; exact T1|]. etrans; [exact S2|].
    exists (EvStartRound :: map EvRoundWithoutMessage (ConsensusGroup (cns s2))).
    split; [simpl; by rewrite <- app_assoc|]. constructor; [done|]. by apply Forall_map, Forall_true. }
  rewrite run_bind' in Hrun. unfold onHolder in Hrun.
  destruct (Reset _ (holder s3)) as [sh [e|[]]]; [done|].
  destruct (RemainingTime _ _ _ <? 0); [done|]. simpl in Hrun. injection Hrun as <-. split; [split|].
  - simpl. unfold IsSubroundFinished, Status, statusOf. simpl. by rewrite lookup_insert_eq.
  - simpl. by rewrite C2, D1.
  - intros leader'. unfold GetLeader. simpl. rewrite C2. apply K1.
  - etrans; [exact S3|]. by apply silent_emit.
Qed.
End Progress.

(** ** The steps *)

Section Invariant.
Context {H B P2P : Type} `{HeaderHandler H}.
Notation St := (srState H B P2P).
Variable managed : bytes -> bool.

(** The signatures sent since [s0] are of the data. *)
Definition signedData (s0 s : St) : Prop :=
  exists new, trace s = trace s0 ++ new /\ Forall (signsData (cns s)) new.

Record roundInv (s0 s : St) : Prop := {
  ri_started : IsSubroundFinished (cns s) SrStartRound = true;
  ri_lead : leadOk managed s;
  ri_known : knownLeader s;
  ri_signed : signedData s0 s;
}.

Lemma signsData_noData (c c' : ConsensusState H B P2P) e : Data c = None -> signsData c e -> signsData c' e.
Proof. intros Hd He m Hm Ht. by destruct (He m Hm Ht) as [_ []]. Qed.

Lemma signedData_evolves (s0 s s' : St) : evolves s s' -> signedData s0 s -> signedData s0 s'.
Proof.
  intros Hev (n1 & E1 & F1). destruct (ev_trace _ _ Hev) as (n2 & E2 & F2).
  exists (n1 ++ n2). split; [by rewrite E2, E1, app_assoc|]. apply Forall_app. split; [|done].
  eapply Forall_impl; [exact F1|]. intros e He m Hm Ht. destruct (He m Hm Ht).
  by rewrite (ev_data _ _ Hev).
Qed.

Lemma signedData_set (s0 s : St) h : Data (cns s) = None -> signedData s0 s ->
  signedData s0 (onState (set_Data h) s).
Proof.
  intros Hd (n1 & E1 & F1). exists n1. split; [done|]. eapply Forall_impl; [exact F1|].
  intros e. by apply signsData_noData.
Qed.

Lemma signedData_progresses (s0 s s' : St) : progresses s s' -> signedData s0 s -> signedData s0 s'.
Proof.
  intros [Hev | h s1 Hd H1 H2] Hs; [by eapply signedData_evolves|].
  eapply signedData_evolves; [exact H2|]. apply signedData_set; [by rewrite (ev_data _ _ H1)|].
  by eapply signedData_evolves.
Qed.

Lemma knownLeader_evolves (s s' : St) : evolves s s' -> knownLeader s -> knownLeader s'.
Proof.
  intros Hev Hk leader Hl. apply (ev_known _ _ Hev), Hk. by rewrite <- (evolves_GetLeader _ _ Hev).
Qed.

Lemma leadOk_evolves (s s' : St) : evolves s s' -> leadOk managed s -> leadOk managed s'.
Proof.
  intros Hev Hlo leader Hl Hs Hn. apply (ev_block _ _ Hev).
  rewrite (evolves_GetLeader _ _ Hev) in Hl. rewrite (ev_self _ _ Hev) in Hs. rewrite (ev_data _ _ Hev) in Hn. auto.
Qed.

Lemma roundInv_evolves (s0 s s' : St) : evolves s s' -> roundInv s0 s -> roundInv s0 s'.
Proof.
  intros Hev [R1 R2 R3 R4]. split; [by apply (ev_start _ _ Hev)| | |].
  - by eapply leadOk_evolves.
  - by eapply knownLeader_evolves.
  - by eapply signedData_evolves.
Qed.

Lemma roundInv_progresses (s0 s s' : St) : progresses s s' -> leadOk managed s' ->
  roundInv s0 s -> roundInv s0 s'.
Proof.
  intros Hp Hlo [R1 R2 R3 R4]. split; [|done| |by eapply signedData_progresses].
  - destruct Hp as [Hev | h s1 Hd H1 H2]; [by apply (ev_start _ _ Hev)|].
    apply (ev_start _ _ H2). by apply (ev_start _ _ H1).
  - destruct Hp as [Hev | h s1 Hd H1 H2]; [by eapply knownLeader_evolves|].
    eapply knownLeader_evolves; [exact H2|]. intros leader Hl. exact (knownLeader_evolves _ _ H1 R3 leader Hl).
Qed.

(** A block the node receives is not that of one of its own keys. *)
Lemma roundInv_proposal (s0 s s' : St) cnsDta : checkSelfState managed (cns s) cnsDta = true ->
  proposalProgress cnsDta s s' -> roundInv s0 s -> roundInv s0 s'.
Proof.
  intros Hc [Hev|(h & Hd & Hl & Hev)] HR; [by eapply roundInv_evolves|].
  apply (roundInv_progresses s0 s s'); [by apply (prog_set _ _ h s)| |done].
  eapply leadOk_evolves; [exact Hev|]. intros leader Hlead Hs _. exfalso.
  unfold IsNodeLeaderInCurrentRound in Hl. change (GetLeader (cns s) = inr leader) in Hlead.
  rewrite Hlead in Hl. apply beq_true in Hl. subst leader.
  unfold checkSelfState in Hc. destruct Hs as [Hs|Hs].
  - change (mPubKey cnsDta = SelfPubKey (cns s)) in Hs. by rewrite <- Hs, beq_refl in Hc.
  - by rewrite Hs, orb_true_r in Hc.
Qed.

Lemma proposal_progresses (s s' : St) cnsDta : proposalProgress cnsDta s s' -> progresses s s'.
Proof. intros [Hev|(h & Hd & _ & Hev)]; [by apply prog_same|by apply (prog_set _ _ h s)]. Qed.

(** A message is a proposal of the leader, or moves the state forward. *)
Lemma message_step core (s : St) m :
  proposalProgress m s (fst (receivedMessageCall core m s)).
Proof.
  unfold receivedMessageCall.
  destruct (_ =? MtBlockBodyAndHeader); [apply receivedBlockBodyAndHeader_progress|].
  destruct (_ =? MtBlockBody); [left; apply kept_receivedBlockBody|].
  destruct (_ =? MtBlockHeader); [apply receivedBlockHeader_progress|]. left.
  destruct (_ =? MtSignature); [apply kept_receivedSignature|].
  destruct (_ =? MtBlockHeaderFinalInfo); [apply kept_receivedFinalInfo|].
  destruct (_ =? MtInvalidSigners); [apply kept_receivedInvalidSigners|]. simpl. reflexivity.
Qed.

Lemma roundStep_progresses (s0 s s' : St) : roundStep managed s s' -> roundInv s0 s ->
  progresses s s' /\ roundInv s0 s'.
Proof.
  intros Hstep HR.
  assert (Hev : forall t : St, evolves s t -> progresses s t /\ roundInv s0 t)
    by (intros t Ht; split; [by apply prog_same|by eapply roundInv_evolves]).
  destruct Hstep as [core st m Hm Hc|core st h Hm|core st sr Hm Hsr|core st sr Hm|st|st].
  - rewrite fst_run. pose proof (message_step core st m) as Hp.
    split; [by eapply proposal_progresses|by eapply roundInv_proposal].
  - rewrite fst_run. apply Hev, kept_receivedHeader.
  - rewrite fst_run. destruct sr; [done| | |]; simpl.
    + destruct (doBlockJob_progress core st) as [Hp Hl]; [rewrite Hm; apply HR|apply HR|].
      split; [done|]. apply (roundInv_progresses s0 st); [done|by rewrite <- Hm|done].
    + apply Hev, kept_doSignatureJob.
    + apply Hev, kept_doEndRoundJob.
  - rewrite fst_run. apply Hev, kept_checks, HR.
  - apply Hev, (evolves_same st waitAllSignatures); unfold waitAllSignatures; by destruct (IsSubroundFinished _ _).
  - by apply Hev, (evolves_same st Extend).
Qed.

Lemma progresses_threshold (s s' : St) : progresses s s' -> roundThresholdOf (cns s') = roundThresholdOf (cns s).
Proof.
  intros [Hev | h s1 _ H1 H2]; [apply (ev_threshold _ _ Hev)|].
  rewrite (ev_threshold _ _ H2). exact (ev_threshold _ _ H1).
Qed.

Lemma roundInv_steps (s0 s s' : St) : roundSteps managed s s' -> roundInv s0 s ->
  roundInv s0 s' /\ roundThresholdOf (cns s') = roundThresholdOf (cns s).
Proof.
  intros Hsteps. induction Hsteps as [|s s1 s2 Hstep Hsteps IH]; intros HR; [done|].
  destruct (roundStep_progresses _ _ _ Hstep HR) as [Hp HR1]. destruct (IH HR1) as [R E].
  split; [done|]. by rewrite E, (progresses_threshold _ _ Hp).
Qed.

Lemma roundInv_start (s : St) : started s -> roundInv s s.
Proof.
  intros [S1 S2 S3]. split; [done| |done|].
  - intros leader _ _ Hn. by rewrite S2 in Hn.
  - exists []. by rewrite app_nil_r.
Qed.
End Invariant.
