(* ===== verification/ConsensusLeader.v ===== *)
(** * The leader's end of round: the final information it sends, and the participants
    that receive it. *)

From stdpp Require Import base list gmap.
From Stdlib Require Import ZArith Lia ZifyBool.
From S2P Require Import Prelude Bitmap ConsensusState HeaderHandler HeaderCheck SigningHandler.
From S2P Require Import SubroundCore SubroundEndRound ConsensusBitmap ConsensusFinal.
From S2P Require Import SubroundBlock SubroundSignature SubroundRound SubroundKeeps.

Section Leader.
Context {H B P2P : Type} `{HL : HeaderLaws H}.
Notation St := (srState H B P2P).

(** What the leader has when the end round starts: a header, signatures that
    aggregate, a key that signs, time. *)
Record leaderReady (core : ConsensusCore H B P2P) (st : St) (h : H) (sig leader : bytes) : Prop := {
  lr_header : Header (cns st) = Some h;
  lr_leader : GetLeader (cns st) = inr leader;
  lr_aggregate : AggregateSigs (signing core) (holder st) (Some (GenerateBitmap (cns st) SrSignature))
    (GetEpoch h) = inr sig;
  lr_verify : Verify (signing core) (SetAggregatedSig (Some sig) (holder st)) (Data (cns st))
    (Some (GenerateBitmap (cns st) SrSignature)) (GetEpoch h) = inr tt;
  lr_marshal : forall h', is_Some (MarshalHeader core h');
  lr_sign : forall msg, exists s, CreateSignatureForPublicKey (signing core) msg leader = inr s;
  lr_processed : IsProcessedOKWithTimeout core = true;
  lr_time : 0 <= RemainingTime core (roundTimeStamp core) (TimeDuration core);
}.

(** The final information the leader has for the others. *)
Record finalInfo (core : ConsensusCore H B P2P) (st : St) (h : H) (sig leader : bytes) (m : Message) : Prop := {
  fi_hash : BlockHeaderHash m = Data (cns st);
  fi_sender : mPubKey m = leader;
  fi_type : mMsgType m = MtBlockHeaderFinalInfo;
  fi_round : mRoundIndex m = roundIndex core;
  fi_bitmap : mPubKeysBitmap m = Some (GenerateBitmap (cns st) SrSignature);
  fi_sig : mAggregateSignature m = Some sig;
  fi_leader : forall h', headerWithInfo h m = Some h' -> exists hl b ls,
    SetLeaderSignature h' None = Some hl /\ MarshalHeader core hl = Some b /\
    CreateSignatureForPublicKey (signing core) (Some b) leader = inr ls /\ mLeaderSignature m = Some ls;
}.

Definition afterSig (st : St) (sig : bytes) : St :=
  mkSrState (cns st) (SetAggregatedSig (Some sig) (holder st)) (trace st).

Lemma aggregate_ready core (st : St) h sig leader : leaderReady core st h sig leader ->
  aggregateSigsAndHandleInvalidSigners core h (GenerateBitmap (cns st) SrSignature) st =
  (afterSig st sig, inr (GenerateBitmap (cns st) SrSignature, sig)).
Proof.
  intros Hr. unfold aggregateSigsAndHandleInvalidSigners. rewrite run_bind. unfold getHolder, gets. cbn beta iota.
  rewrite (lr_aggregate _ _ _ _ _ Hr). rewrite run_bind. unfold modify. cbn beta iota. rewrite run_bind.
  unfold getCns, gets. cbn beta iota. rewrite run_bind. cbn beta iota. cbn [cns holder trace].
  by rewrite (lr_verify _ _ _ _ _ Hr).
Qed.

(** The header the leader completes, and the state it leaves. *)
Lemma completeHeader_ready (core : ConsensusCore H B P2P) (st : St) h bitmap sig leader :
  GetLeader (cns st) = inr leader -> (forall h', is_Some (MarshalHeader core h')) ->
  (forall msg, exists s, CreateSignatureForPublicKey (signing core) msg leader = inr s) ->
  exists h1 h2 h3 hl b ls,
    SetPubKeysBitmap h (Some bitmap) = Some h1 /\ SetSignature h1 (Some sig) = Some h2 /\
    SetLeaderSignature h2 (Some ls) = Some h3 /\
    SetLeaderSignature h2 None = Some hl /\ MarshalHeader core hl = Some b /\
    CreateSignatureForPublicKey (signing core) (Some b) leader = inr ls /\
    completeHeader core h bitmap sig st =
      (mkSrState (set_Header (Some h3) (set_Header (Some h2) (set_Header (Some h1) (cns st))))
         (holder st) (trace st), inr h3).
Proof.
  intros Hl Hm Hs. destruct (bitmap_total h (Some bitmap)) as [h1 E1].
  destruct (signature_total h1 (Some sig)) as [h2 E2].
  destruct (leader_total h2 None) as [hl E4]. destruct (Hm hl) as [b E5].
  destruct (Hs (Some b)) as [ls E6]. destruct (leader_total h2 (Some ls)) as [h3 E3].
  exists h1, h2, h3, hl, b, ls. repeat (split; [done|]).
  unfold completeHeader, setter, SubroundEndRound.putHeader, modCns, modify, getCns, gets, signBlockHeader.
  rewrite E1. unfold bind, someOr, ret. rewrite E2. simpl.
  assert (Hl' : GetLeader (set_Header (Some h2) (set_Header (Some h1) (cns st))) = inr leader) by exact Hl.
  rewrite E4, E5, Hl', E6. simpl. by rewrite E3.
Qed.

(** What follows the final information. *)
Definition afterFinalInfo (core : ConsensusCore H B P2P) (header : H) : SE St bool bool :=
  let! c := getCns in
  let! leader := okOr (GetLeader c) in
  emit (EvBroadcastHeader header leader) ;;
  commit core header ;;
  modCns (SetStatus SrEndRound SsFinished) ;;
  broadcastBlockDataLeader core header ;;
  return_ true.

Lemma kept_afterFinalInfo core header (s : St) : keeps evolves (afterFinalInfo core header) s.
Proof. unfold afterFinalInfo, broadcastBlockDataLeader. keep; auto using kept_commit. Qed.

Lemma finalInfo_message core (st : St) h sig leader h1 h2 h3 hl b ls :
  let bm := GenerateBitmap (cns st) SrSignature in
  let c := set_Header (Some h3) (set_Header (Some h2) (set_Header (Some h1) (cns st))) in
  SetPubKeysBitmap h (Some bm) = Some h1 -> SetSignature h1 (Some sig) = Some h2 ->
  SetLeaderSignature h2 (Some ls) = Some h3 -> SetLeaderSignature h2 None = Some hl ->
  MarshalHeader core hl = Some b -> CreateSignatureForPublicKey (signing core) (Some b) leader = inr ls ->
  finalInfo core st h sig leader (finalInfoMessage core c h3 leader).
Proof.
  intros bm c E1 E2 E3 E4 E5 E6.
  pose proof (leader_set _ _ _ E3) as (L1 & L2 & L3). pose proof (signature_set _ _ _ E2) as [S1 S2].
  pose proof (bitmap_set _ _ _ E1) as B1.
  assert (Hbm : GetPubKeysBitmap h3 = Some bm) by congruence.
  split; try done; simpl; [congruence|].
  intros h'. unfold headerWithInfo. simpl. rewrite Hbm, E1, L2, S1, E2, L1. intros E.
  exists hl, b, ls. repeat split; try done. rewrite <- E4. by apply (leader_cleared h2 (Some ls)).
Qed.

Lemma leader_job core (st : St) h sig leader : leaderReady core st h sig leader ->
  exists m, EvBroadcast m ∈ trace (fst (run (doEndRoundJobByLeader core) st)) /\
    finalInfo core st h sig leader m.
Proof.
  intros Hr. pose proof (aggregate_ready _ _ _ _ _ Hr) as Hag. destruct Hr as [L1 L2 L3 L4 L5 L6 L7 L8].
  set (bm := GenerateBitmap (cns st) SrSignature) in *.
  destruct (completeHeader_ready core (afterSig st sig) h bm sig leader L2 L5 L6)
    as (h1 & h2 & h3 & hl & b & ls & E1 & E2 & E3 & E4 & E5 & E6 & Ec).
  set (c := set_Header (Some h3) (set_Header (Some h2) (set_Header (Some h1) (cns st)))).
  exists (finalInfoMessage core c h3 leader). split; [|by eapply finalInfo_message].
  assert (Hrun : doEndRoundJobByLeader core st = afterFinalInfo core h3
    (mkSrState c (SetAggregatedSig (Some sig) (holder st)) (trace st ++ [EvBroadcast (finalInfoMessage core c h3 leader)]))).
  { unfold doEndRoundJobByLeader. rewrite bind_getCns. cbn beta zeta. fold bm.
    rewrite (bind_okOr _ tt) by apply checkSignatures_generated.
    rewrite (bind_someOr _ h) by done. rewrite run_bind. unfold onErr. rewrite Hag. cbn beta iota.
    rewrite run_bind, Ec. cbn beta iota. rewrite bind_require by done. rewrite bind_require by lia.
    rewrite run_bind. unfold createAndBroadcastHeaderFinalInfo. rewrite bind_getCns. cbn beta.
    cbn [cns holder trace afterSig]. fold c.
    assert (Hlc : GetLeader c = inr leader) by exact L2. rewrite Hlc. reflexivity. }
  rewrite fst_run, Hrun.
  destruct (ev_trace _ _ (kept_afterFinalInfo core h3 (mkSrState c (SetAggregatedSig (Some sig) (holder st))
    (trace st ++ [EvBroadcast (finalInfoMessage core c h3 leader)])))) as (new & -> & _).
  simpl. set_solver.
Qed.

(** ** The participants *)

(** A participant that works on the leader's header, with the same consensus group and
    the leader's public key. *)
Record follows (core : ConsensusCore H B P2P) (c : ConsensusState H B P2P) (h : H) (leader : bytes)
    (core' : ConsensusCore H B P2P) (c' : ConsensusState H B P2P) : Prop := {
  fo_header : Header c' = Some h;
  fo_agrees : agrees core (headerSigVerifier core') c h;
  fo_group : hsvComputeConsensusGroup (headerSigVerifier core') (GetPrevRandSeed h) (GetRound h) (GetShardID h)
    (consensusEpoch h) = Some (ConsensusGroup c);
  fo_key : PublicKeyFromByteArray (headerSigVerifier core') leader = true;
  fo_marshal : forall hd b, MarshalHeader core hd = Some b -> hsvMarshal (headerSigVerifier core') hd = Some b;
  fo_verify : forall msg sig, CreateSignatureForPublicKey (signing core) msg leader = inr sig ->
    SingleVerify (headerSigVerifier core') leader msg (Some sig) = true;
}.

Lemma VerifyLeaderSignature_final core (st : St) h sig leader m core' c' h' :
  follows core (cns st) h leader core' c' -> finalInfo core st h sig leader m ->
  GetLeader (cns st) = inr leader -> headerWithInfo h m = Some h' ->
  VerifyLeaderSignature (headerSigVerifier core') h' = inr tt.
Proof.
  intros [F1 F2 F3 F4 F5 F6] Hfi Hlead Hh.
  destruct (fi_leader _ _ _ _ _ _ Hfi h' Hh) as (hl & b & ls & E1 & E2 & E3 & E4).
  destruct (headerWithInfo_total h m) as (h'' & Hh'' & A1 & A2 & A3 & A4 & A5 & A6 & A7 & A8 & A9).
  rewrite Hh in Hh''. injection Hh'' as <-.
  assert (Hep : consensusEpoch h' = consensusEpoch h) by (unfold consensusEpoch; by rewrite A9, A5).
  unfold VerifyLeaderSignature, getLeader, ComputeConsensusGroup. rewrite A8, A6, A7, Hep, F3. simpl.
  unfold GetLeader in Hlead. unfold ConsensusGroup, group.
  destruct (consensusGroup (roundConsensusOf (cns st))) as [[|pk g]|]; try done. injection Hlead as ->. simpl.
  rewrite F4. unfold verifyLeaderSignature, copyHeaderWithoutLeaderSig, setH. rewrite E1. simpl.
  rewrite (F5 _ _ E2). simpl. rewrite A3, E4. unfold verified. by rewrite (F6 _ _ E3).
Qed.

(** The final information is valid for the participant. *)
Lemma finalInfo_valid core (st : St) h sig leader m core' c' :
  leaderReady core st h sig leader -> finalInfo core st h sig leader m ->
  follows core (cns st) h leader core' c' -> pubKeys (holder st) = ConsensusGroup (cns st) ->
  IsJobDone (cns st) leader SrSignature = true ->
  GetPBFTThreshold (headerSigVerifier core') (Z.of_nat (length (ConsensusGroup (cns st))))
    <= ComputeSize (cns st) SrSignature ->
  isBlockHeaderFinalInfoValid core' c' m = true.
Proof.
  intros Hr Hfi Hfo Hpk Hdone Hthr.
  destruct (headerWithInfo_total h m) as (h' & Hh & A1 & A2 & A3 & A4 & A5 & A6 & A7 & A8 & A9).
  unfold isBlockHeaderFinalInfoValid. rewrite (fo_header _ _ _ _ _ _ Hfo), Hh.
  rewrite (VerifyLeaderSignature_final _ _ _ _ _ _ _ _ _ Hfo Hfi (lr_leader _ _ _ _ _ Hr) Hh).
  rewrite (VerifySignature_generated core (headerSigVerifier core') (cns st) (holder st) h h' sig leader); try done.
  - apply Hfo.
  - by rewrite A1, (fi_bitmap _ _ _ _ _ _ Hfi).
  - by rewrite A2, (fi_sig _ _ _ _ _ _ Hfi).
  - apply Hr.
  - apply Hr.
Qed.
End Leader.

(** ** The commit of a block by a participant *)

(** ** What a computation adds to the trace *)

Section Grows.
Context {H B P2P : Type} `{HeaderHandler H}.
Notation St := (srState H B P2P).
Variable Q : event H B -> Prop.

Definition grows (s s' : St) : Prop := exists new, trace s' = trace s ++ new /\ Forall Q new.

#[global] Instance grows_preorder : PreOrder grows.
Proof.
  split; [intros s; exists []; by rewrite app_nil_r|].
  intros s1 s2 s3 (n1 & E1 & F1) (n2 & E2 & F2). exists (n1 ++ n2).
  split; [by rewrite E2, E1, app_assoc|by apply Forall_app].
Qed.

Lemma grows_same (s s' : St) : trace s' = trace s -> grows s s'.
Proof. intros E. exists []. by rewrite app_nil_r. Qed.

Lemma grows_modCns {E} f (s : St) : keeps grows (modCns f : SE St E unit) s.
Proof. by apply grows_same. Qed.

Lemma grows_emit {E} e (s : St) : Q e -> keeps grows (emit e : SE St E unit) s.
Proof. intros He. exists [e]. split; [done|by constructor]. Qed.

Lemma grows_require b (s : St) : keeps grows (require b) s.
Proof. destruct b; [apply keeps_ret|apply keeps_throw]; apply _. Qed.

Lemma grows_outcome {E} (m : SE St bool bool) (s : St) : keeps grows m s -> keeps grows (outcome m : SE St E bool) s.
Proof. unfold keeps, outcome. by destruct (m s) as [s' [b|b]]. Qed.
End Grows.

#[export] Hint Resolve grows_modCns grows_require grows_outcome : keeps.

Section Commit.
Context {H B P2P : Type} `{HeaderHandler H}.
Notation St := (srState H B P2P).
Variable core : ConsensusCore H B P2P.

(** The only block that is committed is [h]. *)
Definition commitsOnly (P : H -> Prop) (e : event H B) : Prop := forall h b, e = EvCommitBlock h b -> P h.

Lemma grows_quiet {E} P e (s : St) : (forall h b, e <> EvCommitBlock h b) ->
  keeps (grows (commitsOnly P)) (emit e : SE St E unit) s.
Proof. intros He. apply grows_emit. intros h b ->. by destruct (He h b). Qed.

Lemma commit_grows (P : H -> Prop) header (s : St) : P header -> keeps (grows (commitsOnly P)) (commit core header) s.
Proof.
  intros HP. unfold commit. keep.
  apply grows_emit. by intros h b [= -> _].
Qed.

Lemma commitByParticipant_grows (P : H -> Prop) header (s : St) : P header ->
  keeps (grows (commitsOnly P)) (commitByParticipant core header) s.
Proof.
  intros HP. unfold commitByParticipant, isOutOfTime, setHeaderForValidator. keep; auto using commit_grows.
  all: by apply grows_quiet.
Qed.

(** A participant commits the header with the information of the message, or one it has
    received that is the header it works on. *)
Lemma participant_grows cnsDta (s : St) :
  keeps (grows (commitsOnly (fun h => haveConsensusHeaderWithFullInfo core (cns s) cnsDta = Some h)))
    (doEndRoundJobByParticipant core cnsDta) s.
Proof.
  unfold doEndRoundJobByParticipant. keep.
  apply grows_outcome. by apply commitByParticipant_grows.
Qed.

(** The header with the information of a valid message. *)
Definition verifiedWith (c : ConsensusState H B P2P) (m : Message) (h : H) : Prop :=
  exists header, Header c = Some header /\ headerWithInfo header m = Some h /\
    VerifyLeaderSignature (headerSigVerifier core) h = inr tt /\ VerifySignature (headerSigVerifier core) h = inr tt /\
    IsNodeLeaderInCurrentRound c (mPubKey m) = true /\ IsConsensusDataEqual c (BlockHeaderHash m) = true.

Lemma valid_verified (c : ConsensusState H B P2P) m : isBlockHeaderFinalInfoValid core c m = true ->
  exists header h, Header c = Some header /\ headerWithInfo header m = Some h /\
    VerifyLeaderSignature (headerSigVerifier core) h = inr tt /\ VerifySignature (headerSigVerifier core) h = inr tt.
Proof.
  unfold isBlockHeaderFinalInfoValid. destruct (Header c) as [header|] eqn:E0; [|done].
  destruct (headerWithInfo header m) as [h|] eqn:E3; [|done].
  destruct (VerifyLeaderSignature _ h) as [|[]] eqn:E1; [done|].
  destruct (VerifySignature _ h) as [|[]] eqn:E2; [done|]. intros _. by exists header, h.
Qed.

Lemma finalInfo_grows m (s : St) :
  keeps (grows (commitsOnly (verifiedWith (cns s) m))) (receivedBlockHeaderFinalInfo core m) s.
Proof.
  unfold receivedBlockHeaderFinalInfo. apply keeps_gets_bind. apply kept_require_bind; [apply _|intros _].
  destruct (IsNodeLeaderInCurrentRound (cns s) (mPubKey m)) eqn:Hlead; cbn [negb];
    [|by apply keeps_bind; [apply _|keep; apply grows_quiet|intros ? ? _ [=]]].
  apply keeps_bind; [apply _|apply keeps_ret; apply _|]. intros ? ? _ [= <- _].
  apply kept_require_bind; [apply _|intros _]. apply kept_require_bind; [apply _|intros Heq].
  apply kept_require_bind; [apply _|intros _]. apply kept_require_bind; [apply _|intros Hval].
  destruct (valid_verified _ _ Hval) as (header & h & A1 & A2 & A3 & A4).
  apply keeps_bind; [apply _|by apply grows_quiet|]. intros s' ? _ [= <- _].
  destruct (participant_grows (Some m) (mkSrState (cns s) (holder s)
    (trace s ++ [EvChangeScore (mPubKey m) LeaderPeerHonestyIncreaseFactor]))) as (new & E & F).
  exists new. split; [done|]. eapply Forall_impl; [exact F|]. intros e He h' b Hb. specialize (He h' b Hb).
  simpl in He. rewrite A1, A2 in He. injection He as <-. by exists header.
Qed.

(** ** The commit goes through *)

(** What the participant has when it may commit. *)
Record readyToCommit (c : ConsensusState H B P2P) (m : Message) (h : H) : Prop := {
  rc_data : IsConsensusDataSet c = true;
  rc_leader : IsNodeLeaderInCurrentRound c (mPubKey m) = true;
  rc_self : SelfIsLeader core c = false;
  rc_hash : IsConsensusDataEqual c (BlockHeaderHash m) = true;
  rc_message : CanProcessReceivedMessage c (mPubKey m) (mRoundIndex m) (roundIndex core) SrEndRound = true;
  rc_canceled : RoundCanceled c = false;
  rc_extended : ExtendedCalled c = false;
  rc_signature : IsSubroundFinished c SrSignature = true;
  rc_header : exists header, Header c = Some header /\ headerWithInfo header m = Some h;
  rc_round : roundIndex core <= i64 (GetRound h);
  rc_time : 0 <= RemainingTime core (RoundTimeStamp c) (maxTime core);
  rc_processed : IsProcessedOKWithTimeout core = true;
  rc_commit : CommitBlock core h (Body c) = true;
}.

Lemma ready_endRound c m h : readyToCommit c m h -> IsSubroundFinished c SrEndRound = false.
Proof.
  intros [_ _ _ _ R _ _ _ _ _ _ _ _]. unfold CanProcessReceivedMessage in R.
  destruct (IsNodeSelf _ _); [done|]. destruct (negb _); [done|]. destruct (IsJobDone _ _ _); [done|].
  by destruct (IsSubroundFinished c SrEndRound).
Qed.

Lemma setHeader_run header (s : St) : exists new,
  setHeaderForValidator core header s = (mkSrState (cns s) (holder s) (trace s ++ new), inr tt).
Proof.
  unfold setHeaderForValidator. rewrite bind_getCns. cbn beta. destruct (getIndexPkAndDataToBroadcast core (cns s)) as [[i pk]|].
  - by exists [EvPrepareHeaderValidator header i pk].
  - exists []. rewrite app_nil_r. by destruct s.
Qed.

(** The part of [commitByParticipant] that commits. *)
Lemma commitByParticipant_run c m h (s : St) : readyToCommit c m h ->
  cns s = SetProcessingBlock true c ->
  exists new, commitByParticipant core h s =
    (mkSrState (SetStatus SrEndRound SsFinished (cns s)) (holder s) (trace s ++ [EvCommitBlock h (Body c)] ++ new),
     inl true).
Proof.
  intros Hr Hc. pose proof Hr as [_ _ _ _ _ _ Hx _ _ Hround Htime Hproc Hcommit].
  unfold commitByParticipant. rewrite bind_getCns. cbn beta. rewrite bind_require.
  2:{ rewrite Hc. simpl. rewrite Hx. simpl. apply negb_true_iff, Z.ltb_ge. lia. }
  unfold isOutOfTime. rewrite run_bind, bind_getCns. cbn beta.
  assert (Ht : (RemainingTime core (RoundTimeStamp (cns s)) (maxTime core) <? 0) = false)
    by (rewrite Hc; by apply Z.ltb_ge).
  rewrite Ht. cbn. rewrite Hproc. cbn.
  assert (Hcb : CommitBlock core h (Body (cns s)) = true) by (by rewrite Hc).
  unfold commit, bind, getCns, gets, emit, modify, require, ret. simpl. rewrite Hcb. simpl.
  assert (Hb : Body (cns s) = Body c) by (by rewrite Hc). rewrite Hb.
  destruct (SelfInGroup core (cns s)).
  - match goal with |- context [setHeaderForValidator core h ?s'] => destruct (setHeader_run h s') as [new E] end.
    rewrite E. simpl. exists new. by rewrite <- app_assoc.
  - by exists [].
Qed.
End Commit.
