(* ===== verification/ConsensusExample.v ===== *)
(** * A network of three nodes: concrete headers, signatures and collaborators, and one
    round run by the leader and by a participant. *)

From stdpp Require Import base list gmap relations.
From Stdlib Require Import ZArith Lia.
From S2P Require Import Prelude Bitmap ConsensusState HeaderHandler HeaderCheck SigningHandler.
From S2P Require Import SubroundCore SubroundBlock SubroundSignature SubroundEndRound SubroundRound.

(** ** Headers *)

Record hdr := mkHdr {
  hRound : Z;
  hNonce : Z;
  hPrevHash : slice;
  hPrevSeed : slice;
  hSeed : slice;
  hBitmap : slice;
  hSig : slice;
  hLeader : slice;
}.

#[global] Instance hdr_handler : HeaderHandler hdr := {
  GetEpoch _ := 0;
  GetRound := hRound;
  GetNonce := hNonce;
  GetShardID _ := 0;
  GetPrevHash := hPrevHash;
  GetPrevRandSeed := hPrevSeed;
  GetRandSeed := hSeed;
  IsStartOfEpochBlock _ := false;
  CheckFieldsForNil _ := true;
  GetPubKeysBitmap := hBitmap;
  GetSignature := hSig;
  GetLeaderSignature := hLeader;
  SetPubKeysBitmap h v := Some (mkHdr (hRound h) (hNonce h) (hPrevHash h) (hPrevSeed h) (hSeed h) v (hSig h) (hLeader h));
  SetSignature h v := Some (mkHdr (hRound h) (hNonce h) (hPrevHash h) (hPrevSeed h) (hSeed h) (hBitmap h) v (hLeader h));
  SetLeaderSignature h v := Some (mkHdr (hRound h) (hNonce h) (hPrevHash h) (hPrevSeed h) (hSeed h) (hBitmap h) (hSig h) v);
  SetPrevHash h v := Some (mkHdr (hRound h) (hNonce h) v (hPrevSeed h) (hSeed h) (hBitmap h) (hSig h) (hLeader h));
  SetShardID h _ := Some h;
  SetTimeStamp h _ := Some h;
  SetPrevRandSeed h v := Some (mkHdr (hRound h) (hNonce h) (hPrevHash h) v (hSeed h) (hBitmap h) (hSig h) (hLeader h));
  SetRandSeed h v := Some (mkHdr (hRound h) (hNonce h) (hPrevHash h) (hPrevSeed h) v (hBitmap h) (hSig h) (hLeader h));
  SetChainID h _ := Some h;
}.

#[global] Instance hdr_laws : HeaderLaws hdr.
Proof.
  split; simpl; try (intros; eauto; fail).
  - by intros h v h' [= <-].
  - by intros h v h' [= <-].
  - by intros h v h' [= <-].
  - by intros h v h' [= <-].
  - intros h h' [v [= <-]|v [= <-]|v [= <-]]; done.
  - intros h h' [v [= <-]|v [= <-]|v [= <-]]; done.
Qed.

Definition encodeSlice (s : slice) : bytes :=
  match s with None => [0] | Some l => 1 :: blen l :: l end.

Definition decodeSlice (b : bytes) : option (slice * bytes) :=
  match b with
  | 0 :: b => Some (None, b)
  | 1 :: n :: b => Some (Some (take (Z.to_nat n) b), drop (Z.to_nat n) b)
  | _ => None
  end.

Definition encodeHdr (h : hdr) : bytes :=
  hRound h :: hNonce h :: encodeSlice (hPrevHash h) ++ encodeSlice (hPrevSeed h) ++ encodeSlice (hSeed h) ++
    encodeSlice (hBitmap h) ++ encodeSlice (hSig h) ++ encodeSlice (hLeader h).

Definition decodeHdr (b : slice) : option hdr :=
  match b with
  | Some (r :: n :: b) =>
      '(ph, b) ← decodeSlice b; '(ps, b) ← decodeSlice b; '(sd, b) ← decodeSlice b;
      '(bm, b) ← decodeSlice b; '(sg, b) ← decodeSlice b; '(ls, _) ← decodeSlice b;
      Some (mkHdr r n ph ps sd bm sg ls)
  | _ => None
  end.

(** ** Signatures: the key before the message *)

Definition signWith (key : bytes) (msg : slice) : bytes := key ++ default [] msg.

Definition exSigner : MultiSigner := mkMultiSigner
  (fun key msg => Some (signWith key msg))
  (fun key msg sig => beq sig (signWith key msg))
  (fun _ sigs => Some (concat (map (default []) sigs)))
  (fun keys msg sig => beq (default [] sig) (concat (map (fun k => signWith k msg) keys))).

Definition exSigning (own : bytes) : signEnv := mkSignEnv
  (fun _ => Some exSigner)
  (fun key msg => Some (signWith key msg))
  (fun key msg sig => beq (default [] sig) (signWith key msg))
  (fun _ => true)
  (fun pk => if beq pk own then Some pk else None).

(** ** The nodes *)

Definition exGroup : list bytes := [[1]; [2]; [3]].

(** GetPBFTThreshold and GetPBFTFallbackThreshold of mx-chain-core-go. *)
Definition twoThirds (n : Z) : Z := 2 * n / 3 + 1.
Definition half (n : Z) : Z := n / 2 + 1.

Definition hsvOf (g : list bytes) : HeaderSigVerifier hdr := mkHeaderSigVerifier
  (fun _ _ _ _ => Some g) (fun _ _ _ _ => Some g) (fun _ => Some exSigner) (fun _ => true)
  (fun key msg sig => beq (default [] sig) (signWith key msg))
  (fun h => Some (encodeHdr h)) (fun b => b) (fun _ => false) twoThirds half.

Definition exGenesis : hdr := mkHdr 0 0 None None (Some [9]) None None None.

Abbreviation Core := (ConsensusCore hdr bytes Message).
Abbreviation St := (srState hdr bytes Message).

(** The node with the key [own], that manages no other. *)
Definition exCore (own : bytes) : Core := mkCore
  1 1 6 6 (fun _ _ => 5) 80 false true (fun _ => false) (fun pk => pk) true
  None None (Some exGenesis) (Some [7]) 0 [0] 1048576
  (fun _ _ _ _ => Some exGroup)
  (fun round nonce => Some (mkHdr round nonce None None None None None None))
  (fun h => Some (h, [42]))
  (fun b => b) decodeHdr (fun _ _ => true) (fun _ _ => true) (fun _ _ => true) true
  (fun h => Some (encodeHdr h)) (fun b => Some b) (fun b => b) (fun _ => true)
  (fun _ => None) (fun _ => Some []) (fun _ => true) (fun m => Some m) (fun m => mPubKey m)
  (fun _ => false) (exSigning own) (hsvOf exGroup).

Definition noKeys : bytes -> bool := fun _ => false.

(** A node that has just been started. *)
Definition exNode (own : bytes) : St := mkSrState
  (initConsensusThreshold (exCore own)
    (NewConsensusState (NewRoundConsensus (list_to_set exGroup) 3 own) NewRoundThreshold NewRoundStatus))
  (mkHolder [] [] None) [].

Definition after (m : SE St bool bool) (s : St) : St := fst (run m s).

Definition exReset (own : bytes) : St := after (doStartRoundJob (exCore own)) (exNode own).
Definition exStarted (own : bytes) : St := after (initCurrentRound (exCore own)) (exReset own).

(** The last message of a type that a node has sent. *)
Definition lastSent (t : Z) (s : St) : option Message :=
  last (omap (fun e => match e with EvBroadcast m => if mMsgType m =? t then Some m else None | _ => None end) (trace s)).

Definition emptyMessage : Message := NewConsensusMessage None None None None [] None 0 0 None None None None [] None.
Definition sent (t : Z) (s : St) : Message := default emptyMessage (lastSent t s).

Lemma sent_traced t (s : St) : is_Some (lastSent t s) -> EvBroadcast (sent t s) ∈ trace s /\ mMsgType (sent t s) = t.
Proof.
  intros [m Hm]. unfold sent. rewrite Hm. simpl. unfold lastSent in Hm. apply last_Some_elem_of in Hm.
  apply list_elem_of_omap in Hm as (e & He & Hr). destruct e; try done.
  destruct (_ =? t) eqn:Et; [|done]. injection Hr as <-. split; [done|by apply Z.eqb_eq].
Qed.

(** The leader proposes. *)
Definition exProposed : St := after (Check_ (exCore [1]) Block) (after (Job (exCore [1]) Block) (exStarted [1])).
Definition exProposal : Message := sent MtBlockBodyAndHeader exProposed.

(** The others receive the block and sign it. *)
Definition exReceived (own : bytes) : St := after (receivedMessageCall (exCore own) exProposal) (exStarted own).
Definition exChecked (own : bytes) : St := after (Check_ (exCore own) Block) (exReceived own).
Definition exSigned (own : bytes) : St := after (Job (exCore own) Signature) (exChecked own).
Definition exWaiting (own : bytes) : St := after (Check_ (exCore own) Signature) (exSigned own).

(** The leader signs, and collects the signatures of the others. *)
Definition exCollected : St :=
  let s := after (Job (exCore [1]) Signature) exProposed in
  let s := after (receivedMessageCall (exCore [1]) (sent MtSignature (exSigned [2]))) s in
  let s := after (receivedMessageCall (exCore [1]) (sent MtSignature (exSigned [3]))) s in
  after (Check_ (exCore [1]) Signature) s.

Definition exEnded : St := after (doEndRoundJobByLeader (exCore [1])) exCollected.
Definition exFinalInfo : Message := sent MtBlockHeaderFinalInfo exEnded.
Definition exCommitted (own : bytes) : St := after (receivedMessageCall (exCore own) exFinalInfo) (exWaiting own).

(** ** Runs as steps *)

Lemma then_message managed (core : Core) s0 s m : roundSteps managed s0 s ->
  IsKeyManagedByCurrentNode core = managed -> checkSelfState managed (cns s) m = true ->
  roundSteps managed s0 (after (receivedMessageCall core m) s).
Proof. intros Hs Hm Hc. eapply rtc_r; [exact Hs|]. by apply step_message. Qed.

Lemma then_job managed (core : Core) s0 s sr : roundSteps managed s0 s ->
  IsKeyManagedByCurrentNode core = managed -> sr <> StartRound ->
  roundSteps managed s0 (after (Job core sr) s).
Proof. intros Hs Hm Hsr. eapply rtc_r; [exact Hs|]. by apply step_job. Qed.

Lemma then_check managed (core : Core) s0 s sr : roundSteps managed s0 s ->
  IsKeyManagedByCurrentNode core = managed -> roundSteps managed s0 (after (Check_ core sr) s).
Proof. intros Hs Hm. eapply rtc_r; [exact Hs|]. by apply step_check. Qed.
