(* ===== verification/ConsensusTheorems.v ===== *)
(** * What the BLS consensus guarantees: one block is signed per round, two quorums share
    more than a third of the group, the final information of the leader is accepted and
    committed, and only verified headers are; with the round of [ConsensusExample] as
    the witness of each hypothesis. *)

From stdpp Require Import base list gmap relations.
From Stdlib Require Import ZArith Lia.
From S2P Require Import Prelude Bitmap ConsensusState HeaderHandler HeaderCheck SigningHandler.
From S2P Require Import SubroundCore SubroundBlock SubroundSignature SubroundEndRound SubroundRound.
From S2P Require Import ConsensusBitmap ConsensusFinal SubroundKeeps RoundInvariant.
From S2P Require Import ConsensusLeader ConsensusExample.

(** ** One round of a node *)

Section Rounds.
Context {H B P2P : Type} `{HeaderHandler H}.
Notation St := (srState H B P2P).

(** C8: from the start of a round on, in whatever order the messages, the jobs, the
    checks and the timeouts come and whatever the messages contain, all the signatures
    a node sends are of one and the same block: the one its state ends with. *)
Theorem one_block_signed_per_round (core : ConsensusCore H B P2P) managed (s0 s1 s2 s : St) :
  run (doStartRoundJob core) s0 = (s1, true) -> run (initCurrentRound core) s1 = (s2, true) ->
  roundSteps managed s2 s ->
  exists new, trace s = trace s0 ++ new /\
    forall m, EvBroadcast m ∈ new -> mMsgType m = MtSignature ->
      BlockHeaderHash m = Data (cns s) /\ Data (cns s) <> None.
Proof.
  intros E1 E2 Hsteps. destruct (doStartRound_run core s0) as (s1' & E1' & (n1 & T1 & F1) & C1).
  rewrite E1 in E1'. injection E1' as <-.
  destruct (initCurrentRound_run core s1 s2 E2) as [Hst (n2 & T2 & F2)]; [by rewrite C1|].
  destruct (ri_signed _ _ _ (proj1 (roundInv_steps managed _ _ _ Hsteps (roundInv_start managed s2 Hst))))
    as (n3 & T3 & F3).
  exists (n1 ++ n2 ++ n3). split; [by rewrite T3, T2, T1, <- !app_assoc|].
  intros m Hm Ht. rewrite Forall_forall in F1, F2, F3.
  apply elem_of_app in Hm as [Hm|[Hm|Hm]%elem_of_app].
  - by destruct (F1 _ Hm m).
  - by destruct (F2 _ Hm m).
  - by apply (F3 _ Hm m).
Qed.

End Rounds.

(** ** Bitmaps and quorums *)

(** The bitmap a node generates for a subround says who has done its job: bit [i] is
    set exactly when member [i] of the group has, it has as many ones as ComputeSize
    counts, and the signers read back from it are those members, in the order of the
    group. *)
Theorem generated_bitmap {H B P2P} (c : ConsensusState H B P2P) sr :
  (forall i, 0 <= i -> bitOf (GenerateBitmap c sr) i =
     match ConsensusGroup c !! Z.to_nat i with Some pk => IsJobDone c pk sr | None => false end) /\
  onesOf (GenerateBitmap c sr) = ComputeSize c sr /\
  ComputeSignersPublicKeys (ConsensusGroup c) (GenerateBitmap c sr) =
    filter (fun pk => IsJobDone c pk sr = true) (ConsensusGroup c).
Proof.
  split; [by apply GenerateBitmap_bit|]. split; [apply onesOf_GenerateBitmap|].
  rewrite computeSigners_chosen; [apply GenerateBitmap_chosen|].
  rewrite blen_GenerateBitmap. pose proof (bitmapSize_bounds (Z.of_nat (length (ConsensusGroup c)))). lia.
Qed.

(** the three routines that read a bitmap (of the leader, of the verification of
    headers and of the holder of the signatures) take the same signers from it. *)
Theorem bitmap_readers_agree (g : list bytes) bm sh : pubKeys sh = g ->
  Z.of_nat (length g) <= 8 * blen bm < 2 ^ 16 ->
  ComputeSignersPublicKeys g bm = signersLoop g 0 bm /\ inBitmap sh bm (pubKeys sh) = signersLoop g 0 bm.
Proof.
  intros Hpk Hlen. rewrite signersLoop_pick by lia. split; [apply computeSigners_chosen; lia|].
  rewrite inBitmap_chosen by (rewrite Hpk; lia). by rewrite Hpk.
Qed.

Section Quorums.
Context {H : Type} `{HeaderHandler H}.
Variable hsv : HeaderSigVerifier H.

Definition groupOf (h : H) : option (list bytes) :=
  GetConsensusValidatorsPublicKeys hsv (GetPrevRandSeed h) (GetRound h) (GetShardID h) (consensusEpoch h).

Definition bitmapOf (h : H) : bytes := default [] (GetPubKeysBitmap h).

(** The positions of the bitmap after the last member. *)
Definition paddingOnes (n : Z) (bitmap : bytes) : Z :=
  Z.of_nat (length (filter (fun j => bitOf bitmap j = true) (seqZ n (8 * blen bitmap - n)))).

(** How many signatures a header needs. *)
Definition thresholdOf (h : H) (n : Z) : Z :=
  if ShouldApplyFallbackValidation hsv h then GetPBFTFallbackThreshold hsv n else GetPBFTThreshold hsv n.

Lemma verifySize_spec h g : blen (bitmapOf h) = bitmapSize (Z.of_nat (length g)) ->
  verifyConsensusSize hsv g h =
  if thresholdOf h (Z.of_nat (length g)) <=?
     Z.of_nat (length (chosen (bitmapOf h) g)) + paddingOnes (Z.of_nat (length g)) (bitmapOf h)
  then inr tt else inl ErrNotEnoughSignatures.
Proof.
  intros Hlen. unfold verifyConsensusSize. fold (bitmapOf h). rewrite Hlen, Z.eqb_refl. simpl. fold (thresholdOf h (Z.of_nat (length g))).
  rewrite (onesOf_chosen (bitmapOf h) g); [done|].
  pose proof (bitmapSize_bounds (Z.of_nat (length g))). lia.
Qed.

(** what a header with a bitmap of the right size needs to be accepted: the bits of
    the bitmap after the last member of the group count as signatures too. *)
Theorem padding_bits_count h g : groupOf h = Some g -> 0 < Z.of_nat (length g) < 2 ^ 16 - 8 ->
  blen (bitmapOf h) = bitmapSize (Z.of_nat (length g)) -> bitOf (bitmapOf h) 0 = true ->
  getConsensusSigners hsv h =
  if thresholdOf h (Z.of_nat (length g)) <=?
     Z.of_nat (length (chosen (bitmapOf h) g)) + paddingOnes (Z.of_nat (length g)) (bitmapOf h)
  then inr (chosen (bitmapOf h) g) else inl ErrNotEnoughSignatures.
Proof.
  intros Hg Hn Hlen Hbit. pose proof (bitmapSize_bounds (Z.of_nat (length g))) as Hsz.
  unfold getConsensusSigners. fold (bitmapOf h). rewrite (proj2 (Z.eqb_neq _ _)) by lia.
  pose proof (maskAt_zero (bitmapOf h) 0 ltac:(lia)) as Hm. rewrite Hbit in Hm. unfold maskAt in Hm.
  change (u8 (Z.shiftl 1 (0 mod 8))) with 1 in Hm. rewrite Hm. simpl negb. cbn iota.
  unfold groupOf in Hg. rewrite Hg. simpl. rewrite verifySize_spec by done.
  destruct (_ <=? _); [|done]. simpl. by rewrite signersLoop_pick by lia.
Qed.

(** What an accepted header shows. *)
Lemma accepted_signers h g s : groupOf h = Some g -> Z.of_nat (length g) < 2 ^ 16 - 8 ->
  noPadding (Z.of_nat (length g)) (bitmapOf h) -> getConsensusSigners hsv h = inr s ->
  s = chosen (bitmapOf h) g /\ thresholdOf h (Z.of_nat (length g)) <= Z.of_nat (length s).
Proof.
  intros Hg Hn Hpad. unfold getConsensusSigners. fold (bitmapOf h).
  destruct (_ =? 0); [done|]. destruct (_ =? 0); [done|]. unfold groupOf in Hg. rewrite Hg. simpl.
  pose proof (bitmapSize_bounds (Z.of_nat (length g))) as Hsz.
  destruct (Z.eq_dec (blen (bitmapOf h)) (bitmapSize (Z.of_nat (length g)))) as [Hlen|Hne].
  2:{ unfold verifyConsensusSize. fold (bitmapOf h). by rewrite (proj2 (Z.eqb_neq _ _)) by done. }
  rewrite verifySize_spec by done.
  assert (Hp : paddingOnes (Z.of_nat (length g)) (bitmapOf h) = 0).
  { unfold paddingOnes. rewrite filter_none_length; [done|]. intros j Hj%elem_of_seqZ. rewrite Hpad by lia. done. }
  rewrite Hp. destruct (Z.leb_spec (thresholdOf h (Z.of_nat (length g)))
    (Z.of_nat (length (chosen (bitmapOf h) g)) + 0)); [|done].
  simpl. rewrite signersLoop_pick by lia. intros [= <-]. split; [done|]. unfold chosen in *. lia.
Qed.

(** C9: two accepted headers of the same group, with clean bitmaps, were signed in common
    by members of it, of whom there are more the stronger the validation was.  When neither
    header falls under the fallback validation, by more than a third of the group: two
    conflicting blocks of a round cannot both be accepted unless more than a third of the
    group signs twice.  When one of them does, which is for a start of epoch of the
    metachain after a long time without blocks, by more than a sixth; when both do, still
    by at least one member.  A bitmap is clean when no bit after the last member is set,
    and the group has less than 2^16 - 8 members.  The two thresholds of mx-chain-core-go
    are more than two thirds and more than half of the group. *)
Theorem quorum_intersection h1 h2 g s1 s2 :
  groupOf h1 = Some g -> groupOf h2 = Some g -> NoDup g -> 0 < Z.of_nat (length g) < 2 ^ 16 - 8 ->
  noPadding (Z.of_nat (length g)) (bitmapOf h1) -> noPadding (Z.of_nat (length g)) (bitmapOf h2) ->
  (forall n, 0 <= n -> 2 * n < 3 * GetPBFTThreshold hsv n /\ n < 2 * GetPBFTFallbackThreshold hsv n) ->
  getConsensusSigners hsv h1 = inr s1 -> getConsensusSigners hsv h2 = inr s2 ->
  exists common, NoDup common /\ common ⊆ s1 /\ common ⊆ s2 /\
    let fallback1 := ShouldApplyFallbackValidation hsv h1 in
    let fallback2 := ShouldApplyFallbackValidation hsv h2 in
    (if fallback1 && fallback2 then 0 < Z.of_nat (length common)
     else if fallback1 || fallback2 then Z.of_nat (length g) < 6 * Z.of_nat (length common)
     else Z.of_nat (length g) < 3 * Z.of_nat (length common)).
Proof.
  intros G1 G2 Hnd Hn P1 P2 Hpbft E1 E2.
  destruct (accepted_signers h1 g s1) as [-> L1]; try done; [lia|].
  destruct (accepted_signers h2 g s2) as [-> L2]; try done; [lia|].
  destruct (quorums_meet _ _ _ _ _ L1 L2) as (k & K1 & K2 & K3). exists k.
  pose proof (chosen_sub (bitmapOf h1) g) as Hsub. destruct (Hpbft (Z.of_nat (length g)) ltac:(lia)) as [T1 T2].
  split; [|split; [|split]].
  - apply (sublist_NoDup _ g); [done|]. by transitivity (chosen (bitmapOf h1) g).
  - intros x Hx. eapply elem_of_submseteq; [exact Hx|by apply sublist_submseteq].
  - intros x Hx. eapply elem_of_submseteq; [exact Hx|by apply sublist_submseteq].
  - unfold thresholdOf in K3. cbv zeta.
    destruct (ShouldApplyFallbackValidation hsv h1), (ShouldApplyFallbackValidation hsv h2); simpl; lia.
Qed.
End Quorums.

(** ** The end of a round *)

Section Ends.
Context {H B P2P : Type} `{HL : HeaderLaws H}.
Notation St := (srState H B P2P).

(** C10: the leader whose signatures aggregate and verify sends a final information that
    is valid for every participant that works on the same header, with the same group
    and the leader's public key, once as many have signed as the participant asks for. *)
Theorem final_info_accepted (core : ConsensusCore H B P2P) (st : St) h sig leader :
  leaderReady core st h sig leader -> pubKeys (holder st) = ConsensusGroup (cns st) ->
  IsJobDone (cns st) leader SrSignature = true ->
  exists m, EvBroadcast m ∈ trace (fst (run (doEndRoundJobByLeader core) st)) /\
    mMsgType m = MtBlockHeaderFinalInfo /\ mPubKey m = leader /\ BlockHeaderHash m = Data (cns st) /\
    forall core' c', follows core (cns st) h leader core' c' ->
      GetPBFTThreshold (headerSigVerifier core') (Z.of_nat (length (ConsensusGroup (cns st))))
        <= ComputeSize (cns st) SrSignature ->
      isBlockHeaderFinalInfoValid core' c' m = true.
Proof.
  intros Hr Hpk Hdone. destruct (leader_job core st h sig leader Hr) as (m & Hm & Hfi).
  exists m. split; [done|]. split; [apply Hfi|]. split; [apply Hfi|]. split; [apply Hfi|].
  intros core' c' Hfo Hthr. by eapply finalInfo_valid.
Qed.
End Ends.

Section Participants.
Context {H B P2P : Type} `{HeaderHandler H}.
Variable core : ConsensusCore H B P2P.
Notation St := (srState H B P2P).

(** C36: a participant that is still in the round commits the block when the final
    information it receives is valid: the handler succeeds, the block with the
    signatures of the message is committed and the round is finished. *)
Theorem final_info_commits m h (s : St) : readyToCommit core (cns s) m h ->
  isBlockHeaderFinalInfoValid core (cns s) m = true ->
  exists s', run (receivedBlockHeaderFinalInfo core m) s = (s', true) /\
    IsSubroundFinished (cns s') SrEndRound = true /\ EvCommitBlock h (Body (cns s)) ∈ trace s' /\
    processingBlock (cns s') = false.
Proof.
  intros Hr Hval. pose proof (ready_endRound core _ _ _ Hr) as Hend.
  destruct Hr as [R1 R2 R3 R4 R5 R6 R7 R8 (header & R9 & R10) R11 R12 R13 R14] eqn:Er. clear Er.
  unfold run, receivedBlockHeaderFinalInfo. rewrite bind_getCns. cbn beta.
  rewrite bind_require by done. rewrite R2. cbn [negb]. rewrite run_bind. unfold ret at 1. cbn beta iota.
  rewrite bind_require by (by rewrite R3). rewrite !bind_require by done. rewrite run_bind.
  unfold changeScore, emit, modify. cbn beta iota.
  unfold doEndRoundJobByParticipant. rewrite bind_getCns. cbn beta. cbn [cns].
  rewrite bind_require by (by rewrite R6). rewrite !bind_require by done. rewrite bind_require by (by rewrite Hend).
  rewrite (bind_someOr _ h) by (simpl; by rewrite R9). rewrite run_bind. unfold modCns, modify. cbn beta iota.
  rewrite run_bind. unfold outcome. cbn [cns holder trace].
  match goal with |- context [commitByParticipant core h ?s'] =>
    destruct (commitByParticipant_run core (cns s) m h s') as [new E]; [|done|] end.
  { split; try done. by exists header. }
  rewrite E. eexists. split; [reflexivity|]. simpl. split; [|split; [set_solver|done]].
  unfold IsSubroundFinished, Status, statusOf. simpl. by rewrite lookup_insert_eq.
Qed.

(** C37: whatever message of final information comes, the participant commits no block but
    its own header with the signatures of the message, these having been verified, the
    leader's and that of the group, and the message being the leader's and about the
    data of the round. *)
Theorem only_verified_committed m (s : St) :
  exists new, trace (fst (run (receivedBlockHeaderFinalInfo core m) s)) = trace s ++ new /\
    forall h b, EvCommitBlock h b ∈ new -> exists header,
      Header (cns s) = Some header /\ headerWithInfo header m = Some h /\
      VerifyLeaderSignature (headerSigVerifier core) h = inr tt /\
      VerifySignature (headerSigVerifier core) h = inr tt /\
      IsNodeLeaderInCurrentRound (cns s) (mPubKey m) = true /\
      IsConsensusDataEqual (cns s) (BlockHeaderHash m) = true.
Proof.
  rewrite fst_run. destruct (finalInfo_grows core m s) as (new & E & F). exists new. split; [done|].
  intros h b Hin. rewrite Forall_forall in F. by apply (F _ Hin h b).
Qed.

(** The thresholds of a node that has just been started. *)
Lemma initial_threshold rcns rst :
  Threshold (initConsensusThreshold core (NewConsensusState (H:=H) (B:=B) (P2P:=P2P) rcns NewRoundThreshold rst)) SrEndRound = 0.
Proof. done. Qed.

(** The threshold of the end round, which is never set, refuses nothing: after the
    signatures of a block fail to aggregate, the leader aggregates those that are left,
    however few. *)
Theorem few_signatures_aggregate managed rcns rst (s0 s : St) h sig :
  started s0 -> roundThresholdOf (cns s0) =
    roundThresholdOf (initConsensusThreshold core (NewConsensusState (H:=H) (B:=B) (P2P:=P2P) rcns NewRoundThreshold rst)) ->
  roundSteps managed s0 s -> Header (cns s) = Some h ->
  AggregateSigs (signing core) (holder s) (Some (GenerateBitmap (cns s) SrSignature)) (GetEpoch h) = inr sig ->
  Threshold (cns s) SrEndRound = 0 /\
  snd (computeAggSigOnValidNodes core s) = inr (GenerateBitmap (cns s) SrSignature, sig).
Proof.
  intros Hst Hthr Hsteps Hh Hagg.
  destruct (roundInv_steps managed s0 s0 s Hsteps (roundInv_start managed s0 Hst)) as [_ Ht].
  assert (Hz : Threshold (cns s) SrEndRound = 0).
  { etransitivity; [|exact (initial_threshold rcns rst)]. unfold Threshold. by rewrite Ht, Hthr. }
  split; [done|]. unfold computeAggSigOnValidNodes. rewrite bind_getCns. cbn beta. rewrite Hz.
  unfold needHeader. rewrite Hh. rewrite run_bind'. unfold ret at 1. cbn beta iota.
  assert (Hc : (ComputeSize (cns s) SrSignature <? 0) = false)
    by (apply Z.ltb_ge; rewrite ComputeSize_filter; lia).
  rewrite Hc. rewrite run_bind'. unfold liftR. rewrite checkSignatures_generated. cbn beta iota.
  rewrite run_bind'. unfold getHolder, gets. cbn beta iota. rewrite run_bind'. by rewrite Hagg.
Qed.
End Participants.

(** ** The theorems at the round of the example *)

Module Witnesses.

(** A participant, from the start to the wait for the end of the round. *)
Lemma participant_steps : roundSteps noKeys (exStarted [2]) (exSigned [2]).
Proof.
  unfold exSigned, exChecked, exReceived. apply then_job; [|done|done]. apply then_check; [|done].
  apply then_message; [apply rtc_refl|done|by vm_compute].
Qed.

Lemma one_block_signed_per_round_witness :
  (exists m, EvBroadcast m ∈ trace (exSigned [2]) /\ mMsgType m = MtSignature) /\
  exists new, trace (exSigned [2]) = trace (exNode [2]) ++ new /\
    forall m, EvBroadcast m ∈ new -> mMsgType m = MtSignature ->
      BlockHeaderHash m = Data (cns (exSigned [2])) /\ Data (cns (exSigned [2])) <> None.
Proof.
  split.
  - exists (sent MtSignature (exSigned [2])). apply sent_traced. vm_compute. eauto.
  - apply (one_block_signed_per_round (exCore [2]) noKeys (exNode [2]) (exReset [2]) (exStarted [2])).
    + by vm_compute.
    + by vm_compute.
    + apply participant_steps.
Defined.

Lemma bitmap_readers_agree_witness : signersLoop exGroup 0 [5] = [[1]; [3]] /\
  ComputeSignersPublicKeys exGroup [5] = signersLoop exGroup 0 [5] /\
  inBitmap (mkHolder exGroup [] None) [5] exGroup = signersLoop exGroup 0 [5].
Proof.
  split; [by vm_compute|]. apply (bitmap_readers_agree exGroup [5] (mkHolder exGroup [] None)); [done|].
  by vm_compute.
Defined.

(** Nine members, of whom only the leader has signed. *)
Definition nine : list bytes := [[1]; [2]; [3]; [4]; [5]; [6]; [7]; [8]; [9]].
Definition padded : hdr := mkHdr 1 1 None None None (Some [1; 254]) None None.

Lemma padding_bits_count_witness : twoThirds 9 = 7 /\ getConsensusSigners (hsvOf nine) padded = inr [[1]].
Proof.
  split; [done|]. rewrite (padding_bits_count (hsvOf nine) padded nine); by vm_compute.
Defined.

Definition five : list bytes := [[1]; [2]; [3]; [4]; [5]].

Lemma clean_padding n bm : 0 <= n -> Forall (fun j => bitOf bm j = false) (seqZ n (8 * blen bm - n)) ->
  noPadding n bm.
Proof. intros Hn Hf i Hi. rewrite Forall_forall in Hf. apply Hf, elem_of_seqZ. lia. Qed.

(** The headers of round 2 fall under the fallback validation. *)
Definition hsvMixed (g : list bytes) : HeaderSigVerifier hdr := mkHeaderSigVerifier
  (fun _ _ _ _ => Some g) (fun _ _ _ _ => Some g) (fun _ => Some exSigner) (fun _ => true)
  (fun _ _ _ => true) (fun h => Some (encodeHdr h)) (fun b => b) (fun h => GetRound h =? 2) twoThirds half.
Definition signedIn (round bitmap : Z) : hdr := mkHdr round 1 None None None (Some [bitmap]) None None.

Lemma exThresholds n : 0 <= n -> 2 * n < 3 * twoThirds n /\ n < 2 * half n.
Proof.
  intros Hn. unfold twoThirds, half. pose proof (Z.mul_succ_div_gt (2 * n) 3). pose proof (Z.mul_succ_div_gt n 2). lia.
Qed.

Lemma exClean r b : b ∈ [15; 27; 7] -> noPadding (Z.of_nat (length five)) (bitmapOf (signedIn r b)).
Proof.
  intros Hb. apply clean_padding; [by vm_compute|].
  repeat (apply elem_of_cons in Hb as [->|Hb]; [vm_compute; by repeat constructor|]). by apply elem_of_nil in Hb.
Qed.

(** Four of five sign in round 1, twice, and three of five in round 2. *)
Lemma quorum_intersection_witness :
  getConsensusSigners (hsvMixed five) (signedIn 1 15) = inr [[1]; [2]; [3]; [4]] /\
  getConsensusSigners (hsvMixed five) (signedIn 1 27) = inr [[1]; [2]; [4]; [5]] /\
  getConsensusSigners (hsvMixed five) (signedIn 2 7) = inr [[1]; [2]; [3]] /\
  (exists common, NoDup common /\ common ⊆ [[1]; [2]; [3]; [4]] /\ common ⊆ [[1]; [2]; [4]; [5]] /\
    Z.of_nat (length five) < 3 * Z.of_nat (length common)) /\
  (exists common, NoDup common /\ common ⊆ [[1]; [2]; [3]; [4]] /\ common ⊆ [[1]; [2]; [3]] /\
    Z.of_nat (length five) < 6 * Z.of_nat (length common)).
Proof.
  assert (Hnd : NoDup five) by (apply (bool_decide_unpack _); by vm_compute).
  do 3 (split; [by vm_compute|]). split.
  - apply (quorum_intersection (hsvMixed five) (signedIn 1 15) (signedIn 1 27) five);
      [done|done|done|by vm_compute|apply exClean; left|apply exClean; right; left|apply exThresholds|by vm_compute|by vm_compute].
  - apply (quorum_intersection (hsvMixed five) (signedIn 1 15) (signedIn 2 7) five);
      [done|done|done|by vm_compute|apply exClean; left|apply exClean; right; right; left|apply exThresholds|by vm_compute|by vm_compute].
Defined.

(** The header and the signature of the leader at the end of the round. *)
Definition exHeader : hdr := default exGenesis (Header (cns exCollected)).
Definition exSig : bytes :=
  match AggregateSigs (exSigning [1]) (holder exCollected) (Some (GenerateBitmap (cns exCollected) SrSignature)) 0 with
  | inr sig => sig
  | inl _ => []
  end.

Lemma example_ready : leaderReady (exCore [1]) exCollected exHeader exSig [1].
Proof.
  split; try by vm_compute.
  - intros h'. simpl. eauto.
  - intros msg. exists (signWith [1] msg). reflexivity.
Qed.

Lemma example_follows : follows (exCore [1]) (cns exCollected) exHeader [1] (exCore [2]) (cns (exWaiting [2])).
Proof.
  split.
  - by vm_compute.
  - split; [by vm_compute..|]. eexists _, _. split; [by vm_compute|]. split; by vm_compute.
  - by vm_compute.
  - done.
  - intros hd b. simpl. done.
  - intros msg sig. unfold CreateSignatureForPublicKey. simpl. intros [= <-]. apply beq_refl.
Qed.

Lemma final_info_accepted_witness :
  exists m, EvBroadcast m ∈ trace exEnded /\ isBlockHeaderFinalInfoValid (exCore [2]) (cns (exWaiting [2])) m = true.
Proof.
  destruct (final_info_accepted (exCore [1]) exCollected exHeader exSig [1]) as (m & Hm & _ & _ & _ & Hv).
  - apply example_ready.
  - by vm_compute.
  - by vm_compute.
  - exists m. split; [exact Hm|]. apply Hv; [apply example_follows|by vm_compute].
Defined.

Definition exFinal : hdr := default exGenesis (headerWithInfo exHeader exFinalInfo).

Lemma final_info_commits_witness : exists s',
  run (receivedBlockHeaderFinalInfo (exCore [2]) exFinalInfo) (exWaiting [2]) = (s', true) /\
  IsSubroundFinished (cns s') SrEndRound = true /\ EvCommitBlock exFinal (Body (cns (exWaiting [2]))) ∈ trace s' /\
  processingBlock (cns s') = false.
Proof.
  apply (final_info_commits (exCore [2]) exFinalInfo exFinal (exWaiting [2])).
  - split; try by vm_compute. eexists. split; by vm_compute.
  - by vm_compute.
Defined.

(** The leader alone has signed. *)
Definition exAlone : St := after (Job (exCore [1]) Signature) exProposed.

Lemma few_signatures_aggregate_witness :
  ComputeSize (cns exAlone) SrSignature = 1 /\ Threshold (cns exAlone) SrSignature = 3 /\
  exists sig, snd (computeAggSigOnValidNodes (exCore [1]) exAlone) = inr (GenerateBitmap (cns exAlone) SrSignature, sig).
Proof.
  split; [by vm_compute|]. split; [by vm_compute|]. eexists.
  apply (few_signatures_aggregate (exCore [1]) noKeys (NewRoundConsensus (list_to_set exGroup) 3 [1]) NewRoundStatus
    (exStarted [1]) exAlone exHeader).
  - destruct (initCurrentRound_run (exCore [1]) (exReset [1]) (exStarted [1])) as [Hs _]; [by vm_compute..|done].
  - by vm_compute.
  - unfold exAlone, exProposed. apply then_job; [|done|done]. apply then_check; [|done].
    by apply then_job; [apply rtc_refl| |].
  - by vm_compute.
  - by vm_compute.
Defined.
End Witnesses.
