(* ===== verification/TrieAllHashes.v ===== *)
(** * GetAllHashes of trie/patriciaMerkleTrie.go: the hashes of the nodes of a trie.

    The whole trie is walked, so that the fuel bounds its depth. *)

From stdpp Require Import base list.
From Stdlib Require Import ZArith Lia.
From S2P Require Import Prelude TrieNode TrieOps PatriciaMerkleTrie.

Section AllHashes.
Context `{C : Codec} {St : Type} `{TS : TrieStorage St}.

(** The loop over the positions of a branch node. *)
Fixpoint childrenHashes (f : node -> trieErr + list slice) (n : node) (db : St) (positions : list nat)
  : trieErr + list slice :=
  match positions with
  | [] => inr []
  | i :: positions =>
      let? n1 := resolveIfCollapsed n (Z.of_nat i) db in
      let? hashes := match childAt n1 (Z.of_nat i) with None => inr [] | Some c => f c end in
      let? rest := childrenHashes f n1 db positions in
      inr (hashes ++ rest)
  end.

Fixpoint getAllHashes (fuel : nat) (n : node) (db : St) : trieErr + list slice :=
  match fuel with
  | O => inl OutOfFuel
  | S fuel =>
      let? _ := isEmptyOrNil n in
      match n with
      | leafNode _ _ _ _ => inr [getHash n]
      | extensionNode _ _ _ _ _ =>
          let? n1 := resolveIfCollapsed n 0 db in
          match childAt n1 0 with
          | None => inl GoPanic
          | Some c => let? hashes := getAllHashes fuel c db in inr (hashes ++ [getHash n])
          end
      | branchNode _ _ _ cs =>
          let? hashes := childrenHashes (fun c => getAllHashes fuel c db) n db (seq 0 (length cs)) in
          inr (hashes ++ [getHash n])
      end
  end.

Definition GetAllHashes (fuel : nat) (tr : patriciaMerkleTrie St) : trieErr + list slice :=
  match root tr with
  | None => inr []
  | Some n =>
      match setRootHash n with
      | (_, inl e) => inl e
      | (n1, inr _) => getAllHashes fuel n1 (trieStorage tr)
      end
  end.
End AllHashes.
