(* ===== verification/CommonTrie.v ===== *)
(** * The interface through which the accounts use a trie: common.Trie of
    common/interface.go, what it promises, and the Patricia-Merkle trie as an
    implementation.

    A method takes the trie and returns it as the call leaves it.  The tries of a node
    share one storage manager: [trShare] gives a trie the storage of another one. *)

From stdpp Require Import base list gmap.
From Stdlib Require Import ZArith Lia.
From S2P Require Import Prelude TrieNode TrieOps TrieSpec TrieRep TrieRefine TrieDelete TrieHash.
From S2P Require Import TrieHash PatriciaMerkleTrie TrieMap TrieRun TrieAllHashes.

Class CommonTrie (T : Type) := {
  trGet : T -> bytes -> T * (trieErr + slice);
  trUpdateWithVersion : T -> bytes -> bytes -> Z -> T * (trieErr + unit);
  trDelete : T -> bytes -> T * (trieErr + unit);
  trRootHash : T -> T * (trieErr + bytes);
  trCommit : T -> T * (trieErr + unit);
  trRecreate : T -> bytes -> trieErr + T;
  trGetAllHashes : nat -> T -> trieErr + list slice;
  trShare : T -> T -> T;
}.

(** [Update] gives no version. *)
Definition trUpdate {T} `{CommonTrie T} (t : T) (key value : bytes) : T * (trieErr + unit) :=
  trUpdateWithVersion t key value NotSpecified.

(** What a trie promises: it holds a map, and its storage has the maps that were
    committed. *)
Class CommonTrieLaws (T : Type) `{CommonTrie T} := {
  holds : T -> kvmap -> Prop;
  rootOf : kvmap -> bytes -> Prop;
  persisted : T -> kvmap -> Prop;
  sameStore : T -> T -> Prop;
  storeLe : T -> T -> Prop;
  sameStore_equiv : Equivalence sameStore;
  storeLe_same : forall t t', sameStore t t' -> storeLe t t';
  storeLe_trans : forall t1 t2 t3, storeLe t1 t2 -> storeLe t2 t3 -> storeLe t1 t3;
  rootOf_fun : forall m h1 h2, rootOf m h1 -> rootOf m h2 -> h1 = h2;
  holds_keys : forall t m, holds t m -> map_Forall (fun key _ => isBytes key) m;
  persisted_le : forall t t' m, storeLe t t' -> persisted t m -> persisted t' m;
  get_law : forall t m key, holds t m -> isBytes key ->
    exists t', trGet t key = (t', inr (fst <$> m !! key)) /\ holds t' m /\ sameStore t t';
  update_law : forall t m key value ver, holds t m -> isBytes key -> 0 <= ver <= MaxUint8 ->
    exists t', trUpdateWithVersion t key value ver = (t', inr tt) /\ holds t' (mapUpdate m key value ver) /\
      sameStore t t';
  delete_law : forall t m key, holds t m -> isBytes key ->
    exists t', trDelete t key = (t', inr tt) /\ holds t' (base.delete key m) /\ sameStore t t';
  rootHash_law : forall t m, holds t m ->
    exists t' h, trRootHash t = (t', inr h) /\ rootOf m h /\ holds t' m /\ sameStore t t';
  recreate_empty : forall t m, holds t m -> exists t', trRecreate t [] = inr t' /\ holds t' ∅ /\ sameStore t t';
  recreate_law : forall t m0 m h, holds t m0 -> persisted t m -> rootOf m h ->
    exists t', trRecreate t h = inr t' /\ holds t' m /\ sameStore t t';
  commit_law : forall t m, holds t m ->
    exists t', trCommit t = (t', inr tt) /\ holds t' m /\ persisted t' m /\ storeLe t t';
  share_law : forall src t m, holds t m -> storeLe t src ->
    holds (trShare src t) m /\ sameStore src (trShare src t);
}.

#[export] Existing Instance sameStore_equiv.

(** ** The Patricia-Merkle trie *)

Section Impl.
Context `{C : Codec} {St : Type} `{TS : TrieStorage St}.
Notation PMT := (patriciaMerkleTrie St).

#[global] Instance pmt_trie : CommonTrie PMT := {
  trGet t key := let (t', r) := Get t key in (t', let? (v, _) := r in inr v);
  trUpdateWithVersion t key value ver := UpdateWithVersion t key value ver;
  trDelete t key := Delete t key;
  trRootHash t := let (t', r) := RootHash t in (t', let? h := r in inr (default [] h));
  trCommit t := Commit t;
  trRecreate t h := recreate t h (trieStorage t);
  trGetAllHashes := GetAllHashes;
  trShare src t := mkTrie (root t) (trieStorage src) (oldHashes t) (oldRoot t) (maxTrieLevelInMemory t);
}.

Context `{CL : !CodecLaws C} `{SL : !TrieStorageLaws St} `{CF : !CollisionFree C}.

Definition pmtHolds (t : PMT) (m : kvmap) : Prop := trieInv t m.
Definition pmtSame (t t' : PMT) : Prop := trieStorage t = trieStorage t'.

(** The storage only grows, and keeps its nodes under their hashes. *)
Definition pmtLe (t t' : PMT) : Prop :=
  extends (trieStorage t) (trieStorage t') /\ (hashKeyed (trieStorage t) -> hashKeyed (trieStorage t')).

(** The storage has the nodes of the map; a map that is not well formed is not stored. *)
Definition pmtPersisted (t : PMT) (m : kvmap) : Prop := keysOk m /\ mapStored m (trieStorage t).

Lemma pmtSame_equiv : Equivalence pmtSame.
Proof. split; unfold pmtSame; [by intros t|by intros t t' ->|by intros t1 t2 t3 -> ->]. Qed.

Lemma pmt_keep (t t' : PMT) m m' : trieRep t' m' -> trieStorage t' = trieStorage t -> pmtHolds t m ->
  pmtHolds t' m' /\ pmtSame t t'.
Proof. intros Hr Hs [_ Hk]. split; [|by symmetry]. split; [done|]. by rewrite Hs. Qed.

#[global] Instance pmt_laws : CommonTrieLaws PMT.
Proof.
  refine {| holds := pmtHolds; rootOf := rootHashOf; persisted := pmtPersisted; sameStore := pmtSame;
    storeLe := pmtLe |}.
  - apply pmtSame_equiv.
  - intros t t' E. unfold pmtSame in E. unfold pmtLe, extends. rewrite E. by split.
  - intros t1 t2 t3 [E1 K1] [E2 K2]. split; [by intros k v Hk; apply E2, E1|auto].
  - apply rootHashOf_functional.
  - by intros t m [[Hko _] _].
  - intros t t' m [E _] [Hko Hst]. split; [done|]. intros x Hw Hm. eapply stored_mono; [exact E|by apply Hst].
  - intros t m key Hh Hk. destruct (Get_rep t m key (proj1 Hh) Hk) as (t' & d & E & Hr & Hs).
    exists t'. simpl. rewrite E. split; [done|]. by eapply pmt_keep.
  - intros t m key value ver Hh Hk Hv. destruct (update_rep t m key value ver (proj1 Hh) Hk Hv) as (t' & E & Hr & Hs).
    exists t'. split; [exact E|]. by eapply pmt_keep.
  - intros t m key Hh Hk. destruct (deleteHex_rep t m key (proj1 Hh) Hk) as (t' & E & Hr & Hs).
    exists t'. split; [exact E|]. by eapply pmt_keep.
  - intros t m Hh. destruct (getRootHash_rep t m (proj1 Hh)) as (t' & h & E & Hro & Hr & Hs).
    exists t', h. simpl. unfold RootHash. rewrite E. split; [done|]. split; [done|]. by eapply pmt_keep.
  - intros t m Hh. pose proof (proj1 (proj2 (proj1 Hh))) as Hlv. simpl. unfold recreate, NewTrie.
    change (IsEmptyTrie []) with true. cbv iota. rewrite (proj2 (Z.eqb_neq _ 0)) by done.
    eexists. split; [done|]. eapply pmt_keep; [|done|done].
    split; [apply map_Forall_empty|]. by split.
  - intros t m0 m h Hh [Hko Hst] Hro. pose proof (proj1 (proj2 (proj1 Hh))) as Hlv. simpl.
    destruct (recreate_rep t m h (trieStorage t)) as (t' & E & Hr & Hs); try done.
    { by eapply rootHashOf_notEmpty. }
    exists t'. split; [done|]. by eapply pmt_keep.
  - intros t m Hh. destruct (Commit_rep t m (proj1 Hh) (hashKeyed_NoCollision _ _ (proj2 Hh)))
      as (t' & E & Hr & Hst & _ & Hg).
    assert (Hle : pmtLe t t').
    { destruct Hg as [Hs|(x & _ & _ & Hg)]; [unfold pmtLe, extends; rewrite Hs; by split|]. split; [apply Hg|by eapply grows_hashKeyed]. }
    exists t'. split; [exact E|]. split; [|split; [|done]].
    + split; [done|]. apply Hle, Hh.
    + split; [apply Hr|done].
  - intros src t m [(Hko & Hlv & Hr) Hk] [E K]. split; [|done]. split; [|by apply K].
    split; [done|]. split; [done|]. simpl. destruct (root t) as [n|]; [|done].
    destruct Hr as (x & Hr & Hw & Hm). exists x. split; [by eapply rep_mono|done].
Defined.
End Impl.
