(* ===== verification/TrackableDataTrie.v ===== *)
(** * The data of an account: state/trackableDataTrie/trackableDataTrie.go.

    The values that were set are kept in a map until they are saved in the data trie.
    The functions that use the data trie thread it; the trie itself is an object of the
    accounts database ([AccountsDB]), shared by its reference. *)

From stdpp Require Import base list gmap.
From Stdlib Require Import ZArith Lia.
From S2P Require Import Prelude TrieNode TrieMap CommonTrie.

Inductive stateErr :=
| ErrTrie (e : trieErr)
| ErrNilTrie
| ErrNilAddress
| ErrAccNotFound
| ErrSnapshotValueOutOfBounds
| ErrMarshal
| ErrUnmarshal
| ErrLeafSizeTooBig
| ErrInsufficientFunds
| ErrOperationNotPermitted
| ErrInvalidAddressLength
| ErrNoObject.

(** The versions of core.TrieNodeVersion; [NotSpecified] is the other one. *)
Definition AutoBalanceEnabled : Z := 1.

(** The leaf of dataTrieValue.proto. *)
Record TrieLeafData := mkLeaf { leafValue : bytes; leafKey : bytes; leafAddress : bytes }.

(** The hasher, the marshaller of leaves, core.MaxLeafSize and whether
    AutoBalanceDataTriesFlag is enabled. *)
Record dataEnv := mkDataEnv {
  Compute : bytes -> bytes;
  marshalLeaf : TrieLeafData -> option bytes;
  unmarshalLeaf : bytes -> option TrieLeafData;
  MaxLeafSize : Z;
  AutoBalance : bool;
}.

Record dirtyData := mkDirty { ddValue : bytes; newVersion : Z }.

(** [tr] refers to the data trie, if there is one. *)
Record trackableDataTrie := mkTracked {
  dirty : gmap bytes dirtyData;
  tr : option nat;
  identifier : bytes;
}.

Definition NewTrackableDataTrie (identifier : bytes) : trackableDataTrie := mkTracked ∅ None identifier.

Definition set_dirty d (t : trackableDataTrie) : trackableDataTrie := mkTracked d (tr t) (identifier t).
Definition SetDataTrie (l : option nat) (t : trackableDataTrie) : trackableDataTrie := mkTracked (dirty t) l (identifier t).

Section Tracked.
Context {T : Type} `{CommonTrie T}.
Variable env : dataEnv.

Abbreviation DT := (SE T stateErr).

(** A call of a method of the data trie. *)
Definition onTrie {A} (f : T -> T * (trieErr + A)) : DT A := fun t =>
  match f t with
  | (t', inl e) => (t', inl (ErrTrie e))
  | (t', inr a) => (t', inr a)
  end.

Definition someM {A} (e : stateErr) (o : option A) : DT A := match o with Some a => ret a | None => throw e end.

(** core.GetVersionForNewData *)
Definition versionForNewData : Z := if AutoBalance env then AutoBalanceEnabled else NotSpecified.

Definition getKeyForVersion (key : bytes) (version : Z) : bytes :=
  if version =? AutoBalanceEnabled then Compute env key else key.

Definition getValueForVersion (id key value : bytes) (version : Z) : DT bytes :=
  if blen value =? 0 then ret []
  else if version =? AutoBalanceEnabled then someM ErrMarshal (marshalLeaf env (mkLeaf value key id))
  else ret (value ++ key ++ id).

(** common.TrimSuffixFromValue; its error is ignored by the caller. *)
Definition TrimSuffixFromValue (value : bytes) (suffixLength : Z) : bytes :=
  if suffixLength =? 0 then value
  else
    let dataLength := blen value - suffixLength in
    if dataLength <? 0 then [] else take (Z.to_nat dataLength) value.

Definition getValueNotSpecifiedVersion (id key val : bytes) : bytes :=
  TrimSuffixFromValue val (blen key + blen id).

Definition getValueAutoBalanceVersion (val : bytes) : DT bytes :=
  let! dataTrieVal := someM ErrUnmarshal (unmarshalLeaf env val) in ret (leafValue dataTrieVal).

Definition getValueWithoutMetadata (id key : bytes) (trieData : TrieData) : DT bytes :=
  if blen (tdValue trieData) =? 0 then ret []
  else if tdVersion trieData =? AutoBalanceEnabled then getValueAutoBalanceVersion (tdValue trieData)
  else ret (getValueNotSpecifiedVersion id key (tdValue trieData)).

(** What is in the trie under the key itself, or what a new entry would be. *)
Definition retrieveOldVersion (key : bytes) : DT TrieData :=
  let! valWithMetadata := onTrie (fun t => trGet t key) in
  if negb (slen valWithMetadata =? 0) then ret (mkTrieData key (default [] valWithMetadata) NotSpecified)
  else ret (mkTrieData (getKeyForVersion key versionForNewData) [] versionForNewData).

(** The depth, which is returned too, is left out. *)
Definition retrieveValueFromTrie (key : bytes) : DT TrieData :=
  if AutoBalance env then
    let hashedKey := Compute env key in
    let! valWithMetadata := onTrie (fun t => trGet t hashedKey) in
    if negb (slen valWithMetadata =? 0) then
      ret (mkTrieData hashedKey (default [] valWithMetadata) AutoBalanceEnabled)
    else retrieveOldVersion key
  else retrieveOldVersion key.

(** RetrieveValue, on an account that has a data trie. *)
Definition RetrieveValue (tdt : trackableDataTrie) (key : bytes) : DT bytes :=
  match dirty tdt !! key with
  | Some dataEntry => ret (ddValue dataEntry)
  | None =>
      let! trieValue := retrieveValueFromTrie key in
      getValueWithoutMetadata (identifier tdt) key trieValue
  end.

Definition SaveKeyValue (key value : bytes) (tdt : trackableDataTrie) : stateErr + trackableDataTrie :=
  if MaxLeafSize env <? blen value then inl ErrLeafSizeTooBig
  else inr (set_dirty (<[key := mkDirty value versionForNewData]> (dirty tdt)) tdt).

Definition getOriginalKeyFromTrieData (trieData : TrieData) : DT bytes :=
  if tdVersion trieData =? AutoBalanceEnabled then
    let! valWithMetadata := someM ErrUnmarshal (unmarshalLeaf env (tdValue trieData)) in
    ret (leafKey valWithMetadata)
  else ret (tdKey trieData).

(** The loop of MigrateDataTrieLeaves over the leaves the trie migrator has collected. *)
Fixpoint migrateLeaves (newVersion : Z) (dataToBeMigrated : list TrieData) (tdt : trackableDataTrie)
  : DT trackableDataTrie :=
  match dataToBeMigrated with
  | [] => ret tdt
  | leafData :: dataToBeMigrated =>
      let! val := getValueWithoutMetadata (identifier tdt) (tdKey leafData) leafData in
      let! originalKey := getOriginalKeyFromTrieData leafData in
      migrateLeaves newVersion dataToBeMigrated
        (set_dirty (<[originalKey := mkDirty val newVersion]> (dirty tdt)) tdt)
  end.

Definition deleteOldEntryIfMigrated (key : bytes) (newData : dirtyData) (oldEntry : TrieData) : DT unit :=
  if negb (AutoBalance env) then ret tt
  else
    let isMigration := (tdVersion oldEntry =? NotSpecified) && (newVersion newData =? AutoBalanceEnabled) in
    if isMigration && negb (blen (ddValue newData) =? 0) then onTrie (fun t => trDelete t key) else ret tt.

Definition deleteFromTrie (oldVal : TrieData) (key : bytes) : DT unit :=
  if blen (tdValue oldVal) =? 0 then ret tt
  else if tdVersion oldVal =? AutoBalanceEnabled then onTrie (fun t => trDelete t (Compute env key))
  else if tdVersion oldVal =? NotSpecified then onTrie (fun t => trDelete t key)
  else ret tt.

(** The key that was written, if any. *)
Definition modifyTrie (id key : bytes) (dataEntry : dirtyData) (oldVal : TrieData) : DT bytes :=
  if blen (ddValue dataEntry) =? 0 then deleteFromTrie oldVal key ;; ret []
  else
    let version := newVersion dataEntry in
    let newKey := getKeyForVersion key version in
    let! value := getValueForVersion id key (ddValue dataEntry) version in
    onTrie (fun t => trUpdateWithVersion t newKey value version) ;;
    ret newKey.

(** One round of the loop of updateTrie: the old value, and the new key of a migration. *)
Definition updateEntry (id : bytes) (entry : bytes * dirtyData) : DT (TrieData * list TrieData) :=
  let (key, dataEntry) := entry in
  let! oldVal := retrieveValueFromTrie key in
  deleteOldEntryIfMigrated key dataEntry oldVal ;;
  let! newKey := modifyTrie id key dataEntry oldVal in
  let isFirstMigration := (tdVersion oldVal =? NotSpecified) && (newVersion dataEntry =? AutoBalanceEnabled) in
  ret (oldVal, if isFirstMigration && negb (blen newKey =? 0) then [mkTrieData newKey [] NotSpecified] else []).

(** The loop, over the entries in the order in which the map is walked. *)
Fixpoint updateEntries (id : bytes) (entries : list (bytes * dirtyData)) : DT (list TrieData * list TrieData) :=
  match entries with
  | [] => ret ([], [])
  | entry :: entries =>
      let! (oldVal, migrated) := updateEntry id entry in
      let! (oldVals, migrateds) := updateEntries id entries in
      ret (oldVal :: oldVals, migrated ++ migrateds)
  end.

Definition updateTrie (id : bytes) (entries : list (bytes * dirtyData)) : DT (list TrieData) :=
  let! (oldValues, migrated) := updateEntries id entries in
  ret (oldValues ++ migrated).
End Tracked.
