(* ===== verification/UserAccount.v ===== *)
(** * User accounts: state/accounts/userAccount.go. *)

From stdpp Require Import base list gmap.
From Stdlib Require Import ZArith Lia.
From S2P Require Import Prelude TrieNode TrieMap CommonTrie TrackableDataTrie.

(** The message of userAccountData.proto. *)
Record UserAccountData := mkUserAccountData {
  Nonce : Z;
  Balance : Z;
  CodeHash : bytes;
  RootHash : bytes;
  Address : bytes;
  DeveloperReward : Z;
  OwnerAddress : bytes;
  UserName : bytes;
  CodeMetadata : bytes;
}.

Record userAccount := mkUserAccount {
  accountData : UserAccountData;
  dataTrieInteractor : trackableDataTrie;
  code : bytes;
  hasNewCode : bool;
}.

Definition setData (d : UserAccountData) (a : userAccount) : userAccount :=
  mkUserAccount d (dataTrieInteractor a) (code a) (hasNewCode a).
Definition setTracked (t : trackableDataTrie) (a : userAccount) : userAccount :=
  mkUserAccount (accountData a) t (code a) (hasNewCode a).

Definition withNonce v d := mkUserAccountData v (Balance d) (CodeHash d) (RootHash d) (Address d) (DeveloperReward d) (OwnerAddress d) (UserName d) (CodeMetadata d).
Definition withBalance v d := mkUserAccountData (Nonce d) v (CodeHash d) (RootHash d) (Address d) (DeveloperReward d) (OwnerAddress d) (UserName d) (CodeMetadata d).
Definition withCodeHash v d := mkUserAccountData (Nonce d) (Balance d) v (RootHash d) (Address d) (DeveloperReward d) (OwnerAddress d) (UserName d) (CodeMetadata d).
Definition withRootHash v d := mkUserAccountData (Nonce d) (Balance d) (CodeHash d) v (Address d) (DeveloperReward d) (OwnerAddress d) (UserName d) (CodeMetadata d).
Definition withDeveloperReward v d := mkUserAccountData (Nonce d) (Balance d) (CodeHash d) (RootHash d) (Address d) v (OwnerAddress d) (UserName d) (CodeMetadata d).
Definition withOwner v d := mkUserAccountData (Nonce d) (Balance d) (CodeHash d) (RootHash d) (Address d) (DeveloperReward d) v (UserName d) (CodeMetadata d).
Definition withUserName v d := mkUserAccountData (Nonce d) (Balance d) (CodeHash d) (RootHash d) (Address d) (DeveloperReward d) (OwnerAddress d) v (CodeMetadata d).
Definition withCodeMetadata v d := mkUserAccountData (Nonce d) (Balance d) (CodeHash d) (RootHash d) (Address d) (DeveloperReward d) (OwnerAddress d) (UserName d) v.

Definition onFields (f : UserAccountData -> UserAccountData) (a : userAccount) : userAccount := setData (f (accountData a)) a.

(** accountCreator.CreateAccount, with NewUserAccount. *)
Definition NewUserAccount (address : bytes) : stateErr + userAccount :=
  if blen address =? 0 then inl ErrNilAddress
  else inr (mkUserAccount (mkUserAccountData 0 0 [] [] address 0 [] [] []) (NewTrackableDataTrie address) [] false).

Definition AddressBytes (a : userAccount) : bytes := Address (accountData a).
Definition SetUserName (userName : bytes) : userAccount -> userAccount := onFields (withUserName userName).

Definition AddToBalance (value : Z) (a : userAccount) : stateErr + userAccount :=
  let newBalance := Balance (accountData a) + value in
  if newBalance <? 0 then inl ErrInsufficientFunds else inr (onFields (withBalance newBalance) a).

Definition SubFromBalance (value : Z) (a : userAccount) : stateErr + userAccount :=
  let newBalance := Balance (accountData a) - value in
  if newBalance <? 0 then inl ErrInsufficientFunds else inr (onFields (withBalance newBalance) a).

Definition GetBalance (a : userAccount) : Z := Balance (accountData a).

Definition ClaimDeveloperRewards (sndAddress : bytes) (a : userAccount) : stateErr + (userAccount * Z) :=
  if negb (beq sndAddress (OwnerAddress (accountData a))) then inl ErrOperationNotPermitted
  else inr (onFields (withDeveloperReward 0) a, DeveloperReward (accountData a)).

Definition AddToDeveloperReward (value : Z) (a : userAccount) : userAccount :=
  onFields (withDeveloperReward (DeveloperReward (accountData a) + value)) a.

Definition ChangeOwnerAddress (sndAddress newAddress : bytes) (a : userAccount) : stateErr + userAccount :=
  if negb (beq sndAddress (OwnerAddress (accountData a))) then inl ErrOperationNotPermitted
  else if negb (blen newAddress =? blen (AddressBytes a)) then inl ErrInvalidAddressLength
  else inr (onFields (withOwner newAddress) a).

Definition SetOwnerAddress (address : bytes) : userAccount -> userAccount := onFields (withOwner address).
Definition IncreaseNonce (value : Z) (a : userAccount) : userAccount :=
  onFields (withNonce (u64 (Nonce (accountData a) + value))) a.
Definition SetCodeHash (codeHash : bytes) : userAccount -> userAccount := onFields (withCodeHash codeHash).
Definition SetRootHash (rootHash : bytes) : userAccount -> userAccount := onFields (withRootHash rootHash).
Definition SetCodeMetadata (codeMetadata : bytes) : userAccount -> userAccount := onFields (withCodeMetadata codeMetadata).

Definition SetCode (c : bytes) (a : userAccount) : userAccount :=
  mkUserAccount (accountData a) (dataTrieInteractor a) c true.
