(* ===== verification/AccountsDB.v ===== *)
(** * The accounts database: state/accountsDB.go, journalEntries.go, dataTriesHolder.go
    and SaveDirtyData of trackableDataTrie.go.

    The objects that the code shares by pointer are kept in two heaps, the data tries and
    the user accounts that were loaded.  The holder of the data tries, the accounts and
    the journal refer to them. *)

From stdpp Require Import base list gmap.
From Stdlib Require Import ZArith Lia.
From S2P Require Import Prelude TrieNode TrieMap CommonTrie TrackableDataTrie UserAccount.

Record CodeEntry := mkCodeEntry { Code : bytes; NumReferences : Z }.

(** The marshaller, on the messages of the main trie. *)
Record accountsEnv := mkAccountsEnv {
  theData : dataEnv;
  marshalAccount : UserAccountData -> option bytes;
  unmarshalAccount : bytes -> option UserAccountData;
  marshalCode : CodeEntry -> option bytes;
  unmarshalCode : bytes -> option CodeEntry;
}.

Inductive JournalEntry :=
| journalEntryCode (oldCodeEntry : option CodeEntry) (oldCodeHash newCodeHash : bytes)
| journalEntryAccount (account : userAccount)
| journalEntryAccountCreation (address : bytes)
| journalEntryDataTrieUpdates (trieUpdates : list TrieData) (account : nat)
| journalEntryDataTrieRemove (rootHash : bytes).

Record AccountsDB (T : Type) := mkAccountsDB {
  mainTrie : T;
  lastRootHash : bytes;
  dataTries : gmap bytes nat;
  entries : list JournalEntry;
  obsoleteDataTrieHashes : gmap bytes (list slice);
  tries : gmap nat T;
  accounts : gmap nat userAccount;
}.
Arguments mkAccountsDB {T}.
Arguments mainTrie {T}.
Arguments lastRootHash {T}.
Arguments dataTries {T}.
Arguments entries {T}.
Arguments obsoleteDataTrieHashes {T}.
Arguments tries {T}.
Arguments accounts {T}.

Section Database.
Context {T : Type} `{CommonTrie T}.
Variable env : accountsEnv.

Abbreviation AM := (SE (AccountsDB T) stateErr).

Definition set_mainTrie v (s : AccountsDB T) := mkAccountsDB v (lastRootHash s) (dataTries s) (entries s) (obsoleteDataTrieHashes s) (tries s) (accounts s).
Definition set_lastRootHash v (s : AccountsDB T) := mkAccountsDB (mainTrie s) v (dataTries s) (entries s) (obsoleteDataTrieHashes s) (tries s) (accounts s).
Definition set_dataTries v (s : AccountsDB T) := mkAccountsDB (mainTrie s) (lastRootHash s) v (entries s) (obsoleteDataTrieHashes s) (tries s) (accounts s).
Definition set_entries v (s : AccountsDB T) := mkAccountsDB (mainTrie s) (lastRootHash s) (dataTries s) v (obsoleteDataTrieHashes s) (tries s) (accounts s).
Definition set_obsolete v (s : AccountsDB T) := mkAccountsDB (mainTrie s) (lastRootHash s) (dataTries s) (entries s) v (tries s) (accounts s).
Definition set_tries v (s : AccountsDB T) := mkAccountsDB (mainTrie s) (lastRootHash s) (dataTries s) (entries s) (obsoleteDataTrieHashes s) v (accounts s).
Definition set_accounts v (s : AccountsDB T) := mkAccountsDB (mainTrie s) (lastRootHash s) (dataTries s) (entries s) (obsoleteDataTrieHashes s) (tries s) v.

(** createAccountsDb, on a main trie. *)
Definition createAccountsDb (trie : T) : AccountsDB T := mkAccountsDB trie [] ∅ [] ∅ ∅ ∅.

(** ** Calls through the pointers *)

Definition onMain {A} (f : T -> T * (trieErr + A)) : AM A := fun s =>
  let (t', r) := onTrie f (mainTrie s) in (set_mainTrie t' s, r).

(** The data tries use the storage of the main trie. *)
Definition onData {A} (l : nat) (f : SE T stateErr A) : AM A := fun s =>
  match tries s !! l with
  | None => (s, inl ErrNilTrie)
  | Some t => let (t', r) := f (trShare (mainTrie s) t) in (set_tries (<[l := t']> (tries s)) s, r)
  end.

Definition newTrie (t : T) : AM nat := fun s =>
  let l := fresh (dom (tries s)) in (set_tries (<[l := t]> (tries s)) s, inr l).

Definition newAccount (a : userAccount) : AM nat := fun s =>
  let r := fresh (dom (accounts s)) in (set_accounts (<[r := a]> (accounts s)) s, inr r).

Definition theAccount (ref : nat) : AM userAccount := fun s =>
  (s, match accounts s !! ref with None => inl ErrNoObject | Some a => inr a end).

Definition putAccount (ref : nat) (a : userAccount) : AM unit := modify (fun s => set_accounts (<[ref := a]> (accounts s)) s).

Definition onAccount (ref : nat) (f : userAccount -> userAccount) : AM unit :=
  let! a := theAccount ref in putAccount ref (f a).

Definition recreateMain (h : bytes) : AM T :=
  let! main := gets mainTrie in
  match trRecreate main h with inl e => throw (ErrTrie e) | inr t => ret t end.

Definition journalize (entry : JournalEntry) : AM unit := modify (fun s => set_entries (entries s ++ [entry]) s).

(** ** Codes *)

Definition getCodeEntry (codeHash : bytes) : AM (option CodeEntry) :=
  let! val := onMain (fun t => trGet t codeHash) in
  if slen val =? 0 then ret None
  else let! codeEntry := someM ErrUnmarshal (unmarshalCode env (default [] val)) in ret (Some codeEntry).

(** A nil entry cannot be marshalled. *)
Definition saveCodeEntry (codeHash : bytes) (entry : option CodeEntry) : AM unit :=
  match entry with
  | None => throw ErrNoObject
  | Some entry =>
      let! codeEntry := someM ErrMarshal (marshalCode env entry) in
      onMain (fun t => trUpdate t codeHash codeEntry)
  end.

Definition GetCode (codeHash : bytes) : AM bytes :=
  if blen codeHash =? 0 then ret []
  else
    onErr
      (let! val := onMain (fun t => trGet t codeHash) in
       let! codeEntry := someM ErrUnmarshal (unmarshalCode env (default [] val)) in
       ret (Code codeEntry))
      (fun _ : stateErr => ret []).

Definition withReferences (n : Z) (e : CodeEntry) : CodeEntry := mkCodeEntry (Code e) n.

Definition updateOldCodeEntry (oldCodeHash : bytes) : AM (option CodeEntry) :=
  let! oldCodeEntry := getCodeEntry oldCodeHash in
  match oldCodeEntry with
  | None => ret None
  | Some e =>
      (if NumReferences e <=? 1 then onMain (fun t => trDelete t oldCodeHash)
       else saveCodeEntry oldCodeHash (Some (withReferences (u32 (NumReferences e - 1)) e))) ;;
      ret (Some e)
  end.

Definition updateNewCodeEntry (newCodeHash newCode : bytes) : AM unit :=
  if blen newCode =? 0 then ret tt
  else
    let! newCodeEntry := getCodeEntry newCodeHash in
    let e := default (mkCodeEntry newCode 0) newCodeEntry in
    saveCodeEntry newCodeHash (Some (withReferences (u32 (NumReferences e + 1)) e)).

(** ** Accounts in the main trie *)

Definition getAccount (address : bytes) : AM (option userAccount) :=
  let! val := onMain (fun t => trGet t address) in
  match val with
  | None => ret None
  | Some val =>
      let! acnt := liftR (NewUserAccount address) in
      let! data := someM ErrUnmarshal (unmarshalAccount env val) in
      ret (Some (setData data acnt))
  end.

Definition saveAccountToTrie (a : userAccount) : AM unit :=
  let! buff := someM ErrMarshal (marshalAccount env (accountData a)) in
  onMain (fun t => trUpdate t (AddressBytes a) buff).

Definition ImportAccount (ref : nat) : AM unit :=
  let! a := theAccount ref in saveAccountToTrie a.

(** loadDataTrieConcurrentSafe, with dataTriesHolder.Get and Put. *)
Definition loadDataTrieConcurrentSafe (a : userAccount) : AM userAccount :=
  let! holder := gets dataTries in
  match holder !! AddressBytes a with
  | Some l => ret (setTracked (SetDataTrie (Some l) (dataTrieInteractor a)) a)
  | None =>
      if blen (RootHash (accountData a)) =? 0 then ret a
      else
        let! dataTrie := recreateMain (RootHash (accountData a)) in
        let! l := newTrie dataTrie in
        modify (fun s => set_dataTries (<[AddressBytes a := l]> (dataTries s)) s) ;;
        ret (setTracked (SetDataTrie (Some l) (dataTrieInteractor a)) a)
  end.

Definition LoadAccount (address : bytes) : AM nat :=
  if blen address =? 0 then throw ErrNilAddress
  else
    let! acnt := getAccount address in
    match acnt with
    | None => let! a := liftR (NewUserAccount address) in newAccount a
    | Some a => let! a := loadDataTrieConcurrentSafe a in newAccount a
    end.

Definition GetExistingAccount (address : bytes) : AM nat :=
  if blen address =? 0 then throw ErrNilAddress
  else
    let! acnt := getAccount address in
    match acnt with
    | None => throw ErrAccNotFound
    | Some a => let! a := loadDataTrieConcurrentSafe a in newAccount a
    end.

Definition GetAccountFromBytes (address accountBytes : bytes) : AM nat :=
  if blen address =? 0 then throw ErrNilAddress
  else
    let! acnt := liftR (NewUserAccount address) in
    let! data := someM ErrUnmarshal (unmarshalAccount env accountBytes) in
    let! a := loadDataTrieConcurrentSafe (setData data acnt) in
    newAccount a.

(** ** Saving an account

    [order] is the order in which the map of the dirty data is walked. *)

Definition SaveDirtyData (order : gmap bytes dirtyData -> list (bytes * dirtyData)) (ref : nat) : AM (list TrieData) :=
  let! a := theAccount ref in
  let tdt := dataTrieInteractor a in
  if decide (dirty tdt = ∅) then ret []
  else
    let! l :=
      match tr tdt with
      | Some l => ret l
      | None =>
          let! newDataTrie := recreateMain [] in
          let! l := newTrie newDataTrie in
          putAccount ref (setTracked (SetDataTrie (Some l) tdt) a) ;;
          ret l
      end in
    let! oldValues := onData l (updateTrie (theData env) (identifier tdt) (order (dirty tdt))) in
    onAccount ref (fun a => setTracked (set_dirty ∅ (dataTrieInteractor a)) a) ;;
    ret oldValues.

Definition dataTrieOf (ref : nat) : AM nat :=
  let! a := theAccount ref in
  match tr (dataTrieInteractor a) with Some l => ret l | None => throw ErrNilTrie end.

Definition dataRootHash (l : nat) : AM bytes := onData l (onTrie trRootHash).

Definition saveDataTrie (order : gmap bytes dirtyData -> list (bytes * dirtyData)) (ref : nat) : AM unit :=
  let! oldValues := SaveDirtyData order ref in
  if (length oldValues =? 0)%nat then ret tt
  else
    journalize (journalEntryDataTrieUpdates oldValues ref) ;;
    let! l := dataTrieOf ref in
    let! rootHash := dataRootHash l in
    onAccount ref (SetRootHash rootHash) ;;
    let! a := theAccount ref in
    let! holder := gets dataTries in
    match holder !! AddressBytes a with
    | Some _ => ret tt
    | None => modify (fun s => set_dataTries (<[AddressBytes a := l]> (dataTries s)) s)
    end.

Definition saveCode (ref : nat) (oldAcc : option userAccount) : AM unit :=
  let! newAcc := theAccount ref in
  if negb (hasNewCode newAcc) then ret tt
  else
    let oldCodeHash := match oldAcc with Some o => CodeHash (accountData o) | None => [] end in
    let newCode := code newAcc in
    let newCodeHash := if blen newCode =? 0 then [] else Compute (theData env) newCode in
    if beq oldCodeHash newCodeHash then onAccount ref (SetCodeHash newCodeHash)
    else
      let! unmodifiedOldCodeEntry := updateOldCodeEntry oldCodeHash in
      updateNewCodeEntry newCodeHash newCode ;;
      journalize (journalEntryCode unmodifiedOldCodeEntry oldCodeHash newCodeHash) ;;
      onAccount ref (SetCodeHash newCodeHash).

Definition saveCodeAndDataTrie (order : gmap bytes dirtyData -> list (bytes * dirtyData)) (oldAcc : option userAccount)
  (ref : nat) : AM unit :=
  saveDataTrie order ref ;;
  saveCode ref oldAcc.

(** NewJournalEntryAccountCreation refuses an empty address. *)
Definition SaveAccount (order : gmap bytes dirtyData -> list (bytes * dirtyData)) (ref : nat) : AM unit :=
  let! account := theAccount ref in
  let! oldAccount := getAccount (AddressBytes account) in
  match oldAccount with
  | None =>
      if blen (AddressBytes account) =? 0 then throw ErrInvalidAddressLength
      else journalize (journalEntryAccountCreation (AddressBytes account))
  | Some old => journalize (journalEntryAccount old)
  end ;;
  saveCodeAndDataTrie order oldAccount ref ;;
  let! account := theAccount ref in
  saveAccountToTrie account.

(** ** Removing an account *)

Definition removeDataTrie (depth : nat) (baseAcc : userAccount) : AM unit :=
  let rootHash := RootHash (accountData baseAcc) in
  if blen rootHash =? 0 then ret tt
  else
    let! dataTrie := recreateMain rootHash in
    let! hashes :=
      match trGetAllHashes depth dataTrie with inl e => throw (ErrTrie e) | inr hashes => ret hashes end in
    modify (fun s => set_obsolete (<[rootHash := hashes]> (obsoleteDataTrieHashes s)) s) ;;
    journalize (journalEntryDataTrieRemove rootHash).

Definition removeCode (baseAcc : userAccount) : AM unit :=
  let oldCodeHash := CodeHash (accountData baseAcc) in
  let! unmodifiedOldCodeEntry := updateOldCodeEntry oldCodeHash in
  journalize (journalEntryCode unmodifiedOldCodeEntry oldCodeHash []).

Definition removeCodeAndDataTrie (depth : nat) (acnt : userAccount) : AM unit :=
  removeCode acnt ;;
  removeDataTrie depth acnt.

Definition RemoveAccount (depth : nat) (address : bytes) : AM unit :=
  if blen address =? 0 then throw ErrNilAddress
  else
    let! acnt := getAccount address in
    match acnt with
    | None => throw ErrAccNotFound
    | Some acnt =>
        journalize (journalEntryAccount acnt) ;;
        removeCodeAndDataTrie depth acnt ;;
        onMain (fun t => trDelete t address)
    end.

(** ** The journal *)

Definition revertOldCodeEntry (oldCodeEntry : option CodeEntry) (oldCodeHash : bytes) : AM unit :=
  if blen oldCodeHash =? 0 then ret tt else saveCodeEntry oldCodeHash oldCodeEntry.

Definition revertNewCodeEntry (newCodeHash : bytes) : AM unit :=
  let! newCodeEntry := getCodeEntry newCodeHash in
  match newCodeEntry with
  | None => ret tt
  | Some e =>
      if NumReferences e <=? 1 then onMain (fun t => trUpdate t newCodeHash [])
      else saveCodeEntry newCodeHash (Some (withReferences (u32 (NumReferences e - 1)) e))
  end.

Fixpoint revertTrieUpdates (trieUpdates : list TrieData) : SE T stateErr unit :=
  match trieUpdates with
  | [] => ret tt
  | u :: trieUpdates =>
      onTrie (fun t => trUpdateWithVersion t (tdKey u) (tdValue u) (tdVersion u)) ;;
      revertTrieUpdates trieUpdates
  end.

(** Revert of each kind of entry: the account to save, if any. *)
Definition Revert (entry : JournalEntry) : AM (option userAccount) :=
  match entry with
  | journalEntryCode oldCodeEntry oldCodeHash newCodeHash =>
      if beq oldCodeHash newCodeHash then ret None
      else
        revertOldCodeEntry oldCodeEntry oldCodeHash ;;
        revertNewCodeEntry newCodeHash ;;
        ret None
  | journalEntryAccount account => ret (Some account)
  | journalEntryAccountCreation address =>
      onMain (fun t => trUpdate t address []) ;;
      ret None
  | journalEntryDataTrieUpdates trieUpdates ref =>
      let! l := dataTrieOf ref in
      onData l (revertTrieUpdates trieUpdates) ;;
      let! rootHash := dataRootHash l in
      onAccount ref (SetRootHash rootHash) ;;
      let! a := theAccount ref in
      ret (Some a)
  | journalEntryDataTrieRemove rootHash =>
      modify (fun s => set_obsolete (base.delete rootHash (obsoleteDataTrieHashes s)) s) ;;
      ret None
  end.

(** One round of the loop of RevertToSnapshot. *)
Definition revertEntry (entry : JournalEntry) : AM unit :=
  let! account := Revert entry in
  match account with Some a => saveAccountToTrie a | None => ret tt end.

(** The loop, over the entries from the last one. *)
Fixpoint revertEntries (l : list JournalEntry) : AM unit :=
  match l with
  | [] => ret tt
  | entry :: l => revertEntry entry ;; revertEntries l
  end.

Definition recreateTrie (h : bytes) : AM unit :=
  modify (set_obsolete ∅) ;;
  modify (set_dataTries ∅) ;;
  modify (set_entries []) ;;
  let! t := recreateMain h in
  modify (set_mainTrie t).

Definition RecreateTrie (h : bytes) : AM unit :=
  recreateTrie h ;;
  modify (set_lastRootHash h).

Definition RevertToSnapshot (snapshot : Z) : AM unit :=
  let! l := gets entries in
  if (Z.of_nat (length l) <? snapshot) || (snapshot <? 0) then throw ErrSnapshotValueOutOfBounds
  else if snapshot =? 0 then
    let! h := gets lastRootHash in recreateTrie h
  else
    revertEntries (rev (drop (Z.to_nat snapshot) l)) ;;
    modify (set_entries (take (Z.to_nat snapshot) l)).

Definition JournalLen : AM Z := gets (fun s => Z.of_nat (length (entries s))).

(** ** Commit, without pruning

    [order] is the order in which the holder gives its tries. *)

Definition commitData (l : nat) : AM unit := fun s =>
  match tries s !! l with
  | None => (s, inl ErrNilTrie)
  | Some t =>
      let (t', r) := onTrie trCommit (trShare (mainTrie s) t) in
      (set_mainTrie (trShare t' (mainTrie s)) (set_tries (<[l := t']> (tries s)) s), r)
  end.

Fixpoint commitDataTries (l : list nat) : AM unit :=
  match l with
  | [] => ret tt
  | x :: l => commitData x ;; commitDataTries l
  end.

Definition commit (order : gmap bytes nat -> list nat) : AM bytes :=
  modify (set_entries []) ;;
  let! holder := gets dataTries in
  commitDataTries (order holder) ;;
  modify (set_dataTries ∅) ;;
  onMain trCommit ;;
  let! newRoot := onMain trRootHash in
  modify (set_lastRootHash newRoot) ;;
  modify (set_obsolete ∅) ;;
  ret newRoot.

Definition accountsRootHash : AM bytes := onMain trRootHash.

(** ** What the users of the accounts call on an account *)

Definition accountRetrieveValue (ref : nat) (key : bytes) : AM bytes :=
  let! a := theAccount ref in
  let tdt := dataTrieInteractor a in
  match dirty tdt !! key, tr tdt with
  | Some dataEntry, _ => ret (ddValue dataEntry)
  | None, None => throw ErrNilTrie
  | None, Some l => onData l (RetrieveValue (theData env) tdt key)
  end.

Definition accountSaveKeyValue (ref : nat) (key value : bytes) : AM unit :=
  let! a := theAccount ref in
  let! tdt := liftR (SaveKeyValue (theData env) key value (dataTrieInteractor a)) in
  putAccount ref (setTracked tdt a).

(** The methods that change the fields of an account. *)
Definition accountChange (ref : nat) (f : userAccount -> stateErr + userAccount) : AM unit :=
  let! a := theAccount ref in
  let! a' := liftR (f a) in
  putAccount ref a'.
End Database.
