(* ===== verification/TrackableSpec.v ===== *)
(** * What saving the dirty data does to the map of the data trie.

    [putMap] is the effect of one entry of the dirty data and [putAll] that of all of
    them.  The loop of updateTrie computes them, whatever the order of the entries, and
    the old values it gives undo it. *)

From stdpp Require Import base list gmap.
From Stdlib Require Import ZArith Lia.
From S2P Require Import Prelude TrieNode TrieMap CommonTrie TrackableDataTrie.

(** The storage keys of a run: they are not hashes of one another, and their hashes
    differ.  A leaf is marshalled to some bytes, which are unmarshalled to it. *)
Class DataLaws (env : dataEnv) (storageKey : bytes -> Prop) : Prop := {
  key_bytes : forall k, storageKey k -> isBytes k;
  hash_bytes : forall k, isBytes (Compute env k);
  hash_notEmpty : forall k, Compute env k <> [];
  hash_inj : forall k1 k2, storageKey k1 -> storageKey k2 -> Compute env k1 = Compute env k2 -> k1 = k2;
  hash_notKey : forall k1 k2, storageKey k1 -> storageKey k2 -> Compute env k1 <> k2;
  leaf_roundtrip : forall l, exists v, marshalLeaf env l = Some v /\ v <> [] /\ unmarshalLeaf env v = Some l;
}.

Lemma blen_nonempty (l : bytes) : l <> [] -> (blen l =? 0) = false.
Proof. intros Hl. apply Z.eqb_neq. by rewrite blen_0. Qed.

(** ** Updates of a map at different keys *)

Definition updMap (m : kvmap) (u : TrieData) : kvmap := mapUpdate m (tdKey u) (tdValue u) (tdVersion u).

Lemma mapUpdate_lookup m k v ver x :
  mapUpdate m k v ver !! x =
    (if decide (x = k) then
       if decide (v = []) then None else if decide (fst <$> m !! k = Some v) then m !! k else Some (v, ver)
     else m !! x).
Proof.
  unfold mapUpdate. destruct (decide (v = [])); [|destruct (decide (fst <$> m !! k = Some v))];
    destruct (decide (x = k)) as [->|]; simplify_map_eq; try done.
Qed.

Lemma updMap_comm m u1 u2 : tdKey u1 <> tdKey u2 -> updMap (updMap m u1) u2 = updMap (updMap m u2) u1.
Proof.
  intros Hne. apply map_eq. intros x. unfold updMap. rewrite !mapUpdate_lookup.
  destruct (decide (tdKey u1 = tdKey u2)), (decide (tdKey u2 = tdKey u1)), (decide (x = tdKey u1)), (decide (x = tdKey u2));
    congruence.
Qed.

Lemma updMap_perm l1 l2 m : l1 ≡ₚ l2 -> NoDup (tdKey <$> l1) -> foldl updMap m l1 = foldl updMap m l2.
Proof.
  intros Hp. revert m. induction Hp as [|u l1 l2 Hp IH|u1 u2 l|l1 l2 l3 H1 IH1 H2 IH2]; intros m Hnd; simpl in *.
  - done.
  - apply IH. by inversion Hnd.
  - inversion Hnd as [|? ? Hn]. rewrite (updMap_comm m u2 u1); [done|]. intros E. apply Hn. rewrite E. by constructor.
  - rewrite IH1 by done. apply IH2. by rewrite <- H1.
Qed.

Lemma updMap_same m k v ver : v <> [] -> (forall v' ver', m !! k = Some (v', ver') -> ver' = ver) ->
  mapUpdate m k v ver = <[k := (v, ver)]> m.
Proof.
  intros Hv Hver. unfold mapUpdate. rewrite decide_False by done.
  destruct (m !! k) as [[v' ver']|] eqn:E; simpl; [|done].
  destruct (decide (Some v' = Some v)) as [Heq|]; [|done].
  rewrite insert_id; [done|]. rewrite E. rewrite (Hver v' ver') by done. congruence.
Qed.

Section Spec.
Variable env : dataEnv.
Variable storageKey : bytes -> Prop.
Context `{DL : !DataLaws env storageKey}.
Variable id : bytes.

Notation hashOf := (Compute env).
Notation ver := (versionForNewData env).

(** The key a new entry is under. *)
Definition slot (k : bytes) : bytes := getKeyForVersion env k ver.

Definition leafFor (k v : bytes) : bytes :=
  if AutoBalance env then default [] (marshalLeaf env (mkLeaf v k id)) else v ++ k ++ id.

(** A data trie has values under keys, and with the automatic balancing under hashes of
    keys, but not under both. *)
Definition dataOk (m : kvmap) : Prop :=
  (forall k v vr, m !! k = Some (v, vr) ->
     v <> [] /\ ((storageKey k /\ vr = NotSpecified) \/
                 (AutoBalance env = true /\ vr = AutoBalanceEnabled /\ exists x, storageKey x /\ k = hashOf x))) /\
  (forall k, storageKey k -> m !! k = None \/ m !! hashOf k = None).

Definition putMap (m : kvmap) (e : bytes * dirtyData) : kvmap :=
  let m0 := base.delete (hashOf e.1) (base.delete e.1 m) in
  if decide (ddValue e.2 = []) then m0 else <[slot e.1 := (leafFor e.1 (ddValue e.2), ver)]> m0.

Definition putAll (m : kvmap) (es : list (bytes * dirtyData)) : kvmap := foldl putMap m es.

(** What the code finds for a key. *)
Definition oldOf (m : kvmap) (k : bytes) : TrieData :=
  if AutoBalance env then
    match m !! hashOf k with
    | Some (v, _) => mkTrieData (hashOf k) v AutoBalanceEnabled
    | None => match m !! k with Some (v, _) => mkTrieData k v NotSpecified | None => mkTrieData (slot k) [] ver end
    end
  else match m !! k with Some (v, _) => mkTrieData k v NotSpecified | None => mkTrieData (slot k) [] ver end.

Definition migratedOf (m : kvmap) (e : bytes * dirtyData) : list TrieData :=
  if (tdVersion (oldOf m e.1) =? NotSpecified) && AutoBalance env && negb (blen (ddValue e.2) =? 0)
  then [mkTrieData (hashOf e.1) [] NotSpecified] else [].

Fixpoint oldsOf (m : kvmap) (es : list (bytes * dirtyData)) : list TrieData :=
  match es with [] => [] | e :: es => oldOf m e.1 :: oldsOf (putMap m e) es end.
Fixpoint migratedsOf (m : kvmap) (es : list (bytes * dirtyData)) : list TrieData :=
  match es with [] => [] | e :: es => migratedOf m e ++ migratedsOf (putMap m e) es end.

(** An entry that SaveKeyValue makes. *)
Definition entryOk (e : bytes * dirtyData) : Prop := storageKey e.1 /\ newVersion e.2 = ver.

Lemma slot_cases k : (AutoBalance env = true /\ slot k = hashOf k /\ ver = AutoBalanceEnabled) \/
  (AutoBalance env = false /\ slot k = k /\ ver = NotSpecified).
Proof.
  unfold slot, getKeyForVersion, versionForNewData. destruct (AutoBalance env); [left|right]; done.
Qed.

Lemma leafFor_notEmpty k v : v <> [] -> leafFor k v <> [].
Proof.
  intros Hv. unfold leafFor. destruct (AutoBalance env); [|by destruct v].
  destruct (leaf_roundtrip (mkLeaf v k id)) as (b & -> & Hb & _). done.
Qed.

Lemma putMap_lookup m e x : putMap m e !! x =
  (if decide (x = slot e.1 /\ ddValue e.2 <> []) then Some (leafFor e.1 (ddValue e.2), ver)
   else if decide (x = e.1 \/ x = hashOf e.1) then None else m !! x).
Proof.
  unfold putMap. assert (Hd : base.delete (hashOf e.1) (base.delete e.1 m) !! x = (if decide (x = e.1 \/ x = hashOf e.1) then None else m !! x)).
  { destruct (decide (x = hashOf e.1)) as [->|H1]; [rewrite decide_True by tauto; by simplify_map_eq|].
    destruct (decide (x = e.1)) as [->|H2]; [rewrite decide_True by tauto; by simplify_map_eq|].
    rewrite decide_False by tauto. by simplify_map_eq. }
  destruct (decide (ddValue e.2 = [])) as [E|E]; [rewrite (decide_False (P := _ /\ _)) by tauto; done|].
  destruct (decide (x = slot e.1)) as [->|Hx].
  - by rewrite lookup_insert_eq, decide_True.
  - rewrite lookup_insert_ne by done. rewrite (decide_False (P := _ /\ _)) by tauto. done.
Qed.

Lemma slot_own k : slot k = k \/ slot k = hashOf k.
Proof. destruct (slot_cases k) as [(_ & ? & _)|(_ & ? & _)]; auto. Qed.

Lemma slot_in k x : x = slot k -> x = k \/ x = hashOf k.
Proof. intros ->. apply slot_own. Qed.

(** The places of different keys are different. *)
Lemma places_disjoint k1 k2 x : storageKey k1 -> storageKey k2 -> k1 <> k2 ->
  x = k1 \/ x = hashOf k1 -> ~ (x = k2 \/ x = hashOf k2).
Proof.
  intros H1 H2 Hne Hx Hx'. destruct Hx as [->| ->], Hx' as [E|E].
  - done.
  - by apply (hash_notKey k2 k1).
  - by apply (hash_notKey k1 k2).
  - by apply Hne, hash_inj.
Qed.

Lemma putMap_comm m e1 e2 : storageKey e1.1 -> storageKey e2.1 -> e1.1 <> e2.1 ->
  putMap (putMap m e1) e2 = putMap (putMap m e2) e1.
Proof.
  intros H1 H2 Hne. apply map_eq. intros x. rewrite !putMap_lookup.
  pose proof (places_disjoint e1.1 e2.1 x H1 H2 Hne) as Hd.
  pose proof (slot_in e1.1 x). pose proof (slot_in e2.1 x). repeat case_decide; tauto.
Qed.

Lemma putAll_perm es1 es2 m : es1 ≡ₚ es2 -> NoDup es1.*1 -> Forall (fun e => storageKey e.1) es1 ->
  putAll m es1 = putAll m es2.
Proof.
  intros Hp. revert m. unfold putAll.
  induction Hp as [|e l1 l2 Hp IH|e1 e2 l|l1 l2 l3 H1 IH1 H2 IH2]; intros m Hnd Hk; simpl in *.
  - done.
  - inversion Hnd. inversion Hk. by apply IH.
  - inversion Hk as [|? ? ? Hk']; subst. inversion Hk'; subst. inversion Hnd as [|? ? Hn]; subst.
    rewrite putMap_comm; [done..|]. intros E. apply Hn. rewrite E. by constructor.
  - rewrite IH1 by done. apply IH2; by rewrite <- H1.
Qed.

Lemma dataOk_put m e : dataOk m -> storageKey e.1 -> dataOk (putMap m e).
Proof.
  intros [Hok Hone] He. split.
  - intros k v vr. rewrite putMap_lookup. case_decide as Hs.
    + intros [= <- <-]. destruct Hs as [-> Hv]. split; [by apply leafFor_notEmpty|].
      destruct (slot_cases e.1) as [(Ha & -> & ->)|(Ha & -> & ->)]; [right|left]; eauto.
    + case_decide; [done|]. apply Hok.
  - intros k Hk. destruct (decide (k = e.1)) as [->|Hne].
    + rewrite !putMap_lookup. destruct (slot_cases e.1) as [(_ & -> & _)|(_ & -> & _)].
      * left. rewrite decide_False by (intros [E _]; symmetry in E; by eapply hash_notKey). by rewrite decide_True by tauto.
      * right. rewrite decide_False by (intros [E _]; by eapply hash_notKey). by rewrite decide_True by tauto.
    + pose proof (places_disjoint k e.1 k Hk He Hne ltac:(tauto)) as N1.
      pose proof (places_disjoint k e.1 (hashOf k) Hk He Hne ltac:(tauto)) as N2. pose proof (slot_own e.1) as Ho.
      rewrite !putMap_lookup, !(decide_False (P := _ /\ _)), !(decide_False (P := _ \/ _)); try done; [by apply Hone|..];
        intros [E _]; rewrite <- E in Ho; tauto.
Qed.

Lemma dataOk_putAll m es : dataOk m -> Forall entryOk es -> dataOk (putAll m es).
Proof.
  intros Hm Hes. revert m Hm. unfold putAll.
  induction Hes as [|e es [He _] _ IH]; intros m Hm; simpl; [done|]. by apply IH, dataOk_put.
Qed.

Lemma dataOk_empty : dataOk ∅.
Proof. split; [intros k v vr E; by rewrite lookup_empty in E|by left]. Qed.
End Spec.

(** ** Runs of the data of an account *)

(** ** Programs on a trie that stands for a map *)

Section Hoare.
Context {T : Type} `{CT : CommonTrie T} `{CL : !CommonTrieLaws T}.
Variable env : dataEnv.
Variable storageKey : bytes -> Prop.
Context `{DL : !DataLaws env storageKey}.

(** From a trie that holds [m], [f] gives [a] and leaves a trie that holds [m']. *)
Definition does {A} (f : SE T stateErr A) (m : kvmap) (a : A) (m' : kvmap) : Prop :=
  forall t, holds t m -> exists t', f t = (t', inr a) /\ holds t' m' /\ sameStore t t'.

Lemma does_ret {A} (a : A) m : does (ret a) m a m.
Proof. intros t Ht. exists t. done. Qed.

Lemma does_bind {A B} (f : SE T stateErr A) (g : A -> SE T stateErr B) m a m1 b m2 :
  does f m a m1 -> does (g a) m1 b m2 -> does (bind f g) m b m2.
Proof.
  intros Hf Hg t Ht. destruct (Hf t Ht) as (t1 & E & Ht1 & S1). destruct (Hg t1 Ht1) as (t2 & E2 & Ht2 & S2).
  exists t2. rewrite (bind_ok f g t t1 a E). split; [done|]. split; [done|]. by etrans.
Qed.

Lemma does_someM {A} e (a : A) m : does (someM e (Some a)) m a m.
Proof. apply does_ret. Qed.

Lemma does_get m k : isBytes k -> does (onTrie (fun t => trGet t k)) m (fst <$> m !! k) m.
Proof. intros Hk t Ht. destruct (get_law t m k Ht Hk) as (t' & E & ? & ?). exists t'. unfold onTrie. by rewrite E. Qed.

Lemma does_update m k v ver : isBytes k -> 0 <= ver <= MaxUint8 ->
  does (onTrie (fun t => trUpdateWithVersion t k v ver)) m tt (mapUpdate m k v ver).
Proof.
  intros Hk Hv t Ht. destruct (update_law t m k v ver Ht Hk Hv) as (t' & E & ? & ?). exists t'. unfold onTrie. by rewrite E.
Qed.

Lemma does_delete m k : isBytes k -> does (onTrie (fun t => trDelete t k)) m tt (base.delete k m).
Proof. intros Hk t Ht. destruct (delete_law t m k Ht Hk) as (t' & E & ? & ?). exists t'. unfold onTrie. by rewrite E. Qed.

Notation hashOf := (Compute env).
Notation ver := (versionForNewData env).
Notation oldOf := (oldOf env).
Notation entryOk := (entryOk env storageKey).
Notation dataOk := (dataOk env storageKey).

Lemma slen_lookup (m : kvmap) k : (forall v vr, m !! k = Some (v, vr) -> v <> []) ->
  (slen (fst <$> m !! k) =? 0) = (if m !! k is Some _ then false else true).
Proof.
  intros Hv. destruct (m !! k) as [[v vr]|] eqn:E; [|done]. simpl. apply blen_nonempty. by eapply Hv.
Qed.

Lemma retrieve_does m k : dataOk m -> storageKey k -> does (retrieveValueFromTrie env k) m (oldOf m k) m.
Proof.
  intros [Hok _] Hk. pose proof (key_bytes k Hk) as Hb.
  assert (Hold : does (retrieveOldVersion env k) m
    (match m !! k with Some (v, _) => mkTrieData k v NotSpecified | None => mkTrieData (slot env k) [] ver end) m).
  { unfold retrieveOldVersion. eapply does_bind; [by apply does_get|]. cbv beta.
    rewrite slen_lookup by (intros v vr E; apply (Hok _ _ _ E)).
    destruct (m !! k) as [[v vr]|]; apply does_ret. }
  unfold retrieveValueFromTrie, TrackableSpec.oldOf. destruct (AutoBalance env); [|done].
  eapply does_bind; [apply does_get, hash_bytes|]. cbv beta.
  rewrite slen_lookup by (intros v vr E; apply (Hok _ _ _ E)).
  destruct (m !! hashOf k) as [[v vr]|]; [apply does_ret|done].
Qed.

Variable id : bytes.
Notation putMap := (putMap env id).

Lemma valueFor_does k v m : v <> [] -> does (getValueForVersion env id k v ver) m (leafFor env id k v) m.
Proof.
  intros Hv. unfold getValueForVersion, leafFor, versionForNewData.
  rewrite blen_nonempty by done. destruct (AutoBalance env); simpl; [|apply does_ret].
  destruct (leaf_roundtrip (mkLeaf v k id)) as (b & -> & _). apply does_ret.
Qed.

Lemma version_range : 0 <= ver <= MaxUint8.
Proof. unfold versionForNewData. by destruct (AutoBalance env). Qed.

Lemma slot_bytes k : storageKey k -> isBytes (slot env k).
Proof. intros Hk. destruct (slot_own env k) as [->| ->]; [by apply key_bytes|apply hash_bytes]. Qed.

Lemma oldOf_cases m k : dataOk m -> storageKey k ->
  (exists v, AutoBalance env = true /\ m !! hashOf k = Some (v, AutoBalanceEnabled) /\ m !! k = None /\
     v <> [] /\ oldOf m k = mkTrieData (hashOf k) v AutoBalanceEnabled) \/
  (exists v, m !! k = Some (v, NotSpecified) /\ m !! hashOf k = None /\ v <> [] /\ oldOf m k = mkTrieData k v NotSpecified) \/
  (m !! k = None /\ m !! hashOf k = None /\ oldOf m k = mkTrieData (slot env k) [] ver).
Proof.
  intros [Hok Hone] Hk. unfold TrackableSpec.oldOf. specialize (Hone k Hk).
  assert (Hno : forall v vr, m !! hashOf k = Some (v, vr) -> v <> [] /\ AutoBalance env = true /\ vr = AutoBalanceEnabled).
  { intros v vr E. destruct (Hok _ _ _ E) as (Hv & [[Hs _]|(Ha & -> & _)]); [|done].
    exfalso. by apply (hash_notKey k (hashOf k)). }
  destruct (m !! hashOf k) as [[v vr]|] eqn:EH.
  - destruct (Hno v vr eq_refl) as (Hv & Ha & ->). left. exists v. rewrite Ha. by destruct Hone.
  - right. destruct (m !! k) as [[v vr]|] eqn:E; [left|right]; [|by destruct (AutoBalance env)].
    destruct (Hok _ _ _ E) as (Hv & [[_ ->]|(_ & _ & x & Hx & ->)]); [|exfalso; by apply (hash_notKey x (hashOf x))].
    exists v. by destruct (AutoBalance env).
Qed.

(** ** One round of updateTrie *)

Lemma deleteFromTrie_does m k : dataOk m -> storageKey k ->
  does (deleteFromTrie env (oldOf m k) k) m tt (base.delete (hashOf k) (base.delete k m)).
Proof.
  intros Hm Hk. unfold deleteFromTrie.
  destruct (oldOf_cases m k Hm Hk) as [(v & _ & EH & E & Hv & ->)|[(v & E & EH & Hv & ->)|(E & EH & ->)]]; simpl.
  - rewrite blen_nonempty by done. rewrite (delete_id m k) by done. apply does_delete, hash_bytes.
  - rewrite blen_nonempty by done. rewrite (delete_id _ (hashOf k)) by (by rewrite lookup_delete_None; right).
    by apply does_delete, key_bytes.
  - rewrite (delete_id m k) by done. rewrite delete_id by done. apply does_ret.
Qed.

Lemma deleteOld_does m k dd : dataOk m -> storageKey k -> newVersion dd = ver -> ddValue dd <> [] ->
  does (deleteOldEntryIfMigrated env k dd (oldOf m k)) m tt (if AutoBalance env then base.delete k m else m).
Proof.
  intros Hm Hk Hver Hv. unfold deleteOldEntryIfMigrated. destruct (AutoBalance env) eqn:Ea; [|apply does_ret].
  assert (Hver1 : ver = AutoBalanceEnabled) by (unfold versionForNewData; by rewrite Ea). simpl.
  rewrite Hver, Hver1, blen_nonempty by done.
  destruct (oldOf_cases m k Hm Hk) as [(v & _ & EH & E & _ & ->)|[(v & E & EH & _ & ->)|(E & EH & ->)]]; simpl.
  - rewrite delete_id by done. apply does_ret.
  - by apply does_delete, key_bytes.
  - rewrite Hver1. rewrite delete_id by done. apply does_ret.
Qed.

Lemma put_result m k v : dataOk m -> storageKey k -> v <> [] ->
  mapUpdate (if AutoBalance env then base.delete k m else m) (slot env k) (leafFor env id k v) ver =
  <[slot env k := (leafFor env id k v, ver)]> (base.delete (hashOf k) (base.delete k m)).
Proof.
  intros Hm Hk Hv. pose proof (leafFor_notEmpty env storageKey id k v Hv) as Hl.
  assert (Hne : hashOf k <> k) by by apply hash_notKey.
  destruct (slot_cases env k) as [(-> & -> & Ev)|(Ea & -> & Ev)]; rewrite ?Ea, Ev; rewrite updMap_same; try done.
  - rewrite insert_delete_eq. done.
  - intros v' vr'. rewrite lookup_delete_ne by done. intros E.
    destruct (oldOf_cases m k Hm Hk) as [(? & _ & EH & _)|[(? & _ & EH & _)|(_ & EH & _)]]; congruence.
  - rewrite (delete_id _ (hashOf k)); [by rewrite insert_delete_eq|]. rewrite lookup_delete_ne by done.
    destruct (oldOf_cases m k Hm Hk) as [(? & ? & _)|[(? & _ & EH & _)|(_ & EH & _)]]; congruence.
  - intros v' vr' E.
    destruct (oldOf_cases m k Hm Hk) as [(? & ? & _)|[(? & E' & _)|(E' & _)]]; congruence.
Qed.

Lemma updateEntry_does m e : dataOk m -> entryOk e ->
  does (updateEntry env id e) m (oldOf m e.1, migratedOf env m e) (putMap m e).
Proof.
  intros Hm [Hk Hver]. destruct e as [k dd]. simpl in *. unfold updateEntry, TrackableSpec.putMap, migratedOf. simpl.
  eapply does_bind; [by apply retrieve_does|]. cbv beta.
  destruct (decide (ddValue dd = [])) as [Hv|Hv].
  - eapply does_bind.
    { unfold deleteOldEntryIfMigrated. rewrite Hv. simpl. rewrite andb_false_r. by destruct (AutoBalance env); apply does_ret. }
    cbv beta. eapply does_bind.
    { unfold modifyTrie. rewrite Hv. simpl. eapply does_bind; [by apply deleteFromTrie_does|apply does_ret]. }
    cbv beta. rewrite Hv. simpl. rewrite !andb_false_r. apply does_ret.
  - eapply does_bind; [by apply deleteOld_does|]. cbv beta.
    eapply does_bind.
    { unfold modifyTrie. rewrite blen_nonempty by done. rewrite Hver.
      eapply does_bind; [by apply valueFor_does|]. cbv beta.
      eapply does_bind; [apply does_update; [by apply slot_bytes|apply version_range]|]. apply does_ret. }
    cbv beta. rewrite put_result by done. rewrite Hver.
    replace (negb (blen (getKeyForVersion env k ver) =? 0)) with (negb (blen (slot env k) =? 0)) by done.
    rewrite (blen_nonempty (ddValue dd)) by done.
    destruct (slot_cases env k) as [(-> & Es & Ev)|(-> & _ & Ev)].
    + rewrite Es, Ev. rewrite (blen_nonempty (hashOf k)) by apply hash_notEmpty.
      apply does_ret.
    + rewrite Ev, !andb_false_r. apply does_ret.
Qed.

Lemma updateEntries_does m es : dataOk m -> Forall entryOk es ->
  does (updateEntries env id es) m (oldsOf env id m es, migratedsOf env id m es) (putAll env id m es).
Proof.
  intros Hm Hes. revert m Hm. induction Hes as [|e es He _ IH]; intros m Hm; simpl; [apply does_ret|].
  eapply does_bind; [by apply updateEntry_does|]. cbv beta iota.
  eapply does_bind; [apply IH; apply (dataOk_put env storageKey); [done|apply He]|]. cbv beta iota. apply does_ret.
Qed.

(** ** What the entry does is undone by its old values *)

Lemma restores m m' k v vr : m !! k = (if decide (v = []) then None else Some (v, vr)) ->
  (forall v' vr', m' !! k = Some (v', vr') -> vr' = vr) ->
  (forall x, x <> k -> m' !! x = m !! x) -> updMap m' (mkTrieData k v vr) = m.
Proof.
  intros Hk Hvr Hx. apply map_eq. intros x. unfold updMap. simpl. rewrite mapUpdate_lookup.
  destruct (decide (x = k)) as [->|]; [|by apply Hx]. rewrite Hk.
  destruct (decide (v = [])); [done|]. destruct (m' !! k) as [[v' vr']|] eqn:E; simpl; [|done].
  destruct (decide (Some v' = Some v)) as [[= ->]|]; [|done]. by rewrite (Hvr v vr').
Qed.

Lemma undo_entry m e : dataOk m -> entryOk e -> foldl updMap (putMap m e) (oldOf m e.1 :: migratedOf env m e) = m.
Proof.
  intros Hm [Hk Hver]. destruct e as [k dd]. unfold migratedOf. cbn [fst snd foldl] in *.
  pose proof (hash_notKey k k Hk Hk) as Hne. pose proof (slot_cases env k) as Hs.
  assert (Hl : forall x, putMap m (k, dd) !! x = _) by (intros x; apply putMap_lookup). cbn [fst snd] in Hl.
  destruct (oldOf_cases m k Hm Hk) as [(v & Ha & EH & E & Hv & ->)|[(v & E & EH & Hv & ->)|(E & EH & ->)]];
    cbn [tdVersion].
  - change (AutoBalanceEnabled =? NotSpecified) with false. cbn [andb foldl].
    destruct Hs as [(_ & Hs & Hvr)|(? & _)]; [|congruence].
    apply restores; [by rewrite decide_False|..].
    + intros v' vr'. rewrite Hl. repeat case_decide; try done; [congruence|tauto].
    + intros x Hx. rewrite Hl. repeat case_decide; try done; [intuition congruence|].
      assert (x = k) as -> by tauto. done.
  - change (NotSpecified =? NotSpecified) with true. cbn [andb].
    destruct Hs as [(Ha & Hs & Hvr)|(Ha & Hs & Hvr)]; rewrite Ha; cbn [andb]; cycle 1.
    { cbn [foldl]. apply restores; [by rewrite decide_False|..].
      + intros v' vr'. rewrite Hl. repeat case_decide; try done; [congruence|tauto].
      + intros x Hx. rewrite Hl. repeat case_decide; try done; [intuition congruence|].
        assert (x = hashOf k) as -> by tauto. done. }
    assert (Hu : updMap (putMap m (k, dd)) (mkTrieData k v NotSpecified) =
      (if decide (ddValue dd = []) then m else <[hashOf k := (leafFor env id k (ddValue dd), ver)]> m)).
    { apply restores.
      + rewrite (decide_False (P := v = [])) by done. case_decide; [done|]. by rewrite lookup_insert_ne.
      + intros v' vr'. rewrite Hl. repeat case_decide; try done; [intuition congruence|tauto].
      + intros x Hx. rewrite Hl, Hs. case_decide as Hd; [destruct Hd as [-> Hd]; rewrite decide_False by done; by simplify_map_eq|].
        destruct (decide (x = hashOf k)) as [->|Hxh].
        * rewrite decide_True by tauto. rewrite decide_True by (destruct (decide (ddValue dd = [])); [done|tauto]). done.
        * rewrite decide_False by tauto. case_decide; by simplify_map_eq. }
    rewrite Hu. destruct (decide (ddValue dd = [])) as [->|Hd]; [done|].
    rewrite blen_nonempty by done. cbn [negb foldl]. unfold updMap, mapUpdate. cbn [tdKey tdValue tdVersion].
    rewrite decide_True by done. by rewrite delete_insert_id.
  - assert (Hmig : (ver =? NotSpecified) && AutoBalance env = false).
    { destruct Hs as [(-> & _ & ->)|(-> & _ & ->)]; done. }
    rewrite Hmig. cbn [andb foldl]. apply restores.
    + rewrite decide_True by done. by destruct (slot_own env k) as [->| ->].
    + intros v' vr'. rewrite Hl. repeat case_decide; try done; [congruence|].
      destruct (slot_own env k); congruence || tauto.
    + intros x Hx. rewrite Hl. repeat case_decide; try done; [tauto|].
      by (destruct_or!; subst x).
Qed.

Definition undoOf (m : kvmap) (es : list (bytes * dirtyData)) : list TrieData := oldsOf env id m es ++ migratedsOf env id m es.

(** The places that an entry, and entries, restore. *)
Lemma entry_places m e u : u ∈ oldOf m e.1 :: migratedOf env m e -> tdKey u = e.1 \/ tdKey u = hashOf e.1.
Proof.
  intros [->|Hu]%elem_of_cons.
  - unfold TrackableSpec.oldOf. pose proof (slot_own env e.1).
    destruct (AutoBalance env), (m !! hashOf e.1) as [[]|], (m !! e.1) as [[]|]; simpl; auto.
  - unfold migratedOf in Hu. case_match; [|by apply elem_of_nil in Hu].
    apply list_elem_of_singleton in Hu as ->. by right.
Qed.

Lemma entry_nodup m e : dataOk m -> storageKey e.1 -> NoDup (tdKey <$> oldOf m e.1 :: migratedOf env m e).
Proof.
  intros Hm Hk. unfold migratedOf. case_match eqn:Hc; [|repeat constructor; by intros ?%elem_of_nil].
  apply andb_true_iff in Hc as [Hc _]. apply andb_true_iff in Hc as [Hc Ha]. pose proof (hash_notKey e.1 e.1 Hk Hk).
  assert (tdKey (oldOf m e.1) = e.1).
  { revert Hc. unfold TrackableSpec.oldOf, versionForNewData. rewrite Ha. destruct (m !! hashOf e.1) as [[]|], (m !! e.1) as [[]|]; done. }
  cbn. repeat constructor; [|by intros ?%elem_of_nil]. intros ?%list_elem_of_singleton. congruence.
Qed.

Lemma undo_places m es u : u ∈ undoOf m es -> exists e, e ∈ es /\ (tdKey u = e.1 \/ tdKey u = hashOf e.1).
Proof.
  unfold undoOf. revert m. induction es as [|e es IH]; intros m; simpl; [by intros ?%elem_of_nil|].
  rewrite elem_of_cons, !elem_of_app. intros Hu.
  assert (u ∈ oldOf m e.1 :: migratedOf env m e \/ u ∈ oldsOf env id (putMap m e) es ++ migratedsOf env id (putMap m e) es)
    as [Hu'|Hu'] by (rewrite elem_of_cons, elem_of_app; tauto).
  - exists e. split; [by constructor|by eapply entry_places].
  - destruct (IH _ Hu') as (e' & ? & ?). exists e'. split; [by constructor|done].
Qed.

(** The updates of the first entry may be undone last. *)
Lemma undo_order m e es : undoOf m (e :: es) ≡ₚ undoOf (putMap m e) es ++ oldOf m e.1 :: migratedOf env m e.
Proof.
  unfold undoOf. simpl. rewrite <- Permutation_middle. apply Permutation_skip.
  rewrite <- app_assoc. apply Permutation_app_head. apply Permutation_app_comm.
Qed.

Lemma undo_nodup m es : dataOk m -> Forall entryOk es -> NoDup es.*1 -> NoDup (tdKey <$> undoOf m es).
Proof.
  intros Hm Hes. revert m Hm. induction Hes as [|e es [He Hv] Hes IH]; intros m Hm Hnd; [constructor|].
  rewrite undo_order, fmap_app. inversion Hnd as [|? ? Hn Hnd']; subst. apply NoDup_app.
  split; [apply IH; [by apply (dataOk_put env storageKey)|done]|]. split; [|by apply entry_nodup].
  intros x (u & -> & Hu)%list_elem_of_fmap (w & E & Hw)%list_elem_of_fmap.
  apply undo_places in Hu as (e' & He' & Hu). apply entry_places in Hw. rewrite E in Hu.
  assert (Hk' : storageKey e'.1) by (rewrite Forall_forall in Hes; by apply Hes).
  apply (places_disjoint env storageKey e.1 e'.1 (tdKey w)); try done.
  intros E'. apply Hn. rewrite E'. by apply list_elem_of_fmap_2.
Qed.

Lemma undo_all m es : dataOk m -> Forall entryOk es -> NoDup es.*1 -> foldl updMap (putAll env id m es) (undoOf m es) = m.
Proof.
  intros Hm Hes. revert m Hm. induction Hes as [|e es He Hes IH]; intros m Hm Hnd; [done|].
  rewrite (updMap_perm _ _ _ (undo_order m e es)) by (apply undo_nodup; [done|by constructor|done]). rewrite foldl_app.
  assert (E : putAll env id m (e :: es) = putAll env id (putMap m e) es) by done. rewrite E.
  inversion Hnd. rewrite IH; [|apply (dataOk_put env storageKey); [done|apply He]|done]. by apply undo_entry.
Qed.

Lemma updateTrie_does m es : dataOk m -> Forall entryOk es ->
  does (updateTrie env id es) m (undoOf m es) (putAll env id m es).
Proof. intros Hm Hes. eapply does_bind; [by apply updateEntries_does|]. cbv beta iota. apply does_ret. Qed.

(** ** Reading

    A leaf has the value, the key and the identifier of the account. *)
Definition leavesOk (m : kvmap) : Prop := forall k v vr, m !! k = Some (v, vr) ->
  exists x w, storageKey x /\ w <> [] /\
    ((k = x /\ v = w ++ x ++ id) \/ (k = hashOf x /\ marshalLeaf env (mkLeaf w x id) = Some v)).

(** The value of a key in the data of an account. *)
Definition valueAt (m : kvmap) (k : bytes) : bytes :=
  let old := oldOf m k in
  if decide (tdValue old = []) then []
  else if tdVersion old =? AutoBalanceEnabled then
    match unmarshalLeaf env (tdValue old) with Some l => leafValue l | None => [] end
  else getValueNotSpecifiedVersion id k (tdValue old).

Lemma trim_suffix w k : w <> [] -> getValueNotSpecifiedVersion id k (w ++ k ++ id) = w.
Proof.
  intros Hw. unfold getValueNotSpecifiedVersion, TrimSuffixFromValue.
  assert (E : blen (w ++ k ++ id) = blen w + (blen k + blen id)) by (unfold blen; rewrite !length_app; lia).
  destruct (Z.eqb_spec (blen k + blen id) 0) as [E0|E0].
  - assert (blen (k ++ id) = 0) as E1 by (unfold blen in *; rewrite length_app; lia).
    apply blen_0 in E1. by rewrite E1, app_nil_r.
  - rewrite E. replace (blen w + (blen k + blen id) - (blen k + blen id)) with (blen w) by lia.
    replace (blen w <? 0) with false by (symmetry; apply Z.ltb_ge; unfold blen; lia).
    unfold blen. by rewrite Nat2Z.id, take_app_length.
Qed.

Lemma leaf_read m k v vr : dataOk m -> leavesOk m -> storageKey k -> m !! k = Some (v, vr) \/ m !! hashOf k = Some (v, vr) ->
  exists w, w <> [] /\ ((m !! k = Some (v, vr) /\ v = w ++ k ++ id) \/
                      (m !! hashOf k = Some (v, vr) /\ marshalLeaf env (mkLeaf w k id) = Some v)).
Proof.
  intros Hm Hl Hk [E|E]; destruct (Hl _ _ _ E) as (x & w & Hx & Hw & [[Ex Ev]|[Ex Ev]]); exists w; (split; [done|]).
  - left. by subst x.
  - exfalso. by apply (hash_notKey x k).
  - exfalso. by apply (hash_notKey k x).
  - right. apply hash_inj in Ex; [|done..]. by subst x.
Qed.

Lemma getValue_does m k : dataOk m -> leavesOk m -> storageKey k ->
  does (getValueWithoutMetadata env id k (oldOf m k)) m (valueAt m k) m.
Proof.
  intros Hm Hl Hk. unfold getValueWithoutMetadata, valueAt.
  destruct (decide (tdValue (oldOf m k) = [])) as [->|Hne]; [apply does_ret|]. rewrite blen_nonempty by done.
  destruct (oldOf_cases m k Hm Hk) as [(v & Ha & EH & E & Hv & ->)|[(v & E & EH & Hv & ->)|(E & EH & Eo)]];
    [..|by rewrite Eo in Hne]; simpl.
  - destruct (leaf_read m k v AutoBalanceEnabled Hm Hl Hk (or_intror EH)) as (w & Hw & [[E' _]|[_ Em]]); [congruence|].
    destruct (leaf_roundtrip (mkLeaf w k id)) as (b & Eb & _ & Hu). assert (b = v) as -> by congruence.
    unfold getValueAutoBalanceVersion. rewrite Hu. apply does_ret.
  - apply does_ret.
Qed.

Lemma leavesOk_put m e : leavesOk m -> entryOk e -> leavesOk (putMap m e).
Proof.
  intros Hl [Hk Hver] k v vr. rewrite putMap_lookup. case_decide as Hs.
  - intros [= <- <-]. destruct Hs as [-> Hv]. exists e.1, (ddValue e.2). split; [done|]. split; [done|].
    unfold leafFor. destruct (slot_cases env e.1) as [(Ha & -> & _)|(Ha & -> & _)]; rewrite Ha; [right|left]; [|done].
    split; [done|]. destruct (leaf_roundtrip (mkLeaf (ddValue e.2) e.1 id)) as (b & -> & _). done.
  - case_decide; [done|]. apply Hl.
Qed.

(** A saved entry is read back, and the other keys keep their values. *)
Lemma valueAt_put m e k : dataOk m -> entryOk e -> storageKey k ->
  valueAt (putMap m e) k = if decide (k = e.1) then ddValue e.2 else valueAt m k.
Proof.
  intros Hm [He Hver] Hk. destruct (decide (k = e.1)) as [->|Hne].
  - assert (Ho : oldOf (putMap m e) e.1 = mkTrieData (slot env e.1)
      (if decide (ddValue e.2 = []) then [] else leafFor env id e.1 (ddValue e.2)) ver).
    { unfold TrackableSpec.oldOf. rewrite !putMap_lookup. pose proof (hash_notKey e.1 e.1 He He).
      destruct (slot_cases env e.1) as [(-> & -> & ->)|(-> & -> & ->)];
        destruct (decide (ddValue e.2 = [])); repeat case_decide; tauto || congruence. }
    unfold valueAt. rewrite Ho. simpl. destruct (decide (ddValue e.2 = [])) as [->|Hd]; [done|].
    rewrite decide_False by by apply (leafFor_notEmpty env storageKey).
    unfold leafFor. destruct (slot_cases env e.1) as [(-> & _ & ->)|(-> & _ & ->)]; simpl; [|by apply trim_suffix].
    destruct (leaf_roundtrip (mkLeaf (ddValue e.2) e.1 id)) as (b & -> & _ & Hu). simpl. by rewrite Hu.
  - assert (Hsame : forall x, x = k \/ x = hashOf k -> putMap m e !! x = m !! x).
    { intros x Hx. pose proof (places_disjoint env storageKey k e.1 x Hk He Hne Hx).
      rewrite putMap_lookup, !decide_False; [done|done|]. intros [Hs _]. apply slot_in in Hs. tauto. }
    unfold valueAt, TrackableSpec.oldOf. rewrite !Hsame by tauto. done.
Qed.

(** The value that the last entry of a key gives. *)
Definition lookupEntry (es : list (bytes * dirtyData)) (k : bytes) : option bytes :=
  ddValue <$> (list_to_map es : gmap bytes dirtyData) !! k.

Lemma valueAt_putAll m es k : dataOk m -> Forall entryOk es -> NoDup es.*1 -> storageKey k ->
  valueAt (putAll env id m es) k = default (valueAt m k) (lookupEntry es k).
Proof.
  intros Hm Hes. revert m Hm. induction Hes as [|e es He Hes IH]; intros m Hm Hnd Hk; [done|].
  inversion Hnd as [|? ? Hn Hnd']; subst.
  change (putAll env id m (e :: es)) with (putAll env id (putMap m e) es).
  rewrite IH; [|apply (dataOk_put env storageKey); [done|apply He]|done|done].
  rewrite valueAt_put by done. unfold lookupEntry. destruct e as [k' dd]. simpl in *.
  destruct (decide (k = k')) as [->|Hne]; [|by rewrite lookup_insert_ne].
  rewrite lookup_insert_eq. by rewrite not_elem_of_list_to_map_1.
Qed.

Lemma leavesOk_putAll m es : leavesOk m -> Forall entryOk es -> leavesOk (putAll env id m es).
Proof.
  intros Hm Hes. revert m Hm. unfold putAll.
  induction Hes as [|e es He _ IH]; intros m Hm; simpl; [done|]. by apply IH, leavesOk_put.
Qed.
End Hoare.
