(* ===== verification/AccountsSim.v ===== *)
(** * The accounts database on tries that stand for maps.

    The state of the database is related to a state in which the main trie and the data
    tries are maps.  [adoes f g a g']: from a state that is related to [g], [f] gives [a]
    and leaves a state related to [g'].  [mainMap] is the map of a main trie that holds
    some accounts and codes. *)

From stdpp Require Import base list gmap.
From Stdlib Require Import ZArith Lia.
From S2P Require Import Prelude TrieNode TrieMap CommonTrie TrackableDataTrie UserAccount AccountsDB.
From S2P Require Import TrackableSpec.

Abbreviation mapDB := (AccountsDB kvmap).

(** Maps that the storage has. *)
Class StoredMaps := storedMaps : kvmap -> Prop.

Section Sim.
Context {T : Type} `{CT : CommonTrie T} `{CL : !CommonTrieLaws T} `{SM : StoredMaps}.

Definition triesSim (main : T) (ts : gmap nat T) (ms : gmap nat kvmap) : Prop :=
  forall l, option_Forall2 (fun t m => holds t m /\ storeLe t main) (ts !! l) (ms !! l).

Record sim (s : AccountsDB T) (g : mapDB) : Prop := mkSim {
  sim_main : holds (mainTrie s) (mainTrie g);
  sim_tries : triesSim (mainTrie s) (tries s) (tries g);
  sim_root : lastRootHash s = lastRootHash g;
  sim_holder : dataTries s = dataTries g;
  sim_entries : entries s = entries g;
  sim_obsolete : obsoleteDataTrieHashes s = obsoleteDataTrieHashes g;
  sim_accounts : accounts s = accounts g;
  sim_stored : forall m, storedMaps m -> persisted (mainTrie s) m;
}.

Definition adoes {A} (f : SE (AccountsDB T) stateErr A) (g : mapDB) (a : A) (g' : mapDB) : Prop :=
  forall s, sim s g -> exists s', f s = (s', inr a) /\ sim s' g'.

Lemma adoes_ret {A} (a : A) g : adoes (ret a) g a g.
Proof. intros s Hs. by exists s. Qed.

Lemma adoes_bind {A B} (f : SE (AccountsDB T) stateErr A) (h : A -> SE (AccountsDB T) stateErr B) g a g1 b g2 :
  adoes f g a g1 -> adoes (h a) g1 b g2 -> adoes (bind f h) g b g2.
Proof.
  intros Hf Hh s Hs. destruct (Hf s Hs) as (s1 & E & Hs1). destruct (Hh s1 Hs1) as (s2 & E2 & Hs2).
  exists s2. by rewrite (bind_ok f h s s1 a E).
Qed.

Lemma adoes_someM {A} e (a : A) g : adoes (someM e (Some a)) g a g.
Proof. apply adoes_ret. Qed.

Lemma adoes_modify f fg g : (forall s, sim s g -> sim (f s) (fg g)) -> adoes (modify f) g tt (fg g).
Proof. intros Hf s Hs. exists (f s). auto. Qed.

Lemma triesSim_le main main' ts ms : storeLe main main' -> triesSim main ts ms -> triesSim main' ts ms.
Proof.
  intros Hle Hs l. destruct (Hs l) as [t m [Ht Hl]|]; constructor. split; [done|]. by eapply storeLe_trans.
Qed.

Lemma triesSim_insert main ts ms l t m : holds t m -> storeLe t main -> triesSim main ts ms ->
  triesSim main (<[l := t]> ts) (<[l := m]> ms).
Proof.
  intros Ht Hl Hs l'. destruct (decide (l' = l)) as [->|Hne]; [|by rewrite !lookup_insert_ne].
  rewrite !lookup_insert_eq. by constructor.
Qed.

Lemma triesSim_lookup main ts ms l m : triesSim main ts ms -> ms !! l = Some m ->
  exists t, ts !! l = Some t /\ holds t m /\ storeLe t main.
Proof. intros Hs E. specialize (Hs l). rewrite E in Hs. inversion Hs as [t ? [? ?]|]; subst. eauto. Qed.

Lemma triesSim_dom main ts ms : triesSim main ts ms -> dom ts = dom ms.
Proof.
  intros Hs. apply set_eq. intros l. rewrite !elem_of_dom. destruct (Hs l); split; by intros [? ?]; eauto || done.
Qed.

(** ** The calls through the pointers *)

Lemma adoes_main {A} (f : T -> T * (trieErr + A)) g a m' :
  does (onTrie f) (mainTrie g) a m' -> adoes (onMain f) g a (set_mainTrie m' g).
Proof.
  intros Hf s Hs. destruct (Hf _ (sim_main _ _ Hs)) as (t' & E & Ht & S). unfold onMain. rewrite E.
  eexists. split; [done|]. destruct Hs. split; try done; simpl.
  - eapply triesSim_le; [|done]. by apply storeLe_same.
  - intros m Hm. eapply persisted_le; [by apply storeLe_same|auto].
Qed.

Lemma set_mainTrie_id (g : mapDB) : set_mainTrie (mainTrie g) g = g.
Proof. by destruct g. Qed.

Lemma adoes_mainGet k g : isBytes k -> adoes (onMain (fun t => trGet t k)) g (fst <$> mainTrie g !! k) g.
Proof. intros Hk. rewrite <- (set_mainTrie_id g) at 3. by apply adoes_main, does_get. Qed.

Lemma adoes_data {A} l (f : SE T stateErr A) g m a m' :
  tries g !! l = Some m -> does f m a m' -> adoes (onData l f) g a (set_tries (<[l := m']> (tries g)) g).
Proof.
  intros E Hf s Hs. destruct (triesSim_lookup _ _ _ _ _ (sim_tries _ _ Hs) E) as (t & Et & Ht & Hle).
  destruct (share_law (mainTrie s) t m Ht Hle) as (Ht1 & S1).
  destruct (Hf _ Ht1) as (t2 & E2 & Ht2 & S2). unfold onData. rewrite Et, E2.
  eexists. split; [done|]. destruct Hs. split; try done. simpl. apply triesSim_insert; try done.
  apply storeLe_same. by rewrite S1, S2.
Qed.

Lemma adoes_rootHash l g m s : sim s g -> tries g !! l = Some m ->
  exists h, rootOf m h /\ adoes (dataRootHash l) g h g.
Proof.
  intros Hs E. destruct (triesSim_lookup _ _ _ _ _ (sim_tries _ _ Hs) E) as (t & Et & Ht & Hle).
  destruct (rootHash_law t m Ht) as (_ & h & _ & Hro & _). exists h. split; [done|].
  assert (Hg : set_tries (<[l := m]> (tries g)) g = g) by (rewrite insert_id by done; by destruct g).
  rewrite <- Hg at 2. apply adoes_data with (m := m); [done|].
  intros t1 Ht1. destruct (rootHash_law t1 m Ht1) as (t2 & h2 & E2 & Hr2 & Ht2 & S2). exists t2. unfold onTrie. rewrite E2.
  by rewrite (rootOf_fun m h2 h).
Qed.

Lemma sim_dom s g : sim s g -> dom (tries s) = dom (tries g).
Proof. intros Hs. by eapply triesSim_dom, sim_tries. Qed.

(** A trie that was recreated, as a new object. *)
Lemma adoes_newTrie t g m s : sim s g -> holds t m -> sameStore (mainTrie s) t ->
  newTrie t s = (fst (newTrie t s), inr (fresh (dom (tries g)))) /\
  sim (fst (newTrie t s)) (set_tries (<[fresh (dom (tries g)) := m]> (tries g)) g).
Proof.
  intros Hs Ht S. unfold newTrie. rewrite (sim_dom s g Hs). split; [done|]. destruct Hs. split; try done. simpl.
  apply triesSim_insert; try done. apply storeLe_same. by symmetry.
Qed.

Lemma adoes_recreate_new g h m {B} (k : nat -> SE (AccountsDB T) stateErr B) b g' :
  (forall s, sim s g -> exists t, trRecreate (mainTrie s) h = inr t /\ holds t m /\ sameStore (mainTrie s) t) ->
  adoes (k (fresh (dom (tries g)))) (set_tries (<[fresh (dom (tries g)) := m]> (tries g)) g) b g' ->
  adoes (let! t := recreateMain h in let! l := newTrie t in k l) g b g'.
Proof.
  intros Hrec Hk s Hs. destruct (Hrec s Hs) as (t & E & Ht & S).
  destruct (adoes_newTrie t g m s Hs Ht S) as (E2 & Hs2). destruct (Hk _ Hs2) as (s3 & E3 & Hs3).
  exists s3. split; [|done]. rewrite (bind_ok _ _ s s t), (bind_ok _ _ _ _ _ E2); [done|].
  unfold recreateMain. rewrite (bind_ok _ _ s s (mainTrie s)) by done. by rewrite E.
Qed.

Lemma adoes_newAccount a g : adoes (newAccount a) g (fresh (dom (accounts g))) (set_accounts (<[fresh (dom (accounts g)) := a]> (accounts g)) g).
Proof.
  intros s Hs. unfold newAccount. rewrite (sim_accounts _ _ Hs). eexists. split; [done|]. destruct Hs. by split.
Qed.

Lemma adoes_theAccount r a g : accounts g !! r = Some a -> adoes (theAccount r) g a g.
Proof. intros E s Hs. exists s. unfold theAccount. by rewrite (sim_accounts _ _ Hs), E. Qed.

Lemma adoes_putAccount r a g : adoes (putAccount r a) g tt (set_accounts (<[r := a]> (accounts g)) g).
Proof. apply (adoes_modify _ (fun g => _)). intros s []. split; try done. simpl. congruence. Qed.

Lemma adoes_onAccount r f a g : accounts g !! r = Some a ->
  adoes (onAccount r f) g tt (set_accounts (<[r := f a]> (accounts g)) g).
Proof. intros E. eapply adoes_bind; [by apply adoes_theAccount|]. apply adoes_putAccount. Qed.

Lemma adoes_journalize e g : adoes (journalize e) g tt (set_entries (entries g ++ [e]) g).
Proof. apply (adoes_modify _ (fun g => _)). intros s []. split; try done. simpl. congruence. Qed.

Lemma adoes_holder g : adoes (gets dataTries) g (dataTries g) g.
Proof. intros s Hs. exists s. unfold gets. by rewrite (sim_holder _ _ Hs). Qed.

Lemma adoes_putHolder a l g : adoes (modify (fun s => set_dataTries (<[a := l]> (dataTries s)) s)) g tt
  (set_dataTries (<[a := l]> (dataTries g)) g).
Proof. apply (adoes_modify _ (fun g => _)). intros s []. split; try done. simpl. congruence. Qed.

Lemma adoes_obsolete f g : adoes (modify (fun s => set_obsolete (f (obsoleteDataTrieHashes s)) s)) g tt
  (set_obsolete (f (obsoleteDataTrieHashes g)) g).
Proof. apply (adoes_modify _ (fun g => _)). intros s []. split; try done. simpl. congruence. Qed.

Lemma adoes_run {A} (f : SE (AccountsDB T) stateErr A) g a g' s : adoes f g a g' -> sim s g ->
  exists s', f s = (s', inr a) /\ sim s' g'.
Proof. auto. Qed.
End Sim.

(** ** The maps of accounts and codes *)

(** The storage keys, the addresses and the codes of a run.  No address is the hash of a
    code, and what is marshalled can be unmarshalled. *)
Class AccountsLaws (env : accountsEnv) (storageKey : bytes -> Prop) (addresses : gset bytes) (isCode : bytes -> Prop) : Prop := {
  laws_data :: DataLaws (theData env) storageKey;
  address_bytes : forall a, a ∈ addresses -> isBytes a /\ a <> [];
  addresses_few : Z.of_nat (size addresses) + 1 < MaxUint32;
  address_notHash : forall a c, a ∈ addresses -> isCode c -> Compute (theData env) c <> a;
  account_roundtrip : forall d, Address d <> [] ->
    exists v, marshalAccount env d = Some v /\ v <> [] /\ unmarshalAccount env v = Some d;
  code_roundtrip : forall e, 1 <= NumReferences e ->
    exists v, marshalCode env e = Some v /\ v <> [] /\ unmarshalCode env v = Some e;
}.

Section Maps.
Context {T : Type} `{CT : CommonTrie T} `{CL : !CommonTrieLaws T} `{SM : StoredMaps}.
Variable env : accountsEnv.
Variable storageKey : bytes -> Prop.
Variable addresses : gset bytes.
Variable isCode : bytes -> Prop.
Context `{AL : !AccountsLaws env storageKey addresses isCode}.

Notation hashOf := (Compute (theData env)).
Abbreviation AM := (SE (AccountsDB T) stateErr).

Definition accLeaf (d : UserAccountData) : bytes * Z := (default [] (marshalAccount env d), NotSpecified).
Definition codeLeaf (e : CodeEntry) : bytes * Z := (default [] (marshalCode env e), NotSpecified).

Definition mainMap (accts : gmap bytes UserAccountData) (codes : gmap bytes CodeEntry) : kvmap :=
  (accLeaf <$> accts) ∪ (codeLeaf <$> codes).

Definition acctsOk (accts : gmap bytes UserAccountData) : Prop :=
  map_Forall (fun a d => a ∈ addresses /\ Address d = a) accts.

(** The hash of a code of the run, or no hash. *)
Definition codeHash (h : bytes) : Prop := exists c, isCode c /\ h = hashOf c.

Definition codesOk (codes : gmap bytes CodeEntry) : Prop :=
  map_Forall (fun h e => codeHash h /\ 1 <= NumReferences e < MaxUint32) codes.

Lemma codeHash_notAddress h : codeHash h -> h ∉ addresses.
Proof. intros (c & Hc & ->) Ha. by apply (address_notHash (hashOf c) c). Qed.

Lemma codeHash_bytes h : codeHash h -> isBytes h.
Proof. intros (c & _ & ->). apply hash_bytes. Qed.

Lemma codeHash_notEmpty h : codeHash h -> h <> [].
Proof. intros (c & _ & ->). apply hash_notEmpty. Qed.

Section TwoMaps.
Variable accts : gmap bytes UserAccountData.
Variable codes : gmap bytes CodeEntry.
Hypothesis HA : acctsOk accts.
Hypothesis HC : codesOk codes.

Lemma accts_notAddress a : a ∉ addresses -> accts !! a = None.
Proof. intros Ha. destruct (accts !! a) as [d|] eqn:E; [|done]. exfalso. apply Ha. by apply (HA _ _ E). Qed.

Lemma codes_notHash h : ~ codeHash h -> codes !! h = None.
Proof. intros Hh. destruct (codes !! h) as [e|] eqn:E; [|done]. exfalso. apply Hh. by apply (HC _ _ E). Qed.

Lemma main_account a : a ∈ addresses -> mainMap accts codes !! a = accLeaf <$> accts !! a.
Proof.
  intros Ha. unfold mainMap. rewrite lookup_union, !lookup_fmap.
  rewrite (codes_notHash a) by (intros Hh; by apply (codeHash_notAddress a)). by destruct (accts !! a).
Qed.

Lemma main_code h : h ∉ addresses -> mainMap accts codes !! h = codeLeaf <$> codes !! h.
Proof.
  intros Ha. unfold mainMap. rewrite lookup_union, !lookup_fmap. rewrite accts_notAddress by done. by destruct (codes !! h).
Qed.

Lemma main_version k v vr : mainMap accts codes !! k = Some (v, vr) -> vr = NotSpecified.
Proof.
  unfold mainMap. rewrite lookup_union_Some_raw, !lookup_fmap.
  intros [E|[_ E]]; [destruct (accts !! k)|destruct (codes !! k)]; by inversion E.
Qed.

Lemma accLeaf_some a d : accts !! a = Some d ->
  exists v, marshalAccount env d = Some v /\ v <> [] /\ unmarshalAccount env v = Some d.
Proof.
  intros E. destruct (HA _ _ E) as [Ha Hd]. destruct (account_roundtrip d) as (v & Ev & Hv & Hu).
  { rewrite Hd. by apply address_bytes. }
  by exists v.
Qed.

Lemma codeLeaf_some h e : codes !! h = Some e ->
  exists v, marshalCode env e = Some v /\ v <> [] /\ unmarshalCode env v = Some e.
Proof.
  intros E. destruct (HC _ _ E) as [_ He]. destruct (code_roundtrip e) as (v & Ev & Hv & Hu); [lia|].
  by exists v.
Qed.

Lemma acctsOk_insert a d : a ∈ addresses -> Address d = a -> acctsOk (<[a := d]> accts).
Proof. intros Ha Hd. apply map_Forall_insert_2; [done|apply HA]. Qed.

Lemma acctsOk_delete a : acctsOk (base.delete a accts).
Proof. by apply map_Forall_delete. Qed.

Lemma codesOk_insert h e : codeHash h -> 1 <= NumReferences e < MaxUint32 -> codesOk (<[h := e]> codes).
Proof. intros Hh He. by apply map_Forall_insert_2. Qed.

Lemma codesOk_delete h : codesOk (base.delete h codes).
Proof. by apply map_Forall_delete. Qed.

(** *** Updates of the main map *)

Lemma main_putAccount a d v : a ∈ addresses -> marshalAccount env d = Some v -> v <> [] ->
  mapUpdate (mainMap accts codes) a v NotSpecified = mainMap (<[a := d]> accts) codes.
Proof.
  intros Ha Ev Hv. rewrite updMap_same; [|done|by intros v' vr' ?%main_version].
  unfold mainMap. rewrite fmap_insert. unfold accLeaf at 2. rewrite Ev. simpl. by rewrite insert_union_l.
Qed.

Lemma main_dropAccount a : a ∈ addresses ->
  base.delete a (mainMap accts codes) = mainMap (base.delete a accts) codes.
Proof.
  intros Ha. unfold mainMap. rewrite delete_union, <- !fmap_delete. f_equal. f_equal.
  apply delete_id, codes_notHash. intros Hh. by apply (codeHash_notAddress a).
Qed.

Lemma main_putCode h e v : codeHash h -> marshalCode env e = Some v -> v <> [] ->
  mapUpdate (mainMap accts codes) h v NotSpecified = mainMap accts (<[h := e]> codes).
Proof.
  intros Hh Ev Hv. rewrite updMap_same; [|done|by intros v' vr' ?%main_version].
  unfold mainMap. rewrite fmap_insert. unfold codeLeaf at 2. rewrite Ev. simpl. rewrite insert_union_r; [done|].
  rewrite lookup_fmap, accts_notAddress; [done|by apply codeHash_notAddress].
Qed.

Lemma main_dropCode h : codeHash h -> base.delete h (mainMap accts codes) = mainMap accts (base.delete h codes).
Proof.
  intros Hh. unfold mainMap. rewrite delete_union, <- !fmap_delete. f_equal. f_equal.
  apply delete_id, accts_notAddress. by apply codeHash_notAddress.
Qed.

Lemma main_noEmpty : mainMap accts codes !! [] = None.
Proof.
  unfold mainMap. rewrite lookup_union, !lookup_fmap.
  rewrite codes_notHash by (intros Hh; by apply (codeHash_notEmpty [])).
  rewrite accts_notAddress; [done|]. intros Ha. by destruct (address_bytes [] Ha).
Qed.
End TwoMaps.

(** ** The functions on codes *)

Definition dropRef (h : bytes) (codes : gmap bytes CodeEntry) : gmap bytes CodeEntry :=
  match codes !! h with
  | None => codes
  | Some e => if NumReferences e <=? 1 then base.delete h codes else <[h := withReferences (NumReferences e - 1) e]> codes
  end.

Definition addRef (h c : bytes) (codes : gmap bytes CodeEntry) : gmap bytes CodeEntry :=
  if decide (c = []) then codes
  else
    let e := default (mkCodeEntry c 0) (codes !! h) in
    <[h := withReferences (NumReferences e + 1) e]> codes.

(** The state [g] has the accounts and the codes. *)
Definition mainIs (g : mapDB) accts codes : Prop := mainTrie g = mainMap accts codes /\ acctsOk accts /\ codesOk codes.

Definition withMain (m : kvmap) (g : mapDB) : mapDB := set_mainTrie m g.

Lemma u32_below n : 0 <= n <= MaxUint32 -> u32 n = n.
Proof. intros Hn. apply Z.mod_small. unfold MaxUint32 in Hn. lia. Qed.

Lemma getCodeEntry_adoes g accts codes h : mainIs g accts codes -> h = [] \/ codeHash h ->
  adoes (getCodeEntry env h : AM _) g (if decide (h = []) then None else codes !! h) g.
Proof.
  intros (Hg & HA & HC) Hh. unfold getCodeEntry. destruct Hh as [->|Hh].
  { eapply adoes_bind; [apply adoes_mainGet, Forall_nil_2|]. rewrite Hg, main_noEmpty by done. apply adoes_ret. }
  rewrite decide_False by by apply codeHash_notEmpty.
  eapply adoes_bind; [by apply adoes_mainGet, codeHash_bytes|]. rewrite Hg, main_code by (done || by apply codeHash_notAddress).
  destruct (codes !! h) as [e|] eqn:E; [|apply adoes_ret]. simpl.
  destruct (codeLeaf_some codes HC h e E) as (v & El & Hv & Hu). rewrite El. simpl. rewrite blen_nonempty by done.
  rewrite Hu. eapply adoes_bind; [apply adoes_someM|]. apply adoes_ret.
Qed.

Lemma saveCodeEntry_adoes g accts codes h e : mainIs g accts codes -> codeHash h -> 1 <= NumReferences e < MaxUint32 ->
  adoes (saveCodeEntry env h (Some e) : AM _) g tt (withMain (mainMap accts (<[h := e]> codes)) g).
Proof.
  intros (Hg & HA & HC) Hh He. unfold saveCodeEntry. destruct (code_roundtrip e) as (v & Ev & Hv & _); [lia|]. rewrite Ev.
  eapply adoes_bind; [apply adoes_someM|]. rewrite <- (main_putCode accts codes HA h e v) by done. rewrite <- Hg.
  apply adoes_main, does_update; [by apply codeHash_bytes|done].
Qed.

Lemma updateOld_adoes g accts codes h : mainIs g accts codes -> h = [] \/ codeHash h ->
  adoes (updateOldCodeEntry env h : AM _) g (if decide (h = []) then None else codes !! h)
    (withMain (mainMap accts (dropRef h codes)) g).
Proof.
  intros HM Hh. unfold updateOldCodeEntry. eapply adoes_bind; [by eapply getCodeEntry_adoes|]. destruct HM as (Hg & HA & HC).
  unfold dropRef. destruct (decide (h = [])) as [->|Hne].
  { rewrite codes_notHash; [|done|intros Hh'; by apply (codeHash_notEmpty [])]. rewrite <- Hg. unfold withMain.
    rewrite set_mainTrie_id. apply adoes_ret. }
  destruct Hh as [->|Hh]; [done|].
  destruct (codes !! h) as [e|] eqn:E; [|rewrite <- Hg; unfold withMain; rewrite set_mainTrie_id; apply adoes_ret].
  destruct (HC _ _ E) as [_ He]. simpl.
  destruct (NumReferences e <=? 1) eqn:Hle.
  - eapply adoes_bind; [|apply adoes_ret]. rewrite <- main_dropCode, <- Hg by done.
    by apply adoes_main, does_delete, codeHash_bytes.
  - apply Z.leb_gt in Hle. rewrite u32_below by (unfold MaxUint32 in *; lia).
    eapply adoes_bind; [|apply adoes_ret]. apply saveCodeEntry_adoes; [done|done|simpl; lia].
Qed.

Lemma updateNew_adoes g accts codes h c : mainIs g accts codes -> (c <> [] -> codeHash h) ->
  (forall e, codes !! h = Some e -> NumReferences e + 1 < MaxUint32) ->
  adoes (updateNewCodeEntry env h c : AM _) g tt (withMain (mainMap accts (addRef h c codes)) g).
Proof.
  intros HM Hh Hmax. unfold updateNewCodeEntry, addRef.
  destruct (decide (c = [])) as [->|Hc].
  { destruct HM as (<- & _). unfold withMain. rewrite set_mainTrie_id. apply adoes_ret. }
  rewrite blen_nonempty by done. specialize (Hh Hc).
  eapply adoes_bind; [by eapply getCodeEntry_adoes; eauto|]. rewrite decide_False by by apply codeHash_notEmpty.
  assert (He : 0 <= NumReferences (default (mkCodeEntry c 0) (codes !! h)) < MaxUint32 - 1).
  { destruct HM as (_ & _ & HC). destruct (codes !! h) as [e|] eqn:E; simpl; [|by unfold MaxUint32].
    destruct (HC _ _ E). pose proof (Hmax e eq_refl). lia. }
  rewrite u32_below by (unfold MaxUint32 in *; lia). apply saveCodeEntry_adoes; [done|done|simpl; lia].
Qed.

Lemma codesOk_dropRef h codes : codesOk codes -> codesOk (dropRef h codes).
Proof.
  intros HC. unfold dropRef. destruct (codes !! h) as [e|] eqn:E; [|done]. destruct (HC _ _ E) as [? ?].
  destruct (Z.leb_spec (NumReferences e) 1); [by apply codesOk_delete|]. apply codesOk_insert; try done. simpl. lia.
Qed.

Lemma codesOk_addRef h c codes : codesOk codes -> (c <> [] -> codeHash h) ->
  (forall e, codes !! h = Some e -> NumReferences e + 1 < MaxUint32) -> codesOk (addRef h c codes).
Proof.
  intros HC Hh Hmax. unfold addRef. destruct (decide (c = [])); [done|]. apply codesOk_insert; [done|by apply Hh|].
  destruct (codes !! h) as [e|] eqn:E; simpl; [|by unfold MaxUint32]. destruct (HC _ _ E) as [? ?].
  pose proof (Hmax e eq_refl). lia.
Qed.

(** Taking the references back. *)
Lemma dropRef_addRef h c codes : codesOk codes -> c <> [] -> dropRef h (addRef h c codes) = codes.
Proof.
  intros HC Hc. unfold dropRef, addRef. rewrite decide_False, lookup_insert_eq by done. simpl.
  destruct (codes !! h) as [e|] eqn:E; simpl.
  - destruct (HC _ _ E) as [_ He]. replace (NumReferences e + 1 <=? 1) with false by (symmetry; apply Z.leb_gt; lia).
    rewrite insert_insert_eq. unfold withReferences. simpl. rewrite Z.add_simpl_r. rewrite insert_id; [done|]. by destruct e.
  - by rewrite delete_insert_id.
Qed.

Lemma insert_dropRef h e codes : codes !! h = Some e -> <[h := e]> (dropRef h codes) = codes.
Proof.
  intros E. unfold dropRef. rewrite E. destruct (NumReferences e <=? 1).
  - by rewrite insert_delete_id.
  - rewrite insert_insert_eq. by apply insert_id.
Qed.

Lemma dropRef_lookup_ne h h' codes : h <> h' -> dropRef h codes !! h' = codes !! h'.
Proof.
  intros Hne. unfold dropRef. destruct (codes !! h) as [e|]; [|done].
  destruct (NumReferences e <=? 1); [by rewrite lookup_delete_ne|by rewrite lookup_insert_ne].
Qed.

Lemma addRef_insert_comm h h' c e codes : h <> h' -> <[h := e]> (addRef h' c codes) = addRef h' c (<[h := e]> codes).
Proof.
  intros Hne. unfold addRef. destruct (decide (c = [])); [done|]. rewrite lookup_insert_ne by done.
  by rewrite insert_insert_ne.
Qed.

(** ** The functions on accounts *)

Definition asLoaded (a : bytes) (d : UserAccountData) : userAccount :=
  mkUserAccount d (NewTrackableDataTrie a) [] false.

Lemma getAccount_adoes g accts codes a : mainIs g accts codes -> a ∈ addresses ->
  adoes (getAccount env a : AM _) g (asLoaded a <$> accts !! a) g.
Proof.
  intros (Hg & HA & HC) Ha. destruct (address_bytes a Ha) as [Hb Hne]. unfold getAccount.
  eapply adoes_bind; [by apply adoes_mainGet|]. rewrite Hg, main_account by done.
  destruct (accts !! a) as [d|] eqn:E; [|apply adoes_ret]. simpl.
  unfold NewUserAccount. rewrite blen_nonempty by done.
  destruct (accLeaf_some accts HA a d E) as (v & El & _ & Hu). rewrite El. simpl. rewrite Hu.
  eapply adoes_bind; [apply adoes_ret|]. eapply adoes_bind; [apply adoes_someM|]. apply adoes_ret.
Qed.

Lemma saveAccount_adoes g accts codes acc : mainIs g accts codes -> AddressBytes acc ∈ addresses ->
  adoes (saveAccountToTrie env acc : AM _) g tt (withMain (mainMap (<[AddressBytes acc := accountData acc]> accts) codes) g).
Proof.
  intros (Hg & HA & HC) Ha. unfold saveAccountToTrie. destruct (address_bytes _ Ha) as [Hb Hne].
  destruct (account_roundtrip (accountData acc)) as (v & Ev & Hv & _); [done|]. rewrite Ev.
  eapply adoes_bind; [apply adoes_someM|]. rewrite <- (main_putAccount accts codes _ _ v) by done. rewrite <- Hg.
  by apply adoes_main, does_update.
Qed.

Lemma dropAccount_adoes g accts codes a : mainIs g accts codes -> a ∈ addresses ->
  adoes (onMain (fun t => trUpdate t a []) : AM _) g tt (withMain (mainMap (base.delete a accts) codes) g).
Proof.
  intros (Hg & HA & HC) Ha. rewrite <- main_dropAccount, <- Hg by done.
  change (base.delete a (mainTrie g)) with (mapUpdate (mainTrie g) a [] NotSpecified).
  apply adoes_main, does_update; [by apply address_bytes|done].
Qed.

Lemma deleteAccount_adoes g accts codes a : mainIs g accts codes -> a ∈ addresses ->
  adoes (onMain (fun t => trDelete t a) : AM _) g tt (withMain (mainMap (base.delete a accts) codes) g).
Proof.
  intros (Hg & HA & HC) Ha. rewrite <- main_dropAccount, <- Hg by done.
  by apply adoes_main, does_delete, address_bytes.
Qed.
End Maps.
