(* ===== verification/AccountsUndo.v ===== *)
(** * The journal: what each group of entries undoes.

    [undoes a G g' codes' g codes]: reverting the entries [G], from any state that goes on
    from [g'], gives back the codes and the data tries that [g] had; among the accounts only
    the one at [a] may change.  The second part is saving an account. *)

From stdpp Require Import base list gmap.
From Stdlib Require Import ZArith Lia.
From S2P Require Import Prelude TrieNode TrieMap CommonTrie TrackableDataTrie UserAccount AccountsDB.
From S2P Require Import TrackableSpec AccountsSim.

Section Undo.
Context {T : Type} `{CT : CommonTrie T} `{CL : !CommonTrieLaws T} `{SM : StoredMaps}.
Variable env : accountsEnv.
Variable storageKey : bytes -> Prop.
Variable addresses : gset bytes.
Variable isCode : bytes -> Prop.
Context `{AL : !AccountsLaws env storageKey addresses isCode}.

Notation hashOf := (Compute (theData env)).
Notation entryOk := (entryOk (theData env) storageKey).
Notation dataOk := (dataOk (theData env) storageKey).
Notation mainIs := (mainIs env addresses isCode).
Notation mainMap := (mainMap env).
Notation codeHash := (codeHash env isCode).
Abbreviation AM := (SE (AccountsDB T) stateErr).

(** ** The objects *)

Definition dirtyOk (d : gmap bytes dirtyData) : Prop := map_Forall (fun k dd => entryOk (k, dd)) d.

Record objOk (ts : gmap nat kvmap) (a : userAccount) : Prop := mkObjOk {
  obj_address : AddressBytes a ∈ addresses;
  obj_dirty : dirtyOk (dirty (dataTrieInteractor a));
  obj_trie : forall l, tr (dataTrieInteractor a) = Some l -> is_Some (ts !! l);
  obj_code : code a <> [] -> isCode (code a);
}.

Record heapOk (g : mapDB) : Prop := mkHeapOk {
  heap_tries : map_Forall (fun _ m => dataOk m) (tries g);
  heap_objects : map_Forall (fun _ a => objOk (tries g) a) (accounts g);
  heap_holder : map_Forall (fun _ l => is_Some (tries g !! l)) (dataTries g);
}.

(** An object keeps its address, and its data trie once it has one. *)
Definition objLe (a a' : userAccount) : Prop :=
  AddressBytes a' = AddressBytes a /\
  (forall l, tr (dataTrieInteractor a) = Some l -> tr (dataTrieInteractor a') = Some l).

Definition heapLe (g g' : mapDB) : Prop :=
  tries g ⊆ tries g' /\
  (forall r a, accounts g !! r = Some a -> exists a', accounts g' !! r = Some a' /\ objLe a a').

Definition sameRest (g g' : mapDB) : Prop :=
  entries g' = entries g /\ dataTries g' = dataTries g /\ lastRootHash g' = lastRootHash g.

Lemma objLe_refl a : objLe a a.
Proof. by split. Qed.

Lemma heapLe_refl g : heapLe g g.
Proof. split; [done|]. intros r a E. exists a. split; [done|apply objLe_refl]. Qed.

Lemma heapLe_trans g1 g2 g3 : heapLe g1 g2 -> heapLe g2 g3 -> heapLe g1 g3.
Proof.
  intros [T1 O1] [T2 O2]. split; [by etrans|]. intros r a E. destruct (O1 r a E) as (a2 & E2 & A2 & L2).
  destruct (O2 r a2 E2) as (a3 & E3 & A3 & L3). exists a3. split; [done|]. split; [congruence|auto].
Qed.

(** Changes that are seen neither in the heap nor in the rest. *)
Lemma heapLe_withMain m g : heapLe g (withMain m g).
Proof. apply (heapLe_refl g). Qed.

Lemma heapOk_withMain m g : heapOk g -> heapOk (withMain m g).
Proof. intros []. by split. Qed.

(** A change of an object that keeps it as the database needs it. *)
Lemma heapOk_object g r a : heapOk g -> objOk (tries g) a -> heapOk (set_accounts (<[r := a]> (accounts g)) g).
Proof. intros [Ht Ho Hh] Ha. split; [done| |done]. simpl. by apply map_Forall_insert_2. Qed.

Lemma heapLe_object g r a a' : accounts g !! r = Some a -> objLe a a' -> heapLe g (set_accounts (<[r := a']> (accounts g)) g).
Proof.
  intros E Ha. split; [done|]. intros r' b E'. simpl. destruct (decide (r' = r)) as [->|Hne].
  - rewrite lookup_insert_eq. exists a'. split; [done|]. congruence.
  - rewrite lookup_insert_ne by done. exists b. split; [done|apply objLe_refl].
Qed.

Lemma objOk_mono ts ts' a : (forall l, is_Some (ts !! l) -> is_Some (ts' !! l)) -> objOk ts a -> objOk ts' a.
Proof. intros Hs []. split; auto. Qed.

Lemma insert_keeps {A} (ts : gmap nat A) l m x : is_Some (ts !! x) -> is_Some (<[l := m]> ts !! x).
Proof. intros Hs. destruct (decide (x = l)) as [->|]; [by rewrite lookup_insert_eq|by rewrite lookup_insert_ne]. Qed.

Lemma heapOk_trie g l m : heapOk g -> dataOk m -> heapOk (set_tries (<[l := m]> (tries g)) g).
Proof.
  intros [Ht Ho Hh] Hm. split; simpl.
  - by apply map_Forall_insert_2.
  - eapply map_Forall_impl; [exact Ho|]. intros r a. apply objOk_mono. intros x. apply insert_keeps.
  - eapply map_Forall_impl; [exact Hh|]. intros a x. apply insert_keeps.
Qed.

Lemma heapLe_newTrie g l m : tries g !! l = None -> heapLe g (set_tries (<[l := m]> (tries g)) g).
Proof.
  intros E. split; [by apply insert_subseteq|]. intros r a Ea. exists a. split; [done|apply objLe_refl].
Qed.

Lemma fresh_none {A} (ts : gmap nat A) : ts !! fresh (dom ts) = None.
Proof. apply not_elem_of_dom, is_fresh. Qed.

(** ** Undoing a group of entries *)

Definition undoes (a : bytes) (G : list JournalEntry) (g' : mapDB) (codes' : gmap bytes CodeEntry) (g : mapDB)
  (codes : gmap bytes CodeEntry) : Prop :=
  forall (s1 : AccountsDB T) g1 accts1, sim s1 g1 -> mainIs g1 accts1 codes' -> heapOk g1 -> heapLe g' g1 ->
  exists s2 g2 accts2, revertEntries env (rev G) s1 = (s2 : AccountsDB T, inr tt) /\ sim s2 g2 /\
    mainIs g2 accts2 codes /\ heapOk g2 /\ heapLe g g2 /\ sameRest g1 g2 /\
    (forall k, k <> a -> accts2 !! k = accts1 !! k).

Lemma revertEntries_app l1 l2 s : revertEntries env (l1 ++ l2) s = (revertEntries env l1 ;; revertEntries env l2) (s : AccountsDB T).
Proof.
  revert s. induction l1 as [|e l1 IH]; intros s; simpl; [done|]. unfold bind at 1 3.
  unfold bind at 1. destruct (revertEntry env e s) as [s' [err|[]]]; [done|]. apply IH.
Qed.

Lemma sameRest_trans g1 g2 g3 : sameRest g1 g2 -> sameRest g2 g3 -> sameRest g1 g3.
Proof. intros (E1 & D1 & L1) (E2 & D2 & L2). unfold sameRest. split_and!; congruence. Qed.

Lemma undoes_nil a g' g codes : heapLe g g' -> undoes a [] g' codes g codes.
Proof.
  intros Hle s1 g1 accts1 Hs HM Hok Hle1. exists s1, g1, accts1. split; [done|]. split; [done|]. split; [done|].
  split; [done|]. split; [by eapply heapLe_trans|]. by split.
Qed.

Lemma undoes_app a G1 G2 g2 c2 g1 c1 g0 c0 :
  undoes a G1 g1 c1 g0 c0 -> undoes a G2 g2 c2 g1 c1 -> undoes a (G1 ++ G2) g2 c2 g0 c0.
Proof.
  intros H1 H2 s g accts Hs HM Hok Hle.
  destruct (H2 s g accts Hs HM Hok Hle) as (s' & g' & accts' & E' & Hs' & HM' & Hok' & Hle' & Hr' & Ha').
  destruct (H1 s' g' accts' Hs' HM' Hok' Hle') as (s3 & g3 & accts3 & E3 & Hs3 & HM3 & Hok3 & Hle3 & Hr3 & Ha3).
  exists s3, g3, accts3. rewrite rev_app_distr, revertEntries_app, (bind_ok _ _ _ _ _ E').
  split; [done|]. split; [done|]. split; [done|]. split; [done|]. split; [done|].
  split; [by eapply sameRest_trans|]. intros k Hk. by rewrite Ha3, Ha'.
Qed.

Lemma revert_one e s s' : revertEntry env e s = (s' : AccountsDB T, inr tt) -> revertEntries env (rev [e]) s = (s', inr tt).
Proof. intros E. simpl. by rewrite (bind_ok _ _ _ _ _ E). Qed.

(** The state is used only through its heap. *)
Lemma undoes_heap a G g1' g' c' g1 g c : heapLe g' g1' -> heapLe g1 g -> undoes a G g' c' g c -> undoes a G g1' c' g1 c.
Proof.
  intros L' L HU s h accts Hs HM Hok Hle. destruct (HU s h accts Hs HM Hok) as (s2 & h2 & accts2 & R); [by eapply heapLe_trans|].
  exists s2, h2, accts2. destruct R as (? & ? & ? & ? & ? & ? & ?). split_and!; try done. by eapply heapLe_trans.
Qed.

(** *** Codes *)

(** The reference that was added is taken back. *)
Lemma revertNew_adoes g accts codes newh c : codesOk env isCode codes -> (c = [] -> newh = []) -> (c <> [] -> codeHash newh) ->
  mainIs g accts (addRef newh c codes) ->
  adoes (revertNewCodeEntry env newh : AM _) g tt (withMain (mainMap accts codes) g).
Proof.
  intros HC Hc0 Hc HM. unfold revertNewCodeEntry. eapply adoes_bind.
  { eapply getCodeEntry_adoes; [done|done|]. destruct (decide (c = [])); [left|right]; auto. }
  destruct (decide (newh = [])) as [En|En].
  { destruct (decide (c = [])) as [->|Ec]; [|exfalso; by apply (codeHash_notEmpty env storageKey addresses isCode newh (Hc Ec))].
    destruct HM as (E & _). unfold addRef in E. simpl in E. rewrite <- E. unfold withMain. rewrite set_mainTrie_id. apply adoes_ret. }
  assert (Ec : c <> []) by (intros ->; auto). specialize (Hc Ec).
  assert (Hback := dropRef_addRef env isCode newh c codes HC Ec). unfold dropRef in Hback.
  assert (Hadd : exists e, addRef newh c codes !! newh = Some e).
  { unfold addRef. rewrite decide_False, lookup_insert_eq by done. eauto. }
  destruct Hadd as (e & E). rewrite E in Hback |- *. destruct HM as (Eg & HA & HC2). destruct (HC2 _ _ E) as [_ He].
  destruct (Z.leb_spec (NumReferences e) 1) as [H1|H1]; rewrite <- Hback.
  - rewrite <- (main_dropCode env storageKey addresses isCode accts _ HA newh Hc), <- Eg.
    change (base.delete newh (mainTrie g)) with (mapUpdate (mainTrie g) newh [] NotSpecified).
    apply adoes_main, does_update; [by apply (codeHash_bytes env storageKey addresses isCode)|done].
  - rewrite u32_below by (unfold MaxUint32 in *; lia).
    eapply (saveCodeEntry_adoes env storageKey addresses isCode); [done|done|simpl; lia].
Qed.

(** The entry of the old code is put back. *)
Lemma revertOld_adoes g accts codes oldh newh c : codesOk env isCode codes -> oldh <> newh ->
  (oldh <> [] -> codeHash oldh /\ is_Some (codes !! oldh)) -> (c <> [] -> codeHash newh) ->
  (forall e, codes !! newh = Some e -> NumReferences e + 1 < MaxUint32) ->
  mainIs g accts (addRef newh c (dropRef oldh codes)) ->
  let g' := withMain (mainMap accts (addRef newh c codes)) g in
  adoes (revertOldCodeEntry env (if decide (oldh = []) then None else codes !! oldh) oldh : AM _) g tt g' /\
  mainIs g' accts (addRef newh c codes).
Proof.
  intros HC Hne Hold Hc Hmax HM g'. split.
  - unfold revertOldCodeEntry. destruct (decide (oldh = [])) as [->|Ho].
    + destruct HM as (E & _). unfold dropRef in E. rewrite (codes_notHash env isCode codes) in E;
        [|done|intros Hh; by apply (codeHash_notEmpty env storageKey addresses isCode [])].
      unfold g'. rewrite <- E. unfold withMain. rewrite set_mainTrie_id. apply adoes_ret.
    + rewrite blen_nonempty by done. destruct (Hold Ho) as [Hh [e E]]. rewrite E. destruct (HC _ _ E) as [_ He].
      unfold g'. rewrite <- (insert_dropRef oldh e codes E). rewrite <- addRef_insert_comm by done.
      by apply (saveCodeEntry_adoes env storageKey addresses isCode).
  - destruct HM as (_ & HA & _). split; [done|]. split; [done|]. by apply codesOk_addRef.
Qed.

Lemma undoes_code a g codes oldh newh c :
  codesOk env isCode codes -> oldh <> newh -> (oldh <> [] -> codeHash oldh /\ is_Some (codes !! oldh)) ->
  (c = [] -> newh = []) -> (c <> [] -> codeHash newh) ->
  (forall e, codes !! newh = Some e -> NumReferences e + 1 < MaxUint32) ->
  undoes a [journalEntryCode (if decide (oldh = []) then None else codes !! oldh) oldh newh] g
    (addRef newh c (dropRef oldh codes)) g codes.
Proof.
  intros HC Hne Hold Hc0 Hc Hmax s1 g1 accts1 Hs HM Hok Hle.
  destruct (revertOld_adoes g1 accts1 codes oldh newh c HC Hne Hold Hc Hmax HM) as [Hf HM2].
  pose proof (revertNew_adoes _ accts1 codes newh c HC Hc0 Hc HM2) as Hsecond.
  set (g3 := withMain (mainMap accts1 codes) _) in Hsecond.
  assert (Hrev : adoes (revertEntry env (journalEntryCode (if decide (oldh = []) then None else codes !! oldh) oldh newh) : AM _) g1 tt g3).
  { unfold revertEntry. apply (adoes_bind _ _ _ None g3); [|apply adoes_ret]. unfold Revert.
    rewrite (proj2 (beq_false _ _) Hne). eapply adoes_bind; [exact Hf|]. eapply adoes_bind; [exact Hsecond|]. apply adoes_ret. }
  destruct (Hrev s1 Hs) as (s3 & E3 & Hs3). exists s3, g3, accts1.
  split; [by apply revert_one|]. split; [done|]. split; [by destruct HM2 as (_ & ? & _)|].
  split; [apply (heapOk_withMain _ (withMain _ g1)), heapOk_withMain, Hok|]. split; [|by split].
  eapply heapLe_trans; [exact Hle|apply (heapLe_withMain _ g1)].
Qed.
End Undo.

(** ** Saving an account *)

Section Save.
Context {T : Type} `{CT : CommonTrie T} `{CL : !CommonTrieLaws T} `{SM : StoredMaps}.
Variable env : accountsEnv.
Variable storageKey : bytes -> Prop.
Variable addresses : gset bytes.
Variable isCode : bytes -> Prop.
Context `{AL : !AccountsLaws env storageKey addresses isCode}.

Notation entryOk := (entryOk (theData env) storageKey).
Notation dataOk := (dataOk (theData env) storageKey).
Notation mainIs := (mainIs env addresses isCode).
Notation objOk := (objOk env storageKey addresses isCode).
Notation heapOk := (heapOk env storageKey addresses isCode).
Notation undoes := (undoes (T := T) env storageKey addresses isCode).
Abbreviation AM := (SE (AccountsDB T) stateErr).

Definition putObj (r : nat) (a : userAccount) (g : mapDB) : mapDB := set_accounts (<[r := a]> (accounts g)) g.
Definition putTrie (l : nat) (m : kvmap) (g : mapDB) : mapDB := set_tries (<[l := m]> (tries g)) g.

(** An order of the dirty data. *)
Definition orderOf (order : gmap bytes dirtyData -> list (bytes * dirtyData)) : Prop := forall d, order d ≡ₚ map_to_list d.

Lemma order_entries order d : orderOf order -> dirtyOk env storageKey d ->
  Forall entryOk (order d) /\ NoDup (order d).*1.
Proof.
  intros Ho Hd. split.
  - rewrite (Ho d). apply Forall_forall. intros [k dd] Hin%elem_of_map_to_list. by apply (Hd k dd).
  - rewrite (Ho d). apply NoDup_fst_map_to_list.
Qed.

Lemma order_notEmpty order d : orderOf order -> d <> ∅ -> order d <> [].
Proof. intros Ho Hd E. specialize (Ho d). rewrite E in Ho. apply Permutation_nil_l in Ho. symmetry in Ho. by apply map_to_list_empty_iff in Ho. Qed.

(** ** Undoing the updates of a data trie *)

Lemma revertUpdates_does us m : Forall (fun u => isBytes (tdKey u) /\ 0 <= tdVersion u <= MaxUint8) us ->
  does (T := T) (revertTrieUpdates us) m tt (foldl updMap m us).
Proof.
  intros Hus. revert m. induction Hus as [|u us [Hb Hv] _ IH]; intros m; simpl; [apply does_ret|].
  eapply does_bind; [by apply does_update|]. apply IH.
Qed.

Lemma undoOf_updates id m es : Forall entryOk es ->
  Forall (fun u => isBytes (tdKey u) /\ 0 <= tdVersion u <= MaxUint8) (undoOf (theData env) id m es).
Proof.
  intros Hes. apply Forall_forall. intros u Hu. split.
  - apply undo_places in Hu as (e & He & [->| ->]); [|apply hash_bytes].
    apply key_bytes. rewrite Forall_forall in Hes. by apply Hes.
  - assert (Hall : forall m, Forall (fun u => 0 <= tdVersion u <= MaxUint8) (undoOf (theData env) id m es)).
    { clear. unfold undoOf. intros m. apply Forall_app. revert m.
      induction es as [|e es IH]; intros m; simpl; [by split|]. destruct (IH (putMap (theData env) id m e)) as [I1 I2].
      split.
      - constructor; [|done]. unfold oldOf. pose proof (version_range (theData env)).
        destruct (AutoBalance (theData env)), (m !! Compute (theData env) e.1) as [[]|], (m !! e.1) as [[]|]; done.
      - apply Forall_app. split; [|done]. unfold migratedOf. case_match; by repeat constructor. }
    specialize (Hall m). rewrite Forall_forall in Hall. by apply Hall.
Qed.

Lemma dataTrieOf_adoes r a l g : accounts g !! r = Some a -> tr (dataTrieInteractor a) = Some l ->
  adoes (dataTrieOf r : AM _) g l g.
Proof. intros E El. eapply adoes_bind; [by apply adoes_theAccount|]. rewrite El. apply adoes_ret. Qed.

(** [g] before the updates, [g'] after them: the object has the trie, which has the updates. *)
Lemma undoes_data g g' codes r a l m es : accounts g' !! r = Some a -> tr (dataTrieInteractor a) = Some l ->
  tries g' !! l = Some (putAll (theData env) (identifier (dataTrieInteractor a)) m es) ->
  (forall m', tries g !! l = Some m' -> m' = m) -> heapLe (putTrie l m g) (putTrie l m g') ->
  dataOk m -> Forall entryOk es -> NoDup es.*1 ->
  undoes (AddressBytes a) [journalEntryDataTrieUpdates (undoOf (theData env) (identifier (dataTrieInteractor a)) m es) r]
    g' codes g codes.
Proof.
  intros Ea El Em Eg Hle Hm Hes Hnd s1 g1 accts1 Hs HM Hok Hle1. set (id := identifier (dataTrieInteractor a)) in *.
  destruct (proj2 Hle1 r a Ea) as (a1 & Ea1 & Haddr & Hl1). specialize (Hl1 l El).
  assert (Em1 : tries g1 !! l = Some (putAll (theData env) id m es)) by (by eapply lookup_weaken, Hle1).
  set (g2 := putTrie l m g1).
  assert (Hu : adoes (onData l (revertTrieUpdates (undoOf (theData env) id m es)) : AM _) g1 tt g2).
  { eapply adoes_data; [exact Em1|].
    pose proof (revertUpdates_does _ (putAll (theData env) id m es) (undoOf_updates id m es Hes)) as Hr.
    by rewrite (undo_all (theData env) storageKey) in Hr. }
  destruct (adoes_run _ _ _ _ _ Hu Hs) as (s2 & _ & Hs2).
  destruct (adoes_rootHash l g2 m s2 Hs2) as (h & _ & Hroot); [by apply lookup_insert_eq|].
  set (a2 := SetRootHash h a1). set (g3 := putObj r a2 g2). set (g4 := withMain (mainMap env (<[AddressBytes a := accountData a2]> accts1) codes) g3).
  assert (Ha : AddressBytes a2 ∈ addresses) by apply (heap_objects _ _ _ _ _ Hok r a1 Ea1).
  assert (Hrev : adoes (revertEntry env (journalEntryDataTrieUpdates (undoOf (theData env) id m es) r) : AM _) g1 tt g4).
  { unfold revertEntry. apply (adoes_bind _ _ _ (Some a2) g3).
    - unfold Revert. eapply adoes_bind; [by eapply dataTrieOf_adoes|]. eapply adoes_bind; [exact Hu|].
      eapply adoes_bind; [exact Hroot|]. eapply adoes_bind; [by apply adoes_onAccount|].
      eapply adoes_bind; [apply adoes_theAccount, lookup_insert_eq|]. apply adoes_ret.
    - unfold g4. rewrite <- Haddr. change (AddressBytes a1) with (AddressBytes a2).
      by apply (saveAccount_adoes env storageKey addresses isCode g3 accts1 codes a2). }
  destruct (Hrev s1 Hs) as (s4 & E4 & Hs4). exists s4, g4, (<[AddressBytes a := accountData a2]> accts1).
  split; [by apply revert_one|]. split; [done|].
  split. { destruct HM as (_ & HA & HC). split; [done|]. split; [|done]. rewrite <- Haddr. by apply acctsOk_insert. }
  assert (Hok2 : heapOk g2) by by apply heapOk_trie.
  assert (Hobj : objOk (tries g2) a2) by (destruct (heap_objects _ _ _ _ _ Hok2 r a1 Ea1); by split).
  split; [by apply (heapOk_withMain _ _ _ _ _ g3), heapOk_object|].
  split; [|split; [by split|intros k Hk; by rewrite lookup_insert_ne]].
  apply (heapLe_trans _ (putTrie l m g)).
  { split; [|intros r' b Eb; exists b; split; [done|apply objLe_refl]]. simpl. apply map_subseteq_spec. intros x m' Ex.
    destruct (decide (x = l)) as [->|Hx]; [rewrite lookup_insert_eq; f_equal; symmetry; by apply Eg|by rewrite lookup_insert_ne]. }
  eapply heapLe_trans; [exact Hle|]. apply (heapLe_trans _ g2).
  { split; [simpl; by apply insert_mono, Hle1|apply Hle1]. }
  by apply (heapLe_object g2 r a1 a2).
Qed.

(** ** saveDataTrie *)

Definition theTrie (r : nat) (a : userAccount) : AM nat :=
  match tr (dataTrieInteractor a) with
  | Some l => ret l
  | None =>
      let! newDataTrie := recreateMain [] in
      let! l := newTrie newDataTrie in
      putAccount r (setTracked (SetDataTrie (Some l) (dataTrieInteractor a)) a) ;;
      ret l
  end.

Definition withTrie (l : nat) (a : userAccount) : userAccount := setTracked (SetDataTrie (Some l) (dataTrieInteractor a)) a.

Lemma theTrie_spec r a g : heapOk g -> accounts g !! r = Some a ->
  exists g1 l m, adoes (theTrie r a) g l g1 /\ accounts g1 !! r = Some (withTrie l a) /\ tries g1 !! l = Some m /\
    dataOk m /\ heapOk g1 /\ heapLe g g1 /\ mainTrie g1 = mainTrie g /\ sameRest g g1.
Proof.
  intros Hok Ea. pose proof (heap_objects _ _ _ _ _ Hok r a Ea) as Ho. unfold theTrie.
  destruct (tr (dataTrieInteractor a)) as [l|] eqn:El.
  - destruct (obj_trie _ _ _ _ _ _ Ho l El) as [m Em]. exists g, l, m. split; [apply adoes_ret|].
    split. { rewrite Ea. f_equal. unfold withTrie, SetDataTrie, setTracked. destruct a as [? [? ? ?] ? ?]; simpl in *. by subst. }
    split; [done|]. split; [by apply (heap_tries _ _ _ _ _ Hok l)|]. split; [done|]. split; [apply heapLe_refl|]. by split.
  - set (l := fresh (dom (tries g))). set (g1 := putTrie l ∅ g). set (g2 := putObj r (withTrie l a) g1).
    assert (Hok1 : heapOk g1) by (apply heapOk_trie; [done|apply dataOk_empty]).
    assert (Hle1 : heapLe g g1) by apply heapLe_newTrie, fresh_none.
    assert (Hnew : tries g1 !! l = Some ∅) by apply lookup_insert_eq.
    exists g2, l, ∅. split.
    { apply (adoes_recreate_new g [] ∅).
      - intros s Hs. eapply recreate_empty, Hs.
      - eapply adoes_bind; [apply adoes_putAccount|]. apply adoes_ret. }
    split; [apply lookup_insert_eq|]. split; [done|]. split; [apply dataOk_empty|].
    split. { apply heapOk_object; [done|]. destruct Ho. split; try done. intros l' [= <-]. by exists ∅. }
    split; [|by split]. eapply heapLe_trans; [exact Hle1|]. apply (heapLe_object g1 r a); [done|]. split; [done|]. intros l'. by rewrite El.
Qed.

(** The object after its data were saved. *)
Definition saved (a a' : userAccount) : Prop :=
  AddressBytes a' = AddressBytes a /\ CodeHash (accountData a') = CodeHash (accountData a) /\
  code a' = code a /\ hasNewCode a' = hasNewCode a.

Lemma putHolder_ok a l g : heapOk g -> is_Some (tries g !! l) -> heapOk (set_dataTries (<[a := l]> (dataTries g)) g).
Proof. intros [Ht Ho Hh] Hl. split; [done|done|]. simpl. by apply map_Forall_insert_2. Qed.

Lemma SaveDirtyData_run order r a s g : orderOf order -> sim s g -> heapOk g -> accounts g !! r = Some a ->
  dirty (dataTrieInteractor a) <> ∅ ->
  let es := order (dirty (dataTrieInteractor a)) in
  exists l m g3, adoes (SaveDirtyData env order r : AM _) g (undoOf (theData env) (identifier (dataTrieInteractor a)) m es) g3 /\
    accounts g3 !! r = Some (setTracked (set_dirty ∅ (dataTrieInteractor (withTrie l a))) a) /\
    tries g3 !! l = Some (putAll (theData env) (identifier (dataTrieInteractor a)) m es) /\ dataOk m /\
    heapOk g3 /\ (forall m', tries g !! l = Some m' -> m' = m) /\ heapLe (putTrie l m g) (putTrie l m g3) /\
    mainTrie g3 = mainTrie g /\ sameRest g g3.
Proof.
  intros Hord Hs Hok Ea Hd es. pose proof (heap_objects _ _ _ _ _ Hok r a Ea) as Ho.
  destruct (order_entries order _ Hord (obj_dirty _ _ _ _ _ _ Ho)) as [Hes Hnd].
  destruct (theTrie_spec r a g Hok Ea) as (g1 & l & m & Ht & Ea1 & Em & Hm & Hok1 & Hle1 & Hmain & Hrest).
  set (id := identifier (dataTrieInteractor a)). set (m2 := putAll (theData env) id m es).
  set (a3 := setTracked (set_dirty ∅ (dataTrieInteractor (withTrie l a))) a).
  exists l, m, (putObj r a3 (putTrie l m2 g1)). split.
  { unfold SaveDirtyData. eapply adoes_bind; [by apply adoes_theAccount|]. rewrite decide_False by done.
    eapply adoes_bind; [exact Ht|]. eapply adoes_bind; [eapply adoes_data; [exact Em|by apply (updateTrie_does _ storageKey)]|].
    apply (adoes_bind _ _ _ tt (putObj r a3 (putTrie l m2 g1))); [|apply adoes_ret].
    exact (adoes_onAccount r _ (withTrie l a) (putTrie l m2 g1) Ea1). }
  split; [apply lookup_insert_eq|]. split; [apply lookup_insert_eq|]. split; [done|].
  pose proof (heap_objects _ _ _ _ _ Hok1 r _ Ea1) as Ho1.
  assert (Hok2 : heapOk (putTrie l m2 g1)) by by apply heapOk_trie, (dataOk_putAll _ storageKey).
  split. { apply heapOk_object; [done|]. destruct (heap_objects _ _ _ _ _ Hok2 r _ Ea1). by split. }
  split. { intros m' Em'. pose proof (lookup_weaken _ _ _ _ Em' (proj1 Hle1)). congruence. }
  split; [|by split]. apply (heapLe_trans _ (putTrie l m g1)).
  { split; [simpl; by apply insert_mono, Hle1|apply Hle1]. }
  apply (heapLe_trans _ (putTrie l m (putTrie l m2 g1))).
  { split; [simpl; by rewrite insert_insert_eq|exact (proj2 (heapLe_refl g1))]. }
  apply (heapLe_object (putTrie l m (putTrie l m2 g1)) r _ a3 Ea1). by split.
Qed.

Lemma sim_journal s g es : sim s g -> sim (set_entries es s : AccountsDB T) (set_entries es g).
Proof. intros []. by split. Qed.

Lemma saveDataTrie_run order r a s g codes : orderOf order -> sim s g -> heapOk g -> accounts g !! r = Some a ->
  exists g' a' G, adoes (saveDataTrie env order r : AM _) g tt g' /\ mainTrie g' = mainTrie g /\ heapOk g' /\
    accounts g' !! r = Some a' /\ saved a a' /\ entries g' = entries g ++ G /\ lastRootHash g' = lastRootHash g /\
    undoes (AddressBytes a) G g' codes g codes.
Proof.
  intros Hord Hs Hok Ea. destruct (decide (dirty (dataTrieInteractor a) = ∅)) as [Hd|Hd].
  { exists g, a, []. split.
    { unfold saveDataTrie. apply (adoes_bind _ _ _ [] g); [|apply adoes_ret]. unfold SaveDirtyData.
      eapply adoes_bind; [by apply adoes_theAccount|]. rewrite decide_True by done. apply (adoes_ret []). }
    split; [done|]. split; [done|]. split; [done|]. split; [by split|]. rewrite app_nil_r.
    split; [done|]. split; [done|]. apply undoes_nil, heapLe_refl. }
  destruct (SaveDirtyData_run order r a s g Hord Hs Hok Ea Hd)
    as (l & m & g3 & Hsave & Ea3 & Em3 & Hm & Hok3 & Hsame & Hle & Hmain & Hent & Hhold & Hroot).
  set (es := order (dirty (dataTrieInteractor a))) in *. set (us := undoOf _ _ _ _) in *.
  set (a3 := setTracked _ a) in *. set (g4 := set_entries (entries g3 ++ [journalEntryDataTrieUpdates us r]) g3).
  assert (Hok4 : heapOk g4) by (destruct Hok3; by split).
  destruct (adoes_run _ _ _ _ _ Hsave Hs) as (s3 & _ & Hs3).
  pose proof (sim_journal s3 g3 (entries g3 ++ [journalEntryDataTrieUpdates us r]) Hs3) as Hs4.
  destruct (adoes_rootHash l g4 _ _ Hs4 Em3) as (h & _ & Hh).
  set (a5 := SetRootHash h a3). set (g5 := putObj r a5 g4).
  assert (Hok5 : heapOk g5).
  { apply heapOk_object; [done|]. destruct (heap_objects _ _ _ _ _ Hok4 r a3 Ea3). by split. }
  assert (Hlen : (length us =? 0)%nat = false).
  { apply Nat.eqb_neq. unfold us, undoOf. rewrite length_app. pose proof (order_notEmpty order _ Hord Hd). fold es in H.
    destruct es; [done|]. simpl. lia. }
  assert (Hend : exists g6, adoes (match dataTries g5 !! AddressBytes a5 with Some _ => ret tt
      | None => modify (fun s => set_dataTries (<[AddressBytes a5 := l]> (dataTries s)) s) end : AM _) g5 tt g6 /\
      mainTrie g6 = mainTrie g5 /\ heapOk g6 /\ tries g6 = tries g5 /\ accounts g6 = accounts g5 /\ entries g6 = entries g5 /\
      lastRootHash g6 = lastRootHash g5).
  { destruct (dataTries g5 !! AddressBytes a5) eqn:Eh; [exists g5; split; [apply adoes_ret|by split]|].
    eexists. split; [apply adoes_putHolder|]. split; [done|]. split; [|by split].
    apply putHolder_ok; [done|]. by eexists. }
  destruct Hend as (g6 & Hput & Hmain6 & Hok6 & Htries6 & Hacc6 & Hent6 & Hroot6).
  assert (Hrun : adoes (saveDataTrie env order r : AM _) g tt g6).
  { unfold saveDataTrie. eapply adoes_bind; [exact Hsave|]. cbv beta. rewrite Hlen.
    eapply adoes_bind; [apply adoes_journalize|]. eapply adoes_bind; [by eapply (dataTrieOf_adoes r a3)|].
    eapply adoes_bind; [exact Hh|]. eapply adoes_bind; [by apply adoes_onAccount|].
    eapply adoes_bind; [apply adoes_theAccount, lookup_insert_eq|]. eapply adoes_bind; [apply adoes_holder|]. exact Hput. }
  exists g6, a5, [journalEntryDataTrieUpdates us r]. split; [done|]. split; [by rewrite Hmain6|]. split; [done|].
  split; [rewrite Hacc6; apply lookup_insert_eq|]. split; [by split|].
  split; [rewrite Hent6; simpl; by rewrite Hent|]. split; [by rewrite Hroot6|].
  apply (undoes_data g g6 codes r a5 l m es); try done.
  - rewrite Hacc6. apply lookup_insert_eq.
  - by rewrite Htries6.
  - eapply heapLe_trans; [exact Hle|]. split; [simpl; by rewrite Htries6|]. intros r' b Eb. simpl. rewrite Hacc6. simpl.
    destruct (decide (r' = r)) as [->|Hne]; [|rewrite lookup_insert_ne by done; exists b; split; [done|apply objLe_refl]].
    rewrite lookup_insert_eq. exists a5. split; [done|]. simpl in Eb. rewrite Ea3 in Eb. injection Eb as <-. by split.
  - apply (order_entries order _ Hord). apply (heap_objects _ _ _ _ _ Hok r a Ea).
  - apply (order_entries order _ Hord). apply (heap_objects _ _ _ _ _ Hok r a Ea).
Qed.
End Save.
