(* ===== verification/AccountsCodes.v ===== *)
(** * The references of the codes: each code of the main trie counts the accounts that have
    it.  Here: how the count changes, and saveCode. *)

From stdpp Require Import base list gmap.
From Stdlib Require Import ZArith Lia.
From S2P Require Import Prelude TrieNode TrieMap CommonTrie TrackableDataTrie UserAccount AccountsDB.
From S2P Require Import TrackableSpec AccountsSim AccountsUndo.

Definition hasCode (h : bytes) (d : UserAccountData) : Z := if decide (CodeHash d = h) then 1 else 0.

(** The number of accounts with a code hash. *)
Definition users (accts : gmap bytes UserAccountData) (h : bytes) : Z :=
  Z.of_nat (size (filter (fun kd => CodeHash kd.2 = h) accts)).

Definition codeRefs (codes : gmap bytes CodeEntry) (h : bytes) : Z :=
  match codes !! h with Some e => NumReferences e | None => 0 end.

Definition refsOk (accts : gmap bytes UserAccountData) (codes : gmap bytes CodeEntry) : Prop :=
  forall h, h <> [] -> codeRefs codes h = users accts h.

Definition usedBy (h : bytes) (o : option UserAccountData) : Z := match o with Some d => hasCode h d | None => 0 end.

Lemma users_nonneg accts h : 0 <= users accts h.
Proof. unfold users. lia. Qed.

Lemma users_insert accts a d h : accts !! a = None -> users (<[a := d]> accts) h = users accts h + hasCode h d.
Proof.
  intros E. unfold users, hasCode. destruct (decide (CodeHash d = h)) as [Hd|Hd].
  - rewrite map_filter_insert_True by done. rewrite map_size_insert_None; [lia|].
    apply map_lookup_filter_None. by left.
  - rewrite map_filter_insert_False by done. rewrite delete_id by done. lia.
Qed.

Lemma users_delete accts a h : users (base.delete a accts) h = users accts h - usedBy h (accts !! a).
Proof.
  destruct (accts !! a) as [d|] eqn:E; simpl; [|rewrite delete_id by done; lia].
  rewrite <- (insert_delete_id accts a d E) at 2. rewrite users_insert by apply lookup_delete_eq. lia.
Qed.

Lemma users_put accts a d h : users (<[a := d]> accts) h = users accts h - usedBy h (accts !! a) + hasCode h d.
Proof.
  rewrite <- insert_delete_eq, users_insert by apply lookup_delete_eq. rewrite users_delete. lia.
Qed.

Lemma users_pos accts a d : accts !! a = Some d -> 1 <= users accts (CodeHash d).
Proof.
  intros E. pose proof (users_nonneg (base.delete a accts) (CodeHash d)) as H. rewrite users_delete, E in H.
  simpl in H. unfold hasCode in H. rewrite decide_True in H by done. lia.
Qed.

Section Codes.
Context {T : Type} `{CT : CommonTrie T} `{CL : !CommonTrieLaws T} `{SM : StoredMaps}.
Variable env : accountsEnv.
Variable storageKey : bytes -> Prop.
Variable addresses : gset bytes.
Variable isCode : bytes -> Prop.
Context `{AL : !AccountsLaws env storageKey addresses isCode}.

Notation hashOf := (Compute (theData env)).
Notation mainIs := (mainIs env addresses isCode).
Notation acctsOk := (acctsOk addresses).
Notation codesOk := (codesOk env isCode).
Notation codeHash := (codeHash env isCode).
Notation heapOk := (heapOk env storageKey addresses isCode).
Notation undoes := (undoes (T := T) env storageKey addresses isCode).
Abbreviation AM := (SE (AccountsDB T) stateErr).

Lemma users_few accts h : acctsOk accts -> users accts h + 1 < MaxUint32.
Proof.
  intros HA. unfold users. pose proof (addresses_few (env := env) (storageKey := storageKey) (isCode := isCode)).
  assert (size (filter (fun kd => CodeHash kd.2 = h) accts) <= size accts)%nat.
  { rewrite <- !size_dom. apply subseteq_size, dom_filter_subseteq. }
  assert (size accts <= size addresses)%nat; [|lia].
  rewrite <- size_dom. apply subseteq_size. intros a [d E]%elem_of_dom. by apply (HA a d).
Qed.

Lemma refs_dropRef codes h h' : codesOk codes -> is_Some (codes !! h) ->
  codeRefs (dropRef h codes) h' = codeRefs codes h' - (if decide (h = h') then 1 else 0).
Proof.
  intros HC [e E]. unfold codeRefs, dropRef. rewrite E. destruct (HC _ _ E) as [_ He].
  destruct (decide (h = h')) as [<-|Hne]; destruct (Z.leb_spec (NumReferences e) 1).
  - rewrite lookup_delete_eq, E. lia.
  - rewrite lookup_insert_eq, E. simpl. lia.
  - rewrite lookup_delete_ne by done. lia.
  - rewrite lookup_insert_ne by done. lia.
Qed.

Lemma refs_addRef codes h c h' : c <> [] ->
  codeRefs (addRef h c codes) h' = codeRefs codes h' + (if decide (h = h') then 1 else 0).
Proof.
  intros Hc. unfold codeRefs, addRef. rewrite (decide_False (P := c = [])) by done.
  destruct (decide (h = h')) as [<-|Hne]; [|rewrite lookup_insert_ne by done; lia].
  rewrite lookup_insert_eq. simpl. destruct (codes !! h); simpl; lia.
Qed.

(** The code hash that an account has in the trie. *)
Definition oldHash (o : option UserAccountData) : bytes := match o with Some d => CodeHash d | None => [] end.

Definition hashOfCode (c : bytes) : bytes := if blen c =? 0 then [] else hashOf c.

Lemma oldHash_known accts codes a : codesOk codes -> refsOk accts codes -> oldHash (accts !! a) <> [] ->
  codeHash (oldHash (accts !! a)) /\ is_Some (codes !! oldHash (accts !! a)).
Proof.
  intros HC HR. destruct (accts !! a) as [d|] eqn:E; [|done]. simpl. intros Hne. specialize (HR _ Hne).
  pose proof (users_pos accts a d E). unfold codeRefs in HR. destruct (codes !! CodeHash d) as [e|] eqn:Ee; [|lia].
  split; [by apply (HC _ _ Ee)|done].
Qed.

Lemma refsOk_put accts codes a d : refsOk accts codes -> CodeHash d = oldHash (accts !! a) -> refsOk (<[a := d]> accts) codes.
Proof.
  intros HR Hd h Hh. rewrite users_put, HR by done. unfold usedBy, hasCode. rewrite Hd.
  destruct (accts !! a) as [d0|]; simpl; [|rewrite decide_False by congruence]; lia.
Qed.

Lemma refsOk_change accts codes a d c : codesOk codes -> refsOk accts codes -> CodeHash d = hashOfCode c ->
  oldHash (accts !! a) <> hashOfCode c ->
  refsOk (<[a := d]> accts) (addRef (hashOfCode c) c (dropRef (oldHash (accts !! a)) codes)).
Proof.
  intros HC HR Hd Hne h Hh. rewrite users_put, <- HR by done.
  assert (Hdrop : codeRefs (dropRef (oldHash (accts !! a)) codes) h = codeRefs codes h - usedBy h (accts !! a)).
  { destruct (decide (oldHash (accts !! a) = [])) as [E|E].
    - unfold dropRef. rewrite (codes_notHash env isCode) by (done || intros ?; by apply (codeHash_notEmpty env storageKey addresses isCode (oldHash (accts !! a)))).
      destruct (accts !! a) as [d0|]; simpl in *; [|lia]. unfold hasCode. rewrite decide_False by congruence. lia.
    - rewrite refs_dropRef by (done || by apply oldHash_known). destruct (accts !! a) as [d0|]; done. }
  unfold hasCode. rewrite Hd. unfold hashOfCode in *. destruct (decide (c = [])) as [->|Hc].
  - unfold addRef. rewrite decide_True by done. simpl in *. rewrite decide_False by congruence. lia.
  - rewrite refs_addRef by done. lia.
Qed.

Lemma refsOk_drop accts codes a : codesOk codes -> refsOk accts codes ->
  refsOk (base.delete a accts) (dropRef (oldHash (accts !! a)) codes).
Proof.
  intros HC HR h Hh. rewrite users_delete, <- HR by done.
  destruct (decide (oldHash (accts !! a) = [])) as [E|E].
  - unfold dropRef. rewrite (codes_notHash env isCode) by (done || intros ?; by apply (codeHash_notEmpty env storageKey addresses isCode (oldHash (accts !! a)))).
    destruct (accts !! a) as [d0|]; simpl in *; [|lia]. unfold hasCode. rewrite decide_False by congruence. lia.
  - rewrite refs_dropRef by (done || by apply oldHash_known). destruct (accts !! a) as [d0|]; done.
Qed.

(** ** saveCode *)

Lemma set_entries_ok es g : heapOk g -> heapOk (set_entries es g).
Proof. intros []. by split. Qed.

Lemma undoes_journal a es G g' c' g c : undoes a G g' c' g c -> undoes a G (set_entries es g') c' g c.
Proof. intros HU s1 g1 accts1 Hs HM Hok Hle. by apply (HU s1 g1 accts1). Qed.

Lemma hashOfCode_ok c : (c <> [] -> isCode c) ->
  (c = [] -> hashOfCode c = []) /\ (c <> [] -> codeHash (hashOfCode c)) /\ (if blen c =? 0 then [] else hashOf c) = hashOfCode c.
Proof.
  intros Hc. unfold hashOfCode. split; [by intros ->|]. split; [|done]. intros Hne. rewrite blen_nonempty by done.
  exists c. auto.
Qed.

Lemma saveCode_run r acc g accts codes a : mainIs g accts codes -> refsOk accts codes -> heapOk g ->
  accounts g !! r = Some acc -> AddressBytes acc = a ->
  (hasNewCode acc = false -> CodeHash (accountData acc) = oldHash (accts !! a)) ->
  exists g' acc' codes' G, adoes (saveCode env r (asLoaded a <$> accts !! a) : AM _) g tt g' /\
    mainIs g' accts codes' /\ refsOk (<[a := accountData acc']> accts) codes' /\ heapOk g' /\
    accounts g' !! r = Some acc' /\ AddressBytes acc' = a /\ entries g' = entries g ++ G /\
    lastRootHash g' = lastRootHash g /\ undoes a G g' codes' g codes.
Proof.
  intros HM HR Hok Ea Haddr Hnew. pose proof (heap_objects _ _ _ _ _ Hok r acc Ea) as Ho.
  assert (Hold : match asLoaded a <$> accts !! a with Some o => CodeHash (accountData o) | None => [] end = oldHash (accts !! a))
    by by destruct (accts !! a).
  unfold saveCode. destruct (hasNewCode acc) eqn:En; cycle 1.
  { exists g, acc, codes, []. split; [eapply adoes_bind; [by apply adoes_theAccount|]; rewrite En; apply adoes_ret|].
    split; [done|]. split; [apply refsOk_put; [done|by apply Hnew]|]. split; [done|]. split; [done|]. split; [done|].
    rewrite app_nil_r. split; [done|]. split; [done|]. apply undoes_nil, heapLe_refl. }
  destruct (hashOfCode_ok (code acc) (obj_code _ _ _ _ _ _ Ho)) as (Hc0 & Hc & Eh). set (newh := hashOfCode (code acc)) in *.
  set (acc' := SetCodeHash newh acc).
  assert (Hobj : forall g1, heapOk g1 -> accounts g1 !! r = Some acc ->
    heapOk (putObj r acc' g1) /\ accounts (putObj r acc' g1) !! r = Some acc' /\ heapLe g1 (putObj r acc' g1)).
  { intros g1 Hok1 E1. split; [|split; [apply lookup_insert_eq|]].
    - apply heapOk_object; [done|]. destruct (heap_objects _ _ _ _ _ Hok1 r acc E1). by split.
    - by apply (heapLe_object g1 r acc acc'). }
  destruct (decide (oldHash (accts !! a) = newh)) as [E|E].
  { exists (putObj r acc' g), acc', codes, []. split.
    { eapply adoes_bind; [by apply adoes_theAccount|]. rewrite En. simpl. rewrite Hold, Eh, E, beq_refl. by apply adoes_onAccount. }
    destruct (Hobj g Hok Ea) as (Hok' & Ea' & Hle).
    split; [done|]. split; [by apply refsOk_put|]. split; [done|]. split; [done|]. split; [done|].
    rewrite app_nil_r. split; [done|]. split; [done|]. by apply undoes_nil. }
  pose proof HM as (Hg & HA & HC). set (oldh := oldHash (accts !! a)) in *.
  assert (Hknown : oldh <> [] -> codeHash oldh /\ is_Some (codes !! oldh)) by by apply oldHash_known.
  assert (Hmax : forall e, codes !! newh = Some e -> NumReferences e + 1 < MaxUint32).
  { intros e Ee. pose proof (HR newh) as HR'. unfold codeRefs in HR'. rewrite Ee in HR'. rewrite HR'.
    - by apply users_few.
    - by eapply (codeHash_notEmpty env storageKey addresses isCode), (HC _ _ Ee). }
  set (codes1 := dropRef oldh codes). set (codes2 := addRef newh (code acc) codes1).
  assert (Hmax1 : forall e, codes1 !! newh = Some e -> NumReferences e + 1 < MaxUint32).
  { intros e. unfold codes1. rewrite dropRef_lookup_ne by done. apply Hmax. }
  set (entry := journalEntryCode (if decide (oldh = []) then None else codes !! oldh) oldh newh).
  set (g1 := withMain (mainMap env accts codes1) g). set (g2 := withMain (mainMap env accts codes2) g1).
  set (g3 := set_entries (entries g2 ++ [entry]) g2).
  assert (HM1 : mainIs g1 accts codes1) by (split; [done|]; split; [done|by apply codesOk_dropRef]).
  assert (Hok3 : heapOk g3) by by apply set_entries_ok, heapOk_withMain, heapOk_withMain.
  exists (putObj r acc' g3), acc', codes2, [entry]. split.
  { eapply adoes_bind; [by apply adoes_theAccount|]. rewrite En. simpl. rewrite Hold, Eh, (proj2 (beq_false _ _) E).
    eapply adoes_bind. { apply (updateOld_adoes env storageKey addresses isCode); [done|]. destruct (decide (oldh = [])); [by left|right; by apply Hknown]. }
    eapply adoes_bind; [by apply (updateNew_adoes env storageKey addresses isCode g1 accts codes1)|].
    eapply adoes_bind; [apply adoes_journalize|]. by apply (adoes_onAccount r (SetCodeHash newh) acc g3). }
  destruct (Hobj g3 Hok3 Ea) as (Hok4 & Ea4 & Hle4).
  split. { split; [done|]. split; [done|]. apply codesOk_addRef; [by apply codesOk_dropRef|done|exact Hmax1]. }
  split; [by apply refsOk_change|]. split; [done|]. split; [done|]. split; [done|]. split; [done|]. split; [done|].
  apply (undoes_heap _ _ _ _ _ _ (putObj r acc' g3) g3 codes2 g g codes Hle4 (heapLe_refl g)).
  apply undoes_journal, (undoes_heap _ _ _ _ _ _ g2 g codes2 g g codes (heapLe_refl g) (heapLe_refl g)).
  by apply undoes_code.
Qed.
End Codes.
