(* ===== verification/AccountsRun.v ===== *)
(** * Runs of the accounts database: loading, changing, saving and removing accounts, and
    returning to snapshots. *)

From stdpp Require Import base list gmap.
From Stdlib Require Import ZArith Lia.
From S2P Require Import Prelude TrieNode TrieMap CommonTrie TrackableDataTrie UserAccount AccountsDB.
From S2P Require Import TrackableSpec AccountsSim AccountsUndo AccountsCodes.

Section Run.
Context {T : Type} `{CT : CommonTrie T} `{CL : !CommonTrieLaws T} `{SM : StoredMaps}.
Variable env : accountsEnv.
Variable storageKey : bytes -> Prop.
Variable addresses : gset bytes.
Variable isCode : bytes -> Prop.
Context `{AL : !AccountsLaws env storageKey addresses isCode}.

Notation mainIs := (mainIs env addresses isCode).
Notation objOk := (objOk env storageKey addresses isCode).
Notation heapOk := (heapOk env storageKey addresses isCode).
Notation undoes := (undoes (T := T) env storageKey addresses isCode).
Notation dataOk := (dataOk (theData env) storageKey).
Abbreviation AM := (SE (AccountsDB T) stateErr).

(** ** The invariant *)

Definition mapInv (g : mapDB) : Prop := heapOk g /\ exists accts codes, mainIs g accts codes /\ refsOk accts codes.

(** [s] stands for [g]. *)
Definition invariant (s : AccountsDB T) (g : mapDB) : Prop := sim s g /\ mapInv g.

(** Reverting [G], from any state that goes on from [g'] with its main trie, gives back
    what [g] had. *)
Definition undone (G : list JournalEntry) (g' g : mapDB) : Prop :=
  forall (s1 : AccountsDB T) g1, sim s1 g1 -> mainTrie g1 = mainTrie g' -> heapOk g1 -> heapLe g' g1 ->
  exists s2 g2, revertEntries env (rev G) s1 = (s2, inr tt) /\ sim s2 g2 /\ mainTrie g2 = mainTrie g /\ heapOk g2 /\
    heapLe g g2 /\ sameRest g1 g2.

Lemma undone_nil g' g : mainTrie g' = mainTrie g -> heapLe g g' -> undone [] g' g.
Proof.
  intros E Hle s1 g1 Hs Em Hok Hle1. exists s1, g1. split; [done|]. split; [done|]. split; [congruence|].
  split; [done|]. split; [by eapply heapLe_trans|]. by split.
Qed.

Lemma undone_app G1 G2 g2 g1 g0 : undone G1 g1 g0 -> undone G2 g2 g1 -> undone (G1 ++ G2) g2 g0.
Proof.
  intros H1 H2 s g Hs Em Hok Hle. destruct (H2 s g Hs Em Hok Hle) as (s' & g' & E' & Hs' & Em' & Hok' & Hle' & Hr').
  destruct (H1 s' g' Hs' Em' Hok' Hle') as (s3 & g3 & E3 & Hs3 & Em3 & Hok3 & Hle3 & Hr3).
  exists s3, g3. rewrite rev_app_distr, revertEntries_app, (bind_ok _ _ _ _ _ E').
  split; [done|]. split; [done|]. split; [done|]. split; [done|]. split; [done|]. by eapply sameRest_trans.
Qed.

(** What comes after a state may be seen from a later one. *)
Lemma undone_later G g' g g1 : undone G g' g -> mainTrie g1 = mainTrie g' -> heapLe g' g1 -> undone G g1 g.
Proof. intros HU E Hle s1 g2 Hs Em Hok Hle2. apply HU; [done|congruence|done|by eapply heapLe_trans]. Qed.

(** The entry that SaveAccount and RemoveAccount write first. *)
Definition firstEntry (a : bytes) (old : option UserAccountData) : JournalEntry :=
  match old with Some d => journalEntryAccount (asLoaded a d) | None => journalEntryAccountCreation a end.

Lemma revertFirst_adoes g accts accts0 codes a : mainIs g accts codes -> a ∈ addresses -> acctsOk addresses accts0 ->
  (forall k, k <> a -> accts !! k = accts0 !! k) ->
  adoes (revertEntry env (firstEntry a (accts0 !! a)) : AM _) g tt (withMain (mainMap env accts0 codes) g).
Proof.
  intros HM Ha HA0 Hoff. unfold revertEntry, firstEntry. destruct (accts0 !! a) as [d|] eqn:E; simpl.
  - destruct (HA0 _ _ E) as [_ Hd]. eapply adoes_bind; [apply adoes_ret|].
    assert (Ei : <[a := d]> accts = accts0).
    { apply map_eq. intros k. destruct (decide (k = a)) as [->|]; [by rewrite lookup_insert_eq|rewrite lookup_insert_ne by done; auto]. }
    rewrite <- Ei. rewrite <- Hd at 2. change (Address d) with (AddressBytes (asLoaded a d)).
    apply (saveAccount_adoes env storageKey addresses isCode g accts codes (asLoaded a d)); [done|].
    unfold AddressBytes. simpl. by rewrite Hd.
  - assert (Ei : base.delete a accts = accts0).
    { apply map_eq. intros k. destruct (decide (k = a)) as [->|]; [by rewrite lookup_delete_eq|rewrite lookup_delete_ne by done; auto]. }
    apply (adoes_bind _ _ _ None (withMain (mainMap env accts0 codes) g)); [|apply adoes_ret].
    eapply adoes_bind; [|apply adoes_ret]. rewrite <- Ei. by apply (dropAccount_adoes env storageKey addresses isCode).
Qed.

(** A group of entries with its first one. *)
Lemma undone_group a G g' accts' codes' g accts codes : mainIs g accts codes -> mainIs g' accts' codes' ->
  a ∈ addresses -> (forall k, k <> a -> accts' !! k = accts !! k) -> undoes a G g' codes' g codes ->
  undone (firstEntry a (accts !! a) :: G) g' g.
Proof.
  intros (Hg & HA & HC) (Hg' & HA' & HC') Ha Hoff HU s1 g1 Hs Em Hok Hle.
  destruct (HU s1 g1 accts' Hs) as (s2 & g2 & accts2 & E2 & Hs2 & HM2 & Hok2 & Hle2 & Hr2 & Ha2); [|done|done|].
  { split; [congruence|done]. }
  destruct (revertFirst_adoes g2 accts2 accts codes a HM2 Ha HA) with (s := s2) as (s3 & E3 & Hs3); [|done|].
  { intros k Hk. rewrite Ha2 by done. auto. }
  exists s3, (withMain (mainMap env accts codes) g2). simpl. rewrite revertEntries_app, (bind_ok _ _ _ _ _ E2).
  split; [simpl; by rewrite (bind_ok _ _ _ _ _ E3)|]. split; [done|]. split; [by rewrite Hg|].
  split; [by apply heapOk_withMain|]. split; [|by destruct Hr2]. eapply heapLe_trans; [exact Hle2|apply heapLe_withMain].
Qed.

(** ** SaveAccount *)

(** The object has the code hash that is in the trie, unless it has a new code. *)
Definition codeFresh (g : mapDB) (acc : userAccount) : Prop := forall accts codes,
  mainIs g accts codes -> hasNewCode acc = false -> CodeHash (accountData acc) = oldHash (accts !! AddressBytes acc).

Lemma journalFirst_adoes g a old : a <> [] ->
  adoes (match asLoaded a <$> old with
         | None => if blen a =? 0 then throw ErrInvalidAddressLength else journalize (journalEntryAccountCreation a)
         | Some old => journalize (journalEntryAccount old)
         end : AM _) g tt (set_entries (entries g ++ [firstEntry a old]) g).
Proof.
  intros Ha. destruct old as [d|]; simpl; [apply adoes_journalize|]. rewrite blen_nonempty by done. apply adoes_journalize.
Qed.

Lemma SaveAccount_run order r acc s g : orderOf order -> invariant s g -> accounts g !! r = Some acc -> codeFresh g acc ->
  exists s' g' G, SaveAccount env order r s = (s', inr tt) /\ invariant s' g' /\ entries g' = entries g ++ G /\
    lastRootHash g' = lastRootHash g /\ undone G g' g.
Proof.
  intros Hord [Hs [Hok (accts & codes & HM & HR)]] Ea Hfresh. set (a := AddressBytes acc).
  assert (Ha : a ∈ addresses) by apply (heap_objects _ _ _ _ _ Hok r acc Ea).
  set (g1 := set_entries (entries g ++ [firstEntry a (accts !! a)]) g).
  assert (Hok1 : heapOk g1) by by apply set_entries_ok.
  pose proof (sim_journal s g (entries g ++ [firstEntry a (accts !! a)]) Hs) as Hs1.
  destruct (saveDataTrie_run env storageKey addresses isCode order r acc _ g1 codes Hord Hs1 Hok1 Ea)
    as (g2 & acc2 & G2 & Hdata & Em2 & Hok2 & Ea2 & (Haddr2 & Hch2 & Hcode2 & Hnew2) & Hent2 & Hroot2 & HU2).
  assert (HM2 : mainIs g2 accts codes) by (destruct HM as (? & ? & ?); split; [by rewrite Em2|done]).
  destruct (saveCode_run env storageKey addresses isCode r acc2 g2 accts codes a HM2 HR Hok2 Ea2 Haddr2)
    as (g3 & acc3 & codes3 & G3 & Hcode & HM3 & HR3 & Hok3 & Ea3 & Haddr3 & Hent3 & Hroot3 & HU3).
  { rewrite Hnew2, Hch2. by apply Hfresh with (codes := codes). }
  set (accts4 := <[a := accountData acc3]> accts). set (g4 := withMain (mainMap env accts4 codes3) g3).
  assert (HM4 : mainIs g4 accts4 codes3) by (destruct HM3 as (_ & HA3 & HC3); split; [done|]; split; [by apply acctsOk_insert|done]).
  assert (Hrun : adoes (SaveAccount env order r : AM _) g tt g4).
  { unfold SaveAccount. eapply adoes_bind; [by apply adoes_theAccount|]. eapply adoes_bind; [by eapply getAccount_adoes|].
    eapply adoes_bind; [apply journalFirst_adoes, (address_bytes (env := env) (storageKey := storageKey) (isCode := isCode) a Ha)|].
    eapply adoes_bind; [eapply adoes_bind; [exact Hdata|exact Hcode]|].
    eapply adoes_bind; [by apply adoes_theAccount|]. unfold g4, accts4. rewrite <- Haddr3.
    apply (saveAccount_adoes env storageKey addresses isCode); [done|by rewrite Haddr3]. }
  destruct (Hrun s Hs) as (s4 & E4 & Hs4). exists s4, g4, (firstEntry a (accts !! a) :: G2 ++ G3).
  split; [done|]. split; [split; [done|]; split; [by apply heapOk_withMain|by exists accts4, codes3]|].
  split; [simpl; rewrite Hent3, Hent2; simpl; by rewrite <- !app_assoc|]. split; [simpl; by rewrite Hroot3, Hroot2|].
  apply (undone_group a _ g4 accts4 codes3 g accts codes); try done.
  - intros k Hk. unfold accts4. by rewrite lookup_insert_ne.
  - apply (undoes_heap _ _ _ _ _ _ g4 g3 codes3 g g1 codes); [apply (heapLe_refl g3)|apply (heapLe_refl g)|].
    by eapply undoes_app.
Qed.

(** ** RemoveAccount *)

Lemma undoes_remove a h g' g codes : heapLe g g' -> undoes a [journalEntryDataTrieRemove h] g' codes g codes.
Proof.
  intros Hle0 s1 g1 accts1 Hs HM Hok Hle. set (g2 := set_obsolete (base.delete h (obsoleteDataTrieHashes g1)) g1).
  assert (Hrev : adoes (revertEntry env (journalEntryDataTrieRemove h) : AM _) g1 tt g2).
  { unfold revertEntry. apply (adoes_bind _ _ _ None g2); [|apply adoes_ret].
    eapply adoes_bind; [apply (adoes_obsolete (base.delete h))|]. apply adoes_ret. }
  destruct (Hrev s1 Hs) as (s2 & E2 & Hs2). exists s2, g2, accts1. split; [by apply revert_one|]. split; [done|].
  split; [done|]. split; [by destruct Hok|]. split; [by eapply heapLe_trans|]. by split.
Qed.

Lemma removeDataTrie_run depth acc a s g codes : sim s g -> heapOk g ->
  exists s' res g' G, removeDataTrie depth acc s = (s', res) /\ sim s' g' /\ mainTrie g' = mainTrie g /\ heapOk g' /\
    heapLe g g' /\ entries g' = entries g ++ G /\ lastRootHash g' = lastRootHash g /\ undoes a G g' codes g codes.
Proof.
  intros Hs Hok. assert (Hsame : exists g' G, sim s g' /\ mainTrie g' = mainTrie g /\ heapOk g' /\
    heapLe g g' /\ entries g' = entries g ++ G /\ lastRootHash g' = lastRootHash g /\ undoes a G g' codes g codes).
  { exists g, []. rewrite app_nil_r. split_and!; try done; [apply heapLe_refl|apply undoes_nil, heapLe_refl]. }
  unfold removeDataTrie. set (h := RootHash (accountData acc)).
  destruct (blen h =? 0); [exists s, (inr tt); destruct Hsame as (g' & G & ?); exists g', G; by split|].
  destruct (trRecreate (mainTrie s) h) as [e|t] eqn:Et.
  { exists s, (inl (ErrTrie e)). destruct Hsame as (g' & G & ?). exists g', G. split; [|done].
    apply bind_err. unfold recreateMain. rewrite (bind_ok _ _ s s (mainTrie s)) by done. by rewrite Et. }
  assert (Erec : recreateMain h s = (s, inr t)) by (unfold recreateMain; rewrite (bind_ok _ _ s s (mainTrie s)) by done; by rewrite Et).
  destruct (trGetAllHashes depth t) as [e|hashes] eqn:Eh.
  { exists s, (inl (ErrTrie e)). destruct Hsame as (g' & G & ?). exists g', G. split; [|done].
    rewrite (bind_ok _ _ _ _ _ Erec). apply bind_err. by rewrite Eh. }
  set (g1 := set_obsolete (<[h := hashes]> (obsoleteDataTrieHashes g)) g).
  set (g2 := set_entries (entries g ++ [journalEntryDataTrieRemove h]) g1).
  assert (Hrun : adoes (modify (fun s => set_obsolete (<[h := hashes]> (obsoleteDataTrieHashes s)) s) ;;
    journalize (journalEntryDataTrieRemove h) : AM _) g tt g2).
  { eapply adoes_bind; [apply (adoes_obsolete (fun o => <[h := hashes]> o))|]. apply (adoes_journalize _ g1). }
  destruct (Hrun s Hs) as (s2 & E2 & Hs2). exists s2, (inr tt), g2, [journalEntryDataTrieRemove h].
  split. { rewrite (bind_ok _ _ _ _ _ Erec), (bind_ok _ _ s s hashes); [exact E2|by rewrite Eh]. }
  split; [done|]. split; [done|]. split; [by destruct Hok|]. split; [apply (heapLe_refl g)|].
  split; [done|]. split; [done|]. apply undoes_remove, (heapLe_refl g).
Qed.

Lemma removeCode_run a d g accts codes : mainIs g accts codes -> refsOk accts codes -> heapOk g -> accts !! a = Some d ->
  exists g' codes' G, adoes (removeCode env (asLoaded a d) : AM _) g tt g' /\ mainIs g' accts codes' /\
    refsOk (base.delete a accts) codes' /\ heapOk g' /\ entries g' = entries g ++ G /\ lastRootHash g' = lastRootHash g /\
    undoes a G g' codes' g codes.
Proof.
  intros HM HR Hok Ea. pose proof HM as (Hg & HA & HC). set (oldh := CodeHash d).
  assert (Eo : oldHash (accts !! a) = oldh) by by rewrite Ea.
  assert (Hknown : oldh <> [] -> codeHash env isCode oldh /\ is_Some (codes !! oldh)).
  { rewrite <- Eo. by apply (oldHash_known env isCode). }
  set (codes' := dropRef oldh codes). set (g1 := withMain (mainMap env accts codes') g).
  set (entry := journalEntryCode (if decide (oldh = []) then None else codes !! oldh) oldh []).
  exists (set_entries (entries g ++ [entry]) g1), codes', [entry]. split.
  { unfold removeCode. eapply adoes_bind; [|apply (adoes_journalize _ g1)].
    apply (updateOld_adoes env storageKey addresses isCode); [done|].
    destruct (decide (oldh = [])) as [E|E]; [by left|right; by apply Hknown]. }
  split; [split; [done|]; split; [done|by apply codesOk_dropRef]|].
  split. { unfold codes'. rewrite <- Eo. by apply (refsOk_drop env storageKey addresses isCode). }
  split; [by apply set_entries_ok, heapOk_withMain|]. split; [done|]. split; [done|].
  apply undoes_journal. destruct (decide (oldh = [])) as [E|E].
  - intros s1 g2 accts1 Hs HM2 Hok2 Hle. exists s1, g2, accts1. split.
    { apply revert_one. unfold entry. rewrite E. unfold revertEntry. by rewrite (bind_ok _ _ s1 s1 None). }
    split; [done|]. split; [|by split]. unfold codes', dropRef in HM2.
    rewrite (codes_notHash env isCode codes HC oldh) in HM2; [done|].
    intros Hh. by apply (codeHash_notEmpty env storageKey addresses isCode oldh).
  - apply (undoes_heap _ _ _ _ _ _ g1 g codes' g g codes); [apply (heapLe_refl g)..|].
    assert (Hc := undoes_code (T := T) env storageKey addresses isCode a g codes oldh [] []).
    rewrite decide_False in Hc by done. apply Hc; try done.
    intros e Ee. rewrite (codes_notHash env isCode codes HC []) in Ee; [done|].
    intros Hh. by apply (codeHash_notEmpty env storageKey addresses isCode []).
Qed.

Lemma RemoveAccount_run depth a s g : invariant s g -> a ∈ addresses ->
  exists s' res g' G, RemoveAccount env depth a s = (s', res) /\ sim s' g' /\ heapOk g' /\ entries g' = entries g ++ G /\
    lastRootHash g' = lastRootHash g /\ undone G g' g /\ (res = inr tt -> mapInv g').
Proof.
  intros [Hs [Hok (accts & codes & HM & HR)]] Ha.
  destruct (address_bytes (env := env) (storageKey := storageKey) (isCode := isCode) a Ha) as [_ Hne].
  destruct (adoes_run _ _ _ _ _ (getAccount_adoes env storageKey addresses isCode g accts codes a HM Ha) Hs) as (s1 & E1 & Hs1).
  unfold RemoveAccount. rewrite blen_nonempty by done. rewrite (bind_ok _ _ _ _ _ E1).
  destruct (accts !! a) as [d|] eqn:Ea; simpl.
  2:{ exists s1, (inl ErrAccNotFound), g, []. rewrite app_nil_r. split; [done|]. split; [done|]. split; [done|].
      split; [done|]. split; [done|]. split; [apply undone_nil; [done|apply heapLe_refl]|done]. }
  set (g1 := set_entries (entries g ++ [firstEntry a (accts !! a)]) g).
  assert (Hok1 : heapOk g1) by by apply set_entries_ok.
  assert (HM1 : mainIs g1 accts codes) by done.
  assert (Hj : adoes (journalize (journalEntryAccount (asLoaded a d)) : AM _) g tt g1).
  { unfold g1. rewrite Ea. apply adoes_journalize. }
  destruct (removeCode_run a d g1 accts codes HM1 HR Hok1 Ea) as (g2 & codes2 & G2 & Hcode & HM2 & HR2 & Hok2 & Hent2 & Hroot2 & HU2).
  destruct (Hj s1 Hs1) as (sj & Ej & Hsj). destruct (Hcode sj Hsj) as (s2 & E2 & Hs2).
  destruct (removeDataTrie_run depth (asLoaded a d) a s2 g2 codes2 Hs2 Hok2)
    as (s3 & res3 & g3 & G3 & E3 & Hs3 & Em3 & Hok3 & Hle3 & Hent3 & Hroot3 & HU3).
  assert (HM3 : mainIs g3 accts codes2) by (destruct HM2 as (? & ? & ?); split; [congruence|done]).
  assert (HU : undoes a (G2 ++ G3) g3 codes2 g codes).
  { apply (undoes_heap _ _ _ _ _ _ g3 g3 codes2 g g1 codes); [apply heapLe_refl|apply (heapLe_refl g)|by eapply undoes_app]. }
  assert (Hent : entries g3 = entries g ++ firstEntry a (accts !! a) :: G2 ++ G3).
  { rewrite Hent3, Hent2. simpl. by rewrite <- !app_assoc. }
  assert (Hbegin : removeCodeAndDataTrie env depth (asLoaded a d) sj = (s3, res3)).
  { unfold removeCodeAndDataTrie. by rewrite (bind_ok _ _ _ _ _ E2). }
  rewrite (bind_ok _ _ _ _ _ Ej). destruct res3 as [e|[]].
  { exists s3, (inl e), g3, (firstEntry a (accts !! a) :: G2 ++ G3). rewrite (bind_err _ _ _ _ _ Hbegin).
    split; [done|]. split; [done|]. split; [done|]. split; [done|]. split; [by rewrite Hroot3, Hroot2|].
    split; [|done]. by apply (undone_group a _ g3 accts codes2 g accts codes). }
  rewrite (bind_ok _ _ _ _ _ Hbegin).
  destruct (deleteAccount_adoes env storageKey addresses isCode g3 accts codes2 a HM3 Ha s3 Hs3) as (s4 & E4 & Hs4).
  set (g4 := withMain (mainMap env (base.delete a accts) codes2) g3) in *.
  assert (HM4 : mainIs g4 (base.delete a accts) codes2).
  { destruct HM3 as (_ & HA3 & HC3). split; [done|]. split; [by apply acctsOk_delete|done]. }
  exists s4, (inr tt), g4, (firstEntry a (accts !! a) :: G2 ++ G3). split; [done|]. split; [done|].
  split; [by apply heapOk_withMain|]. split; [done|]. split; [simpl; by rewrite Hroot3, Hroot2|]. split.
  - apply (undone_group a _ g4 (base.delete a accts) codes2 g accts codes); [done|done|done| |done].
    intros k Hk. by rewrite lookup_delete_ne.
  - intros _. split; [by apply heapOk_withMain|]. by exists (base.delete a accts), codes2.
Qed.
End Run.
