(* ===== verification/AccountsRevert.v ===== *)
(** * Loading accounts, and runs that return to snapshots. *)

From stdpp Require Import base list gmap.
From Stdlib Require Import ZArith Lia.
From S2P Require Import Prelude TrieNode TrieMap CommonTrie TrackableDataTrie UserAccount AccountsDB.
From S2P Require Import TrackableSpec AccountsSim AccountsUndo AccountsCodes AccountsRun.

Section Revert.
Context {T : Type} `{CT : CommonTrie T} `{CL : !CommonTrieLaws T} `{SM : StoredMaps}.
Variable env : accountsEnv.
Variable storageKey : bytes -> Prop.
Variable addresses : gset bytes.
Variable isCode : bytes -> Prop.
Context `{AL : !AccountsLaws env storageKey addresses isCode}.

Notation mainIs := (mainIs env addresses isCode).
Notation objOk := (objOk env storageKey addresses isCode).
Notation heapOk := (heapOk env storageKey addresses isCode).
Notation mapInv := (mapInv env storageKey addresses isCode).
Notation invariant := (invariant (T := T) env storageKey addresses isCode).
Notation undone := (undone (T := T) env storageKey addresses isCode).
Notation dataOk := (dataOk (theData env) storageKey).
Abbreviation AM := (SE (AccountsDB T) stateErr).

(** A change of the state that the journal need not undo. *)
Definition goesOn (g g' : mapDB) : Prop :=
  mainTrie g' = mainTrie g /\ heapLe g g' /\ heapOk g' /\ entries g' = entries g /\ lastRootHash g' = lastRootHash g.

Lemma goesOn_inv g g' : mapInv g -> goesOn g g' -> mapInv g' /\ undone [] g' g.
Proof.
  intros (Hok & accts & codes & (Hg & HA & HC) & HR) (E & Hle & Hok' & _). split.
  - split; [done|]. exists accts, codes. split; [|done]. split; [congruence|done].
  - by apply undone_nil.
Qed.

(** ** Loading *)

(** The data trie of the account is at hand, or in the storage. *)
Definition loadable (g : mapDB) (acc : userAccount) : Prop :=
  RootHash (accountData acc) = [] \/ is_Some (dataTries g !! AddressBytes acc) \/
  exists m, storedMaps m /\ rootOf m (RootHash (accountData acc)) /\ dataOk m.

Lemma goesOn_newAccount g acc : heapOk g -> objOk (tries g) acc -> goesOn g (putObj (fresh (dom (accounts g))) acc g).
Proof.
  intros Hok Ho. split; [done|]. split; [|split; [by apply heapOk_object|done]].
  split; [done|]. intros r b Eb. exists b. split; [|apply objLe_refl]. simpl.
  rewrite lookup_insert_ne; [done|]. intros <-. by rewrite fresh_none in Eb.
Qed.

Lemma goesOn_trans g1 g2 g3 : goesOn g1 g2 -> goesOn g2 g3 -> goesOn g1 g3.
Proof.
  intros (E1 & L1 & _ & J1 & R1) (E2 & L2 & K2 & J2 & R2). unfold goesOn. split_and!; try congruence. by eapply heapLe_trans.
Qed.

Lemma objOk_fresh ts a d : a ∈ addresses -> Address d = a -> objOk ts (asLoaded a d).
Proof.
  intros Ha Hd. split; simpl; [by unfold AddressBytes; simpl; rewrite Hd|apply map_Forall_empty|done|done].
Qed.

(** What loading the data trie leaves of an account that was read, and of the objects. *)
Definition keepsLoaded (d : UserAccountData) (acc' : userAccount) (g g' : mapDB) : Prop :=
  accountData acc' = d /\ dirty (dataTrieInteractor acc') = ∅ /\ hasNewCode acc' = false /\
  accounts g' = accounts g /\ dataTries g ⊆ dataTries g'.

Lemma loadData_adoes a d g : heapOk g -> a ∈ addresses -> Address d = a -> loadable g (asLoaded a d) ->
  exists g' acc', adoes (loadDataTrieConcurrentSafe (asLoaded a d) : AM _) g acc' g' /\ goesOn g g' /\ objOk (tries g') acc' /\
    keepsLoaded d acc' g g'.
Proof.
  intros Hok Ha Hd Hl. pose proof (objOk_fresh (tries g) a d Ha Hd) as Ho.
  assert (Ea : AddressBytes (asLoaded a d) = a) by done. unfold loadDataTrieConcurrentSafe.
  assert (Hrefl : goesOn g g) by (split; [done|]; split; [apply heapLe_refl|done]).
  destruct (dataTries g !! a) as [l|] eqn:El.
  { exists g, (withTrie l (asLoaded a d)). split; [eapply adoes_bind; [apply adoes_holder|]; rewrite Ea, El; apply adoes_ret|].
    split; [done|]. split; [|done]. destruct Ho. split; try done. intros l' [= <-]. by apply (heap_holder _ _ _ _ _ Hok a). }
  destruct (decide (RootHash d = [])) as [Er|Er].
  { exists g, (asLoaded a d). split; [|by split_and!]. eapply adoes_bind; [apply adoes_holder|]. rewrite Ea, El. simpl. rewrite Er. apply adoes_ret. }
  destruct Hl as [Hl|[[l Hl]|(m & Hst & Hro & Hm)]]; [done|rewrite Ea in Hl; congruence|].
  set (l := fresh (dom (tries g))). set (g1 := putTrie l m g). set (g2 := set_dataTries (<[a := l]> (dataTries g1)) g1).
  assert (Hok1 : heapOk g1) by by apply heapOk_trie. assert (Hl1 : is_Some (tries g1 !! l)) by (simpl; rewrite lookup_insert_eq; eauto).
  exists g2, (withTrie l (asLoaded a d)). split; [|split; [|split]].
  - eapply adoes_bind; [apply adoes_holder|]. rewrite Ea, El. simpl. rewrite blen_nonempty by done.
    apply (adoes_recreate_new g (RootHash d) m).
    + intros s Hs. eapply recreate_law; [apply Hs|by apply Hs|done].
    + eapply adoes_bind; [apply (adoes_putHolder a l g1)|]. apply adoes_ret.
  - split; [done|]. split; [apply (heapLe_newTrie g), fresh_none|]. split; [by apply putHolder_ok|done].
  - destruct Ho. split; try done. by intros l' [= <-].
  - split_and!; try done. by apply insert_subseteq.
Qed.

Definition canLoad (s : AccountsDB T) (a : bytes) : Prop := forall acc,
  snd (getAccount env a s) = inr (Some acc) ->
  RootHash (accountData acc) = [] \/ is_Some (dataTries s !! AddressBytes acc) \/
  exists m, storedMaps m /\ rootOf m (RootHash (accountData acc)) /\ dataOk m.

Lemma getAccount_snd s g accts codes a : sim s g -> mainIs g accts codes -> a ∈ addresses ->
  snd (getAccount env a s) = inr (asLoaded a <$> accts !! a).
Proof.
  intros Hs HM Ha. destruct (adoes_run _ _ _ _ _ (getAccount_adoes env storageKey addresses isCode g accts codes a HM Ha) Hs) as (s' & E & _).
  by rewrite E.
Qed.

Lemma loadExisting a d s g accts codes : sim s g -> heapOk g -> mainIs g accts codes -> a ∈ addresses -> accts !! a = Some d ->
  canLoad s a -> exists g' r, adoes (let! acc := loadDataTrieConcurrentSafe (asLoaded a d) in newAccount acc : AM _) g r g' /\ goesOn g g'.
Proof.
  intros Hs Hok HM Ha Ed Hl. destruct (proj1 (proj2 HM) _ _ Ed) as [_ Hd].
  destruct (loadData_adoes a d g Hok Ha Hd) as (g1 & acc & Hrun & Hg1 & Ho & _).
  { specialize (Hl (asLoaded a d)). rewrite (getAccount_snd s g accts codes a Hs HM Ha), Ed, (sim_holder _ _ Hs) in Hl. by apply Hl. }
  eexists _, _. split; [eapply adoes_bind; [exact Hrun|]; apply adoes_newAccount|].
  eapply goesOn_trans; [exact Hg1|]. apply goesOn_newAccount; [apply Hg1|done].
Qed.

Lemma LoadAccount_run a s g : invariant s g -> a ∈ addresses -> canLoad s a ->
  exists s' r g', LoadAccount env a s = (s', inr r) /\ sim s' g' /\ goesOn g g'.
Proof.
  intros [Hs (Hok & accts & codes & HM & HR)] Ha Hl.
  destruct (address_bytes (env := env) (storageKey := storageKey) (isCode := isCode) a Ha) as [_ Hne].
  assert (Hrun : exists g' r, adoes (LoadAccount env a : AM _) g r g' /\ goesOn g g').
  { unfold LoadAccount. rewrite blen_nonempty by done. destruct (accts !! a) as [d|] eqn:Ed.
    - destruct (loadExisting a d s g accts codes Hs Hok HM Ha Ed Hl) as (g' & r & Hr & Hg). exists g', r. split; [|done].
      eapply adoes_bind; [by eapply getAccount_adoes|]. rewrite Ed. exact Hr.
    - eexists _, _. split.
      { eapply adoes_bind; [by eapply getAccount_adoes|]. rewrite Ed. simpl. unfold NewUserAccount. rewrite blen_nonempty by done.
        eapply adoes_bind; [apply adoes_ret|]. apply adoes_newAccount. }
      apply goesOn_newAccount; [done|]. by apply objOk_fresh. }
  destruct Hrun as (g' & r & Hr & Hg). destruct (Hr s Hs) as (s' & E & Hs'). by exists s', r, g'.
Qed.

Lemma GetExistingAccount_run a s g : invariant s g -> a ∈ addresses -> canLoad s a ->
  exists s' res g', GetExistingAccount env a s = (s', res) /\ sim s' g' /\ goesOn g g'.
Proof.
  intros [Hs (Hok & accts & codes & HM & HR)] Ha Hl.
  destruct (address_bytes (env := env) (storageKey := storageKey) (isCode := isCode) a Ha) as [_ Hne].
  unfold GetExistingAccount. rewrite blen_nonempty by done.
  destruct (accts !! a) as [d|] eqn:Ed.
  - destruct (loadExisting a d s g accts codes Hs Hok HM Ha Ed Hl) as (g' & r & Hr & Hg).
    assert (Hrun : adoes (let! acnt := getAccount env a in match acnt with None => throw ErrAccNotFound
      | Some acc => let! acc := loadDataTrieConcurrentSafe acc in newAccount acc end : AM _) g r g').
    { eapply adoes_bind; [by eapply getAccount_adoes|]. rewrite Ed. exact Hr. }
    destruct (Hrun s Hs) as (s' & E & Hs'). by exists s', (inr r), g'.
  - destruct (getAccount_adoes env storageKey addresses isCode g accts codes a HM Ha s Hs) as (s' & E & Hs').
    exists s', (inl ErrAccNotFound), g. rewrite (bind_ok _ _ _ _ _ E), Ed. split; [done|]. split; [done|].
    split; [done|]. split; [apply heapLe_refl|done].
Qed.

(** ** Changes of an object, and reading *)

(** A method of an account leaves its address and its data trie, and its dirty data are of
    storage keys. *)
Definition clientChange (acc acc' : userAccount) : Prop :=
  AddressBytes acc' = AddressBytes acc /\ tr (dataTrieInteractor acc') = tr (dataTrieInteractor acc) /\
  dirtyOk env storageKey (dirty (dataTrieInteractor acc')) /\ (code acc' <> [] -> isCode (code acc')).

(** The methods of an account are such changes. *)
Lemma client_onFields f ts acc : objOk ts acc -> (forall d, Address (f d) = Address d) -> clientChange acc (onFields f acc).
Proof. intros [] Hf. split; [apply Hf|]. by split. Qed.

Lemma client_AddToBalance v ts acc acc' : objOk ts acc -> AddToBalance v acc = inr acc' -> clientChange acc acc'.
Proof. intros Ho. unfold AddToBalance. case_match; [done|]. intros [= <-]. by eapply client_onFields. Qed.

Lemma client_SubFromBalance v ts acc acc' : objOk ts acc -> SubFromBalance v acc = inr acc' -> clientChange acc acc'.
Proof. intros Ho. unfold SubFromBalance. case_match; [done|]. intros [= <-]. by eapply client_onFields. Qed.

Lemma client_ClaimDeveloperRewards snd ts acc acc' v : objOk ts acc -> ClaimDeveloperRewards snd acc = inr (acc', v) -> clientChange acc acc'.
Proof. intros Ho. unfold ClaimDeveloperRewards. case_match; [done|]. intros [= <- _]. by eapply client_onFields. Qed.

Lemma client_ChangeOwnerAddress snd new ts acc acc' : objOk ts acc -> ChangeOwnerAddress snd new acc = inr acc' -> clientChange acc acc'.
Proof. intros Ho. unfold ChangeOwnerAddress. repeat case_match; try done. intros [= <-]. by eapply client_onFields. Qed.

Lemma client_IncreaseNonce v ts acc : objOk ts acc -> clientChange acc (IncreaseNonce v acc).
Proof. intros Ho. by eapply client_onFields. Qed.

Lemma client_SetCode c ts acc : objOk ts acc -> (c <> [] -> isCode c) -> clientChange acc (SetCode c acc).
Proof. intros [] Hc. by split. Qed.

Lemma client_SaveKeyValue k v ts acc tdt : objOk ts acc -> storageKey k ->
  SaveKeyValue (theData env) k v (dataTrieInteractor acc) = inr tdt -> clientChange acc (setTracked tdt acc).
Proof.
  intros [] Hk. unfold SaveKeyValue. case_match; [done|]. intros [= <-]. split; [done|]. split; [done|]. split; [|done].
  simpl. by apply map_Forall_insert_2.
Qed.

Lemma client_run r acc acc' s g : sim s g -> heapOk g -> accounts s !! r = Some acc -> clientChange acc acc' ->
  exists g', sim (set_accounts (<[r := acc']> (accounts s)) s) g' /\ goesOn g g'.
Proof.
  intros Hs Hok Ea (Ha & Ht & Hd & Hc). rewrite (sim_accounts _ _ Hs) in Ea. exists (putObj r acc' g). split.
  { destruct Hs. split; try done. simpl. congruence. }
  split; [done|]. split; [|split; [|done]].
  - apply (heapLe_object g r acc); [done|]. split; [done|]. by rewrite Ht.
  - apply heapOk_object; [done|]. destruct (heap_objects _ _ _ _ _ Hok r acc Ea). split; [by rewrite Ha|done|by rewrite Ht|done].
Qed.

Lemma rootHash_run s g : sim s g ->
  exists s' h, accountsRootHash s = (s', inr h) /\ sim s' g /\ rootOf (mainTrie g) h.
Proof.
  intros Hs. destruct (rootHash_law _ _ (sim_main _ _ Hs)) as (_ & h & _ & Hro & _).
  assert (Hrun : adoes (accountsRootHash : AM _) g h g).
  { rewrite <- (set_mainTrie_id g) at 2. apply adoes_main. intros t Ht.
    destruct (rootHash_law t _ Ht) as (t' & h' & E & Hr & Ht' & S). exists t'. unfold onTrie. rewrite E. by rewrite (rootOf_fun _ _ _ Hr Hro). }
  destruct (Hrun s Hs) as (s' & E & Hs'). by exists s', h.
Qed.

Lemma retrieve_run r k s g : sim s g -> heapOk g -> storageKey k ->
  exists s' res, accountRetrieveValue env r k s = (s', res) /\ sim s' g.
Proof.
  intros Hs Hok Hk. unfold accountRetrieveValue. rewrite (surjective_pairing (bind _ _ s)).
  eexists _, _. split; [done|]. unfold bind, theAccount. rewrite (sim_accounts _ _ Hs).
  destruct (accounts g !! r) as [acc|] eqn:Ea; [|done]. set (tdt := dataTrieInteractor acc).
  destruct (dirty tdt !! k) as [dd|] eqn:Ed; [done|]. destruct (tr tdt) as [l|] eqn:El; [|done].
  destruct (obj_trie _ _ _ _ _ _ (heap_objects _ _ _ _ _ Hok r acc Ea) l El) as [m Em].
  destruct (triesSim_lookup _ _ _ _ _ (sim_tries _ _ Hs) Em) as (t & Et & Ht & Hle).
  destruct (share_law (mainTrie s) t m Ht Hle) as (Ht1 & S1).
  destruct (retrieve_does (theData env) storageKey m k (heap_tries _ _ _ _ _ Hok l m Em) Hk _ Ht1) as (t2 & E2 & Ht2 & S2).
  assert (Hread : exists res, RetrieveValue (theData env) tdt k (trShare (mainTrie s) t) = (t2, res)).
  { unfold RetrieveValue. rewrite Ed, (bind_ok _ _ _ _ _ E2). unfold getValueWithoutMetadata, getValueAutoBalanceVersion, someM.
    destruct (blen _ =? 0); [by eexists|]. destruct (_ =? _); [|by eexists]. unfold bind. destruct (unmarshalLeaf _ _); by eexists. }
  destruct Hread as [res Er]. unfold onData. rewrite Et, Er. simpl.
  assert (Eg : tries g = <[l := m]> (tries g)) by by rewrite insert_id.
  destruct Hs. split; try done. simpl. rewrite Eg. apply triesSim_insert; try done. apply storeLe_same. by rewrite S1, S2.
Qed.

(** ** Runs *)

(** The object has the code hash that is in the trie, unless it has a new code. *)
Definition freshCode (s : AccountsDB T) (acc : userAccount) : Prop := forall old,
  snd (getAccount env (AddressBytes acc) s) = inr old -> hasNewCode acc = false ->
  CodeHash (accountData acc) = match old with Some o => CodeHash (accountData o) | None => [] end.

(** A call on the database or on an account. *)
Inductive step : AccountsDB T -> AccountsDB T -> Prop :=
| step_load a s s' r : a ∈ addresses -> canLoad s a -> LoadAccount env a s = (s', inr r) -> step s s'
| step_existing a s s' res : a ∈ addresses -> canLoad s a -> GetExistingAccount env a s = (s', res) -> step s s'
| step_client r acc acc' s : accounts s !! r = Some acc -> clientChange acc acc' ->
    step s (set_accounts (<[r := acc']> (accounts s)) s)
| step_retrieve r k s s' res : storageKey k -> accountRetrieveValue env r k s = (s', res) -> step s s'
| step_rootHash s s' res : accountsRootHash s = (s', res) -> step s s'
| step_save order r acc s s' : orderOf order -> accounts s !! r = Some acc -> freshCode s acc ->
    SaveAccount env order r s = (s', inr tt) -> step s s'
| step_remove depth a s s' : a ∈ addresses -> RemoveAccount env depth a s = (s', inr tt) -> step s s'.

(** Calls, some of them returning to an earlier snapshot. *)
Inductive run : AccountsDB T -> AccountsDB T -> Prop :=
| run_refl s : run s s
| run_step s s1 s2 : run s s1 -> step s1 s2 -> run s s2
| run_revert s s1 s2 s3 : run s s1 -> run s1 s2 -> entries s1 <> [] ->
    RevertToSnapshot env (Z.of_nat (length (entries s1))) s2 = (s3, inr tt) -> run s s3.

(** [s'] goes on from [s], and its journal leads back. *)
Definition leadsBack (g : mapDB) (s' : AccountsDB T) (g' : mapDB) : Prop :=
  sim s' g' /\ heapOk g' /\ lastRootHash g' = lastRootHash g /\
  exists G, entries g' = entries g ++ G /\ undone G g' g.

Lemma leadsBack_goesOn g s' g' : sim s' g' -> mapInv g -> goesOn g g' -> leadsBack g s' g' /\ mapInv g'.
Proof.
  intros Hs Hi Hgo. destruct (goesOn_inv g g' Hi Hgo) as [Hi' HU]. split; [|done]. split; [done|]. split; [apply Hgo|].
  split; [apply Hgo|]. exists []. rewrite app_nil_r. split; [apply Hgo|done].
Qed.

Lemma goesOn_refl g : heapOk g -> goesOn g g.
Proof. intros Hok. split; [done|]. split; [apply heapLe_refl|done]. Qed.

Lemma step_inv s g s' : invariant s g -> step s s' -> exists g', leadsBack g s' g' /\ mapInv g'.
Proof.
  intros [Hs Hi] Hst. pose proof (proj1 Hi) as Hok. destruct Hst as [a s s' r Ha Hl E|a s s' res Ha Hl E|r acc acc' s Ea Hc|r k s s' res Hk E|s s' res E
    |order r acc s s' Ho Ea Hf E|depth a s s' Ha E].
  - destruct (LoadAccount_run a s g) as (s2 & r2 & g' & E2 & Hs2 & Hgo); [by split|done|done|].
    rewrite E in E2. injection E2 as -> ->. exists g'. by apply leadsBack_goesOn.
  - destruct (GetExistingAccount_run a s g) as (s2 & r2 & g' & E2 & Hs2 & Hgo); [by split|done|done|].
    rewrite E in E2. injection E2 as -> ->. exists g'. by apply leadsBack_goesOn.
  - destruct (client_run r acc acc' s g Hs Hok Ea Hc) as (g' & Hs2 & Hgo). exists g'. by apply leadsBack_goesOn.
  - destruct (retrieve_run r k s g Hs Hok Hk) as (s2 & res2 & E2 & Hs2). rewrite E in E2. injection E2 as -> ->.
    exists g. by apply leadsBack_goesOn, goesOn_refl.
  - destruct (rootHash_run s g Hs) as (s2 & h & E2 & Hs2 & _). rewrite E in E2. injection E2 as -> ->.
    exists g. by apply leadsBack_goesOn, goesOn_refl.
  - rewrite (sim_accounts _ _ Hs) in Ea.
    destruct (SaveAccount_run env storageKey addresses isCode order r acc s g Ho) as (s2 & g' & G & E2 & [Hs2 Hi2] & Hent & Hroot & HU);
      [by split|done| |].
    { intros accts codes HM Hn. specialize (Hf (asLoaded (AddressBytes acc) <$> accts !! AddressBytes acc)).
      rewrite Hf; [by destruct (accts !! _)| |done].
      eapply getAccount_snd; [done|exact HM|]. apply (heap_objects _ _ _ _ _ Hok r acc Ea). }
    rewrite E in E2. injection E2 as ->. exists g'. split; [|done]. split; [done|]. split; [apply Hi2|]. split; [done|]. by exists G.
  - destruct (RemoveAccount_run env storageKey addresses isCode depth a s g) as (s2 & res & g' & G & E2 & Hs2 & Hok2 & Hent & Hroot & HU & Hi2);
      [by split|done|]. rewrite E in E2. injection E2 as -> <-. exists g'. split; [|by apply Hi2].
    split; [done|]. split; [done|]. split; [done|]. by exists G.
Qed.

Lemma leadsBack_trans g s1 g1 s2 g2 : leadsBack g s1 g1 -> leadsBack g1 s2 g2 -> leadsBack g s2 g2.
Proof.
  intros (_ & _ & R1 & G1 & E1 & U1) (Hs2 & Hok2 & R2 & G2 & E2 & U2). split; [done|]. split; [done|]. split; [congruence|].
  exists (G1 ++ G2). split; [by rewrite E2, E1, app_assoc|]. by eapply undone_app.
Qed.

(** Returning to a snapshot that was taken in [s]. *)
Lemma revert_run s g s' g' : invariant s g -> leadsBack g s' g' -> entries s <> [] ->
  exists s2 g2, RevertToSnapshot env (Z.of_nat (length (entries s))) s' = (s2, inr tt) /\ sim s2 g2 /\
    mainTrie g2 = mainTrie g /\ heapOk g2 /\ heapLe g g2 /\ entries g2 = entries g /\ lastRootHash g2 = lastRootHash g.
Proof.
  intros [Hs Hi] (Hs' & Hok' & Hr & G & Hent & HU) Hne.
  destruct (HU s' g' Hs' eq_refl Hok' (heapLe_refl g')) as (s2 & g2 & E2 & Hs2 & Em & Hok2 & Hle & Hent2 & _ & Hr2).
  rewrite (sim_entries _ _ Hs) in *. pose proof (sim_entries _ _ Hs') as Es'. rewrite Hent in Es'.
  exists (set_entries (entries g) s2), (set_entries (entries g) g2). split.
  - unfold RevertToSnapshot. rewrite (bind_ok _ _ s' s' (entries g ++ G)) by (unfold gets; by rewrite Es').
    rewrite length_app, Nat2Z.inj_add.
    replace (Z.of_nat (length (entries g)) + Z.of_nat (length G) <? Z.of_nat (length (entries g))) with false
      by (symmetry; apply Z.ltb_ge; lia).
    replace (Z.of_nat (length (entries g)) <? 0) with false by (symmetry; apply Z.ltb_ge; lia).
    replace (Z.of_nat (length (entries g)) =? 0) with false
      by (symmetry; apply Z.eqb_neq; destruct (entries g); [done|simpl; lia]).
    simpl. rewrite Nat2Z.id, drop_app_length, take_app_length. by rewrite (bind_ok _ _ _ _ _ E2).
  - split; [by apply sim_journal|]. split; [done|]. split; [by apply set_entries_ok|]. split; [done|]. split; [done|].
    simpl. by rewrite Hr2, Hr.
Qed.

Lemma run_inv s g s' : invariant s g -> run s s' -> exists g', leadsBack g s' g' /\ mapInv g'.
Proof.
  intros Hi Hrun. revert g Hi. induction Hrun as [s|s s1 s2 _ IH Hst|s s1 s2 s3 _ IH1 _ IH2 Hne E]; intros g Hi.
  - destruct Hi as [Hs Hi]. exists g. by apply leadsBack_goesOn, goesOn_refl, Hi.
  - destruct (IH g Hi) as (g1 & HB1 & Hi1). assert (Hinv1 : invariant s1 g1) by (split; [apply HB1|done]).
    destruct (step_inv s1 g1 s2 Hinv1 Hst) as (g2 & HB2 & Hi2). exists g2. split; [by eapply leadsBack_trans|done].
  - destruct (IH1 g Hi) as (g1 & HB1 & Hi1). assert (Hinv1 : invariant s1 g1) by (split; [apply HB1|done]).
    destruct (IH2 g1 Hinv1) as (g2 & HB2 & Hi2).
    destruct (revert_run s1 g1 s2 g2 Hinv1 HB2 Hne) as (s4 & g3 & E3 & Hs3 & Em & Hok3 & Hle & Hent & Hroot).
    rewrite E in E3. injection E3 as ->. exists g3. destruct (leadsBack_goesOn g1 s4 g3 Hs3 Hi1) as [HB3 Hi3]; [by split|].
    split; [by eapply leadsBack_trans|done].
Qed.
End Revert.

(** ** Commit, and returning to what was committed *)

Section Commit.
Context {T : Type} `{CT : CommonTrie T} `{CL : !CommonTrieLaws T} `{SM : StoredMaps}.

(** A main trie with a larger storage. *)
Lemma sim_grow (s : AccountsDB T) g t : sim s g -> holds t (mainTrie g) -> storeLe (mainTrie s) t -> sim (set_mainTrie t s) g.
Proof.
  intros [] Ht Hle. split; try done; simpl.
  - by eapply triesSim_le.
  - intros m Hm. eapply persisted_le; [exact Hle|auto].
Qed.

Lemma storeLe_refl (t : T) : storeLe t t.
Proof. by apply storeLe_same. Qed.

Lemma commitData_run l m (s : AccountsDB T) g : sim s g -> tries g !! l = Some m ->
  exists s', commitData l s = (s', inr tt) /\ sim s' g /\ storeLe (mainTrie s) (mainTrie s') /\ persisted (mainTrie s') m.
Proof.
  intros Hs Em. destruct (triesSim_lookup _ _ _ _ _ (sim_tries _ _ Hs) Em) as (t & Et & Ht & Hle).
  destruct (share_law (mainTrie s) t m Ht Hle) as (Ht1 & S1).
  destruct (commit_law _ m Ht1) as (t2 & E2 & Ht2 & Hp2 & L2). unfold commitData, onTrie. rewrite Et, E2.
  assert (Lm : storeLe (mainTrie s) t2) by (eapply storeLe_trans; [by apply storeLe_same|done]).
  destruct (share_law t2 (mainTrie s) (mainTrie g) (sim_main _ _ Hs) Lm) as (Hm3 & S3).
  set (main3 := trShare t2 (mainTrie s)) in *.
  assert (L3 : storeLe (mainTrie s) main3) by (eapply storeLe_trans; [exact Lm|by apply storeLe_same]).
  eexists. split; [done|]. split; [|split; [exact L3|eapply persisted_le; [by apply storeLe_same|done]]].
  assert (Eg : tries g = <[l := m]> (tries g)) by by rewrite insert_id.
  destruct Hs. split; try done; simpl.
  - rewrite Eg. apply triesSim_insert; [done|by apply storeLe_same|by eapply triesSim_le].
  - intros x Hx. eapply persisted_le; [exact L3|auto].
Qed.

Lemma commitDataTries_run ls (s : AccountsDB T) g : sim s g -> Forall (fun l => is_Some (tries g !! l)) ls ->
  exists s', commitDataTries ls s = (s', inr tt) /\ sim s' g /\ storeLe (mainTrie s) (mainTrie s') /\
    forall l m, l ∈ ls -> tries g !! l = Some m -> persisted (mainTrie s') m.
Proof.
  intros Hs Hls. revert s Hs. induction Hls as [|l ls [m Em] _ IH]; intros s Hs.
  { exists s. split; [done|]. split; [done|]. split; [apply storeLe_refl|]. by intros l m ?%elem_of_nil. }
  destruct (commitData_run l m s g Hs Em) as (s1 & E1 & Hs1 & L1 & P1).
  destruct (IH s1 Hs1) as (s2 & E2 & Hs2 & L2 & P2). exists s2. simpl. rewrite (bind_ok _ _ _ _ _ E1).
  split; [done|]. split; [done|]. split; [by eapply storeLe_trans|].
  intros l' m' [->|Hin]%elem_of_cons Em'; [|by eapply P2]. assert (m' = m) as -> by congruence. by eapply persisted_le.
Qed.

(** ** commit *)

Definition cleared (g : mapDB) (h : bytes) : mapDB :=
  set_obsolete ∅ (set_lastRootHash h (set_dataTries ∅ (set_entries [] g))).

(** The end of commit, once the data tries are committed. *)
Lemma commitMain_run (s : AccountsDB T) g : sim s g ->
  exists s' h, (onMain trCommit ;; onMain trRootHash) s = (s', inr h) /\ sim s' g /\ rootOf (mainTrie g) h /\
    storeLe (mainTrie s) (mainTrie s') /\ persisted (mainTrie s') (mainTrie g).
Proof.
  intros Hs. destruct (commit_law _ _ (sim_main _ _ Hs)) as (t1 & E1 & Ht1 & P1 & L1).
  assert (Hc : onMain trCommit s = (set_mainTrie t1 s, inr tt)) by (unfold onMain, onTrie; by rewrite E1).
  pose proof (sim_grow s g t1 Hs Ht1 L1) as Hs1. destruct (rootHash_law t1 _ Ht1) as (t2 & h & E2 & Hro & Ht2 & S2).
  exists (set_mainTrie t2 s), h. rewrite (bind_ok _ _ _ _ _ Hc). unfold onMain, onTrie. simpl. rewrite E2.
  split; [done|]. assert (L2 : storeLe (mainTrie s) t2) by (eapply storeLe_trans; [exact L1|by apply storeLe_same]).
  split; [by apply sim_grow|]. split; [done|]. split; [done|]. eapply persisted_le; [by apply storeLe_same|done].
Qed.

Lemma commit_run order (s : AccountsDB T) g : sim s g -> map_Forall (fun _ l => is_Some (tries g !! l)) (dataTries g) ->
  (forall d, order d ≡ₚ (map_to_list d).*2) ->
  exists s' h, commit order s = (s', inr h) /\ sim s' (cleared g h) /\ rootOf (mainTrie g) h /\
    persisted (mainTrie s') (mainTrie g) /\
    (forall a l m, dataTries g !! a = Some l -> tries g !! l = Some m -> persisted (mainTrie s') m).
Proof.
  intros Hs Hh Ho. set (g1 := set_entries [] g).
  assert (Hs1 : sim (set_entries [] s) g1) by (destruct Hs; by split).
  destruct (commitDataTries_run (order (dataTries s)) _ g1 Hs1) as (s2 & E2 & Hs2 & L2 & P2).
  { rewrite (sim_holder _ _ Hs), (Ho (dataTries g)). apply Forall_forall. intros l ([a l'] & -> & Hin)%list_elem_of_fmap.
    apply elem_of_map_to_list in Hin. by apply (Hh a). }
  assert (Hs3 : sim (set_dataTries ∅ s2) (set_dataTries ∅ g1)) by (destruct Hs2; by split).
  destruct (commitMain_run _ _ Hs3) as (s4 & h & E4 & Hs4 & Hro & L4 & P4).
  exists (set_obsolete ∅ (set_lastRootHash h s4)), h. split.
  { unfold commit. rewrite (bind_ok _ _ s (set_entries [] s) tt) by done.
    rewrite (bind_ok _ _ _ (set_entries [] s) (dataTries s)) by done. rewrite (bind_ok _ _ _ _ _ E2).
    rewrite (bind_ok _ _ s2 (set_dataTries ∅ s2) tt) by done. revert E4. unfold bind.
    destruct (onMain trCommit _) as [s5 [e|[]]]; [done|]. destruct (onMain trRootHash s5) as [s6 [e|h']]; [done|].
    intros [= -> ->]. done. }
  split; [destruct Hs4; by split|]. split; [done|]. split; [done|]. intros a l m Ea Em. simpl.
  eapply persisted_le; [exact L4|]. simpl. eapply P2; [|exact Em]. rewrite (sim_holder _ _ Hs), (Ho (dataTries g)).
  apply list_elem_of_fmap. exists (a, l). split; [done|]. by apply elem_of_map_to_list.
Qed.

(** ** Returning to the beginning *)

Lemma revert_zero env (s : AccountsDB T) g m : sim s g -> storedMaps m -> rootOf m (lastRootHash g) ->
  exists s', RevertToSnapshot env 0 s = (s', inr tt) /\
    sim s' (set_mainTrie m (set_entries [] (set_dataTries ∅ (set_obsolete ∅ g)))).
Proof.
  intros Hs Hm Hro. unfold RevertToSnapshot. rewrite (bind_ok _ _ s s (entries s)) by done.
  replace (Z.of_nat (length (entries s)) <? 0) with false by (symmetry; apply Z.ltb_ge; lia). simpl.
  rewrite (bind_ok _ _ s s (lastRootHash s)) by done. rewrite (sim_root _ _ Hs).
  destruct (recreate_law (mainTrie s) (mainTrie g) m (lastRootHash g)) as (t & E & Ht & S); [apply Hs|by apply Hs|done|].
  exists (set_mainTrie t (set_entries [] (set_dataTries ∅ (set_obsolete ∅ s)))). split.
  - unfold recreateTrie, recreateMain, bind, modify, gets. simpl. by rewrite E.
  - destruct Hs. split; try done; simpl.
    + eapply triesSim_le; [|done]. by apply storeLe_same.
    + intros x Hx. eapply persisted_le; [by apply storeLe_same|auto].
Qed.
End Commit.
