(* ===== verification/AccountsExample.v ===== *)
(** * An accounts database over a concrete Patricia-Merkle trie: marshallers, a hasher, and
    the accounts of two users. *)

From stdpp Require Import base list gmap.
From Stdlib Require Import ZArith Lia.
From S2P Require Import Prelude TrieNode TrieOps PatriciaMerkleTrie TrieMap TrieRun TrieExample CommonTrie TrackableDataTrie UserAccount AccountsDB.
From S2P Require Import TrackableSpec AccountsSim AccountsUndo AccountsCodes AccountsRun AccountsRevert.

Module AccountsEx.
Import TrieEx.
#[export] Existing Instance exCodec.
#[export] Existing Instance exCodecLaws.

#[export] Instance exCollisionFree : CollisionFree exCodec.
Proof. split; [intros x y E; by injection E|done]. Qed.

Abbreviation PMT := (patriciaMerkleTrie (gmap bytes bytes)).

(** ** Marshalling *)

Definition exHash (x : bytes) : bytes := 255 :: map (fun b => b mod 256) x.

Definition putLeaf (l : TrieLeafData) : bytes := putBs (leafValue l) ++ putBs (leafKey l) ++ putBs (leafAddress l).
Definition getLeaf (b : bytes) : option TrieLeafData :=
  '(v, r) ← getBs b;
  '(k, r) ← getBs r;
  '(a, _) ← getBs r;
  Some (mkLeaf v k a).

Definition exData (autoBalance : bool) : dataEnv := mkDataEnv exHash (fun l => Some (putLeaf l)) getLeaf 100 autoBalance.

Definition putAccountData (d : UserAccountData) : bytes :=
  [Nonce d; Balance d; DeveloperReward d] ++ putBs (CodeHash d) ++ putBs (RootHash d) ++ putBs (Address d) ++
  putBs (OwnerAddress d) ++ putBs (UserName d) ++ putBs (CodeMetadata d).
Definition getAccountData (b : bytes) : option UserAccountData :=
  match b with
  | n :: bal :: dr :: r =>
      '(ch, r) ← getBs r;
      '(rh, r) ← getBs r;
      '(a, r) ← getBs r;
      '(o, r) ← getBs r;
      '(u, r) ← getBs r;
      '(cm, _) ← getBs r;
      Some (mkUserAccountData n bal ch rh a dr o u cm)
  | _ => None
  end.

Definition exEnv (autoBalance : bool) : accountsEnv :=
  mkAccountsEnv (exData autoBalance) (fun d => Some (putAccountData d)) getAccountData
    (fun e => Some (NumReferences e :: Code e))
    (fun b => match b with n :: c => Some (mkCodeEntry c n) | [] => None end).

Definition exKey (k : bytes) : Prop := isBytes k /\ head k <> Some 255.

Lemma getBs_last b : getBs (putBs b) = Some (b, []).
Proof. rewrite <- (app_nil_r (putBs b)). apply getBs_put. Qed.

Lemma leaf_back l : getLeaf (putLeaf l) = Some l.
Proof.
  unfold getLeaf, putLeaf. rewrite getBs_put. cbn [mbind option_bind]. rewrite getBs_put. cbn [mbind option_bind].
  rewrite getBs_last. by destruct l.
Qed.

Lemma account_back d : getAccountData (putAccountData d) = Some d.
Proof.
  unfold getAccountData, putAccountData. cbn [app].
  repeat (rewrite getBs_put; cbn [mbind option_bind]). rewrite getBs_last. by destruct d.
Qed.

Lemma exHash_bytes k : isBytes (exHash k).
Proof.
  unfold exHash. constructor; [unfold isByte; lia|]. apply Forall_forall. intros b (x & -> & _)%list_elem_of_fmap.
  apply Z.mod_pos_bound. lia.
Qed.

Lemma exHash_inj k1 k2 : isBytes k1 -> isBytes k2 -> exHash k1 = exHash k2 -> k1 = k2.
Proof.
  intros H1 H2 [= E]. revert k2 H2 E. induction H1 as [|b k1 Hb _ IH]; intros [|b' k2] H2 E; try done.
  injection E as Eb E. inversion H2 as [|? ? Hb' H2']; subst. unfold isByte in *. rewrite !Z.mod_small in Eb by done.
  f_equal; [done|by apply IH].
Qed.

#[export] Instance exDataLaws b : DataLaws (exData b) exKey.
Proof.
  split.
  - by intros k [? _].
  - apply exHash_bytes.
  - done.
  - intros k1 k2 [H1 _] [H2 _]. by apply exHash_inj.
  - intros k1 k2 _ [_ Hk] E. apply Hk. by rewrite <- E.
  - intros l. exists (putLeaf l). split; [done|]. split; [done|]. apply leaf_back.
Qed.

Definition alice : bytes := [1; 1].
Definition bob : bytes := [2; 2].
Definition exAddresses : gset bytes := {[ alice; bob ]}.

#[export] Instance exLaws b : AccountsLaws (exEnv b) exKey exAddresses (fun _ => True).
Proof.
  split.
  - apply exDataLaws.
  - intros a Ha. assert (a = alice \/ a = bob) as [->| ->] by set_solver; split; try done; forall_bounds.
  - by vm_compute.
  - intros a c Ha _ E. assert (a = alice \/ a = bob) as [->| ->] by set_solver; done.
  - intros d _. exists (putAccountData d). split; [done|]. split; [done|]. apply account_back.
  - intros e _. exists (NumReferences e :: Code e). split; [done|]. split; [done|]. by destruct e.
Qed.

(** Nothing has been stored yet. *)
Definition noneStored : StoredMaps := fun _ => False.
#[local] Existing Instance noneStored.

(** ** The empty database *)

Definition exAdb : AccountsDB PMT := createAccountsDb emptyTrie.

Lemma ex_holds : holds emptyTrie ∅.
Proof.
  change (trieInv emptyTrie ∅). split.
  - by apply (NewTrie_rep (C := exCodec) exStorage 5 emptyTrie).
  - intros k v H. simpl in H. unfold exStorage in H. by rewrite lookup_empty in H.
Qed.

Lemma ex_invariant b : invariant (exEnv b) exKey exAddresses (fun _ => True) exAdb (createAccountsDb ∅).
Proof.
  split; [split; try done|].
  - intros l. simpl. rewrite !lookup_empty. constructor.
  - split; [split; apply map_Forall_empty|]. exists ∅, ∅. split; [split; [|split; apply map_Forall_empty]|].
    + simpl. unfold mainMap. by rewrite !fmap_empty, (left_id_L ∅ (∪)).
    + intros h _. done.
Qed.

(** ** A run

    Alice's account gets a balance and a code, then a snapshot is taken.  Bob's account is
    created with data, and Alice's is removed. *)
Definition exE : accountsEnv := exEnv true.
Definition exOrder : gmap bytes dirtyData -> list (bytes * dirtyData) := map_to_list.
Definition exTries : gmap bytes nat -> list nat := fun d => (map_to_list d).*2.
Definition kSeven : bytes := [7].

Definition exAlice : userAccount :=
  mkUserAccount (mkUserAccountData 0 0 [] [] alice 0 [] [] []) (NewTrackableDataTrie alice) [] false.
Definition exAlice' : userAccount := SetCode [9] (onFields (withBalance 5) exAlice).
Definition exBob : userAccount :=
  mkUserAccount (mkUserAccountData 0 0 [] [] bob 0 [] [] []) (NewTrackableDataTrie bob) [] false.
Definition exBob' : userAccount := setTracked (set_dirty {[ kSeven := mkDirty [1] 1 ]} (NewTrackableDataTrie bob)) exBob.

Definition exA1 := fst (LoadAccount exE alice exAdb).
Definition exA2 := set_accounts (<[0%nat := exAlice']> (accounts exA1)) exA1.
Definition exA3 := fst (SaveAccount exE exOrder 0 exA2).
Definition exA4 := fst (LoadAccount exE bob exA3).
Definition exA5 := set_accounts (<[1%nat := exBob']> (accounts exA4)) exA4.
Definition exA6 := fst (SaveAccount exE exOrder 1 exA5).
Definition exA7 := fst (RemoveAccount exE 10 alice exA6).

Notation exStep := (step exE exKey exAddresses (fun _ => True)).
Notation exRunTo := (run exE exKey exAddresses (fun _ => True)).

Lemma pair_ok {A B C} (x : A * (B + C)) c : snd x = inr c -> x = (fst x, inr c).
Proof. destruct x; simpl. by intros ->. Qed.

Lemma ex_order : orderOf exOrder.
Proof. intros d; reflexivity. Qed.

Lemma ex_load a s r : a ∈ exAddresses -> canLoad exE exKey s a -> snd (LoadAccount exE a s) = inr r ->
  exStep s (fst (LoadAccount exE a s)).
Proof. intros Ha Hl Hr. by apply (step_load _ _ _ _ a s _ r Ha Hl), pair_ok. Qed.

Lemma ex_save (r : nat) (acc : userAccount) s : accounts s !! r = Some acc -> freshCode exE s acc ->
  snd (SaveAccount exE exOrder r s) = inr tt -> exStep s (fst (SaveAccount exE exOrder r s)).
Proof. intros Ha Hf Hr. by apply (step_save _ _ _ _ exOrder r acc s _ ex_order Ha Hf), pair_ok. Qed.

Lemma ex_remove depth a s : a ∈ exAddresses -> snd (RemoveAccount exE depth a s) = inr tt ->
  exStep s (fst (RemoveAccount exE depth a s)).
Proof. intros Ha Hr. by apply (step_remove _ _ _ _ depth a s _ Ha), pair_ok. Qed.

Lemma ex_client (r : nat) (acc acc' : userAccount) (s : AccountsDB PMT) : accounts s !! r = Some acc -> clientChange exE exKey (fun _ => True) acc acc' ->
  exStep s (set_accounts (<[r := acc']> (accounts s)) s).
Proof. apply step_client. Qed.

Lemma ex_step1 : exStep exAdb exA1.
Proof.
  unfold exA1. apply (ex_load alice exAdb 0%nat); [set_solver| |vm_compute; reflexivity].
  intros acc E. vm_compute in E. discriminate E.
Qed.

Lemma ex_step2 : exStep exA1 exA2.
Proof.
  unfold exA2. apply (ex_client 0 exAlice exAlice'); [vm_compute; reflexivity|].
  split; [done|]. split; [done|]. split; [apply map_Forall_empty|done].
Qed.

Lemma ex_step3 : exStep exA2 exA3.
Proof.
  unfold exA3. apply (ex_save 0 exAlice'); [vm_compute; reflexivity| |vm_compute; reflexivity].
  intros old _ Hn. discriminate Hn.
Qed.

Lemma ex_step4 : exStep exA3 exA4.
Proof.
  unfold exA4. apply (ex_load bob exA3 1%nat); [set_solver| |vm_compute; reflexivity].
  intros acc E. vm_compute in E. discriminate E.
Qed.

Lemma ex_kSeven : exKey kSeven.
Proof. split; [forall_bounds|done]. Qed.

Lemma ex_step5 : exStep exA4 exA5.
Proof.
  unfold exA5. apply (ex_client 1 exBob exBob'); [vm_compute; reflexivity|]. split; [done|]. split; [done|]. split; [|done].
  simpl. apply map_Forall_singleton. split; [apply ex_kSeven|done].
Qed.

Lemma ex_step6 : exStep exA5 exA6.
Proof.
  unfold exA6. apply (ex_save 1 exBob'); [vm_compute; reflexivity| |vm_compute; reflexivity].
  intros old E _. vm_compute in E. injection E as <-. reflexivity.
Qed.

Lemma ex_step7 : exStep exA6 exA7.
Proof. unfold exA7. apply ex_remove; [set_solver|vm_compute; reflexivity]. Qed.

Lemma ex_run0 : exRunTo exAdb exA3.
Proof. apply (run_step _ _ _ _ _ exA2), ex_step3. apply (run_step _ _ _ _ _ exA1), ex_step2. eapply run_step, ex_step1. apply run_refl. Qed.

Lemma ex_run06 : exRunTo exAdb exA6.
Proof.
  apply (run_step _ _ _ _ _ exA5), ex_step6. apply (run_step _ _ _ _ _ exA4), ex_step5. eapply run_step, ex_step4. apply ex_run0.
Qed.

Lemma ex_run1 : exRunTo exA3 exA7.
Proof.
  apply (run_step _ _ _ _ _ exA6), ex_step7. apply (run_step _ _ _ _ _ exA5), ex_step6.
  apply (run_step _ _ _ _ _ exA4), ex_step5. eapply run_step, ex_step4. apply run_refl.
Qed.
End AccountsEx.
