(* ===== verification/AccountsTheorems.v ===== *)
(** * The theorems about the accounts database and its journal. *)

From stdpp Require Import base list gmap.
From Stdlib Require Import ZArith Lia.
From S2P Require Import Prelude TrieNode TrieOps PatriciaMerkleTrie TrieMap TrieRun TrieExample CommonTrie TrackableDataTrie UserAccount AccountsDB.
From S2P Require Import TrackableSpec AccountsSim AccountsUndo AccountsCodes AccountsRun.
From S2P Require Import AccountsRevert AccountsExample.

(** ** The database *)

Section Theorems.
Context {T : Type} `{CT : CommonTrie T} `{CL : !CommonTrieLaws T} `{SM : StoredMaps}.
Variable env : accountsEnv.
Variable storageKey : bytes -> Prop.
Variable addresses : gset bytes.
Variable isCode : bytes -> Prop.
Context `{AL : !AccountsLaws env storageKey addresses isCode}.

Notation invariant := (invariant (T := T) env storageKey addresses isCode).
Notation leadsBack := (leadsBack (T := T) env storageKey addresses isCode).

(** A database that was opened on a main trie with accounts and the codes they use. *)
Definition opened (s : AccountsDB T) : Prop := exists t accts codes,
  s = createAccountsDb t /\ holds t (mainMap env accts codes) /\ acctsOk addresses accts /\ codesOk env isCode codes /\
  refsOk accts codes /\ (forall m, storedMaps m -> persisted t m).

Lemma opened_invariant s : opened s -> exists g, invariant s g.
Proof.
  intros (t & accts & codes & -> & Ht & HA & HC & HR & Hst). exists (createAccountsDb (mainMap env accts codes)).
  split; [split; try done; intros l; simpl; rewrite !lookup_empty; constructor|].
  split; [split; apply map_Forall_empty|]. exists accts, codes. by split.
Qed.

Lemma run_invariant s g s' : invariant s g -> run env storageKey addresses isCode s s' -> exists g', invariant s' g' /\ leadsBack g s' g'.
Proof.
  intros Hi Hrun. destruct (run_inv env storageKey addresses isCode s g s' Hi Hrun) as (g' & HB & Hi').
  exists g'. split; [|done]. split; [apply HB|done].
Qed.

Lemma rootHash_snd (s : AccountsDB T) g h : sim s g -> rootOf (mainTrie g) h -> snd (accountsRootHash s) = inr h.
Proof.
  intros Hs Hh. destruct (rootHash_run s g Hs) as (s' & h' & -> & _ & Hh'). simpl. f_equal. by eapply rootOf_fun.
Qed.

(** C11: Whatever calls load, change, save or remove accounts after JournalLen gave a
    snapshot other than 0, with returns to later snapshots among them, and even
    when a RemoveAccount failed last, RevertToSnapshot succeeds and gives back the
    main trie, its root hash, the journal and the data tries of that moment. *)
Theorem revert_restores s0 s s1 s' n :
  opened s0 -> run env storageKey addresses isCode s0 s -> JournalLen s = (s, inr n) -> n <> 0 ->
  run env storageKey addresses isCode s s1 ->
  s' = s1 \/ (exists depth a e, a ∈ addresses /\ RemoveAccount env depth a s1 = (s', inl e)) ->
  exists s2 m h, RevertToSnapshot env n s' = (s2, inr tt) /\
    holds (mainTrie s) m /\ holds (mainTrie s2) m /\
    snd (accountsRootHash s) = inr h /\ snd (accountsRootHash s2) = inr h /\
    entries s2 = entries s /\ lastRootHash s2 = lastRootHash s /\
    (forall l t, tries s !! l = Some t -> exists t2 d, tries s2 !! l = Some t2 /\ holds t d /\ holds t2 d).
Proof.
  intros Hopen Hrun0 [= <-] Hn Hrun Hlast. destruct (opened_invariant s0 Hopen) as [g0 Hi0].
  destruct (run_invariant s0 g0 s Hi0 Hrun0) as (g & Hi & _). destruct (run_invariant s g s1 Hi Hrun) as (g1 & Hi1 & HB1).
  assert (HB : exists g', leadsBack g s' g').
  { destruct Hlast as [->|(depth & a & e & Ha & E)]; [by exists g1|].
    destruct (RemoveAccount_run env storageKey addresses isCode depth a s1 g1 Hi1 Ha)
      as (s2 & res & g' & G & E2 & Hs2 & Hok2 & Hent & Hroot & HU & _).
    rewrite E in E2. injection E2 as -> _. exists g'. eapply leadsBack_trans; [exact HB1|].
    split; [done|]. split; [done|]. split; [done|]. by exists G. }
  destruct HB as [g' HB]. assert (Hne : entries s <> []) by (intros E; by rewrite E in Hn).
  destruct (revert_run env storageKey addresses isCode s g s' g' Hi HB Hne)
    as (s2 & g2 & E2 & Hs2 & Em & Hok2 & Hle & Hent & Hroot).
  pose proof (proj1 Hi) as Hs. destruct (rootHash_run s g Hs) as (_ & h & _ & _ & Hh).
  exists s2, (mainTrie g), h. split; [done|]. split; [apply Hs|]. split; [rewrite <- Em; apply Hs2|].
  split; [by eapply rootHash_snd|]. split; [eapply rootHash_snd; [exact Hs2|by rewrite Em]|].
  split; [by rewrite (sim_entries _ _ Hs2), (sim_entries _ _ Hs)|].
  split; [by rewrite (sim_root _ _ Hs2), (sim_root _ _ Hs)|]. intros l t Et.
  pose proof (sim_tries _ _ Hs l) as Hl. rewrite Et in Hl. inversion Hl as [? d [Hd _] E1 E|]; subst. symmetry in E.
  destruct (triesSim_lookup _ _ _ _ _ (sim_tries _ _ Hs2) (lookup_weaken _ _ _ _ E (proj1 Hle))) as (t2 & Et2 & Ht2 & _).
  by exists t2, d.
Qed.

(** C24: At any moment each code of the main trie counts the accounts that have it, of
    which there is one at least, and the code of every account is there. *)
Theorem codes_counted s0 s : opened s0 -> run env storageKey addresses isCode s0 s ->
  exists accts codes, holds (mainTrie s) (mainMap env accts codes) /\ acctsOk addresses accts /\
    (forall h e, codes !! h = Some e -> NumReferences e = users accts h /\ 1 <= users accts h) /\
    (forall a d, accts !! a = Some d -> CodeHash d <> [] -> is_Some (codes !! CodeHash d)).
Proof.
  intros Hopen Hrun. destruct (opened_invariant s0 Hopen) as [g0 Hi0].
  destruct (run_invariant s0 g0 s Hi0 Hrun) as (g & [Hs (_ & accts & codes & (Hg & HA & HC) & HR)] & _).
  exists accts, codes. split; [rewrite <- Hg; apply Hs|]. split; [done|]. split.
  - intros h e E. destruct (HC _ _ E) as [Hh He].
    assert (Er : codeRefs codes h = users accts h) by by apply HR, (codeHash_notEmpty env storageKey addresses isCode).
    unfold codeRefs in Er. rewrite E in Er. split; [done|lia].
  - intros a d E Hne. pose proof (oldHash_known env isCode accts codes a HC HR) as Hk. rewrite E in Hk. by apply Hk.
Qed.

(** ** Commit *)

(** An order in which the data tries are committed. *)
Definition commitOrder (order : gmap bytes nat -> list nat) : Prop := forall d, order d ≡ₚ (map_to_list d).*2.

Lemma commit_invariant s g order : invariant s g -> commitOrder order ->
  exists s' h, commit order s = (s', inr h) /\ sim s' (cleared g h) /\ rootOf (mainTrie g) h /\
    mapInv env storageKey addresses isCode (cleared g h) /\ persisted (mainTrie s') (mainTrie g) /\
    (forall a l m, dataTries g !! a = Some l -> tries g !! l = Some m -> persisted (mainTrie s') m).
Proof.
  intros [Hs [Hok Hm]] Ho. destruct (commit_run order s g Hs (heap_holder _ _ _ _ _ Hok) Ho) as (s' & h & E & Hs' & Hro & Hp & Hd).
  exists s', h. split; [done|]. split; [done|]. split; [done|]. split; [|done].
  split; [|exact Hm]. destruct Hok. split; [done|done|apply map_Forall_empty].
Qed.

(** Commit succeeds, gives the root hash of the main trie, and puts in the storage
    the main trie and every data trie of the holder; the journal is empty then. *)
Theorem commit_persists s0 s order : opened s0 -> run env storageKey addresses isCode s0 s -> commitOrder order ->
  exists s' m h, commit order s = (s', inr h) /\ snd (accountsRootHash s) = inr h /\ lastRootHash s' = h /\
    holds (mainTrie s) m /\ holds (mainTrie s') m /\ persisted (mainTrie s') m /\
    entries s' = [] /\ dataTries s' = ∅ /\
    (forall a l t, dataTries s !! a = Some l -> tries s !! l = Some t -> exists d, holds t d /\ persisted (mainTrie s') d).
Proof.
  intros Hopen Hrun Ho. destruct (opened_invariant s0 Hopen) as [g0 Hi0]. destruct (run_invariant s0 g0 s Hi0 Hrun) as (g & Hi & _).
  destruct (commit_invariant s g order Hi Ho) as (s' & h & E & Hs' & Hro & _ & Hp & Hd). pose proof (proj1 Hi) as Hs.
  exists s', (mainTrie g), h. split; [done|]. split; [by eapply rootHash_snd|]. split; [by rewrite (sim_root _ _ Hs')|].
  split; [apply Hs|]. split; [apply (sim_main _ _ Hs')|]. split; [done|]. split; [by rewrite (sim_entries _ _ Hs')|].
  split; [by rewrite (sim_holder _ _ Hs')|]. intros a l t Ea Et. rewrite (sim_holder _ _ Hs) in Ea.
  pose proof (sim_tries _ _ Hs l) as Hl. rewrite Et in Hl. inversion Hl as [? d [Ht _] E1 Ed|]; subst. symmetry in Ed.
  exists d. split; [done|]. by eapply Hd.
Qed.

(** RevertToSnapshot(0), after any calls that follow a commit, succeeds and gives
    back the main trie that was committed, with an empty journal and no data trie. *)
Theorem revert_to_last_commit s0 s sc s' order h : opened s0 -> run env storageKey addresses isCode s0 s -> commitOrder order ->
  commit order s = (sc, inr h) ->
  run (SM := fun m => persisted (mainTrie sc) m) env storageKey addresses isCode sc s' ->
  exists s2 m, RevertToSnapshot env 0 s' = (s2, inr tt) /\ holds (mainTrie s) m /\ holds (mainTrie s2) m /\
    snd (accountsRootHash s2) = inr h /\ entries s2 = [] /\ dataTries s2 = ∅.
Proof.
  intros Hopen Hrun Ho Hc Hrun2. destruct (opened_invariant s0 Hopen) as [g0 Hi0].
  destruct (run_invariant s0 g0 s Hi0 Hrun) as (g & Hi & _).
  destruct (commit_invariant s g order Hi Ho) as (sc' & h' & E & Hsc & Hro & Hic & Hp & _). rewrite Hc in E. injection E as <- <-.
  set (SM2 := (fun m => persisted (mainTrie sc) m) : StoredMaps).
  assert (Hi2 : AccountsRun.invariant (SM := SM2) env storageKey addresses isCode sc (cleared g h)).
  { split; [|done]. destruct Hsc. by split. }
  destruct (run_inv (SM := SM2) env storageKey addresses isCode sc (cleared g h) s' Hi2 Hrun2) as (g' & (Hs' & _ & Hroot & _) & _).
  destruct (revert_zero (SM := SM2) env s' g' (mainTrie g) Hs' Hp) as (s2 & E2 & Hs2); [by rewrite Hroot|].
  exists s2, (mainTrie g). split; [done|]. split; [apply Hi|]. split; [apply (sim_main _ _ Hs2)|].
  destruct (rootHash_run (SM := SM2) s2 _ Hs2) as (s3 & h3 & -> & _ & Hh3). split; [simpl; f_equal; by eapply rootOf_fun|].
  split; [by rewrite (sim_entries _ _ Hs2)|by rewrite (sim_holder _ _ Hs2)].
Qed.
End Theorems.

(** ** The data of an account *)

Section Data.
Context {T : Type} `{CT : CommonTrie T} `{CL : !CommonTrieLaws T}.
Variable env : dataEnv.
Variable storageKey : bytes -> Prop.
Context `{DL : !DataLaws env storageKey}.
Variable id : bytes.

(** The data trie of an account: its leaves have the keys and the identifier. *)
Definition dataTrie (t : T) (m : kvmap) : Prop := holds t m /\ dataOk env storageKey m /\ leavesOk env storageKey id m.

(** The dirty data, in an order in which the map may be walked. *)
Definition dirtyIn (d : gmap bytes dirtyData) (es : list (bytes * dirtyData)) : Prop :=
  es ≡ₚ map_to_list d /\ map_Forall (fun k dd => entryOk env storageKey (k, dd)) d.

Lemma dirtyIn_entries d es : dirtyIn d es -> Forall (entryOk env storageKey) es /\ NoDup es.*1 /\ Forall (fun e => storageKey e.1) es.
Proof.
  intros [Hp Hd]. assert (He : Forall (entryOk env storageKey) es).
  { rewrite Hp. apply Forall_forall. intros [k dd] Hin%elem_of_map_to_list. by apply (Hd k dd). }
  split; [done|]. split; [rewrite Hp; apply NoDup_fst_map_to_list|]. eapply Forall_impl; [exact He|]. by intros e [].
Qed.

Lemma RetrieveValue_run t m k : dataTrie t m -> storageKey k ->
  exists t', RetrieveValue env (NewTrackableDataTrie id) k t = (t', inr (valueAt env id m k)).
Proof.
  intros (Ht & Hm & Hl) Hk.
  assert (Hrun : does (RetrieveValue env (NewTrackableDataTrie id) k) m (valueAt env id m k) m).
  { eapply does_bind; [by apply (retrieve_does env storageKey)|]. by apply (getValue_does env storageKey). }
  destruct (Hrun t Ht) as (t' & E & _). by exists t'.
Qed.

(** C25: Once the dirty data of an account are saved in its data trie, in whatever order,
    RetrieveValue gives the value that was set last for a key that was set, and for
    any other key the value it gave before. *)
Theorem saved_data_read t m d es k : dataTrie t m -> dirtyIn d es -> storageKey k ->
  exists t1 us t0 t2 v, updateTrie env id es t = (t1, inr us) /\
    RetrieveValue env (NewTrackableDataTrie id) k t = (t0, inr v) /\
    RetrieveValue env (NewTrackableDataTrie id) k t1 =
      (t2, inr (match d !! k with Some dd => ddValue dd | None => v end)).
Proof.
  intros Hd Hes Hk. pose proof Hd as (Ht & Hm & Hl). destruct (dirtyIn_entries d es Hes) as (He & Hnd & Hks).
  destruct (updateTrie_does env storageKey id m es Hm He t Ht) as (t1 & E1 & Ht1 & _).
  destruct (RetrieveValue_run t m k Hd Hk) as (t0 & E0).
  destruct (RetrieveValue_run t1 (putAll env id m es) k) as (t2 & E2); [|done|].
  { split; [done|]. split; [by apply dataOk_putAll|by apply leavesOk_putAll]. }
  exists t1, (undoOf env id m es), t0, t2, (valueAt env id m k). split; [done|]. split; [done|].
  rewrite E2, (valueAt_putAll env storageKey) by done. unfold lookupEntry.
  assert (Ed : (list_to_map es : gmap bytes dirtyData) = d).
  { rewrite (list_to_map_proper es (map_to_list d)); [apply list_to_map_to_list|done|apply Hes]. }
  rewrite Ed. by destruct (d !! k).
Qed.

(** The order in which the map of the dirty data is walked does not matter: the
    data trie has the same root hash. *)
Theorem save_order_irrelevant t m d es1 es2 : dataTrie t m -> dirtyIn d es1 -> dirtyIn d es2 ->
  exists t1 us1 t2 us2 h, updateTrie env id es1 t = (t1, inr us1) /\ updateTrie env id es2 t = (t2, inr us2) /\
    snd (trRootHash t1) = inr h /\ snd (trRootHash t2) = inr h.
Proof.
  intros (Ht & Hm & Hl) H1 H2. destruct (dirtyIn_entries d es1 H1) as (He1 & Hnd1 & Hk1).
  destruct (dirtyIn_entries d es2 H2) as (He2 & _). assert (Hp : es1 ≡ₚ es2) by (rewrite (proj1 H1); symmetry; apply H2).
  destruct (updateTrie_does env storageKey id m es1 Hm He1 t Ht) as (t1 & E1 & Ht1 & _).
  destruct (updateTrie_does env storageKey id m es2 Hm He2 t Ht) as (t2 & E2 & Ht2 & _).
  rewrite (putAll_perm env storageKey id es1 es2 m Hp Hnd1 Hk1) in Ht1.
  destruct (rootHash_law t1 _ Ht1) as (t1' & h & R1 & Hh & _). destruct (rootHash_law t2 _ Ht2) as (t2' & h' & R2 & Hh' & _).
  exists t1, (undoOf env id m es1), t2, (undoOf env id m es2), h. rewrite R1, R2. split; [done|]. split; [done|].
  split; [done|]. simpl. f_equal. by eapply rootOf_fun.
Qed.
End Data.

(** ** Where the code does not do what it means to *)

Section Divergences.
Import TrieEx AccountsEx.

(** An account that the owner of a database makes: bob's, with a value under a key. *)
Definition bobWith (v : bytes) (s : AccountsDB PMT) : AccountsDB PMT :=
  let (s1, r) := LoadAccount exE bob s in
  match r with
  | inl _ => s1
  | inr ref => fst (SaveAccount exE exOrder ref (fst (accountSaveKeyValue exE ref kSeven v s1)))
  end.

(** An account that is created with data, taken back by RevertToSnapshot and created
    again with data loses them: the holder keeps the data trie of the account that
    was taken back, so that loading the account gives that trie, and commit stores
    it instead of the new one; after the commit the account cannot be loaded. *)
Theorem recreated_account_is_lost :
  exists s n ref root,
    snd (JournalLen s) = inr n /\ n = 2 /\
    (let s1 := fst (RevertToSnapshot exE n (bobWith [1] s)) in
     let s2 := bobWith [2] s1 in
     let (s3, r) := LoadAccount exE bob s2 in
     r = inr ref /\ snd (accountRetrieveValue exE ref kSeven s3) = inr [] /\
     snd (commit exTries s2) = inr root /\
     snd (LoadAccount exE bob (fst (commit exTries s2))) = inl (ErrTrie ErrGetNodeFromDB)).
Proof.
  exists exA3, 2, 3%nat, (match snd (commit exTries (bobWith [2] (fst (RevertToSnapshot exE 2 (bobWith [1] exA3))))) with inr h => h | inl _ => [] end).
  split; [vm_compute; reflexivity|]. split; [reflexivity|]. vm_compute. repeat split; reflexivity.
Qed.

(** The dirty data of a key and of the key that is its hash. *)
Definition kHash : bytes := exHash kSeven.
Definition dirtyPair : gmap bytes dirtyData := <[kHash := mkDirty [2] 1]> {[ kSeven := mkDirty [1] 1 ]}.

(** When one of the keys that are saved is the hash of another one, the order in which
    the map of the dirty data is walked decides what is saved: in one order the
    value of the second key is deleted (RetrieveValue gives nothing), in the other
    it stays, and the root hashes differ. *)
Theorem save_order_matters :
  exists es1 es2 t1 us1 t2 us2 h1 h2,
    es1 ≡ₚ map_to_list dirtyPair /\ es2 ≡ₚ map_to_list dirtyPair /\
    updateTrie (exData true) bob es1 emptyTrie = (t1, inr us1) /\ updateTrie (exData true) bob es2 emptyTrie = (t2, inr us2) /\
    snd (RetrieveValue (exData true) (NewTrackableDataTrie bob) kSeven t1) = inr [] /\
    snd (RetrieveValue (exData true) (NewTrackableDataTrie bob) kSeven t2) = inr [1] /\
    snd (trRootHash t1) = inr h1 /\ snd (trRootHash t2) = inr h2 /\ h1 <> h2.
Proof.
  pose (es1 := [(kSeven, mkDirty [1] 1); (kHash, mkDirty [2] 1)]). pose (es2 := [(kHash, mkDirty [2] 1); (kSeven, mkDirty [1] 1)]).
  pose (x1 := updateTrie (exData true) bob es1 emptyTrie). pose (x2 := updateTrie (exData true) bob es2 emptyTrie).
  exists es1, es2, (fst x1), (match snd x1 with inr us => us | inl _ => [] end), (fst x2), (match snd x2 with inr us => us | inl _ => [] end),
    (match snd (trRootHash (fst x1)) with inr h => h | inl _ => [] end), (match snd (trRootHash (fst x2)) with inr h => h | inl _ => [] end).
  assert (Hp : es2 ≡ₚ map_to_list dirtyPair).
  { unfold dirtyPair. rewrite map_to_list_insert by (vm_compute; reflexivity). by rewrite map_to_list_singleton. }
  split; [rewrite <- Hp; apply perm_swap|]. split; [exact Hp|].
  repeat (split; [vm_compute; reflexivity|]). vm_compute. discriminate.
Qed.
End Divergences.

(** ** Instances *)

Module AccountsInstances.
Import TrieEx AccountsEx.
#[local] Existing Instance noneStored.

Lemma ex_opened : opened exE exAddresses (fun _ => True) exAdb.
Proof.
  exists emptyTrie, ∅, ∅. split; [done|]. split.
  { unfold mainMap. rewrite !fmap_empty, (left_id_L ∅ (∪)). apply ex_holds. }
  split; [apply map_Forall_empty|]. split; [apply map_Forall_empty|]. split; [intros h _; done|done].
Qed.

(** Alice's account is saved, then bob's is made and alice's removed, and all that is
    taken back. *)
Lemma revert_restores_witness :
  exists s2 m h, RevertToSnapshot exE 2 exA7 = (s2, inr tt) /\ holds (mainTrie exA3) m /\ holds (mainTrie s2) m /\
    snd (accountsRootHash exA3) = inr h /\ snd (accountsRootHash s2) = inr h /\
    entries s2 = entries exA3 /\ lastRootHash s2 = lastRootHash exA3 /\
    (forall l t, tries exA3 !! l = Some t -> exists t2 d, tries s2 !! l = Some t2 /\ holds t d /\ holds t2 d).
Proof.
  apply (revert_restores exE exKey exAddresses (fun _ => True) exAdb exA3 exA7 exA7 2);
    [apply ex_opened|apply ex_run0|reflexivity|discriminate|apply ex_run1|by left].
Defined.

Lemma codes_counted_witness :
  exists accts codes, holds (mainTrie exA7) (mainMap exE accts codes) /\ acctsOk exAddresses accts /\
    (forall h e, codes !! h = Some e -> NumReferences e = users accts h /\ 1 <= users accts h) /\
    (forall a d, accts !! a = Some d -> CodeHash d <> [] -> is_Some (codes !! CodeHash d)).
Proof.
  apply (codes_counted exE exKey exAddresses (fun _ => True) exAdb exA7); [apply ex_opened|].
  apply (run_step _ _ _ _ _ exA6), ex_step7. apply ex_run06.
Defined.

Lemma ex_tries : commitOrder exTries.
Proof. intros d. reflexivity. Qed.

Lemma commit_persists_witness :
  exists s' m h, commit exTries exA6 = (s', inr h) /\ snd (accountsRootHash exA6) = inr h /\ lastRootHash s' = h /\
    holds (mainTrie exA6) m /\ holds (mainTrie s') m /\ persisted (mainTrie s') m /\
    entries s' = [] /\ dataTries s' = ∅ /\
    (forall a l t, dataTries exA6 !! a = Some l -> tries exA6 !! l = Some t -> exists d, holds t d /\ persisted (mainTrie s') d).
Proof.
  apply (commit_persists exE exKey exAddresses (fun _ => True) exAdb exA6 exTries); [apply ex_opened|apply ex_run06|apply ex_tries].
Defined.

Definition exCommitted := fst (commit exTries exA6).
Definition exRoot : bytes := match snd (commit exTries exA6) with inr h => h | inl _ => [] end.
Definition exAfter := fst (RemoveAccount exE 10 alice exCommitted).

(** Alice's account is removed after the commit, and that is taken back. *)
Lemma revert_to_last_commit_witness :
  exists s2 m, RevertToSnapshot exE 0 exAfter = (s2, inr tt) /\ holds (mainTrie exA6) m /\ holds (mainTrie s2) m /\
    snd (accountsRootHash s2) = inr exRoot /\ entries s2 = [] /\ dataTries s2 = ∅.
Proof.
  apply (revert_to_last_commit exE exKey exAddresses (fun _ => True) exAdb exA6 exCommitted exAfter exTries exRoot);
    [apply ex_opened|apply ex_run06|apply ex_tries| |].
  - apply (pair_ok (commit exTries exA6)). vm_compute. reflexivity.
  - eapply run_step; [apply run_refl|]. apply (step_remove (SM := fun m => persisted (mainTrie exCommitted) m) _ _ _ _ 10%nat alice); [set_solver|].
    apply (pair_ok (RemoveAccount exE 10 alice exCommitted)). vm_compute. reflexivity.
Defined.

(** The data trie that bob's account has after a first value, and two more values. *)
Definition exDirty : gmap bytes dirtyData := <[[8] := mkDirty [4] 1]> {[ kSeven := mkDirty [1] 1 ]}.
Definition exEntries : list (bytes * dirtyData) := [([8], mkDirty [4] 1); (kSeven, mkDirty [1] 1)].

Lemma ex_dataTrie : dataTrie (exData true) exKey bob emptyTrie ∅.
Proof. split; [apply ex_holds|]. split; [apply dataOk_empty|]. intros k v vr E. by rewrite lookup_empty in E. Qed.

Lemma ex_dirtyIn : dirtyIn (exData true) exKey exDirty exEntries.
Proof.
  split.
  - unfold exDirty. rewrite map_to_list_insert by (vm_compute; reflexivity). by rewrite map_to_list_singleton.
  - unfold exDirty. apply map_Forall_insert_2; [split; [split; [forall_bounds|done]|done]|].
    apply map_Forall_singleton. split; [apply ex_kSeven|done].
Qed.

Lemma ex_dirtyIn_rev : dirtyIn (exData true) exKey exDirty (rev exEntries).
Proof. split; [|apply ex_dirtyIn]. rewrite <- (proj1 ex_dirtyIn). apply perm_swap. Qed.

Lemma saved_data_read_witness :
  exists t1 us t0 t2 v, updateTrie (exData true) bob exEntries emptyTrie = (t1, inr us) /\
    RetrieveValue (exData true) (NewTrackableDataTrie bob) kSeven emptyTrie = (t0, inr v) /\
    RetrieveValue (exData true) (NewTrackableDataTrie bob) kSeven t1 =
      (t2, inr (match exDirty !! kSeven with Some dd => ddValue dd | None => v end)).
Proof. apply (saved_data_read (exData true) exKey bob emptyTrie ∅); [apply ex_dataTrie|apply ex_dirtyIn|apply ex_kSeven]. Defined.

Lemma save_order_irrelevant_witness :
  exists t1 us1 t2 us2 h, updateTrie (exData true) bob exEntries emptyTrie = (t1, inr us1) /\
    updateTrie (exData true) bob (rev exEntries) emptyTrie = (t2, inr us2) /\
    snd (trRootHash t1) = inr h /\ snd (trRootHash t2) = inr h.
Proof. apply (save_order_irrelevant (exData true) exKey bob emptyTrie ∅ exDirty); [apply ex_dataTrie|apply ex_dirtyIn|apply ex_dirtyIn_rev]. Defined.
End AccountsInstances.
