(* ===== verification/FeeHandler.v ===== *)
(** * The accumulator of fees: process/block/postprocess/feeHandler.go.

    Its operations, and what they do to the totals: the totals are what the block started
    with and the fees that are recorded under the hashes of the transactions, so that
    reverting transactions takes back exactly what they paid. *)

From stdpp Require Import base list gmap.
From Stdlib Require Import ZArith Lia.
From S2P Require Import Prelude.

Record feeData := mkFeeData { cost : Z; devFee : Z }.

(** The hashes of the user transactions by their relayed transactions, the fees by hash, and
    the two totals. *)
Record feeHandler := mkFeeHandler {
  mapDependentHashes : gmap bytes bytes;
  mapHashFee : gmap bytes feeData;
  accumulatedFees : Z;
  developerFees : Z;
}.

Definition NewFeeAccumulator : feeHandler := mkFeeHandler ∅ ∅ 0 0.

(** The totals that a block starts with may be nil. *)
Definition CreateBlockStarted (AccumulatedFees DeveloperFees : option Z) (f : feeHandler) : feeHandler :=
  mkFeeHandler ∅ ∅ (default 0 AccumulatedFees) (default 0 DeveloperFees).

Definition GetAccumulatedFees (f : feeHandler) : Z := accumulatedFees f.
Definition GetDeveloperFees (f : feeHandler) : Z := developerFees f.

(** A cost that is nil or negative is logged and ignored. *)
Definition processTransactionFee (cost' : option Z) (devFee' : Z) (txHash : bytes) (f : feeHandler) : feeHandler :=
  match cost' with
  | None => f
  | Some c =>
      if c <? 0 then f
      else
        let fee := default (mkFeeData 0 0) (mapHashFee f !! txHash) in
        mkFeeHandler (mapDependentHashes f)
          (<[txHash := mkFeeData (cost fee + c) (devFee fee + devFee')]> (mapHashFee f))
          (accumulatedFees f + c) (developerFees f + devFee')
  end.

Definition linkRelayedUserTxToOriginalTx (userTxHash originalTxHash : bytes) (f : feeHandler) : feeHandler :=
  mkFeeHandler (<[originalTxHash := userTxHash]> (mapDependentHashes f)) (mapHashFee f) (accumulatedFees f) (developerFees f).

Definition ProcessTransactionFee : option Z -> Z -> bytes -> feeHandler -> feeHandler := processTransactionFee.

Definition ProcessTransactionFeeRelayedUserTx (cost' : option Z) (devFee' : Z) (userTxHash originalTxHash : bytes) (f : feeHandler) : feeHandler :=
  processTransactionFee cost' devFee' userTxHash (linkRelayedUserTxToOriginalTx userTxHash originalTxHash f).

Definition revertFee (txHash : bytes) (f : feeHandler) : feeHandler :=
  match mapHashFee f !! txHash with
  | None => f
  | Some fee =>
      mkFeeHandler (mapDependentHashes f) (base.delete txHash (mapHashFee f))
        (accumulatedFees f - cost fee) (developerFees f - devFee fee)
  end.

Definition revertFeesForDependentTxHash (txHash : bytes) (f : feeHandler) : feeHandler :=
  match mapDependentHashes f !! txHash with
  | None => f
  | Some linked =>
      let f' := revertFee linked f in
      mkFeeHandler (base.delete txHash (mapDependentHashes f')) (mapHashFee f') (accumulatedFees f') (developerFees f')
  end.

Definition RevertFees (txHashes : list bytes) (f : feeHandler) : feeHandler :=
  foldl (fun f txHash => revertFee txHash (revertFeesForDependentTxHash txHash f)) f txHashes.

(** ** The totals and the recorded fees *)

(** What the block started with. *)
Definition baseFees (f : feeHandler) : Z * Z :=
  (accumulatedFees f - mapSum cost (mapHashFee f), developerFees f - mapSum devFee (mapHashFee f)).

Lemma base_process c d h f : baseFees (processTransactionFee c d h f) = baseFees f.
Proof.
  unfold processTransactionFee. destruct c as [c|]; [|done]. destruct (c <? 0); [done|]. unfold baseFees. simpl.
  rewrite !mapSum_insert. destruct (mapHashFee f !! h); simpl; f_equal; lia.
Qed.

Lemma base_link u o f : baseFees (linkRelayedUserTxToOriginalTx u o f) = baseFees f.
Proof. done. Qed.

Lemma base_revertFee h f : baseFees (revertFee h f) = baseFees f.
Proof.
  unfold revertFee. destruct (mapHashFee f !! h) as [fee|] eqn:E; [|done]. unfold baseFees. simpl.
  rewrite !(mapSum_delete _ _ _ fee) by done. f_equal; lia.
Qed.

Lemma base_dependent h f : baseFees (revertFeesForDependentTxHash h f) = baseFees f.
Proof.
  unfold revertFeesForDependentTxHash. destruct (mapDependentHashes f !! h) as [l|]; [|done].
  exact (base_revertFee l f).
Qed.

Lemma base_RevertFees l f : baseFees (RevertFees l f) = baseFees f.
Proof.
  revert f. induction l as [|h l IH]; intros f; [done|]. unfold RevertFees in *. simpl.
  by rewrite IH, base_revertFee, base_dependent.
Qed.

(** ** What a transaction pays, and taking it back *)

(** The fees of the transactions of a block: one call for each fee that is paid. *)
Inductive feeCall :=
| Fee (cost' : option Z) (devFee' : Z) (txHash : bytes)
| FeeOfUserTx (cost' : option Z) (devFee' : Z) (userTxHash originalTxHash : bytes).

Definition feeStep (f : feeHandler) (c : feeCall) : feeHandler :=
  match c with
  | Fee c d h => ProcessTransactionFee c d h f
  | FeeOfUserTx c d u o => ProcessTransactionFeeRelayedUserTx c d u o f
  end.

Definition feeHash (c : feeCall) : bytes := match c with Fee _ _ h => h | FeeOfUserTx _ _ u _ => u end.

(** The transaction that is reverted to take the fee back. *)
Definition feeOwner (c : feeCall) : bytes := match c with Fee _ _ h => h | FeeOfUserTx _ _ _ o => o end.

Lemma process_other c d h k f : k <> h -> mapHashFee (processTransactionFee c d h f) !! k = mapHashFee f !! k.
Proof.
  intros Hne. unfold processTransactionFee. destruct c as [c|]; [|done]. destruct (c <? 0); [done|]. simpl.
  by rewrite lookup_insert_ne.
Qed.

Lemma process_links c d h f : mapDependentHashes (processTransactionFee c d h f) = mapDependentHashes f.
Proof. unfold processTransactionFee. destruct c as [c|]; [|done]. by destruct (c <? 0). Qed.

Lemma revertFee_lookup h f k : mapHashFee (revertFee h f) !! k = if decide (k = h) then None else mapHashFee f !! k.
Proof.
  unfold revertFee. destruct (mapHashFee f !! h) as [fee|] eqn:E; simpl.
  - destruct (decide (k = h)) as [->|]; [by rewrite lookup_delete_eq|by rewrite lookup_delete_ne].
  - by destruct (decide (k = h)) as [->|].
Qed.

Lemma revertFee_links h f : mapDependentHashes (revertFee h f) = mapDependentHashes f.
Proof. unfold revertFee. by destruct (mapHashFee f !! h). Qed.

Lemma dependent_lookup h f k : mapHashFee (revertFeesForDependentTxHash h f) !! k =
  if decide (mapDependentHashes f !! h = Some k) then None else mapHashFee f !! k.
Proof.
  unfold revertFeesForDependentTxHash. destruct (mapDependentHashes f !! h) as [l|] eqn:E; simpl.
  - rewrite revertFee_lookup. by repeat case_decide; simplify_eq.
  - done.
Qed.

Lemma dependent_links h f : mapDependentHashes (revertFeesForDependentTxHash h f) = base.delete h (mapDependentHashes f).
Proof.
  unfold revertFeesForDependentTxHash. destruct (mapDependentHashes f !! h) as [l|] eqn:E; simpl.
  - by rewrite revertFee_links.
  - by rewrite delete_id.
Qed.

(** Which fees are left after RevertFees. *)
Lemma RevertFees_lookup l f k : mapHashFee (RevertFees l f) !! k =
  if decide (Exists (fun h => k = h \/ mapDependentHashes f !! h = Some k) l) then None else mapHashFee f !! k.
Proof.
  revert f. induction l as [|h l IH]; intros f; [done|].
  unfold RevertFees in *. simpl. rewrite IH, revertFee_links, dependent_links, revertFee_lookup, dependent_lookup.
  assert (Hl : Exists (fun h' => k = h' \/ base.delete h (mapDependentHashes f) !! h' = Some k) l ->
    Exists (fun h' => k = h' \/ mapDependentHashes f !! h' = Some k) l).
  { intros Hx. eapply Exists_impl; [exact Hx|]. intros h' [->|[_ ?]%lookup_delete_Some]; auto. }
  assert (Hr : Exists (fun h' => k = h' \/ mapDependentHashes f !! h' = Some k) l -> mapDependentHashes f !! h <> Some k ->
    Exists (fun h' => k = h' \/ base.delete h (mapDependentHashes f) !! h' = Some k) l).
  { intros Hx Hd. eapply Exists_impl; [exact Hx|]. intros h' [->|Hh']; [by left|right].
    rewrite lookup_delete_ne; [done|]. by intros ->. }
  repeat case_decide; try done; rewrite Exists_cons in *; naive_solver.
Qed.

Lemma step_base f c : baseFees (feeStep f c) = baseFees f.
Proof. destruct c; simpl; [apply base_process|]. unfold ProcessTransactionFeeRelayedUserTx. by rewrite base_process. Qed.

Lemma step_other f c k : k <> feeHash c -> mapHashFee (feeStep f c) !! k = mapHashFee f !! k.
Proof. intros Hk. destruct c; simpl in *; [by apply process_other|]. unfold ProcessTransactionFeeRelayedUserTx. by rewrite process_other. Qed.

Lemma step_links f c o : mapDependentHashes (feeStep f c) !! o =
  match c with FeeOfUserTx _ _ u o' => if decide (o = o') then Some u else mapDependentHashes f !! o | Fee _ _ _ => mapDependentHashes f !! o end.
Proof.
  destruct c as [c d h|c d u o']; simpl; [unfold ProcessTransactionFee; by rewrite process_links|].
  unfold ProcessTransactionFeeRelayedUserTx. rewrite process_links. simpl.
  case_decide as E; [subst; by rewrite lookup_insert_eq|by rewrite lookup_insert_ne].
Qed.

Lemma steps_base cs f : baseFees (foldl feeStep f cs) = baseFees f.
Proof. revert f. induction cs as [|c cs IH]; intros f; simpl; [done|]. by rewrite IH, step_base. Qed.

Lemma steps_other cs f k : (forall c, c ∈ cs -> k <> feeHash c) -> mapHashFee (foldl feeStep f cs) !! k = mapHashFee f !! k.
Proof.
  revert f. induction cs as [|c cs IH]; intros f Hk; simpl; [done|].
  rewrite IH by (intros c' Hc; apply Hk; by right). apply step_other, Hk. by left.
Qed.

(** A relayed transaction is linked to the user transaction of its last fee. *)
Lemma steps_link cs f o k : mapDependentHashes (foldl feeStep f cs) !! o = Some k ->
  mapDependentHashes f !! o = Some k \/ exists c d, FeeOfUserTx c d k o ∈ cs.
Proof.
  revert f. induction cs as [|c cs IH]; intros f; simpl; [by left|].
  intros [Hk|(c' & d & Hin)]%IH; [|right; exists c', d; by right].
  rewrite step_links in Hk. destruct c as [c d h|c d u o']; [by left|].
  case_decide as E; [|by left]. subst. injection Hk as ->. right. exists c, d. by left.
Qed.

Lemma steps_linked cs f o c d u : FeeOfUserTx c d u o ∈ cs -> exists u', mapDependentHashes (foldl feeStep f cs) !! o = Some u'.
Proof.
  intros Hin. assert (Hmono : forall cs f, is_Some (mapDependentHashes f !! o) -> is_Some (mapDependentHashes (foldl feeStep f cs) !! o)).
  { intros cs'. induction cs' as [|x cs' IH]; intros g Hg; simpl; [done|]. apply IH. rewrite step_links.
    destruct x; [done|]. case_decide; [by eexists|done]. }
  apply list_elem_of_split in Hin as (l1 & l2 & ->). rewrite foldl_app. cbn [foldl]. apply Hmono. rewrite step_links, decide_True by done. by eexists.
Qed.

(** C31: The fees that new transactions paid in a block are taken back by RevertFees, when each of
    them is relayed for one user transaction at most. *)
Theorem fees_taken_back f cs txs :
  (forall h, h ∈ txs -> mapHashFee f !! h = None /\ mapDependentHashes f !! h = None) ->
  (forall c, c ∈ cs -> feeOwner c ∈ txs /\ mapHashFee f !! feeHash c = None) ->
  (forall c d u c' d' u' o, FeeOfUserTx c d u o ∈ cs -> FeeOfUserTx c' d' u' o ∈ cs -> u = u') ->
  let f' := RevertFees txs (foldl feeStep f cs) in
  mapHashFee f' = mapHashFee f /\ GetAccumulatedFees f' = GetAccumulatedFees f /\ GetDeveloperFees f' = GetDeveloperFees f.
Proof.
  intros Htx Hcs Hone f'. assert (E : mapHashFee f' = mapHashFee f).
  { apply map_eq. intros k. unfold f'. rewrite RevertFees_lookup. case_decide as Hx.
    - apply Exists_exists in Hx as (h & Hh & [->|Hk]); [symmetry; by apply Htx|].
      apply steps_link in Hk as [Hk|(c & d & Hin)]; [destruct (Htx h Hh); congruence|]. symmetry. apply (Hcs _ Hin).
    - destruct (decide (Exists (fun c => k = feeHash c) cs)) as [Hin|Hn].
      + exfalso. apply Hx. apply Exists_exists in Hin as (c & Hc & ->). apply Exists_exists. exists (feeOwner c).
        split; [by apply Hcs|]. destruct c as [c d h|c d u o]; simpl; [by left|right].
        destruct (steps_linked cs f o c d u Hc) as [u' E]. rewrite E.
        apply steps_link in E as [E|(c' & d' & Hc')]; [destruct (Htx o) as [_ ?]; [apply (Hcs _ Hc)|congruence]|].
        by rewrite (Hone _ _ _ _ _ _ _ Hc Hc').
      + apply steps_other. intros c Hc ->. apply Hn, Exists_exists. by exists c. }
  split; [done|]. assert (B : baseFees f' = baseFees f) by (unfold f'; by rewrite base_RevertFees, steps_base).
  unfold baseFees in B. rewrite E in B. injection B as B1 B2. unfold GetAccumulatedFees, GetDeveloperFees. lia.
Qed.

(** A relayed transaction, and its user transaction. *)
Lemma fees_taken_back_witness :
  GetAccumulatedFees (RevertFees [[1]] (foldl feeStep NewFeeAccumulator [Fee (Some 10) 1 [1]; FeeOfUserTx (Some 5) 0 [2] [1]])) = 0.
Proof.
  apply (fees_taken_back NewFeeAccumulator [Fee (Some 10) 1 [1]; FeeOfUserTx (Some 5) 0 [2] [1]] [[1]]).
  - intros h _. by simpl; rewrite !lookup_empty.
  - intros c Hc. split; [|by simpl; rewrite lookup_empty]. apply elem_of_cons in Hc as [->|Hc]; [by left|].
    apply list_elem_of_singleton in Hc as ->. by left.
  - intros c d u c' d' u' o H1 H2. apply elem_of_cons in H1 as [[=]|H1]. apply elem_of_cons in H2 as [[=]|H2].
    apply list_elem_of_singleton in H1, H2. congruence.
Defined.
