(* ===== verification/TxProcessor.v ===== *)
(** * The transaction processors: process/transaction (baseProcess.go, shardProcess.go,
    metaProcess.go).

    A processor works on the accounts, the accumulator of fees and the pools of what a
    block makes.  An account that was loaded is an object behind a pointer: when the sender
    and the receiver have one address, they are one object, and a change of an object is
    seen by later loads once it has been saved. *)

From stdpp Require Import base list gmap strings.
From Stdlib Require Import ZArith Lia.
From S2P Require Import Prelude TrackableDataTrie UserAccount FeeHandler.

(** ** Messages *)

(** process.TransactionType *)
Inductive TransactionType :=
| MoveBalance | SCDeployment | SCInvoking | BuiltInFunctionCall | RelayedTx | RelayedTxV2 | RewardTx | InvalidTransaction.

#[export] Instance TransactionType_dec : EqDecision TransactionType.
Proof. solve_decision. Defined.

(** The message of transaction.proto, without what the processors do not read. *)
Record Transaction := mkTransaction {
  txNonce : Z;
  txValue : Z;
  txRcvAddr : bytes;
  txRcvUserName : bytes;
  txSndAddr : bytes;
  txSndUserName : bytes;
  txGasPrice : Z;
  txGasLimit : Z;
  txData : bytes;
  txSignature : bytes;
  txVersion : Z;
  txOptions : Z;
  txGuardianAddr : bytes;
}.

Record Receipt := mkReceipt { rptValue : Z; rptSndAddr : bytes; rptData : bytes; rptTxHash : bytes }.

Record SmartContractResult := mkSCR {
  scrNonce : Z;
  scrValue : Z;
  scrRcvAddr : bytes;
  scrSndAddr : bytes;
  scrRelayerAddr : bytes;
  scrRelayedValue : Z;
  scrData : bytes;
  scrPrevTxHash : bytes;
  scrOriginalTxHash : bytes;
  scrGasLimit : Z;
  scrGasPrice : Z;
  scrReturnMessage : bytes;
}.

(** data.TransactionHandler *)
Inductive TransactionHandler :=
| aTransaction (tx : Transaction)
| aReceipt (rpt : Receipt)
| aSCR (scr : SmartContractResult).

(** vmcommon.ReturnCode; 0 is Ok. *)
Inductive ReturnCode := Ok | UserError | ExecutionFailed | OtherCode (n : Z).

Record LogEntry := mkLogEntry { logIdentifier : bytes; logAddress : bytes }.

(** ** Errors

    The errors of process/errors.go that the processors make or test, with what is wrapped
    in them; [ErrOther] is any other one, and [NilDereference] the panic of a call through
    a nil interface. *)
Inductive notExecutable :=
| NotAllowedToBypassGuardian
| BuiltinFunctionNotExecutable (text : bytes)
| SetGuardianDoesNotSupportUsernames
| CannotReplaceGuardedAccountPendingGuardian
| GuardedTransactionNotExpected
| NoActiveGuardian (text : bytes)
| TransactionAndAccountGuardianMismatch.

Inductive txErr :=
| ErrState (e : stateErr)
| ErrNilTransaction
| ErrNilAddressContainer
| ErrHigherNonceInTransaction
| ErrLowerNonceInTransaction
| ErrInsufficientGasPriceInTx
| ErrInsufficientGasLimitInTx
| ErrMoreGasThanGasLimitPerBlock
| ErrMoreGasThanGasLimitPerMiniBlockForSafeCrossShard
| ErrTxValueOutOfBounds
| ErrTxValueTooBig
| ErrNotEnoughGasInUserTx
| ErrInsufficientFee (has wanted : Z)
| ErrInsufficientFunds
| ErrUserNameDoesNotMatch
| ErrUserNameDoesNotMatchInCrossShardTx
| ErrTransactionNotExecutable (why : notExecutable)
| ErrFailedTransaction
| ErrWrongTransaction
| ErrInvalidMetaTransaction (notEnoughGas : bool)
| ErrAccountNotPayable
| ErrInvalidArguments
| ErrRelayedTxDisabled
| ErrRelayedTxV2Disabled
| ErrRelayedTxV2ZeroVal
| ErrRelayedTxBeneficiaryDoesNotMatchReceiver
| ErrRelayedTxValueHigherThenUserTxValue
| ErrRelayedGasPriceMissmatch
| ErrRelayedTxGasLimitMissmatch
| ErrNilUserAccount
| NilDereference
| ErrOther (text : bytes).

(** ** What the processors work on *)

(** state.AccountsAdapter, and the objects behind its pointers. *)
Class AccountsAdapter (A : Type) := mkAccountsAdapter {
  aaLoadAccount : bytes -> SE A stateErr nat;
  aaSaveAccount : nat -> SE A stateErr unit;
  aaJournalLen : SE A stateErr Z;
  aaAccount : nat -> SE A stateErr userAccount;
  aaPutAccount : nat -> userAccount -> SE A stateErr unit;
}.

(** The accounts, the accumulator of fees, and the rest: the pools of intermediate
    transactions, the logs, and what the smart-contract processor keeps. *)
Record World (A P : Type) := mkWorld { accts : A; fees : feeHandler; pools : P }.
Arguments mkWorld {A P}.
Arguments accts {A P}.
Arguments fees {A P}.
Arguments pools {A P}.

Definition set_accts {A P} (a : A) (w : World A P) : World A P := mkWorld a (fees w) (pools w).
Definition set_fees {A P} (f : feeHandler) (w : World A P) : World A P := mkWorld (accts w) f (pools w).
Definition set_pools {A P} (p : P) (w : World A P) : World A P := mkWorld (accts w) (fees w) p.

(** The flags of the epoch that the processors test. *)
Record enableFlags := mkFlags {
  PenalizedTooMuchGasFlag : bool;
  MetaProtectionFlag : bool;
  AddFailedRelayedTxToInvalidMBsFlag : bool;
  RelayedTransactionsFlag : bool;
  RelayedTransactionsV2Flag : bool;
  RelayedNonceFixFlag : bool;
  FixRelayedBaseCostFlag : bool;
  FixRelayedMoveBalanceToNonPayableSCFlag : bool;
  ESDTFlag : bool;
}.

(** mx-chain-core-go and mx-chain-vm-common-go, as far as the processors call them. *)
Class CoreLib := mkCoreLib {
  SafeMul : Z -> Z -> Z;
  SafeSubUint64 : Z -> Z -> Z * option txErr;
  MetachainShardId : Z;
  MinMetaTxExtraGasCost : Z;
  BuiltInFunctionSetGuardian : bytes;
  SignalErrorOperation : bytes;
  IsSmartContractAddress : bytes -> bool;
  CodeMetadataGuarded : bytes -> bool;
  CalculateHash : TransactionHandler -> txErr + bytes;
  IsGetNodeFromDBError : txErr -> bool;
  errorText : txErr -> bytes;
}.

(** process.FeeHandler *)
Class FeeComputer := mkFeeComputer {
  ComputeTxFee : Transaction -> Z;
  ComputeMoveBalanceFee : Transaction -> Z;
  ComputeGasLimit : Transaction -> Z;
  ComputeFeeForProcessing : Transaction -> Z -> Z;
  CheckValidityTxValues : Transaction -> txErr + unit;
}.

Inductive forwarder := receiptForwarder | badTxForwarder | scrForwarder.

(** The other parts of the node that the processors call. *)
Class TxSurroundings (A P : Type) := mkTxSurroundings {
  txFlags : enableFlags;
  SelfId : Z;
  ComputeId : bytes -> Z;
  ComputeTransactionType : Transaction -> TransactionType * TransactionType;
  ParseCallData : bytes -> txErr + (bytes * list bytes);
  UnmarshalTransaction : bytes -> txErr + Transaction;
  IsGuardedTransaction : Transaction -> bool;
  GetActiveGuardian : nat -> SE (World A P) txErr bytes;
  HasPendingGuardian : nat -> World A P -> World A P * bool;
  AddIntermediateTransactions : forwarder -> list TransactionHandler -> bytes -> SE P txErr unit;
  SaveLog : bytes -> Transaction -> list LogEntry -> SE P txErr unit;
  (** process.SmartContractProcessor *)
  ExecuteSmartContractTransaction : TransactionHandler -> option nat -> option nat -> SE (World A P) (ReturnCode * txErr) ReturnCode;
  ExecuteBuiltInFunction : TransactionHandler -> option nat -> option nat -> SE (World A P) (ReturnCode * txErr) ReturnCode;
  DeploySmartContract : TransactionHandler -> option nat -> SE (World A P) (ReturnCode * txErr) ReturnCode;
  ProcessIfError : option nat -> bytes -> Transaction -> bytes -> bytes -> Z -> Z -> SE (World A P) txErr unit;
  IsPayable : bytes -> bytes -> SE (World A P) txErr bool;
  CheckBuiltinFunctionIsExecutable : bytes -> Transaction -> SE (World A P) txErr unit;
}.

Section Processor.
Context {A P : Type} {AA : AccountsAdapter A} {CO : CoreLib} {FC : FeeComputer} {TS : TxSurroundings A P}.

Abbreviation W := (World A P).
Abbreviation TM := (SE W txErr).

(** A call that gives a return code, also with its error. *)
Abbreviation RM := (SE W (ReturnCode * txErr)).

(** ** Calls on the parts of the world *)

Definition onAccts {X} (m : SE A stateErr X) : TM X := fun w =>
  let (a, r) := m (accts w) in
  (set_accts a w, match r with inl e => inl (ErrState e) | inr x => inr x end).

Definition onFees (f : feeHandler -> feeHandler) : TM unit := modify (fun w => set_fees (f (fees w)) w).

Definition onPools {X} (m : SE P txErr X) : TM X := fun w =>
  let (p, r) := m (pools w) in (set_pools p w, r).

(** [x, err := m; if err != nil { h(err) } else { k(x) }] *)
Definition handle {E1 E2 X Y} (m : SE W E1 X) (h : E1 -> SE W E2 Y) (k : X -> SE W E2 Y) : SE W E2 Y := fun w =>
  match m w with
  | (w, inl e) => h e w
  | (w, inr x) => k x w
  end.

(** [if err != nil { return code, err }] *)
Definition orCode {X} (code : ReturnCode) (m : TM X) : RM X := onErr m (fun e => throw (code, e)).

Definition LoadAccount (address : bytes) : TM nat := onAccts (aaLoadAccount address).
Definition SaveAccount (acnt : nat) : TM unit := onAccts (aaSaveAccount acnt).
Definition JournalLen : TM Z := onAccts aaJournalLen.

Definition account (acnt : nat) : TM userAccount := onAccts (aaAccount acnt).
Definition changeAccount (f : userAccount -> stateErr + userAccount) (acnt : nat) : TM unit :=
  onAccts (let! a := aaAccount acnt in let! a := liftR (f a) in aaPutAccount acnt a).

Definition acntAddToBalance (acnt : nat) (value : Z) : TM unit := changeAccount (AddToBalance value) acnt.
Definition acntSubFromBalance (acnt : nat) (value : Z) : TM unit := changeAccount (SubFromBalance value) acnt.
Definition acntIncreaseNonce (acnt : nat) (value : Z) : TM unit := changeAccount (fun a => inr (IncreaseNonce value a)) acnt.

Definition IsGuarded (a : userAccount) : bool := CodeMetadataGuarded (CodeMetadata (accountData a)).

(** ** The base of the processors *)

Definition inShard (address : bytes) : bool := ComputeId address =? SelfId.

Definition getAccounts (adrSrc adrDst : bytes) : TM (option nat * option nat) :=
  let srcInShard := inShard adrSrc in
  let dstInShard := inShard adrDst in
  if (srcInShard && (blen adrSrc =? 0)) || (dstInShard && (blen adrDst =? 0)) then throw ErrNilAddressContainer
  else if beq adrSrc adrDst then
    let! acnt := LoadAccount adrSrc in ret (Some acnt, Some acnt)
  else
    let! acntSrc := if srcInShard then let! acnt := LoadAccount adrSrc in ret (Some acnt) else ret None in
    let! acntDst := if dstInShard then let! acnt := LoadAccount adrDst in ret (Some acnt) else ret None in
    ret (acntSrc, acntDst).

Definition getAccountFromAddress (adrSrc : bytes) : TM (option nat) :=
  if negb (SelfId =? ComputeId adrSrc) then ret None
  else let! acnt := LoadAccount adrSrc in ret (Some acnt).

Definition getAccountData (acnt : option nat) : TM (option UserAccountData) :=
  match acnt with
  | None => ret None
  | Some acnt => let! a := account acnt in ret (Some (accountData a))
  end.

Definition computeInnerTxFeeAfterBaseCostFix (tx : Transaction) : Z :=
  let (_, dstShardTxType) := ComputeTransactionType tx in
  if decide (dstShardTxType = MoveBalance) then ComputeMoveBalanceFee tx
  else
    let gasToUse := u64 (txGasLimit tx - ComputeGasLimit tx) in
    ComputeMoveBalanceFee tx + ComputeFeeForProcessing tx gasToUse.

Definition computeInnerTxFee (tx : Transaction) : Z :=
  if FixRelayedBaseCostFlag txFlags then computeInnerTxFeeAfterBaseCostFix tx
  else ComputeFeeForProcessing tx (txGasLimit tx).

Definition userNameWrong (name : bytes) (acnt : option UserAccountData) : bool :=
  (0 <? blen name) && match acnt with Some d => negb (beq name (UserName d)) | None => false end.

Definition checkUserNames (tx : Transaction) (acntSnd acntDst : option nat) : TM unit :=
  let! snd := getAccountData acntSnd in
  let! dst := getAccountData acntDst in
  if userNameWrong (txSndUserName tx) snd then throw ErrUserNameDoesNotMatch
  else if userNameWrong (txRcvUserName tx) dst then
    throw (match acntSnd with None => ErrUserNameDoesNotMatchInCrossShardTx | Some _ => ErrUserNameDoesNotMatch end)
  else ret tt.

(** *** Guarded accounts *)

(** process.IsBuiltinFuncCallWithParam, on the function and the separator '@'. *)
Definition IsBuiltinFuncCallWithParam (data function : bytes) : bool :=
  let prefix := function ++ [64] in beq (take (length prefix) data) prefix.

Definition IsSetGuardianCall (data : bytes) : bool := IsBuiltinFuncCallWithParam data BuiltInFunctionSetGuardian.

Definition CheckSetGuardianExecutable (tx : Transaction) : TM unit :=
  onErr (CheckBuiltinFunctionIsExecutable BuiltInFunctionSetGuardian tx)
    (fun e => throw (ErrTransactionNotExecutable (BuiltinFunctionNotExecutable (errorText e)))).

Definition checkOperationAllowedToBypassGuardian (tx : Transaction) : TM unit :=
  if negb (IsSetGuardianCall (txData tx)) then throw (ErrTransactionNotExecutable NotAllowedToBypassGuardian)
  else
    CheckSetGuardianExecutable tx ;;
    if (0 <? blen (txRcvUserName tx)) || (0 <? blen (txSndUserName tx))
    then throw (ErrTransactionNotExecutable SetGuardianDoesNotSupportUsernames) else ret tt.

Definition checkGuardedAccountUnguardedTxPermission (tx : Transaction) (acnt : nat) : TM unit :=
  checkOperationAllowedToBypassGuardian tx ;;
  let! hasPendingGuardian := (fun w => let (w, b) := HasPendingGuardian acnt w in (w, inr b)) in
  if IsSetGuardianCall (txData tx) && hasPendingGuardian
  then throw (ErrTransactionNotExecutable CannotReplaceGuardedAccountPendingGuardian) else ret tt.

Definition VerifyGuardian (tx : Transaction) (acnt : option nat) : TM unit :=
  match acnt with
  | None => ret tt
  | Some acnt =>
      let isTransactionGuarded := IsGuardedTransaction tx in
      let! a := account acnt in
      if negb (IsGuarded a) then
        if isTransactionGuarded then throw (ErrTransactionNotExecutable GuardedTransactionNotExpected) else ret tt
      else if negb isTransactionGuarded then checkGuardedAccountUnguardedTxPermission tx acnt
      else
        let! guardian := onErr (GetActiveGuardian acnt) (fun e => throw (ErrTransactionNotExecutable (NoActiveGuardian (errorText e)))) in
        if negb (beq guardian (txGuardianAddr tx)) then throw (ErrTransactionNotExecutable TransactionAndAccountGuardianMismatch)
        else ret tt
  end.

(** *** The values of a transaction *)

(** The fee that the sender must be able to pay. *)
Definition requiredFee (tx : Transaction) (isUserTxOfRelayed : bool) : TM Z :=
  if isUserTxOfRelayed then
    if txGasLimit tx <? ComputeGasLimit tx then throw ErrNotEnoughGasInUserTx else ret (computeInnerTxFee tx)
  else ret (ComputeTxFee tx).

Definition checkTxValues (tx : Transaction) (acntSnd acntDst : option nat) (isUserTxOfRelayed : bool) : TM unit :=
  VerifyGuardian tx acntSnd ;;
  checkUserNames tx acntSnd acntDst ;;
  match acntSnd with
  | None => ret tt
  | Some acnt =>
      let! a := account acnt in
      let nonce := Nonce (accountData a) in
      let balance := GetBalance a in
      if nonce <? txNonce tx then throw ErrHigherNonceInTransaction
      else if txNonce tx <? nonce then throw ErrLowerNonceInTransaction
      else
        liftR (CheckValidityTxValues tx) ;;
        let! txFee := requiredFee tx isUserTxOfRelayed in
        if balance <? txFee then throw (ErrInsufficientFee balance txFee)
        else
          let txFee := if PenalizedTooMuchGasFlag txFlags then txFee else SafeMul (txGasLimit tx) (txGasPrice tx) in
          if balance <? txFee + txValue tx then throw ErrInsufficientFunds else ret tt
  end.

Definition processIfTxErrorCrossShard (tx : Transaction) (errorString : bytes) : TM unit :=
  let! txHash := liftR (CalculateHash (aTransaction tx)) in
  let! snapshot := JournalLen in
  ProcessIfError None txHash tx errorString [] snapshot 0.

Definition VerifyTransaction (tx : option Transaction) : TM unit :=
  match tx with
  | None => throw ErrNilTransaction
  | Some tx =>
      let! (senderAccount, receiverAccount) := getAccounts (txSndAddr tx) (txRcvAddr tx) in
      checkTxValues tx senderAccount receiverAccount false
  end.

(** ** The processor of a shard *)

Definition ProcessTransactionFeeOf (cost : Z) (txHash : bytes) : TM unit := onFees (ProcessTransactionFee (Some cost) 0 txHash).

(** It gives ErrFailedTransaction when all went well. *)
Definition executingFailedTransaction (tx : Transaction) (acntSnd : option nat) (txError : txErr) : TM unit :=
  match acntSnd with
  | None => ret tt
  | Some acnt =>
      let txFee := ComputeTxFee tx in
      acntSubFromBalance acnt txFee ;;
      let! txHash := liftR (CalculateHash (aTransaction tx)) in
      acntIncreaseNonce acnt 1 ;;
      onPools (AddIntermediateTransactions badTxForwarder [aTransaction tx] txHash) ;;
      onPools (AddIntermediateTransactions receiptForwarder [aReceipt (mkReceipt txFee (txSndAddr tx) (errorText txError) txHash)] txHash) ;;
      ProcessTransactionFeeOf txFee txHash ;;
      SaveAccount acnt ;;
      throw ErrFailedTransaction
  end.

Definition RefundGasMessage : bytes := str "refundedGas"%string.

Definition createReceiptWithReturnedGas (txHash : bytes) (tx : Transaction) (acntSnd : option nat) (moveBalanceCost totalProvided : Z)
    (destShardTxType : TransactionType) (isUserTxOfRelayed : bool) : TM unit :=
  match acntSnd with
  | None => ret tt
  | Some _ =>
      if isUserTxOfRelayed then ret tt
      else
        let shouldCreateReceiptBackwardCompatible := negb (MetaProtectionFlag txFlags) && IsSmartContractAddress (txRcvAddr tx) in
        if negb (bool_decide (destShardTxType = MoveBalance)) || shouldCreateReceiptBackwardCompatible then ret tt
        else
          let refundValue := totalProvided - moveBalanceCost in
          if refundValue =? 0 then ret tt
          else onPools (AddIntermediateTransactions receiptForwarder [aReceipt (mkReceipt refundValue (txSndAddr tx) RefundGasMessage txHash)] txHash)
  end.

(** What the sender pays for a transaction of its own, and the part that is for the gas of
    moving the balance. *)
Definition totalCostOf (tx : Transaction) : Z :=
  if PenalizedTooMuchGasFlag txFlags then ComputeTxFee tx else SafeMul (txGasLimit tx) (txGasPrice tx).

Definition paysTotalCost (tx : Transaction) (acntDst : option nat) (dstShardTxType : TransactionType) : bool :=
  let isCrossShardSCCall := bool_decide (acntDst = None) && (0 <? blen (txData tx)) && IsSmartContractAddress (txRcvAddr tx) in
  negb (bool_decide (dstShardTxType = MoveBalance)) || (negb (MetaProtectionFlag txFlags) && isCrossShardSCCall).

Definition processTxFee (tx : Transaction) (acntSnd acntDst : option nat) (dstShardTxType : TransactionType) (isUserTxOfRelayed : bool) : TM (Z * Z) :=
  match acntSnd with
  | None => ret (0, 0)
  | Some acnt =>
      if isUserTxOfRelayed then
        let totalCost := computeInnerTxFee tx in
        acntSubFromBalance acnt totalCost ;;
        if bool_decide (dstShardTxType = MoveBalance) then ret (totalCost, totalCost)
        else
          let currentShardFee :=
            if FixRelayedBaseCostFlag txFlags then ComputeMoveBalanceFee tx else ComputeFeeForProcessing tx (ComputeGasLimit tx) in
          ret (currentShardFee, totalCost)
      else
        let moveBalanceFee := ComputeMoveBalanceFee tx in
        let totalCost := totalCostOf tx in
        acntSubFromBalance acnt (if paysTotalCost tx acntDst dstShardTxType then totalCost else moveBalanceFee) ;;
        ret (moveBalanceFee, totalCost)
  end.

Definition checkIfValidTxToMetaChain (tx : Transaction) (adrDst : bytes) : txErr + unit :=
  if negb (ComputeId adrDst =? MetachainShardId) then inr tt
  else if blen (txData tx) =? 0 then inl (ErrInvalidMetaTransaction false)
  else if MetaProtectionFlag txFlags && (txGasLimit tx <? u64 (ComputeGasLimit tx + MinMetaTxExtraGasCost))
  then inl (ErrInvalidMetaTransaction true)
  else inr tt.

Definition revertConsumedValueFromSender (tx : Transaction) (acntSrc : option nat) (isUserTxOfRelayed : bool) : TM unit :=
  if negb isUserTxOfRelayed then ret tt
  else if negb (FixRelayedMoveBalanceToNonPayableSCFlag txFlags) then ret tt
  else
    match acntSrc with
    | None => ret tt
    | Some acnt => acntAddToBalance acnt (txValue tx) ;; SaveAccount acnt
    end.

(** The error of the revert is logged. *)
Definition revertAndFail (tx : Transaction) (acntSrc : option nat) (isUserTxOfRelayed : bool) (e : txErr) : TM unit :=
  onErr (revertConsumedValueFromSender tx acntSrc isUserTxOfRelayed) (fun _ : txErr => ret tt) ;; throw e.

Definition chargeSender (tx : Transaction) (acntSrc : option nat) : TM unit :=
  match acntSrc with
  | None => ret tt
  | Some acnt => acntIncreaseNonce acnt 1 ;; acntSubFromBalance acnt (txValue tx) ;; SaveAccount acnt
  end.

Definition payReceiver (tx : Transaction) (acntDst : option nat) : TM unit :=
  match acntDst with
  | None => ret tt
  | Some acnt => acntAddToBalance acnt (txValue tx) ;; SaveAccount acnt
  end.

Definition checkReceiver (tx : Transaction) (acntSrc : option nat) (isUserTxOfRelayed : bool) : TM unit :=
  let! isPayable := onErr (IsPayable (txSndAddr tx) (txRcvAddr tx))
    (fun e => revertAndFail tx acntSrc isUserTxOfRelayed e ;; ret false) in
  if negb isPayable then revertAndFail tx acntSrc isUserTxOfRelayed ErrAccountNotPayable
  else
    match checkIfValidTxToMetaChain tx (txRcvAddr tx) with
    | inl e => revertAndFail tx acntSrc isUserTxOfRelayed e
    | inr _ => ret tt
    end.

Definition processMoveBalance (tx : Transaction) (acntSrc acntDst : option nat) (destShardTxType : TransactionType)
    (originalTxHash : bytes) (isUserTxOfRelayed : bool) : TM unit :=
  let! (moveBalanceCost, totalCost) := processTxFee tx acntSrc acntDst destShardTxType isUserTxOfRelayed in
  chargeSender tx acntSrc ;;
  checkReceiver tx acntSrc isUserTxOfRelayed ;;
  payReceiver tx acntDst ;;
  let! txHash := liftR (CalculateHash (aTransaction tx)) in
  createReceiptWithReturnedGas txHash tx acntSrc moveBalanceCost totalCost destShardTxType isUserTxOfRelayed ;;
  if isUserTxOfRelayed
  then onFees (ProcessTransactionFeeRelayedUserTx (Some moveBalanceCost) 0 txHash originalTxHash)
  else ProcessTransactionFeeOf moveBalanceCost txHash.

Definition isInvalidMetaOrNotPayable (e : txErr) : bool :=
  match e with ErrInvalidMetaTransaction _ | ErrAccountNotPayable => true | _ => false end.

Definition executeAfterFailedMoveBalanceTransaction (tx : Transaction) (txError : txErr) : TM unit :=
  if IsGetNodeFromDBError txError then throw txError
  else
    let! acntSnd := getAccountFromAddress (txSndAddr tx) in
    if isInvalidMetaOrNotPayable txError then
      let! snapshot := JournalLen in
      let! txHash := liftR (CalculateHash (aTransaction tx)) in
      ProcessIfError acntSnd txHash tx (errorText txError) [] snapshot 0 ;;
      match acntSnd with
      | None => ret tt
      | Some _ =>
          onPools (AddIntermediateTransactions badTxForwarder [aTransaction tx] txHash) ;;
          throw ErrFailedTransaction
      end
    else throw txError.

(** *** Relayed transactions *)

(** big.Int.SetBytes *)
Definition BigIntOfBytes (b : bytes) : Z := foldl (fun n x => n * 256 + x) 0 b.

Definition makeUserTxFromRelayedTxV2Args (tx : Transaction) (args : list bytes) : Transaction :=
  mkTransaction (u64 (BigIntOfBytes (nth 1 args []))) 0 (nth 0 args []) [] (txRcvAddr tx) [] (txGasPrice tx)
    (u64 (txGasLimit tx - ComputeGasLimit tx)) (nth 2 args []) (nth 3 args []) 0 0 [].

Record relayedFees := mkRelayedFees { totalFee : Z; remainingFee : Z; relayerFee : Z }.

Definition computeRelayedTxFees (tx userTx : Transaction) : relayedFees :=
  let relayerFee := ComputeMoveBalanceFee tx in
  let totalFee :=
    if FixRelayedBaseCostFlag txFlags then relayerFee + computeInnerTxFeeAfterBaseCostFix userTx else ComputeTxFee tx in
  mkRelayedFees totalFee (totalFee - relayerFee) relayerFee.

Definition processTxAtRelayer (relayerAcnt : option nat) (totalFee relayerFee : Z) (tx : Transaction) : TM bytes :=
  let! txHash := liftR (CalculateHash (aTransaction tx)) in
  match relayerAcnt with
  | None => ret tt
  | Some acnt =>
      acntSubFromBalance acnt (txValue tx) ;;
      acntSubFromBalance acnt totalFee ;;
      acntIncreaseNonce acnt 1 ;;
      SaveAccount acnt ;;
      ProcessTransactionFeeOf relayerFee txHash
  end ;;
  ret txHash.

Definition addFeeAndValueToDest (acntDst : nat) (txValue remainingFee : Z) : TM unit :=
  acntAddToBalance acntDst txValue ;; acntAddToBalance acntDst remainingFee ;; SaveAccount acntDst.

Definition isNonExecutableError (executionErr : txErr) : bool :=
  match executionErr with
  | ErrLowerNonceInTransaction | ErrHigherNonceInTransaction | ErrTransactionNotExecutable _ => true
  | _ => false
  end.

Definition shouldIncreaseNonce (executionErr : txErr) : bool :=
  negb (RelayedNonceFixFlag txFlags) || negb (isNonExecutableError executionErr).

Definition addNonExecutableLog (executionErr : txErr) (originalTxHash : bytes) (originalTx : Transaction) : TM unit :=
  if negb (isNonExecutableError executionErr) then ret tt
  else onPools (SaveLog originalTxHash originalTx [mkLogEntry SignalErrorOperation (txRcvAddr originalTx)]).

Definition removeValueAndConsumedFeeFromUser (userTx : Transaction) (relayedTxValue : Z) (originalTxHash : bytes)
    (originalTx : Transaction) (executionErr : txErr) : TM unit :=
  let! userAcnt := getAccountFromAddress (txSndAddr userTx) in
  match userAcnt with
  | None => throw ErrNilUserAccount
  | Some acnt =>
      acntSubFromBalance acnt relayedTxValue ;;
      acntSubFromBalance acnt (computeInnerTxFee userTx) ;;
      (if shouldIncreaseNonce executionErr then acntIncreaseNonce acnt 1 else ret tt) ;;
      addNonExecutableLog executionErr originalTxHash originalTx ;;
      SaveAccount acnt
  end.

Definition processMoveBalanceCostRelayedUserTx (userTx : Transaction) (userScr : SmartContractResult) (userAcc : option nat)
    (originalTxHash : bytes) : TM unit :=
  let moveBalanceUserFee :=
    if FixRelayedBaseCostFlag txFlags then ComputeMoveBalanceFee userTx else ComputeFeeForProcessing userTx (ComputeGasLimit userTx) in
  let! userScrHash := liftR (CalculateHash (aSCR userScr)) in
  onFees (ProcessTransactionFeeRelayedUserTx (Some moveBalanceUserFee) 0 userScrHash originalTxHash) ;;
  match userAcc with
  | None => throw NilDereference
  | Some acnt => acntSubFromBalance acnt moveBalanceUserFee
  end.

Definition makeSCRFromUserTx (tx : Transaction) (relayerAdr : bytes) (relayedTxValue : Z) (txHash : bytes) : txErr + SmartContractResult :=
  let (gasLimit, err) := SafeSubUint64 (txGasLimit tx) (ComputeGasLimit tx) in
  match err with
  | Some e => inl e
  | None =>
      inr (mkSCR (txNonce tx) (txValue tx) (txRcvAddr tx) (txSndAddr tx) relayerAdr relayedTxValue (txData tx) txHash txHash
             gasLimit (txGasPrice tx) [])
  end.

(** The fee of a user transaction that failed. *)
Definition failedUserTxFee (userTx : Transaction) : Z :=
  let moveBalanceGasLimit := ComputeGasLimit userTx in
  let gasToUse := u64 (txGasLimit userTx - moveBalanceGasLimit) in
  let processingUserFee := ComputeFeeForProcessing userTx gasToUse in
  let fixed := FixRelayedBaseCostFlag txFlags in
  let totalFee :=
    if fixed then ComputeMoveBalanceFee userTx + processingUserFee else ComputeFeeForProcessing userTx (txGasLimit userTx) in
  if ComputeId (txSndAddr userTx) =? SelfId then totalFee
  else if fixed then totalFee - processingUserFee
  else totalFee - ComputeFeeForProcessing userTx moveBalanceGasLimit.

Definition executeFailedRelayedUserTx (userTx : Transaction) (relayerAdr : bytes) (relayedTxValue relayedNonce : Z)
    (originalTx : Transaction) (originalTxHash errorMsg : bytes) : TM unit :=
  let scrForRelayer := mkSCR relayedNonce relayedTxValue relayerAdr (txSndAddr userTx) [] 0 [] originalTxHash originalTxHash 0 0 errorMsg in
  let! relayerAcnt := getAccountFromAddress relayerAdr in
  onPools (AddIntermediateTransactions scrForwarder [aSCR scrForRelayer] originalTxHash) ;;
  ProcessTransactionFeeOf (failedUserTxFee userTx) originalTxHash ;;
  match relayerAcnt with
  | None => ret tt
  | Some acnt =>
      acntAddToBalance acnt (scrValue scrForRelayer) ;;
      (if AddFailedRelayedTxToInvalidMBsFlag txFlags
       then onPools (AddIntermediateTransactions badTxForwarder [aTransaction originalTx] originalTxHash) else ret tt) ;;
      SaveAccount acnt
  end.

(** **** The user transaction *)

Definition failUserTx (originalTx userTx : Transaction) (relayedTxValue relayedNonce : Z) (originalTxHash : bytes) (e : txErr) : RM ReturnCode :=
  orCode UserError
    (executeFailedRelayedUserTx userTx (txSndAddr originalTx) relayedTxValue relayedNonce originalTx originalTxHash (errorText e)) ;;
  ret UserError.

(** A user transaction that was not executed pays back the value and pays the fee. *)
Definition rejectUserTx (originalTx userTx : Transaction) (relayedTxValue relayedNonce : Z) (originalTxHash : bytes) (e : txErr) : RM ReturnCode :=
  orCode UserError (removeValueAndConsumedFeeFromUser userTx relayedTxValue originalTxHash originalTx e) ;;
  failUserTx originalTx userTx relayedTxValue relayedNonce originalTxHash e.

(** The call of the switch on the type, which is not of another type. *)
Definition executeUserTx (txType dstShardTxType : TransactionType) (userTx : Transaction) (scrFromTx : SmartContractResult)
    (acntSnd acntDst : option nat) (originalTxHash : bytes) : RM ReturnCode :=
  let payMove := orCode Ok (processMoveBalanceCostRelayedUserTx userTx scrFromTx acntSnd originalTxHash) in
  match txType with
  | MoveBalance => orCode Ok (processMoveBalance userTx acntSnd acntDst dstShardTxType originalTxHash true) ;; ret Ok
  | SCDeployment => payMove ;; DeploySmartContract (aSCR scrFromTx) acntSnd
  | SCInvoking => payMove ;; ExecuteSmartContractTransaction (aSCR scrFromTx) acntSnd acntDst
  | BuiltInFunctionCall => payMove ;; ExecuteBuiltInFunction (aSCR scrFromTx) acntSnd acntDst
  | _ => throw (Ok, ErrWrongTransaction)
  end.

Definition isExecutableType (txType : TransactionType) : bool :=
  match txType with MoveBalance | SCDeployment | SCInvoking | BuiltInFunctionCall => true | _ => false end.

(** What becomes of the errors of the execution. *)
Definition userTxFailed (originalTx userTx : Transaction) (relayedTxValue relayedNonce : Z) (originalTxHash : bytes) (e : txErr) : RM ReturnCode :=
  if isInvalidMetaOrNotPayable e then failUserTx originalTx userTx relayedTxValue relayedNonce originalTxHash e
  else match e with ErrFailedTransaction => ret ExecutionFailed | _ => throw (ExecutionFailed, e) end.

Definition processUserTx (originalTx userTx : Transaction) (relayedTxValue relayedNonce : Z) (originalTxHash : bytes) : RM ReturnCode :=
  let reject := rejectUserTx originalTx userTx relayedTxValue relayedNonce originalTxHash in
  handle (getAccounts (txSndAddr userTx) (txRcvAddr userTx)) reject (fun '(acntSnd, acntDst) =>
  let (txType, dstShardTxType) := ComputeTransactionType userTx in
  handle (checkTxValues userTx acntSnd acntDst true) reject (fun _ =>
  let! scrFromTx := orCode Ok (liftR (makeSCRFromUserTx userTx (txSndAddr originalTx) relayedTxValue originalTxHash)) in
  if negb (isExecutableType txType) then reject ErrWrongTransaction
  else
    handle (executeUserTx txType dstShardTxType userTx scrFromTx acntSnd acntDst originalTxHash)
      (fun '(_, e) => userTxFailed originalTx userTx relayedTxValue relayedNonce originalTxHash e)
      (fun returnCode =>
         match returnCode with
         | Ok => orCode Ok (onPools (AddIntermediateTransactions scrForwarder [aSCR scrFromTx] originalTxHash)) ;; ret Ok
         | _ => ret returnCode
         end))).

Definition finishExecutionOfRelayedTx (relayerAcnt acntDst : option nat) (tx userTx : Transaction) : RM ReturnCode :=
  let computedFees := computeRelayedTxFees tx userTx in
  let! txHash := orCode Ok (processTxAtRelayer relayerAcnt (totalFee computedFees) (relayerFee computedFees) tx) in
  match acntDst with
  | None => ret Ok
  | Some acnt =>
      orCode Ok (addFeeAndValueToDest acnt (txValue tx) (remainingFee computedFees)) ;;
      processUserTx tx userTx (txValue tx) (txNonce tx) txHash
  end.

(** [return vmcommon.UserError, txProc.executingFailedTransaction(..)] *)
Definition userError (tx : Transaction) (acnt : option nat) (e : txErr) : RM ReturnCode :=
  orCode UserError (executingFailedTransaction tx acnt e) ;; ret UserError.

Definition processRelayedTxV2 (tx : Transaction) (relayerAcnt acntDst : option nat) : RM ReturnCode :=
  if negb (RelayedTransactionsV2Flag txFlags) then userError tx relayerAcnt ErrRelayedTxV2Disabled
  else if negb (txValue tx =? 0) then userError tx relayerAcnt ErrRelayedTxV2ZeroVal
  else
    match ParseCallData (txData tx) with
    | inl e => userError tx relayerAcnt e
    | inr (_, args) =>
        if negb (length args =? 4)%nat then userError tx relayerAcnt ErrInvalidArguments
        else finishExecutionOfRelayedTx relayerAcnt acntDst tx (makeUserTxFromRelayedTxV2Args tx args)
    end.

(** Why the user transaction does not fit to the relayed one. *)
Definition relayedMismatch (tx userTx : Transaction) : option txErr :=
  if negb (beq (txSndAddr userTx) (txRcvAddr tx)) then Some ErrRelayedTxBeneficiaryDoesNotMatchReceiver
  else if txValue userTx <? txValue tx then Some ErrRelayedTxValueHigherThenUserTxValue
  else if negb (txGasPrice userTx =? txGasPrice tx) then Some ErrRelayedGasPriceMissmatch
  else if negb (txGasLimit userTx =? u64 (txGasLimit tx - ComputeGasLimit tx)) then Some ErrRelayedTxGasLimitMissmatch
  else None.

Definition processRelayedTx (tx : Transaction) (relayerAcnt acntDst : option nat) : RM ReturnCode :=
  match ParseCallData (txData tx) with
  | inl e => throw (Ok, e)
  | inr (_, args) =>
      match args with
      | [arg] =>
          if negb (RelayedTransactionsFlag txFlags) then userError tx relayerAcnt ErrRelayedTxDisabled
          else
            match UnmarshalTransaction arg with
            | inl e => userError tx relayerAcnt e
            | inr userTx =>
                match relayedMismatch tx userTx with
                | Some e => userError tx relayerAcnt e
                | None => finishExecutionOfRelayedTx relayerAcnt acntDst tx userTx
                end
            end
      | _ => userError tx relayerAcnt ErrInvalidArguments
      end
  end.

(** *** ProcessTransaction *)

(** What becomes of a transaction whose values are not right. *)
Definition checkFailed (tx : Transaction) (acntSnd : option nat) (e : txErr) : RM ReturnCode :=
  match e with
  | ErrInsufficientFunds => orCode Ok (executingFailedTransaction tx acntSnd e) ;; throw (UserError, e)
  | ErrUserNameDoesNotMatch =>
      (if RelayedTransactionsFlag txFlags then orCode UserError (executingFailedTransaction tx acntSnd e) else ret tt) ;;
      throw (UserError, e)
  | ErrUserNameDoesNotMatchInCrossShardTx =>
      orCode Ok (processIfTxErrorCrossShard tx (errorText e)) ;; ret UserError
  | _ => throw (UserError, e)
  end.

Definition executeTransaction (tx : Transaction) (acntSnd acntDst : option nat) : RM ReturnCode :=
  let (txType, dstShardTxType) := ComputeTransactionType tx in
  match txType with
  | MoveBalance =>
      handle (processMoveBalance tx acntSnd acntDst dstShardTxType [] false)
        (fun e => orCode UserError (executeAfterFailedMoveBalanceTransaction tx e) ;; ret UserError)
        (fun _ => ret Ok)
  | SCDeployment => DeploySmartContract (aTransaction tx) acntSnd
  | SCInvoking => ExecuteSmartContractTransaction (aTransaction tx) acntSnd acntDst
  | BuiltInFunctionCall => ExecuteBuiltInFunction (aTransaction tx) acntSnd acntDst
  | RelayedTx => processRelayedTx tx acntSnd acntDst
  | RelayedTxV2 => processRelayedTxV2 tx acntSnd acntDst
  | _ => userError tx acntSnd ErrWrongTransaction
  end.

Definition ProcessTransaction (tx : option Transaction) : RM ReturnCode :=
  match tx with
  | None => throw (Ok, ErrNilTransaction)
  | Some tx =>
      let! (acntSnd, acntDst) := orCode Ok (getAccounts (txSndAddr tx) (txRcvAddr tx)) in
      orCode Ok (liftR (CalculateHash (aTransaction tx))) ;;
      handle (checkTxValues tx acntSnd acntDst false) (checkFailed tx acntSnd) (fun _ => executeTransaction tx acntSnd acntDst)
  end.

(** ** The processor of the metachain *)

Definition metaProcessSCDeployment (tx : Transaction) (adrSrc : bytes) : RM ReturnCode :=
  let! acntSrc := orCode Ok (getAccountFromAddress adrSrc) in DeploySmartContract (aTransaction tx) acntSrc.

Definition metaProcessSCInvoking (tx : Transaction) (adrSrc adrDst : bytes) : RM ReturnCode :=
  let! (acntSrc, acntDst) := orCode Ok (getAccounts adrSrc adrDst) in
  ExecuteSmartContractTransaction (aTransaction tx) acntSrc acntDst.

Definition metaWrongTransaction (tx : Transaction) (acntSnd : option nat) (txHash : bytes) : RM ReturnCode :=
  orCode Ok
    (let! snapshot := JournalLen in
     ProcessIfError acntSnd txHash tx (errorText ErrWrongTransaction) [] snapshot 0) ;;
  ret UserError.

Definition metaCheckFailed (tx : Transaction) (e : txErr) : RM ReturnCode :=
  match e with
  | ErrUserNameDoesNotMatchInCrossShardTx => orCode Ok (processIfTxErrorCrossShard tx (errorText e)) ;; ret UserError
  | _ => throw (Ok, e)
  end.

Definition metaExecuteTransaction (tx : Transaction) (acntSnd : option nat) (txHash : bytes) : RM ReturnCode :=
  match fst (ComputeTransactionType tx) with
  | SCDeployment => metaProcessSCDeployment tx (txSndAddr tx)
  | SCInvoking => metaProcessSCInvoking tx (txSndAddr tx) (txRcvAddr tx)
  | BuiltInFunctionCall =>
      if ESDTFlag txFlags then metaProcessSCInvoking tx (txSndAddr tx) (txRcvAddr tx) else metaWrongTransaction tx acntSnd txHash
  | _ => metaWrongTransaction tx acntSnd txHash
  end.

Definition metaProcessTransaction (tx : option Transaction) : RM ReturnCode :=
  match tx with
  | None => throw (Ok, ErrNilTransaction)
  | Some tx =>
      let! (acntSnd, acntDst) := orCode Ok (getAccounts (txSndAddr tx) (txRcvAddr tx)) in
      let! txHash := orCode Ok (liftR (CalculateHash (aTransaction tx))) in
      handle (checkTxValues tx acntSnd acntDst false) (metaCheckFailed tx) (fun _ => metaExecuteTransaction tx acntSnd txHash)
  end.
End Processor.
