(* ===== verification/Economics.v ===== *)
(** * Gas and fees: process/economics.

    The settings by epoch (gasConfigHandler.go, rewardsConfigHandler.go), parsed and checked,
    and the arithmetic of fees over them (economicsData.go, apiEconomicsData.go).  A price
    for processing is a product of 64-bit floating point numbers, which are those of
    Stdlib's [SpecFloat]. *)

From stdpp Require Import base list gmap sorting strings.
From Stdlib Require Import ZArith Lia SpecFloat.
From S2P Require Import Prelude FeeHandler TxProcessor.

(** ** The Go standard library *)

(** float64 *)
Abbreviation float64 := spec_float.
Definition float64OfUint64 (n : Z) : float64 := binary_normalize 53 1024 n 0 false.
Definition float64Mul : float64 -> float64 -> float64 := SFmul 53 1024.
Definition float64Lt : float64 -> float64 -> bool := SFltb.
Definition one : float64 := float64OfUint64 1.

(** The integral part of a finite number. *)
Definition truncated (f : float64) : option Z :=
  match f with
  | S754_zero _ => Some 0
  | S754_finite sign m e => let n := Z.shiftl (Zpos m) e in Some (if sign then - n else n)
  | _ => None
  end.

(** strconv.ParseUint in base 10 with 64 bits *)
Definition isDigit (c : Z) : bool := (48 <=? c) && (c <=? 57).
Fixpoint digitsValue (acc : Z) (s : bytes) : option Z :=
  match s with
  | [] => Some acc
  | c :: s => if isDigit c then digitsValue (acc * 10 + (c - 48)) s else None
  end.
Definition someDigits (s : bytes) : option Z := match s with [] => None | _ => digitsValue 0 s end.
Definition ParseUint (s : bytes) : option Z := n ← someDigits s; if n <? 2 ^ 64 then Some n else None.

(** big.Int: SetString in base 10, Uint64, Div, and the length of Bytes *)
Definition SetString (s : bytes) : option Z :=
  match s with
  | c :: r => if c =? 45 then option_map Z.opp (someDigits r) else if c =? 43 then someDigits r else someDigits s
  | [] => None
  end.
Definition bigUint64 (z : Z) : Z := u64 (Z.abs z).
Definition bigDiv (x y : Z) : option Z := if y =? 0 then None else Some (if y <? 0 then - (x / (- y)) else x / y).
Definition bigBytesLen (z : Z) : Z := (Z.log2_up (Z.abs z + 1) + 7) / 8.

(** ** Configuration: config/economicsConfig.go *)

Record GasLimitSetting := mkGasLimitSetting {
  glsEnableEpoch : Z;
  glsMaxGasLimitPerBlock : bytes;
  glsMaxGasLimitPerMiniBlock : bytes;
  glsMaxGasLimitPerMetaBlock : bytes;
  glsMaxGasLimitPerMetaMiniBlock : bytes;
  glsMaxGasLimitPerTx : bytes;
  glsMinGasLimit : bytes;
  glsExtraGasLimitGuardedTx : bytes;
}.

Record FeeSettings := mkFeeSettings {
  GasLimitSettings : list GasLimitSetting;
  fsGasPerDataByte : bytes;
  fsMinGasPrice : bytes;
  fsGasPriceModifier : float64;
  fsMaxGasPriceSetGuardian : bytes;
}.

Record EpochRewardSettings := mkEpochRewardSettings {
  ersLeaderPercentage : float64;
  ersDeveloperPercentage : float64;
  ersProtocolSustainabilityPercentage : float64;
  ersProtocolSustainabilityAddress : bytes;
  ersTopUpGradientPoint : bytes;
  ersTopUpFactor : float64;
  ersEpochEnable : Z;
}.

Record YearSetting := mkYearSetting { ysYear : Z; ysMaximumInflation : float64 }.

Record EconomicsConfig := mkEconomicsConfig {
  cfgGenesisTotalSupply : bytes;
  cfgMinimumInflation : float64;
  cfgYearSettings : list YearSetting;
  RewardsConfigByEpoch : list EpochRewardSettings;
  cfgFeeSettings : FeeSettings;
}.

(** The errors of the configuration, with the epoch where one is given. *)
Inductive economicsErr :=
| ErrInvalidGasModifier
| ErrEmptyGasLimitSettings
| ErrInvalidMinimumGasLimitForTx
| ErrInvalidMaxGasLimitPerBlock (epoch : Z)
| ErrInvalidMaxGasLimitPerMiniBlock (epoch : Z)
| ErrInvalidMaxGasLimitPerMetaBlock (epoch : Z)
| ErrInvalidMaxGasLimitPerMetaMiniBlock (epoch : Z)
| ErrInvalidMaxGasLimitPerTx (epoch : Z)
| ErrInvalidExtraGasLimitGuardedTx (epoch : Z)
| ErrInvalidMinimumGasPrice
| ErrInvalidGasPerDataByte
| ErrInvalidGenesisTotalSupply
| ErrInvalidMaxGasPriceSetGuardian
| ErrInvalidInflationPercentages
| ErrEmptyEpochRewardsConfig
| ErrEmptyYearSettings
| ErrInvalidRewardsPercentages
| ErrNilProtocolSustainabilityAddress
| ErrInvalidRewardsTopUpGradientPoint.

(** ** The settings of the gas *)

Record gasConfig := mkGasConfig {
  gasLimitSettingEpoch : Z;
  maxGasLimitPerBlock : Z;
  maxGasLimitPerMiniBlock : Z;
  maxGasLimitPerMetaBlock : Z;
  maxGasLimitPerMetaMiniBlock : Z;
  maxGasLimitPerTx : Z;
  minGasLimit : Z;
  extraGasLimitGuardedTx : Z;
}.

Record gasConfigHandler := mkGasConfigHandler {
  gasLimitSettings : list gasConfig;
  minGasPrice : Z;
  gasPerDataByte : Z;
  genesisTotalSupply : Z;
  maxGasPriceSetGuardian : Z;
}.

Definition epsilon : float64 := binary_normalize 53 1024 6044629098073146 (-79) false.

(** [x, err = strconv.ParseUint(s, ..); if err != nil { return nil, e }] *)
Definition orErr {E X} (o : option X) (e : E) : E + X := match o with Some x => inr x | None => inl e end.

Definition checkAndParseGasLimitSettings (s : GasLimitSetting) : economicsErr + gasConfig :=
  let epoch := glsEnableEpoch s in
  let? minGas := orErr (ParseUint (glsMinGasLimit s)) ErrInvalidMinimumGasLimitForTx in
  let? perBlock := orErr (ParseUint (glsMaxGasLimitPerBlock s)) (ErrInvalidMaxGasLimitPerBlock epoch) in
  let? perMiniBlock := orErr (ParseUint (glsMaxGasLimitPerMiniBlock s)) (ErrInvalidMaxGasLimitPerMiniBlock epoch) in
  let? perMetaBlock := orErr (ParseUint (glsMaxGasLimitPerMetaBlock s)) (ErrInvalidMaxGasLimitPerMetaBlock epoch) in
  let? perMetaMiniBlock := orErr (ParseUint (glsMaxGasLimitPerMetaMiniBlock s)) (ErrInvalidMaxGasLimitPerMetaMiniBlock epoch) in
  let? perTx := orErr (ParseUint (glsMaxGasLimitPerTx s)) (ErrInvalidMaxGasLimitPerTx epoch) in
  let? extra := orErr (ParseUint (glsExtraGasLimitGuardedTx s)) (ErrInvalidExtraGasLimitGuardedTx epoch) in
  if perBlock <? minGas then inl (ErrInvalidMaxGasLimitPerBlock epoch)
  else if perMiniBlock <? minGas then inl (ErrInvalidMaxGasLimitPerMiniBlock epoch)
  else if perMetaBlock <? minGas then inl (ErrInvalidMaxGasLimitPerMetaBlock epoch)
  else if perMetaMiniBlock <? minGas then inl (ErrInvalidMaxGasLimitPerMetaMiniBlock epoch)
  else if perTx <? minGas then inl (ErrInvalidMaxGasLimitPerTx epoch)
  else inr (mkGasConfig epoch perBlock perMiniBlock perMetaBlock perMetaMiniBlock perTx minGas extra).

Fixpoint parseAll {E X Y} (f : X -> E + Y) (l : list X) : E + list Y :=
  match l with
  | [] => inr []
  | x :: l => let? y := f x in let? l := parseAll f l in inr (y :: l)
  end.

Definition checkAndParseFeeSettings (s : FeeSettings) : economicsErr + list gasConfig :=
  if float64Lt one (fsGasPriceModifier s) || float64Lt (fsGasPriceModifier s) epsilon then inl ErrInvalidGasModifier
  else
    match GasLimitSettings s with
    | [] => inl ErrEmptyGasLimitSettings
    | l => parseAll checkAndParseGasLimitSettings l
    end.

Definition convertGenericValues (economics : EconomicsConfig) : economicsErr + (Z * Z * Z * Z) :=
  let s := cfgFeeSettings economics in
  let? price := orErr (ParseUint (fsMinGasPrice s)) ErrInvalidMinimumGasPrice in
  let? perByte := orErr (ParseUint (fsGasPerDataByte s)) ErrInvalidGasPerDataByte in
  let? supply := orErr (SetString (cfgGenesisTotalSupply economics)) ErrInvalidGenesisTotalSupply in
  let? maxPrice := orErr (ParseUint (fsMaxGasPriceSetGuardian s)) ErrInvalidMaxGasPriceSetGuardian in
  inr (price, perByte, supply, maxPrice).

(** sort.Slice puts equal epochs in any order: [sortSlice] is one way to sort. *)
Definition newGasConfigHandler (sortSlice : list gasConfig -> list gasConfig) (economics : EconomicsConfig) : economicsErr + gasConfigHandler :=
  let? gasConfigSlice := checkAndParseFeeSettings (cfgFeeSettings economics) in
  let? (price, perByte, supply, maxPrice) := convertGenericValues economics in
  inr (mkGasConfigHandler (sortSlice gasConfigSlice) price perByte supply maxPrice).

(** The loop of getGasConfigForEpoch, over the settings after the first one. *)
Definition gasConfigFrom (epoch : Z) (first : gasConfig) (l : list gasConfig) : gasConfig :=
  foldl (fun setting g => if gasLimitSettingEpoch g <=? epoch then g else setting) first l.

(** An empty list, which newGasConfigHandler refuses, is an index out of range. *)
Definition getGasConfigForEpoch (h : gasConfigHandler) (epoch : Z) : gasConfig :=
  match gasLimitSettings h with
  | first :: l => gasConfigFrom epoch first l
  | [] => mkGasConfig 0 0 0 0 0 0 0 0
  end.

Definition getMinGasLimit h epoch := minGasLimit (getGasConfigForEpoch h epoch).
Definition getExtraGasLimitGuardedTx h epoch := extraGasLimitGuardedTx (getGasConfigForEpoch h epoch).
Definition getMaxGasLimitPerMetaBlock h epoch := maxGasLimitPerMetaBlock (getGasConfigForEpoch h epoch).
Definition getMaxGasLimitPerBlock h epoch := maxGasLimitPerBlock (getGasConfigForEpoch h epoch).
Definition getMaxGasLimitPerMetaMiniBlock h epoch := maxGasLimitPerMetaMiniBlock (getGasConfigForEpoch h epoch).
Definition getMaxGasLimitPerMiniBlock h epoch := maxGasLimitPerMiniBlock (getGasConfigForEpoch h epoch).
Definition getMaxGasLimitPerBlockForSafeCrossShard h epoch :=
  let gc := getGasConfigForEpoch h epoch in Z.min (maxGasLimitPerBlock gc) (maxGasLimitPerMetaBlock gc).
Definition getMaxGasLimitPerMiniBlockForSafeCrossShard h epoch :=
  let gc := getGasConfigForEpoch h epoch in Z.min (maxGasLimitPerMiniBlock gc) (maxGasLimitPerMetaMiniBlock gc).
Definition getMaxGasLimitPerTx h epoch := maxGasLimitPerTx (getGasConfigForEpoch h epoch).

(** ** The settings of the rewards *)

Record rewardsConfig := mkRewardsConfig {
  rewardsSettingEpoch : Z;
  leaderPercentage : float64;
  protocolSustainabilityPercentage : float64;
  protocolSustainabilityAddress : bytes;
  developerPercentage : float64;
  topUpGradientPoint : Z;
  topUpFactor : float64;
}.

Definition isPercentageInvalid (percentage : float64) : bool :=
  float64Lt percentage (S754_zero false) || float64Lt one percentage.

(** It gives the gradient point, which the code parses again. *)
Definition checkRewardConfig (c : EpochRewardSettings) : economicsErr + Z :=
  if isPercentageInvalid (ersLeaderPercentage c) || isPercentageInvalid (ersDeveloperPercentage c)
     || isPercentageInvalid (ersProtocolSustainabilityPercentage c) || isPercentageInvalid (ersTopUpFactor c)
  then inl ErrInvalidRewardsPercentages
  else if blen (ersProtocolSustainabilityAddress c) =? 0 then inl ErrNilProtocolSustainabilityAddress
  else orErr (SetString (ersTopUpGradientPoint c)) ErrInvalidRewardsTopUpGradientPoint.

Definition parseRewardsSetting (c : EpochRewardSettings) : economicsErr + rewardsConfig :=
  let? gradientPoint := checkRewardConfig c in
  inr (mkRewardsConfig (ersEpochEnable c) (ersLeaderPercentage c) (ersProtocolSustainabilityPercentage c)
         (ersProtocolSustainabilityAddress c) (ersDeveloperPercentage c) gradientPoint (ersTopUpFactor c)).

Definition checkAndParseRewardsSettings : list EpochRewardSettings -> economicsErr + list rewardsConfig := parseAll parseRewardsSetting.

Definition newRewardsConfigHandler (sortSlice : list rewardsConfig -> list rewardsConfig) (l : list EpochRewardSettings)
    : economicsErr + list rewardsConfig :=
  let? rewardsConfigSlice := checkAndParseRewardsSettings l in inr (sortSlice rewardsConfigSlice).

(** The settings of an epoch are in force from the next one on. *)
Definition rewardsConfigFrom (epoch : Z) (first : rewardsConfig) (l : list rewardsConfig) : rewardsConfig :=
  foldl (fun setting r => if rewardsSettingEpoch r <? epoch then r else setting) first l.

Definition getRewardsConfigForEpoch (h : list rewardsConfig) (epoch : Z) : rewardsConfig :=
  match h with
  | first :: l => rewardsConfigFrom epoch first l
  | [] => mkRewardsConfig 0 S754_nan S754_nan [] S754_nan 0 S754_nan
  end.

Definition getLeaderPercentage h epoch := leaderPercentage (getRewardsConfigForEpoch h epoch).
Definition getDeveloperPercentage h epoch := developerPercentage (getRewardsConfigForEpoch h epoch).
Definition getProtocolSustainabilityPercentage h epoch := protocolSustainabilityPercentage (getRewardsConfigForEpoch h epoch).
Definition getProtocolSustainabilityAddress h epoch := protocolSustainabilityAddress (getRewardsConfigForEpoch h epoch).
Definition getTopUpFactor h epoch := topUpFactor (getRewardsConfigForEpoch h epoch).
Definition getTopUpGradientPoint h epoch := topUpGradientPoint (getRewardsConfigForEpoch h epoch).

(** ** The economics *)

Record economicsData := mkEconomicsData {
  theGasConfigHandler : gasConfigHandler;
  theRewardsConfigHandler : list rewardsConfig;
  gasPriceModifier : float64;
  minInflation : float64;
  yearSettings : gmap Z float64;
}.

(** What the economics are made with besides the configuration: the epochs of the two flags
    (common/enablers), the current epoch, the check of guarded transactions, and what Go
    makes of a floating point number that is no uint64. *)
Class EconomicsEnv := mkEconomicsEnv {
  GetCurrentEpoch : Z;
  GasPriceModifierEnableEpoch : Z;
  PenalizedTooMuchGasEnableEpoch : Z;
  isGuardedTransaction : Transaction -> bool;
  uint64OfOther : float64 -> Z;
}.

Definition checkEconomicsConfig (economics : EconomicsConfig) : economicsErr + unit :=
  if isPercentageInvalid (cfgMinimumInflation economics) then inl ErrInvalidInflationPercentages
  else
    match RewardsConfigByEpoch economics, cfgYearSettings economics with
    | [], _ => inl ErrEmptyEpochRewardsConfig
    | _, [] => inl ErrEmptyYearSettings
    | _, years => if existsb (fun y => isPercentageInvalid (ysMaximumInflation y)) years then inl ErrInvalidInflationPercentages else inr tt
    end.

Definition NewEconomicsData (sortGas : list gasConfig -> list gasConfig) (sortRewards : list rewardsConfig -> list rewardsConfig)
    (economics : EconomicsConfig) : economicsErr + economicsData :=
  let? _ := checkEconomicsConfig economics in
  let years := foldl (fun m y => <[ysYear y := ysMaximumInflation y]> m) ∅ (cfgYearSettings economics) in
  let? gasHandler := newGasConfigHandler sortGas economics in
  let? rewardsHandler := newRewardsConfigHandler sortRewards (RewardsConfigByEpoch economics) in
  inr (mkEconomicsData gasHandler rewardsHandler (fsGasPriceModifier (cfgFeeSettings economics)) (cfgMinimumInflation economics) years).

(** data.TransactionWithFeeHandler: transactions, smart contract results, and other messages. *)
Inductive TransactionWithFeeHandler :=
| feeTx (tx : Transaction)
| feeSCR (scr : SmartContractResult)
| feeOther (gasLimit gasPrice value : Z) (data : bytes).

(** The methods of the messages; the fields of gas are of 64 bits. *)
Definition GetGasLimit (t : TransactionWithFeeHandler) : Z :=
  u64 (match t with feeTx tx => txGasLimit tx | feeSCR scr => scrGasLimit scr | feeOther gasLimit _ _ _ => gasLimit end).
Definition GetGasPrice (t : TransactionWithFeeHandler) : Z :=
  u64 (match t with feeTx tx => txGasPrice tx | feeSCR scr => scrGasPrice scr | feeOther _ gasPrice _ _ => gasPrice end).
Definition GetValue (t : TransactionWithFeeHandler) : Z :=
  match t with feeTx tx => txValue tx | feeSCR scr => scrValue scr | feeOther _ _ value _ => value end.
Definition GetData (t : TransactionWithFeeHandler) : bytes :=
  match t with feeTx tx => txData tx | feeSCR scr => scrData scr | feeOther _ _ _ data => data end.

Definition isSmartContractResult (t : TransactionWithFeeHandler) : bool := match t with feeSCR _ => true | _ => false end.

Section Economics.
Context {CO : CoreLib} {EE : EconomicsEnv}.
Variable ed : economicsData.
Notation gasHandler := (theGasConfigHandler ed).
Notation rewardsHandler := (theRewardsConfigHandler ed).
Implicit Types (t : TransactionWithFeeHandler) (epoch : Z).

Definition GasPriceModifierFlagInEpoch (epoch : Z) : bool := GasPriceModifierEnableEpoch <=? epoch.
Definition PenalizedTooMuchGasFlagInEpoch (epoch : Z) : bool := PenalizedTooMuchGasEnableEpoch <=? epoch.

(** uint64 of a float64; the result is up to the implementation when it does not fit. *)
Definition uint64OfFloat64 (f : float64) : Z :=
  match truncated f with
  | Some n => if (0 <=? n) && (n <? 2 ^ 64) then n else u64 (uint64OfOther f)
  | None => u64 (uint64OfOther f)
  end.

(** *** Settings *)

Definition LeaderPercentageInEpoch := getLeaderPercentage rewardsHandler.
Definition LeaderPercentage := LeaderPercentageInEpoch GetCurrentEpoch.
Definition MinInflationRate := minInflation ed.
Definition MaxInflationRate (year : Z) : float64 := default (minInflation ed) (yearSettings ed !! year).
Definition GenesisTotalSupply := genesisTotalSupply gasHandler.
Definition MinGasPrice := minGasPrice gasHandler.
Definition GasPriceModifierInEpoch (epoch : Z) : float64 :=
  if negb (GasPriceModifierFlagInEpoch epoch) then one else gasPriceModifier ed.
Definition GasPriceModifier := GasPriceModifierInEpoch GetCurrentEpoch.
Definition MinGasPriceForProcessing : Z := uint64OfFloat64 (float64Mul (float64OfUint64 (minGasPrice gasHandler)) GasPriceModifier).
Definition MinGasLimitInEpoch := getMinGasLimit gasHandler.
Definition MinGasLimit := MinGasLimitInEpoch GetCurrentEpoch.
Definition ExtraGasLimitGuardedTxInEpoch := getExtraGasLimitGuardedTx gasHandler.
Definition ExtraGasLimitGuardedTx := ExtraGasLimitGuardedTxInEpoch GetCurrentEpoch.
Definition MaxGasPriceSetGuardian := maxGasPriceSetGuardian gasHandler.
Definition GasPerDataByte := gasPerDataByte gasHandler.
Definition MaxGasLimitPerBlockInEpoch (shardID epoch : Z) : Z :=
  if shardID =? MetachainShardId then getMaxGasLimitPerMetaBlock gasHandler epoch else getMaxGasLimitPerBlock gasHandler epoch.
Definition MaxGasLimitPerBlock (shardID : Z) : Z := MaxGasLimitPerBlockInEpoch shardID GetCurrentEpoch.
Definition MaxGasLimitPerMiniBlockInEpoch (shardID epoch : Z) : Z :=
  if shardID =? MetachainShardId then getMaxGasLimitPerMetaMiniBlock gasHandler epoch else getMaxGasLimitPerMiniBlock gasHandler epoch.
Definition MaxGasLimitPerMiniBlock (shardID : Z) : Z := MaxGasLimitPerMiniBlockInEpoch shardID GetCurrentEpoch.
Definition MaxGasLimitPerBlockForSafeCrossShardInEpoch := getMaxGasLimitPerBlockForSafeCrossShard gasHandler.
Definition MaxGasLimitPerBlockForSafeCrossShard := MaxGasLimitPerBlockForSafeCrossShardInEpoch GetCurrentEpoch.
Definition MaxGasLimitPerMiniBlockForSafeCrossShardInEpoch := getMaxGasLimitPerMiniBlockForSafeCrossShard gasHandler.
Definition MaxGasLimitPerMiniBlockForSafeCrossShard := MaxGasLimitPerMiniBlockForSafeCrossShardInEpoch GetCurrentEpoch.
Definition MaxGasLimitPerTxInEpoch := getMaxGasLimitPerTx gasHandler.
Definition MaxGasLimitPerTx := MaxGasLimitPerTxInEpoch GetCurrentEpoch.
Definition DeveloperPercentageInEpoch := getDeveloperPercentage rewardsHandler.
Definition DeveloperPercentage := DeveloperPercentageInEpoch GetCurrentEpoch.
Definition ProtocolSustainabilityPercentageInEpoch := getProtocolSustainabilityPercentage rewardsHandler.
Definition ProtocolSustainabilityPercentage := ProtocolSustainabilityPercentageInEpoch GetCurrentEpoch.
Definition ProtocolSustainabilityAddressInEpoch := getProtocolSustainabilityAddress rewardsHandler.
Definition ProtocolSustainabilityAddress := ProtocolSustainabilityAddressInEpoch GetCurrentEpoch.
Definition RewardsTopUpGradientPointInEpoch := getTopUpGradientPoint rewardsHandler.
Definition RewardsTopUpGradientPoint := RewardsTopUpGradientPointInEpoch GetCurrentEpoch.
Definition RewardsTopUpFactorInEpoch := getTopUpFactor rewardsHandler.
Definition RewardsTopUpFactor := RewardsTopUpFactorInEpoch GetCurrentEpoch.

(** *** Fees *)

Definition GasPriceForProcessingInEpoch t (epoch : Z) : Z :=
  uint64OfFloat64 (float64Mul (float64OfUint64 (GetGasPrice t)) (GasPriceModifierInEpoch epoch)).
Definition GasPriceForProcessing t : Z := GasPriceForProcessingInEpoch t GetCurrentEpoch.

Definition GasPriceForMove t : Z := GetGasPrice t.

Definition ComputeGasLimitInEpoch t (epoch : Z) : Z :=
  let gasLimit := u64 (getMinGasLimit gasHandler epoch + u64 (u64 (blen (GetData t)) * gasPerDataByte gasHandler)) in
  match t with
  | feeTx tx => if isGuardedTransaction tx then u64 (gasLimit + getExtraGasLimitGuardedTx gasHandler epoch) else gasLimit
  | _ => gasLimit
  end.
Definition edComputeGasLimit t : Z := ComputeGasLimitInEpoch t GetCurrentEpoch.

Definition ComputeMoveBalanceFeeInEpoch t (epoch : Z) : Z :=
  if isSmartContractResult t then 0 else SafeMul (GasPriceForMove t) (ComputeGasLimitInEpoch t epoch).
Definition edComputeMoveBalanceFee t : Z := ComputeMoveBalanceFeeInEpoch t GetCurrentEpoch.

Definition ComputeFeeForProcessingInEpoch t (gasToUse epoch : Z) : Z := SafeMul (GasPriceForProcessingInEpoch t epoch) gasToUse.
Definition edComputeFeeForProcessing t (gasToUse : Z) : Z := ComputeFeeForProcessingInEpoch t gasToUse GetCurrentEpoch.

(** A failed subtraction is logged. *)
Definition SplitTxGasInCategoriesInEpoch t (epoch : Z) : Z * Z :=
  let gasLimitMove := ComputeGasLimitInEpoch t epoch in
  let (gasLimitProcess, _) := SafeSubUint64 (GetGasLimit t) gasLimitMove in (gasLimitMove, gasLimitProcess).
Definition SplitTxGasInCategories t : Z * Z := SplitTxGasInCategoriesInEpoch t GetCurrentEpoch.

Definition ComputeTxFeeInEpoch t (epoch : Z) : Z :=
  if GasPriceModifierFlagInEpoch epoch then
    if isSmartContractResult t then ComputeFeeForProcessingInEpoch t (GetGasLimit t) epoch
    else
      let (gasLimitForMoveBalance, difference) := SplitTxGasInCategoriesInEpoch t epoch in
      let moveBalanceFee := SafeMul (GasPriceForMove t) gasLimitForMoveBalance in
      if GetGasLimit t <=? gasLimitForMoveBalance then moveBalanceFee
      else moveBalanceFee + ComputeFeeForProcessingInEpoch t difference epoch
  else if PenalizedTooMuchGasFlagInEpoch epoch then SafeMul (GetGasLimit t) (GetGasPrice t)
  else ComputeMoveBalanceFeeInEpoch t epoch.
Definition edComputeTxFee t : Z := ComputeTxFeeInEpoch t GetCurrentEpoch.

Definition CheckValidityTxValuesInEpoch t (epoch : Z) : txErr + unit :=
  if GetGasPrice t <? minGasPrice gasHandler then inl ErrInsufficientGasPriceInTx
  else if negb (isSmartContractResult t) && (GetGasLimit t <? ComputeGasLimitInEpoch t epoch) then inl ErrInsufficientGasLimitInTx
  else if getMaxGasLimitPerBlock gasHandler epoch <=? GetGasLimit t then inl ErrMoreGasThanGasLimitPerBlock
  else if bigBytesLen (genesisTotalSupply gasHandler) <? bigBytesLen (GetValue t) then inl ErrTxValueOutOfBounds
  else if genesisTotalSupply gasHandler <? GetValue t then inl ErrTxValueTooBig
  else inr tt.
Definition edCheckValidityTxValues t : txErr + unit := CheckValidityTxValuesInEpoch t GetCurrentEpoch.

(** apiEconomicsData *)
Definition apiCheckValidityTxValues t : txErr + unit :=
  if MaxGasLimitPerTx <? GetGasLimit t then inl ErrMoreGasThanGasLimitPerMiniBlockForSafeCrossShard
  else edCheckValidityTxValues t.

(** A division by zero panics: no result. *)
Definition ComputeGasUsedAndFeeBasedOnRefundValueInEpoch t (refundValue epoch : Z) : option (Z * Z) :=
  let txFee := ComputeTxFeeInEpoch t epoch in
  if refundValue =? 0 then Some (GetGasLimit t, txFee)
  else
    let flagCorrectTxFee := negb (PenalizedTooMuchGasFlagInEpoch epoch) && negb (GasPriceModifierFlagInEpoch epoch) in
    let txFee := if flagCorrectTxFee then SafeMul (GetGasLimit t) (GetGasPrice t) else txFee in
    let txFee := txFee - refundValue in
    let moveBalanceGasUnits := ComputeGasLimitInEpoch t epoch in
    let scOpFee := txFee - ComputeMoveBalanceFeeInEpoch t epoch in
    scOpGasUnits ← bigDiv scOpFee (GasPriceForProcessingInEpoch t epoch);
    Some (u64 (moveBalanceGasUnits + bigUint64 scOpGasUnits), txFee).
Definition ComputeGasUsedAndFeeBasedOnRefundValue t (refundValue : Z) : option (Z * Z) :=
  ComputeGasUsedAndFeeBasedOnRefundValueInEpoch t refundValue GetCurrentEpoch.

Definition ComputeTxFeeBasedOnGasUsedInEpoch t (gasUsed epoch : Z) : Z :=
  let moveBalanceGasLimit := ComputeGasLimitInEpoch t epoch in
  let moveBalanceFee := ComputeMoveBalanceFeeInEpoch t epoch in
  if gasUsed <=? moveBalanceGasLimit then moveBalanceFee
  else moveBalanceFee + ComputeFeeForProcessingInEpoch t (u64 (gasUsed - moveBalanceGasLimit)) epoch.
Definition ComputeTxFeeBasedOnGasUsed t (gasUsed : Z) : Z := ComputeTxFeeBasedOnGasUsedInEpoch t gasUsed GetCurrentEpoch.

Definition ComputeGasLimitBasedOnBalanceInEpoch t (balance epoch : Z) : option (txErr + Z) :=
  let balanceWithoutTransferValue := balance - GetValue t in
  if balanceWithoutTransferValue <? 1 then Some (inl ErrInsufficientFunds)
  else
    let moveBalanceFee := ComputeMoveBalanceFeeInEpoch t epoch in
    if balanceWithoutTransferValue <? moveBalanceFee then Some (inl ErrInsufficientFunds)
    else if negb (GasPriceModifierFlagInEpoch epoch) then
      gasLimit ← bigDiv balanceWithoutTransferValue (GetGasPrice t);
      Some (inr (bigUint64 gasLimit))
    else
      let remained := balanceWithoutTransferValue - moveBalanceFee in
      gasLimitFromRemained ← bigDiv remained (GasPriceForProcessingInEpoch t epoch);
      Some (inr (u64 (ComputeGasLimitInEpoch t epoch + bigUint64 gasLimitFromRemained))).
Definition ComputeGasLimitBasedOnBalance t (balance : Z) : option (txErr + Z) :=
  ComputeGasLimitBasedOnBalanceInEpoch t balance GetCurrentEpoch.
End Economics.

(** ** What the fees promise *)

(** What is relied on of mx-chain-core-go: products of uint64 are exact, the difference of a
    number and a smaller one is too, and whether a transaction is guarded does not depend
    on its gas. *)
Definition withGasLimit (gasLimit : Z) (tx : Transaction) : Transaction :=
  mkTransaction (txNonce tx) (txValue tx) (txRcvAddr tx) (txRcvUserName tx) (txSndAddr tx) (txSndUserName tx) (txGasPrice tx)
    gasLimit (txData tx) (txSignature tx) (txVersion tx) (txOptions tx) (txGuardianAddr tx).

Class EconomicsLaws {CO : CoreLib} {EE : EconomicsEnv} : Prop := {
  mul_exact : forall a b, 0 <= a -> 0 <= b -> SafeMul a b = a * b;
  sub_exact : forall a b, 0 <= b <= a -> SafeSubUint64 a b = (a - b, None);
  guarded_gas : forall l tx, isGuardedTransaction (withGasLimit l tx) = isGuardedTransaction tx;
}.

Section EconomicsTheorems.
Context {CO : CoreLib} {EE : EconomicsEnv} {EL : EconomicsLaws}.
Variable ed : economicsData.
Implicit Types (t : TransactionWithFeeHandler) (tx : Transaction) (epoch : Z).

Lemma u64_bounds z : 0 <= u64 z < 2 ^ 64.
Proof. apply Z.mod_pos_bound. lia. Qed.

Lemma u64_id z : 0 <= z < 2 ^ 64 -> u64 z = z.
Proof. apply Z.mod_small. Qed.

Lemma gasPrice_bounds t : 0 <= GetGasPrice t < 2 ^ 64.
Proof. apply u64_bounds. Qed.
Lemma gasLimitOf_bounds t : 0 <= GetGasLimit t < 2 ^ 64.
Proof. apply u64_bounds. Qed.

Lemma gasLimit_bounds t epoch : 0 <= ComputeGasLimitInEpoch ed t epoch < 2 ^ 64.
Proof. unfold ComputeGasLimitInEpoch. destruct t; try apply u64_bounds. destruct (isGuardedTransaction tx); apply u64_bounds. Qed.

Lemma price_bounds t epoch : 0 <= GasPriceForProcessingInEpoch ed t epoch < 2 ^ 64.
Proof.
  unfold GasPriceForProcessingInEpoch, uint64OfFloat64. destruct (truncated _) as [n|]; [|apply u64_bounds].
  destruct ((0 <=? n) && (n <? 2 ^ 64)) eqn:E; [lia|apply u64_bounds].
Qed.

Lemma moveFee_eq tx epoch : ComputeMoveBalanceFeeInEpoch ed (feeTx tx) epoch =
  GetGasPrice (feeTx tx) * ComputeGasLimitInEpoch ed (feeTx tx) epoch.
Proof. unfold ComputeMoveBalanceFeeInEpoch. simpl. apply mul_exact; [apply u64_bounds|apply (gasLimit_bounds (feeTx tx) epoch)]. Qed.

Lemma processingFee_eq t gas epoch : 0 <= gas -> ComputeFeeForProcessingInEpoch ed t gas epoch = GasPriceForProcessingInEpoch ed t epoch * gas.
Proof. intros Hg. apply mul_exact; [apply price_bounds|done]. Qed.

(** The fee with the modifier of the gas price. *)
Lemma txFee_modified tx epoch : GasPriceModifierFlagInEpoch epoch = true ->
  ComputeTxFeeInEpoch ed (feeTx tx) epoch = ComputeMoveBalanceFeeInEpoch ed (feeTx tx) epoch +
    GasPriceForProcessingInEpoch ed (feeTx tx) epoch * Z.max 0 (GetGasLimit (feeTx tx) - ComputeGasLimitInEpoch ed (feeTx tx) epoch).
Proof.
  intros Hf. unfold ComputeTxFeeInEpoch. rewrite Hf. simpl isSmartContractResult. cbv iota. unfold SplitTxGasInCategoriesInEpoch.
  change (SafeMul (GasPriceForMove (feeTx tx)) ?g) with (SafeMul (GetGasPrice (feeTx tx)) g).
  destruct (SafeSubUint64 _ _) as [d e] eqn:Es. pose proof (gasLimit_bounds (feeTx tx) epoch) as Hg.
  pose proof (gasPrice_bounds (feeTx tx)) as Hp.
  rewrite moveFee_eq, mul_exact by lia.
  destruct (Z.leb_spec (GetGasLimit (feeTx tx)) (ComputeGasLimitInEpoch ed (feeTx tx) epoch)).
  - rewrite Z.max_l by lia. lia.
  - rewrite sub_exact in Es by lia. assert (d = GetGasLimit (feeTx tx) - ComputeGasLimitInEpoch ed (feeTx tx) epoch) as -> by congruence.
    rewrite processingFee_eq by lia. rewrite Z.max_r by lia. done.
Qed.

Lemma txFee_penalized tx epoch : GasPriceModifierFlagInEpoch epoch = false -> PenalizedTooMuchGasFlagInEpoch epoch = true ->
  ComputeTxFeeInEpoch ed (feeTx tx) epoch = GetGasLimit (feeTx tx) * GetGasPrice (feeTx tx).
Proof. intros Hf Hp. unfold ComputeTxFeeInEpoch. rewrite Hf, Hp. apply mul_exact; [apply gasLimitOf_bounds|apply gasPrice_bounds]. Qed.

(** Another gas limit changes nothing but the gas limit. *)
Lemma gasLimit_with l tx epoch : ComputeGasLimitInEpoch ed (feeTx (withGasLimit l tx)) epoch = ComputeGasLimitInEpoch ed (feeTx tx) epoch.
Proof. unfold ComputeGasLimitInEpoch. by rewrite guarded_gas. Qed.

Lemma div_small a b q : 0 <= a -> 0 < b -> q = a / b -> b * q <= a < b * (q + 1).
Proof. intros Ha Hb ->. pose proof (Z.mul_div_le a b Hb). pose proof (Z.mul_succ_div_gt a b Hb). lia. Qed.

(** C32: ComputeGasLimitBasedOnBalance gives the greatest gas limit that the balance can pay, with
    the value: the fee for it can be paid, and the fee for more cannot, as long as no gas
    limit of 64 bits is too small for the balance.  When it refuses, no gas limit that the
    transaction may have can be paid, and without a price it panics.  One of the flags
    GasPriceModifierFlag and PenalizedTooMuchGasFlag is set in the epoch: before
    them the fee was that of moving the balance, whatever the gas limit. *)
Theorem gas_limit_is_maximal tx balance epoch : GasPriceModifierFlagInEpoch epoch || PenalizedTooMuchGasFlagInEpoch epoch = true ->
  let t := feeTx tx in
  let gas := ComputeGasLimitInEpoch ed t epoch in
  let price := if GasPriceModifierFlagInEpoch epoch then GasPriceForProcessingInEpoch ed t epoch else GetGasPrice t in
  let fee l := ComputeTxFeeInEpoch ed (feeTx (withGasLimit l tx)) epoch in
  match ComputeGasLimitBasedOnBalanceInEpoch ed t balance epoch with
  | Some (inr limit) => balance - txValue tx < price * (2 ^ 64 - gas) ->
      gas <= limit < 2 ^ 64 /\ fee limit + txValue tx <= balance /\
      forall more, limit < more < 2 ^ 64 -> balance < fee more + txValue tx
  | Some (inl _) => forall l, gas <= l < 2 ^ 64 -> 0 < fee l -> balance < fee l + txValue tx
  | None => price = 0
  end.
Proof.
  intros Hflags t gas price fee. pose proof (gasLimit_bounds t epoch) as Hgas. fold gas in Hgas.
  pose proof (u64_bounds (txGasPrice tx)) as Hgp. set (p := GetGasPrice t) in *. change (u64 (txGasPrice tx)) with p in Hgp.
  assert (Hmove : ComputeMoveBalanceFeeInEpoch ed t epoch = p * gas) by apply moveFee_eq.
  assert (Hfee : forall l, gas <= l < 2 ^ 64 -> fee l = if GasPriceModifierFlagInEpoch epoch then p * gas + price * (l - gas) else l * p).
  { intros l Hl. unfold fee, price. destruct (GasPriceModifierFlagInEpoch epoch) eqn:Hf.
    - rewrite txFee_modified, moveFee_eq, gasLimit_with by done.
      change (GetGasPrice (feeTx (withGasLimit l tx))) with p. change (GetGasLimit (feeTx (withGasLimit l tx))) with (u64 l).
      change (GasPriceForProcessingInEpoch ed (feeTx (withGasLimit l tx)) epoch) with (GasPriceForProcessingInEpoch ed t epoch).
      fold t gas. rewrite u64_id, Z.max_r by lia. done.
    - rewrite txFee_penalized by done. change (GetGasLimit (feeTx (withGasLimit l tx))) with (u64 l). rewrite u64_id by lia. done. }
  assert (Hprice : 0 <= price < 2 ^ 64) by (unfold price; destruct (GasPriceModifierFlagInEpoch epoch); [apply price_bounds|done]).
  unfold ComputeGasLimitBasedOnBalanceInEpoch. change (GetValue t) with (txValue tx). rewrite Hmove.
  destruct (Z.ltb_spec (balance - txValue tx) 1); [intros l Hl H0; lia|].
  destruct (Z.ltb_spec (balance - txValue tx) (p * gas)).
  { intros l Hl _. rewrite Hfee by done. destruct (GasPriceModifierFlagInEpoch epoch); nia. }
  destruct (GasPriceModifierFlagInEpoch epoch) eqn:Hf; cbv beta iota delta [negb bigDiv mbind option_bind]; fold price p.
  - change (GasPriceForProcessingInEpoch ed t epoch) with price. destruct (Z.eqb_spec price 0) as [|Hne]; [done|].
    destruct (Z.ltb_spec price 0); [lia|]. intros Hsmall. set (q := (balance - txValue tx - p * gas) / price).
    pose proof (div_small (balance - txValue tx - p * gas) price q ltac:(lia) ltac:(lia) eq_refl) as Hq. fold gas.
    assert (Hq0 : 0 <= q < 2 ^ 64 - gas) by nia. unfold bigUint64. rewrite Z.abs_eq, (u64_id q), u64_id by lia.
    split; [lia|]. split; [rewrite Hfee by lia; lia|]. intros more Hmore. rewrite Hfee by lia. nia.
  - destruct (Z.eqb_spec p 0) as [|Hne]; [done|]. destruct (Z.ltb_spec p 0); [lia|]. intros Hsmall. change price with p in Hsmall.
    set (q := (balance - txValue tx) / p). pose proof (div_small (balance - txValue tx) p q ltac:(lia) ltac:(lia) eq_refl) as Hq.
    assert (Hq0 : gas <= q < 2 ^ 64) by nia. unfold bigUint64. rewrite Z.abs_eq, (u64_id q) by lia.
    split; [lia|]. split; [rewrite Hfee by lia; lia|]. intros more Hmore. rewrite Hfee by lia. nia.
Qed.

(** C33: When the fee of the gas that was not used is given back, the gas that was used and the fee
    for it are computed back from the refund. *)
Theorem refund_gives_gas_used tx used epoch : GasPriceModifierFlagInEpoch epoch = true ->
  let t := feeTx tx in
  0 < GasPriceForProcessingInEpoch ed t epoch -> ComputeGasLimitInEpoch ed t epoch <= used <= GetGasLimit t ->
  ComputeGasUsedAndFeeBasedOnRefundValueInEpoch ed t (ComputeFeeForProcessingInEpoch ed t (GetGasLimit t - used) epoch) epoch =
  Some (used, ComputeTxFeeBasedOnGasUsedInEpoch ed t used epoch).
Proof.
  intros Hf t Hq Hused. set (gas := ComputeGasLimitInEpoch ed t epoch) in *. set (q := GasPriceForProcessingInEpoch ed t epoch) in *.
  pose proof (gasLimit_bounds t epoch) as Hgas. pose proof (u64_bounds (txGasLimit tx)) as Hl.
  change (u64 (txGasLimit tx)) with (GetGasLimit t) in Hl. fold gas in Hgas.
  unfold ComputeGasUsedAndFeeBasedOnRefundValueInEpoch, ComputeTxFeeBasedOnGasUsedInEpoch. fold gas.
  pose proof (txFee_modified tx epoch Hf) as Htx. fold t gas q in Htx. rewrite Hf, andb_false_r, Htx.
  rewrite !processingFee_eq by (apply u64_bounds || lia). fold q.
  rewrite Z.max_r by lia. destruct (Z.eqb_spec (q * (GetGasLimit t - used)) 0).
  - assert (used = GetGasLimit t) as -> by nia. f_equal. f_equal.
    destruct (Z.leb_spec (GetGasLimit t) gas); [replace (GetGasLimit t) with gas by lia; lia|]. rewrite u64_id by lia. done.
  - unfold bigDiv. destruct (Z.eqb_spec q 0); [lia|]. simpl. destruct (Z.ltb_spec q 0); [lia|].
    replace (_ - _ - ComputeMoveBalanceFeeInEpoch ed t epoch) with ((used - gas) * q) by lia. rewrite Z.div_mul by lia.
    unfold bigUint64. rewrite Z.abs_eq, (u64_id (used - gas)), u64_id by lia. f_equal. f_equal; [lia|].
    destruct (Z.leb_spec used gas); [replace used with gas by lia; lia|]. lia.
Qed.
End EconomicsTheorems.

(** ** The settings of an epoch *)

Definition byEpoch (g1 g2 : gasConfig) : Prop := gasLimitSettingEpoch g1 <= gasLimitSettingEpoch g2.

Section Settings.
(** sort.Slice sorts. *)
Variable sortSlice : list gasConfig -> list gasConfig.
Hypothesis sort_same : forall l, sortSlice l ≡ₚ l.
Hypothesis sort_sorted : forall l, StronglySorted byEpoch (sortSlice l).

Lemma parseAll_spec {E X Y} (f : X -> E + Y) l l' : parseAll f l = inr l' -> Forall2 (fun x y => f x = inr y) l l'.
Proof.
  revert l'. induction l as [|x l IH]; intros l'; simpl; [by intros [= <-]|].
  destruct (f x) as [|y] eqn:Ef; simpl; [done|]. destruct (parseAll f l) as [|ys]; simpl; [done|]. intros [= <-]. auto.
Qed.

Lemma Forall2_elem_r {X Y} (R : X -> Y -> Prop) l l' y : Forall2 R l l' -> y ∈ l' -> exists x, x ∈ l /\ R x y.
Proof. induction 1 as [|a b l l' Hab _ IH]; [by intros ?%elem_of_nil|]. intros [->|Hy]%elem_of_cons; [|destruct (IH Hy) as (x & ? & ?)]; [exists a|exists x]; split; try done; [by left|by right]. Qed.
Lemma Forall2_elem_l {X Y} (R : X -> Y -> Prop) l l' x : Forall2 R l l' -> x ∈ l -> exists y, y ∈ l' /\ R x y.
Proof. intros H. apply (Forall2_elem_r (flip R) l'). by apply Forall2_flip. Qed.

Lemma from_spec epoch first l : StronglySorted byEpoch (first :: l) ->
  let g := gasConfigFrom epoch first l in
  g ∈ first :: l /\ (g = first \/ gasLimitSettingEpoch g <= epoch) /\
  forall c, c ∈ l -> gasLimitSettingEpoch c <= epoch -> gasLimitSettingEpoch c <= gasLimitSettingEpoch g.
Proof.
  unfold gasConfigFrom. revert first. induction l as [|c l IH]; intros first Hs; simpl; [set_solver|].
  apply StronglySorted_inv in Hs as [Hs Hf]. pose proof Hs as Hs'. apply StronglySorted_inv in Hs' as [Hs' Hc].
  apply Forall_cons in Hf as [Hfc Hf]. destruct (Z.leb_spec (gasLimitSettingEpoch c) epoch) as [Hle|Hlt].
  - destruct (IH c Hs) as (Hin & Hg & Hmax). split; [set_solver|]. split.
    + right. destruct Hg as [->|]; done.
    + intros d [->|Hd]%elem_of_cons Hde; [|by apply Hmax].
      apply elem_of_cons in Hin as [->|Hin]; [done|]. rewrite Forall_forall in Hc. by apply Hc.
  - assert (E : foldl (fun s g => if gasLimitSettingEpoch g <=? epoch then g else s) first l = first).
    { clear IH Hs Hs' Hf Hfc. revert Hc. induction l as [|d l IHl]; intros Hc; simpl; [done|]. apply Forall_cons in Hc as [Hcd Hc].
      unfold byEpoch in Hcd. destruct (Z.leb_spec (gasLimitSettingEpoch d) epoch); [lia|]. by apply IHl. }
    rewrite E. split; [set_solver|]. split; [by left|]. intros d [->|Hd]%elem_of_cons Hde; [lia|].
    rewrite Forall_forall in Hc. specialize (Hc d Hd). unfold byEpoch in Hc. lia.
Qed.

Lemma parsed_setting s g : checkAndParseGasLimitSettings s = inr g -> gasLimitSettingEpoch g = glsEnableEpoch s /\
  minGasLimit g <= Z.min (maxGasLimitPerBlock g) (Z.min (maxGasLimitPerMiniBlock g) (maxGasLimitPerTx g)).
Proof.
  unfold checkAndParseGasLimitSettings, orErr, rbind. repeat (case_match; [|done] || (case_match; [done|])).
  intros [= <-]. simpl. split; [done|lia].
Qed.

Lemma handler_settings economics h : newGasConfigHandler sortSlice economics = inr h ->
  exists l first rest, Forall2 (fun s g => checkAndParseGasLimitSettings s = inr g) (GasLimitSettings (cfgFeeSettings economics)) l /\
    sortSlice l = first :: rest /\ forall epoch, getGasConfigForEpoch h epoch = gasConfigFrom epoch first rest.
Proof.
  unfold newGasConfigHandler, checkAndParseFeeSettings. case_match; [done|].
  destruct (GasLimitSettings (cfgFeeSettings economics)) as [|s r]; [done|]. destruct (parseAll _ _) as [|l] eqn:El; simpl; [done|].
  apply parseAll_spec in El. destruct (convertGenericValues economics) as [|[[[p b] y] x]]; simpl; [done|]. intros [= <-].
  destruct (sortSlice l) as [|first rest] eqn:Es.
  - pose proof (sort_same l) as Hp. rewrite Es in Hp. apply Permutation_nil in Hp as ->. by inversion El.
  - exists l, first, rest. split; [done|]. split; [done|]. done.
Qed.

(** Of the gas settings of a configuration, the one in force in an epoch is one with the
    greatest epoch that is not later, or the first one; its limits are at least its
    minimum. *)
Theorem gas_settings_in_force economics h epoch : newGasConfigHandler sortSlice economics = inr h ->
  let g := getGasConfigForEpoch h epoch in
  (exists s, s ∈ GasLimitSettings (cfgFeeSettings economics) /\ checkAndParseGasLimitSettings s = inr g) /\
  minGasLimit g <= Z.min (maxGasLimitPerBlock g) (Z.min (maxGasLimitPerMiniBlock g) (maxGasLimitPerTx g)) /\
  (forall s, s ∈ GasLimitSettings (cfgFeeSettings economics) -> glsEnableEpoch s <= epoch ->
     glsEnableEpoch s <= gasLimitSettingEpoch g <= epoch) /\
  ((forall s, s ∈ GasLimitSettings (cfgFeeSettings economics) -> epoch < glsEnableEpoch s) ->
   forall s, s ∈ GasLimitSettings (cfgFeeSettings economics) -> gasLimitSettingEpoch g <= glsEnableEpoch s).
Proof.
  intros Hh g. destruct (handler_settings _ _ Hh) as (l & first & rest & Hl & Hsort & Hg).
  pose proof (sort_sorted l) as Hs. rewrite Hsort in Hs. destruct (from_spec epoch first rest Hs) as (Hin & Hle & Hmax).
  apply StronglySorted_inv in Hs as [_ Hfirst]. rewrite Forall_forall in Hfirst. rewrite <- Hg in Hin, Hle, Hmax. fold g in Hin, Hle, Hmax.
  assert (Hof : forall c, c ∈ first :: rest -> exists s, s ∈ GasLimitSettings (cfgFeeSettings economics) /\ checkAndParseGasLimitSettings s = inr c).
  { intros c Hc. rewrite <- Hsort in Hc. apply (elem_of_Permutation_proper _ _ _ (sort_same l)) in Hc. exact (Forall2_elem_r _ _ _ _ Hl Hc). }
  assert (Hto : forall s, s ∈ GasLimitSettings (cfgFeeSettings economics) -> exists c, c ∈ first :: rest /\ checkAndParseGasLimitSettings s = inr c).
  { intros s Hc. destruct (Forall2_elem_l _ _ _ _ Hl Hc) as (c & Hc' & E). exists c. split; [|done].
    rewrite <- Hsort. by apply (elem_of_Permutation_proper _ _ _ (sort_same l)). }
  assert (Hmin : forall c, c ∈ first :: rest -> gasLimitSettingEpoch first <= gasLimitSettingEpoch c).
  { intros c [->|Hc]%elem_of_cons; [done|]. by apply Hfirst. }
  destruct (Hof g Hin) as (sg & Hsg & Eg). destruct (parsed_setting _ _ Eg) as [Eepoch Hlimits].
  split; [by exists sg|]. split; [done|]. split.
  - intros s Hsin Hse. destruct (Hto s Hsin) as (c & Hc & Ec). destruct (parsed_setting _ _ Ec) as [Ece _]. rewrite <- Ece in *.
    pose proof (Hmin c Hc). apply elem_of_cons in Hc as [->|Hc].
    + pose proof (Hmin g Hin). destruct Hle as [E|?]; [rewrite E in *|]; lia.
    + pose proof (Hmax c Hc Hse). destruct Hle as [E|?]; [rewrite E in *|]; lia.
  - intros Hlate s Hsin. destruct (Hto s Hsin) as (c & Hc & Ec). destruct (parsed_setting _ _ Ec) as [<- _].
    destruct Hle as [E|?]; [rewrite E; by apply Hmin|]. specialize (Hlate sg Hsg). lia.
Qed.
End Settings.

(** ** The fees of the transaction processors *)

Definition economicsFees {CO : CoreLib} {EE : EconomicsEnv} (ed : economicsData) : FeeComputer := {|
  ComputeTxFee tx := edComputeTxFee ed (feeTx tx);
  ComputeMoveBalanceFee tx := edComputeMoveBalanceFee ed (feeTx tx);
  ComputeGasLimit tx := edComputeGasLimit ed (feeTx tx);
  ComputeFeeForProcessing tx gasToUse := edComputeFeeForProcessing ed (feeTx tx) (u64 gasToUse);
  CheckValidityTxValues tx := edCheckValidityTxValues ed (feeTx tx);
|}.

Section Fees.
Context {CO : CoreLib} {EE : EconomicsEnv} {EL : EconomicsLaws}.
Variable ed : economicsData.

Lemma economics_moveFee tx : 0 <= edComputeMoveBalanceFee ed (feeTx tx).
Proof.
  unfold edComputeMoveBalanceFee. rewrite moveFee_eq. pose proof (gasPrice_bounds (feeTx tx)).
  pose proof (gasLimit_bounds ed (feeTx tx) GetCurrentEpoch). nia.
Qed.

Lemma economics_processingFee tx gas : 0 <= edComputeFeeForProcessing ed (feeTx tx) (u64 gas).
Proof.
  pose proof (u64_bounds gas). unfold edComputeFeeForProcessing. rewrite processingFee_eq by lia.
  pose proof (price_bounds ed (feeTx tx) GetCurrentEpoch). nia.
Qed.

Lemma economics_txFee tx : 0 <= edComputeTxFee ed (feeTx tx).
Proof.
  unfold edComputeTxFee. pose proof (economics_moveFee tx) as Hm. pose proof (price_bounds ed (feeTx tx) GetCurrentEpoch).
  destruct (GasPriceModifierFlagInEpoch GetCurrentEpoch) eqn:Hf.
  - rewrite txFee_modified by done. unfold edComputeMoveBalanceFee in Hm. nia.
  - destruct (PenalizedTooMuchGasFlagInEpoch GetCurrentEpoch) eqn:Hp.
    + rewrite txFee_penalized by done. pose proof (gasPrice_bounds (feeTx tx)). pose proof (gasLimitOf_bounds (feeTx tx)). nia.
    + unfold ComputeTxFeeInEpoch. by rewrite Hf, Hp.
Qed.
End Fees.

(** ** An example *)

Module EconomicsEx.
(** Two settings of the gas, the second one from epoch 4 on. *)
Definition exSetting (epoch : Z) (minGas : string) : GasLimitSetting :=
  mkGasLimitSetting epoch (str "1500000000") (str "1500000000") (str "15000000000") (str "15000000000") (str "600000000") (str minGas)
    (str "50000").
Definition exFeeSettings (minGas perByte minPrice : string) (modifier : float64) : FeeSettings :=
  mkFeeSettings [exSetting 0 minGas; exSetting 4 minGas] (str perByte) (str minPrice) modifier (str "2000000000").
Definition exRewards : EpochRewardSettings :=
  mkEpochRewardSettings one (S754_zero false) (S754_zero false) (str "erd") (str "3000000") one 0.
Definition exEconomicsConfig (settings : FeeSettings) : EconomicsConfig :=
  mkEconomicsConfig (str "20000000000000000000000000") (S754_zero false) [mkYearSetting 1 one] [exRewards] settings.

(** 0.01, and the settings of the main network. *)
Definition aHundredth : float64 := binary_normalize 53 1024 5764607523034235 (-59) false.
Definition mainnet : EconomicsConfig := exEconomicsConfig (exFeeSettings "50000" "1500" "1000000000" aHundredth).

Definition ofConfig (c : EconomicsConfig) : economicsData :=
  match NewEconomicsData id id c with
  | inr ed => ed
  | inl _ => mkEconomicsData (mkGasConfigHandler [] 0 0 0 0) [] S754_nan S754_nan ∅
  end.

#[export] Instance exEnv : EconomicsEnv := mkEconomicsEnv 5 2 0 (fun _ => false) (fun _ => 0).

Definition exCoreLib : CoreLib := {|
  SafeMul := Z.mul;
  SafeSubUint64 a b := if a <? b then (0, Some (ErrOther [])) else (a - b, None);
  MetachainShardId := 2 ^ 32 - 1;
  MinMetaTxExtraGasCost := 1000000;
  BuiltInFunctionSetGuardian := [];
  SignalErrorOperation := [];
  IsSmartContractAddress _ := false;
  CodeMetadataGuarded _ := false;
  CalculateHash _ := inr [];
  IsGetNodeFromDBError _ := false;
  errorText _ := [];
|}.

Lemma exLaws : EconomicsLaws (CO := exCoreLib).
Proof. split; [done| |done]. intros a b H. simpl. destruct (Z.ltb_spec a b); [lia|done]. Qed.

Definition exCall : Transaction := mkTransaction 0 7 [2] [] [1] [] 1000000000 600000 [1; 2; 3] [] 1 0 [].
Abbreviation ed := (ofConfig mainnet).

Lemma gas_limit_is_maximal_witness : ComputeGasLimitBasedOnBalanceInEpoch (CO := exCoreLib) ed (feeTx exCall) 60000000000000 5 = Some (inr 604499) /\
  60000000000000 < ComputeTxFeeInEpoch (CO := exCoreLib) ed (feeTx (withGasLimit 604500 exCall)) 5 + 7.
Proof.
  pose proof (gas_limit_is_maximal (CO := exCoreLib) (EL := exLaws) ed exCall 60000000000000 5 eq_refl) as H.
  assert (E : ComputeGasLimitBasedOnBalanceInEpoch (CO := exCoreLib) ed (feeTx exCall) 60000000000000 5 = Some (inr 604499)) by by vm_compute.
  split; [done|]. cbv zeta in H. rewrite E in H. destruct H as (_ & _ & H); [by vm_compute|]. apply (H 604500). lia.
Defined.

Lemma refund_gives_gas_used_witness :
  ComputeGasUsedAndFeeBasedOnRefundValueInEpoch (CO := exCoreLib) ed (feeTx exCall)
    (ComputeFeeForProcessingInEpoch (CO := exCoreLib) ed (feeTx exCall) (600000 - 100000) 5) 5 =
  Some (100000, ComputeTxFeeBasedOnGasUsedInEpoch (CO := exCoreLib) ed (feeTx exCall) 100000 5).
Proof.
  apply (refund_gives_gas_used (CO := exCoreLib) (EL := exLaws) ed exCall 100000 5 eq_refl); [by vm_compute|].
  split; apply Z.leb_le; by vm_compute.
Defined.

(** The two settings are in order already. *)
#[export] Instance byEpoch_dec : RelDecision byEpoch.
Proof. intros g1 g2. unfold byEpoch. apply _. Defined.
#[export] Instance byEpoch_total : Total byEpoch.
Proof. intros g1 g2. unfold byEpoch. lia. Qed.
#[export] Instance byEpoch_trans : Transitive byEpoch.
Proof. intros g1 g2 g3. unfold byEpoch. lia. Qed.

Definition exSort : list gasConfig -> list gasConfig := merge_sort byEpoch.

Lemma gas_settings_in_force_witness : exists h, newGasConfigHandler exSort mainnet = inr h /\ gasLimitSettingEpoch (getGasConfigForEpoch h 5) = 4.
Proof.
  destruct (newGasConfigHandler exSort mainnet) as [|h] eqn:E; [by vm_compute in E|]. exists h. split; [done|].
  destruct (gas_settings_in_force exSort (fun l => merge_sort_Permutation _ l) (fun l => StronglySorted_merge_sort _ l) mainnet h 5 E)
    as (_ & _ & H & _). specialize (H (exSetting 4 "50000")). destruct H as [H1 _]; [right; left|done|].
  simpl in H1. revert E. vm_compute. intros [= <-]. done.
Defined.
End EconomicsEx.
