(* ===== verification/TxLedger.v ===== *)
(** * The ledger that the transaction processors see: the saved accounts, the objects that
    were loaded, and the fees; and a program logic over it.

    [LedgerLaws] is what the processors rely on of the accounts, and [dbLedgerLaws] that
    [AccountsDB] satisfies it. *)

From stdpp Require Import base list gmap.
From Stdlib Require Import ZArith Lia.
From S2P Require Import Prelude TrieNode TrieMap CommonTrie TrackableDataTrie UserAccount AccountsDB.
From S2P Require Import TrackableSpec AccountsSim AccountsUndo AccountsCodes AccountsRun AccountsRevert.
From S2P Require Import FeeHandler TxProcessor.

(** ** The accounts *)

(** What loading gives: the saved data, or those of a new account. *)
Definition dataAt (a : bytes) (m : gmap bytes UserAccountData) : UserAccountData :=
  default (mkUserAccountData 0 0 [] [] a 0 [] [] []) (m !! a).

Inductive moneyChange : (UserAccountData -> UserAccountData) -> Prop :=
| change_balance b : moneyChange (withBalance b)
| change_nonce n : moneyChange (withNonce n).

(** [ledger s m h]: the accounts [m] are saved in [s], and the objects [h] are loaded. *)
Class LedgerLaws (A : Type) {AA : AccountsAdapter A} := mkLedgerLaws {
  ledger : A -> gmap bytes UserAccountData -> gmap nat UserAccountData -> Prop;
  known : bytes -> Prop;
  ledger_forget s m h h' : ledger s m h -> h' ⊆ h -> ledger s m h';
  ledger_address s m h a d : ledger s m h -> m !! a = Some d -> Address d = a;
  ledger_load s m h a : ledger s m h -> known a ->
    exists s' r, aaLoadAccount a s = (s', inr r) /\ h !! r = None /\ ledger s' m (<[r := dataAt a m]> h);
  ledger_account s m h r d : ledger s m h -> h !! r = Some d ->
    exists a, aaAccount r s = (s, inr a) /\ accountData a = d;
  ledger_put s m h r d a f : ledger s m h -> h !! r = Some d -> aaAccount r s = (s, inr a) -> moneyChange f ->
    exists s', aaPutAccount r (onFields f a) s = (s', inr tt) /\ ledger s' m (<[r := f d]> h);
  ledger_save s m h r d : ledger s m h -> h !! r = Some d ->
    exists s', aaSaveAccount r s = (s', inr tt) /\ ledger s' (<[Address d := d]> m) h;
  ledger_journal s m h : ledger s m h -> exists n, aaJournalLen s = (s, inr n);
}.

(** ** The abstract state *)

Record astate := mkA { saved : gmap bytes UserAccountData; objs : gmap nat UserAccountData; paid : feeHandler }.

Definition set_saved v (q : astate) : astate := mkA v (objs q) (paid q).
Definition set_objs v (q : astate) : astate := mkA (saved q) v (paid q).
Definition set_paid v (q : astate) : astate := mkA (saved q) (objs q) v.
Definition putObj (r : nat) (d : UserAccountData) (q : astate) : astate := set_objs (<[r := d]> (objs q)) q.

Section Logic.
Context {A P : Type} {AA : AccountsAdapter A} {LL : LedgerLaws A}.
Abbreviation W := (World A P).

Definition models (w : W) (q : astate) : Prop := ledger (accts w) (saved q) (objs q) /\ fees w = paid q.

(** From a world of the state [q], [m] gives a world of a state of [Q], or fails in one
    of [R]. *)
Definition wp {E X} (m : SE W E X) (Q : X -> astate -> Prop) (R : E -> astate -> Prop) (q : astate) : Prop :=
  forall w, models w q ->
  match m w with
  | (w', inr x) => exists q', models w' q' /\ Q x q'
  | (w', inl e) => exists q', models w' q' /\ R e q'
  end.

Section Rules.
Context {E X Y : Type}.
Implicit Types (Q : X -> astate -> Prop) (R : E -> astate -> Prop).

Lemma xwp_ret (x : X) Q R q : Q x q -> wp (ret x) Q R q.
Proof. intros H w Hw. by exists q. Qed.

Lemma xwp_throw (e : E) Q R q : R e q -> wp (throw e) Q R q.
Proof. intros H w Hw. by exists q. Qed.

Lemma xwp_liftR (r : E + X) Q R q : (forall x, r = inr x -> Q x q) -> (forall e, r = inl e -> R e q) -> wp (liftR r) Q R q.
Proof. intros HQ HR w Hw. unfold liftR. destruct r; exists q; auto. Qed.

Lemma xwp_bind (m : SE W E Y) (f : Y -> SE W E X) Q R q : wp m (fun y => wp (f y) Q R) R q -> wp (bind m f) Q R q.
Proof.
  intros H w Hw. specialize (H w Hw). unfold bind. destruct (m w) as [w' [e|y]]; [done|].
  destruct H as (q' & Hw' & H). exact (H w' Hw').
Qed.

Lemma xwp_mono (m : SE W E X) Q R (Q' : X -> astate -> Prop) (R' : E -> astate -> Prop) q :
  wp m Q R q -> (forall x q', Q x q' -> Q' x q') -> (forall e q', R e q' -> R' e q') -> wp m Q' R' q.
Proof.
  intros H HQ HR w Hw. specialize (H w Hw). destruct (m w) as [w' [e|x]]; destruct H as (q' & ? & ?); exists q'; auto.
Qed.

Lemma xwp_onErr {E'} (m : SE W E' X) (h : E' -> SE W E X) Q R q : wp m Q (fun e => wp (h e) Q R) q -> wp (onErr m h) Q R q.
Proof.
  intros H w Hw. specialize (H w Hw). unfold onErr. destruct (m w) as [w' [e|x]]; [|done].
  destruct H as (q' & Hw' & H). exact (H w' Hw').
Qed.

Lemma xwp_handle {E'} (m : SE W E' Y) (h : E' -> SE W E X) (k : Y -> SE W E X) Q R q :
  wp m (fun y => wp (k y) Q R) (fun e => wp (h e) Q R) q -> wp (handle m h k) Q R q.
Proof.
  intros H w Hw. specialize (H w Hw). unfold handle. destruct (m w) as [w' [e|y]]; destruct H as (q' & Hw' & H); exact (H w' Hw').
Qed.
End Rules.

Lemma xwp_orCode {X} c (m : SE W txErr X) Q (R : ReturnCode * txErr -> astate -> Prop) q :
  wp m Q (fun e => R (c, e)) q -> wp (orCode c m) Q R q.
Proof. intros H. apply xwp_onErr. eapply xwp_mono; [exact H|done|]. intros e q' HR. by apply xwp_throw. Qed.

(** A call that changes nothing that the processors know, with errors of [C]. *)
Definition reads {E X} (C : E -> Prop) (m : SE W E X) : Prop := forall q, wp m (fun _ q' => q' = q) (fun e q' => q' = q /\ C e) q.

Lemma xwp_reads {E X} C (m : SE W E X) (Q : X -> astate -> Prop) (R : E -> astate -> Prop) q :
  reads C m -> (forall x, Q x q) -> (forall e, C e -> R e q) -> wp m Q R q.
Proof. intros Hm HQ HR. eapply xwp_mono; [apply Hm| |]; [by intros ? ? ->|]. intros ? ? [-> ?]. auto. Qed.

Lemma xreads_onErr {E E' X} C C' (m : SE W E X) (f : E -> E') : reads C m -> (forall e, C e -> C' (f e)) -> reads C' (onErr m (fun e => throw (f e))).
Proof. intros Hm Hf q. apply xwp_onErr. eapply xwp_mono; [apply Hm|done|]. intros e q' [-> He]. apply xwp_throw. auto. Qed.

Lemma xreads_bind {E X Y} C (m : SE W E Y) (f : Y -> SE W E X) : reads C m -> (forall y, reads C (f y)) -> reads C (bind m f).
Proof. intros Hm Hf q. apply xwp_bind. eapply xwp_mono; [apply Hm| |done]. intros y q' ->. apply Hf. Qed.

Lemma xreads_ret {E X} C (x : X) : reads (E := E) C (ret x).
Proof. intros q. by apply xwp_ret. Qed.

Lemma xreads_throw {E X} (C : E -> Prop) (e : E) : C e -> reads (X := X) C (throw e).
Proof. intros He q. by apply xwp_throw. Qed.

(** *** Fees and pools *)

Lemma xwp_onFees f (Q : unit -> astate -> Prop) (R : txErr -> astate -> Prop) q : Q tt (set_paid (f (paid q)) q) -> wp (onFees f) Q R q.
Proof. intros H w [Hl Hf]. exists (set_paid (f (paid q)) q). split; [|done]. split; [done|]. simpl. by rewrite Hf. Qed.

Lemma xwp_onPools {X} (m : SE P txErr X) (Q : X -> astate -> Prop) (R : txErr -> astate -> Prop) q :
  (forall x, Q x q) -> (forall p p' e, m p = (p', inl e) -> R e q) -> wp (onPools m) Q R q.
Proof.
  intros HQ HR w Hw. unfold onPools. destruct (m (pools w)) as [p [e|x]] eqn:Em; exists q; (split; [done|]); eauto.
Qed.

(** *** Accounts *)

Lemma xwp_LoadAccount a (Q : nat -> astate -> Prop) (R : txErr -> astate -> Prop) q : known a ->
  (forall r, objs q !! r = None -> Q r (putObj r (dataAt a (saved q)) q)) -> wp (LoadAccount a) Q R q.
Proof.
  intros Ha HQ w [Hl Hf]. unfold LoadAccount, onAccts.
  destruct (ledger_load (accts w) (saved q) (objs q) a Hl Ha) as (s' & r & E & Hr & Hl'). rewrite E.
  exists (putObj r (dataAt a (saved q)) q). split; [by split|]. by apply HQ.
Qed.

Lemma xwp_JournalLen (Q : Z -> astate -> Prop) (R : txErr -> astate -> Prop) q : (forall n, Q n q) -> wp JournalLen Q R q.
Proof.
  intros HQ w [Hl Hf]. unfold JournalLen, onAccts. destruct (ledger_journal _ _ _ Hl) as [n E]. rewrite E.
  exists q. split; [|auto]. by split.
Qed.

Lemma xwp_account r d (Q : userAccount -> astate -> Prop) (R : txErr -> astate -> Prop) q : objs q !! r = Some d ->
  (forall a, accountData a = d -> Q a q) -> wp (account r) Q R q.
Proof.
  intros Hr HQ w [Hl Hf]. unfold account, onAccts. destruct (ledger_account _ _ _ r d Hl Hr) as (a & E & Ha). rewrite E.
  exists q. split; [|auto]. by split.
Qed.

Lemma xwp_change r d (f : userAccount -> stateErr + userAccount) (Q : unit -> astate -> Prop) (R : txErr -> astate -> Prop) q :
  objs q !! r = Some d ->
  (forall a, accountData a = d -> match f a with
    | inl e => R (ErrState e) q
    | inr a' => exists g, moneyChange g /\ a' = onFields g a /\ Q tt (putObj r (g d) q)
    end) -> wp (changeAccount f r) Q R q.
Proof.
  intros Hr Hfa w [Hl Hf]. unfold changeAccount, onAccts. destruct (ledger_account _ _ _ r d Hl Hr) as (a & E & Ha).
  rewrite (bind_ok _ _ _ _ _ E). specialize (Hfa a Ha). destruct (f a) as [e|a'] eqn:Ef.
  - exists q. split; [|done]. by split.
  - destruct Hfa as (g & Hg & -> & HQ). rewrite (bind_ok _ _ (accts w) (accts w) (onFields g a)) by done.
    destruct (ledger_put _ _ _ r d a g Hl Hr E Hg) as (s' & E' & Hl'). rewrite E'.
    exists (putObj r (g d) q). split; [|done]. by split.
Qed.

Lemma xwp_AddToBalance r d v (Q : unit -> astate -> Prop) (R : txErr -> astate -> Prop) q : objs q !! r = Some d ->
  (Balance d + v < 0 -> R (ErrState TrackableDataTrie.ErrInsufficientFunds) q) ->
  (0 <= Balance d + v -> Q tt (putObj r (withBalance (Balance d + v) d) q)) -> wp (acntAddToBalance r v) Q R q.
Proof.
  intros Hr HR HQ. apply (xwp_change r d); [done|]. intros a <-. unfold AddToBalance.
  destruct (Z.ltb_spec (Balance (accountData a) + v) 0); [auto|]. eexists. split; [constructor|]. split; [done|]. auto.
Qed.

Lemma xwp_SubFromBalance r d v (Q : unit -> astate -> Prop) (R : txErr -> astate -> Prop) q : objs q !! r = Some d ->
  (Balance d - v < 0 -> R (ErrState TrackableDataTrie.ErrInsufficientFunds) q) ->
  (0 <= Balance d - v -> Q tt (putObj r (withBalance (Balance d - v) d) q)) -> wp (acntSubFromBalance r v) Q R q.
Proof.
  intros Hr HR HQ. apply (xwp_change r d); [done|]. intros a <-. unfold SubFromBalance.
  destruct (Z.ltb_spec (Balance (accountData a) - v) 0); [auto|]. eexists. split; [constructor|]. split; [done|]. auto.
Qed.

Lemma xwp_IncreaseNonce r d v (Q : unit -> astate -> Prop) (R : txErr -> astate -> Prop) q : objs q !! r = Some d ->
  Q tt (putObj r (withNonce (u64 (Nonce d + v)) d) q) -> wp (acntIncreaseNonce r v) Q R q.
Proof.
  intros Hr HQ. apply (xwp_change r d); [done|]. intros a <-. exists (withNonce (u64 (Nonce (accountData a) + v))).
  split; [constructor|]. by split.
Qed.

Lemma xwp_SaveAccount r d (Q : unit -> astate -> Prop) (R : txErr -> astate -> Prop) q : objs q !! r = Some d ->
  Q tt (set_saved (<[Address d := d]> (saved q)) q) -> wp (SaveAccount r) Q R q.
Proof.
  intros Hr HQ w [Hl Hf]. unfold SaveAccount, onAccts. destruct (ledger_save _ _ _ r d Hl Hr) as (s' & E & Hl'). rewrite E.
  exists (set_saved (<[Address d := d]> (saved q)) q). split; [|done]. by split.
Qed.
End Logic.

(** ** What the processors do to the saved accounts *)

Definition balanceAt (a : bytes) (m : gmap bytes UserAccountData) : Z := Balance (dataAt a m).
Definition nonceAt (a : bytes) (m : gmap bytes UserAccountData) : Z := Nonce (dataAt a m).

Definition putMoney (a : bytes) (nonce balance : Z) (m : gmap bytes UserAccountData) : gmap bytes UserAccountData :=
  <[a := withBalance balance (withNonce nonce (dataAt a m))]> m.

(** An account pays, as the sender of a transaction or not, or is paid. *)
Definition debit (a : bytes) (v : Z) (m : gmap bytes UserAccountData) := putMoney a (u64 (nonceAt a m + 1)) (balanceAt a m - v) m.
Definition debitOnly (a : bytes) (v : Z) (m : gmap bytes UserAccountData) := putMoney a (nonceAt a m) (balanceAt a m - v) m.
Definition credit (a : bytes) (v : Z) (m : gmap bytes UserAccountData) := putMoney a (nonceAt a m) (balanceAt a m + v) m.

(** The money of all accounts. *)
Definition totalBalance (m : gmap bytes UserAccountData) : Z := mapSum Balance m.

Lemma dataAt_insert a d m : dataAt a (<[a := d]> m) = d.
Proof. unfold dataAt. by rewrite lookup_insert_eq. Qed.

Lemma dataAt_insert_ne a b d m : a <> b -> dataAt a (<[b := d]> m) = dataAt a m.
Proof. intros Hne. unfold dataAt. by rewrite lookup_insert_ne. Qed.

Lemma balanceAt_put a n v m : balanceAt a (putMoney a n v m) = v.
Proof. unfold balanceAt, putMoney. by rewrite dataAt_insert. Qed.
Lemma nonceAt_put a n v m : nonceAt a (putMoney a n v m) = n.
Proof. unfold nonceAt, putMoney. by rewrite dataAt_insert. Qed.
Lemma dataAt_put_ne a b n v m : a <> b -> dataAt a (putMoney b n v m) = dataAt a m.
Proof. apply dataAt_insert_ne. Qed.
Lemma balanceAt_put_ne a b n v m : a <> b -> balanceAt a (putMoney b n v m) = balanceAt a m.
Proof. intros Hne. unfold balanceAt. by rewrite dataAt_put_ne. Qed.
Lemma nonceAt_put_ne a b n v m : a <> b -> nonceAt a (putMoney b n v m) = nonceAt a m.
Proof. intros Hne. unfold nonceAt. by rewrite dataAt_put_ne. Qed.

Lemma total_put a n v m : totalBalance (putMoney a n v m) = totalBalance m + v - balanceAt a m.
Proof. unfold totalBalance, putMoney, balanceAt, dataAt. rewrite mapSum_insert. by destruct (m !! a). Qed.

Lemma total_debit a v m : totalBalance (debit a v m) = totalBalance m - v.
Proof. unfold debit. rewrite total_put. lia. Qed.
Lemma total_debitOnly a v m : totalBalance (debitOnly a v m) = totalBalance m - v.
Proof. unfold debitOnly. rewrite total_put. lia. Qed.
Lemma total_credit a v m : totalBalance (credit a v m) = totalBalance m + v.
Proof. unfold credit. rewrite total_put. lia. Qed.

Create HintDb ledger.
#[export] Hint Rewrite balanceAt_put nonceAt_put total_debit total_debitOnly total_credit : ledger.
#[export] Hint Rewrite dataAt_put_ne balanceAt_put_ne nonceAt_put_ne using done : ledger.

(** What is at the address of a saved account is of that address. *)
Definition wellAddressed (m : gmap bytes UserAccountData) : Prop := forall a d, m !! a = Some d -> Address d = a.

Lemma dataAt_address a m : wellAddressed m -> Address (dataAt a m) = a.
Proof. intros Hm. unfold dataAt. destruct (m !! a) as [d|] eqn:E; [|done]. by apply Hm. Qed.

Section Synced.
Context {A P : Type} {AA : AccountsAdapter A} {LL : LedgerLaws A}.

Lemma xwp_addressed {E X} (m : SE (World A P) E X) (Q : X -> astate -> Prop) (R : E -> astate -> Prop) q :
  (wellAddressed (saved q) -> wp m Q R q) -> wp m Q R q.
Proof. intros H w [Hl Hf]. apply H; [|by split]. intros a d. by apply (ledger_address _ _ _ a d Hl). Qed.

(** The object is the account as it is saved. *)
Definition synced (r : nat) (a : bytes) (q : astate) : Prop := objs q !! r = Some (dataAt a (saved q)).

(** The object, and what it will be saved as. *)
Lemma xwp_save_as r a n v (Q : unit -> astate -> Prop) (R : txErr -> astate -> Prop) q :
  objs q !! r = Some (withBalance v (withNonce n (dataAt a (saved q)))) ->
  Q tt (set_saved (putMoney a n v (saved q)) q) -> wp (SaveAccount (P := P) r) Q R q.
Proof.
  intros Hr HQ. apply xwp_addressed. intros Hm. eapply xwp_SaveAccount; [exact Hr|]. simpl. by rewrite dataAt_address.
Qed.
End Synced.

(** ** The accounts database is a ledger *)

Section Instantiation.
Context {T : Type} `{CT : CommonTrie T} `{CL : !CommonTrieLaws T} `{SM : StoredMaps}.
Variable env : accountsEnv.
Variable storageKey : bytes -> Prop.
Variable addresses : gset bytes.
Variable isCode : bytes -> Prop.
Context `{AL : !AccountsLaws env storageKey addresses isCode}.
Variable order : gmap bytes dirtyData -> list (bytes * dirtyData).

Notation mainIs := (mainIs env addresses isCode).
Notation objOk := (objOk env storageKey addresses isCode).
Notation heapOk := (heapOk env storageKey addresses isCode).
Notation loadable := (loadable env storageKey).
Notation goesOn := (goesOn env storageKey addresses isCode).
Abbreviation AM := (SE (AccountsDB T) stateErr).

Definition dbAdapter : AccountsAdapter (AccountsDB T) :=
  mkAccountsAdapter _ (AccountsDB.LoadAccount env) (AccountsDB.SaveAccount env order) AccountsDB.JournalLen theAccount putAccount.

(** An object of which only the balance and the nonce were changed since it was loaded. *)
Definition isClean (m : gmap bytes UserAccountData) (acc : userAccount) : Prop :=
  dirty (dataTrieInteractor acc) = ∅ /\ hasNewCode acc = false /\
  CodeHash (accountData acc) = oldHash (m !! AddressBytes acc) /\
  RootHash (accountData acc) = match m !! AddressBytes acc with Some d => RootHash d | None => [] end.

Definition objectsAre (g : mapDB) (m : gmap bytes UserAccountData) (h : gmap nat UserAccountData) : Prop :=
  forall r d, h !! r = Some d -> exists acc, accounts g !! r = Some acc /\ accountData acc = d /\ isClean m acc.

Definition mapLedger (g : mapDB) (m : gmap bytes UserAccountData) (h : gmap nat UserAccountData) : Prop :=
  heapOk g /\ (exists codes, mainIs g m codes /\ refsOk m codes) /\
  (forall a d, m !! a = Some d -> loadable g (asLoaded a d)) /\ objectsAre g m h.

Definition dbLedger (s : AccountsDB T) (m : gmap bytes UserAccountData) (h : gmap nat UserAccountData) : Prop :=
  exists g, sim s g /\ mapLedger g m h.

(** The database of a ledger has the invariant of its runs. *)
Lemma dbLedger_invariant s m h : dbLedger s m h -> exists g, invariant env storageKey addresses isCode s g.
Proof. intros (g & Hs & Hok & (codes & HM & HR) & _). exists g. split; [done|]. split; [done|]. by exists m, codes. Qed.

Lemma loadable_mono g g' acc : dataTries g ⊆ dataTries g' -> loadable g acc -> loadable g' acc.
Proof.
  intros Hd [?|[[l Hl]|?]]; [by left| |by right; right]. right. left. exists l. by eapply lookup_weaken.
Qed.

Lemma dataAt_ok m codes g a : mainIs g m codes -> Address (dataAt a m) = a.
Proof.
  intros (_ & HA & _). unfold dataAt. destruct (m !! a) as [d|] eqn:E; [|done]. by apply (HA a d).
Qed.

Lemma load_adoes g m codes a : heapOk g -> mainIs g m codes -> (forall b d, m !! b = Some d -> loadable g (asLoaded b d)) -> a ∈ addresses ->
  exists g1 acc, adoes (AccountsDB.LoadAccount env a : AM _) g (fresh (dom (accounts g1)))
      (AccountsUndo.putObj (fresh (dom (accounts g1))) acc g1) /\
    goesOn g g1 /\ objOk (tries g1) acc /\ keepsLoaded (dataAt a m) acc g g1.
Proof.
  intros Hok HM Hl Ha. destruct (address_bytes (env := env) (storageKey := storageKey) (isCode := isCode) a Ha) as [_ Hne].
  unfold AccountsDB.LoadAccount. rewrite blen_nonempty by done. unfold dataAt. destruct (m !! a) as [d|] eqn:Ed; simpl.
  - destruct (proj1 (proj2 HM) _ _ Ed) as [_ Hd].
    destruct (loadData_adoes env storageKey addresses isCode a d g Hok Ha Hd (Hl a d Ed)) as (g1 & acc & Hrun & Hg & Ho & Hk).
    exists g1, acc. split; [|done]. eapply adoes_bind; [by eapply getAccount_adoes|]. rewrite Ed.
    eapply adoes_bind; [exact Hrun|]. apply adoes_newAccount.
  - exists g, (asLoaded a (mkUserAccountData 0 0 [] [] a 0 [] [] [])). split; [|split; [|split]].
    + eapply adoes_bind; [by eapply getAccount_adoes|]. rewrite Ed. simpl. unfold NewUserAccount. rewrite blen_nonempty by done.
      eapply adoes_bind; [apply adoes_ret|]. apply adoes_newAccount.
    + by apply goesOn_refl.
    + by apply objOk_fresh.
    + by split_and!.
Qed.

Lemma db_load s m h a : dbLedger s m h -> a ∈ addresses ->
  exists s' r, AccountsDB.LoadAccount env a s = (s', inr r) /\ h !! r = None /\ dbLedger s' m (<[r := dataAt a m]> h).
Proof.
  intros (g & Hs & Hok & (codes & HM & HR) & Hl & Ho) Ha.
  destruct (load_adoes g m codes a Hok HM Hl Ha) as (g1 & acc & Hrun & Hg1 & Hobj & Ed & Hdirty & Hcode & Eacc & Hdt).
  destruct (Hrun s Hs) as (s' & E & Hs'). set (r := fresh (dom (accounts g1))) in *. exists s', r. split; [done|].
  assert (Hr : h !! r = None).
  { destruct (h !! r) as [d|] eqn:Er; [|done]. destruct (Ho r d Er) as (acc' & E' & _). rewrite <- Eacc in E'.
    unfold r in E'. by rewrite fresh_none in E'. }
  split; [done|]. exists (AccountsUndo.putObj r acc g1). split; [done|].
  split; [apply heapOk_object; [apply Hg1|done]|]. split; [|split].
  - exists codes. split; [|done]. destruct HM as (Hm & HA & HC). split; [simpl; by rewrite (proj1 Hg1)|done].
  - intros b d Eb. eapply loadable_mono; [|by apply Hl]. done.
  - intros r' d. destruct (decide (r' = r)) as [->|Hne].
    + rewrite lookup_insert_eq. intros [= <-]. exists acc. split; [apply lookup_insert_eq|]. split; [done|].
      split; [done|]. split; [done|]. unfold AddressBytes. rewrite Ed, (dataAt_ok m codes g a HM). unfold dataAt.
      by destruct (m !! a).
    + rewrite lookup_insert_ne by done. intros Er. destruct (Ho r' d Er) as (acc' & E' & Hc). exists acc'.
      split; [|done]. simpl. rewrite lookup_insert_ne by done. by rewrite Eacc.
Qed.

Lemma change_address f d : moneyChange f -> Address (f d) = Address d /\ CodeHash (f d) = CodeHash d /\ RootHash (f d) = RootHash d.
Proof. by intros []. Qed.

Lemma db_put s m h r d acc f : dbLedger s m h -> h !! r = Some d -> theAccount r s = (s, inr acc) -> moneyChange f ->
  exists s', putAccount r (onFields f acc) s = (s', inr tt) /\ dbLedger s' m (<[r := f d]> h).
Proof.
  intros (g & Hs & Hok & HM & Hl & Ho) Er E Hf. destruct (Ho r d Er) as (acc' & E' & Hd & Hc).
  destruct (adoes_theAccount r acc' g E' s Hs) as (? & E2 & _). rewrite E in E2. injection E2 as _ <-.
  destruct (adoes_putAccount r (onFields f acc) g s Hs) as (s' & E3 & Hs'). exists s'. split; [done|].
  destruct (change_address f (accountData acc) Hf) as (Hfa & Hfc & Hfr).
  exists (AccountsUndo.putObj r (onFields f acc) g). split; [done|]. split; [|split; [exact HM|split]].
  - apply heapOk_object; [done|]. destruct (heap_objects _ _ _ _ _ Hok r acc E'). split; try done.
    unfold AddressBytes in *. simpl. by rewrite Hfa.
  - intros b d' Eb. by apply Hl.
  - intros r' d'. destruct (decide (r' = r)) as [->|Hne].
    + rewrite lookup_insert_eq. intros [= <-]. exists (onFields f acc). split; [apply lookup_insert_eq|].
      split; [simpl; by rewrite Hd|]. unfold isClean, AddressBytes in *. simpl. by rewrite Hfa, Hfc, Hfr.
    + rewrite lookup_insert_ne by done. intros Er'. destruct (Ho r' d' Er') as (acc' & ? & ?). exists acc'.
      split; [|done]. simpl. by rewrite lookup_insert_ne.
Qed.

(** Saving a clean object writes its data only. *)
Lemma save_adoes g m codes r acc : heapOk g -> mainIs g m codes -> accounts g !! r = Some acc -> isClean m acc ->
  exists g', adoes (AccountsDB.SaveAccount env order r : AM _) g tt g' /\
    g' = withMain (mainMap env (<[AddressBytes acc := accountData acc]> m) codes)
      (set_entries (entries g ++ [firstEntry (AddressBytes acc) (m !! AddressBytes acc)]) g).
Proof.
  intros Hok HM Er (Hd & Hn & _). set (a := AddressBytes acc).
  assert (Ha : a ∈ addresses) by apply (heap_objects _ _ _ _ _ Hok r acc Er).
  eexists. split; [|done]. unfold AccountsDB.SaveAccount.
  eapply adoes_bind; [by apply adoes_theAccount|]. eapply adoes_bind; [by eapply getAccount_adoes|].
  eapply adoes_bind; [apply journalFirst_adoes, (address_bytes (env := env) (storageKey := storageKey) (isCode := isCode) a Ha)|].
  assert (HM1 : mainIs (set_entries (entries g ++ [firstEntry a (m !! a)]) g) m codes) by exact HM.
  eapply adoes_bind.
  { unfold saveCodeAndDataTrie, saveDataTrie, SaveDirtyData, saveCode.
    eapply adoes_bind.
    - eapply adoes_bind; [eapply adoes_bind; [by apply adoes_theAccount|]|].
      + cbv zeta. rewrite decide_True by done. apply adoes_ret.
      + apply adoes_ret.
    - eapply adoes_bind; [by apply adoes_theAccount|]. rewrite Hn. apply adoes_ret. }
  eapply adoes_bind; [by apply adoes_theAccount|].
  by apply (saveAccount_adoes env storageKey addresses isCode _ m codes acc HM1).
Qed.

Lemma refsOk_same m codes a d : refsOk m codes -> CodeHash d = oldHash (m !! a) -> refsOk (<[a := d]> m) codes.
Proof.
  intros HR Hd h Hh. rewrite HR by done. rewrite users_put. unfold usedBy, hasCode.
  destruct (m !! a) as [d0|] eqn:E; simpl in Hd; rewrite Hd; [lia|]. rewrite decide_False by done. lia.
Qed.

Lemma db_save s m h r d : dbLedger s m h -> h !! r = Some d ->
  exists s', AccountsDB.SaveAccount env order r s = (s', inr tt) /\ dbLedger s' (<[Address d := d]> m) h.
Proof.
  intros (g & Hs & Hok & (codes & HM & HR) & Hl & Ho) Er. destruct (Ho r d Er) as (acc & Ea & Hd & Hc).
  destruct (save_adoes g m codes r acc Hok HM Ea Hc) as (g' & Hrun & ->). destruct (Hrun s Hs) as (s' & E & Hs').
  exists s'. split; [done|]. subst d. change (Address (accountData acc)) with (AddressBytes acc).
  pose proof (heap_objects _ _ _ _ _ Hok r acc Ea) as Hobj. pose proof (obj_address _ _ _ _ _ _ Hobj) as Ha.
  eexists. split; [exact Hs'|]. split; [by apply heapOk_withMain, set_entries_ok|]. split; [|split].
  - exists codes. destruct HM as (_ & HA & HC). split; [|apply refsOk_same; [done|apply Hc]].
    split; [done|]. split; [by apply acctsOk_insert|done].
  - intros b d. destruct (decide (b = AddressBytes acc)) as [->|Hne]; [|rewrite lookup_insert_ne by done; apply Hl].
    rewrite lookup_insert_eq. intros [= <-]. destruct Hc as (_ & _ & _ & Hroot).
    unfold AccountsRevert.loadable. simpl. rewrite Hroot. destruct (m !! AddressBytes acc) as [d|] eqn:E'; [|by left].
    destruct HM as (_ & HA & _). destruct (HA _ _ E') as [_ Hd]. pose proof (Hl _ _ E') as Hload.
    unfold AccountsRevert.loadable, AddressBytes in Hload. simpl in Hload. by rewrite Hd in Hload.
  - intros r' d Er'. destruct (Ho r' d Er') as (acc' & Ea' & Hd' & H1 & H2 & H3 & H4). exists acc'. split; [done|]. split; [done|].
    split; [done|]. split; [done|]. destruct (decide (AddressBytes acc' = AddressBytes acc)) as [Eq|Hne].
    + rewrite Eq, lookup_insert_eq. simpl. rewrite H3, H4, Eq. destruct Hc as (_ & _ & -> & ->). done.
    + by rewrite lookup_insert_ne.
Qed.

Definition dbLedgerLaws : LedgerLaws (AA := dbAdapter) (AccountsDB T).
Proof.
  refine (mkLedgerLaws (AccountsDB T) dbAdapter dbLedger (fun a => a ∈ addresses) _ _ db_load _ db_put db_save _).
  - intros s m h h' (g & Hs & Hok & HM & Hl & Ho) Hh. exists g. split; [done|]. split; [done|]. split; [done|]. split; [done|].
    intros r d Er. apply Ho. by eapply lookup_weaken.
  - intros s m h a d (g & _ & _ & (codes & (_ & HA & _) & _) & _) E. by apply (HA a d).
  - intros s m h r d (g & Hs & _ & _ & _ & Ho) Er. destruct (Ho r d Er) as (acc & Ea & Hd & _). exists acc.
    split; [|done]. simpl. unfold theAccount. by rewrite (sim_accounts _ _ Hs), Ea.
  - intros s m h _. by eexists.
Defined.
End Instantiation.
