(* ===== verification/TxMove.v ===== *)
(** * What the steps of a transaction do to the ledger: loading the accounts, the checks,
    and moving a balance. *)

From stdpp Require Import base list gmap.
From Stdlib Require Import ZArith Lia.
From S2P Require Import Prelude TrackableDataTrie UserAccount FeeHandler TxProcessor TxLedger.

(** An error that a transaction processor gives to its caller as it is. *)
Definition plainErr (e : txErr) : Prop := isInvalidMetaOrNotPayable e = false /\ e <> ErrFailedTransaction.

Definition isEconomicsErr (e : txErr) : bool :=
  match e with
  | ErrInsufficientGasPriceInTx | ErrInsufficientGasLimitInTx | ErrMoreGasThanGasLimitPerBlock | ErrTxValueOutOfBounds | ErrTxValueTooBig => true
  | _ => false
  end.

(** What is relied on of the other parts: the guardian checker, IsPayable and the check of
    a built-in function only read, the pools, logs and hashes do not give the errors that
    the processors give a meaning, the economics give errors of their own, and the fees are
    not negative. *)
Class TxLaws (A P : Type) {AA : AccountsAdapter A} {LL : LedgerLaws A} {CO : CoreLib} {FC : FeeComputer} {TS : TxSurroundings A P} : Prop := {
  xreads_guardian : forall r, reads (fun _ => True) (GetActiveGuardian r);
  xreads_pending : forall r w q, models w q -> models (fst (HasPendingGuardian r w)) q;
  xreads_builtin : forall f tx, reads (fun _ => True) (CheckBuiltinFunctionIsExecutable f tx);
  xreads_payable : forall a b, reads plainErr (IsPayable a b);
  economics_err : forall tx e, CheckValidityTxValues tx = inl e -> isEconomicsErr e = true;
  pools_plain : forall fw l k p p' e, AddIntermediateTransactions (A := A) (P := P) fw l k p = (p', inl e) -> plainErr e;
  logs_plain : forall h tx l p p' e, SaveLog (A := A) (P := P) h tx l p = (p', inl e) -> plainErr e;
  hash_plain : forall t e, CalculateHash t = inl e -> plainErr e;
  sub_plain : forall a b e, snd (SafeSubUint64 a b) = Some e -> plainErr e;
  parse_plain : forall d e, ParseCallData (A := A) (P := P) d = inl e -> plainErr e;
  fee_nonneg : forall tx, 0 <= ComputeTxFee tx;
  moveFee_nonneg : forall tx, 0 <= ComputeMoveBalanceFee tx;
  processingFee_nonneg : forall tx gas, 0 <= ComputeFeeForProcessing tx gas;
}.

(** The loaded accounts of a sender and a receiver, one object when they are one account. *)
Record located (snd dst : bytes) (acntSnd acntDst : option nat) (q : astate) : Prop := mkLocated {
  located_snd : forall r, acntSnd = Some r -> synced r snd q;
  located_dst : forall r, acntDst = Some r -> synced r dst q;
  located_same : forall r1 r2, acntSnd = Some r1 -> acntDst = Some r2 -> r1 = r2 <-> snd = dst;
}.

Section Steps.
Context {A P : Type} {AA : AccountsAdapter A} {LL : LedgerLaws A} {CO : CoreLib} {FC : FeeComputer} {TS : TxSurroundings A P}.
Context {TL : TxLaws A P}.
Abbreviation TM := (SE (World A P) txErr).
Implicit Types (q : astate) (R : txErr -> astate -> Prop).

(** ** Loading *)

(** The state in which objects were loaded. *)
Definition loadedFrom q q' : Prop := saved q' = saved q /\ paid q' = paid q /\ objs q ⊆ objs q'.

Lemma loadedFrom_refl q : loadedFrom q q.
Proof. by split. Qed.

Lemma loadedFrom_load q q1 r a : loadedFrom q q1 -> objs q1 !! r = None -> loadedFrom q (putObj r (dataAt a (saved q1)) q1).
Proof. intros (E1 & E2 & Ho) Hr. split; [done|]. split; [done|]. simpl. etrans; [exact Ho|]. by apply insert_subseteq. Qed.

Definition present (a b : bytes) : bool := inShard (A := A) (P := P) a || beq a b.

Lemma getAccounts_wp snd dst Q R q : known snd -> known dst ->
  (forall acntSnd acntDst q', loadedFrom q q' -> located snd dst acntSnd acntDst q' ->
     (is_Some acntSnd <-> present snd dst = true) -> (is_Some acntDst <-> present dst snd = true) -> Q (acntSnd, acntDst) q') ->
  R ErrNilAddressContainer q -> wp (P := P) (getAccounts snd dst) Q R q.
Proof.
  intros Hs Hd HQ HR. unfold getAccounts. destruct (_ || _); [by apply xwp_throw|].
  destruct (beq snd dst) eqn:Ebeq; [apply beq_true in Ebeq as <-|apply beq_false in Ebeq].
  - apply xwp_bind, xwp_LoadAccount; [done|]. intros r Hr. apply xwp_ret, HQ.
    + by apply loadedFrom_load.
    + split; [intros ? [= <-]; apply lookup_insert_eq..|]. by intros ? ? [= <-] [= <-].
    + unfold present. rewrite beq_refl, orb_true_r. by split.
    + unfold present. rewrite beq_refl, orb_true_r. by split.
  - assert (Ep1 : present snd dst = inShard (A := A) (P := P) snd) by (unfold present; apply beq_false in Ebeq; by rewrite Ebeq, orb_false_r).
    assert (Ep2 : present dst snd = inShard (A := A) (P := P) dst).
    { unfold present. assert (E : beq dst snd = false) by (by apply beq_false; intros ->). by rewrite E, orb_false_r. }
    rewrite Ep1, Ep2 in HQ. apply xwp_bind. destruct (inShard snd) eqn:E1.
    + apply xwp_bind, xwp_LoadAccount; [done|]. intros r Hr. apply xwp_ret, xwp_bind. destruct (inShard dst) eqn:E2.
      * apply xwp_bind, xwp_LoadAccount; [done|]. intros r2 Hr2. do 2 apply xwp_ret.
        assert (Hne : r <> r2) by (intros ->; simpl in Hr2; by rewrite lookup_insert_eq in Hr2).
        apply HQ; [by do 2 (apply loadedFrom_load; [|done])| |by split|by split].
        split; [|intros ? [= <-]; apply lookup_insert_eq|by intros ? ? [= <-] [= <-]].
        intros ? [= <-]. unfold synced. simpl. rewrite lookup_insert_ne by done. apply lookup_insert_eq.
      * do 2 apply xwp_ret. apply HQ; [by apply loadedFrom_load| |by split|by split; [intros [? ?]|]].
        split; [intros ? [= <-]; apply lookup_insert_eq|done|done].
    + apply xwp_ret, xwp_bind. destruct (inShard dst) eqn:E2.
      * apply xwp_bind, xwp_LoadAccount; [done|]. intros r2 Hr2. do 2 apply xwp_ret.
        apply HQ; [by apply loadedFrom_load| |by split; [intros [? ?]|]|by split].
        split; [done|intros ? [= <-]; apply lookup_insert_eq|done].
      * do 2 apply xwp_ret. apply HQ; [apply loadedFrom_refl|by split|by split; [intros [? ?]|]..].
Qed.

Lemma getAccountFromAddress_wp a Q R q : known a ->
  (inShard (A := A) (P := P) a = true -> forall r q', loadedFrom q q' -> synced r a q' -> Q (Some r) q') ->
  (inShard (A := A) (P := P) a = false -> Q None q) -> wp (P := P) (getAccountFromAddress a) Q R q.
Proof.
  intros Ha HQ HN. unfold getAccountFromAddress. unfold inShard in *. rewrite Z.eqb_sym.
  destruct (ComputeId a =? SelfId); simpl; [|by apply xwp_ret, HN].
  apply xwp_bind, xwp_LoadAccount; [done|]. intros r Hr. apply xwp_ret, HQ; [done|by apply loadedFrom_load|apply lookup_insert_eq].
Qed.

(** ** The checks *)

Definition isNotExecutable (e : txErr) : Prop := exists why, e = ErrTransactionNotExecutable why.

Lemma notExecutable_intro why : isNotExecutable (ErrTransactionNotExecutable why).
Proof. by exists why. Qed.
Hint Resolve notExecutable_intro xreads_ret xreads_throw : core.

Lemma xreads_bypass tx : reads (A := A) (P := P) isNotExecutable (checkOperationAllowedToBypassGuardian tx).
Proof.
  unfold checkOperationAllowedToBypassGuardian. destruct (negb _); [auto|]. apply xreads_bind; [|intros _; by destruct (_ || _); auto].
  eapply xreads_onErr; [apply xreads_builtin|auto].
Qed.

Lemma xreads_permission tx r : reads (A := A) (P := P) isNotExecutable (checkGuardedAccountUnguardedTxPermission tx r).
Proof.
  unfold checkGuardedAccountUnguardedTxPermission. apply xreads_bind; [apply xreads_bypass|]. intros _.
  apply xreads_bind; [|intros b; destruct (_ && _); auto]. intros q w Hw. pose proof (xreads_pending r w q Hw) as Hw'.
  destruct (HasPendingGuardian r w) as [w' b]. by exists q.
Qed.

(** What VerifyGuardian accepts for a guarded account. *)
Definition guardianAllows (tx : Transaction) : Prop := IsGuardedTransaction (A := A) (P := P) tx = true \/ IsSetGuardianCall (txData tx) = true.

Lemma VerifyGuardian_wp tx r d Q R q : objs q !! r = Some d ->
  ((CodeMetadataGuarded (CodeMetadata d) = true -> guardianAllows tx) -> Q tt q) -> (forall e, isNotExecutable e -> R e q) ->
  wp (VerifyGuardian (A := A) (P := P) tx (Some r)) Q R q.
Proof.
  intros Hr HQ HR. unfold VerifyGuardian, guardianAllows in *. apply xwp_bind. eapply xwp_account; [done|]. intros a Ha.
  unfold IsGuarded. rewrite Ha. destruct (CodeMetadataGuarded (CodeMetadata d)) eqn:Eg; simpl.
  2:{ destruct (IsGuardedTransaction tx); [by apply xwp_throw, HR|]. by apply xwp_ret, HQ. }
  destruct (IsGuardedTransaction tx) eqn:Et; simpl.
  - apply xwp_bind. eapply xwp_reads; [eapply (xreads_onErr _ isNotExecutable); [apply xreads_guardian|auto]| |done]. intros g.
    destruct (negb _); [by apply xwp_throw, HR|]. apply xwp_ret, HQ. auto.
  - destruct (IsSetGuardianCall (txData tx)) eqn:Es.
    + eapply xwp_reads; [apply xreads_permission|intros []; by auto|done].
    + unfold checkGuardedAccountUnguardedTxPermission, checkOperationAllowedToBypassGuardian. rewrite Es. simpl.
      by apply xwp_bind, xwp_throw, HR.
Qed.

Lemma data_wp acnt Q R q : (forall r, acnt = Some r -> is_Some (objs q !! r)) ->
  Q (acnt ≫= fun r => objs q !! r) q -> wp (A := A) (P := P) (getAccountData acnt) Q R q.
Proof.
  intros Hr HQ. destruct acnt as [r|]; simpl in *; [|by apply xwp_ret]. destruct (Hr r eq_refl) as [d Ed].
  apply xwp_bind. eapply xwp_account; [exact Ed|]. intros a Ha. apply xwp_ret. rewrite Ha. by rewrite Ed in HQ.
Qed.

Definition hasUserNames (tx : Transaction) : bool := (0 <? blen (txSndUserName tx)) || (0 <? blen (txRcvUserName tx)).

Lemma userNames_wp tx acntSnd acntDst Q R q : (forall r, acntSnd = Some r \/ acntDst = Some r -> is_Some (objs q !! r)) ->
  Q tt q ->
  (hasUserNames tx = true -> R (match acntSnd with None => ErrUserNameDoesNotMatchInCrossShardTx | Some _ => ErrUserNameDoesNotMatch end) q) ->
  wp (A := A) (P := P) (checkUserNames tx acntSnd acntDst) Q R q.
Proof.
  intros Hr HQ HR. unfold checkUserNames, hasUserNames in *. apply xwp_bind, data_wp; [auto|]. apply xwp_bind, data_wp; [auto|].
  unfold userNameWrong. destruct (0 <? blen (txSndUserName tx)); simpl in *.
  - destruct acntSnd as [r|]; simpl in *.
    + destruct (Hr r (or_introl eq_refl)) as [d ->]. destruct (negb _); [by apply xwp_throw, HR|].
      destruct (_ && _); [by apply xwp_throw, HR|by apply xwp_ret].
    + destruct (_ && _); [by apply xwp_throw, HR|by apply xwp_ret].
  - destruct (0 <? blen (txRcvUserName tx)); simpl in *; [|by apply xwp_ret].
    match goal with |- wp (if ?b then _ else _) _ _ _ => destruct b end; [by apply xwp_throw, HR|by apply xwp_ret].
Qed.

(** What the checks guarantee of a transaction and the account of its sender. *)
Definition feeToHave (tx : Transaction) (isUserTx : bool) : Z := if isUserTx then computeInnerTxFee (A := A) (P := P) tx else ComputeTxFee tx.

Record valuesOk (tx : Transaction) (isUserTx : bool) (d : UserAccountData) : Prop := mkValuesOk {
  ok_nonce : Nonce d = txNonce tx;
  ok_economics : CheckValidityTxValues tx = inr tt;
  ok_gas : isUserTx = true -> ComputeGasLimit tx <= txGasLimit tx;
  ok_fee : feeToHave tx isUserTx <= Balance d;
  ok_cost : (if PenalizedTooMuchGasFlag (txFlags (A := A) (P := P)) then feeToHave tx isUserTx else SafeMul (txGasLimit tx) (txGasPrice tx)) + txValue tx
    <= Balance d;
  ok_guardian : CodeMetadataGuarded (CodeMetadata d) = true -> guardianAllows tx;
}.

(** How the checks fail: before the nonce was looked at, only because of the guardian or of
    a user name. *)
Definition checkErr (tx : Transaction) (acntSnd : option nat) q (e : txErr) : Prop :=
  match acntSnd with
  | None => e = ErrUserNameDoesNotMatchInCrossShardTx
  | Some r => e <> ErrUserNameDoesNotMatchInCrossShardTx /\ e <> ErrFailedTransaction /\
      forall d, objs q !! r = Some d ->
        isNonExecutableError e = true \/ (e = ErrUserNameDoesNotMatch /\ hasUserNames tx = true) \/ Nonce d = txNonce tx
  end.

Lemma checkTxValues_wp tx acntSnd acntDst isUserTx Q R q :
  (forall r, acntSnd = Some r \/ acntDst = Some r -> is_Some (objs q !! r)) ->
  ((forall r d, acntSnd = Some r -> objs q !! r = Some d -> valuesOk tx isUserTx d) -> Q tt q) ->
  (forall e, checkErr tx acntSnd q e -> R e q) -> wp (A := A) (P := P) (checkTxValues tx acntSnd acntDst isUserTx) Q R q.
Proof.
  intros Hr HQ HR. unfold checkTxValues. destruct acntSnd as [r|].
  2:{ apply xwp_bind, xwp_ret, xwp_bind, userNames_wp; [done| |intros _; by apply HR]. by apply xwp_ret, HQ. }
  destruct (Hr r (or_introl eq_refl)) as [d Ed].
  assert (Hexec : forall e, isNonExecutableError e = true -> R e q) by (intros e He; apply HR; split; [by destruct e|split; [by destruct e|auto]]).
  assert (Hlate : forall e, Nonce d = txNonce tx -> e <> ErrUserNameDoesNotMatchInCrossShardTx -> e <> ErrFailedTransaction -> R e q).
  { intros e Hn He He'. apply HR. split; [done|]. split; [done|]. intros d' Ed'. rewrite Ed in Ed'. injection Ed' as <-. auto. }
  apply xwp_bind. eapply VerifyGuardian_wp; [exact Ed| |by intros e [why ->]; apply Hexec]. intros Hg.
  apply xwp_bind, userNames_wp; [done| |intros Hu; apply HR; split; [done|split; [done|by auto]]].
  apply xwp_bind. eapply xwp_account; [exact Ed|]. intros a Ha. unfold GetBalance. rewrite Ha.
  destruct (Z.ltb_spec (Nonce d) (txNonce tx)); [by apply xwp_throw, Hexec|].
  destruct (Z.ltb_spec (txNonce tx) (Nonce d)); [by apply xwp_throw, Hexec|]. assert (Hn : Nonce d = txNonce tx) by lia.
  apply xwp_bind, xwp_liftR; [|intros e He%economics_err; apply Hlate; [done|by intros ->..]]. intros [] Eval. apply xwp_bind. unfold requiredFee.
  assert (Hrest : (isUserTx = true -> ComputeGasLimit tx <= txGasLimit tx) ->
    wp (if Balance d <? feeToHave tx isUserTx then throw (ErrInsufficientFee (Balance d) (feeToHave tx isUserTx))
        else if Balance d <? (if PenalizedTooMuchGasFlag (txFlags (A := A) (P := P)) then feeToHave tx isUserTx else SafeMul (txGasLimit tx) (txGasPrice tx)) + txValue tx
        then throw ErrInsufficientFunds else ret tt : TM _) Q R q).
  { intros Hgas. destruct (Z.ltb_spec (Balance d) (feeToHave tx isUserTx)); [by apply xwp_throw, Hlate|].
    match goal with |- context [?b <? ?c] => destruct (Z.ltb_spec b c) end; [by apply xwp_throw, Hlate|].
    apply xwp_ret, HQ. intros r' d' [= <-] Ed'. rewrite Ed in Ed'. injection Ed' as <-. by split. }
  unfold feeToHave in *. destruct isUserTx.
  - destruct (Z.ltb_spec (txGasLimit tx) (ComputeGasLimit tx)); [by apply xwp_throw, Hlate|]. apply xwp_ret. by apply Hrest.
  - apply xwp_ret. by apply Hrest.
Qed.

(** ** Moving a balance *)

(** Whether an account was loaded. *)
Definition isHere (acnt : option nat) : bool := bool_decide (is_Some acnt).

(** What the sender pays, when the receiver is in the shard or not. *)
Definition feeTaken (tx : Transaction) (dstHere : bool) (dstType : TransactionType) (isUserTx : bool) : Z :=
  if isUserTx then computeInnerTxFee (A := A) (P := P) tx
  else if paysTotalCost (A := A) (P := P) tx (if dstHere then Some 0%nat else None) dstType then totalCostOf (A := A) (P := P) tx else ComputeMoveBalanceFee tx.

(** The part of the fee that is recorded in this shard. *)
Definition feeRecorded (tx : Transaction) (dstType : TransactionType) (isUserTx : bool) : Z :=
  if isUserTx then
    if bool_decide (dstType = MoveBalance) then computeInnerTxFee (A := A) (P := P) tx
    else if FixRelayedBaseCostFlag (txFlags (A := A) (P := P)) then ComputeMoveBalanceFee tx else ComputeFeeForProcessing tx (ComputeGasLimit tx)
  else ComputeMoveBalanceFee tx.

Lemma state_plain e : plainErr (ErrState e).
Proof. done. Qed.
Hint Resolve state_plain : core.

Lemma processTxFee_wp tx r a acntDst dstType isUserTx Q R q : synced r a q ->
  (feeTaken tx (isHere acntDst) dstType isUserTx <= balanceAt a (saved q) -> forall total,
     Q (feeRecorded tx dstType isUserTx, total)
       (putObj r (withBalance (balanceAt a (saved q) - feeTaken tx (isHere acntDst) dstType isUserTx) (dataAt a (saved q))) q)) ->
  (forall e, plainErr e -> R e q) -> wp (A := A) (P := P) (processTxFee tx (Some r) acntDst dstType isUserTx) Q R q.
Proof.
  intros Hr HQ HR. unfold processTxFee, feeTaken, feeRecorded, balanceAt in *.
  assert (Ep : paysTotalCost (A := A) (P := P) tx (if isHere acntDst then Some 0%nat else None) dstType = paysTotalCost (A := A) (P := P) tx acntDst dstType)
    by by destruct acntDst.
  rewrite Ep in HQ. destruct isUserTx.
  - apply xwp_bind. eapply xwp_SubFromBalance; [exact Hr|intros _; by apply HR|]. intros Hb.
    destruct (bool_decide _); apply xwp_ret, HQ; lia.
  - apply xwp_bind. eapply xwp_SubFromBalance; [exact Hr|intros _; by apply HR|]. intros Hb. apply xwp_ret, HQ; lia.
Qed.

(** The saved accounts once the sender has paid. *)
Definition chargedBy (a : bytes) (fee value : Z) (here : bool) m := if here then debit a (fee + value) m else m.
Definition paidTo (a : bytes) (value : Z) (here : bool) m := if here then credit a value m else m.

(** Two accounts of which the first one was changed. *)
Lemma located_charge snd dst acntSnd acntDst q r n v : located snd dst acntSnd acntDst q -> acntSnd = Some r ->
  located snd dst acntSnd acntDst (set_saved (putMoney snd n v (saved q))
    (putObj r (withBalance v (withNonce n (dataAt snd (saved q)))) q)).
Proof.
  intros [Hs Hd Hsame] ->. split; [|intros r2 ->|done].
  - intros ? [= <-]. unfold synced, putMoney. simpl. by rewrite lookup_insert_eq, dataAt_insert.
  - unfold synced, putMoney. simpl. destruct (Hsame r r2 eq_refl eq_refl) as [H1 H2]. destruct (decide (r = r2)) as [<-|Hne].
    + rewrite lookup_insert_eq, <- H1 by done. by rewrite dataAt_insert.
    + rewrite lookup_insert_ne, dataAt_insert_ne by naive_solver. by apply Hd.
Qed.

Lemma located_credit snd dst acntSnd r q n v : located snd dst acntSnd (Some r) q ->
  located snd dst acntSnd (Some r) (set_saved (putMoney dst n v (saved q))
    (putObj r (withBalance v (withNonce n (dataAt dst (saved q)))) q)).
Proof.
  intros [Hs Hd Hsame]. split; [intros r2 ->| |done].
  - unfold synced, putMoney. simpl. destruct (Hsame r2 r eq_refl eq_refl) as [H1 H2]. destruct (decide (r2 = r)) as [->|Hne].
    + rewrite lookup_insert_eq, H1 by done. by rewrite dataAt_insert.
    + rewrite lookup_insert_ne, dataAt_insert_ne by naive_solver. by apply Hs.
  - intros ? [= <-]. unfold synced, putMoney. simpl. by rewrite lookup_insert_eq, dataAt_insert.
Qed.

(** The fee, the nonce and the value: the sender can pay them. *)
Lemma chargeSender_wp tx snd dst r acntDst f Q R q : synced r snd q -> located snd dst (Some r) acntDst q ->
  (0 <= balanceAt snd (saved q) - f - txValue tx -> forall q', located snd dst (Some r) acntDst q' ->
     saved q' = debit snd (f + txValue tx) (saved q) -> paid q' = paid q -> Q tt q') ->
  (forall e q', plainErr e -> R e q') ->
  wp (A := A) (P := P) (chargeSender tx (Some r)) Q R (putObj r (withBalance (balanceAt snd (saved q) - f) (dataAt snd (saved q))) q).
Proof.
  intros Hr Hloc HQ HR. unfold chargeSender.
  apply xwp_bind. eapply xwp_IncreaseNonce; [apply lookup_insert_eq|]. simpl.
  apply xwp_bind. eapply xwp_SubFromBalance; [apply lookup_insert_eq|intros _; by apply HR|]. simpl. intros Hb.
  eapply (xwp_save_as r snd (u64 (nonceAt snd (saved q) + 1)) (balanceAt snd (saved q) - f - txValue tx)); [apply lookup_insert_eq|].
  simpl. apply HQ; [done| | |done].
  - pose proof (located_charge snd dst (Some r) acntDst q r (u64 (nonceAt snd (saved q) + 1)) (balanceAt snd (saved q) - f - txValue tx) Hloc eq_refl) as HL.
    unfold set_saved, putObj, set_objs in *. simpl in *. by rewrite !insert_insert_eq.
  - simpl. unfold debit. f_equal. lia.
Qed.

Lemma payReceiver_wp tx snd dst acntSnd acntDst Q R q : located snd dst acntSnd acntDst q ->
  (forall q', saved q' = paidTo dst (txValue tx) (isHere acntDst) (saved q) -> paid q' = paid q -> Q tt q') ->
  (forall e q', plainErr e -> R e q') -> wp (A := A) (P := P) (payReceiver tx acntDst) Q R q.
Proof.
  intros Hloc HQ HR. unfold payReceiver. destruct acntDst as [r|]; [|by apply xwp_ret, HQ].
  apply xwp_bind. eapply xwp_AddToBalance; [by eapply located_dst|intros _; by apply HR|]. intros Hb.
  eapply (xwp_save_as r dst (nonceAt dst (saved q)) (balanceAt dst (saved q) + txValue tx)); [apply lookup_insert_eq|].
  by apply HQ.
Qed.

(** What the sender gets back when the receiver does not take the value. *)
Definition revertedTo (tx : Transaction) (snd : bytes) (sndHere isUserTx : bool) m :=
  if sndHere && isUserTx && FixRelayedMoveBalanceToNonPayableSCFlag (txFlags (A := A) (P := P)) then credit snd (txValue tx) m else m.

Lemma revertAndFail_wp tx snd dst acntSnd acntDst isUserTx e (X : unit -> astate -> Prop) R q :
  located snd dst acntSnd acntDst q -> (forall r, acntSnd = Some r -> 0 <= balanceAt snd (saved q) + txValue tx) ->
  (forall q', saved q' = revertedTo tx snd (isHere acntSnd) isUserTx (saved q) -> paid q' = paid q -> R e q') ->
  wp (A := A) (P := P) (revertAndFail tx acntSnd isUserTx e) X R q.
Proof.
  intros Hloc Hpos HR. unfold revertAndFail, revertConsumedValueFromSender, revertedTo in *. apply xwp_bind, xwp_onErr.
  destruct isUserTx; simpl in *; [|apply xwp_ret, xwp_throw, HR; by destruct acntSnd].
  destruct (FixRelayedMoveBalanceToNonPayableSCFlag _); simpl in *; [|apply xwp_ret, xwp_throw, HR; by destruct acntSnd].
  destruct acntSnd as [r|]; [|by apply xwp_ret, xwp_throw, HR].
  apply xwp_bind. eapply xwp_AddToBalance; [by eapply located_snd|intros Hb; specialize (Hpos r eq_refl); unfold balanceAt in *; lia|]. intros Hb.
  eapply (xwp_save_as r snd (nonceAt snd (saved q)) (balanceAt snd (saved q) + txValue tx)); [apply lookup_insert_eq|].
  by apply xwp_throw, HR.
Qed.

(** How processMoveBalance fails: as what it does not look into, or because the receiver does
    not take the value. *)
Definition moveFailed (tx : Transaction) (snd : bytes) (acntSnd acntDst : option nat) (dstType : TransactionType) (isUserTx : bool) q (e : txErr) (q' : astate) : Prop :=
  e <> ErrFailedTransaction /\
  (isInvalidMetaOrNotPayable e = true ->
   (forall r, acntSnd = Some r -> feeTaken tx (isHere acntDst) dstType isUserTx + txValue tx <= balanceAt snd (saved q)) /\
   saved q' = revertedTo tx snd (isHere acntSnd) isUserTx (chargedBy snd (feeTaken tx (isHere acntDst) dstType isUserTx) (txValue tx) (isHere acntSnd) (saved q)) /\
   paid q' = paid q).

Lemma moveFailed_plain tx snd acntSnd acntDst dstType isUserTx q e q' : plainErr e -> moveFailed tx snd acntSnd acntDst dstType isUserTx q e q'.
Proof. intros [H1 H2]. split; [done|]. by rewrite H1. Qed.

Lemma checkReceiver_wp tx snd dst acntSnd acntDst isUserTx Q R q :
  located snd dst acntSnd acntDst q -> (forall r, acntSnd = Some r -> 0 <= balanceAt snd (saved q) + txValue tx) ->
  Q tt q ->
  (forall e q', plainErr e \/ (saved q' = revertedTo tx snd (isHere acntSnd) isUserTx (saved q) /\ paid q' = paid q) /\ e <> ErrFailedTransaction -> R e q') ->
  wp (A := A) (P := P) (checkReceiver tx acntSnd isUserTx) Q R q.
Proof.
  intros Hloc Hpos HQ HR. unfold checkReceiver. apply xwp_bind, xwp_onErr.
  eapply xwp_mono; [apply xreads_payable| |].
  - intros b ? ->. destruct b; simpl.
    + destruct (checkIfValidTxToMetaChain tx (txRcvAddr tx)) as [e|[]] eqn:Ec; [|by apply xwp_ret].
      eapply revertAndFail_wp; [exact Hloc|done|]. intros q' E1 E2. apply HR. right. split; [done|].
      unfold checkIfValidTxToMetaChain in Ec. repeat case_match; by inversion Ec.
    + eapply revertAndFail_wp; [exact Hloc|done|]. intros q' E1 E2. apply HR. by right.
  - intros e ? [-> He]. apply xwp_bind. eapply revertAndFail_wp; [exact Hloc|done|]. intros q' E1 E2. apply HR. by left.
Qed.

(** The fee of a transaction in the accumulator. *)
Definition recordFee (tx : Transaction) (fee : Z) (originalTxHash : bytes) (isUserTx : bool) (f f' : feeHandler) : Prop :=
  exists txHash, CalculateHash (aTransaction tx) = inr txHash /\
    f' = if isUserTx then ProcessTransactionFeeRelayedUserTx (Some fee) 0 txHash originalTxHash f else ProcessTransactionFee (Some fee) 0 txHash f.

Lemma receipt_wp txHash tx acntSnd moveCost total dstType isUserTx Q R q : Q tt q -> (forall e, plainErr e -> R e q) ->
  wp (A := A) (P := P) (createReceiptWithReturnedGas txHash tx acntSnd moveCost total dstType isUserTx) Q R q.
Proof.
  intros HQ HR. unfold createReceiptWithReturnedGas. repeat (case_match; try by apply xwp_ret).
  apply xwp_onPools; [by intros []|]. intros. apply HR. by eapply pools_plain.
Qed.

(** processMoveBalance debits the sender, credits the receiver and records the fee. *)
Lemma processMoveBalance_wp tx acntSnd acntDst dstType originalTxHash isUserTx Q R q :
  located (txSndAddr tx) (txRcvAddr tx) acntSnd acntDst q ->
  (forall q', (forall r, acntSnd = Some r -> feeTaken tx (isHere acntDst) dstType isUserTx + txValue tx <= balanceAt (txSndAddr tx) (saved q)) ->
     saved q' = paidTo (txRcvAddr tx) (txValue tx) (isHere acntDst)
       (chargedBy (txSndAddr tx) (feeTaken tx (isHere acntDst) dstType isUserTx) (txValue tx) (isHere acntSnd) (saved q)) ->
     recordFee tx (if isHere acntSnd then feeRecorded tx dstType isUserTx else 0) originalTxHash isUserTx (paid q) (paid q') ->
     Q tt q') ->
  (forall e q', moveFailed tx (txSndAddr tx) acntSnd acntDst dstType isUserTx q e q' -> R e q') ->
  wp (A := A) (P := P) (processMoveBalance tx acntSnd acntDst dstType originalTxHash isUserTx) Q R q.
Proof.
  set (snd := txSndAddr tx). set (dst := txRcvAddr tx). set (fee := feeTaken tx (isHere acntDst) dstType isUserTx). intros Hloc HQ HR.
  assert (Hplain : forall e q', plainErr e -> R e q') by (intros e q' He; apply HR; by apply moveFailed_plain).
  assert (Hrest : forall moveCost total q1, located snd dst acntSnd acntDst q1 ->
    moveCost = (if isHere acntSnd then feeRecorded tx dstType isUserTx else 0) ->
    (forall r, acntSnd = Some r -> fee <= balanceAt snd (saved q) /\ fee + txValue tx <= balanceAt snd (saved q)) ->
    saved q1 = chargedBy snd fee (txValue tx) (isHere acntSnd) (saved q) -> paid q1 = paid q ->
    wp (A := A) (P := P) (checkReceiver tx acntSnd isUserTx ;; payReceiver tx acntDst ;;
      let! txHash := liftR (CalculateHash (aTransaction tx)) in
      createReceiptWithReturnedGas txHash tx acntSnd moveCost total dstType isUserTx ;;
      if isUserTx then onFees (ProcessTransactionFeeRelayedUserTx (Some moveCost) 0 txHash originalTxHash)
      else ProcessTransactionFeeOf moveCost txHash) Q R q1).
  { intros moveCost total q1 Hl1 Ecost Hbal E1 E2.
    assert (Hpays : forall r, acntSnd = Some r -> fee + txValue tx <= balanceAt snd (saved q)) by (intros r Er; apply (Hbal r Er)).
    apply xwp_bind. eapply checkReceiver_wp; [exact Hl1| | |].
    - intros r ->. specialize (Hbal r eq_refl). rewrite E1. simpl. unfold debit. rewrite balanceAt_put. lia.
    - apply xwp_bind. eapply payReceiver_wp; [exact Hl1| |by intros; apply Hplain]. intros q2 E3 E4.
      apply xwp_bind, xwp_liftR; [|intros e He; by apply Hplain; eapply hash_plain]. intros txHash Eh.
      apply xwp_bind, receipt_wp; [|by auto]. rewrite E1 in E3.
      destruct isUserTx; apply xwp_onFees; (apply HQ; [done|exact E3|]); exists txHash; (split; [done|]); simpl; by rewrite E4, E2, Ecost.
    - intros e q' [He|[[E3 E4] Hne]]; [by apply Hplain|]. apply HR. split; [done|]. intros _. split; [done|].
      rewrite E3, E1, E4. by split. }
  unfold processMoveBalance. apply xwp_bind. destruct acntSnd as [r|].
  - pose proof (located_snd _ _ _ _ _ Hloc r eq_refl) as Hr.
    eapply processTxFee_wp; [exact Hr| |by intros; apply Hplain]. intros Hle total. apply xwp_bind.
    eapply (chargeSender_wp tx snd dst r acntDst fee); [exact Hr|exact Hloc| |done].
    intros Hb q' Hl' E1 E2. apply Hrest; try done. intros _ _. lia.
  - apply xwp_ret, xwp_bind, xwp_ret. by apply Hrest.
Qed.

(** ** A failed transaction *)

(** executingFailedTransaction takes the fee only, and always gives an error. *)
Lemma executingFailed_wp tx r txError (X : unit -> astate -> Prop) R q : synced r (txSndAddr tx) q ->
  (forall q', ComputeTxFee tx <= balanceAt (txSndAddr tx) (saved q) -> saved q' = debit (txSndAddr tx) (ComputeTxFee tx) (saved q) ->
     recordFee tx (ComputeTxFee tx) [] false (paid q) (paid q') -> R ErrFailedTransaction q') ->
  (forall e q', plainErr e -> R e q') -> wp (A := A) (P := P) (executingFailedTransaction tx (Some r) txError) X R q.
Proof.
  intros Hr HR Hplain. unfold executingFailedTransaction.
  apply xwp_bind. eapply xwp_SubFromBalance; [exact Hr|intros _; by apply Hplain|]. intros Hb.
  apply xwp_bind, xwp_liftR; [|intros e He; by apply Hplain; eapply hash_plain]. intros txHash Eh.
  apply xwp_bind. eapply xwp_IncreaseNonce; [apply lookup_insert_eq|].
  apply xwp_bind, xwp_onPools; [|intros; apply Hplain; by eapply pools_plain]. intros [].
  apply xwp_bind, xwp_onPools; [|intros; apply Hplain; by eapply pools_plain]. intros [].
  apply xwp_bind, xwp_onFees, xwp_bind. simpl.
  eapply (xwp_save_as r (txSndAddr tx) (u64 (nonceAt (txSndAddr tx) (saved q) + 1)) (balanceAt (txSndAddr tx) (saved q) - ComputeTxFee tx)).
  { simpl. apply lookup_insert_eq. }
  apply xwp_throw, HR; [unfold balanceAt; lia|done|]. by exists txHash.
Qed.
End Steps.
