(* ===== verification/TxRelayed.v ===== *)
(** * What a transaction does: the outcomes that ProcessTransaction can have, as a relation
    on the saved accounts and the fees, and the proof that it has no other. *)

From stdpp Require Import base list gmap.
From Stdlib Require Import ZArith Lia.
From S2P Require Import Prelude TrackableDataTrie UserAccount FeeHandler TxProcessor TxLedger TxMove.

(** The objects that a contract call is given are not older than what is saved. *)
Definition upToDate (acnt : option nat) (q : astate) : Prop :=
  forall r, acnt = Some r -> exists d, objs q !! r = Some d /\ nonceAt (Address d) (saved q) <= Nonce d.

(** What the calls of the smart-contract processor do to the saved accounts and the fees. *)
Class ContractLaws (A P : Type) {AA : AccountsAdapter A} {LL : LedgerLaws A} {CO : CoreLib} {FC : FeeComputer} {TS : TxSurroundings A P} := {
  contract : gmap bytes UserAccountData -> feeHandler -> gmap bytes UserAccountData -> feeHandler -> Prop;
  contract_deploy : forall t a q, upToDate a q ->
    wp (DeploySmartContract t a) (fun _ q' => contract (saved q) (paid q) (saved q') (paid q'))
      (fun _ q' => contract (saved q) (paid q) (saved q') (paid q')) q;
  contract_execute : forall t a b q, upToDate a q -> upToDate b q ->
    wp (ExecuteSmartContractTransaction t a b) (fun _ q' => contract (saved q) (paid q) (saved q') (paid q'))
      (fun _ q' => contract (saved q) (paid q) (saved q') (paid q')) q;
  contract_builtin : forall t a b q, upToDate a q -> upToDate b q ->
    wp (ExecuteBuiltInFunction t a b) (fun _ q' => contract (saved q) (paid q) (saved q') (paid q'))
      (fun _ q' => contract (saved q) (paid q) (saved q') (paid q')) q;
  contract_ifError : forall a h t s1 s2 n g q, upToDate a q ->
    wp (ProcessIfError a h t s1 s2 n g) (fun _ q' => contract (saved q) (paid q) (saved q') (paid q'))
      (fun _ q' => contract (saved q) (paid q) (saved q') (paid q')) q;
}.

Section Relayed.
Context {A P : Type} {AA : AccountsAdapter A} {LL : LedgerLaws A} {CO : CoreLib} {FC : FeeComputer} {TS : TxSurroundings A P}.
Context {TL : TxLaws A P} {CL : ContractLaws A P}.
Abbreviation TM := (SE (World A P) txErr).
Abbreviation RM := (SE (World A P) (ReturnCode * txErr)).
Abbreviation accountsMap := (gmap bytes UserAccountData).
Implicit Types (q : astate) (R : txErr -> astate -> Prop) (m : accountsMap) (f : feeHandler).

Notation here a := (inShard (A := A) (P := P) a).
Notation typeOf tx := (fst (ComputeTransactionType (A := A) (P := P) tx)).
Notation dstTypeOf tx := (snd (ComputeTransactionType (A := A) (P := P) tx)).
Notation feeOf := (feeTaken (A := A) (P := P)).
Notation recordedOf := (feeRecorded (A := A) (P := P)).

Definition isContractType (t : TransactionType) : bool :=
  match t with SCDeployment | SCInvoking | BuiltInFunctionCall => true | _ => false end.

(** ** Outcomes of the user transaction of a relayed one *)

(** The relayer gets the value back. *)
Definition refund (tx : Transaction) m : accountsMap := if here (txSndAddr tx) then credit (txSndAddr tx) (txValue tx) m else m.

Definition failFee (userTx : Transaction) (h : bytes) f : feeHandler :=
  ProcessTransactionFee (Some (failedUserTxFee (A := A) (P := P) userTx)) 0 h f.

(** [userOutcome tx userTx m f code m' f']: the user transaction, from the saved accounts [m]
    and the fees [f]. *)
Inductive userOutcome (tx userTx : Transaction) (m : accountsMap) (f : feeHandler) : ReturnCode -> accountsMap -> feeHandler -> Prop :=
| user_moved h f' :
    let user := txSndAddr userTx in let dst := txRcvAddr userTx in
    let fee := feeOf userTx (present (A := A) (P := P) dst user) (dstTypeOf userTx) true in
    typeOf userTx = MoveBalance -> valuesOk (A := A) (P := P) userTx true (dataAt user m) ->
    fee + txValue userTx <= balanceAt user m ->
    recordFee userTx (recordedOf userTx (dstTypeOf userTx) true) h true f f' ->
    userOutcome tx userTx m f Ok
      (paidTo dst (txValue userTx) (present (A := A) (P := P) dst user) (debit user (fee + txValue userTx) m)) f'
| user_rejected e h :
    let user := txSndAddr userTx in
    let cost := txValue tx + computeInnerTxFee (A := A) (P := P) userTx in
    cost <= balanceAt user m ->
    userOutcome tx userTx m f UserError
      (refund tx (if shouldIncreaseNonce (A := A) (P := P) e then debit user cost m else debitOnly user cost m)) (failFee userTx h f)
| user_notPaid h :
    let user := txSndAddr userTx in let dst := txRcvAddr userTx in
    let fee := feeOf userTx (present (A := A) (P := P) dst user) (dstTypeOf userTx) true in
    typeOf userTx = MoveBalance -> valuesOk (A := A) (P := P) userTx true (dataAt user m) ->
    fee + txValue userTx <= balanceAt user m ->
    userOutcome tx userTx m f UserError
      (refund tx (revertedTo (A := A) (P := P) userTx user true true (debit user (fee + txValue userTx) m))) (failFee userTx h f)
| user_contract h o c code m' f' :
    isContractType (typeOf userTx) = true ->
    contract m (ProcessTransactionFeeRelayedUserTx (Some c) 0 h o f) m' f' ->
    userOutcome tx userTx m f code m' f'
| user_contractFailed h o h' c m' f' :
    isContractType (typeOf userTx) = true ->
    contract m (ProcessTransactionFeeRelayedUserTx (Some c) 0 h o f) m' f' ->
    userOutcome tx userTx m f UserError (refund tx m') (failFee userTx h' f').

(** ** The steps of a relayed transaction *)

Definition notFailedErr (ce : ReturnCode * txErr) : Prop := snd ce <> ErrFailedTransaction.

Lemma plain_notFailed c e : plainErr e -> notFailedErr (c, e).
Proof. by intros [_ ?]. Qed.

Lemma removeValue_wp userTx value h tx e Q R q : known (txSndAddr userTx) -> here (txSndAddr userTx) = true ->
  (forall q', value + computeInnerTxFee (A := A) (P := P) userTx <= balanceAt (txSndAddr userTx) (saved q) ->
     saved q' = (if shouldIncreaseNonce (A := A) (P := P) e then debit else debitOnly) (txSndAddr userTx) (value + computeInnerTxFee (A := A) (P := P) userTx) (saved q) ->
     paid q' = paid q -> Q tt q') ->
  (forall e q', plainErr e -> R e q') ->
  wp (A := A) (P := P) (removeValueAndConsumedFeeFromUser userTx value h tx e) Q R q.
Proof.
  set (user := txSndAddr userTx). set (fee := computeInnerTxFee userTx). intros Hk Hh HQ HR.
  unfold removeValueAndConsumedFeeFromUser. apply xwp_bind. apply getAccountFromAddress_wp; [done| |intros Hn; exfalso; subst user; congruence].
  intros _ r q1 (E1 & E2 & _) Hr. rewrite <- E1, <- E2 in HQ. clear E1 E2.
  apply xwp_bind. eapply xwp_SubFromBalance; [exact Hr|intros _; by apply HR|]. intros Hb1.
  apply xwp_bind. eapply xwp_SubFromBalance; [apply lookup_insert_eq|intros _; by apply HR|]. simpl. intros Hb2.
  fold user fee in Hb2. fold user fee. apply xwp_bind.
  set (d2 := withBalance (Balance (dataAt user (saved q1)) - value - fee) (withBalance (Balance (dataAt user (saved q1)) - value) (dataAt user (saved q1)))).
  assert (Hend : forall n q2, saved q2 = saved q1 -> paid q2 = paid q1 -> objs q2 !! r = Some (withNonce n d2) ->
    n = (if shouldIncreaseNonce (A := A) (P := P) e then u64 (nonceAt user (saved q1) + 1) else nonceAt user (saved q1)) ->
    wp (A := A) (P := P) (addNonExecutableLog e h tx ;; SaveAccount r) Q R q2).
  { intros n q2 E1 E2 Er En. apply xwp_bind.
    assert (Hsave : wp (A := A) (P := P) (SaveAccount r) Q R q2).
    { eapply (xwp_save_as r user n (balanceAt user (saved q1) - value - fee)); [by rewrite E1|].
      apply HQ; [unfold balanceAt; lia| |done]. simpl. rewrite E1, En.
      destruct (shouldIncreaseNonce e); unfold debit, debitOnly; f_equal; lia. }
    unfold addNonExecutableLog. destruct (negb _); [by apply xwp_ret|].
    apply xwp_onPools; [by intros []|]. intros. apply HR. by eapply logs_plain. }
  destruct (shouldIncreaseNonce e) eqn:Einc.
  - eapply xwp_IncreaseNonce; [apply lookup_insert_eq|]. by eapply Hend; [..|apply lookup_insert_eq|].
  - apply xwp_ret. eapply (Hend (nonceAt user (saved q1))); [done..|apply lookup_insert_eq|done].
Qed.

Lemma executeFailed_wp tx userTx nonce h msg Q R q : known (txSndAddr tx) ->
  (forall q', saved q' = refund tx (saved q) -> paid q' = failFee userTx h (paid q) -> Q tt q') ->
  (forall e q', plainErr e -> R e q') ->
  wp (A := A) (P := P) (executeFailedRelayedUserTx userTx (txSndAddr tx) (txValue tx) nonce tx h msg) Q R q.
Proof.
  intros Hk HQ HR. unfold executeFailedRelayedUserTx, refund in *. apply xwp_bind, getAccountFromAddress_wp; [done| |].
  - intros Hh r q1 (E1 & E2 & _) Hr. rewrite Hh, <- E1, <- E2 in HQ. clear E1 E2.
    apply xwp_bind, xwp_onPools; [|intros; apply HR; by eapply pools_plain]. intros []. apply xwp_bind, xwp_onFees, xwp_bind.
    eapply xwp_AddToBalance; [exact Hr|intros _; by apply HR|]. simpl. intros Hb. apply xwp_bind.
    assert (Hsave : forall q2, saved q2 = saved q1 -> paid q2 = failFee userTx h (paid q1) ->
      objs q2 !! r = Some (withBalance (Balance (dataAt (txSndAddr tx) (saved q1)) + txValue tx) (dataAt (txSndAddr tx) (saved q1))) ->
      wp (A := A) (P := P) (SaveAccount r) Q R q2).
    { intros q2 E1 E2 Er. eapply (xwp_save_as r (txSndAddr tx) (nonceAt (txSndAddr tx) (saved q1))); [by rewrite E1|].
      apply HQ; [|done]. simpl. by rewrite E1. }
    destruct (AddFailedRelayedTxToInvalidMBsFlag _).
    + apply xwp_onPools; [|intros; apply HR; by eapply pools_plain]. intros []. apply Hsave; [done..|apply lookup_insert_eq].
    + apply xwp_ret, Hsave; [done..|apply lookup_insert_eq].
  - intros Hh. rewrite Hh in HQ. apply xwp_bind, xwp_onPools; [|intros; apply HR; by eapply pools_plain]. intros [].
    apply xwp_bind, xwp_onFees, xwp_ret. by apply HQ.
Qed.

Lemma failUserTx_wp tx userTx h e (Q : ReturnCode -> astate -> Prop) q : known (txSndAddr tx) ->
  (forall q', saved q' = refund tx (saved q) -> paid q' = failFee userTx h (paid q) -> Q UserError q') ->
  wp (A := A) (P := P) (failUserTx tx userTx (txValue tx) (txNonce tx) h e) Q (fun ce _ => notFailedErr ce) q.
Proof.
  intros Hk HQ. unfold failUserTx. apply xwp_bind, xwp_orCode, executeFailed_wp; [done| |by intros; apply plain_notFailed].
  intros q' E1 E2. by apply xwp_ret, HQ.
Qed.

Lemma rejectUserTx_wp tx userTx h e q : known (txSndAddr tx) -> known (txSndAddr userTx) -> here (txSndAddr userTx) = true ->
  wp (A := A) (P := P) (rejectUserTx tx userTx (txValue tx) (txNonce tx) h e)
    (fun code q' => userOutcome tx userTx (saved q) (paid q) code (saved q') (paid q')) (fun ce _ => notFailedErr ce) q.
Proof.
  intros Hk Hku Hh. unfold rejectUserTx. apply xwp_bind, xwp_orCode, removeValue_wp; [done|done| |by intros; apply plain_notFailed].
  intros q1 Hb E1 E2. apply failUserTx_wp; [done|]. intros q2 E3 E4. rewrite E3, E4, E1, E2.
  pose proof (user_rejected tx userTx (saved q) (paid q) e h Hb) as HO. by destruct (shouldIncreaseNonce e).
Qed.

Lemma xwp_ignore {E X} (mm : SE (World A P) E X) (Q : X -> astate -> Prop) (R R' : E -> astate -> Prop) q :
  wp mm Q R q -> (forall e q', R e q' -> R' e q') -> wp mm Q R' q.
Proof. intros H HR. eapply xwp_mono; [exact H|done|exact HR]. Qed.

(** The fee for moving the balance, taken from the object of the user and recorded. *)
Lemma moveBalanceCost_wp userTx scr r a h Q R q : synced r a q -> wellAddressed (saved q) ->
  (forall c u q', saved q' = saved q -> paid q' = ProcessTransactionFeeRelayedUserTx (Some c) 0 u h (paid q) ->
     (forall acnt, acnt = Some r \/ upToDate acnt q -> upToDate acnt q') -> Q tt q') ->
  (forall e q', plainErr e -> R e q') -> wp (A := A) (P := P) (processMoveBalanceCostRelayedUserTx userTx scr (Some r) h) Q R q.
Proof.
  intros Hr Hw HQ HR. unfold processMoveBalanceCostRelayedUserTx.
  apply xwp_bind, xwp_liftR; [|intros e He; by apply HR; eapply hash_plain]. intros u Eu.
  apply xwp_bind, xwp_onFees. eapply xwp_SubFromBalance; [exact Hr|intros _; by apply HR|]. intros Hb. eapply HQ; [done..|].
  intros acnt Hacnt r' ->. destruct (decide (r' = r)) as [->|Hne].
  - eexists. split; [apply lookup_insert_eq|]. simpl. by rewrite dataAt_address.
  - destruct Hacnt as [[= ->]|Hup]; [done|]. destruct (Hup r' eq_refl) as (d & Ed & Hd). exists d. split; [|done].
    simpl. by rewrite lookup_insert_ne.
Qed.

Lemma synced_upToDate r a q : wellAddressed (saved q) -> synced r a q -> upToDate (Some r) q.
Proof. intros Hw Hr r' [= <-]. exists (dataAt a (saved q)). split; [done|]. by rewrite dataAt_address. Qed.

Lemma located_upToDate snd dst acntSnd acntDst q : wellAddressed (saved q) -> located snd dst acntSnd acntDst q ->
  upToDate acntSnd q /\ upToDate acntDst q.
Proof.
  intros Hw [Hs Hd _]. split; intros r ->; (eapply synced_upToDate; [done| |done]); [by apply Hs|by apply Hd].
Qed.

(** ** The user transaction *)

Lemma userTxFailed_wp tx userTx h e q Q : known (txSndAddr tx) ->
  (isInvalidMetaOrNotPayable e = true -> forall q', saved q' = refund tx (saved q) -> paid q' = failFee userTx h (paid q) -> Q UserError q') ->
  (e = ErrFailedTransaction -> Q ExecutionFailed q) ->
  wp (A := A) (P := P) (userTxFailed tx userTx (txValue tx) (txNonce tx) h e) Q (fun ce _ => notFailedErr ce) q.
Proof.
  intros Hk HQ HF. unfold userTxFailed. destruct (isInvalidMetaOrNotPayable e) eqn:Ei.
  - apply failUserTx_wp; [done|]. by apply HQ.
  - destruct e; try (by apply xwp_throw). by apply xwp_ret, HF.
Qed.

(** What the execution of a user transaction gives, before its errors are looked at. *)
Inductive executed (userTx : Transaction) (acntDst : option nat) (h : bytes) q : txErr + ReturnCode -> astate -> Prop :=
| exec_moved q' :
    let user := txSndAddr userTx in
    let fee := feeOf userTx (isHere acntDst) (dstTypeOf userTx) true in
    typeOf userTx = MoveBalance -> fee + txValue userTx <= balanceAt user (saved q) ->
    saved q' = paidTo (txRcvAddr userTx) (txValue userTx) (isHere acntDst) (debit user (fee + txValue userTx) (saved q)) ->
    recordFee userTx (recordedOf userTx (dstTypeOf userTx) true) h true (paid q) (paid q') -> executed userTx acntDst h q (inr Ok) q'
| exec_moveFailed r e q' : typeOf userTx = MoveBalance ->
    moveFailed (A := A) (P := P) userTx (txSndAddr userTx) (Some r) acntDst (dstTypeOf userTx) true q e q' -> executed userTx acntDst h q (inl e) q'
| exec_contract c u res q' : isContractType (typeOf userTx) = true ->
    contract (saved q) (ProcessTransactionFeeRelayedUserTx (Some c) 0 u h (paid q)) (saved q') (paid q') -> executed userTx acntDst h q res q'
| exec_plain e q' : plainErr e -> executed userTx acntDst h q (inl e) q'.

Lemma executeUserTx_wp userTx scr r acntDst h q : wellAddressed (saved q) ->
  located (txSndAddr userTx) (txRcvAddr userTx) (Some r) acntDst q -> isExecutableType (typeOf userTx) = true ->
  wp (A := A) (P := P) (executeUserTx (typeOf userTx) (dstTypeOf userTx) userTx scr (Some r) acntDst h)
    (fun code q' => executed userTx acntDst h q (inr code) q') (fun ce q' => executed userTx acntDst h q (inl (snd ce)) q') q.
Proof.
  intros Hw Hloc Htype. destruct (located_upToDate _ _ _ _ _ Hw Hloc) as [Hup1 Hup2].
  pose proof (located_snd _ _ _ _ _ Hloc r eq_refl) as Hr.
  assert (Hcontract : forall call, isContractType (typeOf userTx) = true ->
    (forall q1, (forall acnt, acnt = Some r \/ upToDate acnt q -> upToDate acnt q1) ->
       wp (A := A) (P := P) call (fun _ q' => contract (saved q1) (paid q1) (saved q') (paid q')) (fun _ q' => contract (saved q1) (paid q1) (saved q') (paid q')) q1) ->
    wp (orCode Ok (processMoveBalanceCostRelayedUserTx userTx scr (Some r) h) ;; call)
      (fun code q' => executed userTx acntDst h q (inr code) q') (fun ce q' => executed userTx acntDst h q (inl (snd ce)) q') q).
  { intros call Hc Hcall. apply xwp_bind, xwp_orCode. eapply moveBalanceCost_wp; [exact Hr|done| |].
    - intros c u q1 E1 E2 Hup. eapply xwp_mono; [by apply Hcall| |]; intros ? q' HC; rewrite E1, E2 in HC; by eapply exec_contract.
    - intros e q' He. by apply exec_plain. }
  destruct (typeOf userTx) eqn:Et; try done; simpl.
  - apply xwp_bind, xwp_orCode. eapply processMoveBalance_wp; [exact Hloc| |].
    + intros q' Hb E1 E2. apply xwp_ret. apply exec_moved; [done|by apply (Hb r)|done|done].
    + intros e q' He. simpl. by eapply exec_moveFailed.
  - apply Hcontract; [by rewrite ?Et|]. intros q1 Hup. apply contract_deploy. apply Hup. by left.
  - apply Hcontract; [by rewrite ?Et|]. intros q1 Hup. apply contract_execute; apply Hup; [by left|by right].
  - apply Hcontract; [by rewrite ?Et|]. intros q1 Hup. apply contract_builtin; apply Hup; [by left|by right].
Qed.

Lemma isHere_present (acnt : option nat) b : (is_Some acnt <-> b = true) -> isHere acnt = b.
Proof. intros H. unfold isHere. destruct b; [apply bool_decide_eq_true|apply bool_decide_eq_false]; naive_solver. Qed.

(** processUserTx has the outcomes above. *)
Lemma processUserTx_wp tx userTx h q : known (txSndAddr tx) -> known (txSndAddr userTx) -> known (txRcvAddr userTx) ->
  here (txSndAddr userTx) = true ->
  wp (A := A) (P := P) (processUserTx tx userTx (txValue tx) (txNonce tx) h)
    (fun code q' => userOutcome tx userTx (saved q) (paid q) code (saved q') (paid q')) (fun ce _ => notFailedErr ce) q.
Proof.
  intros Hk Hku Hkd Hh. unfold processUserTx.
  assert (Hreject : forall e q1, saved q1 = saved q -> paid q1 = paid q ->
    wp (A := A) (P := P) (rejectUserTx tx userTx (txValue tx) (txNonce tx) h e)
      (fun code q' => userOutcome tx userTx (saved q) (paid q) code (saved q') (paid q')) (fun ce _ => notFailedErr ce) q1).
  { intros e q1 <- <-. by apply rejectUserTx_wp. }
  apply xwp_handle, getAccounts_wp; [done|done| |by apply Hreject].
  intros acntSnd acntDst q1 (E1 & E2 & _) Hloc Hs Hd. apply xwp_addressed. intros Hw.
  assert (Hsnd : is_Some acntSnd) by (apply Hs; unfold present; by rewrite Hh). destruct Hsnd as [r ->].
  pose proof (located_snd _ _ _ _ _ Hloc r eq_refl) as Hr. apply isHere_present in Hd.
  destruct (ComputeTransactionType userTx) as [txType dstType] eqn:Et.
  assert (Etype : txType = typeOf userTx /\ dstType = dstTypeOf userTx) by by rewrite Et. destruct Etype as [-> ->]. clear Et.
  apply xwp_handle, checkTxValues_wp; [| |by intros; apply Hreject].
  { intros r' [Er|Er]; [injection Er as <-; by eexists|]. eexists. by apply (located_dst _ _ _ _ _ Hloc). }
  intros Hok. specialize (Hok r (dataAt (txSndAddr userTx) (saved q1)) eq_refl Hr). rewrite E1 in Hok.
  apply xwp_bind, xwp_orCode, xwp_liftR; [|intros e He; unfold makeSCRFromUserTx in He; destruct (SafeSubUint64 _ _) as [g [e'|]] eqn:Eg; [|done]; injection He as <-].
  2:{ apply plain_notFailed. eapply (sub_plain (TxLaws := TL)). by rewrite Eg. }
  intros scr _. destruct (isExecutableType (typeOf userTx)) eqn:Ex; simpl; [|by apply Hreject].
  apply xwp_handle. eapply xwp_mono; [by apply executeUserTx_wp| |].
  - intros code q2 HE. rewrite <- E1, <- E2.
    assert (HO : userOutcome tx userTx (saved q1) (paid q1) code (saved q2) (paid q2)).
    { inversion HE as [q' user fee Ht Hb Es Hp| |c u res q' Hc HC|]; subst; [|by eapply user_contract].
      rewrite Es. unfold fee. rewrite Hd. eapply user_moved; [done|by rewrite E1| |exact Hp]. unfold fee in Hb. by rewrite Hd in Hb. }
    destruct code; try (by apply xwp_ret). apply xwp_bind, xwp_orCode, xwp_onPools; [intros _; by apply xwp_ret|].
    intros. by eapply plain_notFailed, pools_plain.
  - intros [c e] q2 HE. simpl in *. rewrite <- E1, <- E2. apply userTxFailed_wp; [done| |].
    + intros Hi q3 E3 E4. rewrite E3, E4. inversion HE as [|r' e' q' Ht HM|c' u res q' Hc HC|e' q' He]; subst.
      * destruct HM as [_ HM]. destruct (HM Hi) as (Hb & E5 & E6). rewrite E5, E6. simpl. rewrite Hd in *.
        eapply (user_notPaid tx userTx (saved q1) (paid q1) h); [done|by rewrite E1|]. by eapply Hb.
      * by eapply user_contractFailed.
      * destruct He as [He _]. congruence.
    + intros ->. inversion HE as [|r' e' q' Ht HM|c' u res q' Hc HC|e' q' He]; subst; [by destruct HM|by eapply user_contract|by destruct He].
Qed.

(** ** Outcomes of a transaction *)

(** The user transaction that a relayed one carries. *)
Definition relayedUserTx (tx : Transaction) : option Transaction :=
  match typeOf tx, ParseCallData (A := A) (P := P) (txData tx) with
  | RelayedTx, inr (_, [arg]) =>
      match UnmarshalTransaction (A := A) (P := P) arg with
      | inr userTx => if relayedMismatch tx userTx then None else Some userTx
      | inl _ => None
      end
  | RelayedTxV2, inr (_, args) => if (length args =? 4)%nat then Some (makeUserTxFromRelayedTxV2Args tx args) else None
  | _, _ => None
  end.

(** The relayer has paid, and the user has got the value and the fee. *)
Definition relayerPaid (tx userTx : Transaction) m : accountsMap :=
  if present (A := A) (P := P) (txSndAddr tx) (txRcvAddr tx)
  then debit (txSndAddr tx) (txValue tx + totalFee (computeRelayedTxFees (A := A) (P := P) tx userTx)) m else m.

Definition userFunded (tx userTx : Transaction) m : accountsMap :=
  credit (txRcvAddr tx) (txValue tx + remainingFee (computeRelayedTxFees (A := A) (P := P) tx userTx)) (relayerPaid tx userTx m).

Definition relayerRecorded (tx userTx : Transaction) f f' : Prop :=
  if present (A := A) (P := P) (txSndAddr tx) (txRcvAddr tx)
  then recordFee tx (relayerFee (computeRelayedTxFees (A := A) (P := P) tx userTx)) [] false f f' else f' = f.

(** [outcome tx m f res m' f']: the transaction gives the return code [Some code], or fails with
    ErrFailedTransaction ([None]), from the saved accounts [m] and the fees [f]. *)
Inductive outcome (tx : Transaction) (m : accountsMap) (f : feeHandler) : option ReturnCode -> accountsMap -> feeHandler -> Prop :=
| out_moved f' :
    let snd := txSndAddr tx in let dst := txRcvAddr tx in
    let sndHere := present (A := A) (P := P) snd dst in let dstHere := present (A := A) (P := P) dst snd in
    let fee := feeOf tx dstHere (dstTypeOf tx) false in
    typeOf tx = MoveBalance ->
    (sndHere = true -> valuesOk (A := A) (P := P) tx false (dataAt snd m) /\ fee + txValue tx <= balanceAt snd m) ->
    recordFee tx (if sndHere then recordedOf tx (dstTypeOf tx) false else 0) [] false f f' ->
    outcome tx m f (Some Ok) (paidTo dst (txValue tx) dstHere (chargedBy snd fee (txValue tx) sndHere m)) f'
| out_failed f' :
    present (A := A) (P := P) (txSndAddr tx) (txRcvAddr tx) = true ->
    ComputeTxFee tx <= balanceAt (txSndAddr tx) m ->
    (hasUserNames tx = false -> nonceAt (txSndAddr tx) m = txNonce tx) ->
    recordFee tx (ComputeTxFee tx) [] false f f' ->
    outcome tx m f None (debit (txSndAddr tx) (ComputeTxFee tx) m) f'
| out_relayed userTx f1 code m' f' :
    relayedUserTx tx = Some userTx -> here (txRcvAddr tx) = true ->
    (present (A := A) (P := P) (txSndAddr tx) (txRcvAddr tx) = true -> nonceAt (txSndAddr tx) m = txNonce tx) ->
    relayerRecorded tx userTx f f1 ->
    userOutcome tx userTx (userFunded tx userTx m) f1 code m' f' -> outcome tx m f (Some code) m' f'
| out_relayedAway userTx f' :
    relayedUserTx tx = Some userTx -> present (A := A) (P := P) (txRcvAddr tx) (txSndAddr tx) = false ->
    nonceAt (txSndAddr tx) m = txNonce tx -> relayerRecorded tx userTx f f' ->
    outcome tx m f (Some Ok) (relayerPaid tx userTx m) f'
| out_ignored : present (A := A) (P := P) (txSndAddr tx) (txRcvAddr tx) = false -> outcome tx m f (Some UserError) m f
| out_contract res m' f' :
    isContractType (typeOf tx) = true -> contract m f m' f' -> outcome tx m f res m' f'
| out_refused m1 m' f' res :
    res <> Some Ok -> typeOf tx = MoveBalance ->
    let snd := txSndAddr tx in let dst := txRcvAddr tx in
    let sndHere := present (A := A) (P := P) snd dst in
    let fee := feeOf tx (present (A := A) (P := P) dst snd) (dstTypeOf tx) false in
    (sndHere = true -> valuesOk (A := A) (P := P) tx false (dataAt snd m) /\ fee + txValue tx <= balanceAt snd m) ->
    m1 = chargedBy snd fee (txValue tx) sndHere m -> contract m1 f m' f' -> outcome tx m f res m' f'
| out_crossName res m' f' :
    res <> Some Ok -> present (A := A) (P := P) (txSndAddr tx) (txRcvAddr tx) = false -> contract m f m' f' -> outcome tx m f res m' f'.

Notation goodOutcome tx q := (fun code q' => outcome tx (saved q) (paid q) (Some code) (saved q') (paid q')).
Notation badOutcome tx q := (fun (ce : ReturnCode * txErr) q' => snd ce = ErrFailedTransaction -> outcome tx (saved q) (paid q) None (saved q') (paid q')).

(** What a handler is given once the values have been checked. *)
Record readyFor (tx : Transaction) (acntSnd acntDst : option nat) q : Prop := mkReady {
  ready_located : located (txSndAddr tx) (txRcvAddr tx) acntSnd acntDst q;
  ready_snd : isHere acntSnd = present (A := A) (P := P) (txSndAddr tx) (txRcvAddr tx);
  ready_dst : isHere acntDst = present (A := A) (P := P) (txRcvAddr tx) (txSndAddr tx);
  ready_ours : isHere acntDst = true -> here (txRcvAddr tx) = true;
  ready_either : isHere acntSnd = true \/ isHere acntDst = true;
  ready_values : isHere acntSnd = true -> valuesOk (A := A) (P := P) tx false (dataAt (txSndAddr tx) (saved q));
  ready_addressed : wellAddressed (saved q);
  ready_knownSnd : known (txSndAddr tx);
  ready_knownDst : known (txRcvAddr tx);
}.

(** A failed transaction: the sender is charged when it is here. *)
Lemma failed_wp tx acntSnd acntDst e c c' q : located (txSndAddr tx) (txRcvAddr tx) acntSnd acntDst q ->
  isHere acntSnd = present (A := A) (P := P) (txSndAddr tx) (txRcvAddr tx) ->
  (isHere acntSnd = true -> hasUserNames tx = false -> nonceAt (txSndAddr tx) (saved q) = txNonce tx) ->
  (isHere acntSnd = false -> c' = UserError) ->
  wp (A := A) (P := P) (orCode c (executingFailedTransaction tx acntSnd e) ;; ret c') (goodOutcome tx q) (badOutcome tx q) q.
Proof.
  intros Hloc Hh Hn Hc. destruct acntSnd as [r|].
  - apply xwp_bind, xwp_orCode. eapply executingFailed_wp; [by eapply located_snd| |].
    + intros q' Hb E1 E2 _. rewrite E1. by apply out_failed; [rewrite <- Hh| |apply Hn|].
    + intros e' q' [_ He] E. simpl in E. done.
  - apply xwp_bind, xwp_orCode, xwp_ret, xwp_ret. rewrite Hc by done. by apply out_ignored.
Qed.

Lemma userError_wp tx acntSnd acntDst e q : readyFor tx acntSnd acntDst q ->
  wp (A := A) (P := P) (userError tx acntSnd e) (goodOutcome tx q) (badOutcome tx q) q.
Proof.
  intros []. eapply failed_wp; [done|done| |done]. intros Hh _. by apply (ok_nonce _ _ _ (ready_values0 Hh)).
Qed.

Lemma located_paid snd dst acntSnd acntDst q f : located snd dst acntSnd acntDst q -> located snd dst acntSnd acntDst (set_paid f q).
Proof. intros []. by split. Qed.

Lemma txAtRelayer_wp tx userTx acntSnd acntDst (Q : bytes -> astate -> Prop) (R : txErr -> astate -> Prop) q : readyFor tx acntSnd acntDst q ->
  let cf := computeRelayedTxFees (A := A) (P := P) tx userTx in
  (forall h q', located (txSndAddr tx) (txRcvAddr tx) acntSnd acntDst q' -> saved q' = relayerPaid tx userTx (saved q) ->
     relayerRecorded tx userTx (paid q) (paid q') -> Q h q') ->
  (forall e q', plainErr e -> R e q') ->
  wp (A := A) (P := P) (processTxAtRelayer acntSnd (totalFee cf) (relayerFee cf) tx) Q R q.
Proof.
  intros Hready cf HQ HR. pose proof (ready_located _ _ _ _ Hready) as Hloc. unfold relayerPaid, relayerRecorded in HQ.
  rewrite <- (ready_snd _ _ _ _ Hready) in HQ. fold cf in HQ. unfold processTxAtRelayer.
  apply xwp_bind, xwp_liftR; [|intros e He; by apply HR; eapply hash_plain]. intros h Eh. apply xwp_bind.
  destruct acntSnd as [r|]; [|by apply xwp_ret, xwp_ret, HQ]. set (snd := txSndAddr tx) in *.
  pose proof (located_snd _ _ _ _ _ Hloc r eq_refl) as Hr.
  apply xwp_bind. eapply xwp_SubFromBalance; [exact Hr|intros _; by apply HR|]. intros Hb1.
  apply xwp_bind. eapply xwp_SubFromBalance; [apply lookup_insert_eq|intros _; by apply HR|]. simpl. intros Hb2.
  apply xwp_bind. eapply xwp_IncreaseNonce; [apply lookup_insert_eq|]. simpl. apply xwp_bind.
  eapply (xwp_save_as r snd (u64 (nonceAt snd (saved q) + 1)) (balanceAt snd (saved q) - txValue tx - totalFee cf)); [apply lookup_insert_eq|].
  apply xwp_onFees, xwp_ret, HQ.
  - apply located_paid.
    pose proof (located_charge snd (txRcvAddr tx) (Some r) acntDst q r (u64 (nonceAt snd (saved q) + 1)) (balanceAt snd (saved q) - txValue tx - totalFee cf) Hloc eq_refl) as HL.
    unfold set_saved, putObj, set_objs in *. simpl in *. by rewrite !insert_insert_eq.
  - simpl. unfold debit. f_equal. lia.
  - by exists h.
Qed.

Lemma finish_wp tx userTx acntSnd acntDst q : readyFor tx acntSnd acntDst q -> relayedUserTx tx = Some userTx ->
  txSndAddr userTx = txRcvAddr tx -> known (txRcvAddr userTx) ->
  wp (A := A) (P := P) (finishExecutionOfRelayedTx acntSnd acntDst tx userTx) (goodOutcome tx q) (badOutcome tx q) q.
Proof.
  intros Hready Hu Hsnd Hku. pose proof Hready as [Hloc Hs Hd Hours Heither Hval Hw Hk1 Hk2]. unfold finishExecutionOfRelayedTx.
  assert (Hn : isHere acntSnd = true -> nonceAt (txSndAddr tx) (saved q) = txNonce tx) by (intros Hh; by apply (ok_nonce _ _ _ (Hval Hh))).
  assert (Hno : forall e (q' : astate), plainErr e -> badOutcome tx q (Ok, e) q') by (intros e q' [_ He] E; by simpl in E).
  apply xwp_bind, xwp_orCode. eapply txAtRelayer_wp; [done| |done]. intros h q1 Hl1 E1 Ef.
  destruct acntDst as [r|].
  - apply xwp_bind, xwp_orCode. unfold addFeeAndValueToDest. pose proof (located_dst _ _ _ _ _ Hl1 r eq_refl) as Hr.
    set (dst := txRcvAddr tx) in *. set (rem := remainingFee _).
    apply xwp_bind. eapply xwp_AddToBalance; [exact Hr|intros _; by apply Hno|]. intros Hb1.
    apply xwp_bind. eapply xwp_AddToBalance; [apply lookup_insert_eq|intros _; by apply Hno|]. simpl. intros Hb2.
    eapply (xwp_save_as r dst (nonceAt dst (saved q1)) (balanceAt dst (saved q1) + txValue tx + rem)); [apply lookup_insert_eq|].
    eapply xwp_mono; [apply processUserTx_wp; [done|by rewrite Hsnd|done|rewrite Hsnd; by apply Hours]| |].
    + intros code q2 HO. simpl in HO. eapply (out_relayed tx _ _ userTx (paid q1)); [done|by apply Hours|intros Hp; apply Hn; by rewrite Hs|done|].
      unfold userFunded. rewrite <- E1. unfold credit. fold rem dst. by rewrite Z.add_assoc.
    + intros ce q2 HE E. by destruct HE.
  - apply xwp_ret. rewrite E1. apply out_relayedAway; [done|by rewrite <- Hd| |done].
    apply Hn. destruct Heither; [done|]. by simpl in *.
Qed.

Lemma relayed_wp tx acntSnd acntDst q : readyFor tx acntSnd acntDst q -> typeOf tx = RelayedTx ->
  (forall userTx, relayedUserTx tx = Some userTx -> known (txRcvAddr userTx)) ->
  wp (A := A) (P := P) (processRelayedTx tx acntSnd acntDst) (goodOutcome tx q) (badOutcome tx q) q.
Proof.
  intros Hready Ht Hknown. unfold processRelayedTx. unfold relayedUserTx in Hknown. rewrite Ht in Hknown.
  destruct (ParseCallData (txData tx)) as [e|[fn args]] eqn:Ep.
  { apply xwp_throw. simpl. intros ->. by destruct (parse_plain _ _ Ep). }
  destruct args as [|arg [|]]; try by eapply userError_wp.
  destruct (negb (RelayedTransactionsFlag txFlags)); [by eapply userError_wp|].
  destruct (UnmarshalTransaction arg) as [e|userTx] eqn:Eu; [by eapply userError_wp|].
  destruct (relayedMismatch tx userTx) as [e|] eqn:Em; [by eapply userError_wp|].
  apply finish_wp; [done| | |by apply Hknown].
  - unfold relayedUserTx. by rewrite Ht, Ep, Eu, Em.
  - unfold relayedMismatch in Em. destruct (beq (txSndAddr userTx) (txRcvAddr tx)) eqn:E; [by apply beq_true in E|done].
Qed.

Lemma relayedV2_wp tx acntSnd acntDst q : readyFor tx acntSnd acntDst q -> typeOf tx = RelayedTxV2 ->
  (forall userTx, relayedUserTx tx = Some userTx -> known (txRcvAddr userTx)) ->
  wp (A := A) (P := P) (processRelayedTxV2 tx acntSnd acntDst) (goodOutcome tx q) (badOutcome tx q) q.
Proof.
  intros Hready Ht Hknown. unfold processRelayedTxV2. unfold relayedUserTx in Hknown. rewrite Ht in Hknown.
  destruct (negb (RelayedTransactionsV2Flag txFlags)); [by eapply userError_wp|].
  destruct (negb (txValue tx =? 0)); [by eapply userError_wp|].
  destruct (ParseCallData (txData tx)) as [e|[fn args]] eqn:Ep; [by eapply userError_wp|].
  destruct (length args =? 4)%nat eqn:El; simpl; [|by eapply userError_wp].
  apply finish_wp; [done| |done|by apply Hknown]. unfold relayedUserTx. by rewrite Ht, Ep, El.
Qed.

(** ** ProcessTransaction *)

(** When the receiver does not take the value. *)
Lemma afterFailedMove_wp tx acntSnd acntDst e q q1 : readyFor tx acntSnd acntDst q -> typeOf tx = MoveBalance ->
  moveFailed (A := A) (P := P) tx (txSndAddr tx) acntSnd acntDst (dstTypeOf tx) false q e q1 ->
  wp (A := A) (P := P) (orCode UserError (executeAfterFailedMoveBalanceTransaction tx e) ;; ret UserError) (goodOutcome tx q) (badOutcome tx q) q1.
Proof.
  intros Hready Ht [Hne HM]. pose proof Hready as [Hloc Hs Hd Hours Heither Hval Hw Hk1 Hk2].
  apply xwp_bind, xwp_orCode. unfold executeAfterFailedMoveBalanceTransaction.
  destruct (IsGetNodeFromDBError e); [by apply xwp_throw; intros ?|].
  assert (Hend : forall acnt q2, saved q2 = saved q1 -> paid q2 = paid q1 -> upToDate acnt q2 ->
    wp (A := A) (P := P) (if isInvalidMetaOrNotPayable e then
      let! snapshot := JournalLen in
      let! txHash := liftR (CalculateHash (aTransaction tx)) in
      ProcessIfError acnt txHash tx (errorText e) [] snapshot 0 ;;
      match acnt with
      | None => ret tt
      | Some _ => onPools (AddIntermediateTransactions badTxForwarder [aTransaction tx] txHash) ;; throw ErrFailedTransaction
      end else throw e) (fun _ q' => wp (A := A) (P := P) (ret UserError) (goodOutcome tx q) (badOutcome tx q) q')
        (fun e' q' => badOutcome tx q (UserError, e') q') q2).
  { intros acnt q2 E1 E2 Hup. destruct (isInvalidMetaOrNotPayable e); [|by apply xwp_throw; intros ?].
    destruct (HM eq_refl) as (Hb & E3 & E4). unfold revertedTo in E3. rewrite andb_false_r in E3. simpl in E3.
    assert (Href : forall res m' f', res <> Some Ok -> contract (saved q2) (paid q2) m' f' -> outcome tx (saved q) (paid q) res m' f').
    { intros res m' f' Hres HC. rewrite E1, E2, E4 in HC. eapply (out_refused tx _ _ (saved q1)); [done|done| | |exact HC].
      - rewrite <- Hs, <- Hd. intros Hh. split; [by apply Hval|]. destruct acntSnd as [r|]; [by eapply Hb|done].
      - by rewrite E3, Hs, Hd. }
    apply xwp_bind, xwp_JournalLen. intros n. apply xwp_bind, xwp_liftR; [|intros e' He E; simpl in E; subst; by destruct (hash_plain _ _ He)].
    intros h _. apply xwp_bind. eapply xwp_mono; [by apply contract_ifError| |].
    - intros [] q3 HC. destruct acnt as [r|]; [|by apply xwp_ret, xwp_ret, Href].
      apply xwp_bind, xwp_onPools; [intros []; apply xwp_throw; intros _; by apply Href|].
      intros p p' e' Hp E. simpl in E. subst. by destruct (pools_plain _ _ _ _ _ _ Hp).
    - intros e' q3 HC E. by apply Href. }
  apply xwp_bind, getAccountFromAddress_wp; [done| |].
  - intros _ r q2 (E1 & E2 & _) Hr. apply xwp_addressed. intros Hw2. apply Hend; [done|done|by eapply synced_upToDate].
  - intros _. by apply Hend.
Qed.

Lemma executeTransaction_wp tx acntSnd acntDst q : readyFor tx acntSnd acntDst q ->
  (forall userTx, relayedUserTx tx = Some userTx -> known (txRcvAddr userTx)) ->
  wp (A := A) (P := P) (executeTransaction tx acntSnd acntDst) (goodOutcome tx q) (badOutcome tx q) q.
Proof.
  intros Hready Hknown. pose proof Hready as [Hloc Hs Hd Hours Heither Hval Hw Hk1 Hk2]. unfold executeTransaction.
  destruct (located_upToDate _ _ _ _ _ Hw Hloc) as [Hup1 Hup2].
  assert (Hcontract : forall call : RM ReturnCode, isContractType (typeOf tx) = true ->
    wp (A := A) (P := P) call (fun _ q' => contract (saved q) (paid q) (saved q') (paid q')) (fun _ q' => contract (saved q) (paid q) (saved q') (paid q')) q ->
    wp (A := A) (P := P) call (goodOutcome tx q) (badOutcome tx q) q).
  { intros call Hc Hcall. eapply xwp_mono; [exact Hcall| |]; intros ? q' HC; [|intros _]; by apply out_contract. }
  pose proof (relayed_wp tx acntSnd acntDst q Hready) as Hrel. pose proof (relayedV2_wp tx acntSnd acntDst q Hready) as Hrel2.
  pose proof (fun e q1 => afterFailedMove_wp tx acntSnd acntDst e q q1 Hready) as Hafter.
  pose proof (out_moved tx (saved q) (paid q)) as Hmoved. cbv zeta in Hmoved. rewrite <- Hs, <- Hd in Hmoved.
  destruct (ComputeTransactionType tx) as [txType dstType] eqn:Et. simpl in *.
  destruct txType; try (by eapply userError_wp); try (by auto).
  - apply xwp_handle. eapply processMoveBalance_wp; [exact Hloc| |].
    + intros q' Hb E1 E2. apply xwp_ret. rewrite E1. apply Hmoved; [done| |done].
      intros Hh. split; [by apply Hval|]. destruct acntSnd as [r|]; [by apply (Hb r)|done].
    + intros e q' HM. by apply Hafter.
  - apply Hcontract; [done|]. by apply contract_deploy.
  - apply Hcontract; [done|]. by apply contract_execute.
  - apply Hcontract; [done|]. by apply contract_builtin.
Qed.

Lemma checkFailed_wp tx acntSnd acntDst e q : located (txSndAddr tx) (txRcvAddr tx) acntSnd acntDst q ->
  isHere acntSnd = present (A := A) (P := P) (txSndAddr tx) (txRcvAddr tx) -> checkErr tx acntSnd q e ->
  wp (A := A) (P := P) (checkFailed tx acntSnd e) (goodOutcome tx q) (badOutcome tx q) q.
Proof.
  intros Hloc Hh He. destruct acntSnd as [r|]; simpl in He.
  - destruct He as (Hc & Hf & Hn). pose proof (located_snd _ _ _ _ _ Hloc r eq_refl) as Hr. specialize (Hn _ Hr).
    assert (Hfail : forall c e', (hasUserNames tx = false -> nonceAt (txSndAddr tx) (saved q) = txNonce tx) ->
      wp (A := A) (P := P) (orCode c (executingFailedTransaction tx (Some r) e')) (fun _ q' => False) (badOutcome tx q) q).
    { intros c e' Hnonce. apply xwp_orCode. eapply executingFailed_wp; [exact Hr| |].
      - intros q' Hb E1 E2 _. rewrite E1. by apply out_failed; [rewrite <- Hh| |done|].
      - intros e2 q' [_ Hne] E. simpl in E. done. }
    destruct e; try (by apply xwp_throw; intros ?); try done; simpl.
    + apply xwp_bind. eapply xwp_mono; [apply Hfail; intros _; naive_solver|done|done].
    + apply xwp_bind. destruct (RelayedTransactionsFlag txFlags); [|by apply xwp_ret, xwp_throw].
      eapply xwp_mono; [apply Hfail; intros Hu; destruct Hn as [?|[[_ ?]|?]]; [done|congruence|done]|done|done].
  - subst e. simpl. apply xwp_bind, xwp_orCode. unfold processIfTxErrorCrossShard.
    apply xwp_bind, xwp_liftR; [|intros e' He' E; simpl in E; subst; by destruct (hash_plain _ _ He')]. intros h _.
    apply xwp_bind, xwp_JournalLen. intros n. eapply xwp_mono; [by apply contract_ifError| |].
    + intros [] q3 HC. by apply xwp_ret, out_crossName.
    + intros e' q3 HC E. by apply out_crossName.
Qed.

(** The transaction is of this shard. *)
Definition ours (tx : Transaction) : bool := here (txSndAddr tx) || here (txRcvAddr tx).

(** The addresses that the transaction names. *)
Definition knownTx (tx : Transaction) : Prop :=
  known (txSndAddr tx) /\ known (txRcvAddr tx) /\ (forall userTx, relayedUserTx tx = Some userTx -> known (txRcvAddr userTx)).

(** ProcessTransaction has the outcomes above. *)
Lemma ProcessTransaction_wp tx q : ours tx = true -> knownTx tx ->
  wp (A := A) (P := P) (ProcessTransaction (Some tx)) (goodOutcome tx q) (badOutcome tx q) q.
Proof.
  intros Hours (Hk1 & Hk2 & Hk3). unfold ProcessTransaction. apply xwp_bind, xwp_orCode, getAccounts_wp; [done|done| |by intros ?].
  intros acntSnd acntDst q1 (E1 & E2 & _) Hloc Hs%isHere_present Hd%isHere_present. rewrite <- E1, <- E2. apply xwp_addressed. intros Hw.
  apply xwp_bind, xwp_orCode, xwp_liftR; [|intros e He E; simpl in E; subst; by destruct (hash_plain _ _ He)]. intros h _.
  apply xwp_handle, checkTxValues_wp.
  - intros r [Er|Er]; eexists; [by apply (located_snd _ _ _ _ _ Hloc)|by apply (located_dst _ _ _ _ _ Hloc)].
  - intros Hok. apply executeTransaction_wp; [|done]. unfold ours, present in *. split; try done.
    + rewrite Hd. intros [Hh|Hh]%orb_true_iff; [done|]. apply beq_true in Hh as Eq. rewrite <- Eq in Hours. by destruct (here _).
    + rewrite Hs, Hd. apply orb_true_iff in Hours as [->| ->]; auto.
    + intros Hh. destruct acntSnd as [r|]; [|done]. eapply Hok; [done|]. by apply (located_snd _ _ _ _ _ Hloc).
  - intros e He. by eapply checkFailed_wp.
Qed.
End Relayed.
