(* ===== verification/TxTheorems.v ===== *)
(** * The theorems about transactions, with a shard of four accounts as example. *)

From stdpp Require Import base list gmap strings.
From Stdlib Require Import ZArith Lia.
From S2P Require Import Prelude TrieNode TrieOps PatriciaMerkleTrie TrieMap TrieRun TrieExample CommonTrie TrackableDataTrie UserAccount AccountsDB.
From S2P Require Import AccountsSim AccountsUndo AccountsRevert AccountsExample.
From S2P Require Import Economics FeeHandler TxProcessor TxLedger TxMove TxRelayed.

Section Theorems.
Context {A P : Type} {AA : AccountsAdapter A} {LL : LedgerLaws A} {CO : CoreLib} {FC : FeeComputer} {TS : TxSurroundings A P}.
Context {TL : TxLaws A P} {CL : ContractLaws A P}.
Abbreviation W := (World A P).
Abbreviation accountsMap := (gmap bytes UserAccountData).
Implicit Types (m : accountsMap) (f : feeHandler) (tx : Transaction) (w : W).

Notation here a := (inShard (A := A) (P := P) a).
Notation typeOf tx := (fst (ComputeTransactionType (A := A) (P := P) tx)).
Notation dstTypeOf tx := (snd (ComputeTransactionType (A := A) (P := P) tx)).
Notation flags := (txFlags (A := A) (P := P)).

(** The world has the saved accounts [m] and the fees [f]. *)
Definition sees w m f : Prop := exists h, models w (mkA m h f).

(** The results after which a block keeps what a transaction did: a return code, or
    ErrFailedTransaction. *)
Definition resultOf (r : (ReturnCode * txErr) + ReturnCode) : option (option ReturnCode) :=
  match r with
  | inr code => Some (Some code)
  | inl (_, ErrFailedTransaction) => Some None
  | inl _ => None
  end.

Lemma ProcessTransaction_outcome w m f tx w' r res : sees w m f -> ours (A := A) (P := P) tx = true -> knownTx (A := A) (P := P) tx ->
  ProcessTransaction (Some tx) w = (w', r) -> resultOf r = Some res ->
  exists m' f', sees w' m' f' /\ outcome (A := A) (P := P) tx m f res m' f'.
Proof.
  intros [h Hw] Ho Hk E Hr. pose proof (ProcessTransaction_wp tx _ Ho Hk w Hw) as HP. rewrite E in HP.
  destruct r as [[c e]|code]; destruct HP as (q' & Hw' & HP).
  - assert (He : e = ErrFailedTransaction /\ res = None) by (destruct e; simpl in Hr; try done; by injection Hr as <-).
    destruct He as [-> ->]. exists (saved q'), (paid q'). split; [by exists (objs q'); destruct q'|]. by apply HP.
  - injection Hr as <-. exists (saved q'), (paid q'). split; [by exists (objs q'); destruct q'|done].
Qed.

(** ** Money *)

(** All the money of the shard: on the accounts, and in the fees of the block. *)
Definition money m f : Z := totalBalance m + GetAccumulatedFees f.

Lemma accumulated_record tx fee h u f f' : recordFee tx fee h u f f' -> 0 <= fee ->
  GetAccumulatedFees f' = GetAccumulatedFees f + fee.
Proof.
  intros (txHash & _ & ->) Hfee. unfold GetAccumulatedFees. destruct u; simpl; unfold ProcessTransactionFeeRelayedUserTx, ProcessTransactionFee, processTransactionFee;
    (destruct (Z.ltb_spec fee 0); [lia|done]).
Qed.

Lemma present_here a b : here a = true -> present (A := A) (P := P) a b = true.
Proof. unfold present. by intros ->. Qed.

Lemma present_not a b : here a = false -> here b = true -> present (A := A) (P := P) a b = false.
Proof.
  unfold present. intros Ea Eb. rewrite Ea. simpl. apply beq_false. intros ->. congruence.
Qed.

Lemma inner_nonneg tx : 0 <= computeInnerTxFee (A := A) (P := P) tx.
Proof.
  unfold computeInnerTxFee, computeInnerTxFeeAfterBaseCostFix. destruct (FixRelayedBaseCostFlag flags); [|apply processingFee_nonneg].
  destruct (ComputeTransactionType tx) as [t d]. case_decide; [apply moveFee_nonneg|].
  pose proof (moveFee_nonneg tx). pose proof (processingFee_nonneg tx (u64 (txGasLimit tx - ComputeGasLimit tx))). lia.
Qed.

(** ** Nonces *)

(** No account is about to use up its nonces. *)
Definition noncesOk m : Prop := forall a, 0 <= nonceAt a m /\ nonceAt a m + 2 < 2 ^ 64.
Definition nonceLe m m' : Prop := forall a, nonceAt a m <= nonceAt a m'.

Lemma nonceAt_debit a b v m : nonceAt b (debit a v m) = if decide (b = a) then u64 (nonceAt a m + 1) else nonceAt b m.
Proof. unfold debit. case_decide; [subst; by rewrite nonceAt_put|by rewrite nonceAt_put_ne]. Qed.
Lemma nonceAt_debitOnly a b v m : nonceAt b (debitOnly a v m) = nonceAt b m.
Proof. unfold debitOnly. destruct (decide (b = a)) as [->|]; [by rewrite nonceAt_put|by rewrite nonceAt_put_ne]. Qed.
Lemma nonceAt_credit a b v m : nonceAt b (credit a v m) = nonceAt b m.
Proof. unfold credit. destruct (decide (b = a)) as [->|]; [by rewrite nonceAt_put|by rewrite nonceAt_put_ne]. Qed.

Lemma u64_next n : 0 <= n -> n + 1 < 2 ^ 64 -> u64 (n + 1) = n + 1.
Proof. intros H1 H2. apply Z.mod_small. lia. Qed.

Lemma nonceLe_refl m : nonceLe m m.
Proof. intros a. lia. Qed.
Lemma nonceLe_trans m1 m2 m3 : nonceLe m1 m2 -> nonceLe m2 m3 -> nonceLe m1 m3.
Proof. intros H1 H2 a. specialize (H1 a). specialize (H2 a). lia. Qed.

(** At most [k] nonces were used. *)
Definition nonceStep (k : Z) m m' : Prop := forall a, nonceAt a m <= nonceAt a m' <= nonceAt a m + k.

Lemma step_debit a v m : (forall b, 0 <= nonceAt b m /\ nonceAt b m + 1 < 2 ^ 64) -> nonceStep 1 m (debit a v m).
Proof. intros Hm b. rewrite nonceAt_debit. case_decide; [subst; rewrite u64_next; [lia|apply Hm..]|lia]. Qed.

Lemma step_same m m' : (forall a, nonceAt a m' = nonceAt a m) -> nonceLe m m'.
Proof. intros H a. rewrite H. lia. Qed.

Lemma le_paidTo a v h m : nonceLe m (paidTo a v h m).
Proof. apply step_same. intros b. destruct h; [apply nonceAt_credit|done]. Qed.

Lemma le_refund tx m : nonceLe m (refund (A := A) (P := P) tx m).
Proof. apply step_same. intros b. unfold refund. destruct (here _); [apply nonceAt_credit|done]. Qed.

Lemma le_reverted tx s a b m : nonceLe m (revertedTo (A := A) (P := P) tx s a b m).
Proof. apply step_same. intros c. unfold revertedTo. destruct (_ && _); [apply nonceAt_credit|done]. Qed.

(** The smart-contract processor does not take nonces back. *)
Definition contractsKeepNonces : Prop := forall m f m' f', contract (A := A) (P := P) m f m' f' -> nonceLe m m'.

Definition room (k : Z) m : Prop := forall a, 0 <= nonceAt a m /\ nonceAt a m + k < 2 ^ 64.

Lemma le_debit a v m : room 1 m -> nonceLe m (debit a v m).
Proof. intros Hm b. apply (step_debit a v m Hm b). Qed.

Lemma le_charged a fee v h m : room 1 m -> nonceLe m (chargedBy a fee v h m).
Proof. intros Hm. destruct h; [by apply le_debit|apply nonceLe_refl]. Qed.

Lemma user_nonces tx userTx m f code m' f' : contractsKeepNonces -> room 1 m ->
  userOutcome (A := A) (P := P) tx userTx m f code m' f' -> nonceLe m m'.
Proof.
  intros HC Hm HO. destruct HO.
  - eapply nonceLe_trans; [by apply le_debit|apply le_paidTo].
  - eapply nonceLe_trans; [|apply le_refund]. destruct (shouldIncreaseNonce e); [by apply le_debit|].
    apply step_same. intros b. apply nonceAt_debitOnly.
  - eapply nonceLe_trans; [by apply le_debit|]. eapply nonceLe_trans; [apply le_reverted|apply le_refund].
  - by eapply HC.
  - eapply nonceLe_trans; [by eapply HC|apply le_refund].
Qed.

Lemma room_step k m m' : nonceStep 1 m m' -> room (k + 1) m -> room k m'.
Proof. intros Hs Hm a. specialize (Hs a). specialize (Hm a). lia. Qed.

Lemma relayerPaid_step tx userTx m : room 2 m -> nonceStep 1 m (relayerPaid (A := A) (P := P) tx userTx m).
Proof.
  intros Hm. unfold relayerPaid. destruct (present _ _); [|intros a; lia]. apply step_debit. intros b. specialize (Hm b). lia.
Qed.

(** No nonce goes back, and the one of the sender has been used. *)
Lemma outcome_nonces tx m f res m' f' : contractsKeepNonces -> noncesOk m -> outcome (A := A) (P := P) tx m f res m' f' ->
  nonceLe m m' /\
  (here (txSndAddr tx) = true -> isContractType (typeOf tx) = false -> hasUserNames tx = false -> txNonce tx < nonceAt (txSndAddr tx) m').
Proof.
  intros HC Hm HO. assert (Hm1 : room 1 m) by (intros a; specialize (Hm a); lia).
  assert (Hused : forall v, nonceAt (txSndAddr tx) m = txNonce tx -> nonceAt (txSndAddr tx) (debit (txSndAddr tx) v m) = txNonce tx + 1).
  { intros v E. rewrite nonceAt_debit, decide_True, E by done. specialize (Hm (txSndAddr tx)). apply u64_next; lia. }
  destruct HO as [f' s d sh dh fee Ht Hv Hf|f' Hp Hb Hn Hf|userTx f1 code m' f' Hu Hd Hn Hf HU|userTx f' Hu Hd Hn Hf|Hp|res m' f' Ht Hcon
    |m1 m' f' res Hres Ht s d sh fee Hv -> Hcon|res m' f' Hres Hp Hcon].
  - split; [eapply nonceLe_trans; [by apply le_charged|apply le_paidTo]|].
    intros Hh _ _. apply (present_here _ d) in Hh. fold s sh in Hh. destruct (Hv Hh) as [Hok _].
    eapply Z.lt_le_trans; [|apply le_paidTo]. rewrite Hh. simpl. unfold s. rewrite (Hused _ (ok_nonce _ _ _ Hok)). lia.
  - split; [by apply le_debit|]. intros _ _ Hnames. rewrite Hused by auto. lia.
  - pose proof (relayerPaid_step tx userTx m Hm) as Hs. assert (Hroom : room 1 (userFunded (A := A) (P := P) tx userTx m)).
    { intros a. unfold userFunded. rewrite nonceAt_credit. apply (room_step 1 m); [done|]. intros b. apply Hm. }
    assert (Hle : nonceLe (relayerPaid (A := A) (P := P) tx userTx m) m').
    { eapply nonceLe_trans; [|by eapply user_nonces]. apply step_same. intros b. apply nonceAt_credit. }
    split; [eapply nonceLe_trans; [|exact Hle]; intros a; apply Hs|]. intros Hh _ _. apply (present_here _ (txRcvAddr tx)) in Hh.
    eapply Z.lt_le_trans; [|apply Hle]. unfold relayerPaid. rewrite Hh, Hused by auto. lia.
  - pose proof (relayerPaid_step tx userTx m Hm) as Hs. split; [intros a; apply Hs|]. intros Hh _ _. apply (present_here _ (txRcvAddr tx)) in Hh.
    unfold relayerPaid. rewrite Hh, Hused by auto. lia.
  - split; [apply nonceLe_refl|]. intros Hh. apply (present_here _ (txRcvAddr tx)) in Hh. congruence.
  - split; [by eapply HC|]. intros _ Hn. congruence.
  - split; [eapply nonceLe_trans; [by apply le_charged|by eapply HC]|]. intros Hh _ _. apply (present_here _ d) in Hh. fold s sh in Hh.
    destruct (Hv Hh) as [Hok _]. eapply Z.lt_le_trans; [|by eapply HC]. rewrite Hh. simpl. unfold s. rewrite (Hused _ (ok_nonce _ _ _ Hok)). lia.
  - split; [by eapply HC|]. intros Hh. apply (present_here _ (txRcvAddr tx)) in Hh. congruence.
Qed.

(** A transaction whose nonce was used is refused, and changes nothing. *)
Lemma used_nonce_refused tx q : here (txSndAddr tx) = true -> knownTx (A := A) (P := P) tx -> hasUserNames tx = false ->
  txNonce tx < nonceAt (txSndAddr tx) (saved q) ->
  wp (A := A) (P := P) (ProcessTransaction (Some tx)) (fun _ _ => False)
    (fun ce q' => snd ce <> ErrFailedTransaction /\ saved q' = saved q /\ paid q' = paid q) q.
Proof.
  intros Hh (Hk1 & Hk2 & _) Hnames Hlt. unfold ProcessTransaction. apply xwp_bind, xwp_orCode, getAccounts_wp; [done|done| |done].
  intros acntSnd acntDst q1 (E1 & E2 & _) Hloc Hs _. assert (Hsnd : is_Some acntSnd) by by apply Hs, present_here. destruct Hsnd as [r ->].
  pose proof (located_snd _ _ _ _ _ Hloc r eq_refl) as Hr.
  apply xwp_bind, xwp_orCode, xwp_liftR; [|intros e He; split; [|done]; simpl; intros ->; by destruct (hash_plain _ _ He)]. intros h _.
  apply xwp_handle, checkTxValues_wp.
  - intros r' [[= <-]|Er]; eexists; [exact Hr|by apply (located_dst _ _ _ _ _ Hloc)].
  - intros Hok. exfalso. pose proof (ok_nonce _ _ _ (Hok r _ eq_refl Hr)) as Hn. unfold nonceAt in Hlt. rewrite E1 in Hn. lia.
  - intros e (_ & _ & He). specialize (He _ Hr). unfold nonceAt in Hlt. rewrite E1 in He.
    assert (Hex : isNonExecutableError e = true) by (destruct He as [?|[[_ ?]|?]]; [done|congruence|lia]).
    destruct e; try done; by apply xwp_throw.
Qed.

(** ** Runs of transactions *)

(** One transaction after the other, in any order and number; what one that is refused
    did has been taken back. *)
Inductive txRun : W -> W -> Prop :=
| run_refl w : txRun w w
| run_kept w w1 w2 tx r : txRun w w1 -> (forall m f, sees w1 m f -> noncesOk m) ->
    ours (A := A) (P := P) tx = true -> knownTx (A := A) (P := P) tx ->
    ProcessTransaction (Some tx) w1 = (w2, r) -> is_Some (resultOf r) -> txRun w w2
| run_same w w1 w2 : txRun w w1 -> (forall m f, sees w1 m f -> sees w2 m f) -> txRun w w2.

Lemma run_nonces w w' m f : contractsKeepNonces -> txRun w w' -> sees w m f -> exists m' f', sees w' m' f' /\ nonceLe m m'.
Proof.
  intros HC Hrun Hw. induction Hrun as [w|w w1 w2 tx r _ IH Hn Ho Hk E [res Hr]|w w1 w2 _ IH Hs].
  - exists m, f. split; [done|apply nonceLe_refl].
  - destruct (IH Hw) as (m1 & f1 & Hw1 & Hle). destruct (ProcessTransaction_outcome w1 m1 f1 tx w2 r res Hw1 Ho Hk E Hr) as (m2 & f2 & Hw2 & HO).
    exists m2, f2. split; [done|]. eapply nonceLe_trans; [exact Hle|]. eapply outcome_nonces; [done|by eapply Hn|done].
  - destruct (IH Hw) as (m1 & f1 & Hw1 & Hle). exists m1, f1. split; [by apply Hs|done].
Qed.

(** ** The theorems *)

(** C15: Whatever ProcessTransaction does, when the block keeps it, is one of the outcomes of the
    specification: a transfer, a charged failure, a relayed transaction, a call of a
    contract. *)
Theorem ProcessTransaction_refines w m f tx w' r res : sees w m f -> ours (A := A) (P := P) tx = true -> knownTx (A := A) (P := P) tx ->
  ProcessTransaction (Some tx) w = (w', r) -> resultOf r = Some res ->
  exists m' f', sees w' m' f' /\ outcome (A := A) (P := P) tx m f res m' f'.
Proof. apply ProcessTransaction_outcome. Qed.

(** C17: A transaction is executed once in the shard of its sender, if it names no users
    and is neither a call nor a deployment of a contract ([isContractType]): after it was
    executed, or failed and paid its fee, it is refused for ever, whatever transactions come
    in between, and the refusal changes neither the accounts nor the fees.  The contracts
    that run in between must not take nonces back ([contractsKeepNonces]), and no nonce is
    at the end of its 64 bits ([noncesOk]).  With a wrong user name it does not hold: see
    [wrong_name_charged_again]. *)
Theorem executed_once w m f tx w1 r w2 w3 r' : contractsKeepNonces -> sees w m f -> noncesOk m ->
  here (txSndAddr tx) = true -> knownTx (A := A) (P := P) tx -> hasUserNames tx = false -> isContractType (typeOf tx) = false ->
  ProcessTransaction (Some tx) w = (w1, r) -> is_Some (resultOf r) -> txRun w1 w2 ->
  ProcessTransaction (Some tx) w2 = (w3, r') ->
  (exists ce, r' = inl ce /\ snd ce <> ErrFailedTransaction) /\ exists m2 f2, sees w2 m2 f2 /\ sees w3 m2 f2.
Proof.
  intros HC Hw Hm Hh Hk Hnames Ht E [res Hr] Hrun E'. assert (Ho : ours (A := A) (P := P) tx = true) by (unfold ours; by rewrite Hh).
  destruct (ProcessTransaction_outcome w m f tx w1 r res Hw Ho Hk E Hr) as (m1 & f1 & Hw1 & HO).
  destruct (outcome_nonces tx m f res m1 f1 HC Hm HO) as [_ Hused]. specialize (Hused Hh Ht Hnames).
  destruct (run_nonces w1 w2 m1 f1 HC Hrun Hw1) as (m2 & f2 & [h Hw2] & Hle). specialize (Hle (txSndAddr tx)).
  pose proof (used_nonce_refused tx (mkA m2 h f2) Hh Hk Hnames) as HP. specialize (HP ltac:(simpl; lia) w2 Hw2). rewrite E' in HP.
  destruct r' as [ce|code]; destruct HP as (q' & Hw3 & HP); [|done]. destruct HP as (Hce & Em & Ef). simpl in Em, Ef.
  split; [by exists ce|]. exists m2, f2. split; [by exists h|]. exists (objs q'). by destruct q'; simpl in *; subst.
Qed.

Lemma fee_here tx : dstTypeOf tx = MoveBalance -> feeTaken (A := A) (P := P) tx true (dstTypeOf tx) false = ComputeMoveBalanceFee tx.
Proof. intros E. unfold feeTaken, paysTotalCost. rewrite E. simpl. by rewrite andb_false_r. Qed.

Lemma moved_outcome tx m f m' f' : typeOf tx = MoveBalance -> outcome (A := A) (P := P) tx m f (Some Ok) m' f' ->
  let snd := txSndAddr tx in let dst := txRcvAddr tx in
  let sndHere := present (A := A) (P := P) snd dst in let dstHere := present (A := A) (P := P) dst snd in
  let fee := feeTaken (A := A) (P := P) tx dstHere (dstTypeOf tx) false in
  (sndHere = true -> valuesOk (A := A) (P := P) tx false (dataAt snd m) /\ fee + txValue tx <= balanceAt snd m) /\
  recordFee tx (if sndHere then feeRecorded (A := A) (P := P) tx (dstTypeOf tx) false else 0) [] false f f' /\
  m' = paidTo dst (txValue tx) dstHere (chargedBy snd fee (txValue tx) sndHere m).
Proof.
  intros Ht HO. inversion HO as [f1 s d sh dh fee' Ht' Hv Hf Em Ef|f1 Hp Hb Hn Hf|userTx f1 code m1 f2 Hu|userTx f1 Hu|Hp|res m1 f1 Hc
    |m1 m2 f1 res Hres|res m1 f1 Hres]; subst; try done; try (unfold relayedUserTx in Hu; by rewrite Ht in Hu). by rewrite Ht in Hc.
Qed.

(** The outcome of a transfer that was executed in one shard. *)
Lemma moved_here tx m f m' f' : here (txSndAddr tx) = true -> here (txRcvAddr tx) = true ->
  ComputeTransactionType (A := A) (P := P) tx = (MoveBalance, MoveBalance) ->
  outcome (A := A) (P := P) tx m f (Some Ok) m' f' ->
  valuesOk (A := A) (P := P) tx false (dataAt (txSndAddr tx) m) /\ ComputeMoveBalanceFee tx + txValue tx <= balanceAt (txSndAddr tx) m /\
  recordFee tx (ComputeMoveBalanceFee tx) [] false f f' /\
  m' = credit (txRcvAddr tx) (txValue tx) (debit (txSndAddr tx) (ComputeMoveBalanceFee tx + txValue tx) m).
Proof.
  intros Hs Hd Ht HO. apply moved_outcome in HO; [|by rewrite Ht]. cbv zeta in HO.
  rewrite (present_here _ (txRcvAddr tx) Hs), (present_here _ (txSndAddr tx) Hd), fee_here in HO by by rewrite Ht.
  destruct HO as (Hv & Hf & ->). by destruct (Hv eq_refl).
Qed.

(** C16: A transfer in a shard takes the fee and the value from the sender, who can pay both and
    whose nonce is used, gives the value to the receiver, who may be the sender, and the
    fee to the block; no other account changes and no money is made or lost. *)
Theorem transfer_spec w m f tx w' : sees w m f -> here (txSndAddr tx) = true -> here (txRcvAddr tx) = true ->
  knownTx (A := A) (P := P) tx -> ComputeTransactionType (A := A) (P := P) tx = (MoveBalance, MoveBalance) ->
  ProcessTransaction (Some tx) w = (w', inr Ok) ->
  let snd := txSndAddr tx in let dst := txRcvAddr tx in let fee := ComputeMoveBalanceFee tx in
  exists m' f', sees w' m' f' /\ nonceAt snd m = txNonce tx /\ nonceAt snd m' = u64 (txNonce tx + 1) /\
    fee + txValue tx <= balanceAt snd m /\
    (snd <> dst -> balanceAt snd m' = balanceAt snd m - (fee + txValue tx) /\ balanceAt dst m' = balanceAt dst m + txValue tx) /\
    (snd = dst -> balanceAt snd m' = balanceAt snd m - fee) /\
    (forall a, a <> snd -> a <> dst -> m' !! a = m !! a) /\
    GetAccumulatedFees f' = GetAccumulatedFees f + fee /\ money m' f' = money m f.
Proof.
  intros Hw Hs Hd Hk Ht E snd dst fee. assert (Ho : ours (A := A) (P := P) tx = true) by (unfold ours; by rewrite Hs).
  destruct (ProcessTransaction_outcome w m f tx w' _ (Some Ok) Hw Ho Hk E eq_refl) as (m' & f' & Hw' & HO). exists m', f'. split; [done|].
  destruct (moved_here tx m f m' f' Hs Hd Ht HO) as (Hok & Hb & Hf & ->). fold snd dst fee in Hok, Hb, Hf |- *.
  pose proof (ok_nonce _ _ _ Hok) as Hn.
  split; [done|]. split; [rewrite nonceAt_credit, nonceAt_debit, decide_True by done; unfold nonceAt; by rewrite Hn|].
  split; [done|]. split; [|split; [|split; [|split]]].
  - intros Hne. unfold credit, debit. by rewrite balanceAt_put_ne, !balanceAt_put, balanceAt_put_ne.
  - intros <-. unfold credit, debit. rewrite !balanceAt_put. lia.
  - intros a Ha1 Ha2. unfold credit, debit, putMoney. by rewrite !lookup_insert_ne.
  - exact (accumulated_record _ _ _ _ _ _ Hf (moveFee_nonneg tx)).
  - unfold money. rewrite total_credit, total_debit, (accumulated_record _ _ _ _ _ _ Hf (moveFee_nonneg tx)). fold fee. lia.
Qed.

(** ** Relayed transactions *)

Lemma relayed_sender tx userTx : relayedUserTx (A := A) (P := P) tx = Some userTx -> txSndAddr userTx = txRcvAddr tx.
Proof.
  unfold relayedUserTx. destruct (typeOf tx); try done.
  - destruct (ParseCallData (txData tx)) as [|[fn [|arg [|]]]]; try done. destruct (UnmarshalTransaction arg) as [|u]; [done|].
    unfold relayedMismatch. destruct (beq (txSndAddr u) (txRcvAddr tx)) eqn:E; simpl; [|done].
    repeat case_match; try done. intros [= <-]. by apply beq_true in E.
  - destruct (ParseCallData (txData tx)) as [|[fn args]]; [done|]. destruct (_ =? _)%nat; [|done]. by intros [= <-].
Qed.

(** What a user transaction that is not executed adds to the money: its fee as it is recorded
    less its fee as it is paid, and the value that goes back to the relayer less the one
    that is taken from the user. *)
Definition feeGap (userTx : Transaction) : Z := failedUserTxFee (A := A) (P := P) userTx - computeInnerTxFee (A := A) (P := P) userTx.
Definition valueGap (tx userTx : Transaction) : Z :=
  txValue tx - (if FixRelayedMoveBalanceToNonPayableSCFlag flags then 0 else txValue userTx).

Definition userMoney (tx userTx : Transaction) (code : ReturnCode) (before after : Z) : Prop :=
  match code with
  | Ok => after = before
  | _ => exists notPaid : bool, after = before + feeGap userTx + (if notPaid then valueGap tx userTx else 0)
  end.

Lemma failedFee_nonneg userTx : here (txSndAddr userTx) = true -> 0 <= failedUserTxFee (A := A) (P := P) userTx.
Proof.
  intros Hh. unfold failedUserTxFee. unfold inShard in Hh. rewrite Hh. pose proof (moveFee_nonneg userTx).
  pose proof (processingFee_nonneg userTx (u64 (txGasLimit userTx - ComputeGasLimit userTx))).
  pose proof (processingFee_nonneg userTx (txGasLimit userTx)). destruct (FixRelayedBaseCostFlag _); lia.
Qed.

Lemma user_money tx userTx m f code m' f' : here (txSndAddr tx) = true -> here (txSndAddr userTx) = true -> here (txRcvAddr userTx) = true ->
  ComputeTransactionType (A := A) (P := P) userTx = (MoveBalance, MoveBalance) ->
  userOutcome (A := A) (P := P) tx userTx m f code m' f' -> userMoney tx userTx code (money m f) (money m' f').
Proof.
  intros Hr Hs Hd Ht HO. pose proof (inner_nonneg userTx) as Hinner. pose proof (failedFee_nonneg userTx Hs) as Hfail.
  assert (Erefund : forall mm, totalBalance (refund (A := A) (P := P) tx mm) = totalBalance mm + txValue tx).
  { intros mm. unfold refund. by rewrite Hr, total_credit. }
  assert (Efail : forall h, GetAccumulatedFees (failFee (A := A) (P := P) userTx h f) = GetAccumulatedFees f + failedUserTxFee (A := A) (P := P) userTx).
  { intros h. unfold failFee, ProcessTransactionFee, processTransactionFee. by destruct (Z.ltb_spec (failedUserTxFee userTx) 0); [lia|]. }
  destruct HO as [h f' u d fee Ht' Hok Hb Hf|e h u cost Hb|h u d fee Ht' Hok Hb|h o c code m' f' Hc|h o h' c m' f' Hc];
    [| | |by rewrite Ht in Hc..]; unfold userMoney, money.
  - unfold fee, u, d in *. rewrite (present_here _ _ Hd) in *. unfold paidTo. rewrite total_credit, total_debit.
    pose proof (accumulated_record _ _ _ _ _ _ Hf) as Ea. unfold feeRecorded, feeTaken in *. rewrite Ht in *. simpl in *.
    rewrite Ea by done. lia.
  - exists false. rewrite Erefund, Efail. unfold feeGap, cost, u.
    destruct (shouldIncreaseNonce e); rewrite ?total_debit, ?total_debitOnly; lia.
  - exists true. rewrite Erefund, Efail. unfold feeGap, valueGap, revertedTo, fee, feeTaken, u. simpl.
    destruct (FixRelayedMoveBalanceToNonPayableSCFlag _); rewrite ?total_credit, total_debit; lia.
Qed.

Lemma recorded_money tx userTx m f f' : here (txSndAddr tx) = true -> relayerRecorded (A := A) (P := P) tx userTx f f' ->
  money (userFunded (A := A) (P := P) tx userTx m) f' = money m f.
Proof.
  intros Hs. unfold relayerRecorded, userFunded, relayerPaid, money. rewrite (present_here _ _ Hs), total_credit, total_debit. intros Hf.
  rewrite (accumulated_record _ _ _ _ _ _ Hf (moveFee_nonneg tx)). unfold computeRelayedTxFees. simpl. lia.
Qed.

(** C29: The money of a shard through a relayed transfer, from relayer to user to receiver: when
    the transfer is executed, or the relayed transaction fails, no money is made or lost;
    when the user transaction fails, it changes by [feeGap] and, when the receiver was not
    payable, by [valueGap]. *)
Theorem relayed_accounting w m f tx w' r res : sees w m f -> here (txSndAddr tx) = true -> here (txRcvAddr tx) = true ->
  knownTx (A := A) (P := P) tx -> typeOf tx = RelayedTx \/ typeOf tx = RelayedTxV2 ->
  (forall userTx, relayedUserTx (A := A) (P := P) tx = Some userTx ->
     ComputeTransactionType (A := A) (P := P) userTx = (MoveBalance, MoveBalance) /\ here (txRcvAddr userTx) = true) ->
  ProcessTransaction (Some tx) w = (w', r) -> resultOf r = Some res ->
  exists m' f', sees w' m' f' /\
    match res with
    | None => money m' f' = money m f
    | Some code => exists userTx, relayedUserTx (A := A) (P := P) tx = Some userTx /\ userMoney tx userTx code (money m f) (money m' f')
    end.
Proof.
  intros Hw Hs Hd Hk Ht Huser E Hr. assert (Ho : ours (A := A) (P := P) tx = true) by (unfold ours; by rewrite Hs).
  destruct (ProcessTransaction_outcome w m f tx w' r res Hw Ho Hk E Hr) as (m' & f' & Hw' & HO). exists m', f'. split; [done|].
  pose proof (present_here _ (txRcvAddr tx) Hs) as Hps. pose proof (present_here _ (txSndAddr tx) Hd) as Hpd.
  assert (Hnot : typeOf tx <> MoveBalance /\ isContractType (typeOf tx) = false) by by destruct Ht as [-> | ->]. destruct Hnot as [Hn1 Hn2].
  destruct HO as [f' s d sh dh fee Ht' Hv Hf|f' Hp Hb Hn Hf|userTx f1 code m' f' Hu Hdd Hn Hf HU|userTx f' Hu Hdd Hn Hf|Hp|res m' f' Ht' Hcon
    |m1 m' f' res Hres Ht' s d sh fee Hv -> Hcon|res m' f' Hres Hp Hcon]; try congruence.
  - unfold money. rewrite total_debit, (accumulated_record _ _ _ _ _ _ Hf (fee_nonneg tx)). lia.
  - exists userTx. split; [done|]. destruct (Huser userTx Hu) as [Htu Hdu]. rewrite <- (recorded_money tx userTx m f f1 Hs Hf).
    by apply user_money; [|rewrite (relayed_sender tx)|..].
Qed.
End Theorems.

(** ** A transfer between two shards *)

Section Across.
Context {A1 P1 A2 P2 : Type} {AA1 : AccountsAdapter A1} {LL1 : LedgerLaws A1} {AA2 : AccountsAdapter A2} {LL2 : LedgerLaws A2}.
Context {CO : CoreLib} {FC : FeeComputer} {TS1 : TxSurroundings A1 P1} {TS2 : TxSurroundings A2 P2}.
Context {TL1 : TxLaws A1 P1} {CL1 : ContractLaws A1 P1} {TL2 : TxLaws A2 P2} {CL2 : ContractLaws A2 P2}.

(** C30: A transfer to another shard, executed in the shard of the sender and then in the one of
    the receiver, takes from the sender and gives to the receiver the same value, and the
    two shards together have the money they had; the fee stays where the sender is.
    MetaProtectionFlag is set in the shard of the sender: in the epochs before,
    a transfer with data to a contract of another shard pays for all its gas. *)
Theorem transfer_across_shards (w1 : World A1 P1) m1 f1 (w2 : World A2 P2) m2 f2 tx w1' w2' :
  sees w1 m1 f1 -> sees w2 m2 f2 ->
  inShard (A := A1) (P := P1) (txSndAddr tx) = true -> inShard (A := A1) (P := P1) (txRcvAddr tx) = false ->
  inShard (A := A2) (P := P2) (txSndAddr tx) = false -> inShard (A := A2) (P := P2) (txRcvAddr tx) = true ->
  knownTx (A := A1) (P := P1) tx -> knownTx (A := A2) (P := P2) tx ->
  ComputeTransactionType (A := A1) (P := P1) tx = (MoveBalance, MoveBalance) ->
  ComputeTransactionType (A := A2) (P := P2) tx = (MoveBalance, MoveBalance) ->
  MetaProtectionFlag (txFlags (A := A1) (P := P1)) = true ->
  ProcessTransaction (Some tx) w1 = (w1', inr Ok) -> ProcessTransaction (Some tx) w2 = (w2', inr Ok) ->
  let fee := ComputeMoveBalanceFee tx in
  exists m1' f1' m2' f2', sees w1' m1' f1' /\ sees w2' m2' f2' /\
    balanceAt (txSndAddr tx) m1' = balanceAt (txSndAddr tx) m1 - (fee + txValue tx) /\
    balanceAt (txRcvAddr tx) m2' = balanceAt (txRcvAddr tx) m2 + txValue tx /\
    GetAccumulatedFees f1' = GetAccumulatedFees f1 + fee /\ GetAccumulatedFees f2' = GetAccumulatedFees f2 /\
    money m1' f1' + money m2' f2' = money m1 f1 + money m2 f2.
Proof.
  intros Hw1 Hw2 Hs1 Hd1 Hs2 Hd2 Hk1 Hk2 Ht1 Ht2 Hmeta E1 E2 fee.
  assert (Ho1 : ours (A := A1) (P := P1) tx = true) by (unfold ours; by rewrite Hs1).
  assert (Ho2 : ours (A := A2) (P := P2) tx = true) by (unfold ours; by rewrite Hd2, orb_true_r).
  destruct (ProcessTransaction_outcome w1 m1 f1 tx w1' _ (Some Ok) Hw1 Ho1 Hk1 E1 eq_refl) as (m1' & f1' & Hw1' & HO1).
  destruct (ProcessTransaction_outcome w2 m2 f2 tx w2' _ (Some Ok) Hw2 Ho2 Hk2 E2 eq_refl) as (m2' & f2' & Hw2' & HO2).
  exists m1', f1', m2', f2'. split; [done|]. split; [done|].
  apply moved_outcome in HO1; [|by rewrite Ht1]. apply moved_outcome in HO2; [|by rewrite Ht2]. cbv zeta in HO1, HO2.
  rewrite (present_here _ (txRcvAddr tx) Hs1), (present_not _ _ Hd1 Hs1) in HO1.
  rewrite (present_here _ (txSndAddr tx) Hd2), (present_not _ _ Hs2 Hd2) in HO2.
  destruct HO1 as (_ & Hf1 & ->), HO2 as (_ & Hf2 & ->). unfold paidTo, chargedBy.
  assert (Efee : feeTaken (A := A1) (P := P1) tx false (snd (ComputeTransactionType (A := A1) (P := P1) tx)) false = fee).
  { unfold feeTaken, paysTotalCost. by rewrite Ht1, Hmeta. }
  rewrite Efee. pose proof (accumulated_record _ _ _ _ _ _ Hf1 (moveFee_nonneg (A := A1) (P := P1) tx)) as Ea1.
  pose proof (accumulated_record _ _ _ _ _ _ Hf2 (Z.le_refl 0)) as Ea2. unfold feeRecorded in Ea1. fold fee in Ea1.
  split; [unfold debit; by rewrite balanceAt_put|]. split; [unfold credit; by rewrite balanceAt_put|].
  split; [done|]. split; [lia|]. unfold money. rewrite total_credit, total_debit. lia.
Qed.
End Across.

(** The economics as the fees of a processor. *)
Lemma economics_checks {CO : CoreLib} {EE : EconomicsEnv} ed tx e : edCheckValidityTxValues ed (feeTx tx) = inl e -> isEconomicsErr e = true.
Proof. unfold edCheckValidityTxValues, CheckValidityTxValuesInEpoch. by repeat (case_match; [by intros [= <-]|]). Qed.

(** ** A shard of four accounts, over a database on a Patricia-Merkle trie *)

Module TxInstances.
Import TrieEx AccountsEx.
#[local] Existing Instance noneStored.

Definition carol : bytes := [3; 3].
Definition vault : bytes := [4; 4].
Definition txAddresses : gset bytes := {[ alice; bob; carol; vault ]}.

#[export] Instance exTxAddresses : AccountsLaws exE exKey txAddresses (fun _ => True).
Proof.
  split.
  - apply exDataLaws.
  - intros a Ha. assert (a = alice \/ a = bob \/ a = carol \/ a = vault) as [->|[->|[->| ->]]] by set_solver; split; try done; forall_bounds.
  - by vm_compute.
  - intros a c Ha _ E. assert (a = alice \/ a = bob \/ a = carol \/ a = vault) as [->|[->|[->| ->]]] by set_solver; done.
  - intros d _. exists (putAccountData d). split; [done|]. split; [done|]. apply account_back.
  - intros e _. exists (NumReferences e :: Code e). split; [done|]. split; [done|]. by destruct e.
Qed.

Abbreviation DB := (AccountsDB PMT).
#[export] Instance exAdapter : AccountsAdapter DB := dbAdapter exE exOrder.
#[export] Instance exLedger : LedgerLaws DB := dbLedgerLaws exE exKey txAddresses (fun _ => True) exOrder.

(** Two shards: carol is in the second one.  The vault does not take money. *)
Definition shardOf (a : bytes) : Z := if beq a carol then 1 else 0.

#[export] Instance exCore : CoreLib := {
  SafeMul := Z.mul;
  SafeSubUint64 a b := if a <? b then (0, Some (ErrOther [])) else (a - b, None);
  MetachainShardId := 2 ^ 32 - 1;
  MinMetaTxExtraGasCost := 1000000;
  BuiltInFunctionSetGuardian := str "SetGuardian";
  SignalErrorOperation := str "signalError";
  IsSmartContractAddress := beq vault;
  CodeMetadataGuarded _ := false;
  CalculateHash t := inr (match t with aTransaction tx => txNonce tx :: txSndAddr tx ++ txData tx | _ => [] end);
  IsGetNodeFromDBError _ := false;
  errorText _ := [];
}.

(** The fees of a configuration with small numbers. *)
#[export] Instance exCore_laws : EconomicsLaws (CO := exCore) (EE := EconomicsEx.exEnv).
Proof. split; [done| |done]. intros a b H. simpl. destruct (Z.ltb_spec a b); [lia|done]. Qed.

Definition exEconomics : economicsData := EconomicsEx.ofConfig (EconomicsEx.exEconomicsConfig (EconomicsEx.exFeeSettings "50" "1" "1" one)).
#[export] Instance exFees : FeeComputer := economicsFees (EE := EconomicsEx.exEnv) exEconomics.

(** A user transaction in the data of a relayed one. *)
Definition exUserTx (b : bytes) : txErr + Transaction :=
  match b with
  | [n; v; s; r; p; l] => inr (mkTransaction n v [r; r] [] [s; s] [] p l [] [] 1 0 [])
  | _ => inl (ErrOther [])
  end.

Abbreviation exPools := (list (forwarder * list TransactionHandler)).

Definition allFlags : enableFlags := mkFlags true true true true true true true true true.

Definition exShard (self : Z) : TxSurroundings DB exPools := {|
  txFlags := allFlags;
  SelfId := self;
  ComputeId := shardOf;
  ComputeTransactionType tx := if decide (txData tx = []) then (MoveBalance, MoveBalance) else (RelayedTx, RelayedTx);
  ParseCallData d := inr (str "relayedTx", [d]);
  UnmarshalTransaction := exUserTx;
  IsGuardedTransaction _ := false;
  GetActiveGuardian _ := throw (ErrOther []);
  HasPendingGuardian _ w := (w, false);
  AddIntermediateTransactions fw l _ := modify (fun p => p ++ [(fw, l)]);
  SaveLog _ _ _ := ret tt;
  ExecuteSmartContractTransaction _ _ _ := ret Ok;
  ExecuteBuiltInFunction _ _ _ := ret Ok;
  DeploySmartContract _ _ := ret Ok;
  ProcessIfError _ _ _ _ _ _ _ := ret tt;
  IsPayable _ b := ret (negb (beq b vault));
  CheckBuiltinFunctionIsExecutable _ _ := ret tt;
|}.

Lemma exShard_laws self : TxLaws (TS := exShard self) DB exPools.
Proof.
  split; try done.
  - intros r q. by apply xwp_throw.
  - intros a b q. by apply xwp_ret.
  - intros f tx q. by apply xwp_ret.
  - intros tx e. apply economics_checks.
  - intros a b e. simpl. case_match; [by intros [= <-]|done].
  - apply economics_txFee.
  - apply economics_moveFee.
  - apply economics_processingFee.
Qed.

Definition exContracts self : ContractLaws (TS := exShard self) DB exPools.
Proof.
  refine {| contract m f m' f' := m' = m /\ f' = f |}; intros; by apply xwp_ret.
Defined.

Lemma ex_keep self : contractsKeepNonces (CL := exContracts self).
Proof. intros m f m' f' [-> _]. apply nonceLe_refl. Qed.

(** *** The accounts at the beginning *)

Lemma ex_empty : ledger exAdb ∅ ∅.
Proof.
  exists (createAccountsDb ∅). split; [split; try done; intros l; simpl; rewrite !lookup_empty; constructor|].
  split; [split; apply map_Forall_empty|]. split; [|by split].
  exists ∅. split; [|by intros h _]. split; [|split; apply map_Forall_empty].
  simpl. unfold mainMap. by rewrite !fmap_empty, (left_id_L ∅ (∪)).
Qed.

(** An account gets money. *)
Definition fund (a : bytes) (v : Z) (s : DB) : DB :=
  match aaLoadAccount a s with
  | (s1, inr r) =>
      match aaAccount r s1 with
      | (s2, inr acc) => fst (aaSaveAccount r (fst (aaPutAccount r (onFields (withBalance v) acc) s2)))
      | (s2, inl _) => s2
      end
  | (s1, inl _) => s1
  end.

Lemma fund_ledger a v s m : ledger s m ∅ -> known a -> ledger (fund a v s) (<[a := withBalance v (dataAt a m)]> m) ∅.
Proof.
  intros Hl Ha. destruct (ledger_load s m ∅ a Hl Ha) as (s1 & r & E1 & _ & Hl1). unfold fund. rewrite E1. cbv iota beta.
  destruct (ledger_account _ _ _ r _ Hl1 (lookup_insert_eq _ _ _)) as (acc & E2 & _). rewrite E2. cbv iota beta.
  destruct (ledger_put _ _ _ r _ acc (withBalance v) Hl1 (lookup_insert_eq _ _ _) E2 (change_balance v)) as (s2 & E3 & Hl2). rewrite E3. cbn [fst].
  destruct (ledger_save _ _ _ r _ Hl2 (lookup_insert_eq _ _ _)) as (s3 & E4 & Hl3). rewrite E4. cbn [fst].
  assert (EA : Address (withBalance v (dataAt a m)) = a).
  { apply dataAt_address. intros b d. apply (ledger_address _ _ _ _ _ Hl). }
  rewrite EA in Hl3. eapply ledger_forget; [exact Hl3|]. apply map_empty_subseteq.
Qed.

Definition exDB : DB := fund bob 1000 (fund alice 1000000 exAdb).
Definition exAccounts : gmap bytes UserAccountData :=
  let m := <[alice := withBalance 1000000 (dataAt alice ∅)]> ∅ in <[bob := withBalance 1000 (dataAt bob m)]> m.
Definition exWorld : World DB exPools := mkWorld exDB NewFeeAccumulator [].

Lemma ex_known a : a ∈ [alice; bob; carol; vault] -> known a.
Proof. intros Ha. change (a ∈ txAddresses). unfold txAddresses. set_solver. Qed.

Lemma exWorld_sees : sees exWorld exAccounts NewFeeAccumulator.
Proof.
  exists ∅. split; [|done]. apply fund_ledger; [apply fund_ledger; [apply ex_empty|]|]; apply ex_known; set_solver.
Qed.
(** What the database has of an account. *)
Definition look (a : bytes) (w : World DB exPools) : option UserAccountData :=
  match aaLoadAccount a (accts w) with
  | (s, inr r) => match aaAccount r s with (_, inr acc) => Some (accountData acc) | _ => None end
  | _ => None
  end.

Lemma look_data w m f a d : sees w m f -> a ∈ [alice; bob; carol; vault] -> look a w = Some d -> dataAt a m = d.
Proof.
  intros (h & Hl & _) Ha%ex_known. destruct (ledger_load _ _ _ a Hl Ha) as (s1 & r & E1 & _ & Hl1).
  destruct (ledger_account _ _ _ r _ Hl1 (lookup_insert_eq _ _ _)) as (acc & E2 & E3). unfold look. rewrite E1. cbv beta iota.
  rewrite E2. cbv beta iota. rewrite E3. by intros [= <-].
Qed.

Definition noncesSmall (w : World DB exPools) : bool :=
  forallb (fun a => match look a w with Some d => (0 <=? Nonce d) && (Nonce d <? 2 ^ 63) | None => false end) [alice; bob; carol; vault].

Lemma ex_nonces w m f : noncesSmall w = true -> sees w m f -> noncesOk m.
Proof.
  intros Hn Hw a. destruct (decide (a ∈ [alice; bob; carol; vault])) as [Ha|Ha].
  - unfold noncesSmall in Hn. rewrite forallb_forall in Hn. specialize (Hn a). rewrite <- list_elem_of_In in Hn. specialize (Hn Ha).
    destruct (look a w) as [d|] eqn:E; [|done]. unfold nonceAt. rewrite (look_data w m f a d Hw Ha E). lia.
  - destruct Hw as (h & (g & _ & _ & (codes & (_ & HA & _) & _) & _) & _).
    assert (E : m !! a = None).
    { destruct (m !! a) as [d|] eqn:E; [|done]. exfalso. apply Ha. destruct (HA a d E) as [Ha' _]. revert Ha'. unfold txAddresses. set_solver. }
    unfold nonceAt, dataAt. rewrite E. simpl. lia.
Qed.

(** *** Transactions *)

Abbreviation exRun tx w := (ProcessTransaction (TS := exShard 0) (Some tx) w).

Lemma ran {S E X} (m : SE S E X) s r : snd (m s) = r -> m s = (fst (m s), r).
Proof. intros <-. by destruct (m s). Qed.

Definition pay (nonce value : Z) (to : bytes) : Transaction := mkTransaction nonce value to [] alice [] 1 60 [] [] 1 0 [].

(** Alice relays a transaction of bob, of the gas limit [l], to the address [r; r]. *)
Definition relay (nonce value r l : Z) : Transaction :=
  mkTransaction 0 value bob [] alice [] 1 (56 + l) [nonce; value; 2; r; 1; l] [] 1 0 [].

Lemma ex_knownTx tx : txSndAddr tx ∈ [alice; bob; carol; vault] -> txRcvAddr tx ∈ [alice; bob; carol; vault] ->
  (forall userTx, relayedUserTx (TS := exShard 0) (A := DB) (P := exPools) tx = Some userTx -> txRcvAddr userTx ∈ [alice; bob; carol; vault]) ->
  knownTx (TS := exShard 0) (A := DB) (P := exPools) tx.
Proof. intros H1 H2 H3. split; [by apply ex_known|]. split; [by apply ex_known|]. intros u Hu. by apply ex_known, H3. Qed.

Lemma pay_known n v to : to ∈ [alice; bob; carol; vault] -> knownTx (TS := exShard 0) (A := DB) (P := exPools) (pay n v to).
Proof. intros Ht. apply ex_knownTx; [simpl; set_solver|done|by intros u]. Qed.

Lemma transfer_spec_witness : exists m' f', sees (fst (exRun (pay 0 100 bob) exWorld)) m' f' /\
  balanceAt alice m' = 999850 /\ balanceAt bob m' = 1100 /\ GetAccumulatedFees f' = 50 /\ money m' f' = 1001000.
Proof.
  destruct (transfer_spec (TS := exShard 0) (TL := exShard_laws 0) (CL := exContracts 0) exWorld exAccounts NewFeeAccumulator (pay 0 100 bob)
    (fst (exRun (pay 0 100 bob) exWorld)) exWorld_sees eq_refl eq_refl (pay_known 0 100 bob ltac:(set_solver)) eq_refl
    (ran _ _ _ ltac:(vm_compute; reflexivity))) as (m' & f' & Hw & _ & _ & _ & Hb & _ & _ & Hf & Hm).
  exists m', f'. split; [done|]. destruct (Hb ltac:(done)) as [Ha Hb']. rewrite Hm, Hf. simpl txSndAddr in Ha. simpl txRcvAddr in Hb'.
  rewrite Ha, Hb'. split_and!; by vm_compute.
Defined.

Lemma ex_ran tx w r : snd (exRun tx w) = r -> exRun tx w = (fst (exRun tx w), r).
Proof. apply ran. Qed.

Lemma relay_user n v r l userTx : relayedUserTx (TS := exShard 0) (A := DB) (P := exPools) (relay n v r l) = Some userTx ->
  userTx = mkTransaction n v [r; r] [] [2; 2] [] 1 l [] [] 1 0 [].
Proof. unfold relayedUserTx. simpl. by case_match; [|intros [= <-]]. Qed.

Lemma relay_known n v r l : [r; r] ∈ [alice; bob; carol; vault] -> knownTx (TS := exShard 0) (A := DB) (P := exPools) (relay n v r l).
Proof. intros Hr. apply ex_knownTx; [simpl; set_solver..|]. by intros u ->%relay_user. Qed.

Lemma ProcessTransaction_refines_witness : exists m' f', sees (fst (exRun (relay 0 10 1 60) exWorld)) m' f' /\
  outcome (TS := exShard 0) (CL := exContracts 0) (relay 0 10 1 60) exAccounts NewFeeAccumulator (Some Ok) m' f'.
Proof.
  exact (ProcessTransaction_refines (TS := exShard 0) (TL := exShard_laws 0) (CL := exContracts 0) exWorld exAccounts NewFeeAccumulator
    (relay 0 10 1 60) _ _ (Some Ok) exWorld_sees eq_refl (relay_known 0 10 1 60 ltac:(set_solver))
    (ex_ran (relay 0 10 1 60) exWorld (inr Ok) ltac:(vm_compute; reflexivity)) eq_refl).
Defined.

Definition afterPay : World DB exPools := fst (exRun (pay 0 100 bob) exWorld).
Definition afterPays : World DB exPools := fst (exRun (pay 1 50 carol) afterPay).

Lemma ex_run_pays : txRun (TS := exShard 0) afterPay afterPays.
Proof.
  eapply (run_kept (TS := exShard 0) afterPay afterPay afterPays (pay 1 50 carol) (inr Ok)); [apply run_refl| | | |apply (ex_ran (pay 1 50 carol) afterPay (inr Ok)); vm_compute; reflexivity|by eexists].
  - intros m f. apply ex_nonces. by vm_compute.
  - done.
  - apply pay_known. set_solver.
Qed.

Lemma ex_first : exRun (pay 0 100 bob) exWorld = (afterPay, inr Ok).
Proof. apply ex_ran. by vm_compute. Qed.
Lemma ex_again : exRun (pay 0 100 bob) afterPays = (fst (exRun (pay 0 100 bob) afterPays), inl (UserError, ErrLowerNonceInTransaction)).
Proof. apply ex_ran. by vm_compute. Qed.
Lemma ex_start : noncesOk exAccounts.
Proof. eapply ex_nonces; [|apply exWorld_sees]. by vm_compute. Qed.

(** Alice's first transfer is refused after her second one. *)
Lemma executed_once_witness : exists m f, sees afterPays m f /\ sees (fst (exRun (pay 0 100 bob) afterPays)) m f.
Proof.
  destruct (executed_once (TS := exShard 0) (TL := exShard_laws 0) (CL := exContracts 0) exWorld exAccounts NewFeeAccumulator
    (pay 0 100 bob) afterPay (inr Ok) afterPays _ _ (ex_keep 0) exWorld_sees ex_start eq_refl (pay_known 0 100 bob ltac:(set_solver)) eq_refl
    eq_refl ex_first (mk_is_Some _ _ eq_refl) ex_run_pays ex_again) as [_ H].
  exact H.
Defined.

Lemma ex_user userTx : relayedUserTx (TS := exShard 0) (A := DB) (P := exPools) (relay 7 10 1 60) = Some userTx ->
  ComputeTransactionType (TxSurroundings := exShard 0) userTx = (MoveBalance, MoveBalance) /\ inShard (TS := exShard 0) (txRcvAddr userTx) = true.
Proof. by intros ->%relay_user. Qed.

(** Alice relays a transaction of bob that has a wrong nonce. *)
Lemma relayed_accounting_witness : exists m' f', sees (fst (exRun (relay 7 10 1 60) exWorld)) m' f' /\
  exists userTx, relayedUserTx (TS := exShard 0) (relay 7 10 1 60) = Some userTx /\
    userMoney (TS := exShard 0) (A := DB) (P := exPools) (relay 7 10 1 60) userTx UserError (money exAccounts NewFeeAccumulator) (money m' f').
Proof.
  apply (relayed_accounting (TS := exShard 0) (TL := exShard_laws 0) (CL := exContracts 0) exWorld exAccounts NewFeeAccumulator
    (relay 7 10 1 60) _ (inr UserError) (Some UserError) exWorld_sees eq_refl eq_refl (relay_known 7 10 1 60 ltac:(set_solver)) ltac:(by left)
    ex_user (ex_ran (relay 7 10 1 60) exWorld (inr UserError) ltac:(vm_compute; reflexivity)) eq_refl).
Defined.

(** A transfer of alice to carol, who is in the other shard. *)
Definition carolPaid : World DB exPools := fst (ProcessTransaction (TS := exShard 1) (Some (pay 0 100 carol)) exWorld).

Lemma transfer_across_shards_witness : exists m1 f1 m2 f2, sees (fst (exRun (pay 0 100 carol) exWorld)) m1 f1 /\ sees carolPaid m2 f2 /\
  balanceAt alice m1 = 999850 /\ balanceAt carol m2 = 100 /\ money m1 f1 + money m2 f2 = 2002000.
Proof.
  destruct (transfer_across_shards (TS1 := exShard 0) (TS2 := exShard 1) (TL1 := exShard_laws 0) (TL2 := exShard_laws 1)
    (CL1 := exContracts 0) (CL2 := exContracts 1) exWorld exAccounts NewFeeAccumulator exWorld exAccounts NewFeeAccumulator (pay 0 100 carol)
    (fst (exRun (pay 0 100 carol) exWorld)) carolPaid exWorld_sees exWorld_sees eq_refl eq_refl eq_refl eq_refl
    (pay_known 0 100 carol ltac:(set_solver)) (pay_known 0 100 carol ltac:(set_solver)) eq_refl eq_refl eq_refl
    (ran _ _ _ ltac:(vm_compute; reflexivity)) (ran _ _ _ ltac:(vm_compute; reflexivity)))
    as (m1 & f1 & m2 & f2 & Hw1 & Hw2 & Ha & Hc & _ & _ & Hm).
  exists m1, f1, m2, f2. split; [done|]. split; [done|]. rewrite Hm. simpl txSndAddr in Ha. simpl txRcvAddr in Hc. rewrite Ha, Hc.
  split_and!; by vm_compute.
Defined.

(** ** What the examples show *)

Definition worldMoney (w : World DB exPools) : Z :=
  foldr (fun a s => match look a w with Some d => Balance d | None => 0 end + s) (GetAccumulatedFees (fees w)) [alice; bob; carol; vault].

(** A relayed transaction whose user transaction has a wrong nonce makes money: the fee that is
    recorded has a part for the execution that nobody paid. *)
Theorem failed_user_tx_makes_money :
  exists w, exRun (relay 7 10 1 60) exWorld = (w, inr UserError) /\ worldMoney w = worldMoney exWorld + 10.
Proof. exists (fst (exRun (relay 7 10 1 60) exWorld)). split; [apply ran; by vm_compute|by vm_compute]. Qed.

(** A relayed transfer to an account that is not payable makes money: both the user and the
    relayer get the value back. *)
Theorem not_payable_pays_twice :
  exists w, exRun (relay 0 10 4 60) exWorld = (w, inr UserError) /\ worldMoney w = worldMoney exWorld + 20 /\
    option_map Balance (look bob w) = Some 1010.
Proof. exists (fst (exRun (relay 0 10 4 60) exWorld)). split; [apply ran; by vm_compute|split; by vm_compute]. Qed.

(** One transaction with a wrong user name is charged each time it is processed: the name is
    tested before the nonce. *)
Theorem wrong_name_charged_again :
  let tx := mkTransaction 0 100 bob [] alice [9] 1 60 [] [] 1 0 [] in
  exists w1 w2, exRun tx exWorld = (w1, inl (UserError, ErrFailedTransaction)) /\ exRun tx w1 = (w2, inl (UserError, ErrFailedTransaction)) /\
    option_map Balance (look alice w1) = Some 999940 /\ option_map Balance (look alice w2) = Some 999880.
Proof.
  intros tx. exists (fst (exRun tx exWorld)), (fst (exRun tx (fst (exRun tx exWorld)))). split_and!; try apply ran; by vm_compute.
Qed.
End TxInstances.
