(* ===== verification/ForkDetector.v ===== *)
(** * The fork detector: process/sync/baseForkDetector.go, shardForkDetector.go and
    metaForkDetector.go.

    The detector keeps, for each nonce, what the node knows of the headers with that nonce
    (received, processed by the node itself, notarized by the metachain), and the
    checkpoints of the blocks the node has processed.  [CheckFork] compares the processed
    header of a nonce with the others.  A [detectorEnv] is what one call sees of the
    outside: the round, the sweep of the black list, and the order in which Go walks the
    map of headers. *)

From stdpp Require Import base list gmap.
From Stdlib Require Import ZArith Lia.
From S2P Require Import Prelude HeaderHandler.

(** ** Data *)

Inductive BlockHeaderState := BHReceived | BHReceivedTooLate | BHProcessed | BHProposed | BHNotarized.

#[export] Instance BlockHeaderState_dec : EqDecision BlockHeaderState.
Proof. solve_decision. Defined.

Record headerInfo := mkHeaderInfo {
  hiEpoch : Z;
  hiNonce : Z;
  hiRound : Z;
  hiHash : slice;
  hiState : BlockHeaderState;
}.

#[export] Instance headerInfo_dec : EqDecision headerInfo.
Proof. solve_decision. Defined.

Record checkpointInfo := mkCheckpointInfo {
  cpNonce : Z;
  cpRound : Z;
  cpHash : slice;
}.

(** What the detector keeps of the fork choice. *)
Record forkInfo := mkforkInfo {
  fkCheckpoint : list checkpointInfo;
  fkFinalCheckpoint : checkpointInfo;
  fkProbableHighestNonce : Z;
  fkHighestNonceReceived : Z;
  fkRollBackNonce : Z;
  fkLastRoundWithForcedFork : Z;
}.

(** What [CheckFork] tells the synchronization: process.ForkInfo. *)
Record ForkInfo := mkForkInfo {
  IsDetected : bool;
  fiNonce : Z;
  fiRound : Z;
  fiHash : slice;
}.

Definition NewForkInfo : ForkInfo := mkForkInfo false MaxUint64 MaxUint64 None.

Inductive forkErr :=
| ErrNilHeader | ErrNilHash | ErrHeaderIsBlackListed | ErrGenesisTimeMissmatch
| ErrLowerRoundInBlock | ErrLowerNonceInBlock | ErrHigherRoundInBlock | ErrHigherNonceInBlock
| PanicIndexOutOfRange.

Definition BlockFinality : Z := 1.
Definition NonceDifferenceWhenSynced : Z := 0.
Definition RoundModulusTrigger : Z := 5.
Definition MaxRoundsWithoutCommittedBlock : Z := 10.
Definition MinForkRound : Z := 0.
Definition MetachainShardId : Z := MaxUint32.

(** The bytes of a slice; of none for nil. *)
Abbreviation raw s := (default [] s).

(** The hash, the round and the epoch of the header the node should be on. *)
Abbreviation forkChoice := (slice * Z * Z)%type.

(** [bytes.Compare] *)
Fixpoint bytesCompare (a b : bytes) : comparison :=
  match a, b with
  | [], [] => Eq
  | [], _ => Lt
  | _, [] => Gt
  | x :: a, y :: b => match x ?= y with Eq => bytesCompare a b | c => c end
  end.
Definition bytesLess (a b : bytes) : bool := match bytesCompare a b with Lt => true | _ => false end.

(** What the detector uses of a header beyond [HeaderHandler]. *)
Class TimedHeader (H : Type) := GetTimeStamp : H -> Z.

(** The black list of headers, a cache whose entries expire: process.TimeCacher. *)
Class TimeCacher (B : Type) := {
  Has : B -> bytes -> bool;
  Add : B -> bytes -> option B;
}.

Section Detector.
Context {H B : Type} `{HeaderHandler H} `{TimedHeader H} `{TimeCacher B}.

Record baseForkDetector := mkDetector {
  headers : gmap Z (list headerInfo);
  fork : forkInfo;
  blackListHandler : B;
  genesisTime : Z;
  genesisNonce : Z;
  genesisRound : Z;
  genesisEpoch : Z;
  maxForkHeaderEpoch : Z;
}.

Record detectorEnv := mkDetectorEnv {
  Index : Z;
  TimeDurationSeconds : Z;
  Sweep : B -> B;
  mapRange : gmap Z (list headerInfo) -> list (Z * list headerInfo);
}.

(** A range over a map visits each of its entries once. *)
Definition rangesAll (env : detectorEnv) : Prop := forall m, mapRange env m ≡ₚ map_to_list m.

Abbreviation bfd := baseForkDetector.
Implicit Types (d : bfd) (f : forkInfo) (env : detectorEnv).

(** ** Fields *)

Definition setHeaders (v : gmap Z (list headerInfo)) d : bfd :=
  mkDetector v (fork d) (blackListHandler d) (genesisTime d) (genesisNonce d) (genesisRound d) (genesisEpoch d) (maxForkHeaderEpoch d).
Definition onFork (g : forkInfo -> forkInfo) d : bfd :=
  mkDetector (headers d) (g (fork d)) (blackListHandler d) (genesisTime d) (genesisNonce d) (genesisRound d) (genesisEpoch d) (maxForkHeaderEpoch d).
Definition setBlackList (v : B) d : bfd :=
  mkDetector (headers d) (fork d) v (genesisTime d) (genesisNonce d) (genesisRound d) (genesisEpoch d) (maxForkHeaderEpoch d).
Definition setMaxForkHeaderEpoch (v : Z) d : bfd :=
  mkDetector (headers d) (fork d) (blackListHandler d) (genesisTime d) (genesisNonce d) (genesisRound d) (genesisEpoch d) v.

Definition withCheckpoint v f := mkforkInfo v (fkFinalCheckpoint f) (fkProbableHighestNonce f) (fkHighestNonceReceived f) (fkRollBackNonce f) (fkLastRoundWithForcedFork f).
Definition withFinal v f := mkforkInfo (fkCheckpoint f) v (fkProbableHighestNonce f) (fkHighestNonceReceived f) (fkRollBackNonce f) (fkLastRoundWithForcedFork f).
Definition withProbable v f := mkforkInfo (fkCheckpoint f) (fkFinalCheckpoint f) v (fkHighestNonceReceived f) (fkRollBackNonce f) (fkLastRoundWithForcedFork f).
Definition withHighest v f := mkforkInfo (fkCheckpoint f) (fkFinalCheckpoint f) (fkProbableHighestNonce f) v (fkRollBackNonce f) (fkLastRoundWithForcedFork f).
Definition withRollBack v f := mkforkInfo (fkCheckpoint f) (fkFinalCheckpoint f) (fkProbableHighestNonce f) (fkHighestNonceReceived f) v (fkLastRoundWithForcedFork f).
Definition withForcedRound v f := mkforkInfo (fkCheckpoint f) (fkFinalCheckpoint f) (fkProbableHighestNonce f) (fkHighestNonceReceived f) (fkRollBackNonce f) v.

Definition SetRollBackNonce (nonce : Z) d : bfd := onFork (withRollBack nonce) d.
Definition getRollBackNonce d : Z := fkRollBackNonce (fork d).
Definition setLastRoundWithForcedFork (round : Z) d : bfd := onFork (withForcedRound round) d.
Definition lastRoundWithForcedFork d : Z := fkLastRoundWithForcedFork (fork d).
Definition setFinalCheckpoint (c : checkpointInfo) d : bfd := onFork (withFinal c) d.
Definition finalCheckpoint d : checkpointInfo := fkFinalCheckpoint (fork d).
Definition setProbableHighestNonce (nonce : Z) d : bfd := onFork (withProbable nonce) d.
Definition probableHighestNonce d : Z := fkProbableHighestNonce (fork d).
Definition highestNonceReceived d : Z := fkHighestNonceReceived (fork d).
Definition setHighestNonceReceived (nonce : Z) d : bfd :=
  if nonce <=? highestNonceReceived d then d else onFork (withHighest nonce) d.

Definition GetHighestFinalBlockNonce d : Z := cpNonce (finalCheckpoint d).
Definition GetHighestFinalBlockHash d : slice := cpHash (finalCheckpoint d).
Definition ProbableHighestNonce d : Z := probableHighestNonce d.

Definition genesisCheckpoint d : checkpointInfo := mkCheckpointInfo (genesisNonce d) (genesisRound d) None.

Definition addCheckpoint (c : checkpointInfo) d : bfd :=
  onFork (fun f => withCheckpoint (fkCheckpoint f ++ [c]) f) d.
Definition lastCheckpoint d : checkpointInfo := default (genesisCheckpoint d) (last (fkCheckpoint (fork d))).
Definition SetFinalToLastCheckpoint d : bfd := setFinalCheckpoint (lastCheckpoint d) d.

Definition RestoreToGenesis d : bfd :=
  onFork (fun f => withHighest (genesisNonce d) (withProbable (genesisNonce d)
    (withFinal (genesisCheckpoint d) (withCheckpoint [genesisCheckpoint d] f)))) (setHeaders ∅ d).

(** ** Removals *)

Definition headersAt d (nonce : Z) : list headerInfo := default [] (headers d !! nonce).

(** [if len(l) == 0 \{ delete(m, n) \} else \{ m[n] = l \}] *)
Definition putOrDelete (m : gmap Z (list headerInfo)) (n : Z) (l : list headerInfo) : gmap Z (list headerInfo) :=
  match l with [] => delete n m | _ => <[n := l]> m end.

Definition removePastHeaders env d : bfd :=
  let finalCheckpointNonce := cpNonce (finalCheckpoint d) in
  setHeaders (foldl (fun m '(nonce, _) => if nonce <? finalCheckpointNonce then delete nonce m else m)
                    (headers d) (mapRange env (headers d))) d.

Definition isReceivedHeaderInvalid (final : checkpointInfo) (h : headerInfo) : bool :=
  let roundDif := i64 (i64 (hiRound h) - i64 (cpRound final)) in
  let nonceDif := i64 (i64 (hiNonce h) - i64 (cpNonce final)) in
  let hasStateReceived := bool_decide (hiState h = BHReceived) || bool_decide (hiState h = BHReceivedTooLate) in
  hasStateReceived && (roundDif <? nonceDif).

Definition removeInvalidReceivedHeaders env d : bfd :=
  let final := finalCheckpoint d in
  setHeaders (foldl (fun m '(nonce, hdrInfos) =>
                       putOrDelete m nonce (filter (fun h => isReceivedHeaderInvalid final h = false) hdrInfos))
                    (headers d) (mapRange env (headers d))) d.

Definition removeCheckpointsBehindNonce (nonce : Z) d : bfd :=
  onFork (fun f => withCheckpoint (filter (fun c => (cpNonce c <? nonce) = false) (fkCheckpoint f)) f) d.
Definition removePastCheckpoints d : bfd := removeCheckpointsBehindNonce (cpNonce (finalCheckpoint d)) d.

Definition removePastOrInvalidRecords env d : bfd :=
  removePastCheckpoints (removeInvalidReceivedHeaders env (removePastHeaders env d)).

Definition removeCheckpointWithNonce (nonce : Z) d : bfd :=
  onFork (fun f => withCheckpoint (filter (fun c => (cpNonce c =? nonce) = false) (fkCheckpoint f)) f) d.

Definition computeProbableHighestNonce env d : Z :=
  foldl (fun probable '(nonce, _) => if nonce <=? probable then probable else nonce)
        (cpNonce (finalCheckpoint d)) (mapRange env (headers d)).

Definition cleanupReceivedHeadersHigherThanNonce env (nonce : Z) d : bfd :=
  setHeaders (foldl (fun m '(hdrsNonce, hdrsInfo) =>
                       if hdrsNonce <=? nonce then m
                       else putOrDelete m hdrsNonce (filter (fun h => hiState h = BHNotarized) hdrsInfo))
                    (headers d) (mapRange env (headers d))) d.

Definition ResetProbableHighestNonce env d : bfd :=
  let d := cleanupReceivedHeadersHigherThanNonce env (cpNonce (lastCheckpoint d)) d in
  setProbableHighestNonce (computeProbableHighestNonce env d) d.

Definition ResetFork env d : bfd := setLastRoundWithForcedFork (Index env) (ResetProbableHighestNonce env d).

(** ** The choice between headers *)

Definition getMaxEpochFromHdrsInfo (hdrInfos : list headerInfo) : Z :=
  foldl (fun maxEpoch h => if maxEpoch <? hiEpoch h then hiEpoch h else maxEpoch) 0 hdrInfos.

Definition computeForkInfo d (hdrInfo : headerInfo) (lst : forkChoice) : forkChoice :=
  let '(lastForkHash, lastForkRound, lastForkEpoch) := lst in
  if bool_decide (hiState hdrInfo = BHReceivedTooLate) && (hiNonce hdrInfo <? highestNonceReceived d) then lst
  else if negb (bool_decide (hiState hdrInfo = BHNotarized)) && (hiEpoch hdrInfo <? maxForkHeaderEpoch d) then lst
  else
    let currentForkRound := if bool_decide (hiState hdrInfo = BHNotarized) then MinForkRound else hiRound hdrInfo in
    if currentForkRound <? lastForkRound then (hiHash hdrInfo, currentForkRound, hiEpoch hdrInfo)
    else if (currentForkRound =? lastForkRound) && bytesLess (raw (hiHash hdrInfo)) (raw lastForkHash)
    then (hiHash hdrInfo, currentForkRound, hiEpoch hdrInfo)
    else lst.

Definition shouldSignalFork d (headerInfo : headerInfo) (lst : forkChoice) : bool :=
  let '(lastForkHash, lastForkRound, lastForkEpoch) := lst in
  if beq (raw (hiHash headerInfo)) (raw lastForkHash) then false
  else if negb (lastForkRound =? MinForkRound) && (lastForkEpoch <? hiEpoch headerInfo) then false
  else if negb (lastForkRound =? MinForkRound) && (hiEpoch headerInfo <? lastForkEpoch) then true
  else
    let higherHashForSameRound :=
      (hiRound headerInfo =? lastForkRound) && bytesLess (raw lastForkHash) (raw (hiHash headerInfo)) in
    let higherNonceReceived := hiNonce headerInfo <? highestNonceReceived d in
    (lastForkRound <? hiRound headerInfo) || (higherHashForSameRound && negb higherNonceReceived).

(** The inner loop of [CheckFork]: the processed header and the best of the others. *)
Definition forkStep d (acc : option headerInfo * forkChoice) (h : headerInfo) : option headerInfo * forkChoice :=
  if bool_decide (hiState h = BHProcessed) then (Some h, acc.2) else (acc.1, computeForkInfo d h acc.2).
Definition forkLoop d (hdrsInfo : list headerInfo) : option headerInfo * forkChoice :=
  foldl (forkStep d) (None, (None, MaxUint64, 0)) hdrsInfo.

(** One turn of the outer loop. *)
Definition checkNonce (finalCheckpointNonce : Z) (acc : bfd * ForkInfo) (entry : Z * list headerInfo) : bfd * ForkInfo :=
  let '(d, info) := acc in
  let '(nonce, hdrsInfo) := entry in
  if Z.of_nat (length hdrsInfo) =? 1 then acc
  else if nonce <=? finalCheckpointNonce then acc
  else
    let d := setMaxForkHeaderEpoch (getMaxEpochFromHdrsInfo hdrsInfo) d in
    let '(selfHdrInfo, (forkHeaderHash, forkHeaderRound, forkHeaderEpoch)) := forkLoop d hdrsInfo in
    match selfHdrInfo with
    | None => (d, info)
    | Some self =>
        if shouldSignalFork d self (forkHeaderHash, forkHeaderRound, forkHeaderEpoch) then
          (d, if nonce <? fiNonce info then mkForkInfo true nonce forkHeaderRound forkHeaderHash
              else mkForkInfo true (fiNonce info) (fiRound info) (fiHash info))
        else (d, info)
    end.

Definition IsInProperRound (index : Z) : bool := Z.rem index RoundModulusTrigger =? 0.

Definition isSyncing d : bool :=
  let noncesDifference := i64 (i64 (ProbableHighestNonce d) - i64 (cpNonce (lastCheckpoint d))) in
  NonceDifferenceWhenSynced <? noncesDifference.

Definition isConsensusStuck env d : bool :=
  if lastRoundWithForcedFork d =? Index env then false
  else if isSyncing d then false
  else
    let roundsDifference := i64 (Index env - i64 (cpRound (lastCheckpoint d))) in
    if roundsDifference <=? MaxRoundsWithoutCommittedBlock then false
    else IsInProperRound (Index env).

Definition CheckFork env d : bfd * ForkInfo :=
  if isConsensusStuck env d then (d, mkForkInfo true MaxUint64 MaxUint64 None)
  else
    let rollBackNonce := getRollBackNonce d in
    if rollBackNonce <? MaxUint64 then
      (SetRollBackNonce MaxUint64 d, mkForkInfo true rollBackNonce MaxUint64 None)
    else foldl (checkNonce (cpNonce (finalCheckpoint d))) (d, NewForkInfo) (mapRange env (headers d)).

Definition GetNotarizedHeaderHash d (nonce : Z) : slice :=
  match list_find (fun h => hiState h = BHNotarized) (headersAt d nonce) with
  | Some (_, h) => hiHash h
  | None => None
  end.

(** ** Adding headers *)

(** process.AddHeaderToBlackList: an error of the list is only logged. *)
Definition AddHeaderToBlackList env (hash : slice) d : bfd :=
  let b := Sweep env (blackListHandler d) in
  setBlackList (default b (Add b (raw hash))) d.

Definition computeGenesisTimeFromHeader env d (header : H) : Z :=
  i64 (u64 (GetTimeStamp header - u64 (u64 (GetRound header - genesisRound d) * TimeDurationSeconds env))).

Definition checkBlockBasicValidity env (header : option H) (headerHash : slice) : SE bfd forkErr unit := fun d =>
  match header, headerHash with
  | None, _ => (d, inl ErrNilHeader)
  | _, None => (d, inl ErrNilHash)
  | Some header, Some _ =>
      let roundDif := i64 (i64 (GetRound header) - i64 (cpRound (finalCheckpoint d))) in
      let nonceDif := i64 (i64 (GetNonce header) - i64 (cpNonce (finalCheckpoint d))) in
      let nextRound := i64 (Index env + 1) in
      let genesisTimeFromHeader := computeGenesisTimeFromHeader env d header in
      let d := setBlackList (Sweep env (blackListHandler d)) d in
      if Has (blackListHandler d) (raw (GetPrevHash header)) then
        (AddHeaderToBlackList env headerHash d, inl ErrHeaderIsBlackListed)
      else if negb (genesisTimeFromHeader =? genesisTime d) then
        (AddHeaderToBlackList env headerHash d, inl ErrGenesisTimeMissmatch)
      else if roundDif <? 0 then (d, inl ErrLowerRoundInBlock)
      else if nonceDif <? 0 then (d, inl ErrLowerNonceInBlock)
      else if nextRound <? i64 (GetRound header) then (d, inl ErrHigherRoundInBlock)
      else if roundDif <? nonceDif then (d, inl ErrHigherNonceInBlock)
      else (d, inr tt)
  end.

Definition isHeaderReceivedTooLate env (header : H) (state : BlockHeaderState) (finality : Z) : bool :=
  if bool_decide (state = BHProcessed) then false
  else i64 (GetRound header) <? i64 (Index env - finality).

(** A header is stored once with the same hash and the same state. *)
Definition isStored (hdrInfo stored : headerInfo) : bool :=
  beq (raw (hiHash stored)) (raw (hiHash hdrInfo)) && bool_decide (hiState stored = hiState hdrInfo).

Definition append (hdrInfo : headerInfo) d : bfd * bool :=
  let hdrInfos := headersAt d (hiNonce hdrInfo) in
  if existsb (isStored hdrInfo) hdrInfos then (d, false)
  else (setHeaders (<[hiNonce hdrInfo := hdrInfos ++ [hdrInfo]]> (headers d)) d, true).

(** The interface between the common part and the part that is of the shards or of the
    metachain; the second operation is the argument each AddHeader passes to addHeader. *)
Class forkDetector := {
  computeFinalCheckpoint : detectorEnv -> bfd -> bfd;
  doJobOnBHProcessed : detectorEnv -> H -> slice -> list H -> list slice -> SE bfd forkErr unit;
}.

Section Common.
Context {FD : forkDetector}.

Definition RemoveHeader env (nonce : Z) (hash : slice) d : bfd :=
  let finalCheckpointNonce := cpNonce (finalCheckpoint d) in
  if nonce <=? finalCheckpointNonce then d
  else
    let d := removeCheckpointWithNonce nonce d in
    let preserved := filter (fun h => (negb (bool_decide (hiState h = BHNotarized)) && beq (raw hash) (raw (hiHash h))) = false)
                            (headersAt d nonce) in
    let d := setHeaders (putOrDelete (headers d) nonce preserved) d in
    let d := computeFinalCheckpoint env d in
    setProbableHighestNonce (computeProbableHighestNonce env d) d.

Definition processReceivedBlock env (header : H) (headerHash : slice) (state : BlockHeaderState)
    (selfNotarizedHeaders : list H) (selfNotarizedHeadersHashes : list slice) : SE bfd forkErr unit := fun d =>
  let d := setHighestNonceReceived (GetNonce header) d in
  if bool_decide (state = BHProposed) then (d, inr tt)
  else
    let state := if isHeaderReceivedTooLate env header state BlockFinality then BHReceivedTooLate else state in
    let '(d, appended) := append (mkHeaderInfo (GetEpoch header) (GetNonce header) (GetRound header) headerHash state) d in
    if negb appended then (d, inr tt)
    else
      ((if bool_decide (state = BHProcessed)
        then doJobOnBHProcessed env header headerHash selfNotarizedHeaders selfNotarizedHeadersHashes
        else ret tt) ;;
       modify (fun d => setProbableHighestNonce (computeProbableHighestNonce env d) d)) d.

Definition addHeader env (header : option H) (headerHash : slice) (state : BlockHeaderState)
    (selfNotarizedHeaders : list H) (selfNotarizedHeadersHashes : list slice) : SE bfd forkErr unit :=
  checkBlockBasicValidity env header headerHash ;;
  match header with
  | Some header => processReceivedBlock env header headerHash state selfNotarizedHeaders selfNotarizedHeadersHashes
  | None => ret tt
  end.
End Common.

(** ** The detector of a shard *)

(** The loop of appendSelfNotarizedHeaders; a hash that is missing is a panic. *)
Fixpoint appendSelfLoop (finalNonce : Z) (hs : list H) (hashes : list slice) (added : bool) : SE bfd forkErr bool :=
  match hs, hashes with
  | [], _ => ret added
  | h :: hs, hashes =>
      if GetNonce h <=? finalNonce then appendSelfLoop finalNonce hs (tail hashes) added
      else match hashes with
           | [] => throw PanicIndexOutOfRange
           | hash :: hashes => fun d =>
               let '(d, appended) := append (mkHeaderInfo 0 (GetNonce h) (GetRound h) hash BHNotarized) d in
               appendSelfLoop finalNonce hs hashes (added || appended) d
           end
  end.

Definition appendSelfNotarizedHeaders (hs : list H) (hashes : list slice) : SE bfd forkErr bool := fun d =>
  appendSelfLoop (cpNonce (finalCheckpoint d)) hs hashes false d.

(** The last header of each of the two states; -1 of the code is [None]. *)
Definition getProcessedAndNotarizedIndexes (l : list headerInfo) : option headerInfo * option headerInfo :=
  foldl (fun acc h => match hiState h with
                      | BHProcessed => (Some h, acc.2)
                      | BHNotarized => (acc.1, Some h)
                      | _ => acc
                      end) (None, None) l.

(** One turn of the loop of computeFinalCheckpoint; the candidate is [None] until it is set. *)
Definition finalStep (acc : option checkpointInfo) (entry : Z * list headerInfo) : option checkpointInfo :=
  let '(nonce, headersInfo) := entry in
  if nonce <=? match acc with Some c => cpNonce c | None => 0 end then acc
  else match getProcessedAndNotarizedIndexes headersInfo with
       | (Some processed, Some notarized) =>
           if beq (raw (hiHash notarized)) (raw (hiHash processed))
           then Some (mkCheckpointInfo nonce (hiRound notarized) (hiHash notarized)) else acc
       | _ => acc
       end.

Definition shardFinalCheckpoint env d : bfd :=
  match foldl finalStep None (mapRange env (headers d)) with
  | Some c => setFinalCheckpoint c d
  | None => d
  end.

Definition shardJob env (header : H) (headerHash : slice) (hs : list H) (hashes : list slice) : SE bfd forkErr unit :=
  appendSelfNotarizedHeaders hs hashes ;;
  modify (shardFinalCheckpoint env) ;;
  modify (addCheckpoint (mkCheckpointInfo (GetNonce header) (GetRound header) headerHash)) ;;
  modify (removePastOrInvalidRecords env).

Definition shardForkDetector : forkDetector := {|
  computeFinalCheckpoint := shardFinalCheckpoint;
  doJobOnBHProcessed := shardJob;
|}.

Definition ReceivedSelfNotarizedFromCrossHeaders env (shardID : Z) (hs : list H) (hashes : list slice) : SE bfd forkErr unit :=
  if negb (shardID =? MetachainShardId) then ret tt
  else let! appended := appendSelfNotarizedHeaders hs hashes in
       if appended then modify (shardFinalCheckpoint env) else ret tt.

(** ** The detector of the metachain *)

Definition metaJob env (header : H) (headerHash : slice) (_ : list H) (_ : list slice) : SE bfd forkErr unit :=
  modify (fun d => setFinalCheckpoint (lastCheckpoint d) d) ;;
  modify (addCheckpoint (mkCheckpointInfo (GetNonce header) (GetRound header) headerHash)) ;;
  modify (removePastOrInvalidRecords env).

Definition metaForkDetector : forkDetector := {|
  computeFinalCheckpoint := fun _ d => d;
  doJobOnBHProcessed := metaJob;
|}.

(** NewShardForkDetector and NewMetaForkDetector, from the genesis header the block
    tracker gives. *)
Definition NewForkDetector (genesisHdr : H) (blackList : B) (time : Z) : bfd :=
  let c := mkCheckpointInfo (GetNonce genesisHdr) (GetRound genesisHdr) None in
  mkDetector ∅ (mkforkInfo [c] c (GetNonce genesisHdr) (GetNonce genesisHdr) MaxUint64 0)
    blackList time (GetNonce genesisHdr) (GetRound genesisHdr) (GetEpoch genesisHdr) 0.

End Detector.

Arguments baseForkDetector : clear implicits.
Arguments detectorEnv : clear implicits.
Arguments forkDetector : clear implicits.
#[global] Arguments shouldSignalFork : simpl never.
#[global] Arguments computeForkInfo : simpl never.
#[global] Arguments checkNonce : simpl never.
