(* ===== verification/ForkChoice.v ===== *)
(** * The choice between the headers of a nonce: what the loops of [CheckFork] compute,
    whatever the order of the map, and which header is preferred. *)

From stdpp Require Import base list gmap.
From Stdlib Require Import ZArith Lia.
From S2P Require Import Prelude HeaderHandler ForkDetector.

(** ** The order of byte slices *)

Lemma bytesCompare_refl a : bytesCompare a a = Eq.
Proof. induction a as [|x a IH]; simpl; [done|]. by rewrite Z.compare_refl. Qed.

Lemma bytesCompare_eq a b : bytesCompare a b = Eq -> a = b.
Proof.
  revert b. induction a as [|x a IH]; intros [|y b]; simpl; try done.
  destruct (Z.compare_spec x y); intros E; try done. subst. by rewrite (IH b).
Qed.

Lemma bytesCompare_opp a b : bytesCompare b a = CompOpp (bytesCompare a b).
Proof.
  revert b. induction a as [|x a IH]; intros [|y b]; simpl; try done.
  rewrite (Z.compare_antisym x y). destruct (x ?= y); simpl; auto.
Qed.

Lemma bytesCompare_trans a b c :
  bytesCompare a b = Lt -> bytesCompare b c = Lt -> bytesCompare a c = Lt.
Proof.
  revert b c. induction a as [|x a IH]; intros [|y b] [|z c]; simpl; try done.
  destruct (Z.compare_spec x y) as [E1|L1|L1]; try done;
    destruct (Z.compare_spec y z) as [E2|L2|L2]; try done;
    destruct (Z.compare_spec x z); try done; try lia; eauto.
Qed.

Lemma bytesLess_irrefl a : bytesLess a a = false.
Proof. unfold bytesLess. by rewrite bytesCompare_refl. Qed.

Lemma bytesLess_trans a b c : bytesLess a b = true -> bytesLess b c = true -> bytesLess a c = true.
Proof.
  unfold bytesLess. destruct (bytesCompare a b) eqn:E1; try done.
  destruct (bytesCompare b c) eqn:E2; try done. by rewrite (bytesCompare_trans _ _ _ E1 E2).
Qed.

Lemma bytesLess_total a b : bytesLess a b = false -> bytesLess b a = false -> a = b.
Proof.
  unfold bytesLess. rewrite (bytesCompare_opp a b). intros H1 H2. apply bytesCompare_eq.
  by destruct (bytesCompare a b).
Qed.

Lemma bytesLess_asym a b : bytesLess a b = true -> bytesLess b a = false.
Proof.
  intros H. destruct (bytesLess b a) eqn:E; [|done].
  pose proof (bytesLess_trans _ _ _ H E) as X. by rewrite bytesLess_irrefl in X.
Qed.

(** ** The preference between headers

    A notarized header counts as one of round 0. *)
Definition forkRound (h : headerInfo) : Z := if bool_decide (hiState h = BHNotarized) then MinForkRound else hiRound h.
Definition asChoice (h : headerInfo) : forkChoice := (hiHash h, forkRound h, hiEpoch h).

Definition choiceLess (c c' : forkChoice) : bool :=
  (c.1.2 <? c'.1.2) || ((c.1.2 =? c'.1.2) && bytesLess (raw c.1.1) (raw c'.1.1)).

Lemma choiceLess_prop c c' : choiceLess c c' = true <->
  c.1.2 < c'.1.2 \/ (c.1.2 = c'.1.2 /\ bytesLess (raw c.1.1) (raw c'.1.1) = true).
Proof. unfold choiceLess. rewrite orb_true_iff, andb_true_iff, Z.ltb_lt, Z.eqb_eq. done. Qed.

Lemma choiceLess_neg c c' : choiceLess c c' = false <->
  c'.1.2 < c.1.2 \/ (c.1.2 = c'.1.2 /\ bytesLess (raw c.1.1) (raw c'.1.1) = false).
Proof.
  rewrite <- not_true_iff_false, choiceLess_prop.
  destruct (Z.lt_trichotomy c.1.2 c'.1.2) as [|[E|]]; [intuition lia| |intuition lia].
  rewrite E. destruct (bytesLess _ _); intuition (try done; lia).
Qed.

Lemma choiceLess_irrefl c : choiceLess c c = false.
Proof. apply choiceLess_neg. right. by rewrite bytesLess_irrefl. Qed.

Lemma choiceLess_trans a b c : choiceLess a b = true -> choiceLess b c = true -> choiceLess a c = true.
Proof.
  rewrite !choiceLess_prop. intros [H1|[H1 H2]] [H3|[H3 H4]]; [left; lia..|right].
  split; [lia|]. by eapply bytesLess_trans.
Qed.

Lemma choiceLess_le_trans a b c : choiceLess a b = false -> choiceLess b c = false -> choiceLess a c = false.
Proof.
  rewrite !choiceLess_neg. intros [H1|[H1 H2]] [H3|[H3 H4]]; try (left; lia). right. split; [lia|].
  destruct (bytesLess (raw a.1.1) (raw c.1.1)) eqn:E; [|done].
  destruct (bytesLess (raw c.1.1) (raw b.1.1)) eqn:E2.
  - by rewrite (bytesLess_trans _ _ _ E E2) in H2.
  - by rewrite <- (bytesLess_total _ _ E2 H4), E in H2.
Qed.

(** Two that are not ordered have the same round and hash. *)
Lemma choiceLess_antisym a b : choiceLess a b = false -> choiceLess b a = false ->
  a.1.2 = b.1.2 /\ raw a.1.1 = raw b.1.1.
Proof.
  rewrite !choiceLess_neg. intros [H1|[H1 H2]] [H3|[H3 H4]]; try lia. split; [lia|]. by apply bytesLess_total.
Qed.

Definition noChoice : forkChoice := (None, MaxUint64, 0).
Definition choose (acc c : forkChoice) : forkChoice := if choiceLess c acc then c else acc.

(** The least of a list of choices. *)
Lemma choose_spec l a :
  let r := foldl choose a l in (r = a \/ r ∈ l) /\ forall c, c = a \/ c ∈ l -> choiceLess c r = false.
Proof.
  revert a. induction l as [|x l IH]; intros a; simpl.
  { split; [by left|]. intros c [->|Hc%elem_of_nil]; [apply choiceLess_irrefl|done]. }
  destruct (IH (choose a x)) as [H1 H2]. simpl in H1, H2. split.
  - destruct H1 as [H1|H1]; [|right; by right]. rewrite H1. unfold choose.
    destruct (choiceLess x a); [right; left|by left].
  - assert (Hx : choiceLess x (choose a x) = false /\ choiceLess a (choose a x) = false).
    { unfold choose. destruct (choiceLess x a) eqn:E; split; auto using choiceLess_irrefl.
      destruct (choiceLess a x) eqn:E'; [|done].
      pose proof (choiceLess_trans _ _ _ E E') as X. by rewrite choiceLess_irrefl in X. }
    pose proof (H2 _ (or_introl eq_refl)) as Hr. destruct Hx as [Hx Ha].
    intros c [->|[->|Hc]%elem_of_cons]; eauto using choiceLess_le_trans.
Qed.

Section Choice.
Context {B : Type} `{TimeCacher B}.
Implicit Types (d : baseForkDetector B) (l : list headerInfo).

(** The headers that take part in the choice of [CheckFork]. *)
Definition live d (h : headerInfo) : bool :=
  negb (bool_decide (hiState h = BHReceivedTooLate) && (hiNonce h <? highestNonceReceived d)) &&
  (bool_decide (hiState h = BHNotarized) || (maxForkHeaderEpoch d <=? hiEpoch h)).

Definition isProcessed (h : headerInfo) : bool := bool_decide (hiState h = BHProcessed).

Lemma computeForkInfo_choose d h c :
  computeForkInfo d h c = if live d h then choose c (asChoice h) else c.
Proof.
  destruct c as [[ch cr] ce]. unfold computeForkInfo, live, choose, choiceLess, asChoice, forkRound. simpl.
  destruct (bool_decide (hiState h = BHReceivedTooLate) && _); simpl; [done|].
  rewrite Z.ltb_antisym. destruct (bool_decide (hiState h = BHNotarized)); simpl.
  - by destruct (_ <? _); simpl; [|destruct (_ && _)].
  - destruct (_ <=? _); simpl; [|done]. by destruct (_ <? _); simpl; [|destruct (_ && _)].
Qed.

Definition candidates d l : list forkChoice :=
  asChoice <$> filter (fun h => negb (isProcessed h) && live d h = true) l.

Lemma forkStep_processed d acc h : isProcessed h = true -> forkStep d acc h = (Some h, acc.2).
Proof. unfold forkStep, isProcessed. by intros ->. Qed.

Lemma forkStep_other d acc h : isProcessed h = false -> forkStep d acc h = (acc.1, computeForkInfo d h acc.2).
Proof. unfold forkStep, isProcessed. by intros ->. Qed.

Lemma forkLoop_spec d l :
  forkLoop d l = (last (filter (fun h => isProcessed h = true) l), foldl choose noChoice (candidates d l)).
Proof.
  induction l as [|h l IH] using rev_ind; [done|]. unfold forkLoop, candidates in *.
  rewrite foldl_snoc, IH, !filter_app, fmap_app, foldl_app.
  destruct (isProcessed h) eqn:E.
  - rewrite forkStep_processed by done. simpl.
    rewrite (filter_cons_True _ h) by done. rewrite (filter_cons_False _ h) by (rewrite E; simpl; done).
    by rewrite !filter_nil, last_snoc.
  - rewrite forkStep_other by done. simpl. rewrite computeForkInfo_choose.
    rewrite (filter_cons_False _ h) by (rewrite E; done). rewrite !filter_nil, app_nil_r.
    destruct (live d h) eqn:E2.
    + by rewrite filter_cons_True by (by rewrite E, E2).
    + by rewrite filter_cons_False by (rewrite E, E2; done).
Qed.

(** ** What [CheckFork] finds at a nonce *)

Definition atNonce d l : baseForkDetector B := setMaxForkHeaderEpoch (getMaxEpochFromHdrsInfo l) d.

(** The round and the hash of the header to change to, if there is one. *)
Definition forkIn d l : option (Z * slice) :=
  match forkLoop (atNonce d l) l with
  | (Some self, c) => if shouldSignalFork d self c then Some (c.1.2, c.1.1) else None
  | _ => None
  end.

Definition forkAt d (nonce : Z) : option (Z * slice) :=
  match headers d !! nonce with
  | Some l => if (Z.of_nat (length l) =? 1) || (nonce <=? cpNonce (finalCheckpoint d)) then None else forkIn d l
  | None => None
  end.

Lemma checkNonce_spec d m info n l : 
  checkNonce (cpNonce (finalCheckpoint d)) (setMaxForkHeaderEpoch m d, info) (n, l) =
  (setMaxForkHeaderEpoch (if (Z.of_nat (length l) =? 1) || (n <=? cpNonce (finalCheckpoint d)) then m
     else getMaxEpochFromHdrsInfo l) d,
   match (if (Z.of_nat (length l) =? 1) || (n <=? cpNonce (finalCheckpoint d)) then None else forkIn d l) with
   | Some (r, h) => if n <? fiNonce info then mkForkInfo true n r h
                    else mkForkInfo true (fiNonce info) (fiRound info) (fiHash info)
   | None => info
   end).
Proof.
  unfold checkNonce, forkIn. destruct (_ =? 1); simpl; [done|]. destruct (_ <=? _); simpl; [done|].
  fold (atNonce d l).
  change (setMaxForkHeaderEpoch (getMaxEpochFromHdrsInfo l) (setMaxForkHeaderEpoch m d)) with (atNonce d l).
  destruct (forkLoop (atNonce d l) l) as [[self|] [[h r] e]]; [|done].
  change (shouldSignalFork (atNonce d l) self (h, r, e)) with (shouldSignalFork d self (h, r, e)).
  by destruct (shouldSignalFork d self (h, r, e)).
Qed.

(** The result of the loop over a list of entries: the fork with the least nonce. *)
Definition leastFork d (entries : list (Z * list headerInfo)) (info : ForkInfo) : Prop :=
  (info = NewForkInfo /\ forall n l, (n, l) ∈ entries -> forkAt d n = None) \/
  exists n r h, info = mkForkInfo true n r h /\ forkAt d n = Some (r, h) /\ n ∈ entries.*1 /\
    forall n' l', (n', l') ∈ entries -> forkAt d n' <> None -> n <= n'.

Lemma forkAt_entry d n l : headers d !! n = Some l ->
  forkAt d n = if (Z.of_nat (length l) =? 1) || (n <=? cpNonce (finalCheckpoint d)) then None else forkIn d l.
Proof. intros E. unfold forkAt. by rewrite E. Qed.

Lemma checkLoop_spec d entries :
  (forall n l, (n, l) ∈ entries -> headers d !! n = Some l /\ n < MaxUint64) ->
  exists m, (foldl (checkNonce (cpNonce (finalCheckpoint d))) (d, NewForkInfo) entries).1 = setMaxForkHeaderEpoch m d /\
    leastFork d entries (foldl (checkNonce (cpNonce (finalCheckpoint d))) (d, NewForkInfo) entries).2.
Proof.
  induction entries as [|[n l] entries IH] using rev_ind; intros Hin.
  { exists (maxForkHeaderEpoch d). split; [by destruct d|]. left. split; [done|]. by intros ? ? ?%elem_of_nil. }
  destruct IH as (m & E & IH); [intros n' l' H'; apply Hin, elem_of_app; by left|].
  destruct (Hin n l) as [Hl Hn]; [apply elem_of_app; right; by left|].
  rewrite foldl_snoc. destruct (foldl _ _ _) as [d' info]. simpl in E, IH. subst d'.
  rewrite checkNonce_spec, <- (forkAt_entry d n l Hl). eexists. split; [done|]. simpl.
  destruct IH as [[-> IH]|(n0 & r0 & h0 & -> & F0 & In0 & IH)].
  - destruct (forkAt d n) as [[r h]|] eqn:F.
    + right. exists n, r, h. simpl. rewrite (proj2 (Z.ltb_lt _ _) Hn). split; [done|]. split; [done|].
      split; [set_solver|]. intros n' l' [H'|H']%elem_of_app; [by rewrite (IH _ _ H')|].
      apply list_elem_of_singleton in H'. injection H' as -> ->. lia.
    + left. split; [done|]. intros n' l' [H'|H']%elem_of_app; [eauto|].
      apply list_elem_of_singleton in H'. by injection H' as -> ->.
  - simpl. right. destruct (forkAt d n) as [[r h]|] eqn:F.
    + destruct (Z.ltb_spec n n0).
      * exists n, r, h. split; [done|]. split; [done|]. split; [set_solver|].
        intros n' l' [H'|H']%elem_of_app Hf; [pose proof (IH _ _ H' Hf); lia|].
        apply list_elem_of_singleton in H'. injection H' as -> ->. lia.
      * exists n0, r0, h0. split; [done|]. split; [done|]. split; [set_solver|].
        intros n' l' [H'|H']%elem_of_app Hf; [eauto|].
        apply list_elem_of_singleton in H'. by injection H' as -> ->.
    + exists n0, r0, h0. split; [done|]. split; [done|]. split; [set_solver|].
      intros n' l' [H'|H']%elem_of_app Hf; [eauto|].
      apply list_elem_of_singleton in H'. by injection H' as -> ->.
Qed.

(** ** The choice at a nonce, from the headers that are there *)

Lemma maxEpoch_from a l :
  let r := foldl (fun maxEpoch h => if maxEpoch <? hiEpoch h then hiEpoch h else maxEpoch) a l in
  a <= r /\ (forall h, h ∈ l -> hiEpoch h <= r) /\ (r = a \/ exists h, h ∈ l /\ r = hiEpoch h).
Proof.
  revert a. induction l as [|x l IH]; intros a; simpl.
  { split; [lia|]. split; [by intros ? ?%elem_of_nil|by left]. }
  destruct (IH (if a <? hiEpoch x then hiEpoch x else a)) as (H1 & H2 & H3).
  destruct (Z.ltb_spec a (hiEpoch x)) as [L|L].
  - split; [lia|]. split; [intros h [->|Hh]%elem_of_cons; [lia|auto]|]. right.
    destruct H3 as [H3|(h & Hh & H3)]; [exists x|exists h]; (split; [set_solver|done]).
  - split; [lia|]. split; [intros h [->|Hh]%elem_of_cons; [lia|auto]|].
    destruct H3 as [H3|(h & Hh & H3)]; [by left|]. right. exists h. split; [set_solver|done].
Qed.

Lemma maxEpoch_ge l h : h ∈ l -> hiEpoch h <= getMaxEpochFromHdrsInfo l.
Proof. apply (maxEpoch_from 0 l). Qed.

Lemma maxEpoch_least l e : 0 <= e -> (forall h, h ∈ l -> hiEpoch h <= e) -> getMaxEpochFromHdrsInfo l <= e.
Proof. intros H0 Hl. destruct (maxEpoch_from 0 l) as (_ & _ & [E|(h & Hh & E)]); unfold getMaxEpochFromHdrsInfo; rewrite E; auto. Qed.

Lemma elem_of_candidates d l c : c ∈ candidates d l <->
  exists h, h ∈ l /\ isProcessed h = false /\ live d h = true /\ c = asChoice h.
Proof.
  unfold candidates. rewrite list_elem_of_fmap. split.
  - intros (h & -> & [Hh Hin]%list_elem_of_filter). apply andb_true_iff in Hh as [Hp Hl]. apply negb_true_iff in Hp. eauto.
  - intros (h & Hin & Hp & Hl & ->). exists h. split; [done|]. apply list_elem_of_filter. by rewrite Hp, Hl.
Qed.

(** The header that was processed last: the only one, when there is only one. *)
Lemma last_processed l x : x ∈ l -> isProcessed x = true ->
  (forall h, h ∈ l -> isProcessed h = true -> h = x) ->
  last (filter (fun h => isProcessed h = true) l) = Some x.
Proof.
  intros Hx Hp Hu. destruct (last _) as [y|] eqn:E.
  - apply last_Some_elem_of, list_elem_of_filter in E as [Ey Hy]. by rewrite (Hu y).
  - apply last_None in E. assert (Hf : x ∈ filter (fun h => isProcessed h = true) l) by (by apply list_elem_of_filter).
    rewrite E in Hf. by apply elem_of_nil in Hf.
Qed.

(** The choice is the least of the candidates, if one is before the end of time. *)
Lemma chosen_least d l w : w ∈ l -> isProcessed w = false -> live d w = true -> forkRound w < MaxUint64 ->
  exists h, h ∈ l /\ isProcessed h = false /\ live d h = true /\
    foldl choose noChoice (candidates d l) = asChoice h /\
    forall g, g ∈ l -> isProcessed g = false -> live d g = true -> choiceLess (asChoice g) (asChoice h) = false.
Proof.
  intros Hw Hp Hl Hr. destruct (choose_spec (candidates d l) noChoice) as [[E|E] Hle].
  - pose proof (Hle (asChoice w)) as X. rewrite E in X. exfalso. revert X. rewrite choiceLess_neg. simpl.
    intros [X|[X _]]; [right; apply elem_of_candidates; eauto|lia|lia].
  - apply elem_of_candidates in E as (h & Hh & Hph & Hlh & E). exists h. repeat (split; [done|]).
    intros g Hg Hpg Hlg. rewrite <- E. apply Hle. right. apply elem_of_candidates. eauto.
Qed.
End Choice.

(** ** Which header the nodes go to *)

Section Agree.
Context {B : Type} `{TimeCacher B}.
Implicit Types (d : baseForkDetector B) (l L : list headerInfo) (h w x : headerInfo).

Lemma forkIn_self d l x : x ∈ l -> isProcessed x = true ->
  (forall h, h ∈ l -> isProcessed h = true -> h = x) ->
  forkIn d l = let c := foldl choose noChoice (candidates (atNonce d l) l) in
               if shouldSignalFork d x c then Some (c.1.2, c.1.1) else None.
Proof.
  intros Hx Hp Hu. unfold forkIn. rewrite forkLoop_spec, (last_processed l x) by done. simpl.
  by destruct (foldl _ _ _) as [[? ?] ?].
Qed.

Lemma two_headers (l : list headerInfo) x w : x ∈ l -> w ∈ l -> x <> w -> (Z.of_nat (length l) =? 1) = false.
Proof.
  intros Hx Hw Hne. apply Z.eqb_neq. destruct l as [|a [|b l]]; simpl; try lia.
  apply list_elem_of_singleton in Hx, Hw. congruence.
Qed.

Lemma forkAt_in d n l x w : headers d !! n = Some l -> cpNonce (finalCheckpoint d) < n ->
  x ∈ l -> w ∈ l -> x <> w -> forkAt d n = forkIn d l.
Proof.
  intros Hl Hn Hx Hw Hne. rewrite (forkAt_entry d n l Hl), (two_headers l x w) by done.
  by rewrite (proj2 (Z.leb_gt _ _)).
Qed.

(** ** Deciding [shouldSignalFork] *)

Lemma no_signal_better d x c :
  (c.1.2 = MinForkRound \/ c.2 <= hiEpoch x) -> choiceLess c (hiHash x, hiRound x, hiEpoch x) = false ->
  shouldSignalFork d x c = false.
Proof.
  destruct c as [[ch cr] ce]. rewrite choiceLess_neg. unfold shouldSignalFork. simpl. intros He Hc.
  destruct (beq _ _) eqn:Eh; [done|]. apply beq_false in Eh.
  destruct (Z.eqb_spec cr MinForkRound) as [->|Hr]; simpl.
  - destruct Hc as [Hc|[-> Hc]].
    + rewrite (proj2 (Z.ltb_ge _ _)) by lia. by rewrite (proj2 (Z.eqb_neq _ _)) by lia.
    + by rewrite Z.ltb_irrefl, Hc, andb_false_r.
  - destruct He as [He|He]; [done|]. destruct (Z.ltb_spec ce (hiEpoch x)); [done|].
    rewrite (proj2 (Z.ltb_ge (hiEpoch x) ce)) by lia.
    destruct Hc as [Hc|[-> Hc]].
    + rewrite (proj2 (Z.ltb_ge cr _)) by lia. by rewrite (proj2 (Z.eqb_neq (hiRound x) cr)) by lia.
    + by rewrite Z.ltb_irrefl, Hc, andb_false_r.
Qed.

Lemma no_signal_none d x : hiRound x < MaxUint64 -> 0 <= hiEpoch x -> shouldSignalFork d x noChoice = false.
Proof.
  intros Hr He. apply no_signal_better; [by right|]. apply choiceLess_neg. left. done.
Qed.

(** ** Nodes with the same headers *)

(** Headers of a nonce as they are received in time, none of them notarized. *)
Record commonHeaders (n : Z) (L : list headerInfo) : Prop := {
  ch_received : forall h, h ∈ L -> hiState h = BHReceived /\ hiNonce h = n;
  ch_bounds : forall h, h ∈ L -> 0 < hiRound h < MaxUint64 /\ 0 <= hiEpoch h;
  ch_hash : forall g h, g ∈ L -> h ∈ L -> raw (hiHash g) = raw (hiHash h) -> g = h;
}.

(** The highest epoch, then the lowest round, then the lowest hash. *)
Definition preferred (L : list headerInfo) (w : headerInfo) : Prop :=
  w ∈ L /\ forall h, h ∈ L -> hiEpoch h < hiEpoch w \/ hiEpoch h = hiEpoch w /\
    (hiRound w < hiRound h \/ hiRound w = hiRound h /\ bytesLess (raw (hiHash h)) (raw (hiHash w)) = false).

Definition asProcessed (x : headerInfo) : headerInfo :=
  mkHeaderInfo (hiEpoch x) (hiNonce x) (hiRound x) (hiHash x) BHProcessed.

(** The list [l] of a node that has received the headers of [L] and processed [x]. *)
Record sees (L : list headerInfo) (x : headerInfo) (l : list headerInfo) : Prop := {
  sees_self : asProcessed x ∈ l;
  sees_only : forall h, h ∈ l -> h = asProcessed x \/ h ∈ L;
  sees_all : forall h, h ∈ L -> h ∈ l \/ h = x;
}.

Section Common.
Variables (n : Z) (L : list headerInfo) (x w : headerInfo) (l : list headerInfo) (d : baseForkDetector B).
Hypotheses (HL : commonHeaders n L) (Hx : x ∈ L) (Hw : preferred L w) (Hl : sees L x l).

Lemma received_not_processed h : h ∈ L -> isProcessed h = false.
Proof. intros Hh. unfold isProcessed. by rewrite (proj1 (ch_received _ _ HL h Hh)). Qed.

Lemma seen_processed h : h ∈ l -> isProcessed h = true -> h = asProcessed x.
Proof.
  intros Hh Hp. destruct (sees_only _ _ _ Hl h Hh) as [|Hh']; [done|]. by rewrite received_not_processed in Hp.
Qed.

Lemma seen_candidate h : h ∈ l -> isProcessed h = false -> h ∈ L.
Proof. intros Hh Hp. by destruct (sees_only _ _ _ Hl h Hh) as [->|]. Qed.

Lemma asChoice_received h : h ∈ L -> asChoice h = (hiHash h, hiRound h, hiEpoch h).
Proof. intros Hh. unfold asChoice, forkRound. by rewrite (proj1 (ch_received _ _ HL h Hh)). Qed.

Lemma live_received h : h ∈ L -> live (atNonce d l) h = (getMaxEpochFromHdrsInfo l <=? hiEpoch h).
Proof. intros Hh. unfold live. by rewrite (proj1 (ch_received _ _ HL h Hh)). Qed.

Lemma epoch_le_preferred h : h ∈ L -> hiEpoch h <= hiEpoch w.
Proof. intros Hh. destruct (proj2 Hw h Hh) as [|[]]; lia. Qed.

Lemma max_le_preferred : getMaxEpochFromHdrsInfo l <= hiEpoch w.
Proof.
  apply maxEpoch_least; [apply (ch_bounds _ _ HL w), Hw|]. intros h Hh.
  destruct (sees_only _ _ _ Hl h Hh) as [->|Hh']; [apply (epoch_le_preferred x)|apply epoch_le_preferred]; done.
Qed.

(** A candidate is not better than the preferred header, when it has its epoch. *)
Lemma candidate_not_better h : h ∈ L -> hiEpoch w <= hiEpoch h -> choiceLess (asChoice h) (asChoice w) = false.
Proof.
  intros Hh He. rewrite !asChoice_received by (done || apply Hw). apply choiceLess_neg. simpl.
  destruct (proj2 Hw h Hh) as [|[_ [|[-> Hb]]]]; [lia|by left|by right].
Qed.

Lemma forkIn_preferred : x = w -> forkIn d l = None.
Proof.
  intros E. rewrite (forkIn_self d l (asProcessed x)); [|apply Hl|done|apply seen_processed]. simpl.
  destruct (ch_bounds _ _ HL x Hx) as [Hr He].
  destruct (proj1 (choose_spec (candidates (atNonce d l) l) noChoice)) as [->|Hc].
  { by rewrite no_signal_none by (simpl; lia). }
  apply elem_of_candidates in Hc as (h & Hh & Hp & Hlv & ->). pose proof (seen_candidate _ Hh Hp) as HhL.
  rewrite live_received in Hlv by done. apply Z.leb_le in Hlv.
  pose proof (maxEpoch_ge l _ (sees_self _ _ _ Hl)) as Hm. simpl in Hm.
  pose proof (epoch_le_preferred h HhL) as Hle. rewrite <- E in Hle.
  rewrite no_signal_better; [done| |].
  - right. rewrite asChoice_received by done. simpl. lia.
  - pose proof (candidate_not_better h HhL) as Hb. rewrite <- E, (asChoice_received x Hx) in Hb. apply Hb. lia.
Qed.

Lemma choice_preferred : w ∈ l -> foldl choose noChoice (candidates (atNonce d l) l) = asChoice w.
Proof.
  intros Hwl. pose proof (proj1 Hw) as HwL. pose proof (received_not_processed w HwL) as Hwp.
  assert (Hmax : getMaxEpochFromHdrsInfo l = hiEpoch w).
  { pose proof max_le_preferred. pose proof (maxEpoch_ge l w Hwl). lia. }
  destruct (chosen_least (atNonce d l) l w Hwl Hwp) as (h & Hh & Hp & Hlv & -> & Hleast).
  { rewrite live_received, Hmax by done. apply Z.leb_refl. }
  { unfold forkRound. rewrite (proj1 (ch_received _ _ HL w HwL)). apply (ch_bounds _ _ HL w HwL). }
  pose proof (seen_candidate _ Hh Hp) as HhL. rewrite live_received, Hmax in Hlv by done. apply Z.leb_le in Hlv.
  f_equal. apply (ch_hash _ _ HL); [done|done|].
  assert (Hwh : choiceLess (asChoice w) (asChoice h) = false).
  { apply Hleast; [done|done|]. rewrite live_received, Hmax by done. apply Z.leb_refl. }
  pose proof (candidate_not_better h HhL Hlv) as Hhw.
  by destruct (choiceLess_antisym _ _ Hhw Hwh).
Qed.

Lemma signal_preferred : x <> w ->
  shouldSignalFork d (asProcessed x) (asChoice w) =
  (hiEpoch x <? hiEpoch w) || (hiRound w <? hiRound x) || negb (n <? highestNonceReceived d).
Proof.
  intros Hne. pose proof (proj1 Hw) as HwL. rewrite asChoice_received by done. unfold shouldSignalFork. simpl.
  assert (Hh : raw (hiHash x) <> raw (hiHash w)) by (intros E; by apply Hne, (ch_hash _ _ HL)).
  rewrite (proj2 (beq_false _ _) Hh). destruct (ch_bounds _ _ HL w HwL) as [Hr _].
  rewrite (proj2 (Z.eqb_neq (hiRound w) MinForkRound)) by (unfold MinForkRound; lia). simpl.
  rewrite (proj2 (Z.ltb_ge (hiEpoch w) _)) by by apply epoch_le_preferred.
  destruct (Z.ltb_spec (hiEpoch x) (hiEpoch w)) as [|He]; simpl; [done|].
  destruct (proj2 Hw x Hx) as [|[_ [Hrx|[Hrx Hb]]]]; [lia| |].
  - by rewrite (proj2 (Z.ltb_lt (hiRound w) _)).
  - rewrite Hrx, Z.ltb_irrefl, Z.eqb_refl. simpl. rewrite (proj2 (ch_received _ _ HL x Hx)).
    destruct (bytesLess (raw (hiHash w)) (raw (hiHash x))) eqn:E; [done|]. by destruct (Hh (bytesLess_total _ _ Hb E)).
Qed.
End Common.

(** ** Notarized headers *)

(** The notarized headers of [l] have the hash of [w], and only they count as round 0. *)
Record notarizedIn (l : list headerInfo) (w : headerInfo) : Prop := {
  nt_in : w ∈ l;
  nt_state : hiState w = BHNotarized;
  nt_same : forall h, h ∈ l -> hiState h = BHNotarized -> hiHash h = hiHash w;
  nt_rounds : forall h, h ∈ l -> hiState h <> BHNotarized -> 0 < hiRound h;
}.

Lemma notarized_choice d l w : notarizedIn l w ->
  let c := foldl choose noChoice (candidates d l) in c.1 = (hiHash w, MinForkRound).
Proof.
  intros Hw. pose proof (nt_state _ _ Hw) as Hst.
  assert (Hp : isProcessed w = false) by (unfold isProcessed; by rewrite Hst).
  assert (Hlv : live d w = true) by (unfold live; rewrite Hst; done).
  assert (Hfr : forkRound w = MinForkRound) by (unfold forkRound; by rewrite Hst).
  destruct (chosen_least d l w (nt_in _ _ Hw) Hp Hlv) as (h & Hh & _ & _ & -> & Hle); [by rewrite Hfr|].
  specialize (Hle w (nt_in _ _ Hw) Hp Hlv). apply choiceLess_neg in Hle. simpl in Hle. rewrite Hfr in Hle.
  destruct (decide (hiState h = BHNotarized)) as [E|E].
  - simpl. unfold forkRound. rewrite E. simpl. by rewrite (nt_same _ _ Hw h Hh E).
  - pose proof (nt_rounds _ _ Hw h Hh E) as Hr.
    assert (forkRound h = hiRound h) as Hfh by (unfold forkRound; by rewrite bool_decide_eq_false_2).
    rewrite Hfh in Hle. unfold MinForkRound in *. lia.
Qed.

Lemma signal_notarized d x (c : forkChoice) : 0 < hiRound x -> c.1.2 = MinForkRound ->
  shouldSignalFork d x c = negb (beq (raw (hiHash x)) (raw c.1.1)).
Proof.
  destruct c as [[ch cr] ce]. simpl. intros Hr ->. unfold shouldSignalFork. simpl.
  destruct (beq _ _); simpl; [done|]. by rewrite (proj2 (Z.ltb_lt _ _)).
Qed.
End Agree.
