(* ===== verification/ForkRun.v ===== *)
(** * What the operations of the fork detector do to its state, whatever the order in which
    Go walks the map of headers, and that the headers stay well formed. *)

From stdpp Require Import base list gmap relations sorting.
From Stdlib Require Import ZArith Lia.
From S2P Require Import Prelude HeaderHandler ForkDetector ForkChoice.

(** ** Ranges over a map that change the entry they are at *)

Section Range.
Context {A : Type} (g : gmap Z A -> Z -> A -> gmap Z A).
Hypothesis Hother : forall m n l n', n' <> n -> g m n l !! n' = m !! n'.
Hypothesis Hhere : forall m m' n l, m !! n = m' !! n -> g m n l !! n = g m' n l !! n.

Lemma range_lookup entries m n : NoDup entries.*1 ->
  foldl (fun m '(n, l) => g m n l) m entries !! n =
  match (list_to_map entries : gmap Z A) !! n with Some l => g m n l !! n | None => m !! n end.
Proof.
  revert m. induction entries as [|[k a] entries IH]; intros m Hnd; simpl; [by rewrite lookup_empty|].
  apply NoDup_cons in Hnd as [Hk Hnd]. rewrite IH by done. destruct (decide (k = n)) as [->|Hne].
  - rewrite lookup_insert_eq, not_elem_of_list_to_map_1 by done. done.
  - rewrite lookup_insert_ne by done. destruct (_ !! n) as [l|]; [|by apply Hother].
    apply Hhere. by apply Hother.
Qed.

Lemma range_map m entries n : entries ≡ₚ map_to_list m ->
  foldl (fun m '(n, l) => g m n l) m entries !! n = match m !! n with Some l => g m n l !! n | None => None end.
Proof.
  intros Hp. assert (Hnd : NoDup entries.*1) by (rewrite Hp; apply NoDup_fst_map_to_list).
  rewrite range_lookup by done.
  rewrite (list_to_map_proper entries (map_to_list m)), list_to_map_to_list by done.
  by destruct (m !! n).
Qed.
End Range.

Lemma ranged_elem {A} (m : gmap Z A) entries n l : entries ≡ₚ map_to_list m -> (n, l) ∈ entries <-> m !! n = Some l.
Proof. intros ->. by rewrite elem_of_map_to_list. Qed.

Section State.
Context {H B : Type} `{HeaderHandler H} `{TimedHeader H} `{TimeCacher B}.
Implicit Types (d : baseForkDetector B) (env : detectorEnv B) (l : list headerInfo).

(** ** The removals *)

Lemma putOrDelete_lookup m n l n' : putOrDelete m n l !! n' =
  if decide (n' = n) then (match l with [] => None | _ => Some l end) else m !! n'.
Proof.
  unfold putOrDelete. destruct (decide (n' = n)) as [->|Hne].
  - destruct l; [by rewrite lookup_delete_eq|by rewrite lookup_insert_eq].
  - destruct l; [by rewrite lookup_delete_ne|by rewrite lookup_insert_ne].
Qed.

(** An entry with the headers that satisfy [P]. *)
Definition keepOnly (P : headerInfo -> Prop) `{forall h, Decision (P h)} (l : list headerInfo) : option (list headerInfo) :=
  match filter P l with [] => None | l' => Some l' end.

Lemma putOrDelete_keep (P : headerInfo -> Prop) `{forall h, Decision (P h)} m n l : putOrDelete m n (filter P l) !! n = keepOnly P l.
Proof. rewrite putOrDelete_lookup, decide_True by done. unfold keepOnly. by destruct (filter P l). Qed.

Lemma removePastHeaders_lookup env d n : rangesAll env ->
  headers (removePastHeaders env d) !! n = if n <? cpNonce (finalCheckpoint d) then None else headers d !! n.
Proof.
  intros Hr. unfold removePastHeaders. simpl.
  rewrite (range_map (fun m nonce _ => if nonce <? _ then delete nonce m else m)).
  - destruct (headers d !! n) as [l|] eqn:E; destruct (n <? _); try done. by rewrite lookup_delete_eq.
  - intros m k l n' Hne. destruct (_ <? _); [|done]. by rewrite lookup_delete_ne.
  - intros m m' k l E. destruct (_ <? _); [|done]. by rewrite !lookup_delete_eq.
  - apply Hr.
Qed.

Lemma removeInvalid_lookup env d n : rangesAll env ->
  headers (removeInvalidReceivedHeaders env d) !! n =
  headers d !! n ≫= keepOnly (fun h => isReceivedHeaderInvalid (finalCheckpoint d) h = false).
Proof.
  intros Hr. unfold removeInvalidReceivedHeaders. simpl.
  rewrite (range_map (fun m nonce hdrInfos => putOrDelete m nonce
    (filter (fun h => isReceivedHeaderInvalid (finalCheckpoint d) h = false) hdrInfos))).
  - destruct (headers d !! n) as [l|]; [|done]. apply putOrDelete_keep.
  - intros m k l n' Hne. by rewrite putOrDelete_lookup, decide_False.
  - intros m m' k l E. rewrite !putOrDelete_lookup. by rewrite !decide_True by done.
  - apply Hr.
Qed.

Lemma cleanup_lookup env k d n : rangesAll env ->
  headers (cleanupReceivedHeadersHigherThanNonce env k d) !! n =
  if n <=? k then headers d !! n else headers d !! n ≫= keepOnly (fun h => hiState h = BHNotarized).
Proof.
  intros Hr. unfold cleanupReceivedHeadersHigherThanNonce. simpl.
  rewrite (range_map (fun m hdrsNonce hdrsInfo => if hdrsNonce <=? k then m else putOrDelete m hdrsNonce
    (filter (fun h => hiState h = BHNotarized) hdrsInfo))).
  - destruct (headers d !! n) as [l|] eqn:E; destruct (n <=? k); try done.
    apply putOrDelete_keep.
  - intros m j l n' Hne. destruct (_ <=? _); [done|]. by rewrite putOrDelete_lookup, decide_False.
  - intros m m' j l E. destruct (_ <=? _); [done|]. rewrite !putOrDelete_lookup. by rewrite !decide_True by done.
  - apply Hr.
Qed.

(** ** The highest nonces *)

Lemma probable_spec env d : rangesAll env ->
  cpNonce (finalCheckpoint d) <= computeProbableHighestNonce env d /\
  (forall n l, headers d !! n = Some l -> n <= computeProbableHighestNonce env d) /\
  (computeProbableHighestNonce env d = cpNonce (finalCheckpoint d) \/
   is_Some (headers d !! computeProbableHighestNonce env d)).
Proof.
  intros Hr. unfold computeProbableHighestNonce. specialize (Hr (headers d)).
  assert (Hin : forall n l, (n, l) ∈ mapRange env (headers d) <-> headers d !! n = Some l)
    by (intros; by apply ranged_elem). clear Hr.
  assert (G : forall entries a, let r := foldl (fun probable '(nonce, _) => if nonce <=? probable then probable else nonce) a entries in
    a <= r /\ (forall (n : Z) (l : list headerInfo), (n, l) ∈ entries -> n <= r) /\ (r = a \/ exists l, (r, l) ∈ entries)).
  { induction entries as [|[k v] entries IH]; intros a; simpl.
    { split; [lia|]. split; [by intros ? ? ?%elem_of_nil|by left]. }
    destruct (IH (if k <=? a then a else k)) as (I1 & I2 & I3). destruct (Z.leb_spec k a).
    - split; [lia|]. split; [intros n l [[= -> ->]|Hn]%elem_of_cons; [lia|eauto]|].
      destruct I3 as [I3|[l I3]]; [by left|right; exists l; by right].
    - split; [lia|]. split; [intros n l [[= -> ->]|Hn]%elem_of_cons; [lia|eauto]|]. right.
      destruct I3 as [->|[l I3]]; [exists v; left|exists l; by right]. }
  destruct (G (mapRange env (headers d)) (cpNonce (finalCheckpoint d))) as (G1 & G2 & G3).
  split; [done|]. split; [intros n l Hn; apply (G2 n l), Hin, Hn|].
  destruct G3 as [G3|[l G3]]; [by left|right]. apply Hin in G3. eauto.
Qed.

Lemma indexes_spec l : getProcessedAndNotarizedIndexes l =
  (last (filter (fun h => hiState h = BHProcessed) l), last (filter (fun h => hiState h = BHNotarized) l)).
Proof.
  unfold getProcessedAndNotarizedIndexes. induction l as [|h l IH] using rev_ind; [done|].
  rewrite foldl_snoc, IH, !filter_app. cbn [fst snd].
  rewrite !filter_cons, !filter_nil.
  destruct (hiState h); repeat case_decide; try done; by rewrite ?app_nil_r, ?last_snoc.
Qed.

(** The last processed and the last notarized header of a nonce are the same block. *)
Definition matchedIn l : option headerInfo :=
  match getProcessedAndNotarizedIndexes l with
  | (Some processed, Some notarized) => if beq (raw (hiHash notarized)) (raw (hiHash processed)) then Some notarized else None
  | _ => None
  end.
Definition matchedAt d (n : Z) : option headerInfo := headers d !! n ≫= matchedIn.

Lemma finalStep_matched acc n l : finalStep acc (n, l) =
  if n <=? match acc with Some c => cpNonce c | None => 0 end then acc
  else match matchedIn l with Some q => Some (mkCheckpointInfo n (hiRound q) (hiHash q)) | None => acc end.
Proof.
  unfold finalStep, matchedIn. destruct (_ <=? _); [done|].
  destruct (getProcessedAndNotarizedIndexes l) as [[p|] [q|]]; try done. by destruct (beq _ _).
Qed.

(** The final checkpoint a shard computes: the highest nonce that is matched. *)
Lemma shardFinal_spec env d : rangesAll env ->
  (shardFinalCheckpoint env d = d /\ forall n, 0 < n -> matchedAt d n = None) \/
  exists n q, 0 < n /\ matchedAt d n = Some q /\ (forall n' q', matchedAt d n' = Some q' -> n' <= n) /\
    shardFinalCheckpoint env d = setFinalCheckpoint (mkCheckpointInfo n (hiRound q) (hiHash q)) d.
Proof.
  intros Hr. unfold shardFinalCheckpoint. specialize (Hr (headers d)).
  assert (Hin : forall n l, (n, l) ∈ mapRange env (headers d) <-> headers d !! n = Some l)
    by (intros; by apply ranged_elem). clear Hr.
  assert (G : forall entries, (foldl finalStep None entries = None /\ forall n l, (n, l) ∈ entries -> 0 < n -> matchedIn l = None) \/
    exists n l q, foldl finalStep None entries = Some (mkCheckpointInfo n (hiRound q) (hiHash q)) /\ 0 < n /\
      (n, l) ∈ entries /\ matchedIn l = Some q /\ forall n' l' q', (n', l') ∈ entries -> matchedIn l' = Some q' -> n' <= n).
  { induction entries as [|[k v] entries IH] using rev_ind.
    { left. split; [done|]. by intros ? ? ?%elem_of_nil. }
    rewrite foldl_snoc, finalStep_matched.
    destruct IH as [[-> IH]|(n & l & q & -> & Hn & Hl & Hq & IH)]; simpl.
    - destruct (Z.leb_spec k 0); [|destruct (matchedIn v) as [q|] eqn:Ev].
      + left. split; [done|]. intros n l [Hnl|[= -> ->]%list_elem_of_singleton]%elem_of_app; [eauto|lia].
      + right. exists k, v, q. split; [done|]. split; [lia|]. split; [set_solver|]. split; [done|].
        intros n' l' q' [Hnl|[= -> ->]%list_elem_of_singleton]%elem_of_app E; [|lia].
        destruct (Z.le_gt_cases n' 0); [lia|]. by rewrite (IH n' l') in E by (done || lia).
      + left. split; [done|]. intros n l [Hnl|[= -> ->]%list_elem_of_singleton]%elem_of_app; eauto.
    - destruct (Z.leb_spec k n); [|destruct (matchedIn v) as [q'|] eqn:Ev].
      + right. exists n, l, q. repeat (split; [set_solver|]).
        intros n' l' q' [Hnl|[= -> ->]%list_elem_of_singleton]%elem_of_app; [eauto|lia].
      + right. exists k, v, q'. split; [done|]. split; [lia|]. split; [set_solver|]. split; [done|].
        intros n' l' q0 [Hnl|[= -> ->]%list_elem_of_singleton]%elem_of_app E; [|lia]. pose proof (IH _ _ _ Hnl E). lia.
      + right. exists n, l, q. repeat (split; [set_solver|]).
        intros n' l' q' [Hnl|[= -> ->]%list_elem_of_singleton]%elem_of_app E; [eauto|congruence]. }
  destruct (G (mapRange env (headers d))) as [[-> G']|(n & l & q & -> & Hn & Hl & Hq & G')].
  - left. split; [done|]. intros n Hn. unfold matchedAt. destruct (headers d !! n) as [l|] eqn:E; [|done].
    simpl. apply (G' n); [by apply Hin|done].
  - right. exists n, q. apply Hin in Hl. split; [done|]. split; [unfold matchedAt; by rewrite Hl|]. split; [|done].
    intros n' q' E. unfold matchedAt in E. destruct (headers d !! n') as [l'|] eqn:E'; [|done].
    simpl in E. by apply (G' n' l' q'); [apply Hin|].
Qed.

(** ** Adding a header *)

Lemma append_cases h d :
  (append h d = (d, false) /\ exists g, g ∈ headersAt d (hiNonce h) /\ isStored h g = true) \/
  (append h d = (setHeaders (<[hiNonce h := headersAt d (hiNonce h) ++ [h]]> (headers d)) d, true) /\
   forall g, g ∈ headersAt d (hiNonce h) -> isStored h g = false).
Proof.
  unfold append. destruct (existsb _ _) eqn:E.
  - left. split; [done|]. apply existsb_exists in E as (g & Hg & E). exists g. by rewrite list_elem_of_In.
  - right. split; [done|]. intros g Hg. rewrite list_elem_of_In in Hg.
    destruct (isStored h g) eqn:E'; [|done]. rewrite <- E. symmetry. apply existsb_exists. eauto.
Qed.

(** A header is refused, with at most the black list changed, or it is processed with
    nonce and round not before the final ones and not after the next round. *)
Definition acceptable env d (h : H) : Prop :=
  0 <= i64 (i64 (GetRound h) - i64 (cpRound (finalCheckpoint d))) /\
  0 <= i64 (i64 (GetNonce h) - i64 (cpNonce (finalCheckpoint d))) /\
  i64 (GetRound h) <= i64 (Index env + 1) /\
  i64 (i64 (GetNonce h) - i64 (cpNonce (finalCheckpoint d))) <= i64 (i64 (GetRound h) - i64 (cpRound (finalCheckpoint d))) /\
  computeGenesisTimeFromHeader env d h = genesisTime d.

Lemma setBlackList_same d : setBlackList (blackListHandler d) d = d.
Proof. by destruct d. Qed.

Lemma addHeader_cases {fd : forkDetector H B} env header hash st hs hashes d :
  (exists b e, addHeader env header hash st hs hashes d = (setBlackList b d, inl e)) \/
  exists h hsh b, header = Some h /\ hash = Some hsh /\ acceptable env d h /\
    Has b (raw (GetPrevHash h)) = false /\ b = Sweep env (blackListHandler d) /\
    addHeader env header hash st hs hashes d = processReceivedBlock env h hash st hs hashes (setBlackList b d).
Proof.
  unfold addHeader, bind, checkBlockBasicValidity.
  destruct header as [h|]; [|left; exists (blackListHandler d), ErrNilHeader; by rewrite setBlackList_same].
  destruct hash as [hsh|]; [|left; exists (blackListHandler d), ErrNilHash; by rewrite setBlackList_same].
  cbv zeta. set (b := Sweep env (blackListHandler d)). cbn [blackListHandler setBlackList genesisTime].
  destruct (Has b _) eqn:E0; [left; do 2 eexists; reflexivity|].
  destruct (computeGenesisTimeFromHeader env d h =? genesisTime d) eqn:E1; simpl negb; cbn iota; [|left; do 2 eexists; reflexivity].
  destruct (i64 (i64 (GetRound h) - i64 (cpRound (finalCheckpoint d))) <? 0) eqn:E2; [left; do 2 eexists; reflexivity|].
  destruct (i64 (i64 (GetNonce h) - i64 (cpNonce (finalCheckpoint d))) <? 0) eqn:E3; [left; do 2 eexists; reflexivity|].
  destruct (i64 (Index env + 1) <? i64 (GetRound h)) eqn:E4; [left; do 2 eexists; reflexivity|].
  destruct (i64 (i64 (GetRound h) - i64 (cpRound (finalCheckpoint d))) <?
            i64 (i64 (GetNonce h) - i64 (cpNonce (finalCheckpoint d)))) eqn:E5; [left; do 2 eexists; reflexivity|].
  right. do 3 eexists. split; [done|]. split; [done|].
  apply Z.eqb_eq in E1. apply Z.ltb_ge in E2, E3, E4, E5. by repeat split.
Qed.
End State.

(** ** Calls, and well-formed headers *)

Section Run.
Context {H B : Type} `{HeaderHandler H} `{TimedHeader H} `{TimeCacher B}.
Implicit Types (d : baseForkDetector B) (env : detectorEnv B) (l : list headerInfo).

(** ** The parts of a call *)

Definition finalNonce d : Z := cpNonce (finalCheckpoint d).

Lemma append_known h d d1 : append h d = (d1, false) -> d1 = d.
Proof. destruct (append_cases h d) as [[-> _]|[-> _]]; intros E; by injection E. Qed.

(** What a received header does, by cases. *)
Variant receivedAs {fd : forkDetector H B} env (h : H) hash st hs hashes d : baseForkDetector B * (forkErr + unit) -> Prop :=
| as_proposed : st = BHProposed -> receivedAs env h hash st hs hashes d (setHighestNonceReceived (GetNonce h) d, inr tt)
| as_known st' : st <> BHProposed -> st' = st \/ (st' = BHReceivedTooLate /\ st <> BHProcessed) ->
    append (mkHeaderInfo (GetEpoch h) (GetNonce h) (GetRound h) hash st') (setHighestNonceReceived (GetNonce h) d) =
      (setHighestNonceReceived (GetNonce h) d, false) ->
    receivedAs env h hash st hs hashes d (setHighestNonceReceived (GetNonce h) d, inr tt)
| as_new st' d1 : st <> BHProposed -> st <> BHProcessed -> st' = st \/ st' = BHReceivedTooLate ->
    append (mkHeaderInfo (GetEpoch h) (GetNonce h) (GetRound h) hash st') (setHighestNonceReceived (GetNonce h) d) = (d1, true) ->
    receivedAs env h hash st hs hashes d (setProbableHighestNonce (computeProbableHighestNonce env d1) d1, inr tt)
| as_processed d1 d2 r : st = BHProcessed ->
    append (mkHeaderInfo (GetEpoch h) (GetNonce h) (GetRound h) hash BHProcessed) (setHighestNonceReceived (GetNonce h) d) = (d1, true) ->
    doJobOnBHProcessed env h hash hs hashes d1 = (d2, r) ->
    receivedAs env h hash st hs hashes d
      (if r then d2 else setProbableHighestNonce (computeProbableHighestNonce env d2) d2, r).

Lemma receivedAs_run {fd : forkDetector H B} env h hash st hs hashes d :
  receivedAs env h hash st hs hashes d (processReceivedBlock env h hash st hs hashes d).
Proof.
  unfold processReceivedBlock. destruct (bool_decide (st = BHProposed)) eqn:E0.
  { apply bool_decide_eq_true in E0. by apply as_proposed. }
  apply bool_decide_eq_false in E0. destruct (decide (st = BHProcessed)) as [->|Hst].
  - unfold isHeaderReceivedTooLate. simpl. destruct (append _ _) as [d1 [|]] eqn:E1; simpl;
      [|pose proof (append_known _ _ _ E1) as ->; apply (as_known _ _ _ _ _ _ _ BHProcessed); auto].
    unfold bind. destruct (doJobOnBHProcessed _ _ _ _ _ d1) as [d2 r] eqn:E2.
    pose proof (as_processed env h hash BHProcessed hs hashes d d1 d2 r eq_refl E1 E2) as X.
    by destruct r as [e|[]].
  - set (st' := if isHeaderReceivedTooLate env h st BlockFinality then BHReceivedTooLate else st).
    assert (Hst' : st' = st \/ st' = BHReceivedTooLate) by (unfold st'; destruct (isHeaderReceivedTooLate _ _ _ _); auto).
    assert (Hp : bool_decide (st' = BHProcessed) = false) by (apply bool_decide_eq_false; destruct Hst' as [->| ->]; done).
    destruct (append _ _) as [d1 [|]] eqn:E1; simpl.
    2:{ pose proof (append_known _ _ _ E1) as ->. apply (as_known _ _ _ _ _ _ _ st'); [done| |done].
        destruct Hst' as [->| ->]; [by left|by right]. }
    rewrite Hp. by eapply as_new.
Qed.

(** ** Well-formed headers *)

Definition headerIdent (h : headerInfo) : bytes * BlockHeaderState := (raw (hiHash h), hiState h).

(** The entry of a nonce has headers of that nonce, none only proposed, and each hash at
    most once in a state. *)
Definition entryWf (n : Z) l : Prop :=
  l <> [] /\ (forall h, h ∈ l -> hiNonce h = n /\ hiState h <> BHProposed) /\ NoDup (headerIdent <$> l).
Definition headersWf d : Prop := forall n l, headers d !! n = Some l -> entryWf n l.

(** [d'] has the headers of [d], or fewer. *)
Definition shrinks d d' : Prop :=
  forall n l', headers d' !! n = Some l' -> exists l, headers d !! n = Some l /\ l' <> [] /\ sublist l' l.

Lemma headersWf_shrink d d' : shrinks d d' -> headersWf d -> headersWf d'.
Proof.
  intros Hs Hw n l' Hl'. destruct (Hs n l' Hl') as (l & Hl & Hne & Hsub). destruct (Hw n l Hl) as (_ & W1 & W2).
  split; [done|]. split; [intros h Hh; apply W1; by eapply elem_of_submseteq, sublist_submseteq|].
  apply (sublist_NoDup _ (headerIdent <$> l)); [done|by apply fmap_sublist].
Qed.

Lemma headersWf_same d d' : headers d' = headers d -> headersWf d -> headersWf d'.
Proof. intros E Hw n l. rewrite E. apply Hw. Qed.

Lemma keepOnly_some (P : headerInfo -> Prop) `{forall h, Decision (P h)} l l' :
  keepOnly P l = Some l' -> l' = filter P l /\ l' <> [].
Proof. unfold keepOnly. destruct (filter P l) eqn:E; [done|]. by intros [= <-]. Qed.

Lemma keepOnly_shrinks (P : headerInfo -> Prop) `{forall h, Decision (P h)} l l' :
  keepOnly P l = Some l' -> l' <> [] /\ sublist l' l.
Proof. intros [-> Hne]%keepOnly_some. split; [done|]. apply sublist_filter. Qed.

Lemma headersWf_append h d : hiState h <> BHProposed -> headersWf d -> headersWf (append h d).1.
Proof.
  intros Hst Hw. destruct (append_cases h d) as [[-> _]|[-> Hnew]]; [done|]. intros n l. simpl.
  destruct (decide (n = hiNonce h)) as [->|Hne]; [|rewrite lookup_insert_ne by done; apply Hw].
  rewrite lookup_insert_eq. intros [= <-]. split; [by destruct (headersAt d (hiNonce h))|].
  assert (Hold : entryWf (hiNonce h) (headersAt d (hiNonce h)) \/ headersAt d (hiNonce h) = []).
  { unfold headersAt. destruct (headers d !! hiNonce h) eqn:E; [left; by apply Hw|by right]. }
  split.
  - intros g [Hg| ->%list_elem_of_singleton]%elem_of_app; [|done].
    destruct Hold as [(_ & Hold & _)|Hold]; [by apply Hold|]. rewrite Hold in Hg. by apply elem_of_nil in Hg.
  - rewrite fmap_app. apply NoDup_app. split; [|split].
    + destruct Hold as [(_ & _ & Hold)| ->]; [done|apply NoDup_nil_2].
    + intros i (g & -> & Hg)%list_elem_of_fmap Hi%list_elem_of_singleton. injection Hi as E1 E2.
      specialize (Hnew g Hg). unfold isStored in Hnew. by rewrite E1, E2, beq_refl, bool_decide_eq_true_2 in Hnew.
    + apply NoDup_singleton.
Qed.

Lemma headersWf_appendSelf fin hs hashes added d : headersWf d -> headersWf (appendSelfLoop fin hs hashes added d).1.
Proof.
  revert hashes added d. induction hs as [|h hs IH]; intros hashes added d Hw; [done|]. cbn [appendSelfLoop].
  destruct (_ <=? _); [by apply IH|]. destruct hashes as [|hash hashes]; [done|].
  pose proof (headersWf_append (mkHeaderInfo 0 (GetNonce h) (GetRound h) hash BHNotarized) d ltac:(done) Hw) as Hw'.
  destruct (append _ d) as [d1 b]. by apply IH.
Qed.

Lemma headersWf_final env d : headersWf d -> headersWf (shardFinalCheckpoint env d).
Proof. apply headersWf_same. unfold shardFinalCheckpoint. by destruct (foldl _ _ _). Qed.

Lemma removePast_shrinks env d : rangesAll env -> headersWf d -> headersWf (removePastOrInvalidRecords env d).
Proof.
  intros Hr Hw.
  apply (headersWf_same (removeInvalidReceivedHeaders env (removePastHeaders env d))); [done|].
  eapply headersWf_shrink; [|eapply (headersWf_shrink d); [|done]].
  - intros n l'. rewrite removeInvalid_lookup by done. intros (l & Hl & E)%bind_Some. exists l.
    split; [done|]. by apply keepOnly_shrinks in E.
  - intros n l'. rewrite removePastHeaders_lookup by done. destruct (_ <? _); [done|]. intros E. exists l'.
    split; [done|]. split; [apply (Hw n l' E)|done].
Qed.

(** The detectors of the shards and of the metachain. *)
Variant detectorKind : forkDetector H B -> Prop :=
| kind_shard : detectorKind shardForkDetector
| kind_meta : detectorKind metaForkDetector.

Lemma headersWf_job fd env h hash hs hashes d : detectorKind fd -> rangesAll env -> headersWf d ->
  headersWf (doJobOnBHProcessed (forkDetector := fd) env h hash hs hashes d).1.
Proof.
  intros Hk Hr Hw. destruct Hk; simpl.
  - unfold shardJob, bind. pose proof (headersWf_appendSelf (finalNonce d) hs hashes false d Hw) as Hw'.
    unfold appendSelfNotarizedHeaders. fold (finalNonce d).
    destruct (appendSelfLoop _ _ _ _ d) as [d1 [e|b]]; [done|]. simpl.
    apply removePast_shrinks; [done|].
    eapply (headersWf_same (shardFinalCheckpoint env d1)); [done|]. by apply headersWf_final.
  - by apply removePast_shrinks.
Qed.

Lemma headersWf_highest n d : headersWf d -> headersWf (setHighestNonceReceived n d).
Proof. apply headersWf_same. unfold setHighestNonceReceived. by destruct (_ <=? _). Qed.

Lemma headersWf_add fd env header hash st hs hashes d : detectorKind fd -> rangesAll env -> headersWf d ->
  headersWf (addHeader (FD := fd) env header hash st hs hashes d).1.
Proof.
  intros Hk Hr Hw.
  destruct (addHeader_cases (fd := fd) env header hash st hs hashes d) as [(b & e & ->)|(h & hsh & b & -> & -> & _ & _ & _ & ->)];
    [done|].
  assert (Hw' : headersWf (setHighestNonceReceived (GetNonce h) (setBlackList b d))) by by apply headersWf_highest.
  destruct (receivedAs_run (fd := fd) env h (Some hsh) st hs hashes (setBlackList b d)) as
    [_|? _ _ _|st' d1 Hp _ Hst' E|d1 d2 r Hst E1 E2]; simpl; try done.
  - apply (headersWf_same d1); [done|]. change d1 with (d1, true).1. rewrite <- E. apply headersWf_append; [|done].
    simpl. by destruct Hst' as [->| ->].
  - assert (Hd1 : headersWf d1) by (change d1 with (d1, true).1; rewrite <- E1; by apply headersWf_append).
    assert (Hd2 : headersWf d2) by (change d2 with (d2, r).1; rewrite <- E2; by apply headersWf_job).
    destruct r; [done|]. by apply (headersWf_same d2).
Qed.

Lemma headersWf_remove fd env n hash d : detectorKind fd -> headersWf d ->
  headersWf (RemoveHeader (FD := fd) env n hash d).
Proof.
  intros Hk Hw. unfold RemoveHeader. destruct (_ <=? _); [done|].
  set (d1 := setHeaders _ _). assert (Hd1 : headersWf d1).
  { apply (headersWf_shrink d); [|done]. intros k l'. unfold d1. simpl. rewrite putOrDelete_lookup.
    destruct (decide (k = n)) as [->|].
    - unfold headersAt. simpl. destruct (headers d !! n) as [l|]; simpl; [|done].
      set (l0 := filter _ l). destruct l0 as [|x l1] eqn:E; [done|]. intros [= <-]. exists l. split; [done|].
      rewrite <- E. split; [by rewrite E|apply sublist_filter].
    - intros E. exists l'. split; [done|]. split; [apply (Hw k l' E)|done]. }
  eapply headersWf_same; [done|]. destruct Hk; simpl; [by apply headersWf_final|done].
Qed.

Lemma headersWf_reset env d : rangesAll env -> headersWf d -> headersWf (ResetProbableHighestNonce env d).
Proof.
  intros Hr Hw. apply (headersWf_same (cleanupReceivedHeadersHigherThanNonce env (cpNonce (lastCheckpoint d)) d)); [done|].
  apply (headersWf_shrink d); [|done].
  intros n l'. rewrite cleanup_lookup by done. destruct (_ <=? _).
  - intros E. exists l'. split; [done|]. split; [apply (Hw n l' E)|done].
  - intros (l & Hl & E)%bind_Some. exists l. split; [done|]. by apply keepOnly_shrinks in E.
Qed.
End Run.
