(* ===== verification/ForkFinality.v ===== *)
(** * Finality: in a shard the final block is the highest one that the node has processed
    and the metachain has notarized; on the metachain it is the last but one that was
    processed.  In both the final nonce does not go back. *)

From stdpp Require Import base list gmap relations sorting.
From Stdlib Require Import ZArith Lia.
From S2P Require Import Prelude HeaderHandler ForkDetector ForkChoice ForkRun.

(** ** Lists of nonces in increasing order *)

Lemma sorted_snoc (l : list Z) x : StronglySorted Z.lt l -> Forall (fun y => y < x) l -> StronglySorted Z.lt (l ++ [x]).
Proof.
  induction l as [|y l IH]; simpl; intros Hs Hf; [repeat constructor|].
  apply StronglySorted_inv in Hs as [Hs Hy]. apply Forall_cons in Hf as [Hx Hf].
  constructor; [by apply IH|]. apply Forall_app. split; [done|]. by apply Forall_singleton.
Qed.

Lemma sorted_last (l : list Z) x y : StronglySorted Z.lt l -> last l = Some y -> x ∈ l -> x <= y.
Proof.
  destruct (snoc_or_nil l) as [-> |(l1 & z & ->)]; [done|]. rewrite last_snoc. intros Hs [= <-] Hx.
  apply elem_of_app in Hx as [Hx|Hx%list_elem_of_singleton]; [|lia].
  pose proof (StronglySorted_app_1_elem_of _ _ _ _ _ Hs Hx (proj2 (list_elem_of_singleton z z) eq_refl)). lia.
Qed.

Lemma sorted_sublist (l l' : list Z) : sublist l' l -> StronglySorted Z.lt l -> StronglySorted Z.lt l'.
Proof.
  induction 1 as [|x l1 l2 Hs IH|x l1 l2 Hs IH]; intros Hl; [done| |]; apply StronglySorted_inv in Hl as [Hl Hf]; [|by apply IH].
  constructor; [by apply IH|]. rewrite Forall_forall in Hf |- *. intros y Hy.
  apply Hf. by eapply elem_of_submseteq, sublist_submseteq.
Qed.

Section Finality.
Context {H B : Type} `{HeaderHandler H} `{TimedHeader H} `{TimeCacher B}.
Implicit Types (d : baseForkDetector B) (env : detectorEnv B) (l : list headerInfo).

Definition checkpointNonces d : list Z := cpNonce <$> fkCheckpoint (fork d).

Lemma lastCheckpoint_nonce d n : last (checkpointNonces d) = Some n -> cpNonce (lastCheckpoint d) = n.
Proof.
  unfold checkpointNonces, lastCheckpoint. rewrite fmap_last.
  destruct (last (fkCheckpoint (fork d))) as [c|]; [|done]. by intros [= <-].
Qed.

(** ** The matched headers *)

Lemma matchedIn_filter (P : headerInfo -> Prop) `{forall h, Decision (P h)} l :
  (forall h, h ∈ l -> hiState h = BHProcessed \/ hiState h = BHNotarized -> P h) -> matchedIn (filter P l) = matchedIn l.
Proof.
  intros HP. unfold matchedIn. rewrite !indexes_spec.
  assert (E : forall st, st = BHProcessed \/ st = BHNotarized ->
    filter (fun h => hiState h = st) (filter P l) = filter (fun h => hiState h = st) l).
  { intros st Hst. induction l as [|h l IH]; [done|]. rewrite (filter_cons P h).
    assert (IH' : filter (fun h => hiState h = st) (filter P l) = filter (fun h => hiState h = st) l)
      by (apply IH; intros; apply HP; [by right|done]).
    destruct (decide (P h)) as [|Hn].
    - rewrite !filter_cons. by rewrite IH'.
    - rewrite IH'. rewrite filter_cons_False; [done|]. intros E. apply Hn, HP; [left|]. by rewrite E. }
  by rewrite !E by auto.
Qed.

Lemma matchedIn_states l q : matchedIn l = Some q -> exists p,
  p ∈ l /\ hiState p = BHProcessed /\ q ∈ l /\ hiState q = BHNotarized /\ raw (hiHash q) = raw (hiHash p).
Proof.
  unfold matchedIn. rewrite indexes_spec.
  destruct (last (filter (fun h => hiState h = BHProcessed) l)) as [p|] eqn:E1; [|done].
  destruct (last (filter (fun h => hiState h = BHNotarized) l)) as [q'|] eqn:E2; [|done].
  destruct (beq _ _) eqn:E; [|done]. intros [= ->]. apply beq_true in E.
  apply last_Some_elem_of, list_elem_of_filter in E1 as [? ?], E2 as [? ?]. exists p. done.
Qed.

Lemma matchedIn_unprocessed l : (forall h, h ∈ l -> hiState h <> BHProcessed) -> matchedIn l = None.
Proof.
  intros Hl. destruct (matchedIn l) as [q|] eqn:E; [|done]. apply matchedIn_states in E as (p & Hp & Hs & _).
  by destruct (Hl p).
Qed.

Lemma matchedAt_keepOnly (P : headerInfo -> Prop) `{forall h, Decision (P h)} (o : option (list headerInfo)) :
  (forall l h, o = Some l -> h ∈ l -> hiState h = BHProcessed \/ hiState h = BHNotarized -> P h) ->
  (o ≫= keepOnly P) ≫= matchedIn = o ≫= matchedIn.
Proof.
  intros HP. destruct o as [l|]; [|done]. simpl. rewrite <- (matchedIn_filter P l) by (intros; by eapply HP).
  unfold keepOnly. by destruct (filter P l).
Qed.

Definition processedAt d (n : Z) : Prop := exists l h, headers d !! n = Some l /\ h ∈ l /\ hiState h = BHProcessed.

Lemma matchedAt_processed d n q : matchedAt d n = Some q -> processedAt d n.
Proof. intros (l & Hl & E)%bind_Some. apply matchedIn_states in E as (p & Hp & Hs & _). by exists l, p. Qed.

(** ** The invariant of a shard

    [o] is the nonce of the block that is being processed and has no checkpoint yet. *)
Record shardInv (o : option Z) d : Prop := {
  si_matched : forall n q, matchedAt d n = Some q -> n < finalNonce d -> is_Some (matchedAt d (finalNonce d));
  si_sorted : StronglySorted Z.lt (checkpointNonces d);
  si_final : finalNonce d ∈ checkpointNonces d \/ Some (finalNonce d) = o;
  si_processed : forall n, processedAt d n -> finalNonce d <= n -> n ∈ checkpointNonces d \/ Some n = o;
  si_source : finalCheckpoint d = genesisCheckpoint d \/
    exists q, matchedAt d (finalNonce d) = Some q /\ cpHash (finalCheckpoint d) = hiHash q;
}.

Lemma shardInv_same o d d' : headers d' = headers d -> fkCheckpoint (fork d') = fkCheckpoint (fork d) ->
  finalCheckpoint d' = finalCheckpoint d -> genesisCheckpoint d' = genesisCheckpoint d -> shardInv o d -> shardInv o d'.
Proof.
  intros E1 E2 E3 E4 [I1 I2 I3 I4 I5].
  assert (Ec : checkpointNonces d' = checkpointNonces d) by (unfold checkpointNonces; by rewrite E2).
  assert (Ef : finalNonce d' = finalNonce d) by (unfold finalNonce; by rewrite E3).
  assert (Em : forall n, matchedAt d' n = matchedAt d n) by (intros; unfold matchedAt; by rewrite E1).
  assert (Ep : forall n, processedAt d' n -> processedAt d n) by (intros n; unfold processedAt; by rewrite E1).
  split; rewrite ?Ec, ?Ef; [|done|done|eauto|by rewrite Em, E3, E4]. intros n q. rewrite !Em. apply I1.
Qed.

(** Only the headers above the final nonce change, or only those that are neither processed
    nor notarized. *)
Lemma shardInv_headers o o' d m : shardInv o d ->
  (forall n, n <= finalNonce d -> matchedAt (setHeaders m d) n = matchedAt d n) ->
  (forall n, processedAt (setHeaders m d) n -> finalNonce d <= n -> processedAt d n \/ Some n = o') ->
  (o = None \/ o = o') ->
  shardInv o' (setHeaders m d).
Proof.
  intros [I1 I2 I3 I4 I5] Hm Hp Ho. split; [|done| | |].
  - intros n q. change (finalNonce (setHeaders m d)) with (finalNonce d). intros E Hn.
    rewrite !Hm in * by lia. by apply (I1 n q).
  - destruct I3 as [I3|I3]; [by left|]. right. destruct Ho as [-> | <-]; done.
  - intros n Hn Hle. destruct (Hp n Hn Hle) as [Hn'|]; [|by right].
    destruct (I4 n Hn' Hle) as [|E]; [by left|]. right. destruct Ho as [-> | <-]; done.
  - change (finalNonce (setHeaders m d)) with (finalNonce d). rewrite Hm by lia. exact I5.
Qed.

Lemma matchedIn_snoc_other l h : hiState h <> BHProcessed -> hiState h <> BHNotarized -> matchedIn (l ++ [h]) = matchedIn l.
Proof.
  intros H3 H4. unfold matchedIn. rewrite !indexes_spec, !filter_app.
  rewrite !(filter_cons_False _ h) by done. by rewrite !filter_nil, !app_nil_r.
Qed.

Lemma matchedAt_insert d n l k :
  matchedAt (setHeaders (<[n := l]> (headers d)) d) k = if decide (k = n) then matchedIn l else matchedAt d k.
Proof.
  unfold matchedAt. simpl. destruct (decide (k = n)) as [->|Hne]; [by rewrite lookup_insert_eq|].
  by rewrite lookup_insert_ne.
Qed.

(** A header is appended: one that is only received, one above the final nonce that is
    notarized, or the one the node processes. *)
Lemma shardInv_append o o' h d d1 b : shardInv o d -> append h d = (d1, b) ->
  (hiState h <> BHProcessed /\ hiState h <> BHNotarized /\ o' = o \/
   finalNonce d < hiNonce h /\ hiState h = BHNotarized /\ o' = o \/
   finalNonce d < hiNonce h /\ hiState h = BHProcessed /\ o = None /\ o' = Some (hiNonce h)) ->
  b = true \/ o' = o ->
  shardInv o' d1 /\ finalNonce d1 = finalNonce d /\ checkpointNonces d1 = checkpointNonces d.
Proof.
  intros Hi E Hh Hb. destruct (append_cases h d) as [[E' _]|[E' _]]; rewrite E' in E; injection E as <- <-.
  { split; [|done]. by destruct Hb as [| ->]. }
  split; [|done]. eapply shardInv_headers; [exact Hi| | |].
  - intros n Hn. rewrite matchedAt_insert. destruct (decide (n = hiNonce h)) as [->|]; [|done].
    destruct Hh as [(S1 & S2 & _)|[(S1 & _)|(S1 & _)]]; [|lia|lia].
    rewrite matchedIn_snoc_other by done. unfold headersAt, matchedAt. by destruct (headers d !! hiNonce h).
  - intros n (l & g & Hl & Hg & Hs) Hn. simpl in Hl. destruct (decide (n = hiNonce h)) as [->|Hne].
    + rewrite lookup_insert_eq in Hl. injection Hl as <-.
      apply elem_of_app in Hg as [Hg| ->%list_elem_of_singleton].
      * left. unfold headersAt in Hg. destruct (headers d !! hiNonce h) as [l0|] eqn:E0; [|by apply elem_of_nil in Hg].
        by exists l0, g.
      * right. destruct Hh as [(? & _)|[(_ & ? & _)|(_ & _ & _ & ->)]]; try congruence.
    + rewrite lookup_insert_ne in Hl by done. left. by exists l, g.
  - destruct Hh as [(_ & _ & ->)|[(_ & _ & ->)|(_ & _ & -> & _)]]; auto.
Qed.

Lemma shardInv_appendSelf o hs hashes added d : shardInv o d -> (length hs <= length hashes)%nat ->
  exists b d1, appendSelfLoop (finalNonce d) hs hashes added d = (d1, inr b) /\
    shardInv o d1 /\ finalNonce d1 = finalNonce d /\ checkpointNonces d1 = checkpointNonces d.
Proof.
  revert hashes added d. induction hs as [|h hs IH]; intros hashes added d Hi Hlen; [by exists added, d|].
  destruct hashes as [|hash hashes]; [simpl in Hlen; lia|]. cbn [appendSelfLoop]. simpl in Hlen.
  destruct (Z.leb_spec (GetNonce h) (finalNonce d)); [apply IH; [done|simpl; lia]|].
  destruct (append _ d) as [d1 b] eqn:E.
  destruct (shardInv_append o o _ d d1 b Hi E) as (Hi1 & F1 & C1); [right; left; done|by right|].
  destruct (IH hashes (added || b) d1 Hi1 ltac:(lia)) as (b' & d2 & E2 & Hi2 & F2 & C2). rewrite F1 in E2.
  exists b', d2. split; [done|]. split; [done|]. split; congruence.
Qed.

Lemma shardInv_final o env d : rangesAll env -> shardInv o d ->
  shardInv o (shardFinalCheckpoint env d) /\ finalNonce d <= finalNonce (shardFinalCheckpoint env d) /\
  (finalCheckpoint (shardFinalCheckpoint env d) = finalCheckpoint d \/
   exists q, matchedAt d (finalNonce (shardFinalCheckpoint env d)) = Some q /\
     cpHash (finalCheckpoint (shardFinalCheckpoint env d)) = hiHash q).
Proof.
  intros Hr Hi. destruct (shardFinal_spec env d Hr) as [[-> _]|(n & q & Hn & Hq & Hmax & ->)].
  { split; [done|]. split; [lia|by left]. }
  assert (Hle : finalNonce d <= n).
  { destruct (Z.le_gt_cases (finalNonce d) n) as [|Hlt]; [done|].
    destruct (si_matched _ _ Hi n q Hq ltac:(lia)) as [q' Hq']. by apply (Hmax _ q'). }
  split; [|split; [done|]].
  2:{ right. by exists q. }
  destruct Hi as [I1 I2 I3 I4 I5]. split; [|done| | |by right; exists q].
  - intros n' q' Hq' Hlt. exists q. done.
  - apply I4; [by eapply matchedAt_processed|done].
  - intros n' Hn' Hle'. apply I4; [done|]. change (n <= n') in Hle'. lia.
Qed.

Lemma shardInv_checkpoint n r hsh d : shardInv (Some n) d -> Forall (fun k => k < n) (checkpointNonces d) ->
  shardInv None (addCheckpoint (mkCheckpointInfo n r hsh) d).
Proof.
  intros [I1 I2 I3 I4 I5] Hn.
  assert (Ec : checkpointNonces (addCheckpoint (mkCheckpointInfo n r hsh) d) = checkpointNonces d ++ [n])
    by (unfold checkpointNonces; simpl; by rewrite fmap_app).
  split; rewrite ?Ec.
  - done.
  - by apply sorted_snoc.
  - left. apply elem_of_app. destruct I3 as [I3|[= I3]]; [by left|right]. by apply list_elem_of_singleton.
  - intros k Hk Hle. left. apply elem_of_app. destruct (I4 k Hk Hle) as [|[= ->]]; [by left|right]. by apply list_elem_of_singleton.
  - exact I5.
Qed.

Lemma received_invalid c h : isReceivedHeaderInvalid c h = true -> hiState h = BHReceived \/ hiState h = BHReceivedTooLate.
Proof.
  unfold isReceivedHeaderInvalid. rewrite andb_true_iff, orb_true_iff, !bool_decide_eq_true. tauto.
Qed.

Lemma checkpointNonces_filter (f : Z -> bool) (l : list checkpointInfo) n : 
  n ∈ cpNonce <$> filter (fun c => f (cpNonce c) = false) l <-> n ∈ cpNonce <$> l /\ f n = false.
Proof.
  rewrite !list_elem_of_fmap. split.
  - intros (c & -> & [Hc Hin]%list_elem_of_filter). eauto.
  - intros [(c & -> & Hin) Hc]. exists c. split; [done|]. by apply list_elem_of_filter.
Qed.

Lemma checkpoints_sorted_filter (f : checkpointInfo -> bool) (l : list checkpointInfo) :
  StronglySorted Z.lt (cpNonce <$> l) -> StronglySorted Z.lt (cpNonce <$> filter (fun c => f c = false) l).
Proof. apply sorted_sublist. apply fmap_sublist, sublist_filter. Qed.

Lemma past_matched env d n : rangesAll env -> 
  matchedAt (removePastOrInvalidRecords env d) n = if n <? finalNonce d then None else matchedAt d n.
Proof.
  intros Hr. unfold matchedAt.
  change (headers (removePastOrInvalidRecords env d)) with (headers (removeInvalidReceivedHeaders env (removePastHeaders env d))).
  rewrite removeInvalid_lookup, matchedAt_keepOnly by done || (intros l h _ _ Hs;
    apply not_true_iff_false; intros [E|E]%received_invalid; rewrite E in Hs; by destruct Hs).
  rewrite removePastHeaders_lookup by done. fold (finalNonce d). by destruct (n <? finalNonce d).
Qed.

Lemma past_processed env d n : rangesAll env -> processedAt (removePastOrInvalidRecords env d) n -> processedAt d n.
Proof.
  intros Hr (l & h & Hl & Hh & Hs).
  change (headers (removePastOrInvalidRecords env d)) with (headers (removeInvalidReceivedHeaders env (removePastHeaders env d))) in Hl.
  rewrite removeInvalid_lookup in Hl by done. apply bind_Some in Hl as (l0 & Hl0 & E).
  rewrite removePastHeaders_lookup in Hl0 by done. destruct (_ <? _); [done|].
  apply keepOnly_some in E as [-> _]. apply list_elem_of_filter in Hh as [_ Hh]. by exists l0, h.
Qed.

Lemma shardInv_past env d : rangesAll env -> shardInv None d -> shardInv None (removePastOrInvalidRecords env d).
Proof.
  intros Hr [I1 I2 I3 I4 I5].
  assert (Ec : forall n, n ∈ checkpointNonces (removePastOrInvalidRecords env d) <-> n ∈ checkpointNonces d /\ (n <? finalNonce d) = false)
    by (intros n; exact (checkpointNonces_filter (fun k => k <? finalNonce d) (fkCheckpoint (fork d)) n)).
  change (finalNonce (removePastOrInvalidRecords env d)) with (finalNonce d) in *. split.
  - change (finalNonce (removePastOrInvalidRecords env d)) with (finalNonce d).
    intros n q. rewrite past_matched by done. by intros E Hn%Z.ltb_lt; rewrite Hn in E.
  - by apply (checkpoints_sorted_filter (fun c => cpNonce c <? finalNonce d)).
  - left. apply Ec. change (finalNonce (removePastOrInvalidRecords env d)) with (finalNonce d). rewrite Z.ltb_irrefl. by destruct I3.
  - intros n Hn Hle. left. apply Ec. change (finalNonce (removePastOrInvalidRecords env d)) with (finalNonce d) in Hle.
    split; [|by apply Z.ltb_ge]. apply past_processed in Hn; [|done]. by destruct (I4 n Hn Hle).
  - change (finalNonce (removePastOrInvalidRecords env d)) with (finalNonce d). by rewrite past_matched, Z.ltb_irrefl.
Qed.

(** ** The calls of a shard *)

Lemma sorted_below d n : shardInv None d -> cpNonce (lastCheckpoint d) < n -> Forall (fun k => k < n) (checkpointNonces d).
Proof.
  intros Hi Hn. apply Forall_forall. intros k Hk.
  destruct (last (checkpointNonces d)) as [m|] eqn:E; [|apply last_None in E; rewrite E in Hk; by apply elem_of_nil in Hk].
  pose proof (sorted_last _ _ _ (si_sorted _ _ Hi) E Hk). apply lastCheckpoint_nonce in E. lia.
Qed.

Lemma final_below d n : shardInv None d -> cpNonce (lastCheckpoint d) < n -> finalNonce d < n.
Proof.
  intros Hi Hn. pose proof (sorted_below d n Hi Hn) as Hf. rewrite Forall_forall in Hf. apply Hf.
  by destruct (si_final _ _ Hi).
Qed.

Lemma shardInv_job env h hash hs hashes d : rangesAll env -> shardInv (Some (GetNonce h)) d ->
  Forall (fun k => k < GetNonce h) (checkpointNonces d) -> (length hs <= length hashes)%nat ->
  exists d', shardJob env h hash hs hashes d = (d', inr tt) /\ shardInv None d' /\ finalNonce d <= finalNonce d'.
Proof.
  intros Hr Hi Hf Hlen. unfold shardJob, bind, appendSelfNotarizedHeaders. fold (finalNonce d).
  destruct (shardInv_appendSelf _ hs hashes false d Hi Hlen) as (b & d1 & -> & Hi1 & F1 & C1). simpl.
  destruct (shardInv_final _ env d1 Hr Hi1) as (Hi2 & Hle & _).
  eexists. split; [done|]. split; [|change (finalNonce d <= finalNonce (shardFinalCheckpoint env d1)); lia].
  apply shardInv_past; [done|]. apply shardInv_checkpoint; [done|].
  assert (Ec : checkpointNonces (shardFinalCheckpoint env d1) = checkpointNonces d1)
    by (unfold shardFinalCheckpoint; by destruct (foldl _ _ _)).
  by rewrite Ec, C1.
Qed.

Lemma shardInv_highest o n d : shardInv o d -> shardInv o (setHighestNonceReceived n d).
Proof. apply shardInv_same; unfold setHighestNonceReceived; by destruct (_ <=? _). Qed.

Lemma setHighest_keeps n d : finalNonce (setHighestNonceReceived n d) = finalNonce d /\
  checkpointNonces (setHighestNonceReceived n d) = checkpointNonces d.
Proof. unfold setHighestNonceReceived. by destruct (_ <=? _). Qed.

Lemma shardInv_add env header hash st hs hashes d : rangesAll env -> shardInv None d ->
  st <> BHNotarized ->
  (st = BHProcessed -> (length hs <= length hashes)%nat /\
    forall h, header = Some h -> cpNonce (lastCheckpoint d) < GetNonce h) ->
  let d' := (addHeader (FD := shardForkDetector) env header hash st hs hashes d).1 in
  shardInv None d' /\ finalNonce d <= finalNonce d'.
Proof.
  intros Hr Hi Hst Hproc. cbv zeta.
  destruct (addHeader_cases (fd := shardForkDetector) env header hash st hs hashes d) as
    [(b & e & ->)|(h & hsh & b & -> & -> & _ & _ & _ & ->)].
  { split; [|done]. by apply (shardInv_same _ d). }
  set (d0 := setBlackList b d).
  assert (Hi0 : shardInv None (setHighestNonceReceived (GetNonce h) d0)) by (apply shardInv_highest; by apply (shardInv_same _ d)).
  destruct (setHighest_keeps (GetNonce h) d0) as [F0 C0]. change (finalNonce d0) with (finalNonce d) in F0.
  change (checkpointNonces d0) with (checkpointNonces d) in C0.
  destruct (receivedAs_run (fd := shardForkDetector) env h (Some hsh) st hs hashes d0) as
    [_|? _ _ _|st' d1 Hp Hp' Hst' E|d1 d2 r Est E1 E2]; simpl.
  - rewrite F0. done.
  - rewrite F0. done.
  - destruct (shardInv_append None None _ _ _ _ Hi0 E) as (Hi1 & F1 & _); [left|by left|].
    { simpl. by destruct Hst' as [->| ->]. }
    split; [by apply (shardInv_same _ d1)|]. change (finalNonce d <= finalNonce d1). lia.
  - destruct (Hproc Est) as [Hlen Hn]. specialize (Hn h eq_refl).
    destruct (shardInv_append None (Some (GetNonce h)) _ _ _ _ Hi0 E1) as (Hi1 & F1 & C1); [|by left|].
    { right. right. simpl. split; [|done]. rewrite F0. by apply final_below. }
    destruct (shardInv_job env h (Some hsh) hs hashes d1 Hr Hi1) as (d2' & E2' & Hi2 & Hle); [|done|].
    { rewrite C1, C0. by apply sorted_below. }
    change (shardJob env h (Some hsh) hs hashes d1 = (d2, r)) in E2. rewrite E2' in E2. injection E2 as <- <-. simpl.
    split; [by apply (shardInv_same _ d2')|]. change (finalNonce d <= finalNonce d2'). lia.
Qed.

Lemma shardInv_notarized env shardID hs hashes d : rangesAll env -> shardInv None d -> (length hs <= length hashes)%nat ->
  let d' := (ReceivedSelfNotarizedFromCrossHeaders env shardID hs hashes d).1 in
  shardInv None d' /\ finalNonce d <= finalNonce d'.
Proof.
  intros Hr Hi Hlen. unfold ReceivedSelfNotarizedFromCrossHeaders. destruct (_ =? _); [|done]. simpl. unfold bind.
  unfold appendSelfNotarizedHeaders. fold (finalNonce d).
  destruct (shardInv_appendSelf None hs hashes false d Hi Hlen) as (b & d1 & -> & Hi1 & F1 & C1).
  destruct (shardInv_final None env d1 Hr Hi1) as (Hi2 & Hle & _). destruct b; simpl; split; done || lia.
Qed.

Lemma shardInv_remove env n hash d : rangesAll env -> shardInv None d ->
  (forall h, h ∈ headersAt d n -> hiState h = BHProcessed -> raw (hiHash h) = raw hash) ->
  let d' := RemoveHeader (FD := shardForkDetector) env n hash d in
  shardInv None d' /\ finalNonce d <= finalNonce d'.
Proof.
  intros Hr Hi Hh. cbv zeta. unfold RemoveHeader. fold (finalNonce d).
  destruct (Z.leb_spec n (finalNonce d)) as [|Hn]; [done|].
  set (m := putOrDelete _ _ _). set (d1 := setHeaders m (removeCheckpointWithNonce n d)).
  assert (Hgone : forall k, processedAt d1 k -> processedAt d k /\ k <> n).
  { intros k (l & g & Hl & Hg & Hs). unfold d1, m in Hl. simpl in Hl. rewrite putOrDelete_lookup in Hl.
    destruct (decide (k = n)) as [->|Hk]; [|split; [by exists l, g|done]]. exfalso.
    set (l0 := filter _ _) in Hl. assert (Hin : g ∈ l0) by (destruct l0; [done|by injection Hl as <-]).
    unfold l0 in Hin. apply list_elem_of_filter in Hin as [Hin1 Hin2]. change (headersAt (removeCheckpointWithNonce n d) n) with (headersAt d n) in Hin2.
    rewrite Hs, (Hh g Hin2 Hs), beq_refl in Hin1. done. }
  assert (Hi1 : shardInv None d1).
  { destruct Hi as [I1 I2 I3 I4 I5].
    assert (Em : forall k, k <> n -> matchedAt d1 k = matchedAt d k).
    { intros k Hk. unfold matchedAt, d1, m. simpl. by rewrite putOrDelete_lookup, decide_False. }
    assert (Ec : forall k, k ∈ checkpointNonces d1 <-> k ∈ checkpointNonces d /\ (k =? n) = false)
      by (intros k; exact (checkpointNonces_filter (fun j => j =? n) (fkCheckpoint (fork d)) k)).
    change (finalNonce d) with (finalNonce d1) in *. split.
    - intros k q. intros E Hk. rewrite !Em in * by lia. by apply (I1 k q).
    - by apply (checkpoints_sorted_filter (fun c => cpNonce c =? n)).
    - left. apply Ec. split; [by destruct I3|]. apply Z.eqb_neq. lia.
    - intros k [Hk Hne]%Hgone Hle. left. apply Ec. split; [by destruct (I4 k Hk Hle)|by apply Z.eqb_neq].
    - rewrite Em by lia. exact I5. }
  destruct (shardInv_final None env d1 Hr Hi1) as (Hi2 & Hle & _). split; [|done].
  by apply (shardInv_same _ (shardFinalCheckpoint env d1)).
Qed.

Lemma shardInv_reset env d : rangesAll env -> shardInv None d ->
  shardInv None (ResetProbableHighestNonce env d) /\ finalNonce (ResetProbableHighestNonce env d) = finalNonce d.
Proof.
  intros Hr Hi. split; [|done]. set (k := cpNonce (lastCheckpoint d)).
  assert (Habove : forall n, k < n -> ~ processedAt d n).
  { intros n Hn Hp. pose proof (sorted_below d n Hi Hn) as Hf. rewrite Forall_forall in Hf.
    destruct (si_processed _ _ Hi n Hp) as [Hc|]; [pose proof (final_below d n Hi Hn); lia| |done]. specialize (Hf n Hc). simpl in Hf. lia. }
  apply (shardInv_same _ (cleanupReceivedHeadersHigherThanNonce env k d)); try done.
  assert (Em : forall n, matchedAt (cleanupReceivedHeadersHigherThanNonce env k d) n = matchedAt d n).
  { intros n. unfold matchedAt. rewrite cleanup_lookup by done. destruct (Z.leb_spec n k); [done|].
    apply matchedAt_keepOnly. intros l h Hl Hh [Hs|Hs]; [|done]. exfalso. apply (Habove n); [lia|]. by exists l, h. }
  eapply shardInv_headers; [exact Hi| |intros n Hn _; left|by left].
  - intros n _. apply Em.
  - destruct Hn as (l & h & Hl & Hh & Hs). change (headers (cleanupReceivedHeadersHigherThanNonce env k d) !! n = Some l) in Hl.
    rewrite cleanup_lookup in Hl by done. destruct (_ <=? _); [by exists l, h|].
    apply bind_Some in Hl as (l0 & Hl0 & [-> _]%keepOnly_some). apply list_elem_of_filter in Hh as [_ Hh]. by exists l0, h.
Qed.

Lemma CheckFork_detector env d :
  exists m v, (CheckFork env d).1 = setMaxForkHeaderEpoch m (onFork (withRollBack v) d).
Proof.
  unfold CheckFork. destruct (isConsensusStuck env d).
  { exists (maxForkHeaderEpoch d), (fkRollBackNonce (fork d)). by destruct d as [? []]. }
  destruct (_ <? _); [exists (maxForkHeaderEpoch d), MaxUint64; by destruct d|].
  assert (G : forall entries m info, exists m',
    (foldl (checkNonce (cpNonce (finalCheckpoint d))) (setMaxForkHeaderEpoch m d, info) entries).1 = setMaxForkHeaderEpoch m' d).
  { induction entries as [|[n l] entries IH]; intros m info; simpl; [by exists m|]. rewrite checkNonce_spec. apply IH. }
  destruct (G (mapRange env (headers d)) (maxForkHeaderEpoch d) NewForkInfo) as [m E].
  exists m, (fkRollBackNonce (fork d)).
  assert (E1 : setMaxForkHeaderEpoch (maxForkHeaderEpoch d) d = d) by by destruct d. rewrite E1 in E. rewrite E.
  by destruct d as [? []].
Qed.

End Finality.

(** ** Calls as steps *)

Lemma Forall_kept {A} (P Q : A -> Prop) `{forall x, Decision (P x)} l : Forall Q l -> Forall Q (filter P l).
Proof. rewrite !Forall_forall. intros Hq x [_ Hx]%list_elem_of_filter. auto. Qed.

Section Steps.
Context {H B : Type} `{HeaderHandler H} `{TimedHeader H} `{TimeCacher B}.
Implicit Types (d : baseForkDetector B) (env : detectorEnv B).

(** Any call of a detector, with any arguments. *)
Variant forkCall (fd : forkDetector H B) : baseForkDetector B -> baseForkDetector B -> Prop :=
| call_add env header hash st hs hashes d : rangesAll env ->
    forkCall fd d (addHeader (FD := fd) env header hash st hs hashes d).1
| call_notarized env shardID hs hashes d : rangesAll env ->
    forkCall fd d (ReceivedSelfNotarizedFromCrossHeaders env shardID hs hashes d).1
| call_remove env n hash d : rangesAll env -> forkCall fd d (RemoveHeader (FD := fd) env n hash d)
| call_check env d : forkCall fd d (CheckFork env d).1
| call_reset env d : rangesAll env -> forkCall fd d (ResetFork env d)
| call_reset_probable env d : rangesAll env -> forkCall fd d (ResetProbableHighestNonce env d)
| call_rollback n d : forkCall fd d (SetRollBackNonce n d)
| call_final d : forkCall fd d (SetFinalToLastCheckpoint d)
| call_genesis d : forkCall fd d (RestoreToGenesis d).

Lemma headersWf_call fd d d' : detectorKind fd -> forkCall fd d d' -> headersWf d -> headersWf d'.
Proof.
  intros Hk Hc Hw. destruct Hc as [env header hash st hs hashes d Hr|env shardID hs hashes d Hr|env n hash d Hr|env d|env d Hr|env d Hr|n d|d|d].
  - by apply headersWf_add.
  - unfold ReceivedSelfNotarizedFromCrossHeaders. destruct (_ =? _); simpl; [|done]. unfold bind.
    pose proof (headersWf_appendSelf (finalNonce d) hs hashes false d Hw) as Hw'.
    unfold appendSelfNotarizedHeaders. fold (finalNonce d).
    destruct (appendSelfLoop _ _ _ _ d) as [d1 [e|[|]]]; simpl; [done| |done]. by apply headersWf_final.
  - by apply headersWf_remove.
  - destruct (CheckFork_detector env d) as (m & v & ->). exact Hw.
  - apply (headersWf_same (ResetProbableHighestNonce env d)); [done|]. by apply headersWf_reset.
  - by apply headersWf_reset.
  - exact Hw.
  - exact Hw.
  - intros n l. simpl. by rewrite lookup_empty.
Qed.

(** The calls of the node of a shard: it processes blocks in the order of the chain, and
    removes the block it has processed when it goes back. *)
Variant shardCall : baseForkDetector B -> baseForkDetector B -> Prop :=
| shard_received env header hash st hs hashes d : rangesAll env -> st <> BHProcessed -> st <> BHNotarized ->
    shardCall d (addHeader (FD := shardForkDetector) env header hash st hs hashes d).1
| shard_processed env header hash hs hashes d : rangesAll env -> (length hs <= length hashes)%nat ->
    (forall h, header = Some h -> cpNonce (lastCheckpoint d) < GetNonce h) ->
    shardCall d (addHeader (FD := shardForkDetector) env header hash BHProcessed hs hashes d).1
| shard_notarized env shardID hs hashes d : rangesAll env -> (length hs <= length hashes)%nat ->
    shardCall d (ReceivedSelfNotarizedFromCrossHeaders env shardID hs hashes d).1
| shard_remove env n hash d : rangesAll env ->
    (forall h, h ∈ headersAt d n -> hiState h = BHProcessed -> raw (hiHash h) = raw hash) ->
    shardCall d (RemoveHeader (FD := shardForkDetector) env n hash d)
| shard_check env d : shardCall d (CheckFork env d).1
| shard_reset env d : rangesAll env -> shardCall d (ResetFork env d)
| shard_reset_probable env d : rangesAll env -> shardCall d (ResetProbableHighestNonce env d)
| shard_rollback n d : shardCall d (SetRollBackNonce n d).

Lemma shardCall_inv d d' : shardCall d d' -> shardInv None d -> shardInv None d' /\ finalNonce d <= finalNonce d'.
Proof.
  intros Hc Hi. destruct Hc as [env header hash st hs hashes d Hr S1 S2|env header hash hs hashes d Hr Hlen Hn|env shardID hs hashes d Hr Hlen|env n hash d Hr Hh|env d|env d Hr|env d Hr|n d].
  - by apply shardInv_add.
  - by apply shardInv_add.
  - by apply shardInv_notarized.
  - by apply shardInv_remove.
  - destruct (CheckFork_detector env d) as (m & v & ->). split; [by apply (shardInv_same _ d)|done].
  - destruct (shardInv_reset env d Hr Hi) as [Hi' F]. unfold ResetFork.
    split; [by apply (shardInv_same _ (ResetProbableHighestNonce env d))|].
    change (finalNonce d <= finalNonce (ResetProbableHighestNonce env d)). lia.
  - destruct (shardInv_reset env d Hr Hi) as [Hi' F]. split; [done|lia].
  - split; [by apply (shardInv_same _ d)|done].
Qed.

Lemma shardInv_new (g : H) (b : B) t : shardInv None (NewForkDetector g b t).
Proof.
  assert (Em : forall n, matchedAt (NewForkDetector g b t) n = None) by (intros; unfold matchedAt; simpl; by rewrite lookup_empty).
  split.
  - intros n q. by rewrite Em.
  - unfold checkpointNonces. simpl. repeat constructor.
  - left. unfold checkpointNonces. simpl. left.
  - intros n (l & h & Hl & _). simpl in Hl. by rewrite lookup_empty in Hl.
  - by left.
Qed.

Lemma shardCalls_inv d d' : rtc shardCall d d' -> shardInv None d -> shardInv None d' /\ finalNonce d <= finalNonce d'.
Proof.
  induction 1 as [d|d1 d2 d3 Hs _ IH]; intros Hi; [done|]. destruct (shardCall_inv d1 d2 Hs Hi) as [Hi2 Hle].
  destruct (IH Hi2) as [Hi3 Hle3]. split; [done|lia].
Qed.

(** ** The metachain

    The final block is one of the checkpoints, and those after it are not before it. *)
Definition smallNonce (n : Z) : Prop := 0 <= n < 2 ^ 63.
Definition metaInv d : Prop := exists l1 c l2, fkCheckpoint (fork d) = l1 ++ c :: l2 /\ cpNonce c = finalNonce d /\
  Forall (fun c' => finalNonce d <= cpNonce c') l2 /\ Forall (fun c' => smallNonce (cpNonce c')) (fkCheckpoint (fork d)).

Lemma metaInv_same d d' : fkCheckpoint (fork d') = fkCheckpoint (fork d) -> finalNonce d' = finalNonce d -> metaInv d -> metaInv d'.
Proof. intros E1 E2 (l1 & c & l2 & I). exists l1, c, l2. by rewrite E1, E2. Qed.

Lemma metaInv_last d : metaInv d -> exists l' c', fkCheckpoint (fork d) = l' ++ [c'] /\ lastCheckpoint d = c' /\
  finalNonce d <= cpNonce c' /\ smallNonce (finalNonce d).
Proof.
  intros (l1 & c & l2 & E & Ec & H2f & Hs). rewrite E in Hs.
  assert (Hsm : smallNonce (finalNonce d)) by (apply Forall_app in Hs as [_ [Hs _]%Forall_cons]; by rewrite <- Ec).
  unfold lastCheckpoint. rewrite E. destruct (snoc_or_nil l2) as [->|(l3 & z & ->)].
  - exists l1, c. rewrite last_snoc. split; [done|]. split; [done|]. split; [lia|done].
  - exists (l1 ++ c :: l3), z. assert (Eq : l1 ++ c :: l3 ++ [z] = (l1 ++ c :: l3) ++ [z]) by by rewrite <- app_assoc.
    rewrite Eq, last_snoc. split; [done|]. split; [done|]. split; [|done].
    apply Forall_app in H2f as [_ H2f]. apply Forall_cons in H2f as [H2f _]. exact H2f.
Qed.

Lemma metaInv_job env h hash hs hashes d : metaInv d -> smallNonce (GetNonce h) ->
  let d' := (metaJob env h hash hs hashes d).1 in metaInv d' /\ finalNonce d <= finalNonce d'.
Proof.
  intros Hi Hh. destruct (metaInv_last d Hi) as (l' & c' & E & Ec & Hle & _). simpl. rewrite Ec.
  split; [|exact Hle]. unfold metaInv. simpl. rewrite E.
  set (P := fun c : checkpointInfo => (cpNonce c <? cpNonce c') = false).
  change (filter _ ((l' ++ [c']) ++ [_])) with (filter P ((l' ++ [c']) ++ [mkCheckpointInfo (GetNonce h) (GetRound h) hash])).
  rewrite !filter_app. rewrite (filter_cons_True P c') by (unfold P; apply Z.ltb_irrefl). rewrite filter_nil.
  exists (filter P l'), c', (filter P [mkCheckpointInfo (GetNonce h) (GetRound h) hash]).
  split; [by rewrite <- app_assoc|]. split; [done|].
  destruct Hi as (l1 & c & l2 & E' & _ & _ & Hs). rewrite E in Hs. apply Forall_app in Hs as [Hs1 Hs2].
  split.
  - apply Forall_forall. intros x [Hx _]%list_elem_of_filter. unfold P in Hx. apply Z.ltb_ge in Hx. exact Hx.
  - apply Forall_app. split; [apply Forall_app; split; [by apply Forall_kept|done]|].
    apply Forall_kept. by apply Forall_singleton.
Qed.

Variant metaCall : baseForkDetector B -> baseForkDetector B -> Prop :=
| meta_add env header hash st hs hashes d : (forall h, header = Some h -> smallNonce (GetNonce h)) ->
    metaCall d (addHeader (FD := metaForkDetector) env header hash st hs hashes d).1
| meta_remove env n hash d : metaCall d (RemoveHeader (FD := metaForkDetector) env n hash d)
| meta_check env d : metaCall d (CheckFork env d).1
| meta_reset env d : metaCall d (ResetFork env d)
| meta_reset_probable env d : metaCall d (ResetProbableHighestNonce env d)
| meta_rollback n d : metaCall d (SetRollBackNonce n d)
| meta_final d : metaCall d (SetFinalToLastCheckpoint d).

Lemma append_fork i d : fork (append i d).1 = fork d.
Proof. by destruct (append_cases i d) as [[-> _]|[-> _]]. Qed.

Lemma metaCall_inv d d' : metaCall d d' -> metaInv d -> metaInv d' /\ finalNonce d <= finalNonce d'.
Proof.
  intros Hc Hi. destruct Hc as [env header hash st hs hashes d Hn|env n hash d|env d|env d|env d|n d|d].
  - destruct (addHeader_cases (fd := metaForkDetector) env header hash st hs hashes d) as
      [(b & e & ->)|(h & hsh & b & -> & -> & _ & _ & _ & ->)]; [split; [by apply (metaInv_same d)|done]|].
    assert (F0 : fkCheckpoint (fork (setHighestNonceReceived (GetNonce h) (setBlackList b d))) = fkCheckpoint (fork d) /\
      finalNonce (setHighestNonceReceived (GetNonce h) (setBlackList b d)) = finalNonce d)
      by (unfold setHighestNonceReceived; by destruct (_ <=? _)).
    destruct F0 as [C0 F0].
    destruct (receivedAs_run (fd := metaForkDetector) env h (Some hsh) st hs hashes (setBlackList b d)) as
      [_|? _ _ _|st' d1 _ _ _ E|d1 d2 r _ E1 E2]; simpl.
    + split; [by apply (metaInv_same d)|by rewrite F0].
    + split; [by apply (metaInv_same d)|by rewrite F0].
    + assert (Ef : fork d1 = fork (setHighestNonceReceived (GetNonce h) (setBlackList b d)))
        by (change d1 with (d1, true).1; rewrite <- E; apply append_fork).
      assert (F1 : finalNonce d1 = finalNonce d) by (unfold finalNonce, finalCheckpoint in *; by rewrite Ef).
      split; [apply (metaInv_same d); try done; simpl; by rewrite Ef|]. change (finalNonce d <= finalNonce d1). lia.
    + assert (Ef : fork d1 = fork (setHighestNonceReceived (GetNonce h) (setBlackList b d)))
        by (change d1 with (d1, true).1; rewrite <- E1; apply append_fork).
      assert (F1 : finalNonce d1 = finalNonce d) by (unfold finalNonce, finalCheckpoint in *; by rewrite Ef).
      assert (Hi1 : metaInv d1) by (apply (metaInv_same d); try done; by rewrite Ef).
      destruct (metaInv_job env h (Some hsh) hs hashes d1 Hi1 (Hn h eq_refl)) as [Hi2 Hle].
      change (metaJob env h (Some hsh) hs hashes d1 = (d2, r)) in E2. rewrite E2 in Hi2, Hle. simpl in Hi2, Hle.
      destruct r as [e|]; (split; [|change (finalNonce d <= finalNonce d2); lia]); [done|by apply (metaInv_same d2)].
  - unfold RemoveHeader. fold (finalNonce d). destruct (Z.leb_spec n (finalNonce d)) as [|Hlt]; [done|]. split; [|done].
    destruct Hi as (l1 & c & l2 & E & Ec & H2f & Hs). unfold metaInv. simpl. rewrite E in Hs |- *.
    rewrite filter_app, filter_cons_True by (apply Z.eqb_neq; lia). do 3 eexists. split; [done|]. split; [exact Ec|].
    split; [by apply Forall_kept|]. apply Forall_app in Hs as [Hs1 [Hs2 Hs3]%Forall_cons].
    apply Forall_app. split; [by apply Forall_kept|]. apply Forall_cons. split; [done|by apply Forall_kept].
  - destruct (CheckFork_detector env d) as (m & v & ->). split; [by apply (metaInv_same d)|done].
  - split; [by apply (metaInv_same d)|done].
  - split; [by apply (metaInv_same d)|done].
  - split; [by apply (metaInv_same d)|done].
  - destruct (metaInv_last d Hi) as (l' & c' & E & Ec & Hle & _). unfold SetFinalToLastCheckpoint. rewrite Ec.
    split; [|exact Hle]. destruct Hi as (l1 & c & l2 & E' & _ & _ & Hs). exists l', c', []. done.
Qed.

Lemma metaCalls_inv d d' : rtc metaCall d d' -> metaInv d -> metaInv d' /\ finalNonce d <= finalNonce d'.
Proof.
  induction 1 as [d|d1 d2 d3 Hs _ IH]; intros Hi; [done|]. destruct (metaCall_inv d1 d2 Hs Hi) as [Hi2 Hle].
  destruct (IH Hi2) as [Hi3 Hle3]. split; [done|lia].
Qed.

Lemma metaInv_new (g : H) (b : B) t : smallNonce (GetNonce g) -> metaInv (NewForkDetector g b t).
Proof.
  intros Hg. exists [], (mkCheckpointInfo (GetNonce g) (GetRound g) None), [].
  split; [done|]. split; [done|]. split; [apply Forall_nil_2|]. apply Forall_cons. split; [exact Hg|apply Forall_nil_2].
Qed.
End Steps.
