(* ===== verification/ForkResolve.v ===== *)
(** * A fork is resolved: when the node has removed its header and processed the one it was
    told to, that nonce is not signalled again. *)

From stdpp Require Import base list gmap.
From Stdlib Require Import ZArith Lia.
From S2P Require Import Prelude HeaderHandler ForkDetector ForkChoice ForkRun ForkFinality.

Section Choice.
Context {B : Type} `{TimeCacher B}.
Implicit Types (d : baseForkDetector B) (l : list headerInfo) (h g p x : headerInfo).

(** Headers with the bounds a block header has. *)
Definition soundHeader h : Prop := (hiState h <> BHNotarized -> 0 < hiRound h < MaxUint64) /\ 0 <= hiEpoch h.

Lemma forkIn_some d l r hsh : forkIn d l = Some (r, Some hsh) -> exists x g,
  x ∈ l /\ isProcessed x = true /\ raw (hiHash x) <> hsh /\
  g ∈ l /\ isProcessed g = false /\ live (atNonce d l) g = true /\ hiHash g = Some hsh /\ forkRound g = r /\
  forall h, h ∈ l -> isProcessed h = false -> live (atNonce d l) h = true -> choiceLess (asChoice h) (asChoice g) = false.
Proof.
  unfold forkIn. rewrite forkLoop_spec. destruct (last _) as [x|] eqn:Ex; [|done].
  apply last_Some_elem_of, list_elem_of_filter in Ex as [Hp Hx].
  set (c := foldl choose noChoice _). destruct (shouldSignalFork d x c) eqn:Es; [|done]. intros [= Er Eh].
  destruct (choose_spec (candidates (atNonce d l) l) noChoice) as [[E|E] Hle].
  { unfold c in Eh. rewrite E in Eh. done. }
  apply elem_of_candidates in E as (g & Hg & Hpg & Hlg & E). fold c in E, Hle. exists x, g. repeat (split; [done|]).
  split.
  { intros Heq. unfold shouldSignalFork in Es. destruct c as [[ch cr] ce]. simpl in *. subst ch.
    rewrite Heq in Es. simpl in Es. by rewrite beq_refl in Es. }
  rewrite E in Er, Eh. repeat (split; [done|]). intros h Hh Hph Hlh. rewrite <- E. apply Hle. right.
  apply elem_of_candidates. eauto.
Qed.

Lemma live_higher d d' l h : highestNonceReceived d <= highestNonceReceived d' ->
  live (atNonce d' l) h = true -> hiState h <> BHReceivedTooLate \/ highestNonceReceived d <= hiNonce h.
Proof.
  intros Hh. unfold live. intros [H1 _]%andb_true_iff. apply negb_true_iff, andb_false_iff in H1 as [H1|H1].
  - left. by apply bool_decide_eq_false in H1.
  - right. apply Z.ltb_ge in H1. simpl in H1. unfold atNonce, highestNonceReceived in *. simpl in *. lia.
Qed.

Lemma live_intro d l h : hiState h <> BHReceivedTooLate \/ highestNonceReceived d <= hiNonce h ->
  hiState h = BHNotarized \/ getMaxEpochFromHdrsInfo l <= hiEpoch h -> live (atNonce d l) h = true.
Proof.
  intros H1 H2. unfold live. apply andb_true_iff. split.
  - apply negb_true_iff, andb_false_iff. destruct H1 as [H1|H1]; [left; by apply bool_decide_eq_false|right].
    apply Z.ltb_ge. exact H1.
  - apply orb_true_iff. destruct H2 as [H2|H2]; [left; by apply bool_decide_eq_true|right]. by apply Z.leb_le.
Qed.

(** The list [l'] of the nonce when [p], a header with the hash of the fork, has been
    processed instead. *)
Record switched (l : list headerInfo) (hsh : bytes) (p : headerInfo) (l' : list headerInfo) : Prop := {
  sw_self : p ∈ l' /\ isProcessed p = true /\ raw (hiHash p) = hsh;
  sw_unique : forall h, h ∈ l' -> isProcessed h = true -> h = p;
  sw_rest : forall h, h ∈ l' -> isProcessed h = false -> h ∈ l \/ raw (hiHash h) = hsh;
  sw_notarized : forall h, h ∈ l -> hiState h = BHNotarized -> h ∈ l';
}.

Lemma forkIn_resolved d d' l l' r hsh p :
  forkIn d l = Some (r, Some hsh) -> switched l hsh p l' ->
  highestNonceReceived d <= highestNonceReceived d' ->
  (forall h, h ∈ l -> soundHeader h) -> soundHeader p ->
  (forall h, h ∈ l -> raw (hiHash h) = hsh -> hiState h <> BHNotarized -> hiRound h = hiRound p /\ hiEpoch h = hiEpoch p) ->
  forkIn d' l' = None.
Proof.
  intros Hf [(Hpl & Hpp & Hph) Hu Hrest Hnt] Hhigh Hs [Hpr Hpe] Hsame.
  destruct (forkIn_some d l r hsh Hf) as (x & g & _ & _ & _ & Hg & Hgp & Hgl & Hgh & _ & Hleast).
  assert (Hps : hiState p = BHProcessed) by by apply bool_decide_eq_true in Hpp.
  destruct Hpr as [Hpr0 Hpr]; [by rewrite Hps|].
  rewrite (forkIn_self d' l' p) by done. simpl.
  destruct (choose_spec (candidates (atNonce d' l') l') noChoice) as [[->|E] Hle]; [by rewrite no_signal_none by done|].
  apply elem_of_candidates in E as (h & Hh & Hhp & Hhl & E). rewrite E in Hle |- *.
  assert (X : shouldSignalFork d' p (asChoice h) = false); [|by rewrite X].
  destruct (decide (raw (hiHash h) = hsh)) as [Eh|Nh].
  { unfold shouldSignalFork. simpl. by rewrite Hph, Eh, beq_refl. }
  destruct (Hrest h Hh Hhp) as [Hhin|]; [|done].
  assert (Graw : raw (hiHash g) = hsh) by by rewrite Hgh.
  pose proof (live_higher d d' l' h Hhigh Hhl) as Hlate.
  destruct (decide (hiState g = BHNotarized)) as [Gn|Gn].
  - (* the fork header is notarized: it still wins *)
    exfalso. assert (Hgh2 : choiceLess (asChoice g) (asChoice h) = false).
    { apply Hle. right. apply elem_of_candidates. exists g. split; [by apply Hnt|]. split; [done|].
      split; [apply live_intro; [left; by rewrite Gn|by left]|done]. }
    destruct (decide (hiState h = BHNotarized)) as [Hn|Hn].
    + destruct (choiceLess_antisym (asChoice h) (asChoice g)) as [_ Eq]; [|done|].
      * apply Hleast; [done|done|]. apply live_intro; [left; by rewrite Hn|by left].
      * by apply Nh; rewrite <- Graw.
    + apply choiceLess_neg in Hgh2. simpl in Hgh2. unfold forkRound in Hgh2.
      rewrite (bool_decide_eq_true_2 _ Gn), (bool_decide_eq_false_2 _ Hn) in Hgh2.
      destruct (Hs h Hhin) as [Hr _]. specialize (Hr Hn). unfold MinForkRound in Hgh2. lia.
  - destruct (Hsame g Hg Graw Gn) as [Gr Ge].
    assert (Gmax : getMaxEpochFromHdrsInfo l <= hiEpoch g).
    { unfold live in Hgl. apply andb_true_iff in Hgl as [_ Hgl]. rewrite (bool_decide_eq_false_2 _ Gn) in Hgl.
      by apply Z.leb_le in Hgl. }
    pose proof (maxEpoch_ge l h Hhin) as Hhm. pose proof (maxEpoch_ge l' p Hpl) as Hpm.
    assert (Hlv : live (atNonce d l) h = true).
    { apply live_intro; [done|]. destruct (decide (hiState h = BHNotarized)) as [|Hn]; [by left|right].
      unfold live in Hhl. apply andb_true_iff in Hhl as [_ Hhl]. rewrite (bool_decide_eq_false_2 _ Hn) in Hhl.
      apply Z.leb_le in Hhl. simpl in Hhl. lia. }
    pose proof (Hleast h Hhin Hhp Hlv) as Hhg.
    apply no_signal_better; [right; simpl; lia|]. revert Hhg. rewrite !choiceLess_neg. simpl.
    assert (Gf : forkRound g = hiRound p) by (unfold forkRound; by rewrite (bool_decide_eq_false_2 _ Gn)).
    by rewrite Gf, Graw, Hph.
Qed.
End Choice.

Section Resolve.
Context {H B : Type} `{HeaderHandler H} `{TimedHeader H} `{TimeCacher B}.
Implicit Types (d : baseForkDetector B) (env : detectorEnv B) (l : list headerInfo).

Lemma headersAt_insert d n l k : headersAt (setHeaders (<[n := l]> (headers d)) d) k = if decide (k = n) then l else headersAt d k.
Proof.
  unfold headersAt. simpl. destruct (decide (k = n)) as [->|Hne]; [by rewrite lookup_insert_eq|by rewrite lookup_insert_ne].
Qed.

Lemma highest_mono n d : highestNonceReceived d <= highestNonceReceived (setHighestNonceReceived n d).
Proof.
  unfold setHighestNonceReceived. destruct (Z.leb_spec n (highestNonceReceived d)); [lia|].
  unfold highestNonceReceived in *. simpl. lia.
Qed.

(** [d'] has at [n] the headers of [d], and maybe notarized ones of the hash [hsh]. *)
Record extendsAt (n : Z) (hsh : bytes) d d' : Prop := {
  ea_highest : highestNonceReceived d' = highestNonceReceived d;
  ea_old : forall h, h ∈ headersAt d' n -> h ∈ headersAt d n \/ (hiState h = BHNotarized /\ raw (hiHash h) = hsh);
  ea_kept : forall h, h ∈ headersAt d n -> h ∈ headersAt d' n;
}.

Lemma extendsAt_trans n hsh d1 d2 d3 : extendsAt n hsh d1 d2 -> extendsAt n hsh d2 d3 -> extendsAt n hsh d1 d3.
Proof.
  intros [A1 A2 A3] [B1 B2 B3]. split; [congruence| |auto].
  intros h Hh. destruct (B2 h Hh) as [Hh'|]; [by apply A2|by right].
Qed.

Lemma extendsAt_same n hsh d d' : headers d' = headers d -> highestNonceReceived d' = highestNonceReceived d -> extendsAt n hsh d d'.
Proof. intros E E2. split; [done| |]; intros h; unfold headersAt; rewrite E; auto. Qed.

(** The headers of [hs] with the nonce [n] have the hash [hsh]. *)
Definition notarizeOnly (n : Z) (hsh : bytes) (hs : list H) (hashes : list slice) : Prop :=
  forall i h hash, hs !! i = Some h -> hashes !! i = Some hash -> GetNonce h = n -> raw hash = hsh.

Lemma append_extends i d n hsh : (hiNonce i = n -> hiState i = BHNotarized /\ raw (hiHash i) = hsh) ->
  extendsAt n hsh d (append i d).1.
Proof.
  intros Hi. destruct (append_cases i d) as [[-> _]|[-> _]]; [by apply extendsAt_same|].
  split; [done| |]; intros h; cbn [fst]; rewrite headersAt_insert; destruct (decide (n = hiNonce i)) as [->|]; auto.
  - intros [Hh| ->%list_elem_of_singleton]%elem_of_app; [by left|right; by apply Hi].
  - intros Hh. apply elem_of_app. by left.
Qed.

Lemma appendSelf_extends n hsh fin hs hashes added d d' b : notarizeOnly n hsh hs hashes ->
  appendSelfLoop fin hs hashes added d = (d', inr b) -> extendsAt n hsh d d'.
Proof.
  revert hashes added d. induction hs as [|h hs IH]; intros hashes added d Hn; cbn [appendSelfLoop].
  { intros [= <- _]. by apply extendsAt_same. }
  assert (Hn' : notarizeOnly n hsh hs (tail hashes)).
  { intros i h' hash' Hh' Hash'. apply (Hn (S i) h' hash'); [done|]. by destruct hashes. }
  destruct (_ <=? _); [by apply IH|]. destruct hashes as [|hash hashes]; [done|].
  pose proof (append_extends (mkHeaderInfo 0 (GetNonce h) (GetRound h) hash BHNotarized) d n hsh) as K.
  destruct (append _ d) as [d1 b1]. simpl in K. intros E. eapply extendsAt_trans; [|by apply (IH hashes _ _ Hn' E)].
  apply K. intros Hnn. split; [done|]. by apply (Hn 0%nat h).
Qed.

(** After the job the entry is the one before, extended, or it has been removed. *)
Definition settledAt (n : Z) (hsh : bytes) d d' : Prop :=
  highestNonceReceived d' = highestNonceReceived d /\
  (headers d' !! n = None \/
   (forall h, h ∈ headersAt d' n -> h ∈ headersAt d n \/ (hiState h = BHNotarized /\ raw (hiHash h) = hsh)) /\
   (forall h, h ∈ headersAt d n -> hiState h = BHProcessed \/ hiState h = BHNotarized -> h ∈ headersAt d' n)).

Lemma settled_past env n hsh d d0 : rangesAll env -> extendsAt n hsh d0 d -> settledAt n hsh d0 (removePastOrInvalidRecords env d).
Proof.
  intros Hr [A1 A2 A3]. split; [done|].
  assert (E : headers (removePastOrInvalidRecords env d) !! n =
    (if n <? finalNonce d then None else headers d !! n) ≫= keepOnly (fun h => isReceivedHeaderInvalid (finalCheckpoint d) h = false)).
  { change (headers (removePastOrInvalidRecords env d)) with (headers (removeInvalidReceivedHeaders env (removePastHeaders env d))).
    rewrite removeInvalid_lookup, removePastHeaders_lookup by done. done. }
  destruct (_ <? _); [by left|]. unfold headersAt at 1 4. rewrite E.
  destruct (headers d !! n) as [l|] eqn:El; simpl; [|by left].
  assert (Hl : headersAt d n = l) by (unfold headersAt; by rewrite El). rewrite Hl in *. right.
  assert (Hk : default [] (keepOnly (fun h => isReceivedHeaderInvalid (finalCheckpoint d) h = false) l) =
    filter (fun h => isReceivedHeaderInvalid (finalCheckpoint d) h = false) l)
    by (unfold keepOnly; by destruct (filter _ l)).
  rewrite Hk. split; intros h.
  - intros [_ Hh]%list_elem_of_filter. by apply A2.
  - intros Hh Hs. apply list_elem_of_filter. split; [|by apply A3].
    apply not_true_iff_false. intros [X|X]%received_invalid; rewrite X in Hs; by destruct Hs.
Qed.

Lemma settled_job fd env h hash hs hashes d d' n hsh : detectorKind fd -> rangesAll env -> notarizeOnly n hsh hs hashes ->
  doJobOnBHProcessed (forkDetector := fd) env h hash hs hashes d = (d', inr tt) -> settledAt n hsh d d'.
Proof.
  intros Hk Hr Hn. destruct Hk; simpl.
  - unfold shardJob, bind, appendSelfNotarizedHeaders.
    destruct (appendSelfLoop _ _ _ _ d) as [d1 [e|b]] eqn:E; [done|]. simpl. intros [= <-].
    apply settled_past; [done|]. eapply extendsAt_trans; [by eapply appendSelf_extends|].
    apply extendsAt_same; unfold shardFinalCheckpoint; by destruct (foldl _ _ _).
  - unfold metaJob, bind. simpl. intros [= <-]. apply settled_past; [done|]. by apply extendsAt_same.
Qed.

Lemma remove_at {fd} env n hash d : detectorKind fd -> finalNonce d < n ->
  headersAt (RemoveHeader (FD := fd) env n hash d) n =
    filter (fun h => (negb (bool_decide (hiState h = BHNotarized)) && beq (raw hash) (raw (hiHash h))) = false) (headersAt d n) /\
  highestNonceReceived (RemoveHeader (FD := fd) env n hash d) = highestNonceReceived d.
Proof.
  intros Hk Hn. unfold RemoveHeader. fold (finalNonce d). rewrite (proj2 (Z.leb_gt _ _)) by done.
  set (f := filter _ _). set (d1 := setHeaders _ _).
  assert (E : headersAt d1 n = f).
  { unfold headersAt, d1. simpl. rewrite putOrDelete_lookup, decide_True by done. fold f. by destruct f. }
  rewrite <- E. destruct Hk; simpl; [|done]. unfold shardFinalCheckpoint. by destruct (foldl _ _ _).
Qed.

(** The processed header of the nonce is removed and the one of the fork is processed. *)
Lemma fork_switched fd env env' h hsh hs hashes d d2 n l x :
  detectorKind fd -> rangesAll env' -> finalNonce d < n -> headersAt d n = l ->
  x ∈ l -> isProcessed x = true -> (forall y, y ∈ l -> isProcessed y = true -> y = x) -> raw (hiHash x) <> hsh ->
  GetNonce h = n -> notarizeOnly n hsh hs hashes ->
  addHeader (FD := fd) env' (Some h) (Some hsh) BHProcessed hs hashes (RemoveHeader (FD := fd) env n (hiHash x) d) = (d2, inr tt) ->
  highestNonceReceived d <= highestNonceReceived d2 /\
  (headers d2 !! n = None \/
   switched l hsh (mkHeaderInfo (GetEpoch h) n (GetRound h) (Some hsh) BHProcessed) (headersAt d2 n)).
Proof.
  intros Hk Hr Hn Hl Hx Hp Hu Hne Hhn Hnot. destruct (remove_at env n (hiHash x) d Hk Hn) as [Eat Ehigh].
  set (d1 := RemoveHeader _ _ _ d) in *. rewrite Hl in Eat.
  set (p := mkHeaderInfo (GetEpoch h) n (GetRound h) (Some hsh) BHProcessed).
  assert (Hunp : forall y, y ∈ headersAt d1 n -> isProcessed y = false /\ y ∈ l).
  { intros y. rewrite Eat. intros [Hf Hy]%list_elem_of_filter. split; [|done].
    destruct (isProcessed y) eqn:E; [|done]. rewrite (Hu y Hy E) in Hf.
    assert (Es : hiState x = BHProcessed) by by apply bool_decide_eq_true in Hp.
    rewrite Es, beq_refl in Hf. done. }
  destruct (addHeader_cases (fd := fd) env' (Some h) (Some hsh) BHProcessed hs hashes d1) as
    [(b & e & ->)|(h' & hsh' & b & [= <-] & [= <-] & _ & _ & _ & ->)]; [done|].
  pose proof (highest_mono (GetNonce h) (setBlackList b d1)) as Hmono.
  destruct (receivedAs_run (fd := fd) env' h (Some hsh) BHProcessed hs hashes (setBlackList b d1)) as
    [|st' _ Hst' E|st' d3 _ Hst|d3 d4 r _ E1 E2]; try done.
  - (* it cannot be there already *)
    exfalso. destruct Hst' as [->|[_ ?]]; [|done].
    destruct (append_cases (mkHeaderInfo (GetEpoch h) (GetNonce h) (GetRound h) (Some hsh) BHProcessed)
      (setHighestNonceReceived (GetNonce h) (setBlackList b d1))) as [[_ (g & Hg & Hs)]|[E' _]]; [|by rewrite E' in E].
    simpl in Hg. rewrite Hhn in Hg.
    assert (Hg' : g ∈ headersAt d1 n) by (unfold setHighestNonceReceived in Hg; by destruct (_ <=? _)).
    apply Hunp in Hg' as [Hg' _]. unfold isStored in Hs. apply andb_true_iff in Hs as [_ Hs]. simpl in Hs.
    unfold isProcessed in Hg'. by rewrite Hg' in Hs.
  - destruct r as [e|[]]; [done|]. intros [= <-].
    destruct (append_cases (mkHeaderInfo (GetEpoch h) (GetNonce h) (GetRound h) (Some hsh) BHProcessed)
      (setHighestNonceReceived (GetNonce h) (setBlackList b d1))) as [[E' _]|[E' _]]; rewrite E' in E1; [done|].
    simpl in E1. rewrite Hhn in E1. injection E1 as E1.
    assert (Eat3 : headersAt d3 n = headersAt d1 n ++ [p]).
    { rewrite <- E1, headersAt_insert, decide_True by done. unfold setHighestNonceReceived. by destruct (_ <=? _). }
    assert (Eh3 : highestNonceReceived d <= highestNonceReceived d3).
    { rewrite Hhn in Hmono. change (highestNonceReceived (setBlackList b d1)) with (highestNonceReceived d1) in Hmono.
      assert (X : highestNonceReceived d3 = highestNonceReceived (setHighestNonceReceived n (setBlackList b d1))) by by rewrite <- E1.
      lia. }
    destruct (settled_job fd env' h (Some hsh) hs hashes d3 d4 n hsh Hk Hr Hnot E2) as [Eh4 Hset].
    change (headers (setProbableHighestNonce (computeProbableHighestNonce env' d4) d4)) with (headers d4).
    change (headersAt (setProbableHighestNonce (computeProbableHighestNonce env' d4) d4) n) with (headersAt d4 n).
    split; [change (highestNonceReceived d <= highestNonceReceived d4); lia|].
    destruct Hset as [|[Hold Hkept]]; [by left|right]. rewrite Eat3 in Hold, Hkept.
    assert (Hother : forall g, g ∈ headersAt d4 n -> g = p \/ isProcessed g = false /\ (g ∈ l \/ raw (hiHash g) = hsh)).
    { intros g Hg. destruct (Hold g Hg) as [[Hg'| ->%list_elem_of_singleton]%elem_of_app|[Hg' Hg2]]; [|by left|].
      - right. destruct (Hunp g Hg') as [? ?]. auto.
      - right. unfold isProcessed. rewrite Hg'. auto. }
    split.
    + split; [|done]. apply Hkept; [|by left]. apply elem_of_app. right. by apply list_elem_of_singleton.
    + intros g Hg Hgp. destruct (Hother g Hg) as [|[Hgn _]]; [done|congruence].
    + intros g Hg Hgp. destruct (Hother g Hg) as [->|[_ ?]]; [done|done].
    + intros g Hg Hgn. apply Hkept; [|by right]. apply elem_of_app. left. rewrite Eat.
      apply list_elem_of_filter. by rewrite Hgn.
Qed.
End Resolve.
