(* ===== verification/Bootstrap.v ===== *)
(** * The synchronization of a node: process/sync/baseSync.go, with the parts of
    shardblock.go and metablock.go it calls, over the chain handler of
    dataRetriever/blockchain.

    The bootstrapper asks the fork detector whether the node is on a fork, goes back on the
    chain when it is, and processes the next block.  The block processor, the pools, the
    storages and the network are a state [W] with the operations of [Surroundings]; what
    they do to the chain and to the detector is only in [CommitBlock]. *)

From stdpp Require Import base list gmap.
From Stdlib Require Import ZArith Lia.
From S2P Require Import Prelude HeaderHandler ForkDetector.

Definition MaxSyncWithErrorsAllowed : Z := 10.

(** What the bootstrapper uses of a header beyond [HeaderHandler]. *)
Class SyncHeader (H : Type) := {
  HasScheduledMiniBlocks : H -> bool;
  GetRootHash : H -> slice;
}.

(** common.NodeState *)
Inductive NodeState := NsSynchronized | NsNotSynchronized | NsNotCalculated.

(** ** The chain handler *)

Section Chain.
Context {H : Type}.

Record blockChain := mkBlockChain {
  genesisHeader : H;
  currentBlockHeader : option H;
  currentBlockHeaderHash : slice;
  currentBlockRootHash : slice;
}.

Definition SetCurrentBlockHeaderAndRootHash (header : option H) (rootHash : slice) (c : blockChain) : blockChain :=
  match header with
  | None => mkBlockChain (genesisHeader c) None (currentBlockHeaderHash c) None
  | Some h => mkBlockChain (genesisHeader c) (Some h) (currentBlockHeaderHash c) (Some (raw rootHash))
  end.

Definition SetCurrentBlockHeaderHash (hash : slice) (c : blockChain) : blockChain :=
  mkBlockChain (genesisHeader c) (currentBlockHeader c) hash (currentBlockRootHash c).
End Chain.
Arguments blockChain : clear implicits.

Section Bootstrap.
Context {H B W Body Err : Type} `{HeaderHandler H} `{TimedHeader H} `{SyncHeader H} `{TimeCacher B}.
Context {FD : forkDetector H B}.

Class Surroundings := {
  (* storages and pools *)
  storedHeader : slice -> Err + H;
  calculateHash : H -> option bytes;
  getBlockBody : H -> W -> option Body;
  RemoveHeaderByHash : bytes -> W -> W;
  RemoveHeadersHigherThanNonce : Z -> W -> W;
  RemoveNonceHash : Z -> W -> W;
  SaveLastRound : Z -> W -> W;
  (* the scheduled transactions *)
  GetScheduledRootHashForHeader : slice -> W -> option slice;
  GetScheduledRootHash : W -> slice;
  RollBackToBlock : slice -> SE W Err unit;
  SetScheduledInfo : slice -> W -> W;
  (* the block processor *)
  RevertStateToBlock : H -> slice -> SE W Err unit;
  PruneStateOnRollback : H -> slice -> H -> slice -> W -> W;
  RestoreBlockIntoPools : H -> option Body -> SE W Err unit;
  NonceOfFirstCommittedBlock : W -> option Z;
  ProcessBlock : H -> Body -> SE W Err unit;
  ProcessScheduledBlock : H -> Body -> SE W Err unit;
  CommitBlock : H -> Body -> SE (blockChain H * baseForkDetector B * W) Err unit;
  (* history and outport *)
  RevertBlock : H -> option Body -> SE W Err unit;
  RevertIndexedBlock : H -> slice -> option Body -> W -> W;
  (* network *)
  IsConnectedToTheNetwork : W -> bool;
  EpochIsActiveInNetwork : Z -> W -> bool;
  getHeaderWithHashRequestingIfMissing : bytes -> SE W Err H;
  getHeaderWithNonceRequestingIfMissing : Z -> SE W Err H;
  getBlockBodyRequestingIfMissing : H -> SE W Err Body;
  isTimeOut : Err -> bool;
  (* configuration *)
  isInImportMode : bool;
  isShardNode : bool;
}.
Context `{Surroundings}.

Inductive bootErr :=
| ErrNilBlockHeader
| ErrRollBackBehindFinalHeader
| ErrRollBackBehindForkNonce
| ErrOuter (e : Err).

Record baseBootstrap := mkBootstrap {
  bbDetector : baseForkDetector B;
  bbChain : blockChain H;
  bbWorld : W;
  bbForkInfo : ForkInfo;
  bbIsNodeSynchronized : bool;
  bbIsNodeStateCalculated : bool;
  bbHasLastBlock : bool;
  bbRoundIndex : Z;
  bbNonceSyncedWithErrors : gmap Z Z;
}.
Implicit Types (s : baseBootstrap) (env : detectorEnv B).
Abbreviation Boot := (SE baseBootstrap bootErr).

(** ** Fields *)

Definition onDetector (f : baseForkDetector B -> baseForkDetector B) s : baseBootstrap :=
  mkBootstrap (f (bbDetector s)) (bbChain s) (bbWorld s) (bbForkInfo s) (bbIsNodeSynchronized s) (bbIsNodeStateCalculated s) (bbHasLastBlock s) (bbRoundIndex s) (bbNonceSyncedWithErrors s).
Definition onChain (f : blockChain H -> blockChain H) s : baseBootstrap :=
  mkBootstrap (bbDetector s) (f (bbChain s)) (bbWorld s) (bbForkInfo s) (bbIsNodeSynchronized s) (bbIsNodeStateCalculated s) (bbHasLastBlock s) (bbRoundIndex s) (bbNonceSyncedWithErrors s).
Definition onWorld (f : W -> W) s : baseBootstrap :=
  mkBootstrap (bbDetector s) (bbChain s) (f (bbWorld s)) (bbForkInfo s) (bbIsNodeSynchronized s) (bbIsNodeStateCalculated s) (bbHasLastBlock s) (bbRoundIndex s) (bbNonceSyncedWithErrors s).
Definition setNodeState (info : ForkInfo) (synchronized calculated hasLast : bool) (round : Z) s : baseBootstrap :=
  mkBootstrap (bbDetector s) (bbChain s) (bbWorld s) info synchronized calculated hasLast round (bbNonceSyncedWithErrors s).
Definition setNotCalculated s : baseBootstrap :=
  setNodeState (bbForkInfo s) (bbIsNodeSynchronized s) false (bbHasLastBlock s) (bbRoundIndex s) s.
Definition onErrors (f : gmap Z Z -> gmap Z Z) s : baseBootstrap :=
  mkBootstrap (bbDetector s) (bbChain s) (bbWorld s) (bbForkInfo s) (bbIsNodeSynchronized s) (bbIsNodeStateCalculated s) (bbHasLastBlock s) (bbRoundIndex s) (f (bbNonceSyncedWithErrors s)).

(** An operation of the surroundings. *)
Definition outer {A} (m : SE W Err A) : Boot A := fun s =>
  let '(w, r) := m (bbWorld s) in
  (onWorld (fun _ => w) s, match r with inl e => inl (ErrOuter e) | inr a => inr a end).

Definition GetCurrentBlockHeader s : option H := currentBlockHeader (bbChain s).

Definition getNonceForNextBlock s : Z :=
  match GetCurrentBlockHeader s with
  | Some h => u64 (GetNonce h + 1)
  | None => u64 (GetNonce (genesisHeader (bbChain s)) + 1)
  end.
Definition getNonceForCurrentBlock s : Z :=
  match GetCurrentBlockHeader s with Some h => GetNonce h | None => GetNonce (genesisHeader (bbChain s)) end.
Definition getEpochOfCurrentBlock s : Z :=
  match GetCurrentBlockHeader s with Some h => GetEpoch h | None => GetEpoch (genesisHeader (bbChain s)) end.

(** ** The state of the node *)

Definition computeNodeState env : baseBootstrap -> baseBootstrap := fun s =>
  if (bbRoundIndex s =? Index env) && bbIsNodeStateCalculated s then s
  else
    let '(d, info) := CheckFork env (bbDetector s) in
    let s := onDetector (fun _ => d) s in
    let hasLast := match GetCurrentBlockHeader s with
                   | None => ProbableHighestNonce d =? GetNonce (genesisHeader (bbChain s))
                   | Some h => ProbableHighestNonce d <=? GetNonce h
                   end in
    let synchronized := negb (IsDetected info) && hasLast && IsConnectedToTheNetwork (bbWorld s) in
    setNodeState info synchronized true hasLast (Index env) s.

Definition GetNodeState env s : NodeState :=
  if isInImportMode then NsNotSynchronized
  else if negb (EpochIsActiveInNetwork (getEpochOfCurrentBlock s) (bbWorld s)) then NsNotSynchronized
  else if negb ((bbRoundIndex s =? Index env) && bbIsNodeStateCalculated s) then NsNotCalculated
  else if bbIsNodeSynchronized s then NsSynchronized else NsNotSynchronized.

Definition isForcedRollBackOneBlock s : bool :=
  IsDetected (bbForkInfo s) && (fiNonce (bbForkInfo s) =? MaxUint64) && bool_decide (fiHash (bbForkInfo s) = None).
Definition isForcedRollBackToNonce s : bool :=
  IsDetected (bbForkInfo s) && (fiRound (bbForkInfo s) =? MaxUint64) && bool_decide (fiHash (bbForkInfo s) = None).
Definition isForkTriggeredByMeta s : bool :=
  isShardNode && IsDetected (bbForkInfo s) && negb (fiNonce (bbForkInfo s) =? MaxUint64) &&
  (fiRound (bbForkInfo s) =? MinForkRound) && negb (bool_decide (fiHash (bbForkInfo s) = None)).

(** ** Going back *)

Definition setCurrentBlockInfo (headerHash : slice) (header : option H) (rootHash : slice) : baseBootstrap -> baseBootstrap :=
  onChain (fun c => SetCurrentBlockHeaderHash headerHash (SetCurrentBlockHeaderAndRootHash header rootHash c)).

(** The hash, or nil when it cannot be computed. *)
Definition removeHeaderFromPools (header : H) : baseBootstrap -> baseBootstrap * slice := fun s =>
  match calculateHash header with
  | None => (s, None)
  | Some hash => (onWorld (RemoveHeaderByHash hash) s, Some hash)
  end.

Definition cleanCachesAndStorageOnRollback env (header : H) : baseBootstrap -> baseBootstrap := fun s =>
  let '(s, hash) := removeHeaderFromPools header s in
  let s := onDetector (RemoveHeader env (GetNonce header) hash) s in
  onWorld (RemoveNonceHash (GetNonce header)) s.

Definition getRootHashFromBlock (hdr : H) (hdrHash : slice) s : slice :=
  match GetScheduledRootHashForHeader hdrHash (bbWorld s) with Some root => root | None => GetRootHash hdr end.

(** [RollBackToBlock], and the default information when it fails. *)
Definition rollBackScheduled (hash rootHash : slice) : baseBootstrap -> baseBootstrap := fun s =>
  match RollBackToBlock hash (bbWorld s) with
  | (w, inr _) => onWorld (fun _ => w) s
  | (w, inl _) => onWorld (fun _ => SetScheduledInfo rootHash w) s
  end.

Definition restoreState (currHeaderHash : slice) (currHeader : H) (currRootHash : slice) : baseBootstrap -> baseBootstrap := fun s =>
  let s := onChain (fun c => SetCurrentBlockHeaderHash currHeaderHash
             (SetCurrentBlockHeaderAndRootHash (Some currHeader) currRootHash c)) s in
  let s := rollBackScheduled currHeaderHash (GetRootHash currHeader) s in
  (outer (RevertStateToBlock currHeader (GetScheduledRootHash (bbWorld s))) s).1.

Definition rollBackOneBlock env (currHeaderHash : slice) (currHeader : H) (prevHeaderHash : slice) (prevHeader : H) :
    Boot (option Body) := fun s =>
  let prevHeaderRootHash := getRootHashFromBlock prevHeader prevHeaderHash s in
  let currHeaderRootHash := getRootHashFromBlock currHeader currHeaderHash s in
  let steps :=
    modify (if 1 <? GetNonce currHeader then setCurrentBlockInfo prevHeaderHash (Some prevHeader) prevHeaderRootHash
            else setCurrentBlockInfo None None None) ;;
    outer (RevertStateToBlock prevHeader prevHeaderRootHash) ;;
    modify (onWorld (PruneStateOnRollback currHeader currHeaderHash prevHeader prevHeaderHash)) ;;
    let! currBlockBody := gets (fun s => getBlockBody currHeader (bbWorld s)) in
    outer (RestoreBlockIntoPools currHeader currBlockBody) ;;
    modify (cleanCachesAndStorageOnRollback env currHeader) ;;
    ret currBlockBody in
  match steps s with
  | (s, inl e) => (restoreState currHeaderHash currHeader currHeaderRootHash s, inl e)
  | r => r
  end.

Definition canRollbackBlock (currHeader : H) s : bool :=
  match NonceOfFirstCommittedBlock (bbWorld s) with Some v => v <=? GetNonce currHeader | None => false end.

Definition shouldAllowRollback (currHeader : H) (currHeaderHash : slice) s : bool :=
  let finalBlockNonce := GetHighestFinalBlockNonce (bbDetector s) in
  let finalBlockHash := GetHighestFinalBlockHash (bbDetector s) in
  let isRollBackBehindFinal := GetNonce currHeader <=? finalBlockNonce in
  let isFinalBlockRollBack := GetNonce currHeader =? finalBlockNonce in
  let headerHashDoesNotMatchWithFinalBlockHash := negb (beq (raw currHeaderHash) (raw finalBlockHash)) in
  let allowFinalBlockRollBack :=
    (HasScheduledMiniBlocks currHeader || headerHashDoesNotMatchWithFinalBlockHash) && isFinalBlockRollBack &&
    canRollbackBlock currHeader s in
  negb isRollBackBehindFinal || allowFinalBlockRollBack.

(** What rollBack does when it returns before a block was rolled back. *)
Definition nothingRolledBack (executed : bool) (currHeaderHash : slice) (currHeader : option H) : baseBootstrap -> baseBootstrap := fun s =>
  if executed then s
  else rollBackScheduled currHeaderHash (GetRootHash (default (genesisHeader (bbChain s)) currHeader)) s.

(** What rollBack does after a block was rolled back. *)
Definition blockRolledBack env (revertUsingForkNonce : bool) (currHeaderHash : slice) (currHeader : H)
    (prevHeaderHash : slice) (prevHeader : H) (currBody : option Body) : Boot unit :=
  modify (onWorld (SaveLastRound (i64 (GetRound prevHeader)))) ;;
  outer (RevertBlock currHeader currBody) ;;
  modify (rollBackScheduled prevHeaderHash (GetRootHash prevHeader)) ;;
  modify (onWorld (RevertIndexedBlock currHeader currHeaderHash currBody)) ;;
  modify (fun s => if revertUsingForkNonce && isForkTriggeredByMeta s
                   then onDetector (AddHeaderToBlackList env currHeaderHash) s else s).

(** The loop of rollBack; [None] when the fuel does not suffice. *)
Fixpoint rollBackLoop (fuel : nat) env (revertUsingForkNonce executed : bool) s : option (baseBootstrap * (bootErr + unit)) :=
  match fuel with
  | O => None
  | S fuel =>
      let currHeaderHash := currentBlockHeaderHash (bbChain s) in
      match GetCurrentBlockHeader s with
      | None => Some (nothingRolledBack executed currHeaderHash None s, inl ErrNilBlockHeader)
      | Some currHeader =>
          if negb revertUsingForkNonce && negb (shouldAllowRollback currHeader currHeaderHash s) then
            Some (nothingRolledBack executed currHeaderHash (Some currHeader) s, inl ErrRollBackBehindFinalHeader)
          else if revertUsingForkNonce && (GetNonce currHeader <? fiNonce (bbForkInfo s)) then
            Some (nothingRolledBack executed currHeaderHash (Some currHeader) s, inl ErrRollBackBehindForkNonce)
          else match storedHeader (GetPrevHash currHeader) with
          | inl e => Some (nothingRolledBack executed currHeaderHash (Some currHeader) s, inl (ErrOuter e))
          | inr prevHeader =>
              match rollBackOneBlock env currHeaderHash currHeader (GetPrevHash currHeader) prevHeader s with
              | (s, inl e) => Some (s, inl e)
              | (s, inr currBody) =>
                  match blockRolledBack env revertUsingForkNonce currHeaderHash currHeader (GetPrevHash currHeader) prevHeader currBody s with
                  | (s, inl e) => Some (s, inl e)
                  | (s, inr _) =>
                      if revertUsingForkNonce && (fiNonce (bbForkInfo s) <? GetNonce currHeader)
                      then rollBackLoop fuel env revertUsingForkNonce true s
                      else Some (s, inr tt)
                  end
              end
          end
      end
  end.

(** As many turns as the current block has ancestors, and one more. *)
Definition rollBackFuel s : nat := S (S (Z.to_nat (getNonceForCurrentBlock s))).
Definition rollBack env (revertUsingForkNonce : bool) : Boot unit := fun s =>
  default (s, inr tt) (rollBackLoop (rollBackFuel s) env revertUsingForkNonce false s).

Definition rollBackOneBlockForced env : baseBootstrap -> baseBootstrap := fun s =>
  let s := (rollBack env false s).1 in
  let s := onDetector (ResetFork env) s in
  onWorld (RemoveHeadersHigherThanNonce (getNonceForCurrentBlock s)) s.

Definition rollBackToNonceForced env : baseBootstrap -> baseBootstrap := fun s =>
  let s := (rollBack env true s).1 in
  let s := onDetector (ResetProbableHighestNonce env) s in
  onWorld (RemoveHeadersHigherThanNonce (getNonceForCurrentBlock s)) s.

(** ** The next block *)

Definition incrementSyncedWithErrorsForNonce (nonce : Z) : baseBootstrap -> baseBootstrap * Z := fun s =>
  let n := u32 (default 0 (bbNonceSyncedWithErrors s !! nonce) + 1) in
  (onErrors (insert nonce n) s, n).

Definition doJobOnSyncBlockFail env (body : option Body) (header : option H) (err : bootErr) : baseBootstrap -> baseBootstrap := fun s =>
  let processBlockStarted := match body, header with Some _, Some _ => true | _, _ => false end in
  let isProcessWithError := processBlockStarted && negb (match err with ErrOuter e => isTimeOut e | _ => false end) in
  let '(s, numSyncedWithErrors) := incrementSyncedWithErrorsForNonce (getNonceForNextBlock s) s in
  let limitReached := (MaxSyncWithErrorsAllowed <=? numSyncedWithErrors) && IsInProperRound (Index env) in
  if isProcessWithError || limitReached then
    let s := match header with
             | Some h => let '(s, hash) := removeHeaderFromPools h s in onDetector (RemoveHeader env (GetNonce h) hash) s
             | None => s
             end in
    let s := (rollBack env false s).1 in
    if limitReached then
      let s := onDetector (ResetProbableHighestNonce env) s in
      onWorld (RemoveHeadersHigherThanNonce (getNonceForCurrentBlock s)) s
    else s
  else s.

Definition cleanNoncesSyncedWithErrorsBehindFinal : baseBootstrap -> baseBootstrap := fun s =>
  let finalNonce := GetHighestFinalBlockNonce (bbDetector s) in
  onErrors (fun m => filter (fun '(nonce, _) => (nonce <? finalNonce) = false) m) s.

Definition getNextHeaderRequestingIfMissing : Boot H := fun s =>
  let nonce := getNonceForNextBlock s in
  let hash := if IsDetected (bbForkInfo s) then fiHash (bbForkInfo s) else GetNotarizedHeaderHash (bbDetector s) nonce in
  match hash with
  | Some hash => outer (getHeaderWithHashRequestingIfMissing hash) s
  | None => outer (getHeaderWithNonceRequestingIfMissing nonce) s
  end.

Definition commitNext (header : H) (body : Body) : Boot unit := fun s =>
  match CommitBlock header body (bbChain s, bbDetector s, bbWorld s) with
  | (c, d, w, r) =>
      (onWorld (fun _ => w) (onDetector (fun _ => d) (onChain (fun _ => c) s)),
       match r with inl e => inl (ErrOuter e) | inr a => inr a end)
  end.

(** The part of syncBlock after the forks, with the handling of its errors. *)
Definition syncNextBlock env : Boot unit := fun s =>
  match getNextHeaderRequestingIfMissing s with
  | (s, inl e) => (doJobOnSyncBlockFail env None None e s, inl e)
  | (s, inr header) =>
      match outer (getBlockBodyRequestingIfMissing header) s with
      | (s, inl e) => (doJobOnSyncBlockFail env None (Some header) e s, inl e)
      | (s, inr body) =>
          match (outer (ProcessBlock header body) ;; outer (ProcessScheduledBlock header body) ;; commitNext header body) s with
          | (s, inl e) => (doJobOnSyncBlockFail env (Some body) (Some header) e s, inl e)
          | (s, inr _) => (cleanNoncesSyncedWithErrorsBehindFinal s, inr tt)
          end
      end
  end.

Definition syncBlock env : Boot unit := fun s =>
  let s := computeNodeState env s in
  match GetNodeState env s with
  | NsNotSynchronized =>
      let '(s, r) :=
        (if negb (IsDetected (bbForkInfo s)) then syncNextBlock env s
         else if isForcedRollBackOneBlock s then (rollBackOneBlockForced env s, inr tt)
         else if isForcedRollBackToNonce s then (rollBackToNonceForced env s, inr tt)
         else match rollBack env true s with
              | (s, inl e) => (s, inl e)
              | (s, inr _) => syncNextBlock env s
              end) in
      (setNotCalculated s, r)
  | _ => (s, inr tt)
  end.

(** A header that comes from the network. *)
Definition processReceivedHeader env (selfId : Z) (header : H) (headerHash : slice) : baseBootstrap -> baseBootstrap := fun s =>
  if negb (selfId =? GetShardID header) then s
  else onDetector (fun d => (addHeader env (Some header) headerHash BHReceived [] [] d).1) s.
End Bootstrap.
Arguments Surroundings : clear implicits.
Arguments baseBootstrap : clear implicits.
Arguments bootErr : clear implicits.
