(* ===== verification/BootstrapRun.v ===== *)
(** * Going back on the chain: the loop of rollBack ends, stops below the fork and not
    earlier, and does not pass it. *)

From stdpp Require Import base list gmap.
From Stdlib Require Import ZArith Lia.
From S2P Require Import Prelude HeaderHandler ForkDetector Bootstrap.

Section Run.
Context {H B W Body Err : Type} `{HeaderHandler H} `{TimedHeader H} `{SyncHeader H} `{TimeCacher B}.
Context {FD : forkDetector H B} {Su : Surroundings H B W Body Err}.
Implicit Types (s : baseBootstrap H B W) (env : detectorEnv B) (h p : H).

(** The stored ancestors of a header have the nonces before it. *)
Inductive linked : H -> Prop :=
| linked_intro h : 0 <= GetNonce h ->
    (forall p, storedHeader (GetPrevHash h) = inr p -> GetNonce p + 1 = GetNonce h /\ linked p) -> linked h.

Lemma linked_nonce h : linked h -> 0 <= GetNonce h.
Proof. by destruct 1. Qed.

Lemma linked_prev h p : linked h -> storedHeader (GetPrevHash h) = inr p -> GetNonce p + 1 = GetNonce h /\ linked p.
Proof. destruct 1 as [h _ Hp]. apply Hp. Qed.

(** ** One turn *)

(** The chain and the fork that was found are the same. *)
Definition sameView s s' : Prop := bbChain s' = bbChain s /\ bbForkInfo s' = bbForkInfo s.

Lemma sameView_trans s1 s2 s3 : sameView s1 s2 -> sameView s2 s3 -> sameView s1 s3.
Proof. intros [A1 A2] [B1 B2]. split; congruence. Qed.

Lemma outer_view {A} (m : SE W Err A) s : sameView s (outer m s).1.
Proof. unfold outer. by destruct (m (bbWorld s)). Qed.

Lemma scheduled_view hash root s : sameView s (rollBackScheduled hash root s).
Proof. unfold rollBackScheduled. by destruct (RollBackToBlock hash (bbWorld s)) as [w [|]]. Qed.

Lemma nothing_view executed hash oh s : sameView s (nothingRolledBack executed hash oh s).
Proof. unfold nothingRolledBack. destruct executed; [done|apply scheduled_view]. Qed.

Lemma clean_view env h s : sameView s (cleanCachesAndStorageOnRollback env h s).
Proof. unfold cleanCachesAndStorageOnRollback, removeHeaderFromPools. by destruct (calculateHash h). Qed.

Lemma restoreState_view hash h root s :
  GetCurrentBlockHeader (restoreState hash h root s) = Some h /\ bbForkInfo (restoreState hash h root s) = bbForkInfo s.
Proof.
  unfold restoreState. set (s1 := onChain _ s). set (s2 := rollBackScheduled hash (GetRootHash h) s1).
  destruct (scheduled_view hash (GetRootHash h) s1) as [C1 F1].
  destruct (outer_view (RevertStateToBlock h (GetScheduledRootHash (bbWorld s2))) s2) as [C2 F2].
  unfold GetCurrentBlockHeader. rewrite C2, F2. unfold s2. by rewrite C1, F1.
Qed.

(** The state after the chain is at the previous block. *)
Definition atPrev h p (prevHash : slice) (root : slice) s : baseBootstrap H B W :=
  (if 1 <? GetNonce h then setCurrentBlockInfo prevHash (Some p) root else setCurrentBlockInfo None None None) s.

Lemma atPrev_header h p prevHash root s :
  GetCurrentBlockHeader (atPrev h p prevHash root s) = (if 1 <? GetNonce h then Some p else None) /\
  bbForkInfo (atPrev h p prevHash root s) = bbForkInfo s.
Proof. unfold atPrev. by destruct (1 <? GetNonce h). Qed.

(** A rolled back block leaves the chain at the one before, and an error leaves it there. *)
Lemma rollBackOneBlock_header env hash h prevHash p s :
  match rollBackOneBlock env hash h prevHash p s with
  | (s', inl _) => GetCurrentBlockHeader s' = Some h /\ bbForkInfo s' = bbForkInfo s
  | (s', inr _) => GetCurrentBlockHeader s' = (if 1 <? GetNonce h then Some p else None) /\ bbForkInfo s' = bbForkInfo s
  end.
Proof.
  unfold rollBackOneBlock. set (root := getRootHashFromBlock p prevHash s).
  set (cur := getRootHashFromBlock h hash s). unfold bind at 1. cbn [modify].
  fold (atPrev h p prevHash root s). destruct (atPrev_header h p prevHash root s) as [C0 F0].
  set (s0 := atPrev h p prevHash root s) in *. unfold bind at 1.
  destruct (outer (RevertStateToBlock p root) s0) as [s1 [e|u]] eqn:E1.
  { destruct (restoreState_view hash h cur s1) as [C F]. split; [done|]. rewrite F.
    destruct (outer_view (RevertStateToBlock p root) s0) as [_ F1]. rewrite E1 in F1. simpl in F1. congruence. }
  destruct (outer_view (RevertStateToBlock p root) s0) as [C1 F1]. rewrite E1 in C1, F1. simpl in C1, F1.
  unfold bind at 1. cbn [modify]. set (s2 := onWorld _ s1). unfold bind at 1. cbn [gets]. unfold bind at 1.
  destruct (outer (RestoreBlockIntoPools h (getBlockBody h (bbWorld s2))) s2) as [s3 [e|u3]] eqn:E3;
    destruct (outer_view (RestoreBlockIntoPools h (getBlockBody h (bbWorld s2))) s2) as [C3 F3]; rewrite E3 in C3, F3; simpl in C3, F3.
  { destruct (restoreState_view hash h cur s3) as [C F]. split; [done|]. rewrite F. congruence. }
  unfold bind at 1. cbn [modify ret].
  destruct (clean_view env h s3) as [C4 F4]. unfold GetCurrentBlockHeader in *. split; [|congruence]. rewrite C4, C3, C1. exact C0.
Qed.

Lemma blockRolledBack_view env useFork hash h prevHash p body s :
  sameView s (blockRolledBack env useFork hash h prevHash p body s).1.
Proof.
  unfold blockRolledBack. unfold bind at 1. cbn [modify]. set (s0 := onWorld _ s).
  unfold bind at 1. destruct (outer (RevertBlock h body) s0) as [s1 r] eqn:E1.
  assert (V1 : sameView s s1) by (change s1 with (s1, r).1; rewrite <- E1; eapply sameView_trans; [|apply outer_view]; done).
  destruct r as [e|u]; [done|]. unfold bind, modify. simpl.
  eapply sameView_trans; [exact V1|]. set (s2 := rollBackScheduled _ _ s1).
  assert (V2 : sameView s1 s2) by apply scheduled_view.
  destruct (useFork && _); (eapply sameView_trans; [exact V2|done]).
Qed.

(** ** The loop ends *)

Definition turnsLeft s : nat := match GetCurrentBlockHeader s with Some h => S (S (Z.to_nat (GetNonce h))) | None => 1%nat end.

Lemma rollBackLoop_some fuel env useFork executed s :
  (forall h, GetCurrentBlockHeader s = Some h -> linked h) -> (turnsLeft s <= fuel)%nat ->
  rollBackLoop fuel env useFork executed s <> None.
Proof.
  revert executed s. induction fuel as [|fuel IH]; intros executed s Hl Hf.
  { unfold turnsLeft in Hf. destruct (GetCurrentBlockHeader s); lia. }
  cbn [rollBackLoop]. unfold turnsLeft in Hf. destruct (GetCurrentBlockHeader s) as [h|]; [|done].
  destruct (_ && _); [done|]. destruct (_ && _); [done|].
  destruct (storedHeader (GetPrevHash h)) as [e|p] eqn:Ep; [done|].
  pose proof (rollBackOneBlock_header env (currentBlockHeaderHash (bbChain s)) h (GetPrevHash h) p s) as Hone.
  destruct (rollBackOneBlock _ _ _ _ _ s) as [s1 [e|body]]; [done|]. destruct Hone as [C1 _].
  pose proof (blockRolledBack_view env useFork (currentBlockHeaderHash (bbChain s)) h (GetPrevHash h) p body s1) as [C2 _].
  destruct (blockRolledBack _ _ _ _ _ _ _ s1) as [s2 [e|u]]; [done|]. simpl in C2.
  destruct (_ && _); [|done].
  assert (C3 : GetCurrentBlockHeader s2 = if 1 <? GetNonce h then Some p else None) by (unfold GetCurrentBlockHeader in *; by rewrite C2).
  destruct (linked_prev h p (Hl h eq_refl) Ep) as [Hn Hlp]. pose proof (linked_nonce p Hlp) as Hpn.
  apply IH.
  - intros h' E. rewrite C3 in E. destruct (1 <? GetNonce h); [|done]. by injection E as <-.
  - unfold turnsLeft. rewrite C3. destruct (1 <? GetNonce h); lia.
Qed.

(** ** The loop does not pass the fork *)

(** The current block of [s] is not below the one before [n]. *)
Definition notBelow (n : Z) s : Prop :=
  match GetCurrentBlockHeader s with Some h => n - 1 <= GetNonce h | None => n <= 1 end.

Lemma notBelow_view n s s' : sameView s s' -> notBelow n s -> notBelow n s'.
Proof. intros [C _]. unfold notBelow, GetCurrentBlockHeader. by rewrite C. Qed.

Lemma rollBackLoop_floor fuel env executed s s' r :
  (forall h, GetCurrentBlockHeader s = Some h -> linked h) ->
  rollBackLoop fuel env true executed s = Some (s', r) -> notBelow (fiNonce (bbForkInfo s)) s ->
  notBelow (fiNonce (bbForkInfo s)) s'.
Proof.
  revert executed s. induction fuel as [|fuel IH]; intros executed s Hl; [done|]. cbn [rollBackLoop].
  destruct (GetCurrentBlockHeader s) as [h|] eqn:Eh.
  2:{ intros [= <- <-]. apply notBelow_view, nothing_view. }
  simpl negb. cbn [andb]. destruct (Z.ltb_spec (GetNonce h) (fiNonce (bbForkInfo s))) as [|Hge].
  { intros [= <- <-]. apply notBelow_view, nothing_view. }
  destruct (storedHeader (GetPrevHash h)) as [e|p] eqn:Ep.
  { intros [= <- <-]. apply notBelow_view, nothing_view. }
  destruct (linked_prev h p (Hl h eq_refl) Ep) as [Hn Hlp].
  pose proof (rollBackOneBlock_header env (currentBlockHeaderHash (bbChain s)) h (GetPrevHash h) p s) as Hone.
  destruct (rollBackOneBlock _ _ _ _ _ s) as [s1 [e|body]]; destruct Hone as [C1 F1].
  { intros [= <- <-] _. unfold notBelow. rewrite C1. lia. }
  pose proof (blockRolledBack_view env true (currentBlockHeaderHash (bbChain s)) h (GetPrevHash h) p body s1) as [C2 F2].
  destruct (blockRolledBack _ _ _ _ _ _ _ s1) as [s2 r2]. simpl in C2, F2.
  assert (C3 : GetCurrentBlockHeader s2 = if 1 <? GetNonce h then Some p else None) by (unfold GetCurrentBlockHeader in *; by rewrite C2).
  assert (F3 : bbForkInfo s2 = bbForkInfo s) by congruence.
  assert (Hs2 : notBelow (fiNonce (bbForkInfo s)) s2).
  { unfold notBelow. rewrite C3. destruct (Z.ltb_spec 1 (GetNonce h)); lia. }
  destruct r2 as [e|u]; [by intros [= <- <-]|]. rewrite F3.
  destruct (fiNonce (bbForkInfo s) <? GetNonce h); [|intros E _; inversion E; by subst]. intros E _. rewrite <- F3 in Hs2 |- *. apply (IH true s2); [|done|done].
  intros h' E'. rewrite C3 in E'. destruct (1 <? GetNonce h); [|done]. by injection E' as <-.
Qed.

(** ** The loop reaches the block below the fork *)

(** The blocks from [h] down to the last one before [p]. *)
Inductive chainDown : list H -> H -> Prop :=
| down_one h p : storedHeader (GetPrevHash h) = inr p -> chainDown [h] p
| down_more h h' l p : storedHeader (GetPrevHash h) = inr h' -> chainDown (h' :: l) p -> chainDown (h :: h' :: l) p.

(** The surroundings do not fail. *)
Record calm : Prop := {
  calm_revert : forall h root w, (RevertStateToBlock h root w).2 = inr tt;
  calm_restore : forall h (body : option Body) w, (RestoreBlockIntoPools h body w).2 = inr tt;
  calm_history : forall h (body : option Body) w, (RevertBlock h body w).2 = inr tt;
}.

Lemma outer_calm {A} (m : SE W Err A) s a : (m (bbWorld s)).2 = inr a -> exists s', outer m s = (s', inr a).
Proof. intros E. unfold outer. destruct (m (bbWorld s)) as [w r]. simpl in E. subst r. by eexists. Qed.

Lemma rollBackOneBlock_calm env hash h prevHash p s : calm ->
  exists s' body, rollBackOneBlock env hash h prevHash p s = (s', inr body).
Proof.
  intros [C1 C2 _]. unfold rollBackOneBlock. set (root := getRootHashFromBlock p prevHash s).
  unfold bind at 1. cbn [modify]. fold (atPrev h p prevHash root s). set (s0 := atPrev _ _ _ _ s). unfold bind at 1.
  destruct (outer_calm (RevertStateToBlock p root) s0 tt) as [s1 ->]; [apply C1|].
  unfold bind at 1. cbn [modify]. set (s2 := onWorld _ s1). unfold bind at 1. cbn [gets]. unfold bind at 1.
  destruct (outer_calm (RestoreBlockIntoPools h (getBlockBody h (bbWorld s2))) s2 tt) as [s3 ->]; [apply C2|].
  unfold bind at 1. cbn [modify ret]. eauto.
Qed.

Lemma blockRolledBack_calm env useFork hash h prevHash p body s : calm ->
  exists s', blockRolledBack env useFork hash h prevHash p body s = (s', inr tt).
Proof.
  intros [_ _ C3]. unfold blockRolledBack. unfold bind at 1. cbn [modify]. set (s0 := onWorld _ s).
  unfold bind at 1. destruct (outer_calm (RevertBlock h body) s0 tt) as [s1 ->]; [apply C3|]. unfold bind, modify. eauto.
Qed.

Lemma rollBackLoop_reaches env l p : calm -> chainDown l p ->
  forall executed s top, GetCurrentBlockHeader s = Some top -> head l = Some top ->
  (forall h, last l = Some h -> GetNonce h = fiNonce (bbForkInfo s)) ->
  (forall i h, l !! i = Some h -> GetNonce h = GetNonce top - Z.of_nat i) -> 0 < fiNonce (bbForkInfo s) ->
  forall fuel, (length l <= fuel)%nat -> exists s',
    rollBackLoop fuel env true executed s = Some (s', inr tt) /\
    GetCurrentBlockHeader s' = (if 1 <? fiNonce (bbForkInfo s) then Some p else None).
Proof.
  intros Hcalm Hdown.
  induction Hdown as [h p Ep|h h' l p Ep Hd IH]; intros executed s top Hcur [= <-] Hlast Hnon Hpos fuel Hf;
    (destruct fuel as [|fuel]; [simpl in Hf; lia|]); cbn [rollBackLoop]; rewrite Hcur; simpl negb; cbn [andb].
  - specialize (Hlast h eq_refl). rewrite (proj2 (Z.ltb_ge _ _)) by lia. rewrite Ep.
    pose proof (rollBackOneBlock_header env (currentBlockHeaderHash (bbChain s)) h (GetPrevHash h) p s) as Hone.
    destruct (rollBackOneBlock_calm env (currentBlockHeaderHash (bbChain s)) h (GetPrevHash h) p s Hcalm) as (s1 & body & E1).
    rewrite E1 in Hone |- *. destruct Hone as [C1 F1].
    pose proof (blockRolledBack_view env true (currentBlockHeaderHash (bbChain s)) h (GetPrevHash h) p body s1) as [C2 F2].
    destruct (blockRolledBack_calm env true (currentBlockHeaderHash (bbChain s)) h (GetPrevHash h) p body s1 Hcalm) as [s2 E2].
    rewrite E2 in C2, F2 |- *. simpl in C2, F2. rewrite F2, F1, Hlast, Z.ltb_irrefl. eexists. split; [done|].
    unfold GetCurrentBlockHeader in *. by rewrite C2, C1, Hlast.
  - assert (Hbig : fiNonce (bbForkInfo s) < GetNonce h).
    { destruct (last (h' :: l)) as [b|] eqn:El; [|by apply last_None in El].
      rewrite <- (Hlast b); [|by rewrite <- El].
      rewrite last_lookup in El. specialize (Hnon (S (pred (length (h' :: l)))) b El). lia. }
    rewrite (proj2 (Z.ltb_ge _ _)) by lia. rewrite Ep.
    pose proof (rollBackOneBlock_header env (currentBlockHeaderHash (bbChain s)) h (GetPrevHash h) h' s) as Hone.
    destruct (rollBackOneBlock_calm env (currentBlockHeaderHash (bbChain s)) h (GetPrevHash h) h' s Hcalm) as (s1 & body & E1).
    rewrite E1 in Hone |- *. destruct Hone as [C1 F1].
    pose proof (blockRolledBack_view env true (currentBlockHeaderHash (bbChain s)) h (GetPrevHash h) h' body s1) as [C2 F2].
    destruct (blockRolledBack_calm env true (currentBlockHeaderHash (bbChain s)) h (GetPrevHash h) h' body s1 Hcalm) as [s2 E2].
    rewrite E2 in C2, F2 |- *. simpl in C2, F2.
    assert (F3 : bbForkInfo s2 = bbForkInfo s) by congruence. rewrite F3, (proj2 (Z.ltb_lt _ _)) by done.
    assert (C3 : GetCurrentBlockHeader s2 = Some h').
    { unfold GetCurrentBlockHeader in *. by rewrite C2, C1, (proj2 (Z.ltb_lt 1 _)) by lia. }
    destruct (IH true s2 h' C3 eq_refl) with (fuel := fuel) as (s' & E & C).
    + intros b Hb. rewrite F3. by apply Hlast.
    + intros i b Hb. rewrite (Hnon (S i) b Hb). pose proof (Hnon 1%nat h' eq_refl). lia.
    + by rewrite F3.
    + simpl in *. lia.
    + exists s'. rewrite F3 in C. done.
Qed.
End Run.
