(* ===== verification/ForkTheorems.v ===== *)
(** * What the fork detector and the synchronization guarantee: the fork with the least nonce
    is found whatever the order of the map, nodes that know the same headers go to the same
    one, a fork that was found is resolved, the final nonce does not go back, and going
    back on the chain ends at the fork and not below the final block. *)

From stdpp Require Import base list gmap relations.
From Stdlib Require Import ZArith Lia.
From S2P Require Import Prelude HeaderHandler ForkDetector ForkChoice ForkRun ForkFinality.
From S2P Require Import ForkFinality ForkResolve Bootstrap BootstrapRun.

(** ** The fork choice *)

Section Choice.
Context {B : Type} `{TimeCacher B}.
Implicit Types (d : baseForkDetector B) (env : detectorEnv B).

Lemma forkAt_above d n : forkAt d n <> None -> finalNonce d < n /\ exists l, headers d !! n = Some l /\ forkAt d n = forkIn d l.
Proof.
  unfold forkAt. destruct (headers d !! n) as [l|]; [|done]. destruct (_ =? 1); simpl; [done|].
  destruct (Z.leb_spec n (cpNonce (finalCheckpoint d))); [done|]. intros _. split; [done|by exists l].
Qed.

(** The search gives the fork with the least nonce, or none when there is none. *)
Lemma CheckFork_search env d : rangesAll env -> isConsensusStuck env d = false -> getRollBackNonce d = MaxUint64 ->
  (forall n l, headers d !! n = Some l -> n < MaxUint64) ->
  let info := (CheckFork env d).2 in
  (info = NewForkInfo /\ forall n, forkAt d n = None) \/
  (exists n r h, info = mkForkInfo true n r h /\ forkAt d n = Some (r, h) /\ forall n', forkAt d n' <> None -> n <= n').
Proof.
  intros Hr Hs Hb Hn. unfold CheckFork. rewrite Hs, Hb. simpl. specialize (Hr (headers d)).
  destruct (checkLoop_spec d (mapRange env (headers d))) as (m & _ & L).
  { intros n l Hin. apply (ranged_elem (headers d)) in Hin; [|done]. eauto. }
  destruct L as [[-> L]|(n & r & h & -> & F & _ & L)].
  - left. split; [done|]. intros n. destruct (forkAt d n) as [p|] eqn:E; [|done].
    destruct (forkAt_above d n) as [_ (l & Hl & _)]; [by rewrite E|]. rewrite <- E. apply (L n l). by apply (ranged_elem (headers d)).
  - right. exists n, r, h. split; [done|]. split; [done|]. intros n' Hn'.
    destruct (forkAt_above d n' Hn') as [_ (l & Hl & _)]. apply (L n' l); [by apply (ranged_elem (headers d))|done].
Qed.

(** when the node is neither stuck nor told to go back, CheckFork finds the fork with
    the least nonce, always above the final one, and finds the same in whatever order Go
    walks the map of headers. *)
Theorem CheckFork_lowest_fork env env' d : rangesAll env -> rangesAll env' -> Index env' = Index env ->
  isConsensusStuck env d = false -> getRollBackNonce d = MaxUint64 ->
  (forall n l, headers d !! n = Some l -> n < MaxUint64) ->
  let info := (CheckFork env d).2 in
  (CheckFork env' d).2 = info /\
  (info = NewForkInfo /\ (forall n, forkAt d n = None) \/
   exists r h, info = mkForkInfo true (fiNonce info) r h /\ GetHighestFinalBlockNonce d < fiNonce info /\
     forkAt d (fiNonce info) = Some (r, h) /\ forall n, forkAt d n <> None -> fiNonce info <= n).
Proof.
  intros Hr Hr' Hi Hs Hb Hn.
  assert (Hs' : isConsensusStuck env' d = false) by (unfold isConsensusStuck in *; by rewrite Hi).
  pose proof (CheckFork_search env d Hr Hs Hb Hn) as S1. pose proof (CheckFork_search env' d Hr' Hs' Hb Hn) as S2.
  cbv zeta in *. destruct S1 as [[-> N1]|(n1 & r1 & h1 & -> & F1 & L1)].
  - destruct S2 as [[-> _]|(n2 & r2 & h2 & _ & F2 & _)]; [|by rewrite N1 in F2]. split; [done|]. by left.
  - destruct S2 as [[_ N2]|(n2 & r2 & h2 & -> & F2 & L2)]; [by rewrite N2 in F1|].
    assert (n1 = n2) as ->. { pose proof (L1 n2 ltac:(by rewrite F2)). pose proof (L2 n1 ltac:(by rewrite F1)). lia. }
    rewrite F1 in F2. injection F2 as <- <-. split; [done|]. right. exists r1, h1. split; [done|].
    split; [apply forkAt_above; simpl; by rewrite F1|done].
Qed.

(** C12: nodes that have received the same headers of a nonce, and have each processed one of
    them, go to the same header: the one of the highest epoch, then of the lowest round,
    then of the lowest hash.  The node that has processed it is not told to change; every
    other is told to change to it, except when only the hash decides and a header with a
    higher nonce is there already. *)
Theorem fork_choice_converges d n l L x w :
  headers d !! n = Some l -> GetHighestFinalBlockNonce d < n ->
  commonHeaders n L -> x ∈ L -> sees L x l -> preferred L w ->
  forkAt d n =
    if decide (x = w) then None
    else if (hiEpoch x <? hiEpoch w) || (hiRound w <? hiRound x) || negb (n <? highestNonceReceived d)
    then Some (hiRound w, hiHash w) else None.
Proof.
  intros Hl Hn HL Hx Hsee Hw. destruct (decide (x = w)) as [E|Hne].
  - rewrite (forkAt_entry d n l Hl). destruct (_ || _); [done|]. by apply (forkIn_preferred n L x w).
  - assert (Hwl : w ∈ l) by (destruct (sees_all _ _ _ Hsee w (proj1 Hw)) as [| ->]; done).
    rewrite (forkAt_in d n l (asProcessed x) w); [|done|done|apply Hsee|done|].
    2:{ intros E. pose proof (proj1 (ch_received _ _ HL w (proj1 Hw))) as Hst. rewrite <- E in Hst. done. }
    rewrite (forkIn_self d l (asProcessed x)); [|apply Hsee|done|].
    2:{ by apply (seen_processed n L). }
    simpl. rewrite (choice_preferred n L x w) by done. rewrite (signal_preferred n L x w) by done.
    rewrite (asChoice_received n L) by (done || apply Hw). done.
Qed.

(** A header the metachain has notarized is preferred to all others of its nonce: a node
    that has processed another one is told to change to it, and is told so with round 0,
    which is how the synchronization knows that the metachain decided. *)
Theorem notarized_header_wins d n l x w :
  headers d !! n = Some l -> GetHighestFinalBlockNonce d < n -> notarizedIn l w ->
  x ∈ l -> hiState x = BHProcessed -> (forall h, h ∈ l -> hiState h = BHProcessed -> h = x) ->
  forkAt d n = if beq (raw (hiHash x)) (raw (hiHash w)) then None else Some (MinForkRound, hiHash w).
Proof.
  intros Hl Hn Hw Hx Hs Hu.
  assert (Hp : forall h, isProcessed h = true <-> hiState h = BHProcessed) by (intros; apply bool_decide_eq_true).
  rewrite (forkAt_in d n l x w); [|done|done|done|apply Hw|intros ->; pose proof (nt_state _ _ Hw); congruence].
  rewrite (forkIn_self d l x); [|done|by apply Hp|intros h Hh ?%Hp; by apply Hu]. simpl.
  pose proof (notarized_choice (atNonce d l) l w Hw) as Hc. cbv zeta in Hc.
  set (c := foldl choose noChoice _) in *. rewrite (signal_notarized d x c); [|by apply (nt_rounds _ _ Hw); congruence|by rewrite Hc].
  rewrite Hc. simpl. by destruct (beq _ _).
Qed.
End Choice.

(** ** Runs of calls *)

Section Runs.
Context {H B : Type} `{HeaderHandler H} `{TimedHeader H} `{TimeCacher B}.
Implicit Types (d : baseForkDetector B) (env : detectorEnv B).

(** C27: whatever calls are made, with whatever arguments, the headers stay well formed: each
    is in the entry of its nonce, no entry is empty, a hash is there at most once in each
    state, and a header that was only proposed is never there. *)
Theorem headers_well_formed fd (g : H) (b : B) t d :
  detectorKind fd -> rtc (forkCall fd) (NewForkDetector g b t) d -> headersWf d.
Proof.
  intros Hk Hc. assert (G : headersWf (NewForkDetector g b t)) by (intros n l; simpl; by rewrite lookup_empty).
  revert G. induction Hc as [d|d1 d2 d3 Hs _ IH]; [done|]. intros Hw. apply IH. by eapply headersWf_call.
Qed.

(** C26: a fork that was found is resolved: once the node has removed the block it had
    processed and has processed the one it was told to, there is no fork at that nonce,
    whatever was notarized or received with a higher nonce in between. *)
Theorem fork_resolved fd env env' d d2 n r hsh l x h hs hashes :
  detectorKind fd -> rangesAll env' -> forkAt d n = Some (r, Some hsh) -> headers d !! n = Some l ->
  x ∈ l -> hiState x = BHProcessed -> (forall y, y ∈ l -> hiState y = BHProcessed -> y = x) ->
  (forall y, y ∈ l -> soundHeader y) -> GetNonce h = n -> 0 < GetRound h < MaxUint64 -> 0 <= GetEpoch h ->
  (forall y, y ∈ l -> raw (hiHash y) = hsh -> hiState y <> BHNotarized -> hiRound y = GetRound h /\ hiEpoch y = GetEpoch h) ->
  notarizeOnly n hsh hs hashes ->
  addHeader (FD := fd) env' (Some h) (Some hsh) BHProcessed hs hashes (RemoveHeader (FD := fd) env n (hiHash x) d) = (d2, inr tt) ->
  forkAt d2 n = None.
Proof.
  intros Hk Hr Hf Hl Hx Hs Hu Hsound Hn Hround Hepoch Hsame Hnot Hadd.
  destruct (forkAt_above d n) as [Habove (l' & Hl' & Ef)]; [by rewrite Hf|].
  rewrite Hl in Hl'. injection Hl' as <-. rewrite Hf in Ef. symmetry in Ef.
  assert (Hp : forall y, isProcessed y = true <-> hiState y = BHProcessed) by (intros; apply bool_decide_eq_true).
  destruct (forkIn_some d l r hsh Ef) as (x' & g & Hx' & Hpx & Hne & _).
  rewrite (Hu x' Hx' (proj1 (Hp _) Hpx)) in Hne.
  destruct (fork_switched fd env env' h hsh hs hashes d d2 n l x) as [Hhigh Hsw]; try done.
  { unfold headersAt. by rewrite Hl. }
  { by apply Hp. }
  { intros y Hy ?%Hp. by apply Hu. }
  destruct (headers d2 !! n) as [l2|] eqn:El2; [|unfold forkAt; by rewrite El2].
  rewrite (forkAt_entry d2 n l2 El2). destruct (_ || _); [done|].
  destruct Hsw as [|Hsw]; [done|]. unfold headersAt in Hsw. rewrite El2 in Hsw. simpl in Hsw.
  eapply (forkIn_resolved d d2 l l2); [exact Ef|exact Hsw|done|done|by split|done].
Qed.

(** C13: in a shard, as long as the node processes blocks in the order of the chain and removes
    those it goes back on, the final nonce never decreases, and the final block is the
    genesis block or one that the node has processed and the metachain has notarized. *)
Theorem shard_final_monotone (g : H) (b : B) t d d' :
  rtc shardCall (NewForkDetector g b t) d -> rtc shardCall d d' ->
  GetHighestFinalBlockNonce d <= GetHighestFinalBlockNonce d' /\
  (finalCheckpoint d' = genesisCheckpoint d' \/
   exists processed notarized, processed ∈ headersAt d' (GetHighestFinalBlockNonce d') /\ hiState processed = BHProcessed /\
     notarized ∈ headersAt d' (GetHighestFinalBlockNonce d') /\ hiState notarized = BHNotarized /\
     raw (hiHash processed) = raw (GetHighestFinalBlockHash d') /\ hiHash notarized = GetHighestFinalBlockHash d').
Proof.
  intros Hnew Hc. destruct (shardCalls_inv _ _ Hnew (shardInv_new g b t)) as [Hi _].
  destruct (shardCalls_inv _ _ Hc Hi) as [Hi' Hle]. split; [done|].
  destruct (si_source _ _ Hi') as [|(q & Hq & Hh)]; [by left|right].
  apply bind_Some in Hq as (l & Hl & Hq). apply matchedIn_states in Hq as (p & Hp & Sp & Hq & Sq & E).
  exists p, q. change (GetHighestFinalBlockNonce d') with (finalNonce d'). unfold headersAt. rewrite Hl. simpl.
  repeat (split; [done|]). unfold GetHighestFinalBlockHash. rewrite Hh. by rewrite E.
Qed.

(** on the metachain the final nonce never decreases, whatever calls are made. *)
Theorem meta_final_monotone (g : H) (b : B) t d d' : smallNonce (GetNonce g) ->
  rtc metaCall (NewForkDetector g b t) d -> rtc metaCall d d' ->
  GetHighestFinalBlockNonce d <= GetHighestFinalBlockNonce d'.
Proof.
  intros Hg Hnew Hc. destruct (metaCalls_inv _ _ Hnew (metaInv_new g b t Hg)) as [Hi _].
  apply (metaCalls_inv _ _ Hc Hi).
Qed.
End Runs.

(** ** Going back on the chain *)

Section Synchronization.
Context {H B W Body Err : Type} `{HeaderHandler H} `{TimedHeader H} `{SyncHeader H} `{TimeCacher B}.
Context {FD : forkDetector H B} {Su : Surroundings H B W Body Err}.
Implicit Types (s : baseBootstrap H B W) (env : detectorEnv B).

(** C28: rollBack ends: it turns at most once for each ancestor of the current block, whatever
    the surroundings answer. *)
Theorem rollBack_terminates env revertUsingForkNonce s :
  (forall h, GetCurrentBlockHeader s = Some h -> linked h) ->
  exists r, rollBackLoop (rollBackFuel s) env revertUsingForkNonce false s = Some r.
Proof.
  intros Hl. destruct (rollBackLoop _ _ _ _ s) as [r|] eqn:E; [by exists r|]. exfalso. revert E.
  apply rollBackLoop_some; [done|]. unfold turnsLeft, rollBackFuel, getNonceForCurrentBlock.
  destruct (GetCurrentBlockHeader s); lia.
Qed.

(** when nothing fails, rollBack takes the chain to the block just before the fork: all
    the blocks with the nonce of the fork and above are rolled back, and no other. *)
Theorem rollBack_to_fork env s top l p :
  calm (Su := Su) -> GetCurrentBlockHeader s = Some top -> chainDown l p -> head l = Some top ->
  (forall i h, l !! i = Some h -> GetNonce h = GetNonce top - Z.of_nat i) ->
  (forall h, last l = Some h -> GetNonce h = fiNonce (bbForkInfo s)) -> 0 < fiNonce (bbForkInfo s) ->
  exists s', rollBack env true s = (s', inr tt) /\
    GetCurrentBlockHeader s' = if 1 <? fiNonce (bbForkInfo s) then Some p else None.
Proof.
  intros Hcalm Hcur Hdown Hhead Hnon Hlast Hpos.
  assert (Hlen : (length l <= rollBackFuel s)%nat).
  { unfold rollBackFuel, getNonceForCurrentBlock. rewrite Hcur. destruct (last l) as [b|] eqn:El; [|apply last_None in El; by subst].
    pose proof (Hlast b eq_refl) as Hb. rewrite last_lookup in El. specialize (Hnon _ _ El). lia. }
  destruct (rollBackLoop_reaches env l p Hcalm Hdown false s top Hcur Hhead Hlast Hnon Hpos _ Hlen) as (s' & E & C).
  exists s'. unfold rollBack. by rewrite E.
Qed.

(** C14: going back because of a fork among the headers never takes the chain below the final
    block, wherever it stops: such a fork is above the final nonce, and rollBack does not
    pass the nonce of the fork. *)
Theorem fork_rollback_keeps_final env s s' h r :
  rangesAll env -> (forall n l, headers (bbDetector s) !! n = Some l -> n < MaxUint64) ->
  bbIsNodeStateCalculated s = false ->
  IsDetected (bbForkInfo (computeNodeState env s)) = true -> fiHash (bbForkInfo (computeNodeState env s)) <> None ->
  GetCurrentBlockHeader s = Some h -> linked h -> GetHighestFinalBlockNonce (bbDetector s) <= GetNonce h ->
  rollBack env true (computeNodeState env s) = (s', r) ->
  GetHighestFinalBlockNonce (bbDetector s) <= match GetCurrentBlockHeader s' with Some h' => GetNonce h' | None => 0 end.
Proof.
  intros Hr Hk Hcalc Hdet Hhash Hcur Hlink Hfin. set (s1 := computeNodeState env s) in *.
  assert (Hinfo : bbForkInfo s1 = (CheckFork env (bbDetector s)).2 /\ bbChain s1 = bbChain s).
  { unfold s1, computeNodeState. rewrite Hcalc, andb_false_r. by destruct (CheckFork env (bbDetector s)). }
  destruct Hinfo as [Hinfo Hchain].
  assert (Hcur1 : GetCurrentBlockHeader s1 = Some h) by (unfold GetCurrentBlockHeader in *; by rewrite Hchain).
  assert (Hn : GetHighestFinalBlockNonce (bbDetector s) < fiNonce (bbForkInfo s1)).
  { rewrite Hinfo in *. destruct (isConsensusStuck env (bbDetector s)) eqn:Es.
    { unfold CheckFork in Hhash. by rewrite Es in Hhash. }
    destruct (Z.ltb_spec (getRollBackNonce (bbDetector s)) MaxUint64) as [Hb|Hb].
    { unfold CheckFork in Hhash. rewrite Es, (proj2 (Z.ltb_lt _ _) Hb) in Hhash. done. }
    destruct (checkLoop_spec (bbDetector s) (mapRange env (headers (bbDetector s)))) as (m & _ & L).
    { intros n l Hin. apply (ranged_elem (headers (bbDetector s))) in Hin; [|apply Hr]. eauto. }
    unfold CheckFork in Hdet |- *. rewrite Es, (proj2 (Z.ltb_ge _ _) Hb) in Hdet |- *.
    destruct L as [[E _]|(n & r0 & h0 & -> & F & _)]; [by rewrite E in Hdet|]. apply forkAt_above. simpl. by rewrite F. }
  unfold rollBack. destruct (rollBackLoop (rollBackFuel s1) env true false s1) as [[s2 r2]|] eqn:E.
  2:{ intros [= <- <-]. by rewrite Hcur1. }
  intros [= <- <-]. destruct (Z.le_gt_cases (fiNonce (bbForkInfo s1) - 1) (GetNonce h)) as [Hle|Hgt].
  - assert (Hb : notBelow (fiNonce (bbForkInfo s1)) s2).
    { eapply rollBackLoop_floor; [|exact E|unfold notBelow; by rewrite Hcur1]. intros h' E'. rewrite Hcur1 in E'. by injection E' as <-. }
    unfold notBelow in Hb. destruct (GetCurrentBlockHeader s2); lia.
  - unfold rollBackFuel in E. cbn [rollBackLoop] in E. rewrite Hcur1 in E. simpl negb in E. cbn [andb] in E.
    rewrite (proj2 (Z.ltb_lt _ _)) in E by lia.
    assert (E2 : s2 = nothingRolledBack false (currentBlockHeaderHash (bbChain s1)) (Some h) s1) by congruence.
    destruct (nothing_view false (currentBlockHeaderHash (bbChain s1)) (Some h) s1) as [C _].
    unfold GetCurrentBlockHeader in *. by rewrite E2, C, Hcur1.
Qed.
End Synchronization.

(** ** A node and its headers, for the hypotheses of the theorems *)

Module ForkInstances.

(** The elements of a concrete list, one by one. *)
Ltac each_elem Hh := repeat (apply elem_of_cons in Hh as [->|Hh]; [try done|]); try (by apply elem_of_nil in Hh).

Record exHeader := mkExHeader { exEpoch : Z; exRound : Z; exNonce : Z; exPrev : slice }.

#[export] Instance exHeaderHandler : HeaderHandler exHeader := {|
  GetEpoch := exEpoch; GetRound := exRound; GetNonce := exNonce; GetShardID := fun _ => 0;
  GetPrevHash := exPrev; GetPrevRandSeed := fun _ => None; GetRandSeed := fun _ => None;
  IsStartOfEpochBlock := fun _ => false; CheckFieldsForNil := fun _ => true;
  GetPubKeysBitmap := fun _ => None; GetSignature := fun _ => None; GetLeaderSignature := fun _ => None;
  SetPubKeysBitmap := fun _ _ => None; SetSignature := fun _ _ => None; SetLeaderSignature := fun _ _ => None;
  SetPrevHash := fun _ _ => None; SetShardID := fun _ _ => None; SetTimeStamp := fun _ _ => None;
  SetPrevRandSeed := fun _ _ => None; SetRandSeed := fun _ _ => None; SetChainID := fun _ _ => None;
|}.

(** Rounds of six seconds from the time 0. *)
#[export] Instance exTimedHeader : TimedHeader exHeader := fun h => 6 * exRound h.
#[export] Instance exSyncHeader : SyncHeader exHeader := {| HasScheduledMiniBlocks := fun _ => false; GetRootHash := fun _ => Some [] |}.

(** A black list with no entries. *)
#[export] Instance exCacher : TimeCacher unit := {| Has := fun _ _ => false; Add := fun _ _ => None |}.

Definition exEnv (round : Z) : detectorEnv unit := mkDetectorEnv round 6 (fun b => b) map_to_list.
Lemma exEnv_ranges round : rangesAll (exEnv round).
Proof. intros m. reflexivity. Qed.

Definition exEnvRev (round : Z) : detectorEnv unit := mkDetectorEnv round 6 (fun b => b) (fun m => rev (map_to_list m)).
Lemma exEnvRev_ranges round : rangesAll (exEnvRev round).
Proof. intros m. simpl. symmetry. apply Permutation_rev. Qed.

(** Two blocks with the nonce 3; the node has processed the later one. *)
Definition exA : headerInfo := mkHeaderInfo 0 3 5 (Some [1]) BHReceived.
Definition exB : headerInfo := mkHeaderInfo 0 3 6 (Some [2]) BHReceived.
Definition exList : list headerInfo := [exA; exB; asProcessed exB].
Definition exFinal : checkpointInfo := mkCheckpointInfo 2 4 (Some [9]).
Definition exFork : forkInfo := mkforkInfo [exFinal; mkCheckpointInfo 3 6 (Some [2])] exFinal 3 3 MaxUint64 0.
Definition exD : baseForkDetector unit := mkDetector {[3 := exList]} exFork tt 0 0 0 0 0.

Lemma exD_headers n l : headers exD !! n = Some l -> n = 3 /\ l = exList.
Proof.
  change (headers exD) with ({[3 := exList]} : gmap Z (list headerInfo)). by intros [<- <-]%lookup_singleton_Some.
Qed.

Lemma ex_elem (P : headerInfo -> Prop) : P exA -> P exB -> P (asProcessed exB) -> forall h, h ∈ exList -> P h.
Proof. intros PA PB PC h Hh. unfold exList in Hh. each_elem Hh. Qed.

Lemma CheckFork_lowest_fork_witness :
  (CheckFork (exEnv 7) exD).2 = mkForkInfo true 3 5 (Some [1]) /\
  (CheckFork (exEnvRev 7) exD).2 = (CheckFork (exEnv 7) exD).2.
Proof.
  split; [vm_compute; reflexivity|].
  refine (proj1 (CheckFork_lowest_fork (exEnv 7) (exEnvRev 7) exD (exEnv_ranges 7) (exEnvRev_ranges 7) eq_refl _ _ _)).
  - vm_compute. reflexivity.
  - reflexivity.
  - intros n l [-> _]%exD_headers. reflexivity.
Defined.

Lemma ex_common : commonHeaders 3 [exA; exB].
Proof.
  assert (G : forall P : headerInfo -> Prop, P exA -> P exB -> forall h, h ∈ [exA; exB] -> P h).
  { intros P PA PB h Hh. each_elem Hh. }
  split.
  - by apply G.
  - apply G; unfold MaxUint64; simpl; lia.
  - intros g h Hg Hh. each_elem Hg; each_elem Hh.
Qed.

Lemma ex_sees : sees [exA; exB] exB exList.
Proof.
  split.
  - unfold exList. set_solver.
  - apply ex_elem; [right; set_solver|right; set_solver|by left].
  - intros h Hh. left. unfold exList. set_solver.
Qed.

Lemma ex_preferred : preferred [exA; exB] exA.
Proof.
  split; [left|]. intros h Hh. right. each_elem Hh; (split; [reflexivity|]).
  - right. split; [reflexivity|]. vm_compute. reflexivity.
  - left. reflexivity.
Qed.

Lemma fork_choice_converges_witness : forkAt exD 3 = Some (5, Some [1]).
Proof.
  rewrite (fork_choice_converges exD 3 exList [exA; exB] exB exA);
    [reflexivity|reflexivity|reflexivity|exact ex_common|right; left|exact ex_sees|exact ex_preferred].
Defined.

(** The same, when the metachain has notarized a third block. *)
Definition exN : headerInfo := mkHeaderInfo 0 3 7 (Some [4]) BHNotarized.
Definition exListN : list headerInfo := [exA; exN; asProcessed exB].
Definition exDN : baseForkDetector unit := mkDetector {[3 := exListN]} exFork tt 0 0 0 0 0.

Lemma notarized_header_wins_witness : forkAt exDN 3 = Some (0, Some [4]).
Proof.
  rewrite (notarized_header_wins exDN 3 exListN (asProcessed exB) exN); [reflexivity|reflexivity|reflexivity| | |reflexivity|].
  - split; [unfold exListN; set_solver|reflexivity| |]; intros h Hh; unfold exListN in Hh; each_elem Hh; intros; reflexivity.
  - unfold exListN. set_solver.
  - intros h Hh. unfold exListN in Hh. each_elem Hh.
Defined.

(** A header that came too late counts for the highest epoch although it is ignored: the
    others have a lower epoch and are left out, and the fork is not found. *)
Definition exLate : headerInfo := mkHeaderInfo 1 3 5 (Some [3]) BHReceivedTooLate.
Definition exForkHigher : forkInfo := mkforkInfo (fkCheckpoint exFork) exFinal 3 4 MaxUint64 0.
Lemma late_header_hides_fork :
  forkAt (mkDetector {[3 := exList]} exForkHigher tt 0 0 0 0 0 : baseForkDetector unit) 3 = Some (5, Some [1]) /\
  forkAt (mkDetector {[3 := exLate :: exList]} exForkHigher tt 0 0 0 0 0 : baseForkDetector unit) 3 = None.
Proof. split; reflexivity. Qed.

(** The node goes to the other block. *)
Definition exHeaderA : exHeader := mkExHeader 0 5 3 (Some [9]).
Definition exResolved : baseForkDetector unit :=
  (addHeader (FD := shardForkDetector) (exEnv 7) (Some exHeaderA) (Some [1]) BHProcessed [] []
    (RemoveHeader (FD := shardForkDetector) (exEnv 7) 3 (Some [2]) exD)).1.

Lemma fork_resolved_witness : forkAt exResolved 3 = None.
Proof.
  apply (fork_resolved shardForkDetector (exEnv 7) (exEnv 7) exD exResolved 3 5 [1] exList (asProcessed exB) exHeaderA [] []).
  - constructor.
  - apply exEnv_ranges.
  - reflexivity.
  - reflexivity.
  - unfold exList. set_solver.
  - reflexivity.
  - intros y Hy. unfold exList in Hy. each_elem Hy.
  - intros y Hy. unfold exList in Hy. each_elem Hy; unfold soundHeader, MaxUint64; simpl; lia.
  - reflexivity.
  - unfold MaxUint64. simpl. lia.
  - simpl. lia.
  - intros y Hy. unfold exList in Hy. each_elem Hy.
  - intros i h hash Hh. done.
  - vm_compute. reflexivity.
Defined.

(** A shard processes a block that the metachain notarizes. *)
Definition exGenesis : exHeader := mkExHeader 0 0 0 None.
Definition exHeader1 : exHeader := mkExHeader 0 1 1 None.
Definition exS0 : baseForkDetector unit := NewForkDetector exGenesis tt 0.
Definition exS1 : baseForkDetector unit :=
  (addHeader (FD := shardForkDetector) (exEnv 1) (Some exHeader1) (Some [7]) BHProcessed [] [] exS0).1.
Definition exS2 : baseForkDetector unit :=
  (ReceivedSelfNotarizedFromCrossHeaders (exEnv 3) MetachainShardId [exHeader1] [Some [7]] exS1).1.

Lemma ex_shard_run : rtc shardCall exS0 exS1.
Proof.
  apply rtc_once. unfold exS1. apply shard_processed; [apply exEnv_ranges|simpl; lia|].
  intros h [= <-]. reflexivity.
Qed.

Lemma shard_final_monotone_witness : GetHighestFinalBlockNonce exS2 = 1 /\
  GetHighestFinalBlockNonce exS1 <= GetHighestFinalBlockNonce exS2.
Proof.
  split; [vm_compute; reflexivity|].
  refine (proj1 (shard_final_monotone exGenesis tt 0 exS1 exS2 ex_shard_run _)).
  apply rtc_once. unfold exS2. apply shard_notarized; [apply exEnv_ranges|simpl; lia].
Defined.

Lemma headers_well_formed_witness : headersWf exS1.
Proof.
  apply (headers_well_formed shardForkDetector exGenesis tt 0); [constructor|].
  apply rtc_once. unfold exS1. apply call_add, exEnv_ranges.
Defined.

(** The metachain processes two blocks. *)
Definition exHeader2 : exHeader := mkExHeader 0 2 2 None.
Definition exM1 : baseForkDetector unit :=
  (addHeader (FD := metaForkDetector) (exEnv 1) (Some exHeader1) (Some [7]) BHProcessed [] [] exS0).1.
Definition exM2 : baseForkDetector unit :=
  (addHeader (FD := metaForkDetector) (exEnv 2) (Some exHeader2) (Some [8]) BHProcessed [] [] exM1).1.

Lemma ex_small h : 0 <= exNonce h < 5 -> smallNonce (GetNonce h).
Proof. intros Hh. unfold smallNonce. simpl. lia. Qed.

Lemma meta_final_monotone_witness : GetHighestFinalBlockNonce exM2 = 1 /\
  GetHighestFinalBlockNonce exM1 <= GetHighestFinalBlockNonce exM2.
Proof.
  split; [vm_compute; reflexivity|].
  apply (meta_final_monotone exGenesis tt 0); [apply ex_small; simpl; lia| |].
  - apply rtc_once. unfold exM1. apply meta_add. intros h [= <-]. apply ex_small. simpl. lia.
  - apply rtc_once. unfold exM2. apply meta_add. intros h [= <-]. apply ex_small. simpl. lia.
Defined.

(** The node of the fork above, with its chain: the block 3 on the block 2. *)
Definition exTop : exHeader := mkExHeader 0 6 3 (Some [9]).
Definition exBelow : exHeader := mkExHeader 0 4 2 (Some [8]).

#[export] Instance exWorld : Surroundings exHeader unit unit unit unit := {|
  storedHeader := fun hash => if beq (raw hash) [9] then inr exBelow else inl tt;
  calculateHash := fun _ => Some [2];
  getBlockBody := fun _ _ => Some tt;
  RemoveHeaderByHash := fun _ w => w; RemoveHeadersHigherThanNonce := fun _ w => w;
  RemoveNonceHash := fun _ w => w; SaveLastRound := fun _ w => w;
  GetScheduledRootHashForHeader := fun _ _ => None; GetScheduledRootHash := fun _ => None;
  RollBackToBlock := fun _ w => (w, inr tt); SetScheduledInfo := fun _ w => w;
  RevertStateToBlock := fun _ _ w => (w, inr tt); PruneStateOnRollback := fun _ _ _ _ w => w;
  RestoreBlockIntoPools := fun _ _ w => (w, inr tt); NonceOfFirstCommittedBlock := fun _ => None;
  ProcessBlock := fun _ _ w => (w, inr tt); ProcessScheduledBlock := fun _ _ w => (w, inr tt);
  CommitBlock := fun _ _ w => (w, inr tt);
  RevertBlock := fun _ _ w => (w, inr tt); RevertIndexedBlock := fun _ _ _ w => w;
  IsConnectedToTheNetwork := fun _ => true; EpochIsActiveInNetwork := fun _ _ => true;
  getHeaderWithHashRequestingIfMissing := fun _ w => (w, inl tt);
  getHeaderWithNonceRequestingIfMissing := fun _ w => (w, inl tt);
  getBlockBodyRequestingIfMissing := fun _ w => (w, inl tt);
  isTimeOut := fun _ => false; isInImportMode := false; isShardNode := true;
|}.

Definition exBoot : baseBootstrap exHeader unit unit :=
  mkBootstrap exD (mkBlockChain exGenesis (Some exTop) (Some [2]) (Some [])) tt NewForkInfo false false false 0 ∅.
Definition exBootFork : baseBootstrap exHeader unit unit := computeNodeState (exEnv 7) exBoot.
#[local] Instance exKind : forkDetector exHeader unit := shardForkDetector.

Lemma ex_linked : linked (Su := exWorld) exTop.
Proof.
  constructor; [simpl; lia|]. intros p. simpl. intros [= <-]. split; [done|].
  constructor; [simpl; lia|]. intros p. done.
Qed.

Lemma rollBack_terminates_witness :
  exists r, rollBackLoop (rollBackFuel exBootFork) (exEnv 7) true false exBootFork = Some r.
Proof. apply rollBack_terminates. intros h [= <-]. exact ex_linked. Defined.

Lemma rollBack_to_fork_witness : exists s', rollBack (exEnv 7) true exBootFork = (s', inr tt) /\
  GetCurrentBlockHeader s' = Some exBelow.
Proof.
  apply (rollBack_to_fork (Su := exWorld) (exEnv 7) exBootFork exTop [exTop] exBelow).
  - split; reflexivity.
  - reflexivity.
  - apply down_one. reflexivity.
  - reflexivity.
  - intros [|i] h; [|done]. by intros [= <-].
  - by intros h [= <-].
  - reflexivity.
Defined.

Lemma fork_rollback_keeps_final_witness :
  2 <= match GetCurrentBlockHeader (rollBack (exEnv 7) true exBootFork).1 with Some h' => GetNonce h' | None => 0 end.
Proof.
  apply (fork_rollback_keeps_final (exEnv 7) exBoot _ exTop (rollBack (exEnv 7) true exBootFork).2).
  - apply exEnv_ranges.
  - intros n l [-> _]%exD_headers. reflexivity.
  - reflexivity.
  - vm_compute. reflexivity.
  - vm_compute. discriminate.
  - reflexivity.
  - exact ex_linked.
  - vm_compute. discriminate.
  - fold exBootFork. by destruct (rollBack (exEnv 7) true exBootFork).
Defined.
End ForkInstances.
